(* ===== verification/_CoqProject ===== *)
-Q . S2P
Prelude.v
Common.v
Libc.v
Regex.v
Error.v
Breader.v
Rng.v
PrioQueue.v
Generator.v
Muxer.v
Filter.v
Pipeline.v
HashMap.v
Clock.v
RbTree.v
RbRotate.v
RbInsert.v
Ival.v
IvalTree.v
IvalSearch.v
FldCls.v
Metadata.v
MetadataAccess.v
Json.v
CtfJson.v
JsonUtils.v
JsonRng.v
Mappings.v
MappingsTree.v
FldClsParse.v
FldClsJson.v
FldClsParseInv.v
MetadataParse.v
MetadataText.v
MetadataPkt.v
MetadataInv.v
Fld.v
Scalar.v
Arena.v
Decoder.v
DecoderInv.v
Samples.v
DecoderEdge.v
DecoderSpec.v
FieldSpec.v
DecoderRefine.v
StreamSpec.v
DecoderSeek.v
DecoderLocate.v
DecoderPkt.v
StreamSim.v
StreamRefine.v
MetadataSafe.v
Print.v
PrintNum.v
PrintSpec.v
Tstamp.v
TstampText.v
Freader.v
FreaderSpec.v
StreamDecode.v
StreamSeek.v
StreamRest.v
Actf.v
ActfOpt.v
ActfSpec.v
Program.v
Crust.v
DecodePrint.v
