(* ===== verification/Prelude.v ===== *)
(** * A verification library for actf, a reader of CTF 2 traces

    actf decodes data streams in the Common Trace Format into events.  A
    metadata stream, JSON text that is plain or cut into packets, is parsed into a
    metadata object, which says which fields the packets and events of the data
    streams have.  A data stream is a block of bytes; a decoder reads packets and
    events from the block; the decoders of several streams are joined by a muxer
    and cut to a time range by a filter.  Decoder, muxer and filter have one
    interface, the event generator.  A file reader opens the directories of a trace
    and puts these together, a printer writes events as text, and the command line
    program actf does both.  This library models these parts, from the bits and the
    JSON values up to the text of the program, and proves what each promises to the
    next.

    ** Files and sources

    Prelude     this file: machine integers, outcomes and the state monad,
                memory blocks, tactics and shared lemmas
    Common      types.h, crust/common.h: return codes, enumerations, byte swaps
    Error       error.c: the buffer of error messages, the table of codes
    Breader     breader.c: the bit reader; its refinement of an abstract bit stream
    Rng         rng.c, flags.c: range sets and flags
    PrioQueue   prio_queue.h: the binary heap
    Generator   event_generator.h: the interface as a class, draining and merging
    Muxer       muxer.c: the muxer over any generators
    Filter      filter.c: the time filter over any generator
    Pipeline    filter over muxer over streams
    HashMap     crust/map.h, crust/map_util.h: the open-addressing map
    Clock       metadata.c: clock classes and conversion to nanoseconds
    RbTree      crust/rb_tree.c: red-black trees with parent pointers in memory
    RbRotate    trees and paths, how memory holds them, and rotation
    RbInsert    rebalancing after insertion, its refinement and what it keeps
    Ival        crust/ival.h: interval trees, insertion and search
    IvalTree    what insertion gives
    IvalSearch  what a search finds, and the matches that repeated searches give
    FldCls      fld_cls.c, fld_cls_int.h, fld_loc.c: field classes and locations
    Metadata    metadata_int.h, metadata.c: event and data stream classes
    MetadataAccess               metadata.c: the accessors and iterators of users
    Json        the interface to json-c, allocation, and the rule for parsers
    CtfJson     ctfjson.c: attributes as fields with generated classes
    JsonUtils   json_utils.c: the getters of JSON properties
    JsonRng     what the ranges of JSON metadata denote
    Mappings    mappings.c: integer mappings, raw and as interval trees; print.c:
                the names of a number
    MappingsTree                 the tree finds what the raw mappings find
    FldClsParse fld_cls.c: the parsers of field classes
    FldClsJson  field classes written as JSON, and their round trip
    FldClsParseInv               what parsing a field class establishes
    MetadataParse                metadata.c: fragments and the checks between them
    MetadataText                 metadata.c: text sequences, packets, streams
    MetadataPkt packet headers and packetised streams, against the text they carry
    MetadataInv what parsing a fragment establishes
    Fld         fld.c, pkt.c, event.c, pkt_state.h, event_state.h: fields, packets,
                events and their accessors
    Scalar      decoder.c, up to the scalar readers: alignment, bit arrays, LEB128
                integers, strings, blobs, the default clock
    Arena       crust/arena.h: the region allocator
    Decoder     decoder.c, the rest: field location, every field class, roles,
                events, packets, decode and seek
    DecoderInv  the invariant of the decoder and the rule for such invariants
    Samples     concrete metadata and data for the examples
    DecoderEdge the end of packets, and behaviours at the edges
    DecoderSpec the specification of the scalar readers on an abstract cursor
    FieldSpec   the specification of fields: all classes, locations and roles
    DecoderRefine                fields in place refine it
    StreamSpec  the specification of events, packets and whole data streams
    StreamRefine                 decoding an event or a packet header refines it
    StreamDecode                 the calls of decode yield the specified stream
    StreamSim   a stream can be entered at any packet: what came before has no effect
    StreamSeek  after a seek the calls yield the specified part of it
    StreamRest  a seek of a truthful stream loses no event, after any use
    DecoderSeek the protocol of decode and seek
    DecoderLocate                field location and selectors
    DecoderPkt  what an accepted packet satisfies, and what events leave of it
    MetadataSafe                 from metadata text to a safe decoder
    Libc        what the C standard and POSIX say of printf, strtoull, gmtime and
                strftime; no code of the repository
    Regex       POSIX extended regular expressions: parsing and matching
    Print       print.c: numbers, strings, fields, time stamps, events
    PrintNum    printed numbers are read back
    PrintSpec   the text of a field and of an event, and that it is what is printed
    Tstamp      actf.c: the bounds of -b and -e, dates and their conversion
    TstampText  printed time stamps are parsed
    Freader     freader.c; metadata.c: reading files
    FreaderSpec what opening gives and gives back, and what reading yields
    Actf        actf.c: options, the reading loop, main
    ActfOpt     what the options select
    ActfSpec    what the program writes
    Program     what it writes, as a function of the bytes of the files
    DecodePrint what the decoder decodes, the printer prints
    Crust       crust/vec.h, gvec.h, slist.h, map_util.h, event_generator.c:
                containers that the rest has as lists, hashes without a user here

    ** How the model corresponds to the code

    Functions keep their names.  A struct is a Record, an enum or tagged union an
    Inductive type with the source's constructors; integers are [Z] with the
    wrap-around of their C type written out ([u64], [i64], ...).  A function that
    returns an ACTF code is a program of the state monad [st]: [Ok] is ACTF_OK, [Err
    rc] a negative code, and [Undef] an assertion that fails or behaviour that C
    leaves undefined (an access outside an object, a shift by the width).  An
    error leaves the changes made before it, as in C.  The message of an error is
    not modelled, except where formatting it is undefined or where the program
    writes it.

    The parsers work on objects of json-c, which is not part of the repository:
    [Json.JsonC] is the part of its interface that they call, [Json.JsonCLaws] what
    its documentation promises, [MetadataText.Tokener] and [MetadataPkt.TokenerLaws]
    the same for the tokener; all have concrete instances, on which the examples
    run.  Whether the n-th [malloc] of a parser succeeds, and what memory holds
    that is read before it is written, are parameters ([Json.Heap]).  A pointer
    into a map is the index of its slot.

    A pointer into the data is an offset.  A field is a tree and a pointer to a
    field is a root (a property of the packet or event) and a path of indices;
    the decoder writes fields in place, through [modify_fld].  The arena allocator
    is modelled for its size arithmetic; the array of fields it hands out is a list
    in the tree.  Whether the n-th [malloc] of an arena succeeds is a parameter.
    Floating-point values are their bit patterns.  An integer class holds the interval
    tree that [Mappings.actf_mappings_init] makes of its mappings when it is parsed;
    [qsort] is a parameter ([Mappings.QSort], with the law of the C standard), and
    calling it with a comparison that does not order the array is [Undef].

    ** What is proved

    - The whole path ([MetadataSafe.parsed_metadata_decodes_safely]): whatever
      metadata texts are parsed, and whatever data and calls follow, the decoder's reader
      stays inside the data and the events it returns are within the capacity and of
      the class of their id, if no alignment in the metadata is 0 (the parser accepts
      0, which it should not).  It composes the invariant of the parser below with that
      of the decoder.
    - Metadata: a fragment extends the metadata and keeps its rules or leaves it
      as it was ([MetadataInv]); a packetised stream parses as the text it carries,
      and headers are accepted exactly when they are valid ([MetadataPkt]).
    - Field classes: what the parser returns satisfies what CTF asks
      ([FldClsParseInv]), and every class within the program's limits on lengths
      and ranges ([FldClsJson.fc_canon]) is read back from its JSON ([FldClsJson]); parsing is
      undefined only where an allocation fails, a clock class is missing or the ranges
      of a mapping cannot be sorted ([FldClsParseInv.disordered]); the ranges of a property denote the integers
      of its ranges ([JsonRng]); conversion of attributes cannot fail ([CtfJson]).
    - Decoder, safety ([DecoderInv.decoder_calls_safe]): for any data,
      allocation failures and sequence of calls, the reader stays in its data and
      the events handed out are within the capacity and have the class of their
      id.  [Arena.arena_alloc_correct] is the allocator's part of it.
    - Decoder, fields: [DecoderRefine.fld_cls_decode_refines] shows that decoding
      in place, with its cursor, allocation and parent pointers, gives exactly the
      field that the specification [FieldSpec.spec_fld] computes as a function of
      the bits and of the fields before it, or the same error.  It covers every class,
      the lengths, selectors and optionals that locations find, and the effect of
      roles on the packet and the event, where no allocation fails; it leaves open what C
      leaves open (an eleven-byte integer, a byte order that changes inside a byte
      before alignment, sizes that wrap around, an assertion that fails).
      The scalar theorems of [Scalar] are its base cases, and
      [Breader.breader_refines_stream] the base of these.
    - Decoder, streams: [StreamSpec.spec_stream] gives the events of a data stream, each
      with its packet, and how it ends, by recursion on packets and events and without
      arrays, resumption or saved errors.  [StreamDecode.decoder_yields_stream]: for any
      capacity, the arrays of successive calls are these events in order, and the end or
      the error comes after them.  The packet of an event is the same but for the
      clock and the byte order that advance with the events ([DecoderPkt.same_packet]).
      [StreamSpec.spec_seek] is the part of a stream from a time on, by the times at the
      ends of packets and of events, and [StreamSeek.seek_yields_rest] shows that a seek
      of a new decoder leaves exactly it.  [StreamRest.seek_loses_nothing] compares it with
      the whole stream: where packets tell the truth about their ends, a seek leaves exactly
      the events from the first at or after the time on, although the packets on the way are
      not read, and whatever was read or sought before.  It rests on relational lemmas
      ([StreamSim]): what a stream gives from a packet on depends on the data and the
      position alone.
    - Decoder, protocol: the error contract, accepted packets, the end of a
      packet, field location and what variants and optionals make of their selectors.
    - Muxer, Filter, Pipeline: over any generators that drain, the output is the
      sorted merge of the events in the range; seek and errors; a muxer that was read
      from can be sought ([Muxer.fresh_muxer_reseeks]).
    - Containers: the heap sorts and keeps its multiset; the map refines a finite
      map for insertion and lookup; range sets and masks denote sets of integers.
    - Integer mappings: building the interval tree and looking numbers up in it
      ([MappingsTree.mappings_tree_finds_all]) gives exactly the names that the
      ranges give one by one, where no negative number is involved and the ranges
      can be ordered; the tree that is built is always valid, and building it is
      undefined without an order ([MappingsTree.mappings_init_builds]); the steps are the refinement of the pointer code by an algorithm
      on paths, the invariant of insertion
      ([IvalTree.interval_insert_keeps_tree]) and the order of the search.
    - The program ([Program.program_prints_streams]): given options, directories and
      the bytes of the files, the standard output of actf is the text of the merge by
      time of all data streams, in the range asked for; it closes and unmaps all it
      opened on every path ([ActfSpec.main_gives_back]).  It is composed of the reader
      ([FreaderSpec]), muxer and filter, the reading loop
      ([ActfSpec.read_events_writes], with its counts and failures), the options
      ([ActfOpt]) and the streams: the output is the text of the merge of what [spec_stream] makes of the metadata and the
      bytes of the data files, or with [-b] or [-e] exactly of the events of that merge
      that are in the range; a bound without a date takes the day of the first event.  [ActfSpec.main_runs] runs it on a directory, from the metadata text.
    - Text: an event is printed as a text that is a function of its fields, strings
      by what iconv makes of all their bytes, whatever the size of the buffer
      ([PrintSpec]); whatever the decoder makes of a class that can be shown has such
      a text ([DecodePrint.decoded_field_prints]); printed integers denote the number ([PrintNum]); dates and
      seconds are parsed to the time stamp they were printed from ([TstampText]), for
      which the calendar of [Tstamp.c_gmtime_correct] and the matching of the
      regular expressions are proved.
    - Conversions: cycles to nanoseconds are exact in the stated bounds; names and
      enumerators convert back and forth.
    - Deviations: theorems that state where the code does not do what it means to
      (undefined shifts, lost map entries, a seek that never ends, ...).

    ** Fuel and bounds

    Loops that are not structural have fuel.  Those whose bound is known run with
    it and the theorems show that it is enough: the heap loops (the number of
    nodes), the probing loops (the number of slots), [reverse_bits] (64 rounds),
    LEB128 (the eleventh byte is undefined, so at most 12 rounds), the parsers of
    classes and attributes (the nesting depth of the JSON value), the fragments
    of a text and the packets of a stream (its length), the walks in a red-black
    tree (the number of nodes in memory) and the names of a number (the number of
    intervals).  The reading loop of the program has enough with a call for each
    event and one more, and printing with the nesting depth of the fields.  [loc_fuel]
    bounds the nesting of field location and the fuel of a seek is the number of
    its rounds: both are parameters, out of fuel is [Undef], and the theorems hold
    for every value of them.  The specification of a stream has fuel for its packets and
    events, since a class without fields makes events without end; its result does not
    depend on the fuel ([StreamSpec.spec_stream_fuel]).  Data is at most 2^62 bits, so that positions do not
    wrap around.

    ** What is not modelled

    Attributes, extensions, the environment and descriptions are converted by the
    parsers, since an error in them is an error of the metadata, and then dropped.
    The release functions only free memory.  The operating system is a parameter of
    the reader (what a path opens, what files hold, which calls fail), as are the time
    zone, iconv, getopt and the texts of error messages; open descriptors and mappings
    are counted.  Deletion from red-black
    trees, which the program does not use, is modelled and run on examples, without
    theorems.  The specification of a seek leaves open a stream in which a packet
    ends with an error before any event at or after the time, since the seek then goes on
    in the middle of the packet ([DecoderEdge.seek_diverges_after_error] runs one such
    stream). *)
From Stdlib Require Export ZArith Lia Bool List Btauto.
From stdpp Require Export base list gmap option.
From stdpp Require Import strings.

Open Scope Z_scope.

(** * Fixed-width integers

    A C integer of width [w] is a [Z] kept in range by the wrap-around written
    out where C performs it.  [u64] is the value of an expression of type
    [uint64_t] or [size_t] (LP64), [i64] of an [int64_t], [i32] of an [int]. *)

Definition u64 (x : Z) : Z := x mod 2 ^ 64.
Definition u32 (x : Z) : Z := x mod 2 ^ 32.
Definition u16 (x : Z) : Z := x mod 2 ^ 16.
Definition u8 (x : Z) : Z := x mod 2 ^ 8.

(** Conversion of an integer to a signed type of [w] bits (two's complement). *)
Definition wrap_signed (w x : Z) : Z :=
  let m := x mod 2 ^ w in if m <? 2 ^ (w - 1) then m else m - 2 ^ w.
Definition i64 (x : Z) : Z := wrap_signed 64 x.
Definition i32 (x : Z) : Z := wrap_signed 32 x.

Definition UINT64_MAX : Z := 2 ^ 64 - 1.
Definition INT64_MAX : Z := 2 ^ 63 - 1.
Definition INT64_MIN : Z := - 2 ^ 63.

(** The values of each C type. *)
Definition is_u64 (x : Z) : Prop := 0 <= x < 2 ^ 64.
Definition is_i64 (x : Z) : Prop := - 2 ^ 63 <= x < 2 ^ 63.
Definition is_byte (x : Z) : Prop := 0 <= x < 256.

(** C's [&&]-style truth of an integer. *)
Definition c_true (x : Z) : bool := negb (x =? 0).

(** * Outcomes and the state monad

    A C function that returns an [ACTF_*] code is a function of a state into an
    [outcome]: [Ok v] when it returns [ACTF_OK] (with [v] written through its
    out parameters), [Err rc] when it returns the negative code [rc], and
    [Undef] when an [assert] fails or the code reads or writes outside an
    object.  The state is returned in every case: an error leaves the updates
    made before it in place, as in C. *)
Inductive outcome (A : Type) : Type :=
| Ok (a : A)
| Err (rc : Z)
| Undef.
Arguments Ok {A} a.
Arguments Err {A} rc.
Arguments Undef {A}.

Definition st (S A : Type) : Type := S -> outcome A * S.

#[export] Instance st_ret S : MRet (st S) := fun A a s => (Ok a, s).
#[export] Instance st_bind S : MBind (st S) := fun A B k m s =>
  match m s with
  | (Ok a, s') => k a s'
  | (Err rc, s') => (Err rc, s')
  | (Undef, s') => (Undef, s')
  end.

Definition st_get {S} : st S S := fun s => (Ok s, s).
Definition st_put {S} (s' : S) : st S unit := fun _ => (Ok tt, s').
Definition st_modify {S} (f : S -> S) : st S unit := fun s => (Ok tt, f s).
Definition st_fail {S A} (rc : Z) : st S A := fun s => (Err rc, s).
Definition st_undef {S A} : st S A := fun s => (Undef, s).

(** [assert(b)]: the program aborts when [b] is false. *)
Definition c_assert {S} (b : bool) : st S unit :=
  fun s => if b then (Ok tt, s) else (Undef, s).

(** Run [m] on the part of the state that [get]/[put] select. *)
Definition st_zoom {S T A} (get : S -> T) (put : T -> S -> S) (m : st T A) : st S A :=
  fun s => let '(r, t) := m (get s) in (r, put t s).

(** The bytes of a memory block and the bits of a byte sequence: bit [p] of the
    little-endian numbering is bit [p mod 8] of byte [p / 8], and of the
    big-endian numbering bit [7 - p mod 8]. *)
Definition byte_at (d : list Z) (i : Z) : Z :=
  if i <? 0 then 0 else nth (Z.to_nat i) d 0.
Definition bit_le (d : list Z) (p : Z) : bool := Z.testbit (byte_at d (p / 8)) (p mod 8).
Definition bit_be (d : list Z) (p : Z) : bool := Z.testbit (byte_at d (p / 8)) (7 - p mod 8).

(** The integer whose little-endian bytes are [d] (a [memcpy] of bytes into an
    integer on a little-endian host). *)
Fixpoint le_load (d : list Z) : Z :=
  match d with
  | [] => 0
  | b :: d' => Z.lor b (Z.shiftl (le_load d') 8)
  end.

(** [memcpy] source: [n] bytes of block [d] from offset [off]. *)
Definition mem_slice (d : list Z) (off n : Z) : list Z :=
  take (Z.to_nat n) (drop (Z.to_nat off) d).

(** * Boolean checks over small ranges *)

Lemma forall_range (P : Z -> bool) (n : nat) :
  forallb P (map Z.of_nat (seq 0 n)) = true ->
  forall i, 0 <= i < Z.of_nat n -> P i = true.
Proof.
  intros H i Hi. rewrite forallb_forall in H. apply H.
  apply in_map_iff. exists (Z.to_nat i). split; [lia|]. apply in_seq. lia.
Qed.

(** * Bits of integers *)

Lemma pow2_pos n : 0 <= n -> 0 < 2 ^ n.
Proof. intros. apply Z.pow_pos_nonneg; lia. Qed.

Lemma testbit_mod2 n x i :
  0 <= n -> 0 <= i -> Z.testbit (x mod 2 ^ n) i = (i <? n) && Z.testbit x i.
Proof.
  intros. destruct (Z.ltb_spec i n).
  - rewrite Z.mod_pow2_bits_low by lia. done.
  - rewrite Z.mod_pow2_bits_high by lia. done.
Qed.

Lemma testbit_u64 x i : 0 <= i -> Z.testbit (u64 x) i = (i <? 64) && Z.testbit x i.
Proof. intros. unfold u64. apply testbit_mod2; lia. Qed.

Lemma testbit_high n x i : 0 <= x < 2 ^ n -> n <= i -> Z.testbit x i = false.
Proof.
  intros Hx Hi. destruct (Z.leb_spec 0 n).
  - rewrite <- (Z.mod_small x (2 ^ n)) by done. by apply Z.mod_pow2_bits_high.
  - rewrite Z.pow_neg_r in Hx by lia. lia.
Qed.

Lemma bits_bound n x :
  0 <= n -> 0 <= x -> (forall i, n <= i -> Z.testbit x i = false) -> x < 2 ^ n.
Proof.
  intros Hn Hx H. destruct (Z.eq_dec x 0) as [->|]; [by apply pow2_pos|].
  apply Z.log2_lt_pow2; [lia|].
  destruct (Z.ltb_spec (Z.log2 x) n); [done|].
  specialize (H (Z.log2 x)). rewrite Z.bit_log2 in H by lia. by discriminate H.
Qed.

Lemma testbit_ones n i : 0 <= n -> 0 <= i -> Z.testbit (2 ^ n - 1) i = (i <? n).
Proof.
  intros. replace (2 ^ n - 1) with (Z.ones n) by (rewrite Z.ones_equiv; lia).
  destruct (Z.ltb_spec i n); [apply Z.ones_spec_low | apply Z.ones_spec_high]; lia.
Qed.

Lemma u64_range x : is_u64 (u64 x).
Proof. apply Z.mod_pos_bound. done. Qed.

Lemma u64_small x : is_u64 x -> u64 x = x.
Proof. apply Z.mod_small. Qed.

Lemma u64_idemp x : u64 (u64 x) = u64 x.
Proof. apply u64_small, u64_range. Qed.

Lemma wrap_signed_small w x : 0 < w -> - 2 ^ (w - 1) <= x < 2 ^ (w - 1) -> wrap_signed w x = x.
Proof.
  intros Hw Hx. unfold wrap_signed.
  assert (E : 2 ^ w = 2 * 2 ^ (w - 1)) by (rewrite <- Z.pow_succ_r by lia; f_equal; lia).
  destruct (Z.leb_spec 0 x).
  - rewrite Z.mod_small by lia. destruct (Z.ltb_spec x (2 ^ (w - 1))); lia.
  - assert (E2 : x mod 2 ^ w = x + 2 ^ w).
    { symmetry. apply (Z.mod_unique_pos x (2 ^ w) (-1)); lia. }
    rewrite E2. destruct (Z.ltb_spec (x + 2 ^ w) (2 ^ (w - 1))); lia.
Qed.

Lemma wrap_signed_range w x : 0 < w -> - 2 ^ (w - 1) <= wrap_signed w x < 2 ^ (w - 1).
Proof.
  intros Hw. unfold wrap_signed.
  assert (E : 2 ^ w = 2 * 2 ^ (w - 1)) by (rewrite <- Z.pow_succ_r by lia; f_equal; lia).
  pose proof (Z.mod_pos_bound x (2 ^ w)). pose proof (pow2_pos (w - 1)).
  destruct (Z.ltb_spec (x mod 2 ^ w) (2 ^ (w - 1))); lia.
Qed.

Lemma wrap_signed_mod w x : 0 < w -> wrap_signed w x mod 2 ^ w = x mod 2 ^ w.
Proof.
  intros Hw. unfold wrap_signed. pose proof (pow2_pos w).
  destruct (Z.ltb_spec (x mod 2 ^ w) (2 ^ (w - 1))).
  - apply Z.mod_mod. lia.
  - rewrite <- (Z.mod_mod x (2 ^ w)) at 2 by lia.
    rewrite <- (Z_mod_plus_full (x mod 2 ^ w) (-1) (2 ^ w)). f_equal; lia.
Qed.

Create Rewrite HintDb zbits.
#[export] Hint Rewrite Z.lor_spec Z.land_spec Z.lxor_spec Z.ldiff_spec : zbits.
#[export] Hint Rewrite Z.shiftr_spec Z.shiftl_spec Z.lnot_spec Z.testbit_0_l using lia : zbits.
#[export] Hint Rewrite testbit_u64 testbit_ones using lia : zbits.
#[export] Hint Rewrite andb_false_r andb_false_l andb_true_r andb_true_l
  orb_false_r orb_false_l orb_true_r orb_true_l : zbits.

(** Decide every integer comparison of the goal. *)
Ltac zcmp :=
  repeat match goal with
  | |- context [ (?a <? ?b)%Z ] => destruct (Z.ltb_spec a b); try lia
  | |- context [ (?a <=? ?b)%Z ] => destruct (Z.leb_spec a b); try lia
  | |- context [ (?a =? ?b)%Z ] => destruct (Z.eqb_spec a b); try lia
  end.

Ltac zbits := autorewrite with zbits.

(** Linear arithmetic with division and modulo by constants. *)
Ltac zlia := Z.to_euclidean_division_equations; lia.

(** Prove an equality of integers bit by bit. *)
Tactic Notation "bitwise" ident(i) := apply Z.bits_inj'; intros i ?; zbits.

(** ** Masks: the low [l] bits of a word, and the others *)

Lemma land_ones_mod x l : 0 <= l -> Z.land x (2 ^ l - 1) = x mod 2 ^ l.
Proof. intros. replace (2 ^ l - 1) with (Z.ones l) by (rewrite Z.ones_equiv; lia). by rewrite Z.land_ones. Qed.

Lemma land_high x l : is_u64 x -> 0 <= l <= 64 -> Z.land x (u64 (Z.lnot (2 ^ l - 1))) = x - x mod 2 ^ l.
Proof.
  intros Hx Hl. rewrite <- (land_ones_mod x l) by lia.
  assert (E : x = Z.lor (Z.land x (u64 (Z.lnot (2 ^ l - 1)))) (Z.land x (2 ^ l - 1))).
  { bitwise i. destruct (Z.ltb_spec i 64); cbn [andb].
    - by destruct (i <? l), (Z.testbit x i).
    - rewrite (testbit_high 64 x) by done. by rewrite !andb_false_l. }
  assert (H : Z.land (Z.land x (u64 (Z.lnot (2 ^ l - 1)))) (Z.land x (2 ^ l - 1)) = 0).
  { bitwise i. destruct (i <? 64), (i <? l), (Z.testbit x i); done. }
  pose proof (Z.add_lor_land (Z.land x (u64 (Z.lnot (2 ^ l - 1)))) (Z.land x (2 ^ l - 1))) as Ha.
  rewrite H, <- E in Ha. lia.
Qed.

(** * Memory blocks *)

Lemma byte_at_range d i : Forall is_byte d -> is_byte (byte_at d i).
Proof.
  intros H. unfold byte_at. destruct (Z.ltb_spec i 0); [unfold is_byte; lia|].
  destruct (nth_in_or_default (Z.to_nat i) d 0) as [Hin | ->]; [|unfold is_byte; lia].
  rewrite Forall_forall in H. apply H. by apply list_elem_of_In.
Qed.

Lemma byte_at_oob d i : Z.of_nat (length d) <= i -> byte_at d i = 0.
Proof.
  intros. unfold byte_at. destruct (Z.ltb_spec i 0); [done|]. apply nth_overflow. lia.
Qed.

Lemma byte_at_cons b d i :
  0 <= i -> byte_at (b :: d) i = if i =? 0 then b else byte_at d (i - 1).
Proof.
  intros. unfold byte_at. destruct (Z.eqb_spec i 0) as [->|]; [done|].
  destruct (Z.ltb_spec i 0); [lia|]. destruct (Z.ltb_spec (i - 1) 0); [lia|].
  replace (Z.to_nat i) with (S (Z.to_nat (i - 1))) by lia. done.
Qed.

Lemma byte_at_slice d off n i :
  0 <= off -> 0 <= i -> byte_at (mem_slice d off n) i = if i <? n then byte_at d (off + i) else 0.
Proof.
  intros. unfold byte_at, mem_slice.
  destruct (Z.ltb_spec i 0); [lia|]. destruct (Z.ltb_spec (off + i) 0); [lia|].
  rewrite !nth_lookup. destruct (Z.ltb_spec i n).
  - rewrite lookup_take_lt by lia. rewrite lookup_drop.
    by replace (Z.to_nat off + Z.to_nat i)%nat with (Z.to_nat (off + i)) by lia.
  - rewrite lookup_take_ge by lia. done.
Qed.

Lemma testbit_byte_high b i : is_byte b -> 8 <= i -> Z.testbit b i = false.
Proof. intros. apply (testbit_high 8); done. Qed.

Lemma is_byte_slice d off n : Forall is_byte d -> Forall is_byte (mem_slice d off n).
Proof. intros. by apply Forall_take, Forall_drop. Qed.

Lemma le_load_nonneg d : Forall is_byte d -> 0 <= le_load d.
Proof.
  induction 1 as [|b d Hb Hd IH]; simpl; [lia|].
  apply Z.lor_nonneg. unfold is_byte in Hb. split; [lia|]. by apply Z.shiftl_nonneg.
Qed.

Lemma testbit_le_load d i : Forall is_byte d -> 0 <= i -> Z.testbit (le_load d) i = bit_le d i.
Proof.
  intros Hd. revert i. induction Hd as [|b d Hb Hd IH]; intros i Hi; unfold bit_le.
  - simpl. rewrite Z.testbit_0_l. unfold byte_at. destruct (i / 8 <? 0); simpl;
      [by rewrite Z.testbit_0_l | destruct (Z.to_nat (i / 8)); by rewrite Z.testbit_0_l].
  - simpl. rewrite Z.lor_spec, Z.shiftl_spec by lia.
    rewrite byte_at_cons by (apply Z.div_pos; lia).
    destruct (Z.ltb_spec i 8).
    + rewrite Z.div_small, Z.mod_small by lia. simpl.
      by rewrite (Z.testbit_neg_r _ (i - 8)), orb_false_r by lia.
    + rewrite testbit_byte_high by done. simpl.
      rewrite IH by lia. unfold bit_le.
      replace (i - 8) with (i + (-1) * 8) by lia.
      rewrite Z.div_add, Z_mod_plus_full by lia.
      destruct (Z.eqb_spec (i / 8) 0) as [E|].
      * exfalso. assert (1 <= i / 8) by (apply Z.div_le_lower_bound; lia). lia.
      * f_equal.
Qed.

(** Expose the state passing of a monadic computation. *)
Ltac st_unfold :=
  cbv [mbind st_bind mret st_ret st_get st_put st_modify c_assert st_fail st_undef st_zoom].
Tactic Notation "st_unfold" "in" hyp(H) :=
  cbv [mbind st_bind mret st_ret st_get st_put st_modify c_assert st_fail st_undef st_zoom] in H.

(** Run the first action of a bind, given the equation of its run. *)
Lemma st_bind_ok {S A B} (m : st S A) (k : A -> st S B) s a s' :
  m s = (Ok a, s') -> (m ≫= k) s = k a s'.
Proof. intros H. unfold mbind, st_bind. by rewrite H. Qed.

Lemma st_bind_err {S A B} (m : st S A) (k : A -> st S B) s rc s' :
  m s = (Err rc, s') -> (m ≫= k) s = (Err rc, s').
Proof. intros H. unfold mbind, st_bind. by rewrite H. Qed.

Lemma c_assert_true {S} (b : bool) (s : S) : b = true -> c_assert b s = (Ok tt, s).
Proof. intros ->. done. Qed.

(** [keeps I c]: [c] preserves the invariant [I] whatever its outcome;
    [on_err Q c]: [Q] holds in every state where [c] returns an error code. *)
Definition keeps {S A} (I : S -> Prop) (c : st S A) : Prop := forall s, I s -> I (snd (c s)).
Definition on_err {S A} (Q : S -> Prop) (c : st S A) : Prop :=
  forall s rc s', c s = (Err rc, s') -> Q s'.

Lemma keeps_ret {S A} (I : S -> Prop) (a : A) : keeps I (mret a).
Proof. by intros s. Qed.
Lemma keeps_get {S} (I : S -> Prop) : keeps I st_get.
Proof. by intros s. Qed.
Lemma keeps_fail {S A} (I : S -> Prop) rc : keeps I (st_fail (A := A) rc).
Proof. by intros s. Qed.
Lemma keeps_undef {S A} (I : S -> Prop) : keeps I (st_undef (A := A)).
Proof. by intros s. Qed.
Lemma keeps_modify {S} (I : S -> Prop) (f : S -> S) : (forall s, I s -> I (f s)) -> keeps I (st_modify f).
Proof. intros Hf s Hs. by apply Hf. Qed.
Lemma keeps_bind {S A B} (I : S -> Prop) (m : st S A) (k : A -> st S B) :
  keeps I m -> (forall a, keeps I (k a)) -> keeps I (m ≫= k).
Proof.
  intros Hm Hk s Hs. unfold mbind, st_bind. specialize (Hm s Hs).
  destruct (m s) as [[a|rc|] s']; simpl in *; [by apply Hk|done|done].
Qed.

Lemma on_err_ret {S A} (Q : S -> Prop) (a : A) : on_err Q (mret a).
Proof. by intros s rc s' [=]. Qed.
Lemma on_err_get {S} (Q : S -> Prop) : on_err Q st_get.
Proof. by intros s rc s' [=]. Qed.
Lemma on_err_undef {S A} (Q : S -> Prop) : on_err Q (st_undef (A := A)).
Proof. by intros s rc s' [=]. Qed.
Lemma on_err_modify {S} (Q : S -> Prop) (f : S -> S) : on_err Q (st_modify f).
Proof. by intros s rc s' [=]. Qed.
Lemma on_err_bind {S A B} (Q : S -> Prop) (m : st S A) (k : A -> st S B) :
  on_err Q m -> (forall a, on_err Q (k a)) -> on_err Q (m ≫= k).
Proof.
  intros Hm Hk s rc s'. unfold mbind, st_bind. specialize (Hm s).
  destruct (m s) as [[a|rc'|] s1]; intros E; [by eapply Hk|by eapply Hm; simplify_eq|done].
Qed.

Lemma keeps_pure {S A} (I : S -> Prop) (m : st S A) : (forall s, snd (m s) = s) -> keeps I m.
Proof. intros H s Hs. by rewrite H. Qed.

Lemma keeps_assert {S} (I : S -> Prop) b : keeps I (c_assert b).
Proof. apply keeps_pure. intros s. unfold c_assert. by destruct b. Qed.

Lemma keeps_zoom {S T A} (I : S -> Prop) (J : T -> Prop) (get : S -> T) put (m : st T A) :
  keeps J m -> (forall s, I s -> J (get s)) -> (forall s t, I s -> J t -> I (put t s)) ->
  keeps I (st_zoom get put m).
Proof.
  intros Hm Hget Hput s Hs. unfold st_zoom. specialize (Hm (get s) (Hget s Hs)).
  destruct (m (get s)) as [r t]. by apply Hput.
Qed.

Create HintDb st_logic.
#[export] Hint Resolve keeps_ret keeps_get keeps_fail keeps_undef keeps_bind keeps_assert
  on_err_ret on_err_get on_err_undef on_err_modify on_err_bind : st_logic.

(** Split a program into its actions and prove each with the database. *)
Ltac keeps_step :=
  match goal with
  | |- keeps _ (_ ≫= _) => apply keeps_bind; [|intros ?]
  | |- keeps _ (match ?x with _ => _ end) => destruct x eqn:?
  | |- keeps _ _ => solve [auto with st_logic]
  end.
Ltac keeps_auto := repeat keeps_step.

(** ** Postconditions of results

    [sat Q E U c]: from every state, a value returned by [c] satisfies [Q], an
    error code satisfies [E], and behaviour is undefined only when [U] holds. *)
Definition sat {S A} (Q : A -> Prop) (E : Z -> Prop) (U : Prop) (c : st S A) : Prop :=
  forall s, match fst (c s) with Ok a => Q a | Err rc => E rc | Undef => U end.

Lemma sat_ret {S A} (Q : A -> Prop) E U (a : A) : Q a -> sat (S := S) Q E U (mret a).
Proof. by intros H s. Qed.
Lemma sat_fail {S A} (Q : A -> Prop) (E : Z -> Prop) U rc : E rc -> sat (S := S) Q E U (st_fail rc).
Proof. by intros H s. Qed.
Lemma sat_undef {S A} (Q : A -> Prop) E (U : Prop) : U -> sat (S := S) Q E U st_undef.
Proof. by intros H s. Qed.
Lemma sat_mono {S A} (Q Q' : A -> Prop) (E E' : Z -> Prop) (U U' : Prop) (c : st S A) :
  sat Q E U c -> (forall a, Q a -> Q' a) -> (forall rc, E rc -> E' rc) -> (U -> U') -> sat Q' E' U' c.
Proof. intros H HQ HE HU s. specialize (H s). destruct (fst (c s)); auto. Qed.
Lemma sat_post {S A} (Q Q' : A -> Prop) E U (c : st S A) :
  sat Q E U c -> (forall a, Q a -> Q' a) -> sat Q' E U c.
Proof. intros H HQ. by eapply sat_mono. Qed.
Lemma sat_bind {S A B} (R : A -> Prop) (Q : B -> Prop) E U (m : st S A) (k : A -> st S B) :
  sat R E U m -> (forall a, R a -> sat Q E U (k a)) -> sat Q E U (m ≫= k).
Proof.
  intros Hm Hk s. unfold mbind, st_bind. specialize (Hm s).
  destruct (m s) as [[a|rc|] s']; cbn in *; [by apply Hk|done|done].
Qed.
Lemma sat_run {S A} (Q : A -> Prop) E U (c : st S A) s a s' : sat Q E U c -> c s = (Ok a, s') -> Q a.
Proof. intros H Hr. specialize (H s). by rewrite Hr in H. Qed.
Lemma sat_mapM {S A B} (R : A -> B -> Prop) E U (f : A -> st S B) l :
  Forall (fun x => sat (R x) E U (f x)) l -> sat (Forall2 R l) E U (mapM f l).
Proof.
  induction 1 as [|x l Hx _ IH]; cbn; [by apply sat_ret; constructor|].
  eapply sat_bind; [exact Hx|]. intros y Hy. eapply sat_bind; [exact IH|]. intros k Hk.
  apply sat_ret. by constructor.
Qed.
Lemma sat_foldM {S A B} (I : B -> Prop) E U (f : B -> A -> st S B) l b :
  I b -> (forall b x, I b -> x ∈ l -> sat I E U (f b x)) ->
  sat I E U (foldl (fun m x => b ← m; f b x) (mret b) l).
Proof.
  intros Hb Hf. cut (forall m, sat I E U m -> sat I E U (foldl (fun m x => b ← m; f b x) m l));
    [intros Hc; apply Hc, sat_ret, Hb|].
  induction l as [|x l IH]; intros m Hm; [done|]. cbn. apply IH.
  - intros b' y Hb' Hy. apply Hf; [done|]. by right.
  - eapply sat_bind; [exact Hm|]. intros b' Hb'. apply Hf; [done|by left].
Qed.

(** ** Runs from a state

    [runs c s Q X]: the run of [c] from [s] returns a value and a state that
    satisfy [Q], or ends without a value in a state that satisfies [X]. *)
Definition runs {S A} (c : st S A) (s : S) (Q : A -> S -> Prop) (X : outcome A -> S -> Prop) : Prop :=
  match c s with (Ok a, s') => Q a s' | (r, s') => X r s' end.

(** An outcome without a value, at another type. *)
Definition no_value {A B} (r : outcome A) : outcome B :=
  match r with Err rc => Err rc | _ => Undef end.

Lemma runs_bind {S A B} (m : st S A) (k : A -> st S B) s R Q (X : outcome B -> S -> Prop) :
  runs m s R (fun r s' => X (no_value r) s') -> (forall a s', R a s' -> runs (k a) s' Q X) ->
  runs (m ≫= k) s Q X.
Proof.
  unfold runs, mbind, st_bind. intros Hm Hk. destruct (m s) as [[a|rc|] s']; [by apply Hk|done|done].
Qed.

Lemma runs_mono {S A} (c : st S A) s (Q Q' : A -> S -> Prop) (X X' : outcome A -> S -> Prop) :
  runs c s Q X -> (forall a s', Q a s' -> Q' a s') -> (forall r s', X r s' -> X' r s') -> runs c s Q' X'.
Proof. unfold runs. intros H HQ HX. destruct (c s) as [[a|rc|] s']; auto. Qed.

(** * Filters of lists *)

Lemma list_filter_none {A} (f : A -> bool) l : Forall (fun x => f x = false) l -> List.filter f l = [].
Proof. induction 1 as [|x l Hx _ IH]; simpl; [done|]. by rewrite Hx. Qed.

Lemma list_filter_all {A} (f : A -> bool) l : Forall (fun x => f x = true) l -> List.filter f l = l.
Proof. induction 1 as [|x l Hx _ IH]; simpl; [done|]. by rewrite Hx, IH. Qed.

Lemma filter_perm {A} (f : A -> bool) l l' : l ≡ₚ l' -> List.filter f l ≡ₚ List.filter f l'.
Proof.
  induction 1 as [|x l l' _ IH|x y l|l1 l2 l3 _ IH1 _ IH2]; simpl; [done| | |].
  - destruct (f x); [by constructor|done].
  - destruct (f x), (f y); done || by constructor.
  - by transitivity (List.filter f l2).
Qed.
