(* ===== verification/Common.v ===== *)
(** The shared vocabulary of the program: the return codes and enumerations of
    [types.h] and the integer helpers of [crust/common.h] ([MAX], [MIN], the
    byte swaps and the saturating addition), with the bit-level meaning of the
    byte swaps. *)
From S2P Require Import Prelude.

(** ** Return codes (types.h) *)
Definition ACTF_OK : Z := 0.
Definition ACTF_ERROR : Z := -1.
Definition ACTF_INTERNAL : Z := -2.
Definition ACTF_OOM : Z := -3.
Definition ACTF_NOT_FOUND : Z := -4.
Definition ACTF_JSON_PARSE_ERROR : Z := -5.
Definition ACTF_JSON_ERROR : Z := -6.
Definition ACTF_JSON_WRONG_TYPE : Z := -7.
Definition ACTF_JSON_NOT_GTEZ : Z := -8.
Definition ACTF_JSON_NOT_GTZ : Z := -9.
Definition ACTF_INVALID_ALIGNMENT : Z := -10.
Definition ACTF_INVALID_BYTE_ORDER : Z := -11.
Definition ACTF_INVALID_BIT_ORDER : Z := -12.
Definition ACTF_INVALID_RANGE : Z := -13.
Definition ACTF_INVALID_RANGE_SET : Z := -14.
Definition ACTF_INVALID_UUID : Z := -15.
Definition ACTF_INVALID_FLD_LOC : Z := -16.
Definition ACTF_INVALID_FLD_CLS : Z := -17.
Definition ACTF_INVALID_FLAGS : Z := -18.
Definition ACTF_INVALID_ROLE : Z := -19.
Definition ACTF_INVALID_BASE : Z := -20.
Definition ACTF_UNSUPPORTED_LENGTH : Z := -21.
Definition ACTF_INVALID_ENCODING : Z := -22.
Definition ACTF_INVALID_ENVIRONMENT : Z := -23.
Definition ACTF_INVALID_VARIANT : Z := -24.
Definition ACTF_CC_GTE_FREQ_ERROR : Z := -25.
Definition ACTF_NO_SUCH_ALIAS : Z := -26.
Definition ACTF_MISSING_PROPERTY : Z := -27.
Definition ACTF_UNSUPPORTED_EXTENSION : Z := -28.
Definition ACTF_NO_SUCH_ORIGIN : Z := -29.
Definition ACTF_NO_DEFAULT_CLOCK : Z := -30.
Definition ACTF_INVALID_UUID_ROLE : Z := -31.
Definition ACTF_INVALID_MAGIC_ROLE : Z := -32.
Definition ACTF_NOT_A_STRUCT : Z := -33.
Definition ACTF_DUPLICATE_ERROR : Z := -34.
Definition ACTF_NO_SUCH_ID : Z := -35.
Definition ACTF_UNSUPPORTED_VERSION : Z := -36.
Definition ACTF_NO_PREAMBLE : Z := -37.
Definition ACTF_WRONG_FLD_TYPE : Z := -38.
Definition ACTF_MISSING_FLD_LOC : Z := -39.
Definition ACTF_NOT_ENOUGH_BITS : Z := -40.
Definition ACTF_MID_BYTE_ENDIAN_SWAP : Z := -41.
Definition ACTF_INVALID_STR_LEN : Z := -42.
Definition ACTF_MAGIC_MISMATCH : Z := -43.
Definition ACTF_UUID_MISMATCH : Z := -44.
Definition ACTF_NO_SELECTOR_FLD : Z := -45.
Definition ACTF_INVALID_CONTENT_LEN : Z := -46.
Definition ACTF_INVALID_METADATA_PKT : Z := -47.

(** ** Enumerations (types.h) *)
Inductive actf_byte_order := ACTF_LIL_ENDIAN | ACTF_BIG_ENDIAN.
Inductive actf_bit_order := ACTF_FIRST_TO_LAST | ACTF_LAST_TO_FIRST.
Inductive actf_encoding :=
| ACTF_ENCODING_UTF8
| ACTF_ENCODING_UTF16BE
| ACTF_ENCODING_UTF16LE
| ACTF_ENCODING_UTF32BE
| ACTF_ENCODING_UTF32LE.
Inductive actf_base :=
| ACTF_BASE_BINARY | ACTF_BASE_OCTAL | ACTF_BASE_DECIMAL | ACTF_BASE_HEXADECIMAL.

#[export] Instance actf_byte_order_eq_dec : EqDecision actf_byte_order.
Proof. solve_decision. Defined.
#[export] Instance actf_bit_order_eq_dec : EqDecision actf_bit_order.
Proof. solve_decision. Defined.
#[export] Instance actf_base_eq_dec : EqDecision actf_base.
Proof. solve_decision. Defined.
#[export] Instance actf_encoding_eq_dec : EqDecision actf_encoding.
Proof. solve_decision. Defined.

Definition ACTF_UUID_N_BYTES : Z := 16.

(** ** Integer helpers (crust/common.h) *)
Definition MAX (a b : Z) : Z := if a >? b then a else b.
Definition MIN (a b : Z) : Z := if a <? b then a else b.

Definition bswap64 (x : Z) : Z :=
  let out := 0 in
  let out := Z.lor out (Z.shiftr (Z.land x 0xFF00000000000000) 56) in
  let out := Z.lor out (Z.shiftr (Z.land x 0x00FF000000000000) 40) in
  let out := Z.lor out (Z.shiftr (Z.land x 0x0000FF0000000000) 24) in
  let out := Z.lor out (Z.shiftr (Z.land x 0x000000FF00000000) 8) in
  let out := Z.lor out (u64 (Z.shiftl (Z.land x 0x00000000FF000000) 8)) in
  let out := Z.lor out (u64 (Z.shiftl (Z.land x 0x0000000000FF0000) 24)) in
  let out := Z.lor out (u64 (Z.shiftl (Z.land x 0x000000000000FF00) 40)) in
  let out := Z.lor out (u64 (Z.shiftl (Z.land x 0x00000000000000FF) 56)) in
  out.

Definition bswap32 (x : Z) : Z :=
  let out := 0 in
  let out := Z.lor out (Z.shiftr (Z.land x 0xFF000000) 24) in
  let out := Z.lor out (Z.shiftr (Z.land x 0x00FF0000) 8) in
  let out := Z.lor out (u32 (Z.shiftl (Z.land x 0x0000FF00) 8)) in
  let out := Z.lor out (u32 (Z.shiftl (Z.land x 0x000000FF) 24)) in
  out.

Definition bswap16 (x : Z) : Z :=
  let out := 0 in
  let out := Z.lor out (Z.shiftr (Z.land x 0xFF00) 8) in
  let out := Z.lor out (u16 (Z.shiftl (Z.land x 0x00FF) 8)) in
  out.

Definition sataddu64 (a b : Z) : Z :=
  let r := u64 (a + b) in
  if r <? b then UINT64_MAX else r.

(** ** Their meaning *)

Lemma MAX_spec a b : MAX a b = Z.max a b.
Proof. unfold MAX. destruct (Z.gtb_spec a b); lia. Qed.

Lemma MIN_spec a b : MIN a b = Z.min a b.
Proof. unfold MIN. destruct (Z.ltb_spec a b); lia. Qed.

(** A byte mask selects the bits of one byte. *)
Lemma testbit_byte_mask k j :
  0 <= k -> Z.testbit (Z.shiftl 0xFF k) j = (k <=? j) && (j <? k + 8).
Proof.
  intros Hk. destruct (Z.ltb_spec j 0).
  { rewrite Z.testbit_neg_r by lia. zcmp. }
  rewrite Z.shiftl_spec by lia. change 0xFF with (Z.ones 8).
  destruct (Z.ltb_spec j k).
  { rewrite Z.testbit_neg_r by lia. zcmp. }
  destruct (Z.ltb_spec j (k + 8)).
  - rewrite Z.ones_spec_low by lia. zcmp.
  - rewrite Z.ones_spec_high by lia. zcmp.
Qed.

(** The bit of a byte-swapped 64-bit word: byte [k] comes from byte [7 - k]. *)
Lemma testbit_bswap64 x i :
  0 <= i < 64 -> Z.testbit (bswap64 x) i = Z.testbit x (8 * (7 - i / 8) + i mod 8).
Proof.
  intros Hi. unfold bswap64.
  change 0xFF00000000000000 with (Z.shiftl 0xFF 56).
  change 0x00FF000000000000 with (Z.shiftl 0xFF 48).
  change 0x0000FF0000000000 with (Z.shiftl 0xFF 40).
  change 0x000000FF00000000 with (Z.shiftl 0xFF 32).
  change 0x00000000FF000000 with (Z.shiftl 0xFF 24).
  change 0x0000000000FF0000 with (Z.shiftl 0xFF 16).
  change 0x000000000000FF00 with (Z.shiftl 0xFF 8).
  change 0x00000000000000FF with (Z.shiftl 0xFF 0).
  rewrite !Z.lor_spec, !testbit_u64, !Z.shiftl_spec, !Z.shiftr_spec, !Z.land_spec by lia.
  rewrite !testbit_byte_mask by lia.
  destruct (Z.ltb_spec i 64); [|lia].
  zcmp; zbits; apply (f_equal (Z.testbit x)); zlia.
Qed.
