(* ===== verification/Libc.v ===== *)
(** The parts of the C library that the printer and the command line tool call,
    as the C standard and POSIX define them: the conversions of [printf], reading
    numbers with [strtoull], calendar time and the text of [strftime].  Nothing
    here is code of the repository.

    Text is a list of characters.  The theorems are the facts that the round trips
    of the printer and of the time stamps rest on: printed digits are read back,
    and the calendar is the one that adds up the lengths of years and months. *)
From S2P Require Import Prelude.
From Stdlib Require Export Ascii String.
From stdpp Require Import strings list.
Open Scope Z_scope.

Notation text := (list ascii).

(** A string literal, or the characters of [%s]. *)
Definition lit (s : string) : text := list_ascii_of_string s.

Definition ch (c : ascii) : Z := Z.of_N (N_of_ascii c).
Definition ascii_of_Z (z : Z) : ascii := ascii_of_N (Z.to_N z).

(** The bytes of memory as characters. *)
Definition text_of_bytes (b : list Z) : text := map ascii_of_Z b.

(** * Digits *)

(** The digit of value [d], as [%x] writes it. *)
Definition digit (d : Z) : ascii := ascii_of_Z (if d <? 10 then 48 + d else 87 + d).

(** The value of a digit in a base of at most 16. *)
Definition digit_val (c : ascii) : option Z :=
  let z := ch c in
  if (48 <=? z) && (z <=? 57) then Some (z - 48)
  else if (97 <=? z) && (z <=? 102) then Some (z - 87)
  else if (65 <=? z) && (z <=? 70) then Some (z - 55)
  else None.

Definition is_digit (b : Z) (c : ascii) : bool :=
  match digit_val c with Some d => d <? b | None => false end.

(** The digits of [n], the last [fuel] of them, before [acc]. *)
Fixpoint digits_acc (fuel : nat) (b n : Z) (acc : text) : text :=
  match fuel with
  | O => acc
  | S fuel =>
      let acc := digit (n mod b) :: acc in
      if n / b =? 0 then acc else digits_acc fuel b (n / b) acc
  end.

(** [n] in base [b]; a number has at most as many digits as bits. *)
Definition digits (b n : Z) : text := digits_acc (S (Z.to_nat (Z.log2 n))) b n [].

(** Reading digits: the value with [v] read before, and the rest. *)
Fixpoint read_digits (b v : Z) (s : text) : Z * text :=
  match s with
  | [] => (v, [])
  | c :: s' =>
      match digit_val c with
      | Some d => if d <? b then read_digits b (v * b + d) s' else (v, s)
      | None => (v, s)
      end
  end.

(** * printf *)

Definition zeros (n : Z) : text := replicate (Z.to_nat n) "0"%char.

(** [%u], [%#o], [%#x] of an unsigned integer. *)
Definition fmt_u (n : Z) : text := digits 10 n.
Definition fmt_o (n : Z) : text := if n =? 0 then lit "0" else lit "0" ++ digits 8 n.
Definition fmt_x (n : Z) : text := if n =? 0 then lit "0" else lit "0x" ++ digits 16 n.

(** [%i] of a signed integer. *)
Definition fmt_i (v : Z) : text := if v <? 0 then lit "-" ++ digits 10 (- v) else digits 10 v.

(** [%0<w>u] and [%0<w>i]: zeros between the sign and the digits. *)
Definition pad0 (w : Z) (s : text) : text := zeros (w - Z.of_nat (length s)) ++ s.
Definition fmt_0u (w n : Z) : text := pad0 w (digits 10 n).
Definition fmt_0i (w v : Z) : text :=
  if v <? 0 then lit "-" ++ pad0 (w - 1) (digits 10 (- v)) else pad0 w (digits 10 v).

(** [%02x] of a byte. *)
Definition fmt_02x (n : Z) : text := pad0 2 (digits 16 n).

(** [n / d] to the nearest integer, ties to even. *)
Definition round_half_even (n d : Z) : Z :=
  let q := n / d in
  let r := 2 * (n mod d) in
  if (r <? d) || ((r =? d) && Z.even q) then q else q + 1.

(** The conversion of a binary32 number to binary64, which is exact, and of a binary64
    number to binary32, to the nearest number, ties to even, numbers out of range to
    infinity; a NaN keeps its sign and becomes quiet. *)
Definition f32_to_f64 (bits : Z) : Z :=
  let s := Z.shiftl (bits / 2 ^ 31) 63 in
  let e := (bits / 2 ^ 23) mod 2 ^ 8 in
  let m := bits mod 2 ^ 23 in
  if e =? 255 then s + 2047 * 2 ^ 52 + (if m =? 0 then 0 else Z.lor (m * 2 ^ 29) (2 ^ 51))
  else if e =? 0 then
    if m =? 0 then s
    else let l := Z.log2 m in s + (l + 874) * 2 ^ 52 + (m * 2 ^ (52 - l) - 2 ^ 52)
  else s + (e + 896) * 2 ^ 52 + m * 2 ^ 29.

Definition f64_to_f32 (bits : Z) : Z :=
  let s := Z.shiftl (bits / 2 ^ 63) 31 in
  let e := (bits / 2 ^ 52) mod 2 ^ 11 in
  let m := bits mod 2 ^ 52 in
  if e =? 2047 then s + 255 * 2 ^ 23 + (if m =? 0 then 0 else Z.lor (m / 2 ^ 29) (2 ^ 22))
  else
    let m := if e =? 0 then m else m + 2 ^ 52 in
    let e := Z.max e 1 - 1075 in
    let q := Z.max (Z.log2 m + e - 23) (-149) in
    let n := if q <=? e then m * 2 ^ (e - q) else round_half_even m (2 ^ (q - e)) in
    s + Z.min ((q + 149) * 2 ^ 23 + n) (255 * 2 ^ 23).

Definition FLT_MAX : Z := 0x7F7FFFFF.
Definition DBL_MAX : Z := 0x7FEFFFFFFFFFFFFF.

(** [%f] of a binary64 number given by its bits: six decimals of its exact value,
    rounded to the nearest, ties to even. *)
Definition fmt_f (bits : Z) : text :=
  let sign := if Z.testbit bits 63 then lit "-" else [] in
  let e := (bits / 2 ^ 52) mod 2 ^ 11 in
  let m := bits mod 2 ^ 52 in
  if e =? 2047 then sign ++ (if m =? 0 then lit "inf" else lit "nan")
  else
    let m := if e =? 0 then m else m + 2 ^ 52 in
    let e := Z.max e 1 - 1075 in
    let micro := if 0 <=? e then m * 2 ^ e * 1000000 else round_half_even (m * 1000000) (2 ^ (- e)) in
    sign ++ digits 10 (micro / 1000000) ++ lit "." ++ fmt_0u 6 (micro mod 1000000).

(** * strtoull *)

Definition is_space (c : ascii) : bool := let z := ch c in (z =? 32) || ((9 <=? z) && (z <=? 13)).

(** [strtoull(s, NULL, 10)]: the value, and whether [errno] is set. *)
Fixpoint strtoull (s : text) : Z * bool :=
  match s with
  | [] => (0, false)
  | c :: s' =>
      if is_space c then strtoull s'
      else
        let '(neg, ds) := if Ascii.eqb c "-" then (true, s') else if Ascii.eqb c "+" then (false, s') else (false, s) in
        let v := fst (read_digits 10 0 ds) in
        if UINT64_MAX <? v then (UINT64_MAX, true) else (if neg then u64 (- v) else v, false)
  end.

(** * Calendar time *)

(** [struct tm], without the members that the program does not use. *)
Record tm := mk_tm { tm_sec : Z; tm_min : Z; tm_hour : Z; tm_mday : Z; tm_mon : Z; tm_year : Z }.

Definition leap (y : Z) : bool := (y mod 4 =? 0) && (negb (y mod 100 =? 0) || (y mod 400 =? 0)).
Definition year_len (y : Z) : Z := if leap y then 366 else 365.
Definition month_len (y m : Z) : Z :=
  if m =? 1 then (if leap y then 29 else 28)
  else if (m =? 3) || (m =? 5) || (m =? 8) || (m =? 10) then 30 else 31.

(** The number of days from 1970-01-01 to the first of January of a year, to the
    first day of a month (of the 12 counted from 0) in its year, and to a date. *)
Definition year_day (y : Z) : Z := 365 * (y - 1970) + ((y - 1) / 4 - (y - 1) / 100 + (y - 1) / 400 - 477).
Fixpoint months_len (y : Z) (n : nat) : Z :=
  match n with O => 0 | S n => months_len y n + month_len y (Z.of_nat n) end.
Definition month_day (y m : Z) : Z := months_len y (Z.to_nat m).
Definition date_day (y m d : Z) : Z := year_day y + month_day y m + (d - 1).

(** The seconds from the epoch to a time. *)
Definition tm_epoch (t : tm) : Z :=
  date_day (tm_year t + 1900) (tm_mon t) (tm_mday t) * 86400 + tm_hour t * 3600 + tm_min t * 60 + tm_sec t.

Record tm_valid (t : tm) : Prop := {
  tv_sec : 0 <= tm_sec t <= 59; tv_min : 0 <= tm_min t <= 59; tv_hour : 0 <= tm_hour t <= 23;
  tv_mon : 0 <= tm_mon t <= 11; tv_mday : 1 <= tm_mday t <= month_len (tm_year t + 1900) (tm_mon t)
}.

(** The year of a day: the mean length of a year gives it or one of its
    neighbours. *)
Definition day_year (d : Z) : Z :=
  let y := 1970 + d * 400 / 146097 in
  if d <? year_day y then y - 1 else if year_day (y + 1) <=? d then y + 1 else y.

(** The month and the day of the month of a day of the year, from month [m] on. *)
Fixpoint day_month (n : nat) (y m d : Z) : Z * Z :=
  match n with
  | O => (m, d + 1)
  | S n => if d <? month_len y m then (m, d + 1) else day_month n y (m + 1) (d - month_len y m)
  end.

(** [gmtime_r]. *)
Definition gmtime (sec : Z) : tm :=
  let d := sec / 86400 in
  let s := sec mod 86400 in
  let y := day_year d in
  let '(mon, mday) := day_month 11 y 0 (d - year_day y) in
  mk_tm (s mod 60) (s / 60 mod 60) (s / 3600) mday mon (y - 1900).

(** [strftime] of [%H:%M:%S] and of [%Y-%m-%d %H:%M:%S] into a buffer of [n]
    bytes: what it holds is undefined when the text does not fit. *)
Definition fmt_hms (t : tm) : text :=
  fmt_0u 2 (tm_hour t) ++ lit ":" ++ fmt_0u 2 (tm_min t) ++ lit ":" ++ fmt_0u 2 (tm_sec t).
Definition fmt_ymdhms (t : tm) : text :=
  fmt_i (tm_year t + 1900) ++ lit "-" ++ fmt_0u 2 (tm_mon t + 1) ++ lit "-" ++ fmt_0u 2 (tm_mday t) ++ lit " " ++ fmt_hms t.
Definition strftime (n : Z) (s : text) : outcome text := if Z.of_nat (length s) <? n then Ok s else Undef.

(** * Digits are read back *)

Lemma ch_ascii_of_Z z : 0 <= z < 256 -> ch (ascii_of_Z z) = z.
Proof. intros Hz. unfold ch, ascii_of_Z. rewrite N_ascii_embedding by lia. lia. Qed.

Lemma digit_val_digit d : 0 <= d < 16 -> digit_val (digit d) = Some d.
Proof.
  intros Hd. unfold digit_val, digit.
  destruct (Z.ltb_spec d 10); rewrite ch_ascii_of_Z by lia; cbn -[Z.leb Z.add Z.sub].
  - zcmp. cbn [andb]. f_equal. lia.
  - zcmp. cbn [andb]. f_equal. lia.
Qed.

(** [ds] is a number of value [n] in base [b]. *)
Record reads (b : Z) (ds : text) (n : Z) : Prop := {
  rd_digits : Forall (fun c => is_digit b c = true) ds;
  rd_read : forall v r, read_digits b v (ds ++ r) = read_digits b (v * b ^ Z.of_nat (length ds) + n) r
}.

Lemma reads_nil b : reads b [] 0.
Proof. split; [constructor|]. intros v r. cbn [app length]. f_equal. lia. Qed.

Lemma reads_snoc b ds n d : 2 <= b <= 16 -> reads b ds n -> 0 <= d < b -> reads b (ds ++ [digit d]) (n * b + d).
Proof.
  intros Hb [Hd Hr] Hdb. split.
  - apply Forall_app. split; [done|]. constructor; [|constructor]. unfold is_digit.
    rewrite digit_val_digit by lia. lia.
  - intros v r. rewrite <- app_assoc, Hr. cbn [app read_digits]. rewrite digit_val_digit by lia.
    destruct (Z.ltb_spec d b); [|lia]. f_equal. rewrite length_app. cbn [length].
    rewrite Nat2Z.inj_add, Z.pow_add_r, Z.pow_1_r by lia. lia.
Qed.

Lemma digits_acc_reads b fuel : 2 <= b <= 16 -> forall n acc, 0 <= n < b ^ Z.of_nat fuel -> (0 < fuel)%nat ->
  exists ds, digits_acc fuel b n acc = ds ++ acc /\ reads b ds n /\
    (exists d r, ds = digit d :: r /\ 0 <= d < b /\ (0 < n -> 0 < d)) /\
    forall w, 1 <= w -> n < b ^ w -> Z.of_nat (length ds) <= w.
Proof.
  intros Hb. induction fuel as [|fuel IH]; intros n acc Hn Hf; [lia|]. cbn [digits_acc].
  assert (Hd : 0 <= n mod b < b) by (apply Z.mod_pos_bound; lia).
  assert (Hn' : n = n / b * b + n mod b) by (pose proof (Z.div_mod n b); lia).
  destruct (Z.eqb_spec (n / b) 0) as [E|E].
  - exists [digit (n mod b)]. split; [done|]. split; [|split; [eexists _, []; split_and!; [done|lia|lia|lia]|intros w Hw _; cbn; lia]].
    pose proof (reads_snoc b [] 0 (n mod b) Hb (reads_nil b) Hd) as H. cbn in H.
    replace n with (n mod b) at 2 by lia. exact H.
  - rewrite Nat2Z.inj_succ, Z.pow_succ_r in Hn by lia.
    assert (0 <= n / b) by (apply Z.div_pos; lia).
    assert (Hq : 0 <= n / b < b ^ Z.of_nat fuel) by (split; [done|]; apply Z.div_lt_upper_bound; lia).
    destruct fuel as [|fuel]; [cbn in Hq; lia|].
    destruct (IH (n / b) (digit (n mod b) :: acc) Hq ltac:(lia)) as (ds & -> & Hr & (d & r & -> & Hd0 & Hd1) & Hl).
    set (ds := digit d :: r) in *. exists (ds ++ [digit (n mod b)]). split; [by rewrite <- app_assoc|]. split.
    + rewrite Hn'. rewrite (Z.add_comm (n / b * b)), Z.mod_add, Z.mod_small by lia. rewrite Z.add_comm.
      by apply reads_snoc.
    + split; [exists d, (r ++ [digit (n mod b)]); split_and!; [done|lia|lia|lia]|]. intros w Hw Hlt. rewrite length_app. cbn [length].
      destruct (Z.eq_dec w 1) as [->|]; [rewrite Z.pow_1_r in Hlt; rewrite Z.div_small in E by lia; lia|].
      specialize (Hl (w - 1) ltac:(lia)).
      enough (n / b < b ^ (w - 1)) by lia. apply Z.div_lt_upper_bound; [lia|].
      rewrite <- Z.pow_succ_r by lia. by replace (Z.succ (w - 1)) with w by lia.
Qed.

Lemma digits_reads b n : 2 <= b <= 16 -> 0 <= n ->
  reads b (digits b n) n /\ (exists d r, digits b n = digit d :: r /\ 0 <= d < b /\ (0 < n -> 0 < d)) /\ forall w, 1 <= w -> n < b ^ w -> Z.of_nat (length (digits b n)) <= w.
Proof.
  intros Hb Hn. unfold digits.
  destruct (digits_acc_reads b (S (Z.to_nat (Z.log2 n))) Hb n [] ) as (ds & -> & H); [|lia|by rewrite app_nil_r].
  split; [done|]. rewrite Nat2Z.inj_succ, Z2Nat.id by apply Z.log2_nonneg.
  apply Z.lt_le_trans with (2 ^ Z.succ (Z.log2 n)).
  - destruct (Z.eq_dec n 0) as [->|]; [by vm_compute|]. apply Z.log2_spec. lia.
  - apply Z.pow_le_mono_l. lia.
Qed.

(** Leading zeros do not change the value. *)
Lemma reads_zeros b k ds n : 2 <= b <= 16 -> reads b ds n -> reads b (zeros k ++ ds) n.
Proof.
  intros Hb Hr. unfold zeros. generalize (Z.to_nat k) as j. clear k. intros j.
  assert (Hz : reads b (replicate j "0"%char) 0).
  { induction j as [|j IH]; [apply reads_nil|]. replace (S j) with (j + 1)%nat by lia.
    rewrite replicate_add. change (replicate 1 "0"%char) with [digit 0]. apply (reads_snoc b _ 0 0); [done|done|lia]. }
  destruct Hz as [Hz1 Hz2], Hr as [Hr1 Hr2]. split; [by apply Forall_app|].
  intros v r. rewrite <- app_assoc, Hz2, Hr2. f_equal. rewrite length_app, Nat2Z.inj_add, Z.pow_add_r by lia. lia.
Qed.

Lemma length_zeros k : Z.of_nat (length (zeros k)) = Z.max 0 k.
Proof. unfold zeros. rewrite length_replicate. lia. Qed.

Lemma fmt_0u_reads w n : 1 <= w -> 0 <= n < 10 ^ w ->
  reads 10 (fmt_0u w n) n /\ Z.of_nat (length (fmt_0u w n)) = w.
Proof.
  intros Hw Hn. destruct (digits_reads 10 n) as (Hr & _ & Hl); [lia|lia|]. unfold fmt_0u, pad0. split.
  - by apply reads_zeros.
  - specialize (Hl w Hw ltac:(lia)). rewrite length_app, Nat2Z.inj_add, length_zeros. lia.
Qed.

(** The text after a number does not start with a digit. *)
Definition no_digit (b : Z) (r : text) : Prop := match r with [] => True | c :: _ => is_digit b c = false end.

Lemma read_digits_stop b v r : no_digit b r -> read_digits b v r = (v, r).
Proof.
  destruct r as [|c r]; [done|]. unfold no_digit, is_digit. cbn. destruct (digit_val c) as [d|]; [|done].
  by intros ->.
Qed.

Lemma reads_value b ds n r : reads b ds n -> no_digit b r -> read_digits b 0 (ds ++ r) = (n, r).
Proof. intros [_ H] Hr. rewrite H, read_digits_stop by done. f_equal. Qed.

Lemma decimal_ch c : is_digit 10 c = true -> 48 <= ch c <= 57.
Proof.
  unfold is_digit, digit_val. cbv zeta.
  repeat match goal with |- context [?a <=? ?b] => destruct (Z.leb_spec a b) end; cbn [andb]; try done; lia.
Qed.

(** [strtoull] of a decimal number. *)
Lemma strtoull_reads ds n r : reads 10 ds n -> ds <> [] -> no_digit 10 r -> 0 <= n <= UINT64_MAX ->
  strtoull (ds ++ r) = (n, false).
Proof.
  intros Hr Hne Hno Hn. pose proof (reads_value 10 ds n r Hr Hno) as Hv.
  destruct ds as [|c ds]; [done|]. pose proof (Forall_inv (rd_digits _ _ _ Hr)) as Hc.
  pose proof (decimal_ch c Hc) as Hz. cbn [app] in *. unfold strtoull, is_space. cbv zeta.
  destruct (Z.eqb_spec (ch c) 32); [lia|]. destruct (Z.leb_spec 9 (ch c)), (Z.leb_spec (ch c) 13); try lia.
  cbn [orb andb].
  destruct (Ascii.eqb_spec c "-") as [->|_]; [by vm_compute in Hc|].
  destruct (Ascii.eqb_spec c "+") as [->|_]; [by vm_compute in Hc|].
  rewrite Hv. cbn [fst]. destruct (Z.ltb_spec UINT64_MAX n); [lia|done].
Qed.

(** * The calendar *)

Lemma year_day_epoch : year_day 1970 = 0.
Proof. done. Qed.

(** The years follow each other. *)
Lemma year_day_step y : year_day (y + 1) = year_day y + year_len y.
Proof.
  unfold year_day, year_len, leap. replace (y + 1 - 1) with y by lia.
  assert (H : forall k, 0 < k -> y / k = (y - 1) / k + (if y mod k =? 0 then 1 else 0)).
  { intros k Hk. pose proof (Z.div_mod y k). pose proof (Z.mod_pos_bound y k Hk).
    destruct (Z.eqb_spec (y mod k) 0) as [E|E].
    - replace (y - 1) with (k - 1 + (y / k - 1) * k) by lia. rewrite Z.div_add, (Z.div_small (k - 1)) by lia. lia.
    - replace (y - 1) with (y mod k - 1 + (y / k) * k) by lia. rewrite Z.div_add, (Z.div_small (y mod k - 1)) by lia. lia. }
  rewrite (H 4), (H 100), (H 400) by lia.
  destruct (Z.eqb_spec (y mod 4) 0), (Z.eqb_spec (y mod 100) 0), (Z.eqb_spec (y mod 400) 0); cbn [negb andb orb]; try lia; exfalso; zlia.
Qed.

(** The months fill the year. *)
Lemma months_fill_year y : month_day y 12 = year_len y.
Proof. unfold month_day, year_len. change (Z.to_nat 12) with 12%nat. unfold months_len, month_len. by destruct (leap y). Qed.

Lemma day_year_spec d : let y := day_year d in year_day y <= d < year_day (y + 1).
Proof.
  unfold day_year. set (y := 1970 + d * 400 / 146097).
  assert (Hlo : year_day (y - 1) <= d) by (unfold y, year_day; zlia).
  assert (Hhi : d < year_day (y + 2)) by (unfold y, year_day; zlia).
  cbv zeta. destruct (Z.ltb_spec d (year_day y)); [by replace (y - 1 + 1) with y by lia|].
  destruct (Z.leb_spec (year_day (y + 1)) d); [|lia]. replace (y + 1 + 1) with (y + 2) by lia. lia.
Qed.

Lemma month_len_pos y m : 28 <= month_len y m <= 31.
Proof. unfold month_len. repeat case_match; lia. Qed.

Lemma month_day_step y m : 0 <= m -> month_day y (m + 1) = month_day y m + month_len y m.
Proof.
  intros Hm. unfold month_day. replace (Z.to_nat (m + 1)) with (S (Z.to_nat m)) by lia. cbn [months_len].
  by rewrite Z2Nat.id by lia.
Qed.

Lemma day_month_spec n y : forall m d mon mday, day_month n y m d = (mon, mday) ->
  m + Z.of_nat n = 11 -> 0 <= m -> 0 <= d < month_day y 12 - month_day y m ->
  m <= mon <= 11 /\ 1 <= mday <= month_len y mon /\ month_day y mon + (mday - 1) = month_day y m + d.
Proof.
  induction n as [|n IH]; intros m d mon mday Hrun Hm H0 Hd; cbn [day_month] in Hrun.
  - injection Hrun as <- <-. assert (m = 11) as -> by lia. pose proof (month_day_step y 11 ltac:(lia)) as H. change (11 + 1) with 12 in H. lia.
  - pose proof (month_day_step y m H0). destruct (Z.ltb_spec d (month_len y m)).
    + injection Hrun as <- <-. lia.
    + apply IH in Hrun; lia.
Qed.

(** [gmtime] gives a valid time, and the one whose seconds it was given. *)
Lemma gmtime_spec sec : tm_valid (gmtime sec) /\ tm_epoch (gmtime sec) = sec.
Proof.
  unfold gmtime. set (d := sec / 86400). set (s := sec mod 86400). pose proof (day_year_spec d) as Hy.
  cbv zeta in Hy. set (y := day_year d) in *. destruct (day_month 11 y 0 (d - year_day y)) as [mon mday] eqn:Hm.
  rewrite year_day_step, <- months_fill_year in Hy.
  apply day_month_spec in Hm as (Hmon & Hmday & Hsum); [|lia|lia|change (month_day y 0) with 0; lia].
  change (month_day y 0) with 0 in Hsum.
  assert (Hs : 0 <= s < 86400) by (apply Z.mod_pos_bound; lia).
  split.
  - split; cbn; try (replace (y - 1900 + 1900) with y by lia); zlia.
  - unfold tm_epoch, date_day. cbn. replace (y - 1900 + 1900) with y by lia.
    assert (sec = d * 86400 + s) by (unfold d, s; zlia). clearbody d s. zlia.
Qed.

(** The years of times near the epoch. *)
Lemma gmtime_year sec y0 y1 : year_day y0 * 86400 <= sec < year_day (y1 + 1) * 86400 -> y0 <= y1 ->
  y0 <= tm_year (gmtime sec) + 1900 <= y1.
Proof.
  intros Hsec Hy01. unfold gmtime. destruct (day_month _ _ _ _) as [mon mday]. cbn [tm_year].
  pose proof (day_year_spec (sec / 86400)) as Hy. cbv zeta in Hy. set (y := day_year (sec / 86400)) in *.
  assert (Hmono : forall a b, a <= b -> year_day a <= year_day b) by (intros; unfold year_day; zlia).
  assert (Hlo : year_day y0 <= sec / 86400) by (apply Z.div_le_lower_bound; lia).
  assert (Hhi : sec / 86400 < year_day (y1 + 1)) by (apply Z.div_lt_upper_bound; lia).
  split.
  - destruct (Z.le_gt_cases y0 (y - 1900 + 1900)); [done|]. pose proof (Hmono (y + 1) y0). lia.
  - destruct (Z.le_gt_cases (y - 1900 + 1900) y1); [done|]. pose proof (Hmono (y1 + 1) y). lia.
Qed.
