(* ===== verification/Regex.v ===== *)
(** POSIX extended regular expressions, as far as the time stamps of the command
    line use them: [regcomp] reads an expression, [regexec] finds the longest match
    and the places of its groups.  Nothing here is code of the repository.

    The theorem: an expression that treats all digits alike matches a text as it
    matches the text with every digit replaced by [0]; a match of a family of texts
    is then computed once. *)
From S2P Require Import Prelude Libc.
From stdpp Require Import strings list.
Open Scope Z_scope.

(** * Syntax *)

(** A character in a range, the start and the end of the text, sequence,
    alternatives, the empty expression, [r{n,n+m}], [r+] and the group [k]. *)
Inductive re :=
| Chr (lo hi : Z) | Bol | Eol | Seq (a b : re) | Alt (a b : re) | Eps | Rep (n m : nat) (r : re) | Plus (r : re)
| Grp (k : nat) (r : re).

(** ** Reading an expression *)

(** [{n}] and [{n,m}] after the brace. *)
Definition parse_bounds (s : text) : option (nat * nat * text) :=
  let '(n, s) := read_digits 10 0 s in
  match s with
  | "}"%char :: s => Some (Z.to_nat n, O, s)
  | ","%char :: s =>
      let '(m, s) := read_digits 10 0 s in
      match s with "}"%char :: s => Some (Z.to_nat n, Z.to_nat (m - n), s) | _ => None end
  | _ => None
  end.

(** The repetitions after an atom. *)
Fixpoint parse_post (fuel : nat) (r : re) (s : text) : option (re * text) :=
  match fuel with
  | O => None
  | S fuel =>
      match s with
      | "+"%char :: s => parse_post fuel (Plus r) s
      | "{"%char :: s => '(n, m, s) ← parse_bounds s; parse_post fuel (Rep n m r) s
      | _ => Some (r, s)
      end
  end.

Definition chr (c : ascii) : re := Chr (ch c) (ch c).

(** Alternatives, sequences and atoms; [k] is the number of the next group. *)
Fixpoint parse_alt (fuel : nat) (k : nat) (s : text) : option (re * nat * text) :=
  match fuel with
  | O => None
  | S fuel =>
      '(r, k, s) ← parse_seq fuel k s;
      match s with
      | "|"%char :: s => '(r', k, s) ← parse_alt fuel k s; Some (Alt r r', k, s)
      | _ => Some (r, k, s)
      end
  end
with parse_seq (fuel : nat) (k : nat) (s : text) : option (re * nat * text) :=
  match fuel with
  | O => None
  | S fuel =>
      match s with
      | [] | ")"%char :: _ | "|"%char :: _ => Some (Eps, k, s)
      | _ =>
          '(r, k, s) ← parse_atom fuel k s;
          '(r, s) ← parse_post fuel r s;
          '(r', k, s) ← parse_seq fuel k s;
          Some (Seq r r', k, s)
      end
  end
with parse_atom (fuel : nat) (k : nat) (s : text) : option (re * nat * text) :=
  match fuel with
  | O => None
  | S fuel =>
      match s with
      | "("%char :: s =>
          '(r, k', s) ← parse_alt fuel (S k) s;
          match s with ")"%char :: s => Some (Grp k r, k', s) | _ => None end
      | "["%char :: lo :: "-"%char :: hi :: "]"%char :: s => Some (Chr (ch lo) (ch hi), k, s)
      | "\"%char :: c :: s => Some (chr c, k, s)
      | "^"%char :: s => Some (Bol, k, s)
      | "$"%char :: s => Some (Eol, k, s)
      | c :: s => Some (chr c, k, s)
      | [] => None
      end
  end.

Definition regcomp (s : string) : option re :=
  let t := lit s in
  match parse_alt (4 * S (length t)) 1 t with Some (r, _, []) => Some r | _ => None end.

(** * Matching *)

(** A position and the groups matched on the way, the last first, from and to. *)
Definition mstate : Type := nat * list (nat * (nat * nat)).

Section Iter.
Context (f : mstate -> list mstate).

Fixpoint times (n : nat) (st : mstate) : list mstate :=
  match n with O => [st] | S n => flat_map (times n) (f st) end.
Fixpoint up_to (n : nat) (st : mstate) : list mstate :=
  match n with O => [st] | S n => flat_map (up_to n) (f st) ++ [st] end.
(** Repetitions after the first one match something. *)
Fixpoint more (n : nat) (st : mstate) : list mstate :=
  match n with
  | O => [st]
  | S n => flat_map (fun st' => if (fst st <? fst st')%nat then more n st' else []) (f st) ++ [st]
  end.
End Iter.

(** All matches from a position, those preferred first. *)
Fixpoint re_match (s : text) (r : re) (st : mstate) : list mstate :=
  match r with
  | Chr lo hi =>
      match s !! fst st with
      | Some c => if (lo <=? ch c) && (ch c <=? hi) then [(S (fst st), snd st)] else []
      | None => []
      end
  | Bol => if (fst st =? 0)%nat then [st] else []
  | Eol => if (fst st =? length s)%nat then [st] else []
  | Seq a b => flat_map (re_match s b) (re_match s a st)
  | Alt a b => re_match s a st ++ re_match s b st
  | Eps => [st]
  | Rep n m r => flat_map (up_to (re_match s r) m) (times (re_match s r) n st)
  | Plus r => flat_map (more (re_match s r) (length s)) (re_match s r st)
  | Grp k r => map (fun st' => (fst st', (k, (fst st, fst st')) :: snd st')) (re_match s r st)
  end.

(** The first of the longest matches. *)
Fixpoint longest (l : list mstate) : option mstate :=
  match l with
  | [] => None
  | st :: l => match longest l with
               | Some st' => if (fst st <? fst st')%nat then Some st' else Some st
               | None => Some st
               end
  end.

(** [rm_so] of a group; [None] is -1. *)
Definition rm_so (m : list (nat * (nat * nat))) (k : nat) : option nat :=
  snd <$> find (fun e => (fst e =? k)%nat) (map (fun e => (fst e, fst (snd e))) m).

(** The groups of a match from the start of the text, where the expressions of the
    program are anchored. *)
Definition regexec (r : re) (s : text) : option (list (nat * (nat * nat))) := snd <$> longest (re_match s r (O, [])).

(** * Digits are alike *)

Definition undigit (c : ascii) : ascii := if is_digit 10 c then "0"%char else c.

(** The ranges of an expression contain all digits or none. *)
Fixpoint re_blind (r : re) : bool :=
  match r with
  | Chr lo hi => ((lo <=? 48) && (57 <=? hi)) || (hi <? 48) || (57 <? lo)
  | Bol | Eol | Eps => true
  | Seq a b | Alt a b => re_blind a && re_blind b
  | Rep _ _ r | Plus r | Grp _ r => re_blind r
  end.

Lemma flat_map_ext' {A B} (f g : A -> list B) l : (forall x, f x = g x) -> flat_map f l = flat_map g l.
Proof. intros E. induction l as [|x l IH]; [done|]. cbn. by rewrite E, IH. Qed.

Lemma times_ext f g n : (forall st, f st = g st) -> forall st, times f n st = times g n st.
Proof. intros E. induction n as [|n IH]; intros st; [done|]. cbn. rewrite E. by apply flat_map_ext'. Qed.

Lemma up_to_ext f g n : (forall st, f st = g st) -> forall st, up_to f n st = up_to g n st.
Proof. intros E. induction n as [|n IH]; intros st; [done|]. cbn. rewrite E. f_equal. by apply flat_map_ext'. Qed.

Lemma more_ext f g n : (forall st, f st = g st) -> forall st, more f n st = more g n st.
Proof.
  intros E. induction n as [|n IH]; intros st; [done|]. cbn [more]. rewrite E. f_equal. apply flat_map_ext'. intros st'.
  destruct (fst st <? fst st')%nat; [apply IH|done].
Qed.

Lemma is_digit_ch c : is_digit 10 c = (48 <=? ch c) && (ch c <=? 57).
Proof.
  unfold is_digit, digit_val. cbv zeta. destruct (Z.leb_spec 48 (ch c)), (Z.leb_spec (ch c) 57); cbn [andb]; [lia|..];
    repeat match goal with |- context [?a <=? ?b] => destruct (Z.leb_spec a b) end; cbn [andb]; try done; lia.
Qed.

Lemma re_match_undigit s r : re_blind r = true -> forall st, re_match (map undigit s) r st = re_match s r st.
Proof.
  induction r as [lo hi| | |a IHa b IHb|a IHa b IHb| |n m r IH|r IH|k r IH]; cbn [re_blind re_match]; intros Hb st; rewrite ?length_map.
  - change (map undigit s) with (undigit <$> s). rewrite list_lookup_fmap. destruct (s !! fst st) as [c|]; [|done]. cbn.
    unfold undigit. rewrite is_digit_ch. destruct (Z.leb_spec 48 (ch c)), (Z.leb_spec (ch c) 57); cbn [andb]; try done.
    change (ch "0") with 48. replace ((lo <=? 48) && (48 <=? hi)) with ((lo <=? ch c) && (ch c <=? hi)); [done|].
    zcmp; cbn in *; done || lia.
  - done.
  - done.
  - apply andb_prop in Hb as [Ha Hb]. rewrite IHa by done. apply flat_map_ext'. by apply IHb.
  - apply andb_prop in Hb as [Ha Hb]. by rewrite IHa, IHb.
  - done.
  - rewrite (times_ext _ (re_match s r)) by (by apply IH). apply flat_map_ext'. intros st'. by apply up_to_ext, IH.
  - rewrite IH by done. apply flat_map_ext'. intros st'. by apply more_ext, IH.
  - by rewrite IH.
Qed.

Lemma regexec_undigit r s : re_blind r = true -> regexec r s = regexec r (map undigit s).
Proof. intros Hb. unfold regexec. by rewrite re_match_undigit. Qed.
