(* ===== verification/Error.v ===== *)
(** Error messages and their text, [error.c].

    A message is a buffer on the heap that grows; the text that a format and its
    arguments give is a parameter.  The theorems: printing leaves the buffer with
    the text as a C string, prepending puts the new text and a colon before the
    old one, and the table of [actf_errstr] is never reached by an error code. *)
From S2P Require Import Prelude Common.
From stdpp Require Import strings.
Open Scope Z_scope.

(** * Buffers *)

Definition ERROR_DEFAULT_START_SZ : Z := 64.

(** The size and the bytes, which are as many; a null buffer has size 0. *)
Record error := mk_error { err_sz : Z; err_buf : list Z }.
Definition ERROR_EMPTY : error := mk_error 0 [].

(** The bytes up to the null byte. *)
Fixpoint c_text (b : list Z) : list Z :=
  match b with
  | [] => []
  | c :: b' => if c =? 0 then [] else c :: c_text b'
  end.

(** [n] bytes written at an offset; outside of the buffer it is undefined. *)
Definition mem_write (b : list Z) (off : nat) (s : list Z) : outcome (list Z) :=
  if (off + length s <=? length b)%nat then Ok (take off b ++ s ++ drop (off + length s) b) else Undef.

(** [vsnprintf] of a text into a buffer of size [sz]: as much as fits, and a null
    byte. *)
Definition vsnprintf (b : list Z) (sz : Z) (s : list Z) : outcome (list Z) :=
  if sz =? 0 then Ok b else mem_write b 0 (take (Z.to_nat sz - 1) s ++ [0]).

(** [realloc] to a larger size, whose new bytes are [junk]. *)
Definition realloc (junk : Z -> Z) (b : list Z) (newsz : Z) : list Z :=
  b ++ map (fun i => junk (Z.of_nat i)) (seq (length b) (Z.to_nat newsz - length b)).

#[local] Instance outcome_bind : MBind outcome :=
  fun _ _ f m => match m with Ok a => f a | Err rc => Err rc | Undef => Undef end.

Section Error.
(** Whether an allocation of a size succeeds, and what new memory holds. *)
Context (malloc_ok : Z -> bool) (junk : Z -> Z).

Definition error_init (sz : Z) : outcome error :=
  if malloc_ok sz then
    let buf := map (fun i => junk (Z.of_nat i)) (seq 0 (Z.to_nat sz)) in
    buf ← (if sz =? 0 then Ok buf else mem_write buf 0 [0]);
    Ok (mk_error sz buf)
  else Err ACTF_OOM.

(** When the buffer cannot grow the arguments are used after [va_end], which is
    undefined. *)
Definition eprintf (e : error) (s : list Z) : outcome error :=
  let sz := Z.of_nat (length s) + 1 in
  if err_sz e <? sz then
    let newsz := MAX sz ERROR_DEFAULT_START_SZ in
    if malloc_ok newsz then buf ← vsnprintf (realloc junk (err_buf e) newsz) newsz s; Ok (mk_error newsz buf)
    else Undef
  else buf ← vsnprintf (err_buf e) (err_sz e) s; Ok (mk_error (err_sz e) buf).

Definition delim : list Z := [58; 32].

(** The part after the growth of the buffer. *)
Definition prepend (e : error) (cur_len in_len req_sz : nat) (s : list Z) : outcome error :=
  buf ← mem_write (err_buf e) (in_len + length delim) (take cur_len (err_buf e));
  buf ← mem_write buf (req_sz - 1) [0];
  buf ← vsnprintf buf (err_sz e) s;
  buf ← mem_write buf in_len delim;
  Ok (mk_error (err_sz e) buf).

Definition eprependf (e : error) (s : list Z) : outcome error :=
  let cur_len := if err_sz e =? 0 then O else length (c_text (err_buf e)) in
  let in_len := length s in
  let req_sz := (in_len + length delim + cur_len + 1)%nat in
  if err_sz e <? Z.of_nat req_sz then
    if malloc_ok (Z.of_nat req_sz) then
      prepend (mk_error (Z.of_nat req_sz) (realloc junk (err_buf e) (Z.of_nat req_sz))) cur_len in_len req_sz s
    else Err ACTF_OOM
  else prepend e cur_len in_len req_sz s.
End Error.

(** * Codes *)

Definition quoted (s : string) : string :=
  let q := String.String (Ascii.ascii_of_nat 34) String.EmptyString in q +:+ s +:+ q.

Definition error_strs : list string :=
  [ "not an error"; "generic error"; "internal error"; "out of memory"; "property was not found"; "the json could not be parsed";
    "incompatible json value"; "incompatible type of json value"; "a value is not greater or equal than zero";
    "a value is not greater than zero"; "an alignment is not a power of two"; "non-existent byte order"; "non-existent bit order";
    "invalid range"; "invalid range set"; "invalid uuid"; "invalid mapping"; "invalid field location"; "invalid field class";
    "invalid flags"; "invalid role"; "non-existent base"; "unsupported integer or float length"; "invalid encoding";
    "invalid environment"; "invalid variant"; "cycle offset greater than or equal to frequency";
    "non-existent field class alias is referred to"; "required property is missing"; "an extension is enabled which is not supported";
    "unknown clock origin"; "default timestamp role specified but the data stream has no default clock";
    "invalid " +:+ quoted "metadata-stream-uuid" +:+ " role, no uuid in preamble or type?";
    "invalid " +:+ quoted "packet-magic-number" +:+ " role, should be first member in struct";
    "top-level field class is not a struct when it should be"; "duplicate fragment, field class, name or id";
    "non-existent field class is referred to by id"; "the CTF version is not supported"; "no preamble";
    "a selection field or a length indicator field has the wrong type"; "field location not found";
    "not enough bits in the data stream"; "the byte-order changed in the middle of a byte";
    "a string has a length which is not compatible with its encoding"; "the packet magic number is incorrect";
    "the data stream UUID does not match the metadata UUID"; "a selector field is not found for an optional or variant";
    "a packet content length is larger than its total length"; "a metadata packet is not valid" ]%string.

Definition actf_errstr (rc : Z) : string :=
  if (0 <=? rc) && (rc <? Z.of_nat (length error_strs)) then nth (Z.to_nat rc) error_strs ""%string
  else "unknown error"%string.

(** * Correctness *)

Definition is_text (s : list Z) : Prop := Forall (fun c => c <> 0) s.

(** A buffer of its size that holds a C string; a null buffer is empty. *)
Definition err_wf (e : error) : Prop :=
  err_sz e = Z.of_nat (length (err_buf e)) /\ (err_buf e = [] \/ In 0 (err_buf e)).

Lemma c_text_app s b : is_text s -> c_text (s ++ 0 :: b) = s.
Proof. induction 1 as [|c s Hc _ IH]; cbn; [done|]. destruct (Z.eqb_spec c 0); [done|]. by rewrite IH. Qed.

Lemma c_text_split b : In 0 b -> is_text (c_text b) /\ exists r, b = c_text b ++ 0 :: r.
Proof.
  induction b as [|c b IH]; intros Hin; [done|]. cbn. destruct (Z.eqb_spec c 0) as [->|Hc]; [split; [constructor|by exists b]|].
  destruct Hin as [|Hin]; [done|]. destruct (IH Hin) as (Ht & r & Hr). split; [by constructor|]. exists r. cbn. by rewrite <- Hr.
Qed.

Lemma vsnprintf_fits b sz s : sz = Z.of_nat (length b) -> (length s < length b)%nat ->
  vsnprintf b sz s = Ok (s ++ 0 :: drop (S (length s)) b).
Proof.
  intros -> Hl. unfold vsnprintf. destruct (Z.eqb_spec (Z.of_nat (length b)) 0); [lia|].
  rewrite Nat2Z.id, take_ge by lia. unfold mem_write. rewrite length_app. cbn [length].
  destruct (Nat.leb_spec (0 + (length s + 1)) (length b)); [|lia]. cbn [take app]. rewrite <- app_assoc. cbn [app].
  by rewrite Nat.add_0_l, Nat.add_1_r.
Qed.

Lemma length_realloc junk b n : Z.of_nat (length b) <= n -> Z.of_nat (length (realloc junk b n)) = n.
Proof. intros Hn. unfold realloc. rewrite length_app, length_map, length_seq. lia. Qed.

(** Printing leaves the text in the buffer. *)
Lemma eprintf_text ok junk e s e' : err_wf e -> is_text s -> eprintf ok junk e s = Ok e' ->
  err_wf e' /\ c_text (err_buf e') = s.
Proof.
  intros [Hsz _] Hs. unfold eprintf.
  assert (Hgo : forall b sz, sz = Z.of_nat (length b) -> (length s < length b)%nat ->
    (buf ← vsnprintf b sz s; Ok (mk_error sz buf)) = Ok e' -> err_wf e' /\ c_text (err_buf e') = s).
  { intros b sz Hb Hl. rewrite vsnprintf_fits by done. intros [= <-]. cbn. split; [|by apply c_text_app].
    split; cbn; [rewrite length_app; cbn; rewrite length_drop; lia|]. right. apply in_or_app. right. by left. }
  destruct (Z.ltb_spec (err_sz e) (Z.of_nat (length s) + 1)); [destruct (ok _); [|done]|]; apply Hgo; try lia.
  - rewrite length_realloc; [done|]. rewrite MAX_spec. unfold ERROR_DEFAULT_START_SZ. lia.
  - assert (Z.of_nat (length (realloc junk (err_buf e) (MAX (Z.of_nat (length s) + 1) ERROR_DEFAULT_START_SZ))) =
      MAX (Z.of_nat (length s) + 1) ERROR_DEFAULT_START_SZ) as Hr.
    { apply length_realloc. rewrite MAX_spec. unfold ERROR_DEFAULT_START_SZ. lia. }
    rewrite MAX_spec in *. unfold ERROR_DEFAULT_START_SZ in *. lia.
Qed.

Lemma mem_write_app a m z s n : n = length a -> length s = length m -> mem_write (a ++ m ++ z) n s = Ok (a ++ s ++ z).
Proof.
  intros -> Hl. unfold mem_write. rewrite !length_app. destruct (Nat.leb_spec (length a + length s) (length a + (length m + length z))); [|lia].
  rewrite take_app_length, Hl. rewrite (app_assoc a m z), drop_app_length' by (by rewrite length_app). done.
Qed.

(** A list in pieces of given lengths. *)
Lemma cut (b : list Z) n : (n <= length b)%nat -> exists a r, b = a ++ r /\ length a = n.
Proof. intros Hn. exists (take n b), (drop n b). by rewrite take_drop, length_take_le. Qed.

(** The moves of [eprependf], on a buffer that is large enough. *)
Lemma prepend_text b t s : is_text s -> is_text t -> take (length t) b = t -> (length s + 2 + length t + 1 <= length b)%nat ->
  exists e', prepend (mk_error (Z.of_nat (length b)) b) (length t) (length s) (length s + 2 + length t + 1) s = Ok e' /\
    err_wf e' /\ c_text (err_buf e') = s ++ delim ++ t.
Proof.
  intros Hs Ht Hcur Hl. unfold prepend. cbn [err_buf err_sz]. rewrite Hcur. clear Hcur.
  destruct (cut b (length s + 1)) as (a & r & -> & La); [lia|]. rewrite length_app in Hl.
  destruct r as [|x r]; [cbn in Hl; lia|]. cbn in Hl. destruct (cut r (length t)) as (m & r' & -> & Lm); [lia|].
  rewrite length_app in Hl. destruct r' as [|y z]; [cbn in Hl; lia|].
  replace (a ++ x :: m ++ y :: z) with ((a ++ [x]) ++ m ++ y :: z) by (by rewrite <- app_assoc).
  rewrite mem_write_app by (rewrite ?length_app; cbn; lia). cbn [mbind outcome_bind].
  rewrite (app_assoc (a ++ [x]) t). change (y :: z) with ([y] ++ z). rewrite mem_write_app by (rewrite ?length_app; cbn; lia).
  cbn [mbind outcome_bind].
  rewrite vsnprintf_fits by (rewrite ?length_app; cbn; rewrite ?length_app; cbn; lia). cbn [mbind outcome_bind].
  replace (drop (S (length s)) (((a ++ [x]) ++ t) ++ [0] ++ z)) with (x :: t ++ 0 :: z)
    by (rewrite <- !app_assoc; symmetry; rewrite drop_app_length' by lia; done).
  change (s ++ 0 :: x :: t ++ 0 :: z) with (s ++ [0; x] ++ t ++ 0 :: z). rewrite mem_write_app by done. cbn [mbind outcome_bind].
  eexists. split; [done|]. split.
  - split; cbn [err_sz err_buf].
    + unfold delim. repeat (rewrite length_app || cbn [length]). lia.
    + right. rewrite !in_app_iff. right. right. right. by left.
  - cbn [err_buf]. rewrite !app_assoc. rewrite c_text_app; [done|]. apply Forall_app. split; [|done]. apply Forall_app. split; [done|].
    by repeat constructor.
Qed.

Lemma err_take e : err_wf e -> let t := if err_sz e =? 0 then [] else c_text (err_buf e) in
  is_text t /\ c_text (err_buf e) = t /\ (forall r, take (length t) (err_buf e ++ r) = t) /\ (length t <= length (err_buf e))%nat.
Proof.
  intros [Hsz Hb]. destruct Hb as [Hb|Hin].
  - rewrite Hb in *. rewrite Hsz. split_and!; [exact (Forall_nil_2 _)|done|done|exact (le_n O)].
  - destruct (Z.eqb_spec (err_sz e) 0) as [E|E]; [destruct (err_buf e); [done|cbn in Hsz; lia]|].
    destruct (c_text_split _ Hin) as (Ht & r & Hr). split_and!; [done|done| |].
    + intros r'. rewrite Hr at 2. rewrite <- app_assoc. by rewrite take_app_length.
    + rewrite Hr at 2. rewrite length_app. lia.
Qed.

(** Error messages.  Printing into an error leaves exactly the text as the
    message, whatever was there; prepending leaves the text, a colon, a blank and
    the message before (on failure the error is unchanged); and in both cases
    nothing is written outside of the buffer, which stays terminated, as long as
    the buffer can grow. *)
Theorem error_messages ok junk e s : err_wf e -> is_text s ->
  (match eprintf ok junk e s with
   | Ok e' => err_wf e' /\ c_text (err_buf e') = s
   | Err _ => False
   | Undef => exists n, ok n = false
   end) /\
  match eprependf ok junk e s with
  | Ok e' => err_wf e' /\ c_text (err_buf e') = s ++ delim ++ c_text (err_buf e)
  | Err rc => rc = ACTF_OOM /\ exists n, ok n = false
  | Undef => False
  end.
Proof.
  intros He Hs. split.
  - destruct (eprintf ok junk e s) as [e'|rc|] eqn:E; [by eapply eprintf_text|exfalso|]; revert E; unfold eprintf.
    + destruct (_ <? _); [destruct (ok _)|]; unfold vsnprintf, mem_write; repeat case_match; done.
    + destruct He as [Hsz _]. destruct (Z.ltb_spec (err_sz e) (Z.of_nat (length s) + 1)).
      * destruct (ok _) eqn:Eo; [|by eauto]. rewrite vsnprintf_fits; [done|symmetry; apply length_realloc|apply Nat2Z.inj_lt; rewrite length_realloc];
          rewrite ?MAX_spec; unfold ERROR_DEFAULT_START_SZ; lia.
      * rewrite vsnprintf_fits; [done|done|lia].
  - destruct (err_take e He) as (Ht & Hc & Htake & Hlen). destruct He as [Hsz _]. rewrite Hc. unfold eprependf.
    set (t := if err_sz e =? 0 then [] else c_text (err_buf e)) in *.
    replace (if err_sz e =? 0 then O else length (c_text (err_buf e))) with (length t) by (unfold t; by destruct (err_sz e =? 0)).
    change (length delim) with 2%nat.
    destruct (Z.ltb_spec (err_sz e) (Z.of_nat (length s + 2 + length t + 1))) as [Hlt|Hge].
    + destruct (ok _) eqn:Eo; [|by eauto].
      set (n := Z.of_nat (length s + 2 + length t + 1)) in *.
      assert (Hr : Z.of_nat (length (realloc junk (err_buf e) n)) = n) by (apply length_realloc; lia).
      replace (mk_error n (realloc junk (err_buf e) n)) with
        (mk_error (Z.of_nat (length (realloc junk (err_buf e) n))) (realloc junk (err_buf e) n)) by (by rewrite Hr).
      destruct (prepend_text (realloc junk (err_buf e) n) t s) as (e' & He' & Hw); [done|done|apply Htake|lia|]. by rewrite He'.
    + destruct e as [sz b]. cbn [err_sz err_buf] in *. subst sz.
      destruct (prepend_text b t s) as (e' & He' & Hw); [done|done| |lia|by rewrite He'].
      specialize (Htake []). by rewrite app_nil_r in Htake.
Qed.

Example error_messages_witness :
  let e := mk_error 4 [97; 98; 0; 7] in
  match eprependf (fun _ => true) (fun _ => 1) e [120; 121] with
  | Ok e' => err_wf e' /\ c_text (err_buf e') = [120; 121; 58; 32; 97; 98]
  | Err rc => rc = ACTF_OOM /\ exists n, (fun _ : Z => true) n = false
  | Undef => False
  end.
Proof.
  intros e. apply (error_messages (fun _ => true) (fun _ => 1) e [120; 121]).
  - split; [done|]. right. right. right. by left.
  - by repeat constructor.
Defined.

(** Every return code that is an error is "unknown", since the table is indexed by
    the code and not by its negation; and the table has an entry, "invalid mapping",
    that no code has, so that it is off by one from there on. *)
Lemma errstr_unknown rc : rc < 0 -> actf_errstr rc = "unknown error"%string.
Proof. intros Hrc. unfold actf_errstr. destruct (Z.leb_spec 0 rc); [lia|done]. Qed.

Lemma errstr_table : nth (Z.to_nat (- ACTF_INVALID_RANGE_SET)) error_strs ""%string = "invalid range set"%string /\
  nth (Z.to_nat (- ACTF_INVALID_FLD_LOC)) error_strs ""%string = "invalid mapping"%string /\ length error_strs = 49%nat.
Proof. vm_compute. done. Qed.
