(* ===== verification/Breader.v ===== *)
(** The bit reader, [breader.h] and [breader.c].

    A reader is a block of memory and a 64-bit look-ahead word that holds the
    next [lookahead_bit_cnt] bits of the stream.  Pointers are byte offsets in
    the block [br_mem].  Every operation of [breader.c] is translated, in its
    little- and big-endian variants; [assert] failures are [Undef].

    [br_wf] is the representation invariant and [ctf_bits] the abstract
    specification: the bits of the memory block, numbered by the byte order.
    The theorems show that each operation is the abstract operation on the bit
    position [tot_bit_cnt]. *)
From S2P Require Import Prelude Common.

(** * State *)

Record breader := mk_breader {
  br_bo : actf_byte_order;
  br_mem : list Z;
  start_ptr : Z;
  read_ptr : Z;
  end_ptr : Z;
  lookahead : Z;
  lookahead_bit_cnt : Z;
  tot_bit_cnt : Z
}.

Definition MAX_READ_BITS : Z := 56.

Inductive breader_seek_op := BREADER_SEEK_SET | BREADER_SEEK_CUR | BREADER_SEEK_END.

(** * Operations *)

Definition breader_init (addr : list Z) (len : Z) (bo : actf_byte_order) : breader :=
  {| br_bo := bo; br_mem := addr; start_ptr := 0; read_ptr := 0; end_ptr := len;
     lookahead := 0; lookahead_bit_cnt := 0; tot_bit_cnt := 0 |}.

Definition breader_set_bo (bo : actf_byte_order) (br : breader) : breader :=
  if decide (br_bo br = bo) then br
  else {| br_bo := bo; br_mem := br_mem br; start_ptr := start_ptr br;
          read_ptr := read_ptr br; end_ptr := end_ptr br;
          lookahead := bswap64 (lookahead br);
          lookahead_bit_cnt := lookahead_bit_cnt br; tot_bit_cnt := tot_bit_cnt br |}.

Definition breader_peek_le (cnt : Z) : st breader Z :=
  br ← st_get;
  c_assert (cnt <=? lookahead_bit_cnt br);;
  mret (Z.land (lookahead br) (u64 (u64 (Z.shiftl 1 cnt) - 1))).

Definition breader_peek_be (cnt : Z) : st breader Z :=
  br ← st_get;
  c_assert (cnt <=? lookahead_bit_cnt br);;
  mret (Z.shiftr (lookahead br) (64 - cnt)).

Definition breader_peek (cnt : Z) : st breader Z :=
  br ← st_get;
  c_assert (cnt <=? lookahead_bit_cnt br);;
  match br_bo br with
  | ACTF_LIL_ENDIAN => breader_peek_le cnt
  | ACTF_BIG_ENDIAN => breader_peek_be cnt
  end.

(** [breader_consumem]: [shft] is the shift of the byte order. *)
Definition breader_consumem (cnt : Z) (shft : Z -> Z -> Z) : st breader unit :=
  br ← st_get;
  c_assert (cnt <=? lookahead_bit_cnt br);;
  st_put {| br_bo := br_bo br; br_mem := br_mem br; start_ptr := start_ptr br;
            read_ptr := read_ptr br; end_ptr := end_ptr br;
            lookahead := shft (lookahead br) cnt;
            lookahead_bit_cnt := lookahead_bit_cnt br - cnt;
            tot_bit_cnt := u64 (tot_bit_cnt br + cnt) |}.

Definition shl64 (x n : Z) : Z := u64 (Z.shiftl x n).

Definition breader_consume_le (cnt : Z) : st breader unit := breader_consumem cnt Z.shiftr.
Definition breader_consume_be (cnt : Z) : st breader unit := breader_consumem cnt shl64.

Definition breader_consume (cnt : Z) : st breader unit :=
  br ← st_get;
  c_assert (cnt <=? lookahead_bit_cnt br);;
  match br_bo br with
  | ACTF_LIL_ENDIAN => breader_consume_le cnt
  | ACTF_BIG_ENDIAN => breader_consume_be cnt
  end.

(** The host is little endian (not [WORDS_BIGENDIAN]). *)
Definition HTOLE64 (x : Z) : Z := x.
Definition HTOBE64 (x : Z) : Z := bswap64 x.

Definition read_unalign_64 (mem : list Z) (p : Z) : Z := le_load (mem_slice mem p 8).

(** [breader_refillm]: [shft] and [htobo64] are those of the byte order. *)
Definition breader_refillm (shft : Z -> Z -> Z) (htobo64 : Z -> Z) (br : breader) : breader :=
  if end_ptr br - read_ptr br >=? 8 then
    let next := read_unalign_64 (br_mem br) (read_ptr br) in
    {| br_bo := br_bo br; br_mem := br_mem br; start_ptr := start_ptr br;
       read_ptr := read_ptr br + Z.shiftr (63 - lookahead_bit_cnt br) 3;
       end_ptr := end_ptr br;
       lookahead := Z.lor (lookahead br) (shft (htobo64 next) (lookahead_bit_cnt br));
       lookahead_bit_cnt := Z.lor (lookahead_bit_cnt br) MAX_READ_BITS;
       tot_bit_cnt := tot_bit_cnt br |}
  else
    let n_bytes := end_ptr br - read_ptr br in
    let next := le_load (mem_slice (br_mem br) (read_ptr br) n_bytes) in
    let n_used_bytes := Z.shiftr (63 - lookahead_bit_cnt br) 3 in
    let n_used_bytes := if n_bytes <? n_used_bytes then n_bytes else n_used_bytes in
    {| br_bo := br_bo br; br_mem := br_mem br; start_ptr := start_ptr br;
       read_ptr := read_ptr br + n_used_bytes;
       end_ptr := end_ptr br;
       lookahead := Z.lor (lookahead br) (shft (htobo64 next) (lookahead_bit_cnt br));
       lookahead_bit_cnt := lookahead_bit_cnt br + n_used_bytes * 8;
       tot_bit_cnt := tot_bit_cnt br |}.

Definition breader_refill_le : st breader Z :=
  st_modify (breader_refillm shl64 HTOLE64);;
  br ← st_get; mret (lookahead_bit_cnt br).

Definition breader_refill_be : st breader Z :=
  st_modify (breader_refillm Z.shiftr HTOBE64);;
  br ← st_get; mret (lookahead_bit_cnt br).

Definition breader_refill : st breader Z :=
  br ← st_get;
  match br_bo br with
  | ACTF_LIL_ENDIAN => breader_refill_le
  | ACTF_BIG_ENDIAN => breader_refill_be
  end.

(** [breader_consume_checkedm]: [consume_BO] and [refill_BO] are those of the
    byte order. *)
Definition breader_consume_checkedm (consume_BO : Z -> st breader unit)
    (refill_BO : st breader Z) (cnt : Z) : st breader unit :=
  br ← st_get;
  if cnt <=? lookahead_bit_cnt br then consume_BO cnt
  else
    let to_consume := cnt - lookahead_bit_cnt br in
    consume_BO (lookahead_bit_cnt br);;
    br ← st_get;
    let bytes_to_consume := Z.shiftr to_consume 3 in
    let avail_bytes_to_consume := end_ptr br - read_ptr br in
    if avail_bytes_to_consume <=? bytes_to_consume then
      st_put {| br_bo := br_bo br; br_mem := br_mem br; start_ptr := start_ptr br;
                read_ptr := read_ptr br + avail_bytes_to_consume; end_ptr := end_ptr br;
                lookahead := 0; lookahead_bit_cnt := lookahead_bit_cnt br;
                tot_bit_cnt := u64 (tot_bit_cnt br + avail_bytes_to_consume * 8) |}
    else
      st_put {| br_bo := br_bo br; br_mem := br_mem br; start_ptr := start_ptr br;
                read_ptr := read_ptr br + bytes_to_consume; end_ptr := end_ptr br;
                lookahead := 0; lookahead_bit_cnt := lookahead_bit_cnt br;
                tot_bit_cnt := u64 (tot_bit_cnt br + bytes_to_consume * 8) |};;
      let bits_to_consume := Z.land to_consume 0x7 in
      avail_bits ← refill_BO;
      c_assert (avail_bits >=? bits_to_consume);;
      breader_consume bits_to_consume.

Definition breader_consume_checked_le (cnt : Z) : st breader unit :=
  breader_consume_checkedm breader_consume_le breader_refill_le cnt.
Definition breader_consume_checked_be (cnt : Z) : st breader unit :=
  breader_consume_checkedm breader_consume_be breader_refill_be cnt.

Definition breader_consume_checked (cnt : Z) : st breader unit :=
  br ← st_get;
  match br_bo br with
  | ACTF_LIL_ENDIAN => breader_consume_checked_le cnt
  | ACTF_BIG_ENDIAN => breader_consume_checked_be cnt
  end.

Definition breader_byte_aligned (br : breader) : bool := lookahead_bit_cnt br mod 8 =? 0.

(** [(x + align - 1) & -align] on [uint64_t]. *)
Definition align_up (x align : Z) : Z := Z.land (u64 (x + align - 1)) (u64 (- align)).

Definition breader_alignm (consume_checked_BO : Z -> st breader unit) (align : Z) : st breader unit :=
  br ← st_get;
  let new_tot_bit_cnt := align_up (tot_bit_cnt br) align in
  c_assert (new_tot_bit_cnt >=? tot_bit_cnt br);;
  let to_be_consumed := new_tot_bit_cnt - tot_bit_cnt br in
  consume_checked_BO to_be_consumed.

Definition breader_align_le (align : Z) : st breader unit :=
  breader_alignm breader_consume_checked_le align.
Definition breader_align_be (align : Z) : st breader unit :=
  breader_alignm breader_consume_checked_be align.

Definition breader_align (align : Z) : st breader unit :=
  br ← st_get;
  match br_bo br with
  | ACTF_LIL_ENDIAN => breader_align_le align
  | ACTF_BIG_ENDIAN => breader_align_be align
  end.

Definition breader_bits_remaining (br : breader) : Z :=
  u64 ((end_ptr br - read_ptr br) * 8 + lookahead_bit_cnt br).

Definition breader_has_bits_remaining (br : breader) : bool :=
  c_true (lookahead_bit_cnt br) || (read_ptr br <? end_ptr br).

Definition breader_bytes_remaining (br : breader) : Z :=
  (end_ptr br - read_ptr br) + Z.shiftr (lookahead_bit_cnt br) 3.

(** A pointer into the block is its offset. *)
Definition breader_peek_bytes (br : breader) : Z :=
  read_ptr br - Z.shiftr (lookahead_bit_cnt br) 3.

Definition breader_read_bits (cnt : Z) : st breader Z :=
  c_assert (cnt <=? MAX_READ_BITS);;
  br ← st_get;
  len ← (if lookahead_bit_cnt br <? cnt then breader_refill else mret cnt);
  if len <? cnt then mret UINT64_MAX
  else
    res ← breader_peek cnt;
    breader_consume cnt;;
    mret res.

Definition breader_read_bit : st breader Z :=
  b ← breader_read_bits 1; mret (u8 b).

(** [None] is the [NULL] pointer. *)
Definition breader_read_bytes (cnt : Z) : st breader (option Z) :=
  br ← st_get;
  c_assert (breader_byte_aligned br);;
  let avail_bytes := breader_bytes_remaining br in
  if avail_bytes <? cnt then mret None
  else
    let ptr := read_ptr br - Z.shiftr (lookahead_bit_cnt br) 3 in
    breader_consume_checked (u64 (cnt * 8));;
    mret (Some ptr).

Definition breader_seek (off : Z) (whence : breader_seek_op) (br : breader) : breader :=
  let read_ptr' :=
    match whence with
    | BREADER_SEEK_SET =>
        if off <? end_ptr br - start_ptr br then start_ptr br + off else end_ptr br
    | BREADER_SEEK_CUR =>
        if off <? end_ptr br - read_ptr br then read_ptr br + off else end_ptr br
    | BREADER_SEEK_END => end_ptr br
    end in
  {| br_bo := br_bo br; br_mem := br_mem br; start_ptr := start_ptr br;
     read_ptr := read_ptr'; end_ptr := end_ptr br;
     lookahead := 0; lookahead_bit_cnt := 0;
     tot_bit_cnt := u64 ((read_ptr' - start_ptr br) * 8) |}.

(** * Abstract specification *)

(** The bits of a memory block in the numbering of a byte order. *)
Definition stream_bit (bo : actf_byte_order) (mem : list Z) (p : Z) : bool :=
  match bo with
  | ACTF_LIL_ENDIAN => bit_le mem p
  | ACTF_BIG_ENDIAN => bit_be mem p
  end.

(** The unsigned integer in the [n] bits from position [p]: the first bit is
    the least significant one in little-endian order, the most significant one
    in big-endian order. *)
Fixpoint ctf_bits (bo : actf_byte_order) (mem : list Z) (p : Z) (n : nat) : Z :=
  match n with
  | O => 0
  | S n' =>
      match bo with
      | ACTF_LIL_ENDIAN => Z.b2z (stream_bit bo mem p) + 2 * ctf_bits bo mem (p + 1) n'
      | ACTF_BIG_ENDIAN =>
          Z.b2z (stream_bit bo mem p) * 2 ^ Z.of_nat n' + ctf_bits bo mem (p + 1) n'
      end
  end.

Definition mem_bits (br : breader) : Z := 8 * Z.of_nat (length (br_mem br)).

(** The least multiple of [a] that is not below [x]. *)
Definition round_up (x a : Z) : Z := (x + a - 1) / a * a.

(** Bit [i] of the look-ahead, in stream order. *)
Definition la_bit (bo : actf_byte_order) (la i : Z) : bool :=
  match bo with
  | ACTF_LIL_ENDIAN => Z.testbit la i
  | ACTF_BIG_ENDIAN => Z.testbit la (63 - i)
  end.

(** The first [cnt] bits of the look-ahead are the stream from [p]; the bits
    after them may be spare bits of the stream that the last refill left, so
    that a later refill can [or] them again. *)
Definition la_ok (bo : actf_byte_order) (mem : list Z) (la cnt p : Z) : Prop :=
  forall i, 0 <= i < 64 ->
    (i < cnt -> la_bit bo la i = stream_bit bo mem (p + i)) /\
    (la_bit bo la i = true -> stream_bit bo mem (p + i) = true).

Record br_wf (br : breader) : Prop := {
  wf_bytes : Forall is_byte (br_mem br);
  wf_start : start_ptr br = 0;
  wf_end : end_ptr br = Z.of_nat (length (br_mem br));
  wf_size : mem_bits br <= 2 ^ 62;
  wf_rp : 0 <= read_ptr br <= end_ptr br;
  wf_cnt : 0 <= lookahead_bit_cnt br <= 63;
  wf_tot : tot_bit_cnt br = 8 * read_ptr br - lookahead_bit_cnt br;
  wf_pos : 0 <= tot_bit_cnt br;
  wf_la : is_u64 (lookahead br);
  wf_bits : la_ok (br_bo br) (br_mem br) (lookahead br) (lookahead_bit_cnt br) (tot_bit_cnt br)
}.

(** [br'] reads the same block in the same byte order. *)
Definition same_stream (br br' : breader) : Prop :=
  br_bo br' = br_bo br /\ br_mem br' = br_mem br.

(** ** Values of bit strings *)

Lemma ctf_bits_range bo mem p n : 0 <= ctf_bits bo mem p n < 2 ^ Z.of_nat n.
Proof.
  revert p. induction n as [|n IH]; intros p; [simpl; lia|].
  rewrite Nat2Z.inj_succ, Z.pow_succ_r by lia. simpl.
  specialize (IH (p + 1)). pose proof (pow2_pos (Z.of_nat n) ltac:(lia)).
  destruct bo, (stream_bit _ mem p); simpl Z.b2z; lia.
Qed.

Lemma testbit_ctf_bits_le mem p n i :
  0 <= i -> Z.testbit (ctf_bits ACTF_LIL_ENDIAN mem p n) i = (i <? Z.of_nat n) && bit_le mem (p + i).
Proof.
  revert p i. induction n as [|n IH]; intros p i Hi; simpl ctf_bits.
  - rewrite Z.testbit_0_l. zcmp.
  - rewrite Z.add_comm. destruct (Z.eq_dec i 0) as [->|].
    + rewrite Z.testbit_0_r. rewrite Z.add_0_r. zcmp; done.
    + replace i with (Z.succ (i - 1)) at 1 by lia.
      rewrite Z.testbit_succ_r, IH by lia.
      replace (p + 1 + (i - 1)) with (p + i) by lia. zcmp; done.
Qed.

Lemma testbit_ctf_bits_be mem p n i :
  0 <= i ->
  Z.testbit (ctf_bits ACTF_BIG_ENDIAN mem p n) i =
    (i <? Z.of_nat n) && bit_be mem (p + (Z.of_nat n - 1 - i)).
Proof.
  revert p i. induction n as [|n IH]; intros p i Hi.
  { simpl. rewrite Z.testbit_0_l. zcmp. }
  pose proof (ctf_bits_range ACTF_BIG_ENDIAN mem (p + 1) n) as Hr. simpl ctf_bits.
  rewrite <- Z.shiftl_mul_pow2 by lia. simpl stream_bit.
  set (low := ctf_bits ACTF_BIG_ENDIAN mem (p + 1) n) in *.
  assert (Hdisj : Z.land (Z.shiftl (Z.b2z (bit_be mem p)) (Z.of_nat n)) low = 0).
  { bitwise j. destruct (Z.ltb_spec j (Z.of_nat n)).
    - by rewrite (Z.testbit_neg_r _ (j - Z.of_nat n)) by lia.
    - rewrite (testbit_high (Z.of_nat n) low) by lia. apply andb_false_r. }
  rewrite Z.add_nocarry_lxor by done. rewrite Z.lxor_spec, Z.shiftl_spec by lia. subst low.
  rewrite IH by lia.
  destruct (Z.ltb_spec i (Z.of_nat n)).
  - rewrite Z.testbit_neg_r by lia. simpl.
    destruct (Z.ltb_spec i (Z.of_nat (S n))); [|lia].
    replace (p + 1 + (Z.of_nat n - 1 - i)) with (p + (Z.of_nat (S n) - 1 - i)) by lia. done.
  - simpl. rewrite xorb_false_r.
    destruct (Z.ltb_spec i (Z.of_nat (S n))).
    + replace (i - Z.of_nat n) with 0 by lia. rewrite Z.b2z_bit0.
      replace (p + (Z.of_nat (S n) - 1 - i)) with p by lia. done.
    + apply (testbit_high 1); [|lia]. destruct (bit_be mem p); simpl; lia.
Qed.

(** ** The look-ahead *)

(** The shift and the byte swap of a byte order, as the [_le]/[_be] macros
    select them. *)
Definition shft_of (bo : actf_byte_order) : Z -> Z -> Z :=
  match bo with ACTF_LIL_ENDIAN => shl64 | ACTF_BIG_ENDIAN => Z.shiftr end.
Definition htobo_of (bo : actf_byte_order) : Z -> Z :=
  match bo with ACTF_LIL_ENDIAN => HTOLE64 | ACTF_BIG_ENDIAN => HTOBE64 end.
Definition consume_shft_of (bo : actf_byte_order) : Z -> Z -> Z :=
  match bo with ACTF_LIL_ENDIAN => Z.shiftr | ACTF_BIG_ENDIAN => shl64 end.

Lemma bswap64_range x : is_u64 (bswap64 x).
Proof.
  unfold is_u64, bswap64, u64.
  assert (Hnn : forall y k m, 0 <= m -> 0 <= Z.shiftr (Z.land y m) k).
  { intros. apply Z.shiftr_nonneg. apply Z.land_nonneg. lia. }
  split.
  - rewrite Z.lor_0_l. rewrite !Z.lor_nonneg. repeat split; try (apply Hnn; lia);
      apply Z.mod_pos_bound; lia.
  - apply bits_bound; [lia| |].
    + rewrite Z.lor_0_l. rewrite !Z.lor_nonneg. repeat split; try (apply Hnn; lia);
        apply Z.mod_pos_bound; lia.
    + intros i Hi. rewrite !Z.lor_spec, !testbit_mod2, !Z.shiftr_spec, !Z.land_spec by lia.
      rewrite Z.testbit_0_l. destruct (Z.ltb_spec i 64); [lia|].
      rewrite (testbit_high 64 0xFF00000000000000), (testbit_high 64 0x00FF000000000000),
        (testbit_high 64 0x0000FF0000000000), (testbit_high 64 0x000000FF00000000) by lia.
      rewrite !andb_false_r. done.
Qed.

Lemma la_bit_lor bo a b i : la_bit bo (Z.lor a b) i = la_bit bo a i || la_bit bo b i.
Proof. destruct bo; apply Z.lor_spec. Qed.

(** Shifting a word past [cnt] bits of the look-ahead. *)
Lemma la_bit_shft bo w cnt i :
  is_u64 w -> 0 <= cnt <= 63 -> 0 <= i < 64 ->
  la_bit bo (shft_of bo w cnt) i = (cnt <=? i) && la_bit bo w (i - cnt).
Proof.
  intros Hw Hc Hi. destruct bo; simpl.
  - unfold shl64. rewrite testbit_u64, Z.shiftl_spec by lia.
    destruct (Z.leb_spec cnt i); zcmp; [done|]. by rewrite Z.testbit_neg_r by lia.
  - rewrite Z.shiftr_spec by lia. destruct (Z.leb_spec cnt i); simpl.
    + f_equal. lia.
    + apply (testbit_high 64); [done|lia].
Qed.

Lemma shft_of_range bo w cnt : is_u64 w -> 0 <= cnt -> is_u64 (shft_of bo w cnt).
Proof.
  intros Hw Hc. destruct bo; simpl; [apply u64_range|].
  unfold is_u64 in *. rewrite Z.shiftr_div_pow2 by lia. pose proof (pow2_pos cnt Hc).
  split; [apply Z.div_pos; lia|].
  apply Z.le_lt_trans with w; [|lia]. apply Z.div_le_upper_bound; nia.
Qed.

Lemma lor_range a b : is_u64 a -> is_u64 b -> is_u64 (Z.lor a b).
Proof.
  intros Ha Hb. unfold is_u64 in *. split; [apply Z.lor_nonneg; lia|].
  apply bits_bound; [lia|apply Z.lor_nonneg; lia|].
  intros i Hi. rewrite Z.lor_spec, (testbit_high 64 a), (testbit_high 64 b) by lia. done.
Qed.

(** Dropping [n] consumed bits. *)
Lemma la_bit_consume bo la n i :
  is_u64 la -> 0 <= n <= 63 -> 0 <= i < 64 ->
  la_bit bo (consume_shft_of bo la n) i = (i + n <? 64) && la_bit bo la (i + n).
Proof.
  intros Hla Hn Hi. destruct bo; simpl.
  - rewrite Z.shiftr_spec by lia. destruct (Z.ltb_spec (i + n) 64); [done|].
    apply (testbit_high 64); [done|lia].
  - unfold shl64. rewrite testbit_u64, Z.shiftl_spec by lia.
    destruct (Z.ltb_spec (i + n) 64); destruct (Z.ltb_spec (63 - i) 64); try lia; simpl.
    + f_equal. lia.
    + apply Z.testbit_neg_r. lia.
Qed.

Lemma consume_shft_range bo la n : is_u64 la -> 0 <= n -> is_u64 (consume_shft_of bo la n).
Proof.
  intros. destruct bo; [apply (shft_of_range ACTF_BIG_ENDIAN); done|apply u64_range].
Qed.

(** A word loaded from byte [rp], with [n] bytes that are eight or reach the
    end of the block, holds the stream from bit [8 * rp]. *)
Lemma la_bit_load bo mem rp n j :
  Forall is_byte mem -> 0 <= rp -> 0 <= n <= 8 -> n = 8 \/ rp + n = Z.of_nat (length mem) ->
  0 <= j < 64 ->
  la_bit bo (htobo_of bo (le_load (mem_slice mem rp n))) j = stream_bit bo mem (8 * rp + j).
Proof.
  intros Hm Hrp Hn Hend Hj.
  assert (Hbyte : forall k, 0 <= k < 8 -> byte_at (mem_slice mem rp n) k = byte_at mem (rp + k)).
  { intros k Hk. rewrite byte_at_slice by lia. destruct (Z.ltb_spec k n); [done|].
    rewrite byte_at_oob by lia. done. }
  assert (Hdiv : (8 * rp + j) / 8 = rp + j / 8) by zlia.
  assert (Hmod : (8 * rp + j) mod 8 = j mod 8) by zlia.
  assert (Hj8 : 0 <= j / 8 < 8) by zlia.
  destruct bo; simpl.
  - unfold HTOLE64. rewrite testbit_le_load by (try apply is_byte_slice; done || lia).
    unfold bit_le. by rewrite Hbyte, Hdiv, Hmod.
  - unfold HTOBE64. rewrite testbit_bswap64 by lia.
    rewrite testbit_le_load by (try apply is_byte_slice; done || zlia).
    unfold bit_le, bit_be.
    replace ((8 * (7 - (63 - j) / 8) + (63 - j) mod 8) / 8) with (j / 8) by zlia.
    replace ((8 * (7 - (63 - j) / 8) + (63 - j) mod 8) mod 8) with (7 - j mod 8) by zlia.
    by rewrite Hbyte, Hdiv, Hmod.
Qed.

Lemma le_load_range mem rp n :
  Forall is_byte mem -> 0 <= rp -> 0 <= n <= 8 -> is_u64 (le_load (mem_slice mem rp n)).
Proof.
  intros Hm Hrp Hn. pose proof (is_byte_slice mem rp n Hm) as Hs.
  split; [by apply le_load_nonneg|]. apply bits_bound; [lia|by apply le_load_nonneg|].
  intros i Hi. rewrite testbit_le_load by (done || lia). unfold bit_le.
  rewrite byte_at_slice by zlia. destruct (Z.ltb_spec (i / 8) n); [zlia|]. apply Z.testbit_0_l.
Qed.

Lemma htobo_range bo w : is_u64 w -> is_u64 (htobo_of bo w).
Proof. destruct bo; simpl; [done|]. intros _. apply bswap64_range. Qed.

(** [or]ing the next word fills the look-ahead. *)
Lemma la_ok_refill bo mem la cnt p w :
  is_u64 w -> 0 <= cnt <= 63 -> la_ok bo mem la cnt p ->
  (forall j, 0 <= j < 64 -> la_bit bo w j = stream_bit bo mem (p + cnt + j)) ->
  la_ok bo mem (Z.lor la (shft_of bo w cnt)) 64 p.
Proof.
  intros Hw Hc Hla Hnext i Hi. destruct (Hla i Hi) as [H1 H2].
  rewrite la_bit_lor, la_bit_shft by done.
  assert (E : la_bit bo la i || (cnt <=? i) && la_bit bo w (i - cnt) = stream_bit bo mem (p + i)).
  { destruct (Z.leb_spec cnt i); simpl.
    - rewrite Hnext by lia. replace (p + cnt + (i - cnt)) with (p + i) by lia.
      destruct (la_bit bo la i) eqn:E; [symmetry; by apply H2|done].
    - rewrite orb_false_r. apply H1. lia. }
  rewrite E. done.
Qed.

Lemma la_ok_weaken bo mem la cnt cnt' p :
  la_ok bo mem la cnt p -> cnt' <= cnt -> la_ok bo mem la cnt' p.
Proof. intros H Hle i Hi. destruct (H i Hi) as [H1 H2]. split; [intros; apply H1; lia|done]. Qed.

Lemma la_ok_consume bo mem la cnt p n :
  is_u64 la -> 0 <= n <= 63 -> cnt <= 64 -> la_ok bo mem la cnt p ->
  la_ok bo mem (consume_shft_of bo la n) (cnt - n) (p + n).
Proof.
  intros Hr Hn Hc Hla i Hi. rewrite la_bit_consume by done.
  destruct (Z.ltb_spec (i + n) 64); simpl.
  - destruct (Hla (i + n) ltac:(lia)) as [H1 H2].
    replace (p + n + i) with (p + (i + n)) by lia. split; [intros; apply H1; lia|done].
  - split; [intros; lia|done].
Qed.

Lemma la_ok_zero bo mem p : la_ok bo mem 0 0 p.
Proof. intros i Hi. split; [lia|]. destruct bo; simpl; by rewrite Z.testbit_0_l. Qed.

(** ** Operations on well-formed readers *)

Lemma lor_56 c : 0 <= c <= 63 -> Z.lor c 56 = 56 + c mod 8.
Proof.
  intros H. apply Z.eqb_eq.
  apply (forall_range (fun c => Z.lor c 56 =? 56 + c mod 8) 64); [by vm_compute|lia].
Qed.

Lemma land_7 x : Z.land x 0x7 = x mod 8.
Proof. change 0x7 with (Z.ones 3). by rewrite Z.land_ones by lia. Qed.

Lemma shiftr_3 x : Z.shiftr x 3 = x / 8.
Proof. by rewrite Z.shiftr_div_pow2 by lia. Qed.

(** A refill keeps the position and makes at least 56 bits available, or all
    that are left. *)
Lemma refillm_spec br :
  br_wf br ->
  let br' := breader_refillm (shft_of (br_bo br)) (htobo_of (br_bo br)) br in
  br_wf br' /\ same_stream br br' /\ tot_bit_cnt br' = tot_bit_cnt br /\
  Z.min 56 (mem_bits br - tot_bit_cnt br) <= lookahead_bit_cnt br' /\
  lookahead_bit_cnt br <= lookahead_bit_cnt br' /\
  lookahead_bit_cnt br' mod 8 = lookahead_bit_cnt br mod 8.
Proof.
  intros [Hb Hs He Hsz Hrp Hc Ht Hp Hla Hbits]. cbv zeta. unfold mem_bits in *.
  set (bo := br_bo br) in *.
  assert (Hfill : forall n, 0 <= n <= 8 ->
    n = 8 \/ read_ptr br + n = Z.of_nat (length (br_mem br)) ->
    let w := htobo_of bo (le_load (mem_slice (br_mem br) (read_ptr br) n)) in
    is_u64 w /\
    la_ok bo (br_mem br) (Z.lor (lookahead br) (shft_of bo w (lookahead_bit_cnt br))) 64
      (tot_bit_cnt br)).
  { intros n Hn Hend w. assert (Hw : is_u64 w) by (apply htobo_range, le_load_range; done || lia).
    split; [done|]. apply la_ok_refill; [done|done|done|]. intros j Hj.
    unfold w. rewrite la_bit_load by (done || lia). f_equal. lia. }
  unfold breader_refillm. destruct (Z.geb_spec (end_ptr br - read_ptr br) 8) as [H8|H8].
  - destruct (Hfill 8 ltac:(lia) ltac:(lia)) as [Hw Hok].
    unfold read_unalign_64, MAX_READ_BITS. rewrite lor_56, shiftr_3 by done.
    split_and!; simpl; try done; try zlia.
    split; simpl; try done; try (unfold mem_bits; simpl; zlia).
    + apply lor_range; [done|]. apply shft_of_range; [done|lia].
    + eapply la_ok_weaken; [exact Hok|zlia].
  - set (n := end_ptr br - read_ptr br) in *.
    destruct (Hfill n ltac:(lia) ltac:(lia)) as [Hw Hok]. rewrite shiftr_3.
    assert (Hu : (if n <? (63 - lookahead_bit_cnt br) / 8 then n
                  else (63 - lookahead_bit_cnt br) / 8)
                 = Z.min n ((63 - lookahead_bit_cnt br) / 8)) by (zcmp).
    rewrite Hu.
    split_and!; simpl; try done; try zlia.
    split; simpl; try done; try (unfold mem_bits; simpl; zlia).
    + apply lor_range; [done|]. apply shft_of_range; [done|lia].
    + eapply la_ok_weaken; [exact Hok|zlia].
Qed.

Definition peek_of (bo : actf_byte_order) : Z -> st breader Z :=
  match bo with ACTF_LIL_ENDIAN => breader_peek_le | ACTF_BIG_ENDIAN => breader_peek_be end.
Definition consume_of (bo : actf_byte_order) : Z -> st breader unit :=
  match bo with ACTF_LIL_ENDIAN => breader_consume_le | ACTF_BIG_ENDIAN => breader_consume_be end.
Definition refill_of (bo : actf_byte_order) : st breader Z :=
  match bo with ACTF_LIL_ENDIAN => breader_refill_le | ACTF_BIG_ENDIAN => breader_refill_be end.
Definition consume_checked_of (bo : actf_byte_order) : Z -> st breader unit :=
  match bo with
  | ACTF_LIL_ENDIAN => breader_consume_checked_le
  | ACTF_BIG_ENDIAN => breader_consume_checked_be
  end.
Definition align_of (bo : actf_byte_order) : Z -> st breader unit :=
  match bo with ACTF_LIL_ENDIAN => breader_align_le | ACTF_BIG_ENDIAN => breader_align_be end.

(** [br'] is a well-formed reader of the same stream at position [p]. *)
Definition at_pos (br br' : breader) (p : Z) : Prop :=
  br_wf br' /\ same_stream br br' /\ tot_bit_cnt br' = p.

Lemma at_pos_trans br1 br2 br3 p q : at_pos br1 br2 p -> at_pos br2 br3 q -> at_pos br1 br3 q.
Proof. unfold at_pos, same_stream. intuition congruence. Qed.

Lemma at_pos_refl br : br_wf br -> at_pos br br (tot_bit_cnt br).
Proof. done. Qed.

Lemma same_stream_bits br br' : same_stream br br' -> mem_bits br' = mem_bits br.
Proof. unfold same_stream, mem_bits. intros [_ ->]. done. Qed.

Lemma wf_pos_le br : br_wf br -> 0 <= tot_bit_cnt br <= mem_bits br.
Proof. intros []. unfold mem_bits in *. lia. Qed.

Lemma refill_of_spec br :
  br_wf br ->
  exists br', refill_of (br_bo br) br = (Ok (lookahead_bit_cnt br'), br') /\
    at_pos br br' (tot_bit_cnt br) /\
    Z.min 56 (mem_bits br - tot_bit_cnt br) <= lookahead_bit_cnt br' /\
    lookahead_bit_cnt br <= lookahead_bit_cnt br' /\
    lookahead_bit_cnt br' mod 8 = lookahead_bit_cnt br mod 8.
Proof.
  intros Hwf. pose proof (refillm_spec br Hwf) as (H1 & H2 & H3 & H4 & H5 & H6).
  eexists. split; [|split; [split_and!; eassumption|done]]. by destruct (br_bo br).
Qed.

Lemma consume_of_spec br n :
  br_wf br -> 0 <= n <= lookahead_bit_cnt br ->
  exists br', consume_of (br_bo br) n br = (Ok tt, br') /\ at_pos br br' (tot_bit_cnt br + n) /\
    lookahead_bit_cnt br' = lookahead_bit_cnt br - n /\ read_ptr br' = read_ptr br.
Proof.
  intros Hwf Hn. pose proof (wf_pos_le br Hwf). destruct Hwf.
  assert (Hu : u64 (tot_bit_cnt br + n) = tot_bit_cnt br + n).
  { apply u64_small. unfold is_u64, mem_bits in *. lia. }
  exists {| br_bo := br_bo br; br_mem := br_mem br; start_ptr := start_ptr br;
            read_ptr := read_ptr br; end_ptr := end_ptr br;
            lookahead := consume_shft_of (br_bo br) (lookahead br) n;
            lookahead_bit_cnt := lookahead_bit_cnt br - n;
            tot_bit_cnt := u64 (tot_bit_cnt br + n) |}.
  split; [|rewrite Hu; split; [|done]].
  - unfold consume_of, breader_consume_le, breader_consume_be, breader_consumem.
    destruct (br_bo br) eqn:Ebo; st_unfold; rewrite ?Ebo; (destruct (Z.leb_spec n (lookahead_bit_cnt br)); [done|lia]).
  - split_and!; [split; simpl; try done; try lia|done|done].
    + apply consume_shft_range; [done|lia].
    + apply la_ok_consume; (done || lia).
Qed.

(** Peeking [n >= 1] available bits reads the next [n] bits of the stream. *)
Lemma peek_of_spec br n :
  br_wf br -> 1 <= n <= lookahead_bit_cnt br ->
  peek_of (br_bo br) n br =
    (Ok (ctf_bits (br_bo br) (br_mem br) (tot_bit_cnt br) (Z.to_nat n)), br).
Proof.
  intros [] Hn. unfold peek_of, breader_peek_le, breader_peek_be.
  unfold la_ok in *. destruct (br_bo br) eqn:Ebo; st_unfold;
    (destruct (Z.leb_spec n (lookahead_bit_cnt br)); [|lia]); f_equal; f_equal.
  - bitwise i. rewrite testbit_ctf_bits_le, Z2Nat.id by lia.
    rewrite (u64_small (Z.shiftl 1 n)), Z.shiftl_1_l by
      (unfold is_u64; rewrite Z.shiftl_1_l; split; [lia|apply Z.pow_lt_mono_r; lia]).
    rewrite testbit_ones by lia.
    destruct (Z.ltb_spec i n); destruct (Z.ltb_spec i 64); try lia; simpl;
      rewrite ?andb_false_r, ?andb_true_r; try done.
    apply wf_bits0; lia.
  - bitwise i. rewrite testbit_ctf_bits_be, Z2Nat.id by lia.
    destruct (Z.ltb_spec i n); simpl.
    + destruct (wf_bits0 (n - 1 - i) ltac:(lia)) as [Hbit _]. etransitivity; [|exact (Hbit ltac:(lia))]. simpl.
      f_equal. lia.
    + apply (testbit_high 64); [done|lia].
Qed.


(** A reader with an empty look-ahead that skips [k] whole bytes. *)
Definition skip_bytes (k : Z) (br : breader) : breader :=
  {| br_bo := br_bo br; br_mem := br_mem br; start_ptr := start_ptr br; read_ptr := read_ptr br + k; end_ptr := end_ptr br;
     lookahead := 0; lookahead_bit_cnt := lookahead_bit_cnt br; tot_bit_cnt := u64 (tot_bit_cnt br + k * 8) |}.

Lemma skip_bytes_spec br k :
  br_wf br -> lookahead_bit_cnt br = 0 -> 0 <= k <= end_ptr br - read_ptr br ->
  at_pos br (skip_bytes k br) (tot_bit_cnt br + k * 8).
Proof.
  intros [] H0 Hk. unfold mem_bits in *.
  assert (Hu : u64 (tot_bit_cnt br + k * 8) = tot_bit_cnt br + k * 8) by (apply u64_small; unfold is_u64; lia).
  split_and!; [split; cbn; rewrite ?Hu; try done; try lia|done|done]. rewrite H0. apply la_ok_zero.
Qed.

(** The bits after the last whole byte: fewer than eight, all there. *)
Lemma consume_rest_spec br n :
  br_wf br -> 0 <= n < 8 -> tot_bit_cnt br + n <= mem_bits br ->
  exists br', (avail_bits ← refill_of (br_bo br); c_assert (avail_bits >=? n);; breader_consume n) br = (Ok tt, br') /\
    at_pos br br' (tot_bit_cnt br + n).
Proof.
  intros Hwf Hn Hfit. destruct (refill_of_spec br Hwf) as (br3 & Hrun3 & (Hwf3 & Hss3 & Ht3) & Hlo & _ & _).
  rewrite (st_bind_ok _ _ _ _ _ Hrun3).
  rewrite (st_bind_ok (c_assert _) _ br3 tt br3) by (apply c_assert_true, Z.geb_le; lia).
  destruct (consume_of_spec br3 n Hwf3 ltac:(lia)) as (br4 & Hrun4 & Hat4 & _). exists br4. split.
  - unfold breader_consume. rewrite (st_bind_ok st_get _ br3 br3 br3) by done.
    rewrite (st_bind_ok (c_assert _) _ br3 tt br3) by (apply c_assert_true, Z.leb_le; lia).
    by destruct (br_bo br3).
  - rewrite <- Ht3. exact (at_pos_trans _ _ _ _ _ (conj Hwf3 (conj Hss3 Ht3)) Hat4).
Qed.

Lemma consume_checked_of_spec br n :
  br_wf br -> 0 <= n ->
  exists br', consume_checked_of (br_bo br) n br = (Ok tt, br') /\
    at_pos br br' (Z.min (tot_bit_cnt br + n) (mem_bits br)).
Proof.
  intros Hwf Hn.
  assert (Hdef : consume_checked_of (br_bo br) n =
            breader_consume_checkedm (consume_of (br_bo br)) (refill_of (br_bo br)) n)
    by (by destruct (br_bo br)).
  rewrite Hdef. unfold breader_consume_checkedm.
  rewrite (st_bind_ok st_get _ br br br) by done.
  destruct (Z.leb_spec n (lookahead_bit_cnt br)) as [Hle|Hgt].
  { destruct (consume_of_spec br n Hwf ltac:(lia)) as (br' & Hrun & Hat & _).
    exists br'. split; [done|]. destruct Hwf. unfold mem_bits in *.
    by replace (Z.min _ _) with (tot_bit_cnt br + n) by lia. }
  destruct (consume_of_spec br (lookahead_bit_cnt br) Hwf) as (br1 & Hrun & Hat & Hc1 & Hrp1).
  { destruct Hwf. lia. }
  rewrite (st_bind_ok _ _ _ _ _ Hrun), (st_bind_ok st_get _ br1 br1 br1) by done.
  destruct Hat as (Hwf1 & Hss & Ht1). pose proof (same_stream_bits _ _ Hss) as Hmb.
  pose proof Hss as [Hbo Hmem].
  rewrite shiftr_3, land_7. set (m := n - lookahead_bit_cnt br) in *.
  assert (Hgeom : 8 * end_ptr br1 = mem_bits br /\ tot_bit_cnt br1 = 8 * read_ptr br1 /\
                  read_ptr br1 <= end_ptr br1 /\ lookahead_bit_cnt br1 = 0).
  { destruct Hwf1. unfold mem_bits in *. lia. }
  pose proof (fun k => skip_bytes_spec br1 k Hwf1 ltac:(lia)) as Hskip.
  destruct (Z.leb_spec (end_ptr br1 - read_ptr br1) (m / 8)) as [Hall|Hsome].
  { exists (skip_bytes (end_ptr br1 - read_ptr br1) br1). split.
    { unfold skip_bytes. repeat f_equal. }
    replace (Z.min _ _) with (tot_bit_cnt br1 + (end_ptr br1 - read_ptr br1) * 8) by zlia.
    apply (at_pos_trans br br1 _ (tot_bit_cnt br1)); [done|]. apply Hskip. lia. }
  specialize (Hskip (m / 8) ltac:(zlia)). destruct Hskip as (Hwf2 & Hss2 & Ht2).
  rewrite (st_bind_ok (st_put _) _ br1 tt (skip_bytes (m / 8) br1)) by done.
  pose proof (same_stream_bits _ _ Hss2) as Hmb2. rewrite <- Hbo. change (br_bo br1) with (br_bo (skip_bytes (m / 8) br1)).
  destruct (consume_rest_spec (skip_bytes (m / 8) br1) (m mod 8) Hwf2) as (br4 & Hrun4 & Hat4); [zlia|zlia|].
  exists br4. split; [exact Hrun4|]. replace (Z.min _ _) with (tot_bit_cnt (skip_bytes (m / 8) br1) + m mod 8) by zlia.
  exact (at_pos_trans _ _ _ _ _ (at_pos_trans _ _ _ _ _ (conj Hwf1 (conj Hss Ht1)) (conj Hwf2 (conj Hss2 Ht2))) Hat4).
Qed.

(** Rounding up to a power of two as the code does it. *)
Lemma align_up_spec x k :
  0 <= x -> 0 <= k <= 63 -> x + 2 ^ k - 1 < 2 ^ 64 -> align_up x (2 ^ k) = round_up x (2 ^ k).
Proof.
  intros Hx Hk Hov. unfold align_up, round_up. pose proof (pow2_pos k ltac:(lia)).
  rewrite (u64_small (x + 2 ^ k - 1)) by (unfold is_u64; lia).
  set (y := x + 2 ^ k - 1) in *.
  assert (Hneg : u64 (- 2 ^ k) = 2 ^ 64 - 2 ^ k).
  { unfold u64. symmetry. assert (2 ^ k < 2 ^ 64) by (apply Z.pow_lt_mono_r; lia).
    apply (Z.mod_unique_pos _ _ (-1)); lia. }
  assert (Hmask : 2 ^ 64 - 2 ^ k = Z.ldiff (Z.ones 64) (Z.ones k)).
  { rewrite Z.ldiff_ones_r by lia. rewrite Z.shiftr_div_pow2, Z.shiftl_mul_pow2 by lia.
    rewrite Z.ones_equiv. assert (E : 2 ^ 64 = 2 ^ (64 - k) * 2 ^ k)
      by (rewrite <- Z.pow_add_r by lia; f_equal; lia).
    assert (Hd : Z.pred (2 ^ 64) / 2 ^ k = 2 ^ (64 - k) - 1).
    { symmetry. apply (Z.div_unique_pos _ _ _ (2 ^ k - 1)); nia. }
    rewrite Hd. nia. }
  rewrite Hneg, Hmask.
  transitivity (Z.ldiff y (Z.ones k)).
  - bitwise i. destruct (Z.ltb_spec i 64).
    + rewrite (Z.ones_spec_low 64) by lia. by rewrite andb_true_l.
    + rewrite (testbit_high 64 y) by lia. done.
  - rewrite Z.ldiff_ones_r by lia. by rewrite Z.shiftr_div_pow2, Z.shiftl_mul_pow2 by lia.
Qed.

Lemma round_up_bounds x a : 0 < a -> x <= round_up x a < x + a.
Proof.
  intros. unfold round_up. pose proof (Z.div_mod (x + a - 1) a ltac:(lia)).
  pose proof (Z.mod_pos_bound (x + a - 1) a ltac:(lia)). nia.
Qed.

Lemma round_up_multiple x a : 0 < a -> round_up x a mod a = 0.
Proof. intros. unfold round_up. apply Z.mod_mul. lia. Qed.

Lemma align_of_spec br k :
  br_wf br -> 0 <= k <= 63 ->
  exists br', align_of (br_bo br) (2 ^ k) br = (Ok tt, br') /\
    at_pos br br' (Z.min (round_up (tot_bit_cnt br) (2 ^ k)) (mem_bits br)).
Proof.
  intros Hwf Hk. pose proof (wf_pos_le br Hwf) as Hpos.
  pose proof (pow2_pos k ltac:(lia)) as H2k.
  assert (Hk63 : 2 ^ k <= 2 ^ 63) by (apply Z.pow_le_mono_r; lia).
  assert (Hsz : mem_bits br <= 2 ^ 62) by apply Hwf.
  pose proof (round_up_bounds (tot_bit_cnt br) (2 ^ k) H2k) as Hru.
  assert (Hal : align_up (tot_bit_cnt br) (2 ^ k) = round_up (tot_bit_cnt br) (2 ^ k))
    by (apply align_up_spec; lia).
  destruct (consume_checked_of_spec br (round_up (tot_bit_cnt br) (2 ^ k) - tot_bit_cnt br) Hwf
              ltac:(lia)) as (br' & Hrun & Hat).
  replace (tot_bit_cnt br + _) with (round_up (tot_bit_cnt br) (2 ^ k)) in Hat by lia.
  exists br'. split; [|done].
  assert (Hdef : align_of (br_bo br) = breader_alignm (consume_checked_of (br_bo br)))
    by (by destruct (br_bo br)).
  rewrite Hdef. unfold breader_alignm. rewrite (st_bind_ok st_get _ br br br), Hal by done.
  rewrite (st_bind_ok (c_assert _) _ br tt br) by (apply c_assert_true, Z.geb_le; lia). done.
Qed.

(** ** The public operations *)

Lemma breader_consume_checked_spec br n :
  br_wf br -> 0 <= n ->
  exists br', breader_consume_checked n br = (Ok tt, br') /\
    at_pos br br' (Z.min (tot_bit_cnt br + n) (mem_bits br)).
Proof.
  intros Hwf Hn. destruct (consume_checked_of_spec br n Hwf Hn) as (br' & Hrun & Hat).
  exists br'. split; [|done]. unfold breader_consume_checked.
  rewrite (st_bind_ok st_get _ br br br) by done. by destruct (br_bo br).
Qed.

Lemma breader_align_spec br k :
  br_wf br -> 0 <= k <= 63 ->
  exists br', breader_align (2 ^ k) br = (Ok tt, br') /\
    at_pos br br' (Z.min (round_up (tot_bit_cnt br) (2 ^ k)) (mem_bits br)).
Proof.
  intros Hwf Hk. destruct (align_of_spec br k Hwf Hk) as (br' & Hrun & Hat).
  exists br'. split; [|done]. unfold breader_align.
  rewrite (st_bind_ok st_get _ br br br) by done. by destruct (br_bo br).
Qed.

Lemma breader_init_wf data bo :
  Forall is_byte data -> 8 * Z.of_nat (length data) <= 2 ^ 62 ->
  br_wf (breader_init data (Z.of_nat (length data)) bo).
Proof.
  intros Hb Hsz. split; simpl; unfold mem_bits, is_u64; simpl; try done; try lia. apply la_ok_zero.
Qed.

(** A switch of byte order is transparent when the position is byte aligned:
    the swapped look-ahead holds the same bytes. *)
Lemma breader_set_bo_wf br bo :
  br_wf br -> br_bo br = bo \/ lookahead_bit_cnt br mod 8 = 0 ->
  let br' := breader_set_bo bo br in
  br_wf br' /\ br_bo br' = bo /\ br_mem br' = br_mem br /\
  tot_bit_cnt br' = tot_bit_cnt br /\ lookahead_bit_cnt br' = lookahead_bit_cnt br.
Proof.
  intros Hwf Hal. unfold breader_set_bo. destruct (decide (br_bo br = bo)) as [E|E]; [done|].
  destruct Hal as [?|Hal]; [done|]. cbv zeta. split; [|done].
  destruct Hwf. split; simpl; try done; [apply bswap64_range|].
  intros i Hi.
  assert (Hdiv : (tot_bit_cnt br + i) / 8 = tot_bit_cnt br / 8 + i / 8) by zlia.
  assert (Hmod : (tot_bit_cnt br + i) mod 8 = i mod 8) by zlia.
  (* bit [i] of one order is bit [i'] of the other one *)
  set (i' := 8 * (i / 8) + (7 - i mod 8)).
  assert (Hi' : 0 <= i' < 64 /\ (i < lookahead_bit_cnt br <-> i' < lookahead_bit_cnt br)) by
    (subst i'; zlia).
  assert (Hdiv' : (tot_bit_cnt br + i') / 8 = tot_bit_cnt br / 8 + i / 8) by (subst i'; zlia).
  assert (Hmod' : (tot_bit_cnt br + i') mod 8 = 7 - i mod 8) by (subst i'; zlia).
  assert (Hs : stream_bit bo (br_mem br) (tot_bit_cnt br + i) =
               stream_bit (br_bo br) (br_mem br) (tot_bit_cnt br + i')).
  { destruct bo, (br_bo br) eqn:Ebo; try done; simpl; unfold bit_le, bit_be;
      rewrite Hdiv, Hmod, Hdiv', Hmod'; f_equal; lia. }
  assert (Hb : la_bit bo (bswap64 (lookahead br)) i = la_bit (br_bo br) (lookahead br) i').
  { destruct bo, (br_bo br) eqn:Ebo; try done; simpl; rewrite testbit_bswap64 by lia;
      f_equal; subst i'; zlia. }
  rewrite Hs, Hb. destruct (wf_bits0 i' ltac:(lia)) as [H1 H2].
  split; [intros; apply H1; lia|done].
Qed.

(** Reading [1 <= n <= 56] bits returns the next [n] bits of the stream, or
    [UINT64_MAX] and no movement when fewer are left. *)
Lemma breader_read_bits_spec br n :
  br_wf br -> 1 <= n <= 56 ->
  exists br',
    breader_read_bits n br =
      (Ok (if tot_bit_cnt br + n <=? mem_bits br
           then ctf_bits (br_bo br) (br_mem br) (tot_bit_cnt br) (Z.to_nat n) else UINT64_MAX),
       br') /\
    at_pos br br' (if tot_bit_cnt br + n <=? mem_bits br then tot_bit_cnt br + n
                   else tot_bit_cnt br).
Proof.
  intros Hwf Hn. unfold breader_read_bits.
  rewrite (st_bind_ok (c_assert _) _ br tt br) by (apply c_assert_true, Z.leb_le; unfold MAX_READ_BITS; lia).
  rewrite (st_bind_ok st_get _ br br br) by done.
  (* the reader after the conditional refill *)
  assert (Hrf : exists br1 len,
    (if lookahead_bit_cnt br <? n then breader_refill else mret n) br = (Ok len, br1) /\
    at_pos br br1 (tot_bit_cnt br) /\
    (n <= len <-> tot_bit_cnt br + n <= mem_bits br) /\ (n <= len -> n <= lookahead_bit_cnt br1)).
  { destruct (Z.ltb_spec (lookahead_bit_cnt br) n).
    - destruct (refill_of_spec br Hwf) as (br1 & Hrun & Hat & Hlo & _).
      exists br1, (lookahead_bit_cnt br1).
      assert (Hr : breader_refill br = (Ok (lookahead_bit_cnt br1), br1)).
      { unfold breader_refill. rewrite (st_bind_ok st_get _ br br br) by done.
        by destruct (br_bo br). }
      split; [done|]. split; [done|]. split; [|done].
      destruct Hat as (Hwf1 & Hss & Ht). pose proof (same_stream_bits _ _ Hss).
      destruct Hwf1. unfold mem_bits in *. lia.
    - exists br, n. split; [done|]. split; [done|]. split; [|done].
      destruct Hwf. unfold mem_bits in *. lia. }
  destruct Hrf as (br1 & len & Hrun & Hat & Hiff & Hle).
  rewrite (st_bind_ok _ _ _ _ _ Hrun).
  destruct (Z.ltb_spec len n), (Z.leb_spec (tot_bit_cnt br + n) (mem_bits br)); try lia.
  { exists br1. done. }
  pose proof Hat as (Hwf1 & [Hbo Hmem] & Ht).
  pose proof (peek_of_spec br1 n Hwf1 ltac:(lia)) as Hpeek.
  destruct (consume_of_spec br1 n Hwf1 ltac:(lia)) as (br2 & Hcons & Hat2 & _).
  exists br2. split; [|rewrite <- Ht; exact (at_pos_trans _ _ _ _ _ Hat Hat2)].
  rewrite <- Hbo, <- Hmem, <- Ht.
  unfold breader_peek, breader_consume, mbind, st_bind, st_get, c_assert. cbn.
  destruct (Z.leb_spec n (lookahead_bit_cnt br1)); [|lia].
  destruct (br_bo br1) eqn:Ebo; cbn in Hpeek, Hcons; rewrite Hpeek;
    (destruct (Z.leb_spec n (lookahead_bit_cnt br1)); [|lia]); rewrite Ebo, Hcons; done.
Qed.

(** Reading [n] bytes at a byte boundary returns a pointer to them, or [NULL]
    and no movement when fewer are left. *)
Lemma breader_read_bytes_spec br n :
  br_wf br -> lookahead_bit_cnt br mod 8 = 0 -> 0 <= n ->
  exists br',
    breader_read_bytes n br =
      (Ok (if tot_bit_cnt br + 8 * n <=? mem_bits br then Some (tot_bit_cnt br / 8) else None), br') /\
    at_pos br br' (if tot_bit_cnt br + 8 * n <=? mem_bits br then tot_bit_cnt br + 8 * n
                   else tot_bit_cnt br).
Proof.
  intros Hwf Hal Hn. unfold breader_read_bytes.
  rewrite (st_bind_ok st_get _ br br br) by done.
  rewrite (st_bind_ok (c_assert _) _ br tt br) by (apply c_assert_true; by apply Z.eqb_eq).
  unfold breader_bytes_remaining. rewrite shiftr_3.
  pose proof Hwf as []. unfold mem_bits in *.
  assert (Hiff : end_ptr br - read_ptr br + lookahead_bit_cnt br / 8 < n <->
                 8 * Z.of_nat (length (br_mem br)) < tot_bit_cnt br + 8 * n) by zlia.
  destruct (Z.ltb_spec (end_ptr br - read_ptr br + lookahead_bit_cnt br / 8) n),
    (Z.leb_spec (tot_bit_cnt br + 8 * n) (8 * Z.of_nat (length (br_mem br)))); try lia.
  { exists br. done. }
  rewrite (u64_small (n * 8)) by (unfold is_u64; lia).
  destruct (breader_consume_checked_spec br (n * 8) Hwf ltac:(lia)) as (br' & Hrun & Hat).
  exists br'. rewrite (st_bind_ok _ _ _ _ _ Hrun). split.
  - unfold mret, st_ret. repeat f_equal. zlia.
  - unfold mem_bits in Hat. by replace (Z.min _ _) with (tot_bit_cnt br + 8 * n) in Hat by lia.
Qed.

Lemma breader_has_bits_spec br :
  br_wf br -> breader_has_bits_remaining br = (tot_bit_cnt br <? mem_bits br).
Proof.
  intros []. unfold breader_has_bits_remaining, c_true, mem_bits in *.
  destruct (Z.eqb_spec (lookahead_bit_cnt br) 0); cbn [negb orb]; zcmp; done.
Qed.

Lemma breader_bits_remaining_spec br :
  br_wf br -> breader_bits_remaining br = mem_bits br - tot_bit_cnt br.
Proof.
  intros []. unfold breader_bits_remaining, mem_bits in *. rewrite u64_small; unfold is_u64; lia.
Qed.

Lemma breader_peek_bytes_spec br :
  br_wf br -> lookahead_bit_cnt br mod 8 = 0 -> breader_peek_bytes br = tot_bit_cnt br / 8.
Proof. intros [] ?. unfold breader_peek_bytes. rewrite shiftr_3. zlia. Qed.

Lemma breader_bytes_remaining_spec br :
  br_wf br -> breader_bytes_remaining br = (mem_bits br - tot_bit_cnt br) / 8.
Proof.
  intros []. unfold breader_bytes_remaining, mem_bits in *. rewrite shiftr_3. zlia.
Qed.

Lemma breader_byte_aligned_spec br :
  br_wf br -> breader_byte_aligned br = (tot_bit_cnt br mod 8 =? 0).
Proof.
  intros []. unfold breader_byte_aligned.
  destruct (Z.eqb_spec (lookahead_bit_cnt br mod 8) 0), (Z.eqb_spec (tot_bit_cnt br mod 8) 0);
    try done; zlia.
Qed.

(** Where a seek moves to, in bytes. *)
Definition seek_target (br : breader) (off : Z) (whence : breader_seek_op) : Z :=
  match whence with
  | BREADER_SEEK_SET => Z.min off (end_ptr br)
  | BREADER_SEEK_CUR => Z.min (read_ptr br + off) (end_ptr br)
  | BREADER_SEEK_END => end_ptr br
  end.

Lemma breader_seek_spec br off whence :
  br_wf br -> 0 <= off ->
  at_pos br (breader_seek off whence br) (8 * seek_target br off whence).
Proof.
  intros [] Hoff. unfold breader_seek, at_pos, same_stream. cbn.
  set (p := seek_target br off whence).
  assert (Hp : 0 <= p <= end_ptr br) by (subst p; destruct whence; simpl; lia).
  assert (Hrp : match whence with
    | BREADER_SEEK_SET => if off <? end_ptr br - start_ptr br then start_ptr br + off else end_ptr br
    | BREADER_SEEK_CUR => if off <? end_ptr br - read_ptr br then read_ptr br + off else end_ptr br
    | BREADER_SEEK_END => end_ptr br
    end = p) by (subst p; destruct whence; simpl; zcmp; lia).
  rewrite Hrp. unfold mem_bits in *.
  assert (Hu : u64 ((p - start_ptr br) * 8) = 8 * p) by (rewrite u64_small; unfold is_u64; lia).
  rewrite Hu. split_and!; try done. split; simpl; unfold mem_bits, is_u64; simpl; try done; try lia.
  apply la_ok_zero.
Qed.

(** * Refinement of the abstract reader

    The abstract reader is a block, a byte order and a bit position.  Its
    operations say what the stream is, without a look-ahead. *)

Record areader := mk_areader { ar_bo : actf_byte_order; ar_mem : list Z; ar_pos : Z }.

Definition abs (br : breader) : areader := mk_areader (br_bo br) (br_mem br) (tot_bit_cnt br).

Definition ar_move (p : Z) (a : areader) : areader := mk_areader (ar_bo a) (ar_mem a) p.
Definition ar_end (a : areader) : Z := 8 * Z.of_nat (length (ar_mem a)).

(** A call of the interface of [breader.h]; the alignment is [2 ^ k]. *)
Inductive br_op :=
| OpReadBits (n : Z)
| OpReadBytes (n : Z)
| OpConsumeChecked (n : Z)
| OpAlign (k : Z)
| OpSetBo (bo : actf_byte_order)
| OpSeekSet (off : Z)
| OpSeekEnd.

Inductive br_result := RBits (v : Z) | RBytes (p : option Z) | RUnit.

Definition run_op (o : br_op) : st breader br_result :=
  match o with
  | OpReadBits n => v ← breader_read_bits n; mret (RBits v)
  | OpReadBytes n => p ← breader_read_bytes n; mret (RBytes p)
  | OpConsumeChecked n => breader_consume_checked n;; mret RUnit
  | OpAlign k => breader_align (2 ^ k);; mret RUnit
  | OpSetBo bo => st_modify (breader_set_bo bo);; mret RUnit
  | OpSeekSet off => st_modify (breader_seek off BREADER_SEEK_SET);; mret RUnit
  | OpSeekEnd => st_modify (breader_seek 0 BREADER_SEEK_END);; mret RUnit
  end.

Definition spec_op (o : br_op) (a : areader) : br_result * areader :=
  match o with
  | OpReadBits n =>
      if ar_pos a + n <=? ar_end a
      then (RBits (ctf_bits (ar_bo a) (ar_mem a) (ar_pos a) (Z.to_nat n)), ar_move (ar_pos a + n) a)
      else (RBits UINT64_MAX, a)
  | OpReadBytes n =>
      if ar_pos a + 8 * n <=? ar_end a
      then (RBytes (Some (ar_pos a / 8)), ar_move (ar_pos a + 8 * n) a)
      else (RBytes None, a)
  | OpConsumeChecked n => (RUnit, ar_move (Z.min (ar_pos a + n) (ar_end a)) a)
  | OpAlign k => (RUnit, ar_move (Z.min (round_up (ar_pos a) (2 ^ k)) (ar_end a)) a)
  | OpSetBo bo => (RUnit, mk_areader bo (ar_mem a) (ar_pos a))
  | OpSeekSet off => (RUnit, ar_move (Z.min (8 * off) (ar_end a)) a)
  | OpSeekEnd => (RUnit, ar_move (ar_end a) a)
  end.

(** The contract of a call: what the asserts and the comments of [breader.h]
    ask of the caller. *)
Definition op_ok (o : br_op) (a : areader) : bool :=
  match o with
  | OpReadBits n => (1 <=? n) && (n <=? 56)
  | OpReadBytes n => (ar_pos a mod 8 =? 0) && (0 <=? n)
  | OpConsumeChecked n => 0 <=? n
  | OpAlign k => (0 <=? k) && (k <=? 63)
  | OpSetBo bo => bool_decide (ar_bo a = bo) || (ar_pos a mod 8 =? 0)
  | OpSeekSet off => 0 <=? off
  | OpSeekEnd => true
  end.

Fixpoint run_ops (os : list br_op) : st breader (list br_result) :=
  match os with
  | [] => mret []
  | o :: os' => r ← run_op o; rs ← run_ops os'; mret (r :: rs)
  end.

Fixpoint spec_ops (os : list br_op) (a : areader) : list br_result * areader :=
  match os with
  | [] => ([], a)
  | o :: os' =>
      let '(r, a1) := spec_op o a in
      let '(rs, a2) := spec_ops os' a1 in (r :: rs, a2)
  end.

Fixpoint ops_ok (os : list br_op) (a : areader) : bool :=
  match os with
  | [] => true
  | o :: os' => op_ok o a && ops_ok os' (snd (spec_op o a))
  end.

Lemma at_pos_abs br br' p : at_pos br br' p -> br_wf br' /\ abs br' = ar_move p (abs br).
Proof. intros (Hwf & [Hbo Hmem] & Ht). split; [done|]. unfold abs, ar_move; simpl. congruence. Qed.

Lemma ar_move_id br : ar_move (tot_bit_cnt br) (abs br) = abs br.
Proof. done. Qed.

Lemma ar_end_abs br : ar_end (abs br) = mem_bits br.
Proof. done. Qed.

Lemma aligned_iff br :
  br_wf br -> tot_bit_cnt br mod 8 = 0 -> lookahead_bit_cnt br mod 8 = 0.
Proof. intros [] ?. zlia. Qed.

(** One call simulates the abstract one. *)
Lemma run_op_refines br o :
  br_wf br -> op_ok o (abs br) = true ->
  exists br', run_op o br = (Ok (fst (spec_op o (abs br))), br') /\
    br_wf br' /\ abs br' = snd (spec_op o (abs br)).
Proof.
  intros Hwf Hok. destruct o as [n|n|n|k|bo|off|]; simpl in Hok |- *;
    rewrite ?ar_end_abs; change (ar_pos (abs br)) with (tot_bit_cnt br) in *.
  - destruct (breader_read_bits_spec br n Hwf ltac:(lia)) as (br' & Hrun & Hat).
    exists br'. rewrite (st_bind_ok _ _ _ _ _ Hrun). apply at_pos_abs in Hat.
    destruct (Z.leb_spec (tot_bit_cnt br + n) (mem_bits br)); [done|].
    by rewrite ar_move_id in Hat.
  - destruct (breader_read_bytes_spec br n Hwf) as (br' & Hrun & Hat);
      [apply aligned_iff; [done|lia]|lia|].
    exists br'. rewrite (st_bind_ok _ _ _ _ _ Hrun). apply at_pos_abs in Hat.
    destruct (Z.leb_spec (tot_bit_cnt br + 8 * n) (mem_bits br)); [done|].
    by rewrite ar_move_id in Hat.
  - destruct (breader_consume_checked_spec br n Hwf ltac:(lia)) as (br' & Hrun & Hat).
    exists br'. rewrite (st_bind_ok _ _ _ _ _ Hrun). by split; [|apply at_pos_abs].
  - destruct (breader_align_spec br k Hwf ltac:(lia)) as (br' & Hrun & Hat).
    exists br'. rewrite (st_bind_ok _ _ _ _ _ Hrun). by split; [|apply at_pos_abs].
  - destruct (breader_set_bo_wf br bo Hwf) as (Hwf' & Hbo & Hmem & Ht & _).
    { apply orb_true_iff in Hok as [Hb|Hm].
      - left. by apply bool_decide_eq_true in Hb.
      - right. apply aligned_iff; [done|lia]. }
    exists (breader_set_bo bo br). split; [done|]. split; [done|]. unfold abs. congruence.
  - pose proof (breader_seek_spec br off BREADER_SEEK_SET Hwf ltac:(lia)) as Hat.
    eexists. split; [done|]. apply at_pos_abs in Hat as [Hwf' ->]. split; [done|].
    f_equal. simpl. unfold mem_bits. destruct Hwf. lia.
  - pose proof (breader_seek_spec br 0 BREADER_SEEK_END Hwf ltac:(lia)) as Hat.
    eexists. split; [done|]. apply at_pos_abs in Hat as [Hwf' ->]. split; [done|].
    f_equal. simpl. unfold mem_bits. destruct Hwf. lia.
Qed.

Lemma run_ops_refines os br :
  br_wf br -> ops_ok os (abs br) = true ->
  exists br', run_ops os br = (Ok (fst (spec_ops os (abs br))), br') /\
    br_wf br' /\ abs br' = snd (spec_ops os (abs br)).
Proof.
  revert br. induction os as [|o os IH]; intros br Hwf Hok; [by exists br|].
  simpl in Hok. apply andb_true_iff in Hok as [Ho Hos].
  destruct (run_op_refines br o Hwf Ho) as (br1 & Hrun & Hwf1 & Habs).
  rewrite <- Habs in Hos. destruct (IH br1 Hwf1 Hos) as (br2 & Hrun2 & Hwf2 & Habs2).
  exists br2. simpl. rewrite (st_bind_ok _ _ _ _ _ Hrun), (st_bind_ok _ _ _ _ _ Hrun2).
  rewrite Habs in Habs2 |- *. destruct (spec_op o (abs br)) as [r a1]. simpl in *.
  by destruct (spec_ops os a1).
Qed.

(** C11: a reader over any block of bytes behaves as the abstract bit stream:
    for every sequence of calls that keep the contract of [breader.h] (at most
    56 bits per read, byte reads and switches of byte order at byte
    boundaries), every result is the one the abstract reader gives (the
    numbered bits of the block in the current byte order, [UINT64_MAX] or
    [NULL] without movement when too few are left, padding and seeks clamped to
    the end), no [assert] fails and the representation invariant holds. *)
Theorem breader_refines_stream data bo os :
  Forall is_byte data -> 8 * Z.of_nat (length data) <= 2 ^ 62 ->
  ops_ok os (mk_areader bo data 0) = true ->
  exists br', run_ops os (breader_init data (Z.of_nat (length data)) bo) =
      (Ok (fst (spec_ops os (mk_areader bo data 0))), br') /\
    br_wf br' /\ abs br' = snd (spec_ops os (mk_areader bo data 0)).
Proof.
  intros Hb Hsz Hok. pose proof (breader_init_wf data bo Hb Hsz) as Hwf.
  exact (run_ops_refines os _ Hwf Hok).
Qed.

Example breader_refines_stream_witness :
  exists br', run_ops [OpReadBits 3; OpAlign 3; OpSetBo ACTF_BIG_ENDIAN; OpReadBits 12; OpReadBits 40;
                       OpSeekSet 1; OpReadBytes 2; OpReadBytes 9]
      (breader_init [0xA5; 0x3C; 0x7E] 3 ACTF_LIL_ENDIAN) =
      (Ok [RBits 5; RUnit; RUnit; RBits 0x3C7; RBits UINT64_MAX; RUnit; RBytes (Some 1); RBytes None], br')
    /\ br_wf br' /\ abs br' = mk_areader ACTF_BIG_ENDIAN [0xA5; 0x3C; 0x7E] 24.
Proof.
  apply (breader_refines_stream [0xA5; 0x3C; 0x7E] ACTF_LIL_ENDIAN
    [OpReadBits 3; OpAlign 3; OpSetBo ACTF_BIG_ENDIAN; OpReadBits 12; OpReadBits 40;
     OpSeekSet 1; OpReadBytes 2; OpReadBytes 9]).
  - repeat constructor; done.
  - done.
  - reflexivity.
Defined.
