(* ===== verification/Rng.v ===== *)
(** Range sets, [rng.h], [rng_int.h] and [rng.c]: sets of integers given as
    unions of closed intervals, signed or unsigned, and the flags of [flags.c],
    whose bit index ranges become 64-bit masks.

    The denotation [rng_mem] of a set is the mathematical set of integers; the
    theorems show that each test of the code is the test on denotations,
    including the mixed signed/unsigned cases. *)
From S2P Require Import Prelude Common.
From stdpp Require Import strings.
Open Scope Z_scope.

Record srng := mk_srng { s_lower : Z; s_upper : Z }.
Record urng := mk_urng { u_lower : Z; u_upper : Z }.

(** [struct actf_rng_set]: the tag [sign] selects the member of the union. *)
Inductive actf_rng_set :=
| RNG_SINT (srs : list srng)
| RNG_UINT (urs : list urng).

(** * Operations (rng.c) *)

Definition actf_rng_set_len (rs : actf_rng_set) : Z :=
  match rs with
  | RNG_SINT srs => Z.of_nat (length srs)
  | RNG_UINT urs => Z.of_nat (length urs)
  end.

Definition urng_intersect_urng (a b : urng) : bool :=
  negb ((u_upper a <? u_lower b) || (u_lower a >? u_upper b)).

Definition srng_intersect_srng (a b : srng) : bool :=
  negb ((s_upper a <? s_lower b) || (s_lower a >? s_upper b)).

Definition urng_intersect_srng (a : urng) (b : srng) : bool :=
  if s_upper b <? 0 then false
  else urng_intersect_urng a (mk_urng (u64 (MAX 0 (s_lower b))) (u64 (s_upper b))).

Fixpoint urng_set_intersect_urng (rs : list urng) (rng : urng) : bool :=
  match rs with
  | [] => false
  | r :: rs' => if urng_intersect_urng r rng then true else urng_set_intersect_urng rs' rng
  end.

Fixpoint srng_set_intersect_srng (rs : list srng) (rng : srng) : bool :=
  match rs with
  | [] => false
  | r :: rs' => if srng_intersect_srng r rng then true else srng_set_intersect_srng rs' rng
  end.

Definition urng_set_intersect_srng (rs : list urng) (rng : srng) : bool :=
  if s_upper rng <? 0 then false
  else urng_set_intersect_urng rs (mk_urng (u64 (MAX 0 (s_lower rng))) (u64 (s_upper rng))).

(** The loop [for (i = 0; i < a->len; i++) if (test(a->rngs[i])) return true]. *)
Fixpoint rngs_any {R} (test : R -> bool) (rngs : list R) : bool :=
  match rngs with
  | [] => false
  | r :: rngs' => if test r then true else rngs_any test rngs'
  end.

Definition actf_rng_set_intersect_rng_set (rs_a rs_b : actf_rng_set) : bool :=
  match rs_a, rs_b with
  | RNG_SINT a, RNG_SINT b => rngs_any (srng_set_intersect_srng b) a
  | RNG_UINT a, RNG_UINT b => rngs_any (urng_set_intersect_urng b) a
  | RNG_UINT a, RNG_SINT b => rngs_any (urng_set_intersect_srng a) b
  | RNG_SINT a, RNG_UINT b => rngs_any (urng_set_intersect_srng b) a
  end.

Fixpoint urng_set_intersect (rs : list urng) (pt : Z) : bool :=
  match rs with
  | [] => false
  | r :: rs' =>
      if (pt >=? u_lower r) && (pt <=? u_upper r) then true else urng_set_intersect rs' pt
  end.

Fixpoint srng_set_intersect (rs : list srng) (pt : Z) : bool :=
  match rs with
  | [] => false
  | r :: rs' =>
      if (pt >=? s_lower r) && (pt <=? s_upper r) then true else srng_set_intersect rs' pt
  end.

Definition actf_rng_set_intersect_sint (rs : actf_rng_set) (pt : Z) : bool :=
  match rs with
  | RNG_SINT srs => srng_set_intersect srs pt
  | RNG_UINT urs =>
      if pt <? 0 then false
      else let upt := u64 pt in urng_set_intersect urs upt
  end.

Definition actf_rng_set_intersect_uint (rs : actf_rng_set) (pt : Z) : bool :=
  match rs with
  | RNG_SINT srs =>
      if pt >? INT64_MAX then false
      else let ipt := i64 pt in srng_set_intersect srs ipt
  | RNG_UINT urs => urng_set_intersect urs pt
  end.

(** * Flags (flags.c) *)

(** The loop of [make_bit_mask] with the accumulator [mask]. *)
Fixpoint make_bit_mask_loop (rs : list urng) (mask : Z) : Z :=
  match rs with
  | [] => mask
  | rng :: rs' =>
      let upper_mask :=
        if u_upper rng <? 63 then u64 (u64 (Z.shiftl 1 (u_upper rng + 1)) - 1)
        else 0xFFFFFFFFFFFFFFFF in
      let lower_mask :=
        if u_lower rng <? 64 then u64 (Z.lnot (u64 (u64 (Z.shiftl 1 (u_lower rng)) - 1)))
        else 0 in
      make_bit_mask_loop rs' (Z.lor mask (Z.land upper_mask lower_mask))
  end.

Definition make_bit_mask (rs : list urng) : Z := make_bit_mask_loop rs 0.

(** [struct umappings] as [flags.c] uses it: [names] and [rng_sets] are
    parallel arrays; [struct actf_flags] adds their masks. *)
Record actf_flags := mk_flags { flag_maps : list (string * list urng); masks : list Z }.

Definition actf_flags_init (maps : list (string * list urng)) : actf_flags :=
  mk_flags maps (map (fun m => make_bit_mask (snd m)) maps).

(** [actf_flags_find] from iterator position [it]: the name and the new
    position.  The two arrays are walked together. *)
Fixpoint flags_find_loop (ms : list Z) (maps : list (string * list urng)) (val i : Z) :
    option (string * Z) :=
  match ms, maps with
  | m :: ms', (name, _) :: maps' =>
      if c_true (Z.land m val) then Some (name, i + 1) else flags_find_loop ms' maps' val (i + 1)
  | _, _ => None
  end.

Definition actf_flags_find (f : actf_flags) (val it : Z) : option (string * Z) :=
  flags_find_loop (drop (Z.to_nat it) (masks f)) (drop (Z.to_nat it) (flag_maps f)) val it.

Definition actf_flags_find_first_match (f : actf_flags) (val : Z) : option string :=
  fst <$> actf_flags_find f val 0.

(** * Denotations *)

Definition urng_mem (r : urng) (x : Z) : Prop := u_lower r <= x <= u_upper r.
Definition srng_mem (r : srng) (x : Z) : Prop := s_lower r <= x <= s_upper r.

Definition rng_mem (rs : actf_rng_set) (x : Z) : Prop :=
  match rs with
  | RNG_SINT srs => Exists (fun r => srng_mem r x) srs
  | RNG_UINT urs => Exists (fun r => urng_mem r x) urs
  end.

(** The parser only builds intervals whose bounds are in order. *)
Definition urng_wf (r : urng) : Prop := is_u64 (u_lower r) /\ is_u64 (u_upper r) /\ u_lower r <= u_upper r.
Definition srng_wf (r : srng) : Prop := is_i64 (s_lower r) /\ is_i64 (s_upper r) /\ s_lower r <= s_upper r.
Definition rng_set_wf (rs : actf_rng_set) : Prop :=
  match rs with RNG_SINT srs => Forall srng_wf srs | RNG_UINT urs => Forall urng_wf urs end.

(** ** Loops as quantifiers *)

Lemma rngs_any_spec {R} (test : R -> bool) rngs : rngs_any test rngs = true <-> Exists (fun r => test r = true) rngs.
Proof.
  induction rngs as [|r rngs IH]; simpl; [by rewrite Exists_nil|]. rewrite Exists_cons, <- IH.
  destruct (test r); intuition done.
Qed.

Lemma urng_set_any rs rng :
  urng_set_intersect_urng rs rng = rngs_any (fun r => urng_intersect_urng r rng) rs.
Proof. induction rs as [|r rs IH]; simpl; [done|]. by rewrite IH. Qed.

Lemma srng_set_any rs rng :
  srng_set_intersect_srng rs rng = rngs_any (fun r => srng_intersect_srng r rng) rs.
Proof. induction rs as [|r rs IH]; simpl; [done|]. by rewrite IH. Qed.

Lemma urng_pt_any rs pt :
  urng_set_intersect rs pt = rngs_any (fun r => (pt >=? u_lower r) && (pt <=? u_upper r)) rs.
Proof. induction rs as [|r rs IH]; simpl; [done|]. by rewrite IH. Qed.

Lemma srng_pt_any rs pt :
  srng_set_intersect rs pt = rngs_any (fun r => (pt >=? s_lower r) && (pt <=? s_upper r)) rs.
Proof. induction rs as [|r rs IH]; simpl; [done|]. by rewrite IH. Qed.

(** Two ordered intervals meet exactly when neither is before the other. *)
Lemma urng_intersect_spec a b :
  urng_wf a -> urng_wf b ->
  urng_intersect_urng a b = true <-> exists x, urng_mem a x /\ urng_mem b x.
Proof.
  intros (_ & _ & Ha) (_ & _ & Hb). unfold urng_intersect_urng, urng_mem. split.
  - intros H. exists (Z.max (u_lower a) (u_lower b)). lia.
  - intros (x & Hx & Hy). lia.
Qed.

Lemma srng_intersect_spec a b :
  srng_wf a -> srng_wf b ->
  srng_intersect_srng a b = true <-> exists x, srng_mem a x /\ srng_mem b x.
Proof.
  intros (_ & _ & Ha) (_ & _ & Hb). unfold srng_intersect_srng, srng_mem. split.
  - intros H. exists (Z.max (s_lower a) (s_lower b)). lia.
  - intros (x & Hx & Hy). lia.
Qed.

(** The non-negative part of a signed interval, as the code builds it. *)
Lemma urng_of_srng r :
  srng_wf r -> 0 <= s_upper r ->
  let u := mk_urng (u64 (MAX 0 (s_lower r))) (u64 (s_upper r)) in
  urng_wf u /\ (forall x, 0 <= x -> urng_mem u x <-> srng_mem r x).
Proof.
  intros (Hl & Hu & Hle) Hpos. unfold urng_wf, urng_mem, srng_mem; simpl.
  rewrite MAX_spec. unfold is_i64, is_u64 in *. rewrite !u64_small by (unfold is_u64; lia).
  split; [lia|]. intros x Hx. lia.
Qed.

Lemma exists_set {R} (mem : R -> Z -> Prop) (rs : list R) (P : Z -> Prop) :
  Exists (fun r => exists x, mem r x /\ P x) rs <-> exists x, Exists (fun r => mem r x) rs /\ P x.
Proof.
  rewrite Exists_exists. setoid_rewrite Exists_exists. naive_solver.
Qed.

Lemma Exists_wf_iff {R} (wf : R -> Prop) (P Q : R -> Prop) rs :
  Forall wf rs -> (forall r, wf r -> P r <-> Q r) -> Exists P rs <-> Exists Q rs.
Proof.
  intros Hwf H. rewrite !Exists_exists. rewrite Forall_forall in Hwf. naive_solver.
Qed.

Lemma uset_intersect_spec rs r :
  Forall urng_wf rs -> urng_wf r ->
  urng_set_intersect_urng rs r = true <-> exists x, urng_mem r x /\ rng_mem (RNG_UINT rs) x.
Proof.
  intros Hrs Hr. rewrite urng_set_any, rngs_any_spec.
  rewrite (Exists_wf_iff urng_wf _ (fun q => exists x, urng_mem q x /\ urng_mem r x)) by
    (try done; intros; by apply urng_intersect_spec).
  rewrite exists_set. simpl. naive_solver.
Qed.

Lemma sset_intersect_spec rs r :
  Forall srng_wf rs -> srng_wf r ->
  srng_set_intersect_srng rs r = true <-> exists x, srng_mem r x /\ rng_mem (RNG_SINT rs) x.
Proof.
  intros Hrs Hr. rewrite srng_set_any, rngs_any_spec.
  rewrite (Exists_wf_iff srng_wf _ (fun q => exists x, srng_mem q x /\ srng_mem r x)) by
    (try done; intros; by apply srng_intersect_spec).
  rewrite exists_set. simpl. naive_solver.
Qed.

Lemma urngs_nonneg rs x : Forall urng_wf rs -> rng_mem (RNG_UINT rs) x -> is_u64 x.
Proof.
  intros Hwf. simpl. rewrite Exists_exists. intros (r & Hin & Hr).
  rewrite Forall_forall in Hwf. destruct (Hwf r Hin) as (Hl & Hu & _).
  unfold urng_mem, is_u64 in *. lia.
Qed.

Lemma uset_intersect_srng_spec rs r :
  Forall urng_wf rs -> srng_wf r ->
  urng_set_intersect_srng rs r = true <-> exists x, srng_mem r x /\ rng_mem (RNG_UINT rs) x.
Proof.
  intros Hrs Hr. unfold urng_set_intersect_srng. destruct (Z.ltb_spec (s_upper r) 0).
  - split; [done|]. intros (x & Hx & Hm). apply urngs_nonneg in Hm; [|done].
    unfold srng_mem, is_u64 in *. lia.
  - destruct (urng_of_srng r Hr ltac:(lia)) as [Hu Hmem]. rewrite uset_intersect_spec by done.
    split; intros (x & Hx & Hm); exists x; (split; [|done]);
      apply urngs_nonneg in Hm; try done; unfold is_u64 in Hm; apply Hmem; try done; lia.
Qed.

Lemma sset_intersect_set_spec a b :
  Forall srng_wf a -> rng_set_wf b -> forall test,
  (forall r, srng_wf r -> test r = true <-> exists x, srng_mem r x /\ rng_mem b x) ->
  rngs_any test a = true <-> exists x, rng_mem (RNG_SINT a) x /\ rng_mem b x.
Proof.
  intros Ha Hb test Ht. rewrite rngs_any_spec, (Exists_wf_iff srng_wf _ _ _ Ha Ht).
  apply exists_set.
Qed.

Lemma uset_intersect_set_spec a b :
  Forall urng_wf a -> rng_set_wf b -> forall test,
  (forall r, urng_wf r -> test r = true <-> exists x, urng_mem r x /\ rng_mem b x) ->
  rngs_any test a = true <-> exists x, rng_mem (RNG_UINT a) x /\ rng_mem b x.
Proof.
  intros Ha Hb test Ht. rewrite rngs_any_spec, (Exists_wf_iff urng_wf _ _ _ Ha Ht).
  apply exists_set.
Qed.

Create HintDb rng.
#[export] Hint Resolve srng_intersect_spec urng_intersect_spec uset_intersect_spec
  sset_intersect_spec uset_intersect_srng_spec : rng.

(** Two range sets of any signedness intersect exactly when an integer
    belongs to both (the clamping and casting of a signed interval against an
    unsigned one loses nothing). *)
Theorem rng_set_intersect_rng_set_spec rs_a rs_b :
  rng_set_wf rs_a -> rng_set_wf rs_b ->
  actf_rng_set_intersect_rng_set rs_a rs_b = true <-> exists x, rng_mem rs_a x /\ rng_mem rs_b x.
Proof.
  intros Ha Hb. destruct rs_a as [a|a], rs_b as [b|b]; unfold actf_rng_set_intersect_rng_set.
  - apply sset_intersect_set_spec; auto with rng.
  - apply sset_intersect_set_spec; auto with rng.
  - rewrite (sset_intersect_set_spec b (RNG_UINT a)) by auto with rng.
    split; intros (x & H1 & H2); exists x; done.
  - apply uset_intersect_set_spec; auto with rng.
Qed.

Example rng_set_intersect_rng_set_spec_witness :
  actf_rng_set_intersect_rng_set (RNG_SINT [mk_srng (-5) (-1); mk_srng (-3) 4]) (RNG_UINT [mk_urng 4 9]) = true
  <-> exists x, rng_mem (RNG_SINT [mk_srng (-5) (-1); mk_srng (-3) 4]) x /\ rng_mem (RNG_UINT [mk_urng 4 9]) x.
Proof.
  apply (rng_set_intersect_rng_set_spec (RNG_SINT [mk_srng (-5) (-1); mk_srng (-3) 4]) (RNG_UINT [mk_urng 4 9]));
    repeat constructor; done.
Defined.

Lemma urng_point_spec rs pt : urng_set_intersect rs pt = true <-> rng_mem (RNG_UINT rs) pt.
Proof.
  rewrite urng_pt_any, rngs_any_spec. simpl. apply (Exists_wf_iff (fun _ => True)).
  - apply Forall_true. done.
  - intros r _. unfold urng_mem. lia.
Qed.

Lemma srng_point_spec rs pt : srng_set_intersect rs pt = true <-> rng_mem (RNG_SINT rs) pt.
Proof.
  rewrite srng_pt_any, rngs_any_spec. simpl. apply (Exists_wf_iff (fun _ => True)).
  - apply Forall_true. done.
  - intros r _. unfold srng_mem. lia.
Qed.

Lemma srngs_range rs x : Forall srng_wf rs -> rng_mem (RNG_SINT rs) x -> is_i64 x.
Proof.
  intros Hwf. simpl. rewrite Exists_exists. intros (r & Hin & Hr).
  rewrite Forall_forall in Hwf. destruct (Hwf r Hin) as (Hl & Hu & _).
  unfold srng_mem, is_i64 in *. lia.
Qed.

Lemma rng_set_points rs :
  rng_set_wf rs ->
  (forall pt, is_i64 pt -> actf_rng_set_intersect_sint rs pt = true <-> rng_mem rs pt) /\
  (forall pt, is_u64 pt -> actf_rng_set_intersect_uint rs pt = true <-> rng_mem rs pt).
Proof.
  intros Hwf. split; intros pt Hpt; destruct rs as [srs|urs]; simpl actf_rng_set_intersect_sint;
    simpl actf_rng_set_intersect_uint.
  - apply srng_point_spec.
  - destruct (Z.ltb_spec pt 0).
    + split; [done|]. intros H'. apply urngs_nonneg in H'; [|done]. unfold is_u64 in H'. lia.
    + rewrite u64_small by (unfold is_i64, is_u64 in *; lia). apply urng_point_spec.
  - unfold is_u64, INT64_MAX in *. destruct (Z.gtb_spec pt (2 ^ 63 - 1)).
    + split; [done|]. intros H'. apply srngs_range in H'; [|done]. unfold is_i64 in H'. lia.
    + unfold i64. rewrite wrap_signed_small by lia. apply srng_point_spec.
  - apply urng_point_spec.
Qed.

(** The membership tests of a point, signed or unsigned, in a set of either
    signedness decide membership in the set of integers it denotes. *)
Theorem rng_set_point_spec rs :
  rng_set_wf rs ->
  (forall pt, is_i64 pt -> actf_rng_set_intersect_sint rs pt = true <-> rng_mem rs pt) /\
  (forall pt, is_u64 pt -> actf_rng_set_intersect_uint rs pt = true <-> rng_mem rs pt).
Proof. apply rng_set_points. Qed.

Example rng_set_point_spec_witness :
  (forall pt, is_i64 pt -> actf_rng_set_intersect_sint (RNG_UINT [mk_urng 4 9]) pt = true <-> rng_mem (RNG_UINT [mk_urng 4 9]) pt) /\
  (forall pt, is_u64 pt -> actf_rng_set_intersect_uint (RNG_UINT [mk_urng 4 9]) pt = true <-> rng_mem (RNG_UINT [mk_urng 4 9]) pt).
Proof. apply (rng_set_point_spec (RNG_UINT [mk_urng 4 9])). repeat constructor; done. Defined.

(** ** Masks *)

(** Bit [i] of the mask of one interval. *)
Lemma testbit_rng_mask r i :
  0 <= u_lower r -> 0 <= u_upper r -> 0 <= i < 64 ->
  Z.testbit (Z.land
    (if u_upper r <? 63 then u64 (u64 (Z.shiftl 1 (u_upper r + 1)) - 1) else 0xFFFFFFFFFFFFFFFF)
    (if u_lower r <? 64 then u64 (Z.lnot (u64 (u64 (Z.shiftl 1 (u_lower r)) - 1))) else 0)) i
  = (u_lower r <=? i) && (i <=? u_upper r).
Proof.
  intros Hl Hu Hi. rewrite Z.land_spec.
  assert (Hp : forall k, 0 <= k < 64 -> Z.testbit (u64 (u64 (Z.shiftl 1 k) - 1)) i = (i <? k)).
  { intros k Hk. rewrite Z.shiftl_1_l.
    assert (0 < 2 ^ k < 2 ^ 64) by (split; [apply pow2_pos; lia|apply Z.pow_lt_mono_r; lia]).
    rewrite !u64_small by (rewrite ?u64_small; unfold is_u64; lia). apply testbit_ones; lia. }
  change 0xFFFFFFFFFFFFFFFF with (2 ^ 64 - 1).
  destruct (Z.ltb_spec (u_upper r) 63), (Z.ltb_spec (u_lower r) 64);
    rewrite ?(Hp (u_upper r + 1)) by lia; rewrite ?testbit_u64, ?Z.lnot_spec, ?testbit_ones by lia;
    rewrite ?Hp, ?Z.testbit_0_l by lia; zcmp; done.
Qed.

Lemma testbit_mask_loop rs mask i :
  Forall (fun r => 0 <= u_lower r /\ 0 <= u_upper r) rs -> 0 <= i < 64 ->
  Z.testbit (make_bit_mask_loop rs mask) i = Z.testbit mask i || urng_set_intersect rs i.
Proof.
  intros Hrs Hi. revert mask. induction Hrs as [|r rs [Hl Hu] _ IH]; intros mask; simpl.
  { by rewrite orb_false_r. }
  rewrite IH, Z.lor_spec, testbit_rng_mask by done. rewrite <- orb_assoc. f_equal.
  destruct (Z.geb_spec i (u_lower r)), (Z.leb_spec (u_lower r) i); try lia; simpl; [|done].
  by destruct (i <=? u_upper r).
Qed.

Lemma mask_u64 rs mask :
  is_u64 mask -> is_u64 (make_bit_mask_loop rs mask).
Proof.
  revert mask. induction rs as [|r rs IH]; intros mask Hm; simpl; [done|]. apply IH.
  assert (H0 : forall a b c, is_u64 a -> is_u64 c -> is_u64 (Z.lor a (Z.land b c))).
  { intros a b c Ha Hc. assert (Hnn : 0 <= Z.lor a (Z.land b c)).
    { apply Z.lor_nonneg. unfold is_u64 in *. split; [lia|]. apply Z.land_nonneg. lia. }
    split; [done|]. apply bits_bound; [lia|done|]. intros j Hj. zbits.
    rewrite (testbit_high 64 a), (testbit_high 64 c) by (unfold is_u64 in *; lia).
    by rewrite andb_false_r. }
  apply H0; [done|]. destruct (_ <? 64); [apply u64_range|done].
Qed.

(** [make_bit_mask] sets exactly the bits whose index lies in the ranges,
    with no undefined shift at the ends of the word. *)
Theorem make_bit_mask_spec rs :
  Forall urng_wf rs ->
  is_u64 (make_bit_mask rs) /\
  (forall i, 0 <= i < 64 -> Z.testbit (make_bit_mask rs) i = true <-> rng_mem (RNG_UINT rs) i).
Proof.
  intros Hwf. unfold make_bit_mask. split; [apply mask_u64; done|]. intros i Hi.
  rewrite testbit_mask_loop, Z.testbit_0_l, orb_false_l; [apply urng_point_spec| |done].
  eapply Forall_impl; [exact Hwf|]. intros r (Hl & Hu & _). unfold is_u64 in *. lia.
Qed.

Example make_bit_mask_spec_witness :
  is_u64 (make_bit_mask [mk_urng 0 2; mk_urng 62 200]) /\
  (forall i, 0 <= i < 64 -> Z.testbit (make_bit_mask [mk_urng 0 2; mk_urng 62 200]) i = true
    <-> rng_mem (RNG_UINT [mk_urng 0 2; mk_urng 62 200]) i).
Proof. apply (make_bit_mask_spec [mk_urng 0 2; mk_urng 62 200]). repeat constructor; done. Defined.

(** ** The flag iterator *)

(** A client that calls [actf_flags_find] until it returns [NULL]. *)
Fixpoint flags_iter (fuel : nat) (f : actf_flags) (val it : Z) : list string :=
  match fuel with
  | O => []
  | S n =>
      match actf_flags_find f val it with
      | Some (name, it') => name :: flags_iter n f val it'
      | None => []
      end
  end.

(** Some bit of [val] has its index in the ranges [rs]. *)
Definition flag_active (val : Z) (rs : list urng) : bool :=
  existsb (fun i => Z.testbit val i && urng_set_intersect rs i) (map Z.of_nat (seq 0 64)).

Lemma mask_active rs val :
  Forall urng_wf rs -> c_true (Z.land (make_bit_mask rs) val) = flag_active val rs.
Proof.
  intros Hwf. assert (Hm : is_u64 (make_bit_mask rs)) by (by apply mask_u64).
  assert (Hb : forall i, 0 <= i < 64 -> Z.testbit (make_bit_mask rs) i = urng_set_intersect rs i).
  { intros i Hi. unfold make_bit_mask. rewrite testbit_mask_loop, Z.testbit_0_l; [done| |done].
    eapply Forall_impl; [exact Hwf|]. intros r (Hl & Hu & _). unfold is_u64 in *. lia. }
  apply eq_true_iff_eq. unfold flag_active, c_true. rewrite negb_true_iff, Z.eqb_neq, existsb_exists.
  split.
  - intros Hne. destruct (existsb (fun i => Z.testbit val i && Z.testbit (make_bit_mask rs) i)
                            (map Z.of_nat (seq 0 64))) eqn:E.
    + apply existsb_exists in E as (i & Hin & Hi). exists i. split; [done|].
      rewrite <- Hb; [done|]. apply in_map_iff in Hin as (k & <- & Hk). apply in_seq in Hk. lia.
    + exfalso. apply Hne. bitwise i. destruct (Z.ltb_spec i 64).
      * rewrite <- not_true_iff_false in E. rewrite existsb_exists in E.
        apply not_true_iff_false. intros Hi. apply E. exists i. split.
        -- apply in_map_iff. exists (Z.to_nat i). split; [lia|]. apply in_seq. lia.
        -- by rewrite andb_comm.
      * rewrite (testbit_high 64 (make_bit_mask rs)) by done. done.
  - intros (i & Hin & Hi). apply andb_true_iff in Hi as [Hv Hr].
    apply in_map_iff in Hin as (k & <- & Hk). apply in_seq in Hk. rewrite <- Hb in Hr by lia.
    intros H0. apply (f_equal (fun z => Z.testbit z (Z.of_nat k))) in H0.
    rewrite Z.land_spec, Hr, Hv, Z.testbit_0_l in H0. done.
Qed.

Lemma flags_find_loop_ge ms maps val i name j :
  flags_find_loop ms maps val i = Some (name, j) -> i < j.
Proof.
  revert maps i. induction ms as [|m ms IH]; intros [|[nm rs] maps] i; simpl; try done.
  destruct (c_true _); [intros [= -> <-]; lia|]. intros H%IH. lia.
Qed.

Lemma flags_iter_drop f val n it :
  0 <= it -> (length (flag_maps f) - Z.to_nat it < n)%nat ->
  masks f = map (fun m => make_bit_mask (snd m)) (flag_maps f) ->
  Forall (fun m => Forall urng_wf (snd m)) (flag_maps f) ->
  flags_iter n f val it =
    map fst (List.filter (fun m => flag_active val (snd m)) (drop (Z.to_nat it) (flag_maps f))).
Proof.
  intros Hit Hn Hm Hwf. remember (drop (Z.to_nat it) (flag_maps f)) as l eqn:El.
  assert (Hl : Forall (fun m => Forall urng_wf (snd m)) l) by (subst; by apply Forall_drop).
  revert n it Hit Hn El. induction Hl as [|[name rs] l Hrs Hl IH]; intros [|n] it Hit Hn El; try lia.
  - simpl. unfold actf_flags_find. rewrite <- El. by destruct (drop _ (masks f)).
  - assert (Hlt : (Z.to_nat it < length (flag_maps f))%nat).
    { apply (f_equal length) in El. rewrite length_drop in El. simpl in El. lia. }
    assert (El' : l = drop (Z.to_nat (it + 1)) (flag_maps f)).
    { replace (Z.to_nat (it + 1)) with (Z.to_nat it + 1)%nat by lia.
      rewrite <- drop_drop, <- El. done. }
    assert (Em : drop (Z.to_nat it) (masks f) =
      make_bit_mask rs :: drop (Z.to_nat (it + 1)) (masks f)).
    { rewrite Hm, <- !fmap_drop, <- El, <- El'. done. }
    simpl in Hrs. simpl List.filter. rewrite <- (mask_active rs val Hrs).
    destruct (c_true (Z.land (make_bit_mask rs) val)) eqn:Ec.
    + simpl. unfold actf_flags_find. rewrite Em, <- El. simpl. rewrite Ec.
      f_equal. apply IH; [lia|lia|done].
    + rewrite <- (IH (S n) (it + 1)) by (done || lia). simpl.
      assert (Hf : actf_flags_find f val it = actf_flags_find f val (it + 1)).
      { unfold actf_flags_find. rewrite Em, <- El, <- El'. simpl. rewrite Ec. done. }
      by rewrite Hf.
Qed.

(** Iterating [actf_flags_find] over the flags that [actf_flags_init]
    builds yields, in order and once each, exactly the names whose bit ranges
    hold the index of a set bit of the value, and terminates. *)
Theorem actf_flags_find_all maps val :
  Forall (fun m => Forall urng_wf (snd m)) maps ->
  flags_iter (S (length maps)) (actf_flags_init maps) val 0 =
    map fst (List.filter (fun m => flag_active val (snd m)) maps).
Proof. intros Hwf. apply (flags_iter_drop (actf_flags_init maps)); simpl; [lia|lia|done|done]. Qed.

Example actf_flags_find_all_witness :
  flags_iter 4 (actf_flags_init [("r", [mk_urng 0 1]); ("w", [mk_urng 2 2]); ("x", [mk_urng 1 1; mk_urng 63 90])]%string)
    (2 ^ 63 + 4) 0 = ["w"; "x"]%string.
Proof.
  apply (actf_flags_find_all [("r", [mk_urng 0 1]); ("w", [mk_urng 2 2]); ("x", [mk_urng 1 1; mk_urng 63 90])]%string).
  repeat constructor; done.
Defined.
