(* ===== verification/PrioQueue.v ===== *)
(** The priority queue of [prio_queue.h]: a binary heap in an array, children of
    [i] at [2i+1] and [2i+2], smallest key at the root.

    [heap] is the invariant and [pq_elems] the abstraction to a multiset (lists
    up to [≡ₚ]); the theorems show that push adds an element, that pop removes
    one with the least key, and that both loops end within the fuel given. *)
From Stdlib Require Import Sorting.Sorted.
From S2P Require Import Prelude Common.

Record node := mk_node { key : Z; value : nat }.
#[export] Instance node_inhabited : Inhabited node := populate (mk_node 0 0).

(** [nodes] is the allocated array of [cap] slots; the slots from [pq_len] on
    hold what earlier operations or [malloc] left there. *)
Record prio_queue := mk_pq { nodes : list node; pq_len : nat; cap : nat }.

(** * Operations *)

(** [slots] is the memory [malloc] returns, [None] when it fails. *)
Definition prio_queue_init (slots : option (list node)) (sz : nat) : outcome prio_queue :=
  match slots with
  | None => Err ACTF_OOM
  | Some nodes => Ok (mk_pq nodes 0 sz)
  end.

Definition prio_queue_clear (pq : prio_queue) : prio_queue := mk_pq (nodes pq) 0 (cap pq).

Definition swap_nodes (i j : nat) (l : list node) : list node :=
  let tmp := l !!! i in <[j := tmp]> (<[i := l !!! j]> l).

Fixpoint prio_queue_bottomup_fix_heap (fuel : nat) (l : list node) (cur_i : nat) : list node :=
  match fuel with
  | O => l
  | S fuel' =>
      if (cur_i =? 0)%nat then l
      else
        let par_i := ((cur_i - 1) / 2)%nat in
        if key (l !!! par_i) <=? key (l !!! cur_i) then l
        else prio_queue_bottomup_fix_heap fuel' (swap_nodes cur_i par_i l) par_i
  end.

Definition prio_queue_push_unchecked (n : node) (pq : prio_queue) : outcome prio_queue :=
  if (pq_len pq <? cap pq)%nat then
    let l := <[pq_len pq := n]> (nodes pq) in
    let len := S (pq_len pq) in
    Ok (mk_pq (prio_queue_bottomup_fix_heap len l (len - 1)) len (cap pq))
  else Undef.

Fixpoint prio_queue_topdown_fix_heap (fuel : nat) (len : nat) (l : list node) (cur_i : nat) : list node :=
  match fuel with
  | O => l
  | S fuel' =>
      let left_i := (2 * cur_i + 1)%nat in
      let right_i := (2 * cur_i + 2)%nat in
      let smallest_i := cur_i in
      let smallest_i :=
        if (left_i <? len)%nat && (key (l !!! left_i) <? key (l !!! smallest_i)) then left_i
        else smallest_i in
      let smallest_i :=
        if (right_i <? len)%nat && (key (l !!! right_i) <? key (l !!! smallest_i)) then right_i
        else smallest_i in
      if (smallest_i =? cur_i)%nat then l
      else prio_queue_topdown_fix_heap fuel' len (swap_nodes cur_i smallest_i l) smallest_i
  end.

Definition prio_queue_pop_unchecked (pq : prio_queue) : outcome (node * prio_queue) :=
  if (0 <? pq_len pq)%nat then
    let min := nodes pq !!! 0%nat in
    let l := <[0%nat := nodes pq !!! (pq_len pq - 1)%nat]> (nodes pq) in
    let len := (pq_len pq - 1)%nat in
    Ok (min, mk_pq (prio_queue_topdown_fix_heap (S len) len l 0) len (cap pq))
  else Undef.

Definition prio_queue_peek_unchecked (pq : prio_queue) : outcome node :=
  if (0 <? pq_len pq)%nat then Ok (nodes pq !!! 0%nat) else Undef.

(** * Invariant *)

Definition par (i : nat) : nat := ((i - 1) / 2)%nat.

(** Every node of the first [len] but those of [P] is at least its parent. *)
Definition heap_but (P : nat -> Prop) (len : nat) (l : list node) : Prop :=
  forall i, (0 < i < len)%nat -> ~ P i -> key (l !!! par i) <= key (l !!! i).

Definition heap (len : nat) (l : list node) : Prop :=
  forall i, (0 < i < len)%nat -> key (l !!! par i) <= key (l !!! i).

Record pq_wf (pq : prio_queue) : Prop := {
  pq_slots : length (nodes pq) = cap pq;
  pq_fits : (pq_len pq <= cap pq)%nat;
  pq_heap : heap (pq_len pq) (nodes pq)
}.

(** The elements of the queue. *)
Definition pq_elems (pq : prio_queue) : list node := take (pq_len pq) (nodes pq).

(** ** Array lemmas *)

Lemma par_lt i : (0 < i)%nat -> (par i < i)%nat.
Proof. intros. unfold par. apply Nat.Div0.div_lt_upper_bound; lia. Qed.

Lemma par_children i c : (0 < c)%nat -> par c = i <-> (c = 2 * i + 1 \/ c = 2 * i + 2)%nat.
Proof.
  intros. unfold par. pose proof (Nat.div_mod_eq (c - 1) 2).
  pose proof (Nat.mod_upper_bound (c - 1) 2). lia.
Qed.

Lemma swap_length i j l : length (swap_nodes i j l) = length l.
Proof. unfold swap_nodes. by rewrite !length_insert. Qed.

Lemma swap_lookup i j l k :
  (i < length l)%nat -> (j < length l)%nat ->
  swap_nodes i j l !!! k =
    if decide (k = j) then l !!! i else if decide (k = i) then l !!! j else l !!! k.
Proof.
  intros Hi Hj. unfold swap_nodes. destruct (decide (k = j)) as [->|].
  { apply list_lookup_total_insert_eq. by rewrite length_insert. }
  rewrite list_lookup_total_insert_ne by done. destruct (decide (k = i)) as [->|].
  - by apply list_lookup_total_insert_eq.
  - by apply list_lookup_total_insert_ne.
Qed.

Lemma swap_perm i j l :
  (i < length l)%nat -> (j < length l)%nat -> swap_nodes i j l ≡ₚ l.
Proof.
  intros Hi Hj. unfold swap_nodes. apply Permutation_inj. split; [by rewrite !length_insert|].
  exists (fun k => if decide (k = i) then j else if decide (k = j) then i else k). split.
  - intros a b. repeat destruct (decide _); lia.
  - intros k. destruct (decide (k = i)) as [->|Hki].
    + destruct (decide (i = j)) as [<-|].
      * rewrite list_lookup_insert_eq, list_lookup_lookup_total_lt by (rewrite ?length_insert; lia). done.
      * rewrite list_lookup_insert_ne, list_lookup_insert_eq by lia.
        by rewrite list_lookup_lookup_total_lt by lia.
    + destruct (decide (k = j)) as [->|Hkj].
      * rewrite list_lookup_insert_eq by (rewrite length_insert; lia).
        by rewrite list_lookup_lookup_total_lt by lia.
      * by rewrite !list_lookup_insert_ne by lia.
Qed.

(** A swap below [n] permutes the first [n] elements. *)
Lemma swap_take n i j l :
  (i < n)%nat -> (j < n)%nat -> (n <= length l)%nat -> take n (swap_nodes i j l) ≡ₚ take n l.
Proof.
  intros Hi Hj Hn. rewrite <- (swap_perm i j (take n l)) by (rewrite length_take; lia).
  unfold swap_nodes. rewrite !take_insert_lt by lia.
  by rewrite !lookup_total_take_lt by lia.
Qed.

(** ** Sifting up *)

(** The heap order holds but between [i] and its parent, and the children of
    [i] are at least that parent. *)
Definition up_inv (i len : nat) (l : list node) : Prop :=
  heap_but (fun k => k = i) len l /\
  (forall c, (0 < i)%nat -> (0 < c < len)%nat -> par c = i -> key (l !!! par i) <= key (l !!! c)).

Lemma bottomup_spec fuel len l i :
  (i < fuel)%nat -> (i < len)%nat -> (len <= length l)%nat -> up_inv i len l ->
  let l' := prio_queue_bottomup_fix_heap fuel l i in
  heap len l' /\ length l' = length l /\ take len l' ≡ₚ take len l.
Proof.
  revert l i. induction fuel as [|fuel IH]; intros l i Hf Hi Hl [Hh Hc]; [lia|].
  cbn [prio_queue_bottomup_fix_heap]. cbv zeta.
  destruct (Nat.eqb_spec i 0) as [->|Hi0].
  { split; [|done]. intros k Hk. apply Hh; [done|lia]. }
  change ((i - 1) / 2)%nat with (par i). pose proof (par_lt i ltac:(lia)) as Hp.
  destruct (Z.leb_spec (key (l !!! par i)) (key (l !!! i))) as [Hle|Hgt].
  { split; [|done]. intros k Hk. destruct (decide (k = i)) as [->|]; [done|]. by apply Hh. }
  destruct (IH (swap_nodes i (par i) l) (par i)) as (H1 & H2 & H3);
    [lia|lia|by rewrite swap_length| |].
  - split.
    + intros k Hk Hne. rewrite !swap_lookup by lia.
      destruct (decide (k = par i)); [done|]. destruct (decide (k = i)) as [->|].
      { destruct (decide (par i = par i)); [lia|done]. }
      destruct (decide (par k = par i)) as [E|].
      { pose proof (Hh k Hk ltac:(done)). rewrite E in *. lia. }
      destruct (decide (par k = i)); [apply Hc; [lia|done|done]|]. by apply Hh.
    + intros c Hp0 Hc' Epar. pose proof (par_lt (par i) Hp0).
      rewrite !swap_lookup by lia.
      destruct (decide (c = par i)) as [->|]; [lia|].
      destruct (decide (par (par i) = par i)); [lia|]. destruct (decide (par (par i) = i)); [lia|].
      pose proof (Hh (par i) ltac:(lia) ltac:(cbv beta; lia)).
      destruct (decide (c = i)) as [->|]; [done|].
      pose proof (Hh c Hc' ltac:(done)) as Hcc. rewrite Epar in Hcc. lia.
  - split_and!; [done|by rewrite H2, swap_length|].
    rewrite H3. by apply swap_take; lia.
Qed.

(** ** Sifting down *)

Definition down_inv (i len : nat) (l : list node) : Prop :=
  heap_but (fun k => par k = i) len l /\
  (forall c, (0 < i)%nat -> (0 < c < len)%nat -> par c = i -> key (l !!! par i) <= key (l !!! c)).

Lemma topdown_spec fuel len l i :
  (len <= fuel + i)%nat -> (len <= length l)%nat -> (i < len \/ len = 0)%nat -> down_inv i len l ->
  (1 <= fuel)%nat ->
  let l' := prio_queue_topdown_fix_heap fuel len l i in
  heap len l' /\ length l' = length l /\ take len l' ≡ₚ take len l.
Proof.
  revert l i. induction fuel as [|fuel IH]; intros l i Hf Hl Hi [Hh Hc] H1; [lia|].
  cbn [prio_queue_topdown_fix_heap]. cbv zeta.
  set (s1 := if ((2 * i + 1 <? len)%nat && (key (l !!! (2 * i + 1)%nat) <? key (l !!! i)))
             then (2 * i + 1)%nat else i).
  set (s := if ((2 * i + 2 <? len)%nat && (key (l !!! (2 * i + 2)%nat) <? key (l !!! s1)))
            then (2 * i + 2)%nat else s1).
  assert (Hs : (s = i \/ (0 < s < len)%nat /\ par s = i /\ key (l !!! s) < key (l !!! i)) /\
    (forall c, (0 < c < len)%nat -> par c = i -> key (l !!! s) <= key (l !!! c))).
  { assert (Hl1 : par (2 * i + 1) = i) by (apply par_children; lia).
    assert (Hl2 : par (2 * i + 2) = i) by (apply par_children; lia).
    assert (Hs1 : (s1 = i \/ s1 = (2 * i + 1)%nat /\ (2 * i + 1 < len)%nat /\
                   key (l !!! s1) < key (l !!! i)) /\
                  ((2 * i + 1 < len)%nat -> key (l !!! s1) <= key (l !!! (2 * i + 1)%nat))).
    { subst s s1. destruct (Nat.ltb_spec (2 * i + 1) len); cbn [andb];
        [destruct (Z.ltb_spec (key (l !!! (2 * i + 1)%nat)) (key (l !!! i)))|]; split; lia. }
    clearbody s1. destruct Hs1 as [Hs1 Hm1]. subst s.
    destruct (Nat.ltb_spec (2 * i + 2) len); cbn [andb];
      [destruct (Z.ltb_spec (key (l !!! (2 * i + 2)%nat)) (key (l !!! s1)))|];
      (split; [destruct Hs1 as [->|(-> & ? & ?)]; first [by left | right; split_and!; (done || lia)]|];
       intros c Hcl Hpc; apply par_children in Hpc; [|lia]; destruct Hpc as [->| ->]; lia). }
  clearbody s. clear s1. destruct Hs as [Hs Hmin].
  destruct (Nat.eqb_spec s i) as [->|Hne].
  { split; [|done]. intros k Hk. destruct (decide (par k = i)) as [E|]; [rewrite E; by apply Hmin|].
    by apply Hh. }
  destruct Hs as [?|(Hsl & Hps & Hlt)]; [done|]. pose proof (par_lt s ltac:(lia)) as Hpl.
  destruct (IH (swap_nodes i s l) s) as (H2 & H3 & H4); [lia|by rewrite swap_length|lia| |lia|].
  - split.
    + intros k Hk Hnp. rewrite !swap_lookup by lia.
      destruct (decide (par k = s)); [done|]. destruct (decide (k = s)) as [->|].
      { destruct (decide (par s = i)); lia. }
      destruct (decide (par k = i)) as [E|].
      { destruct (decide (k = i)) as [->|]; [pose proof (par_lt i ltac:(lia)); lia|]. by apply Hmin. }
      destruct (decide (k = i)) as [->|]; [|by apply Hh].
      apply Hc; [lia|done|done].
    + intros c _ Hcl Hpc. pose proof (par_lt c ltac:(lia)). rewrite Hps, !swap_lookup by lia.
      destruct (decide (i = s)); [done|]. destruct (decide (i = i)); [|done].
      destruct (decide (c = s)); [lia|]. destruct (decide (c = i)); [lia|].
      pose proof (Hh c Hcl) as Hcc. rewrite Hpc in Hcc. apply Hcc. lia.
  - split_and!; [done|by rewrite H3, swap_length|]. rewrite H4. apply swap_take; lia.
Qed.

(** The root of a heap is least. *)
Lemma heap_root len l i : heap len l -> (i < len)%nat -> key (l !!! 0%nat) <= key (l !!! i).
Proof.
  intros Hh. induction i as [i IH] using lt_wf_ind. intros Hi.
  destruct (decide (i = 0)%nat) as [->|]; [lia|].
  pose proof (par_lt i ltac:(lia)). specialize (IH (par i)). specialize (Hh i). lia.
Qed.

Lemma in_elems pq n :
  pq_wf pq -> n ∈ pq_elems pq -> exists i, (i < pq_len pq)%nat /\ nodes pq !!! i = n.
Proof.
  intros Hwf Hin. apply list_elem_of_lookup in Hin as (i & Hi). apply lookup_take_Some in Hi as [Hi Hlt].
  exists i. split; [done|]. by apply list_lookup_total_correct.
Qed.

(** ** The operations as multiset operations *)

Lemma pq_push_spec n pq :
  pq_wf pq -> (pq_len pq < cap pq)%nat ->
  exists pq', prio_queue_push_unchecked n pq = Ok pq' /\ pq_wf pq' /\
    pq_elems pq' ≡ₚ n :: pq_elems pq /\ cap pq' = cap pq /\ pq_len pq' = S (pq_len pq).
Proof.
  intros [Hs Hf Hh] Hlt. unfold prio_queue_push_unchecked.
  destruct (Nat.ltb_spec (pq_len pq) (cap pq)); [|lia].
  replace (S (pq_len pq) - 1)%nat with (pq_len pq) by lia.
  set (l := <[pq_len pq := n]> (nodes pq)).
  destruct (bottomup_spec (S (pq_len pq)) (S (pq_len pq)) l (pq_len pq)) as (H1 & H2 & H3);
    [lia|lia|unfold l; rewrite length_insert; lia| |].
  { assert (Hlk : forall k, (k < pq_len pq)%nat -> l !!! k = nodes pq !!! k)
      by (intros k Hk; apply list_lookup_total_insert_ne; lia).
    split.
    - intros k Hk Hne. pose proof (par_lt k ltac:(lia)). rewrite !Hlk by lia. apply Hh. lia.
    - intros c Hp0 Hc E. pose proof (par_lt c ltac:(lia)). lia. }
  eexists. split; [done|]. unfold pq_elems. cbn [nodes pq_len cap]. split_and!; try done.
  - split; cbn [nodes pq_len cap]; [|lia|done]. rewrite H2. unfold l. by rewrite length_insert.
  - rewrite H3. unfold l. erewrite take_S_r by (apply list_lookup_insert_eq; lia).
    rewrite take_insert_ge by lia. symmetry. apply Permutation_cons_append.
Qed.

Lemma pq_pop_spec pq :
  pq_wf pq -> (0 < pq_len pq)%nat ->
  exists m pq', prio_queue_pop_unchecked pq = Ok (m, pq') /\ pq_wf pq' /\
    pq_elems pq ≡ₚ m :: pq_elems pq' /\ cap pq' = cap pq /\ pq_len pq' = (pq_len pq - 1)%nat /\
    Forall (fun n => key m <= key n) (pq_elems pq).
Proof.
  intros Hwf Hpos. pose proof Hwf as [Hs Hf Hh]. unfold prio_queue_pop_unchecked.
  destruct (Nat.ltb_spec 0 (pq_len pq)); [|lia].
  set (len := (pq_len pq - 1)%nat).
  set (l := <[0%nat := nodes pq !!! len]> (nodes pq)).
  assert (Hlen : pq_len pq = S len) by lia.
  destruct (topdown_spec (S len) len l 0) as (H1 & H2 & H3);
    [lia|unfold l; rewrite length_insert; lia|lia| |lia|].
  { split; [|lia]. intros k Hk Hne. unfold l.
    rewrite !list_lookup_total_insert_ne by lia. apply Hh. lia. }
  eexists _, _. split; [done|]. unfold pq_elems at 2. cbn [nodes pq_len cap].
  split_and!; try done.
  - split; cbn [nodes pq_len cap]; [|lia|done]. rewrite H2. unfold l. by rewrite length_insert.
  - rewrite H3. unfold pq_elems. rewrite Hlen. unfold l. clear H1 H2 H3 l Hh Hwf.
    destruct (nodes pq) as [|x ns] eqn:En; [simpl in Hs; lia|]. destruct len as [|k].
    { done. }
    cbn [take]. simpl lookup_total. simpl in Hs.
    rewrite (take_S_r ns k (ns !!! k)) by (apply list_lookup_lookup_total_lt; lia).
    simpl. change (list_lookup_total k ns) with (ns !!! k).
    constructor. symmetry. apply Permutation_cons_append.
  - rewrite Forall_forall. intros n Hin. apply list_elem_of_In, in_elems in Hin as (i & Hi & <-); [|done].
    by apply (heap_root (pq_len pq)).
Qed.

Lemma pq_peek_spec pq :
  pq_wf pq -> (0 < pq_len pq)%nat ->
  exists m, prio_queue_peek_unchecked pq = Ok m /\ m ∈ pq_elems pq /\
    Forall (fun n => key m <= key n) (pq_elems pq).
Proof.
  intros Hwf Hpos. pose proof Hwf as [Hs Hf Hh]. unfold prio_queue_peek_unchecked.
  destruct (Nat.ltb_spec 0 (pq_len pq)); [|lia]. eexists. split; [done|]. split.
  - apply list_elem_of_lookup. exists 0%nat. unfold pq_elems. rewrite lookup_take_lt by lia.
    apply list_lookup_lookup_total_lt. lia.
  - rewrite Forall_forall. intros n Hin. apply list_elem_of_In, in_elems in Hin as (i & Hi & <-); [|done].
    by apply (heap_root (pq_len pq)).
Qed.

Lemma pq_init_spec slots sz pq :
  length slots = sz -> prio_queue_init (Some slots) sz = Ok pq ->
  pq_wf pq /\ pq_elems pq = [] /\ cap pq = sz.
Proof. intros Hs [= <-]. split_and!; try done. split; simpl; [done|lia|]. intros i Hi. lia. Qed.

Lemma pq_clear_spec pq :
  pq_wf pq -> pq_wf (prio_queue_clear pq) /\ pq_elems (prio_queue_clear pq) = [].
Proof. intros [Hs Hf Hh]. split; [|done]. split; simpl; [done|lia|]. intros i Hi. lia. Qed.

(** * Sequences of operations *)

Fixpoint push_list (ns : list node) (pq : prio_queue) : outcome prio_queue :=
  match ns with
  | [] => Ok pq
  | n :: ns' =>
      match prio_queue_push_unchecked n pq with
      | Ok pq' => push_list ns' pq'
      | Err rc => Err rc
      | Undef => Undef
      end
  end.

(** Pop until the queue is empty, at most [fuel] times. *)
Fixpoint pop_list (fuel : nat) (pq : prio_queue) : outcome (list node) :=
  match fuel with
  | O => Ok []
  | S fuel' =>
      if (0 <? pq_len pq)%nat then
        match prio_queue_pop_unchecked pq with
        | Ok (n, pq') =>
            match pop_list fuel' pq' with Ok ns => Ok (n :: ns) | Err rc => Err rc | Undef => Undef end
        | Err rc => Err rc
        | Undef => Undef
        end
      else Ok []
  end.

Lemma pq_elems_length q : pq_wf q -> length (pq_elems q) = pq_len q.
Proof. intros [Hs Hf _]. unfold pq_elems. rewrite length_take. lia. Qed.

Lemma push_list_spec ns pq :
  pq_wf pq -> (pq_len pq + length ns <= cap pq)%nat ->
  exists pq', push_list ns pq = Ok pq' /\ pq_wf pq' /\ pq_elems pq' ≡ₚ ns ++ pq_elems pq /\
    cap pq' = cap pq.
Proof.
  revert pq. induction ns as [|n ns IH]; intros pq Hwf Hlen; [by exists pq|]. simpl in Hlen.
  destruct (pq_push_spec n pq Hwf ltac:(lia)) as (pq1 & Hrun & Hwf1 & Hel & Hc & Hl).
  destruct (IH pq1 Hwf1 ltac:(lia)) as (pq2 & Hrun2 & Hwf2 & Hel2 & Hc2).
  exists pq2. simpl. rewrite Hrun. split_and!; try done; [|congruence].
  rewrite Hel2, Hel. symmetry. apply Permutation_middle.
Qed.

Lemma pop_list_spec fuel pq :
  pq_wf pq -> (pq_len pq <= fuel)%nat ->
  exists ns, pop_list fuel pq = Ok ns /\ ns ≡ₚ pq_elems pq /\
    StronglySorted (fun a b => key a <= key b) ns.
Proof.
  revert pq. induction fuel as [|fuel IH]; intros pq Hwf Hf.
  - exists []. split; [done|]. split; [|constructor]. unfold pq_elems.
    by replace (pq_len pq) with 0%nat by lia.
  - simpl. destruct (Nat.ltb_spec 0 (pq_len pq)).
    + destruct (pq_pop_spec pq Hwf ltac:(lia)) as (m & pq1 & Hrun & Hwf1 & Hel & _ & Hl & Hmin).
      destruct (IH pq1 Hwf1 ltac:(lia)) as (ns & Hrun2 & Hp & Hs).
      exists (m :: ns). rewrite Hrun, Hrun2. split; [done|]. split; [by rewrite Hel, Hp|].
      constructor; [done|]. rewrite Hel in Hmin. rewrite Hp. by inversion Hmin.
    + exists []. split; [done|]. split; [|constructor]. unfold pq_elems.
      by replace (pq_len pq) with 0%nat by lia.
Qed.

(** C34: pushing any nodes that fit, then popping until the queue is empty,
    returns exactly those nodes in ascending key order, from whatever the
    allocated slots held; no [assert] fails and both sifting loops end. *)
Theorem prio_queue_sorts slots pq ns :
  prio_queue_init (Some slots) (length slots) = Ok pq -> (length ns <= length slots)%nat ->
  exists pq' out, push_list ns pq = Ok pq' /\ pop_list (length ns) pq' = Ok out /\
    out ≡ₚ ns /\ StronglySorted (fun a b => key a <= key b) out.
Proof.
  intros Hinit Hlen. destruct (pq_init_spec _ _ _ eq_refl Hinit) as (Hwf & He & Hc).
  assert (Hl0 : pq_len pq = 0%nat) by (rewrite <- pq_elems_length, He by done; done).
  destruct (push_list_spec ns pq Hwf ltac:(lia)) as (pq' & Hpush & Hwf' & Hel & Hc').
  rewrite He, app_nil_r in Hel.
  assert (Hl' : pq_len pq' = length ns).
  { rewrite <- pq_elems_length by done. by rewrite Hel. }
  destruct (pop_list_spec (length ns) pq' Hwf' ltac:(lia)) as (out & Hpop & Hp & Hs).
  exists pq', out. split_and!; try done. by rewrite Hp.
Qed.

Example prio_queue_sorts_witness :
  exists pq' out, push_list [mk_node 5 0; mk_node (-3) 1; mk_node 5 2; mk_node 0 3]
      (mk_pq (replicate 5 (mk_node 77 9)) 0 5) = Ok pq' /\
    pop_list 4 pq' = Ok out /\
    out ≡ₚ [mk_node 5 0; mk_node (-3) 1; mk_node 5 2; mk_node 0 3] /\
    StronglySorted (fun a b => key a <= key b) out.
Proof.
  apply (prio_queue_sorts (replicate 5 (mk_node 77 9)) _
    [mk_node 5 0; mk_node (-3) 1; mk_node 5 2; mk_node 0 3]); simpl; [reflexivity|lia].
Defined.

(** Every operation keeps the heap invariant and acts on the multiset of
    elements: push adds its node, pop and peek return a node of least key, and
    pop removes that node only. *)
Theorem prio_queue_bag pq :
  pq_wf pq ->
  (forall n, (pq_len pq < cap pq)%nat -> exists pq', prio_queue_push_unchecked n pq = Ok pq' /\
     pq_wf pq' /\ pq_elems pq' ≡ₚ n :: pq_elems pq) /\
  ((0 < pq_len pq)%nat -> exists m pq', prio_queue_pop_unchecked pq = Ok (m, pq') /\
     prio_queue_peek_unchecked pq = Ok m /\ pq_wf pq' /\
     pq_elems pq ≡ₚ m :: pq_elems pq' /\ Forall (fun n => key m <= key n) (pq_elems pq)) /\
  pq_wf (prio_queue_clear pq) /\ pq_elems (prio_queue_clear pq) = [].
Proof.
  intros Hwf. split_and!.
  - intros n Hlt. destruct (pq_push_spec n pq Hwf Hlt) as (pq' & Hrun & Hwf' & Hel & _). by exists pq'.
  - intros Hpos. destruct (pq_pop_spec pq Hwf Hpos) as (m & pq' & Hrun & Hwf' & Hel & _ & _ & Hmin).
    exists m, pq'. split_and!; try done. unfold prio_queue_pop_unchecked in Hrun.
    unfold prio_queue_peek_unchecked. destruct (0 <? pq_len pq)%nat; [|done]. by injection Hrun as -> _.
  - by apply pq_clear_spec.
  - by apply pq_clear_spec.
Qed.

Example prio_queue_bag_witness :
  let pq := mk_pq [mk_node 1 0; mk_node 4 1; mk_node 0 0] 2 3 in
  (forall n, (pq_len pq < cap pq)%nat -> exists pq', prio_queue_push_unchecked n pq = Ok pq' /\
     pq_wf pq' /\ pq_elems pq' ≡ₚ n :: pq_elems pq) /\
  ((0 < pq_len pq)%nat -> exists m pq', prio_queue_pop_unchecked pq = Ok (m, pq') /\
     prio_queue_peek_unchecked pq = Ok m /\ pq_wf pq' /\
     pq_elems pq ≡ₚ m :: pq_elems pq' /\ Forall (fun n => key m <= key n) (pq_elems pq)) /\
  pq_wf (prio_queue_clear pq) /\ pq_elems (prio_queue_clear pq) = [].
Proof.
  apply prio_queue_bag. split; simpl; [done|lia|]. intros i Hi.
  replace i with 1%nat by (simpl in Hi; lia). simpl. lia.
Defined.
