(* ===== verification/Generator.v ===== *)
(** Event generators, [event_generator.h]: the interface that the decoder, the
    muxer and the filter implement and consume.

    A generator is an object with an internal state; [generate] returns the next
    array of events, an empty array meaning the end, and
    [seek_ns_from_origin] moves to the first event not before a timestamp.
    [Generator] is the interface; [drains] says which events a consumer that
    calls [generate] until the end receives, which is what the clients' theorems
    assume of their generators and prove of themselves. *)
From Stdlib Require Import Sorting.Sorted.
From S2P Require Import Prelude Common.

Definition ACTF_DEFAULT_EVS_CAP : nat := 64.

(** [struct actf_event_generator]: the methods on the opaque data [self] of type
    [G], for events of type [E].  The error message of [last_error] is not part
    of the behaviour.  The events an array points to are read as values: they are
    valid until the next call on the generator that owns them. *)
Class Generator (G E : Type) := {
  generate : st G (list E);
  seek_ns_from_origin : Z -> st G unit
}.

Section Drain.
Context {G E : Type} `{Generator G E}.

(** The successive calls of [generate] return the events [es] in order, then
    an empty array. *)
Inductive drains : G -> list E -> Prop :=
| drains_end g g' : generate g = (Ok [], g') -> drains g []
| drains_more g e evs g' es :
    generate g = (Ok (e :: evs), g') -> drains g' es -> drains g (e :: evs ++ es).

(** The consumer's loop [while (generate() == OK && evs_len)]. *)
Fixpoint drain (fuel : nat) : st G (list E) :=
  match fuel with
  | O => mret []
  | S n =>
      evs ← generate;
      match evs with
      | [] => mret []
      | _ => rest ← drain n; mret (evs ++ rest)
      end
  end.

Lemma drains_run g es : drains g es ->
  forall fuel, (length es < fuel)%nat -> exists g', drain fuel g = (Ok es, g').
Proof.
  induction 1 as [g g' Hg|g e evs g' es Hg Hd IH]; intros [|fuel] Hf; try lia.
  - exists g'. simpl. by rewrite (st_bind_ok _ _ _ _ _ Hg).
  - destruct (IH fuel) as (g2 & Hrun). { simpl in Hf. rewrite length_app in Hf. lia. }
    exists g2. simpl. by rewrite (st_bind_ok _ _ _ _ _ Hg), (st_bind_ok _ _ _ _ _ Hrun).
Qed.

(** What a generator returns is determined. *)
Lemma drains_fun g es es' : drains g es -> drains g es' -> es = es'.
Proof.
  intros H1. revert es'. induction H1 as [g g' Hg|g e evs g' es Hg Hd IH]; intros es' H2;
    inversion H2 as [g2 g2' Hg2|g2 e2 evs2 g2' es2 Hg2 Hd2]; subst; rewrite Hg in Hg2;
    simplify_eq; [done|]. by rewrite (IH _ Hd2).
Qed.

(** The first call on a generator that drains. *)
Lemma drains_step g es : drains g es ->
  exists evs g', generate g = (Ok evs, g') /\
    (evs = [] /\ es = [] \/ evs <> [] /\ exists rest, drains g' rest /\ es = evs ++ rest).
Proof. intros [g0 g' Hg|g0 e evs g' es0 Hg Hd]; eexists _, _; (split; [exact Hg|]); naive_solver. Qed.

(** [g] can be sought to [t], and then yields [es]. *)
Definition seeks (g : G) (t : Z) (es : list E) : Prop :=
  exists g', seek_ns_from_origin t g = (Ok tt, g') /\ drains g' es.
End Drain.

Arguments drains {G E H} g es.

(** * Generators that end *)

(** The calls of [generate] return the events [es] in order and then an empty array, or
    an error: [fin] is [Ok] or the error. *)
Inductive ends {G E} `{Generator G E} : G -> list E -> outcome unit -> G -> Prop :=
| ends_ok g g' : generate g = (Ok [], g') -> ends g [] (Ok tt) g'
| ends_err g rc g' : generate g = (Err rc, g') -> ends g [] (Err rc) g'
| ends_more g e evs g' es fin g'' : generate g = (Ok (e :: evs), g') -> ends g' es fin g'' -> ends g (e :: evs ++ es) fin g''.

Lemma drains_ends {G E} `{Generator G E} g (es : list E) : drains g es <-> exists g', ends g es (Ok tt) g'.
Proof.
  split.
  - induction 1 as [g g' Hg|g e evs g' es Hg _ (g'' & IH)]; [exists g'; by apply ends_ok|]. exists g''. by eapply ends_more.
  - intros (g' & Hend). remember (Ok tt) as fin eqn:Ef. induction Hend as [g g' Hg|g rc g' Hg|g e evs g' es fin g'' Hg _ IH]; [|done|].
    + by eapply drains_end.
    + eapply drains_more; [exact Hg|by apply IH].
Qed.

(** The code that a consumer of the generator ends with. *)
Definition end_rc (fin : outcome unit) : Z := match fin with Err rc => rc | _ => ACTF_OK end.

(** * Time order *)

Section Order.
Context {E : Type} (tstamp : E -> Z).

Definition time_sorted (es : list E) : Prop := StronglySorted (fun a b => tstamp a <= tstamp b) es.

(** A k-way merge by time: every event taken is a least one among the first
    events of the lists, and the order within each list is kept. *)
Inductive merge : list (list E) -> list E -> Prop :=
| merge_nil ess : Forall (fun es => es = []) ess -> merge ess []
| merge_cons ess i e es out :
    ess !! i = Some (e :: es) ->
    (forall j e' es', ess !! j = Some (e' :: es') -> tstamp e <= tstamp e') ->
    merge (<[i := es]> ess) out -> merge ess (e :: out).

(** A prefix of a merge: [out] is taken from [ess], which leaves [ess']. *)
Inductive msteps : list (list E) -> list E -> list (list E) -> Prop :=
| msteps_nil ess : msteps ess [] ess
| msteps_cons ess i e es out ess' :
    ess !! i = Some (e :: es) ->
    (forall j e' es', ess !! j = Some (e' :: es') -> tstamp e <= tstamp e') ->
    msteps (<[i := es]> ess) out ess' -> msteps ess (e :: out) ess'.

Lemma msteps_merge ess out ess' out' : msteps ess out ess' -> merge ess' out' -> merge ess (out ++ out').
Proof. induction 1; intros; simpl; [done|]. eapply merge_cons; eauto. Qed.

Lemma concat_head (ess : list (list E)) i e es : ess !! i = Some (e :: es) -> concat ess ≡ₚ e :: concat (<[i := es]> ess).
Proof.
  revert i. induction ess as [|x ess IH]; intros [|i] Hi; try done.
  - simpl in Hi. injection Hi as ->. done.
  - simpl in Hi |- *. rewrite (IH i Hi). symmetry. apply Permutation_middle.
Qed.

Lemma merge_perm ess out : merge ess out -> out ≡ₚ concat ess.
Proof.
  induction 1 as [ess Hnil|ess i e es out Hi Hmin Hm IH].
  - induction Hnil as [|es ess -> _ IH]; simpl; done.
  - by rewrite IH, (concat_head ess i e es Hi).
Qed.

(** All the events still to come are at least [t]. *)
Definition all_ge (t : Z) (es : list E) : Prop := Forall (fun e => t <= tstamp e) es.

(** The sorted lists merge into a sorted list. *)
Lemma merge_sorted ess out : Forall time_sorted ess -> merge ess out -> time_sorted out.
Proof.
  intros Hs Hm. induction Hm as [ess Hnil|ess i e es out Hi Hmin Hm IH]; [constructor|].
  assert (He : time_sorted (e :: es)) by (by apply (Forall_lookup_1 _ _ _ _ Hs Hi)).
  apply StronglySorted_inv in He as [He Hge]. constructor.
  - apply IH. by apply Forall_insert.
  - rewrite (merge_perm _ _ Hm). apply Forall_concat, Forall_lookup. intros j xs Hj.
    apply list_lookup_insert_Some in Hj as [(-> & <- & _)|[Hne Hj]]; [done|].
    destruct xs as [|x xs]; [constructor|]. pose proof (Hmin j x xs Hj).
    pose proof (Forall_lookup_1 _ _ _ _ Hs Hj) as Hx.
    apply StronglySorted_inv in Hx as [_ Hx]. constructor; [done|].
    revert Hx. apply Forall_impl. simpl. intros. lia.
Qed.

(** Merges of lists whose elements are related by [R], which keeps the time. *)
Lemma merge_related (R : E -> E -> Prop) : (forall a b, R a b -> tstamp a = tstamp b) ->
  forall ess out, merge ess out -> forall ess', Forall2 (Forall2 R) ess ess' -> exists out', merge ess' out' /\ Forall2 R out out'.
Proof.
  intros HR ess out Hm. induction Hm as [ess Hnil|ess i e es out Hi Hmin Hm IH]; intros ess' Hf.
  - exists []. split; [|constructor]. apply merge_nil. clear -Hnil Hf. induction Hf as [|es es' ess ess' He _ IH]; [constructor|].
    inversion_clear Hnil as [|? ? -> Hn]. constructor; [by inversion He|by apply IH].
  - destruct (Forall2_lookup_l _ _ _ _ _ Hf Hi) as (es0 & Hi' & He). inversion He as [|? e' ? es' Hee Hes]; subst.
    destruct (IH (<[i := es']> ess')) as (out' & Hm' & Ho); [by apply Forall2_insert|].
    exists (e' :: out'). split; [|by constructor]. apply (merge_cons ess' i e' es' out' Hi'); [|done].
    intros j e2 es2 Hj. destruct (Forall2_lookup_r _ _ _ _ _ Hf Hj) as (es1 & Hj1 & H1). inversion H1 as [|e1 ? es1' ? H12 _]; subst.
    rewrite <- (HR _ _ Hee), <- (HR _ _ H12). by eapply Hmin.
Qed.

Lemma in_order_filter t es : time_sorted es -> (forall e es', es = e :: es' -> t <= tstamp e) -> List.filter (fun e => t <=? tstamp e) es = es.
Proof.
  intros Hs Hh. destruct es as [|e es]; [done|]. specialize (Hh e es eq_refl). apply StronglySorted_inv in Hs as [_ Hs].
  cbn [List.filter]. destruct (Z.leb_spec t (tstamp e)); [|lia]. f_equal.
  induction Hs as [|x es Hx _ IH]; [done|]. cbn [List.filter]. destruct (Z.leb_spec t (tstamp x)); [by rewrite IH|lia].
Qed.

(** Some first event is a least one. *)
Lemma least_first ess : Forall (fun es => es = []) ess \/
  exists i e es, ess !! i = Some (e :: es) /\ forall j e' es', ess !! j = Some (e' :: es') -> tstamp e <= tstamp e'.
Proof.
  induction ess as [|xs ess [IH|(i & e & es & Hi & Hmin)]]; [by left| |].
  - destruct xs as [|x xs]; [left; by constructor|]. right. exists O, x, xs. split; [done|]. intros [|j] e' es' Hj; [by injection Hj as <- <-|].
    by pose proof (Forall_lookup_1 _ _ _ _ IH Hj).
  - right. destruct xs as [|x xs]; [|destruct (Z.le_gt_cases (tstamp x) (tstamp e))].
    + exists (S i), e, es. split; [done|]. intros [|j] e' es' Hj; [done|by eapply Hmin].
    + exists O, x, xs. split; [done|]. intros [|j] e' es' Hj; [by injection Hj as <- <-|]. specialize (Hmin j e' es' Hj). lia.
    + exists (S i), e, es. split; [done|]. intros [|j] e' es' Hj; [injection Hj as <- <-; lia|by eapply Hmin].
Qed.

Lemma merge_exists n : forall ess, length (concat ess) = n -> exists out, merge ess out.
Proof.
  induction n as [n IH] using lt_wf_ind. intros ess Hn. destruct (least_first ess) as [Hnil|(i & e & es & Hi & Hmin)]; [exists []; by apply merge_nil|].
  destruct (IH (length (concat (<[i := es]> ess)))) with (ess := <[i := es]> ess) as (out & Hm); [rewrite <- Hn, (concat_head ess i e es Hi); cbn; lia|done|].
  exists (e :: out). by eapply merge_cons.
Qed.

(** [e] is first and no first event is earlier. *)
Definition earliest (ess : list (list E)) (e : E) : Prop :=
  (exists i es, ess !! i = Some (e :: es)) /\ forall j e' es', ess !! j = Some (e' :: es') -> tstamp e <= tstamp e'.

Lemma merge_earliest ess e out : merge ess (e :: out) -> earliest ess e.
Proof. inversion 1; subst. split; [by eexists _, _|done]. Qed.
Lemma msteps_earliest ess e out ess' : msteps ess (e :: out) ess' -> earliest ess e.
Proof. inversion 1; subst. split; [by eexists _, _|done]. Qed.
Lemma earliest_time ess e e' : earliest ess e -> earliest ess e' -> tstamp e = tstamp e'.
Proof. intros [(i & es & Hi) H1] [(j & es' & Hj) H2]. apply Z.le_antisymm; [by eapply H1|by eapply H2]. Qed.

(** A merge begins with an earliest event. *)
Lemma merge_starts ess e out : earliest ess e -> merge ess out -> exists e' out', out = e' :: out' /\ tstamp e' = tstamp e.
Proof.
  intros He Hm. destruct out as [|e' out]; [|exists e', out; split; [done|by eapply earliest_time; [eapply merge_earliest|]]].
  destruct He as [(i & es & Hi) _]. inversion Hm as [? Hnil|]; subst. by pose proof (Forall_lookup_1 _ _ _ _ Hnil Hi).
Qed.
Lemma earliest_related (R : E -> E -> Prop) ess ess' e : (forall a b, R a b -> tstamp a = tstamp b) ->
  Forall2 (Forall2 R) ess ess' -> earliest ess e -> exists e', earliest ess' e' /\ tstamp e' = tstamp e.
Proof.
  intros HR Hf [(i & es & Hi) Hmin]. destruct (Forall2_lookup_l _ _ _ _ _ Hf Hi) as (es' & Hi' & He). inversion He as [|? e' ? es1 Hee _]; subst.
  exists e'. split; [|by rewrite (HR _ _ Hee)]. split; [by exists i, es1|]. intros j e2 es2 Hj.
  destruct (Forall2_lookup_r _ _ _ _ _ Hf Hj) as (es3 & Hj3 & H3). inversion H3 as [|e3 ? ? ? H32 _]; subst.
  rewrite <- (HR _ _ Hee), <- (HR _ _ H32). by eapply Hmin.
Qed.

(** A merge of what is at or after [t] in lists in the order of time is the end of a merge
    of the lists. *)
Lemma merge_since t out n : forall ess, length (concat ess) = n -> Forall time_sorted ess -> merge (map (List.filter (fun e => t <=? tstamp e)) ess) out ->
  exists pre, merge ess (pre ++ out) /\ Forall (fun e => tstamp e < t) pre.
Proof.
  induction n as [n IH] using lt_wf_ind. intros ess Hn Hs Hm.
  assert (Hid : (forall i e es, ess !! i = Some (e :: es) -> t <= tstamp e) -> exists pre, merge ess (pre ++ out) /\ Forall (fun e => tstamp e < t) pre).
  { intros Hge. exists []. split; [|constructor]. enough (map (List.filter (fun e => t <=? tstamp e)) ess = ess) as Eq by (by rewrite Eq in Hm).
    clear -Hs Hge. induction Hs as [|es ess Hs _ IH]; [done|]. cbn. f_equal; [|apply IH; intros i; apply (Hge (S i))].
    apply in_order_filter; [done|]. intros e es' ->. by apply (Hge O e es'). }
  destruct (least_first ess) as [Hnil|(i & e & es & Hi & Hmin)].
  { apply Hid. intros i e es Hi. by pose proof (Forall_lookup_1 _ _ _ _ Hnil Hi). }
  destruct (Z.le_gt_cases t (tstamp e)) as [Hle|Hlt]; [apply Hid; intros j e' es' Hj; specialize (Hmin j e' es' Hj); lia|].
  pose proof (Forall_lookup_1 _ _ _ _ Hs Hi) as Hse. apply StronglySorted_inv in Hse as [Hse _].
  destruct (IH (length (concat (<[i := es]> ess)))) with (ess := <[i := es]> ess) as (pre & Hp & Hlt'); [|done|by apply Forall_insert| |].
  - rewrite <- Hn, (concat_head ess i e es Hi). cbn. lia.
  - rewrite list_fmap_insert. rewrite list_insert_id; [done|]. rewrite list_lookup_fmap, Hi. cbn. destruct (Z.leb_spec t (tstamp e)); [lia|done].
  - exists (e :: pre). split; [by eapply merge_cons|by constructor].
Qed.

(** A merge keeps the order of each list. *)
Lemma merge_sublist ess out i es : merge ess out -> ess !! i = Some es -> sublist es out.
Proof.
  intros Hm. revert es. induction Hm as [ess Hnil|ess j e es' out Hj Hmin Hm IH]; intros es Hi.
  - rewrite (Forall_lookup_1 _ _ _ _ Hnil Hi). constructor.
  - destruct (decide (i = j)) as [->|Hne].
    + rewrite Hj in Hi. injection Hi as <-. apply sublist_skip, IH.
      apply list_lookup_insert_eq. by eapply lookup_lt_Some.
    + apply sublist_cons, IH. by rewrite list_lookup_insert_ne.
Qed.
End Order.

(** * A generator over arrays

    The simplest generator: it returns the arrays [chunks] one after the other,
    and seeks to the first event not before a timestamp in all of them.  It
    instantiates the interface in the witnesses. *)
Record array_gen (E : Type) := mk_array_gen { all_chunks : list (list E); chunks : list (list E) }.
Arguments mk_array_gen {E}. Arguments all_chunks {E}. Arguments chunks {E}.

Section ArrayGen.
Context {E : Type} (tstamp : E -> Z).

Definition array_generate : st (array_gen E) (list E) := fun g =>
  match chunks g with
  | [] => (Ok [], g)
  | c :: cs => (Ok c, mk_array_gen (all_chunks g) cs)
  end.

Definition array_seek (t : Z) : st (array_gen E) unit := fun g =>
  (Ok tt, mk_array_gen (all_chunks g)
    (List.filter (fun c => negb (length c =? 0)%nat)
       (map (List.filter (fun e => t <=? tstamp e)) (all_chunks g)))).

Definition array_generator : Generator (array_gen E) E :=
  {| generate := array_generate; seek_ns_from_origin := array_seek |}.
End ArrayGen.
