(* ===== verification/Muxer.v ===== *)
(** The muxer, [muxer.h] and [muxer.c]: multiplexes the events of several
    generators by timestamp, through a priority queue of the generators' next
    events, and is a generator itself.

    The theorems: over generators that drain, the muxer drains to a k-way merge
    of their events (least timestamp first, the order of each generator kept);
    after a successful seek it starts over from whatever state it was in; a
    generator's error is returned once and then the muxer stays in error. *)
From S2P Require Import Prelude Common PrioQueue Generator.

Inductive muxer_state :=
| MUXER_STATE_FRESH | MUXER_STATE_ONGOING | MUXER_STATE_DONE | MUXER_STATE_ERROR.

(** [struct actf_muxer].  The arrays are indexed by generator.  The output
    buffer [evs] is the list that [actf_muxer_mux] returns. *)
Record actf_muxer (G E : Type) := mk_muxer {
  gens : list G;
  in_evs : list (list E);
  in_evs_lens : list nat;
  in_evs_cur_is : list nat;
  evs_cap : nat;
  pq : prio_queue;
  mstate : muxer_state;
  pending_gen_i : nat
}.
Arguments mk_muxer {G E}.
Arguments gens {G E}. Arguments in_evs {G E}. Arguments in_evs_lens {G E}.
Arguments in_evs_cur_is {G E}. Arguments evs_cap {G E}. Arguments pq {G E}.
Arguments mstate {G E}. Arguments pending_gen_i {G E}.

Section Muxer.
Context {G E : Type} `{Generator G E} (tstamp : E -> Z).
Notation muxer := (actf_muxer G E).

Definition gens_len (m : muxer) : nat := length (gens m).

(** ** Assignments to the members *)
Definition set_gens (x : list G) (m : muxer) : muxer :=
  mk_muxer x (in_evs m) (in_evs_lens m) (in_evs_cur_is m) (evs_cap m) (pq m) (mstate m) (pending_gen_i m).
Definition set_in_evs (x : list (list E)) (lens : list nat) (m : muxer) : muxer :=
  mk_muxer (gens m) x lens (in_evs_cur_is m) (evs_cap m) (pq m) (mstate m) (pending_gen_i m).
Definition set_cur_is (x : list nat) (m : muxer) : muxer :=
  mk_muxer (gens m) (in_evs m) (in_evs_lens m) x (evs_cap m) (pq m) (mstate m) (pending_gen_i m).
Definition set_pq (x : prio_queue) (m : muxer) : muxer :=
  mk_muxer (gens m) (in_evs m) (in_evs_lens m) (in_evs_cur_is m) (evs_cap m) x (mstate m) (pending_gen_i m).
Definition set_state (x : muxer_state) (m : muxer) : muxer :=
  mk_muxer (gens m) (in_evs m) (in_evs_lens m) (in_evs_cur_is m) (evs_cap m) (pq m) x (pending_gen_i m).
Definition set_pending_gen (x : nat) (m : muxer) : muxer :=
  mk_muxer (gens m) (in_evs m) (in_evs_lens m) (in_evs_cur_is m) (evs_cap m) (pq m) (mstate m) x.

(** ** Operations *)

(** [None] is [NULL]: [oom] says that an allocation other than the queue's
    fails, [pq_slots] is the queue's memory and [in_evs0] what [malloc] left
    in the array of buffers. *)
Definition actf_muxer_init (oom : bool) (pq_slots : option (list node)) (in_evs0 : list (list E))
    (gens : list G) (cap : nat) : option muxer :=
  if oom then None
  else
    let cap := if (cap =? 0)%nat then ACTF_DEFAULT_EVS_CAP else cap in
    match prio_queue_init pq_slots (length gens) with
    | Ok q => Some (mk_muxer gens in_evs0 (replicate (length gens) 0%nat)
                      (replicate (length gens) 0%nat) cap q MUXER_STATE_FRESH (length gens))
    | _ => None
    end.

Definition has_pending_gen (m : muxer) : bool := (pending_gen_i m <? gens_len m)%nat.
Definition set_no_pending_gen (m : muxer) : muxer := set_pending_gen (gens_len m) m.

Definition pq_push (n : node) : st muxer unit := fun m =>
  match prio_queue_push_unchecked n (pq m) with
  | Ok q => (Ok tt, set_pq q m)
  | Err rc => (Err rc, m)
  | Undef => (Undef, m)
  end.

Definition pq_pop : st muxer node := fun m =>
  match prio_queue_pop_unchecked (pq m) with
  | Ok (n, q) => (Ok n, set_pq q m)
  | Err rc => (Err rc, m)
  | Undef => (Undef, m)
  end.

(** [m->gens[gen_i].generate(...)]. *)
Definition gen_generate (gen_i : nat) : st muxer (list E) := fun m =>
  match gens m !! gen_i with
  | None => (Undef, m)
  | Some g => let '(r, g') := generate g in (r, set_gens (<[gen_i := g']> (gens m)) m)
  end.

Definition push_fresh_evs_to_pq (gen_i : nat) : st muxer unit := fun m =>
  let m := set_cur_is (<[gen_i := 0%nat]> (in_evs_cur_is m)) m in
  match gen_generate gen_i m with
  | (Err rc, m) => (Err rc, set_state MUXER_STATE_ERROR m)
  | (Undef, m) => (Undef, m)
  | (Ok evs, m) =>
      let m := set_in_evs (<[gen_i := evs]> (in_evs m)) (<[gen_i := length evs]> (in_evs_lens m)) m in
      match evs with
      | [] => (Ok tt, m)
      | e :: _ => pq_push (mk_node (tstamp e) gen_i) m
      end
  end.

(** [for (i = 0; i < m->gens_len; i++) push_fresh_evs_to_pq(m, i)]. *)
Fixpoint push_all_fresh (idxs : list nat) : st muxer unit :=
  match idxs with
  | [] => mret tt
  | i :: idxs' => push_fresh_evs_to_pq i;; push_all_fresh idxs'
  end.

(** The loop of [actf_muxer_mux], [n] iterations left: the events written to
    the output buffer. *)
Fixpoint mux_loop (n : nat) : st muxer (list E) :=
  match n with
  | O => mret []
  | S n' =>
      m ← st_get;
      if (0 <? pq_len (pq m))%nat then
        nd ← pq_pop;
        m ← st_get;
        match in_evs m !! value nd, in_evs_lens m !! value nd, in_evs_cur_is m !! value nd with
        | Some in_evs, Some in_evs_len, Some in_evs_i =>
            match in_evs !! in_evs_i with
            | None => st_undef
            | Some e =>
                let in_evs_i := S in_evs_i in
                st_modify (fun m => set_cur_is (<[value nd := in_evs_i]> (in_evs_cur_is m)) m);;
                if (in_evs_i <? in_evs_len)%nat then
                  match in_evs !! in_evs_i with
                  | None => st_undef
                  | Some e' =>
                      pq_push (mk_node (tstamp e') (value nd));;
                      out ← mux_loop n'; mret (e :: out)
                  end
                else
                  st_modify (set_pending_gen (value nd));; mret [e]
            end
        | _, _, _ => st_undef
        end
      else mret []
  end.

(** The [MUXER_STATE_ONGOING] case. *)
Definition mux_ongoing : st muxer (list E) :=
  m ← st_get;
  (if has_pending_gen m then
     push_fresh_evs_to_pq (pending_gen_i m);; st_modify set_no_pending_gen
   else mret tt);;
  out ← mux_loop (evs_cap m);
  (if (length out =? 0)%nat && (0 <? evs_cap m)%nat
   then st_modify (set_state MUXER_STATE_DONE) else mret tt);;
  mret out.

Definition actf_muxer_mux : st muxer (list E) :=
  m ← st_get;
  match mstate m with
  | MUXER_STATE_FRESH =>
      push_all_fresh (seq 0 (gens_len m));;
      st_modify (set_state MUXER_STATE_ONGOING);;
      mux_ongoing
  | MUXER_STATE_ONGOING => mux_ongoing
  | MUXER_STATE_DONE => mret []
  | MUXER_STATE_ERROR => st_fail ACTF_ERROR
  end.

Definition muxer_reset (m : muxer) : muxer :=
  let m := set_no_pending_gen m in
  let m := set_pq (prio_queue_clear (pq m)) m in
  let m := set_state MUXER_STATE_FRESH m in
  let m := set_in_evs (in_evs m) (replicate (gens_len m) 0%nat) m in
  set_cur_is (replicate (gens_len m) 0%nat) m.

Fixpoint seek_all (t : Z) (idxs : list nat) : st muxer unit :=
  match idxs with
  | [] => mret tt
  | i :: idxs' => fun m =>
      match gens m !! i with
      | None => (Undef, m)
      | Some g =>
          match seek_ns_from_origin t g with
          | (Ok _, g') => seek_all t idxs' (set_gens (<[i := g']> (gens m)) m)
          | (Err rc, g') => (Err rc, set_state MUXER_STATE_ERROR (set_gens (<[i := g']> (gens m)) m))
          | (Undef, g') => (Undef, m)
          end
      end
  end.

Definition actf_muxer_seek_ns_from_origin (t : Z) : st muxer unit :=
  m ← st_get; seek_all t (seq 0 (gens_len m));; st_modify muxer_reset.

#[export] Instance actf_muxer_to_generator : Generator muxer E := {
  generate := actf_muxer_mux;
  seek_ns_from_origin := actf_muxer_seek_ns_from_origin
}.

(** ** Invariant *)

(** [D i g es]: generator [i], in the state [g], still yields [es]; [idle i g] is what is known of
    it whatever the muxer has done with it.  For that it drains, [D] is [drains]. *)
Context (D : nat -> G -> list E -> Prop) (idle : nat -> G -> Prop).
Definition yields_step : Prop := forall i g es, D i g es ->
  idle i g /\ exists evs g', generate g = (Ok evs, g') /\
    (evs = [] /\ es = [] /\ idle i g' \/ evs <> [] /\ exists rest, D i g' rest /\ es = evs ++ rest).
Hypothesis D_step : yields_step.

Lemma D_idle i g es : D i g es -> idle i g.
Proof. by intros [? _]%D_step. Qed.

(** The events of generator [i] that are fetched and not yet output. *)
Definition rem (m : muxer) (i : nat) : list E := drop (in_evs_cur_is m !!! i) (in_evs m !!! i).

Record shape (m : muxer) : Prop := {
  sh_in_evs : length (in_evs m) = gens_len m;
  sh_lens : length (in_evs_lens m) = gens_len m;
  sh_cur : length (in_evs_cur_is m) = gens_len m;
  sh_pq : pq_wf (pq m);
  sh_cap : cap (pq m) = gens_len m
}.

(** [ess] are the events still to come, by generator; the generators of [P]
    have no buffered events and are not in the queue. *)
Record inv (P : nat -> Prop) (m : muxer) (ess : list (list E)) : Prop := {
  inv_shape : shape m;
  inv_ess : length ess = gens_len m;
  inv_unfetched : forall i g es,
    P i -> gens m !! i = Some g -> ess !! i = Some es -> D i g es;
  inv_len : forall i, (i < gens_len m)%nat -> ~ P i -> in_evs_lens m !!! i = length (in_evs m !!! i);
  inv_fetched : forall i g es, ~ P i -> gens m !! i = Some g -> ess !! i = Some es ->
    exists fut, es = rem m i ++ fut /\ (rem m i = [] -> fut = []) /\ (rem m i <> [] -> D i g fut);
  inv_nodup : NoDup (value <$> pq_elems (pq m));
  inv_queued : forall nd, nd ∈ pq_elems (pq m) ->
    (value nd < gens_len m)%nat /\ ~ P (value nd) /\
    exists e es, rem m (value nd) = e :: es /\ key nd = tstamp e;
  inv_all_queued : forall i, (i < gens_len m)%nat -> ~ P i -> rem m i <> [] ->
    i ∈ value <$> pq_elems (pq m);
  inv_idle : forall i g, gens m !! i = Some g -> idle i g
}.

(** The projections of the assignments. *)
Ltac mx := cbn [gens in_evs in_evs_lens in_evs_cur_is evs_cap pq mstate pending_gen_i
                set_gens set_in_evs set_cur_is set_pq set_state set_pending_gen] in *.

Lemma nodup_bounded (l : list nat) n : NoDup l -> (forall x, x ∈ l -> (x < n)%nat) -> (length l <= n)%nat.
Proof.
  intros Hnd Hb. rewrite <- (length_seq n 0). apply submseteq_length, NoDup_submseteq; [done|].
  intros x Hx. apply elem_of_seq. specialize (Hb x Hx). lia.
Qed.

Lemma elems_length q : pq_wf q -> length (pq_elems q) = pq_len q.
Proof. intros [Hs Hf _]. unfold pq_elems. rewrite length_take. lia. Qed.

(** A generator that is not queued leaves room for itself. *)
Lemma queue_room (P : nat -> Prop) m ess k :
  inv P m ess -> (k < gens_len m)%nat -> k ∉ value <$> pq_elems (pq m) ->
  (pq_len (pq m) < cap (pq m))%nat.
Proof.
  intros [[] ? ? ? ? Hnd Hq _ _] Hk Hni. rewrite sh_cap0, <- (elems_length (pq m)) by done.
  rewrite <- (length_fmap value). change (length (k :: (value <$> pq_elems (pq m))) <= gens_len m)%nat.
  apply nodup_bounded; [by constructor|].
  intros x [->|Hx]%elem_of_cons; [done|]. apply list_elem_of_fmap in Hx as (nd & -> & Hx).
  by apply Hq.
Qed.

Lemma lookup_lens (m : muxer) i :
  shape m -> (i < gens_len m)%nat ->
  in_evs m !! i = Some (in_evs m !!! i) /\ in_evs_lens m !! i = Some (in_evs_lens m !!! i) /\
  in_evs_cur_is m !! i = Some (in_evs_cur_is m !!! i).
Proof. intros [] Hi. rewrite !list_lookup_lookup_total_lt by lia. done. Qed.

(** Changing the buffers of [k] does not change those of the others. *)
Lemma rem_frame (m m' : muxer) k i :
  in_evs m' !!! i = in_evs m !!! i -> in_evs_cur_is m' !!! i = in_evs_cur_is m !!! i ->
  i <> k -> rem m' i = rem m i.
Proof. intros E1 E2 _. unfold rem. by rewrite E1, E2. Qed.

(** The state after [generate] returned [evs] to generator [k]'s buffer. *)
Definition fetched (k : nat) (g : G) (evs : list E) (m : muxer) : muxer :=
  mk_muxer (<[k := g]> (gens m)) (<[k := evs]> (in_evs m)) (<[k := length evs]> (in_evs_lens m))
    (<[k := 0%nat]> (in_evs_cur_is m)) (evs_cap m) (pq m) (mstate m) (pending_gen_i m).

Lemma push_fresh_run m k g g' evs :
  gens m !! k = Some g -> generate g = (Ok evs, g') ->
  push_fresh_evs_to_pq k m =
    match evs with
    | [] => (Ok tt, fetched k g' evs m)
    | e :: _ => pq_push (mk_node (tstamp e) k) (fetched k g' evs m)
    end.
Proof. intros Hg Hrun. unfold push_fresh_evs_to_pq, gen_generate. mx. by rewrite Hg, Hrun. Qed.

Lemma gens_len_fetched k g evs m : gens_len (fetched k g evs m) = gens_len m.
Proof. unfold gens_len. apply length_insert. Qed.

Lemma fetched_shape k g evs m : shape m -> shape (fetched k g evs m).
Proof.
  intros []. split; rewrite ?gens_len_fetched; cbn [fetched in_evs in_evs_lens in_evs_cur_is pq];
    rewrite ?length_insert; done.
Qed.

Lemma rem_fetched k g evs m i :
  shape m -> (k < gens_len m)%nat -> rem (fetched k g evs m) i = if decide (i = k) then evs else rem m i.
Proof.
  intros [] Hk. unfold rem. cbn [fetched in_evs in_evs_cur_is]. destruct (decide (i = k)) as [->|].
  - rewrite !list_lookup_total_insert_eq by lia. done.
  - by rewrite !list_lookup_total_insert_ne.
Qed.

Lemma rem_set_pq q m i : rem (set_pq q m) i = rem m i.
Proof. done. Qed.

(** [push_fresh_evs_to_pq]: the generator is fetched and, when it has events,
    queued. *)
(** Fetching the array [evs] of generator [k], whatever the queue [q] became, so
    long as it holds the first event of the array and what it held before. *)
Lemma fetched_inv (P : nat -> Prop) m ess k es g' evs q :
  inv P m ess -> P k -> (k < gens_len m)%nat -> ess !! k = Some es ->
  (evs = [] /\ es = [] /\ idle k g' \/ evs <> [] /\ exists rest, D k g' rest /\ es = evs ++ rest) ->
  pq_wf q -> cap q = cap (pq m) -> NoDup (value <$> pq_elems q) ->
  (forall nd, nd ∈ pq_elems q -> nd ∈ pq_elems (pq m) \/ exists e es', evs = e :: es' /\ nd = mk_node (tstamp e) k) ->
  (forall nd, nd ∈ pq_elems (pq m) -> nd ∈ pq_elems q) ->
  (evs <> [] -> k ∈ value <$> pq_elems q) ->
  inv (fun i => P i /\ i <> k) (set_pq q (fetched k g' evs m)) ess.
Proof.
  intros [Hsh Hne Hun Hlen Hfe Hnd Hq Haq Hid] HP Hk Hes Hstep Hqwf Hqcap Hqnd Hqin Hqsub Hqk. set (m1 := fetched k g' evs m).
  pose proof (fetched_shape k g' evs m Hsh) as Hsh1.
  assert (Hlk : forall i, i <> k -> gens m1 !! i = gens m !! i)
    by (intros i Hi; by apply list_lookup_insert_ne).
  assert (Hgl : gens_len (set_pq q m1) = gens_len m) by apply gens_len_fetched.
  split; rewrite ?Hgl.
  - destruct Hsh1. split; try done. mx. unfold m1 in *. rewrite Hgl. destruct Hsh. congruence.
  - done.
  - intros i gi esi [HPi Hik] Hgi Hesi. mx. rewrite Hlk in Hgi by done. by apply (Hun i gi esi).
  - intros i Hi Hn. unfold m1. cbn [set_pq fetched in_evs in_evs_lens].
    destruct Hsh. destruct (decide (i = k)) as [->|].
    + by rewrite !list_lookup_total_insert_eq by lia.
    + rewrite !list_lookup_total_insert_ne by done. apply Hlen; [done|]. tauto.
  - intros i gi esi Hn Hgi Hesi. rewrite rem_set_pq. unfold m1. rewrite rem_fetched by done.
    destruct (decide (i = k)) as [->|].
    + rewrite Hes in Hesi. injection Hesi as <-.
      assert (gi = g') as ->.
      { cbn [set_pq gens m1 fetched] in Hgi. rewrite list_lookup_insert_eq in Hgi by done. congruence. }
      destruct Hstep as [(-> & -> & _)|(Hne' & rest & Hd & ->)]; [by exists []|]. exists rest. done.
    + mx. rewrite Hlk in Hgi by done. apply (Hfe i gi esi); [tauto|done|done].
  - done.
  - intros nd Hin. rewrite rem_set_pq. unfold m1. rewrite rem_fetched by done. mx.
    destruct (Hqin nd Hin) as [Hold|(e & es' & -> & ->)].
    + destruct (Hq nd Hold) as (Hv & HnP & Hr).
      assert (value nd <> k) by (intros E1; apply HnP; by rewrite E1).
      destruct (decide (value nd = k)); [done|]. split; [done|]. split; [tauto|done].
    + cbn [value key]. destruct (decide (k = k)); [|done]. split; [done|]. split; [tauto|].
      by exists e, es'.
  - intros i Hi Hn. rewrite rem_set_pq. unfold m1. rewrite rem_fetched by done. mx.
    destruct (decide (i = k)) as [->|Hik]; [done|]. intros Hr.
    pose proof (Haq i Hi ltac:(tauto) Hr) as Hin.
    apply list_elem_of_fmap in Hin as (nd & -> & Hin). apply list_elem_of_fmap_2. by apply Hqsub.
  - intros i gi Hgi. destruct (decide (i = k)) as [->|Hik]; [|mx; rewrite Hlk in Hgi by done; by apply Hid].
    cbn [set_pq gens m1 fetched] in Hgi. rewrite list_lookup_insert_eq in Hgi by done. injection Hgi as <-.
    destruct Hstep as [(_ & _ & ?)|(_ & rest & Hd & _)]; [done|by eapply D_idle].
Qed.

Lemma push_fresh_inv (P : nat -> Prop) m ess k es :
  inv P m ess -> P k -> ess !! k = Some es ->
  exists m', push_fresh_evs_to_pq k m = (Ok tt, m') /\ inv (fun i => P i /\ i <> k) m' ess /\
    mstate m' = mstate m /\ pending_gen_i m' = pending_gen_i m /\ evs_cap m' = evs_cap m /\
    gens_len m' = gens_len m.
Proof.
  intros Hinv HP Hes. pose proof Hinv as [Hsh Hne Hun Hlen Hfe Hnd Hq Haq _].
  assert (Hk : (k < gens_len m)%nat) by (rewrite <- Hne; by eapply lookup_lt_Some).
  destruct (lookup_lt_is_Some_2 (gens m) k Hk) as [g Hg].
  destruct (D_step k g es (Hun k g es HP Hg Hes)) as (_ & evs & g' & Hrun & Hstep).
  assert (Hni : k ∉ value <$> pq_elems (pq m)).
  { intros Hin. apply list_elem_of_fmap in Hin as (nd & E1 & Hin). apply Hq in Hin as (_ & Hn & _).
    by rewrite <- E1 in Hn. }
  pose proof (queue_room P m ess k Hinv Hk Hni) as Hroom.
  rewrite (push_fresh_run m k g g' evs Hg Hrun).
  set (m1 := fetched k g' evs m).
  assert (Hbase := fun q => fetched_inv P m ess k es g' evs q Hinv HP Hk Hes Hstep). fold m1 in Hbase.
  destruct Hsh. destruct evs as [|e evs].
  - exists m1. split; [done|]. split; [|split_and!; try done; apply gens_len_fetched].
    apply (Hbase (pq m)); naive_solver.
  - destruct (pq_push_spec (mk_node (tstamp e) k) (pq m) sh_pq0 Hroom) as (q & Hpush & Hwf & Hel & Hc & _).
    exists (set_pq q m1). split; [unfold pq_push, m1; cbn [fetched pq]; by rewrite Hpush|].
    split; [|split_and!; try done; apply gens_len_fetched]. apply Hbase; try done.
    + rewrite Hel. simpl. by constructor.
    + intros nd. rewrite Hel, elem_of_cons. intros [->|?]; [right; by eexists _, _|by left].
    + intros nd ?. rewrite Hel. by apply elem_of_cons; right.
    + intros _. rewrite Hel. simpl. by apply elem_of_cons; left.
Qed.

Lemma inv_ext (P Q : nat -> Prop) m ess :
  (forall i, (i < gens_len m)%nat -> P i <-> Q i) -> inv P m ess -> inv Q m ess.
Proof.
  intros HPQ [Hsh Hne Hun Hlen Hfe Hnd Hq Haq Hid].
  assert (Hb : forall i g, gens m !! i = Some g -> (i < gens_len m)%nat)
    by (intros i g Hg; by eapply lookup_lt_Some).
  split; try done.
  - intros i g es Hi Hg. apply (Hun i g); [|done]. apply HPQ; [by eapply Hb|done].
  - intros i Hi Hn. apply Hlen; [done|]. by rewrite HPQ.
  - intros i g es Hn Hg. apply (Hfe i g); [|done]. rewrite HPQ; [done|by eapply Hb].
  - intros nd Hin. destruct (Hq nd Hin) as (Hv & Hn & Hr). split; [done|]. split; [|done].
    by rewrite <- HPQ.
  - intros i Hi Hn. apply Haq; [done|]. by rewrite HPQ.
Qed.

(** Assigning the state or the pending generator keeps the invariant. *)
Lemma inv_set_state P s m ess : inv P m ess -> inv P (set_state s m) ess.
Proof. intros [[] Hne Hun Hlen Hfe Hnd Hq Haq Hid]. split; try done. Qed.

Lemma inv_set_pending P p m ess : inv P m ess -> inv P (set_pending_gen p m) ess.
Proof. intros [[] Hne Hun Hlen Hfe Hnd Hq Haq Hid]. split; try done. Qed.

Lemma push_all_inv n k m ess :
  inv (fun i => (k <= i)%nat) m ess -> (k + n = gens_len m)%nat ->
  exists m', push_all_fresh (seq k n) m = (Ok tt, m') /\ inv (fun _ => False) m' ess /\
    evs_cap m' = evs_cap m /\ pending_gen_i m' = pending_gen_i m /\ gens_len m' = gens_len m.
Proof.
  revert k m. induction n as [|n IH]; intros k m Hinv Hk.
  - exists m. split; [done|]. split; [|done]. revert Hinv. apply inv_ext. intros i Hi. lia.
  - destruct (lookup_lt_is_Some_2 ess k) as [es Hes]; [destruct Hinv; lia|].
    destruct (push_fresh_inv _ m ess k es Hinv ltac:(cbv beta; lia) Hes)
      as (m1 & Hrun & Hinv1 & Hst & Hpe & Hcap & Hgl).
    destruct (IH (S k) m1) as (m2 & Hrun2 & Hinv2 & Hcap2 & Hpe2 & Hgl2).
    + revert Hinv1. apply inv_ext. intros i Hi. lia.
    + lia.
    + exists m2. simpl seq. cbn [push_all_fresh]. rewrite (st_bind_ok _ _ _ _ _ Hrun), Hrun2.
      split_and!; try done; congruence.
Qed.

(** The queue without its least element [nd], of generator [value nd]. *)
Lemma pop_min m ess :
  inv (fun _ => False) m ess -> (0 < pq_len (pq m))%nat ->
  exists nd q e es rest,
    pq_pop m = (Ok nd, set_pq q m) /\ pq_wf q /\ cap q = cap (pq m) /\
    pq_elems (pq m) ≡ₚ nd :: pq_elems q /\ (value nd < gens_len m)%nat /\
    value nd ∉ value <$> pq_elems q /\
    rem m (value nd) = e :: es /\ ess !! value nd = Some (e :: rest) /\
    (forall j e' es', ess !! j = Some (e' :: es') -> tstamp e <= tstamp e').
Proof.
  intros [Hsh Hne Hun Hlen Hfe Hnd Hq Haq _] Hpos.
  destruct (pq_pop_spec (pq m) (sh_pq _ Hsh) Hpos) as (nd & q & Hpop & Hwf & Hel & Hc & _ & Hmin).
  assert (Hin : nd ∈ pq_elems (pq m)) by (rewrite Hel; apply elem_of_cons; by left).
  destruct (Hq nd Hin) as (Hv & _ & e & es & Hr & Hkey).
  assert (Hst : forall j es', ess !! j = Some es' ->
    exists fut, es' = rem m j ++ fut /\ (rem m j = [] -> fut = [])).
  { intros j es' Hj. assert (Hjl : (j < gens_len m)%nat) by (rewrite <- Hne; by eapply lookup_lt_Some).
    destruct (lookup_lt_is_Some_2 (gens m) j Hjl) as [g Hg].
    destruct (Hfe j g es' ltac:(tauto) Hg Hj) as (fut & -> & Hn & _). by exists fut. }
  destruct (lookup_lt_is_Some_2 ess (value nd)) as [es0 Hes0]; [lia|].
  destruct (Hst _ _ Hes0) as (fut & -> & _). rewrite Hr in Hes0.
  exists nd, q, e, es, (es ++ fut). split_and!; try done.
  - unfold pq_pop. by rewrite Hpop.
  - rewrite Hel in Hnd. simpl in Hnd. by apply NoDup_cons_1_1 in Hnd.
  - intros j e' es' Hj. destruct (Hst _ _ Hj) as (fut' & Heq & Hnil).
    assert (Hjl : (j < gens_len m)%nat) by (rewrite <- Hne; by eapply lookup_lt_Some).
    destruct (rem m j) as [|x xs] eqn:Hrj; [rewrite Hnil in Heq; done|].
    injection Heq as <- ->.
    pose proof (Haq j Hjl ltac:(tauto) ltac:(by rewrite Hrj)) as Hjq.
    apply list_elem_of_fmap in Hjq as (nd' & -> & Hin').
    destruct (Hq nd' Hin') as (_ & _ & e2 & es2 & Hr2 & Hk2). rewrite Hrj in Hr2.
    injection Hr2 as <- <-. rewrite <- Hkey, <- Hk2.
    rewrite Forall_forall in Hmin. by apply Hmin, list_elem_of_In.
Qed.

(** The state after the first event of generator [k] was taken. *)
Definition advanced (k : nat) (q : prio_queue) (m : muxer) : muxer :=
  set_cur_is (<[k := S (in_evs_cur_is m !!! k)]> (in_evs_cur_is m)) (set_pq q m).

Lemma rem_advanced k q m e es i :
  shape m -> (k < gens_len m)%nat -> rem m k = e :: es ->
  rem (advanced k q m) i = if decide (i = k) then es else rem m i.
Proof.
  intros [] Hk Hr. unfold rem, advanced in *. mx. destruct (decide (i = k)) as [->|].
  - rewrite list_lookup_total_insert_eq by lia.
    replace (S (in_evs_cur_is m !!! k)) with (in_evs_cur_is m !!! k + 1)%nat by lia.
    by rewrite <- drop_drop, Hr.
  - by rewrite list_lookup_total_insert_ne.
Qed.

(** Taking the event keeps the invariant, [k] being queued again or, when its
    buffer is used up, out of the queue with its generator to be polled. *)
Lemma advance_inv m ess k e es rest q :
  inv (fun _ => False) m ess -> (k < gens_len m)%nat -> rem m k = e :: es ->
  ess !! k = Some (e :: rest) -> pq_wf q -> cap q = cap (pq m) -> NoDup (value <$> pq_elems q) ->
  (forall nd, nd ∈ pq_elems q -> nd ∈ pq_elems (pq m) /\ value nd <> k \/
     exists e' es', es = e' :: es' /\ nd = mk_node (tstamp e') k) ->
  (forall nd, nd ∈ pq_elems (pq m) -> value nd <> k -> nd ∈ pq_elems q) ->
  (es <> [] -> k ∈ value <$> pq_elems q) ->
  inv (fun i => i = k /\ es = []) (advanced k q m) (<[k := rest]> ess).
Proof.
  intros [Hsh Hne Hun Hlen Hfe Hnd Hq Haq Hid] Hk Hr Hess Hqwf Hqcap Hqnd Hqin Hqsub Hqk.
  destruct (lookup_lt_is_Some_2 (gens m) k Hk) as [g Hg].
  destruct (Hfe k g _ ltac:(tauto) Hg Hess) as (fut & Heq & _ & Hdr). rewrite Hr in Heq, Hdr.
  injection Heq as ->. specialize (Hdr ltac:(done)).
  assert (Hlt : (k < length ess)%nat) by lia.
  assert (Hra : forall i, rem (advanced k q m) i = if decide (i = k) then es else rem m i)
    by (intros i; by eapply rem_advanced).
  split; change (gens_len (advanced k q m)) with (gens_len m).
  - destruct Hsh. split; try done; change (gens_len (advanced k q m)) with (gens_len m);
      unfold advanced; mx; rewrite ?length_insert; congruence.
  - by rewrite length_insert.
  - intros i gi esi [-> ->] Hgi Hesi. change (gens (advanced k q m)) with (gens m) in Hgi.
    rewrite list_lookup_insert_eq in Hesi by done. simplify_eq. done.
  - intros i Hi Hn. apply Hlen; [done|tauto].
  - intros i gi esi Hn Hgi Hesi. change (gens (advanced k q m)) with (gens m) in Hgi.
    rewrite Hra. destruct (decide (i = k)) as [->|].
    + rewrite list_lookup_insert_eq in Hesi by done. simplify_eq. exists fut.
      split; [done|]. split; [|done]. intros ->. tauto.
    + rewrite list_lookup_insert_ne in Hesi by done. apply (Hfe i gi esi); [tauto|done|done].
  - done.
  - intros nd Hin. rewrite Hra. destruct (Hqin nd Hin) as [[Hold Hnk]|(e' & es' & -> & ->)].
    + destruct (Hq nd Hold) as (Hv & _ & Hx). destruct (decide (value nd = k)); [done|].
      split; [done|]. split; [tauto|done].
    + cbn [value key]. destruct (decide (k = k)); [|done]. split; [done|].
      split; [intros [_ ?]; done|by exists e', es'].
  - intros i Hi Hn. rewrite Hra. destruct (decide (i = k)) as [->|Hik]; [done|].
    intros Hri. pose proof (Haq i Hi ltac:(tauto) Hri) as Hin.
    apply list_elem_of_fmap in Hin as (nd & -> & Hin). apply list_elem_of_fmap_2. by apply Hqsub.
  - exact Hid.
Qed.

(** The array accesses of the loop. *)
Lemma rem_lookup m k e es :
  rem m k = e :: es ->
  (in_evs m !!! k) !! (in_evs_cur_is m !!! k) = Some e /\
  (in_evs m !!! k) !! S (in_evs_cur_is m !!! k) = head es /\
  length (in_evs m !!! k) = (in_evs_cur_is m !!! k + S (length es))%nat.
Proof.
  unfold rem. intros Hr.
  assert (Hl : forall j, (in_evs m !!! k) !! (in_evs_cur_is m !!! k + j)%nat = (e :: es) !! j)
    by (intros j; by rewrite <- Hr, lookup_drop).
  split_and!.
  - rewrite <- (Nat.add_0_r (in_evs_cur_is m !!! k)). by rewrite Hl.
  - rewrite <- Nat.add_1_r, Hl. by destruct es.
  - apply (f_equal length) in Hr. rewrite length_drop in Hr. simpl in Hr. lia.
Qed.

(** When the queue is empty every generator has been drained. *)
Lemma empty_queue_drained m ess : inv (fun _ => False) m ess -> pq_len (pq m) = 0%nat -> Forall (fun es => es = []) ess.
Proof.
  intros [Hsh Hne _ _ Hfe _ _ Haq _] H0. apply Forall_lookup. intros i es Hi.
  assert (Hil : (i < gens_len m)%nat) by (rewrite <- Hne; by eapply lookup_lt_Some).
  destruct (lookup_lt_is_Some_2 (gens m) i Hil) as [g Hg].
  destruct (Hfe i g es ltac:(tauto) Hg Hi) as (fut & -> & Hn & _).
  destruct (rem m i) eqn:Hr; [by rewrite Hn|]. exfalso.
  pose proof (Haq i Hil ltac:(tauto) ltac:(by rewrite Hr)) as Hin.
  apply list_elem_of_fmap in Hin as (nd & _ & Hin). unfold pq_elems in Hin. rewrite H0 in Hin. by apply not_elem_of_nil in Hin.
Qed.

(** The next event [e'] of the generator whose event was popped is queued. *)
Lemma requeue_inv m ess nd q e e' es rest :
  inv (fun _ => False) m ess -> (value nd < gens_len m)%nat -> rem m (value nd) = e :: e' :: es ->
  ess !! value nd = Some (e :: rest) -> pq_wf q -> cap q = cap (pq m) -> pq_elems (pq m) ≡ₚ nd :: pq_elems q ->
  value nd ∉ value <$> pq_elems q ->
  exists m1, pq_push (mk_node (tstamp e') (value nd)) (advanced (value nd) q m) = (Ok tt, m1) /\
    inv (fun _ => False) m1 (<[value nd := rest]> ess) /\
    evs_cap m1 = evs_cap m /\ mstate m1 = mstate m /\ gens_len m1 = gens_len m /\ pending_gen_i m1 = pending_gen_i m.
Proof.
  intros Hinv Hv Hr Hess Hqwf Hqc Hel Hni. pose proof Hinv as [Hsh _ _ _ _ Hnd _ _ _].
  rewrite Hel in Hnd. cbn in Hnd. apply NoDup_cons_1_2 in Hnd.
  assert (Hroom : (pq_len q < cap q)%nat).
  { rewrite Hqc. destruct (sh_pq _ Hsh). rewrite <- (elems_length q) by done.
    pose proof (elems_length (pq m) (sh_pq _ Hsh)) as E1. rewrite Hel in E1. simpl in E1. lia. }
  destruct (pq_push_spec (mk_node (tstamp e') (value nd)) q Hqwf Hroom) as (q2 & Hpush & Hwf2 & Hel2 & Hc2 & _).
  exists (advanced (value nd) q2 m). split; [unfold pq_push, advanced; mx; by rewrite Hpush|]. split; [|done].
  eapply inv_ext; [|apply (advance_inv m ess (value nd) e (e' :: es) rest q2 Hinv Hv Hr Hess Hwf2)].
  - intros i _. cbv beta. naive_solver.
  - congruence.
  - rewrite Hel2. by constructor.
  - intros nd'. rewrite Hel2, elem_of_cons. intros [->|Hin]; [right; by eexists _, _|].
    left. split; [rewrite Hel; by apply elem_of_cons; right|].
    intros E1. apply Hni. rewrite <- E1. by apply list_elem_of_fmap_2.
  - intros nd'. rewrite Hel, Hel2, !elem_of_cons. intros [->|?] ?; [done|by right].
  - intros _. rewrite Hel2. simpl. by apply elem_of_cons; left.
Qed.

(** The event was the last that was fetched of its generator, which is to be polled. *)
Lemma last_taken_inv m ess nd q e rest :
  inv (fun _ => False) m ess -> (value nd < gens_len m)%nat -> rem m (value nd) = [e] ->
  ess !! value nd = Some (e :: rest) -> pq_wf q -> cap q = cap (pq m) -> pq_elems (pq m) ≡ₚ nd :: pq_elems q ->
  value nd ∉ value <$> pq_elems q ->
  inv (fun i => i = value nd) (set_pending_gen (value nd) (advanced (value nd) q m)) (<[value nd := rest]> ess).
Proof.
  intros Hinv Hv Hr Hess Hqwf Hqc Hel Hni. pose proof (inv_nodup _ _ _ Hinv) as Hnd.
  rewrite Hel in Hnd. cbn in Hnd. apply NoDup_cons_1_2 in Hnd. apply inv_set_pending.
  eapply inv_ext; [|apply (advance_inv m ess (value nd) e [] rest q Hinv Hv Hr Hess Hqwf Hqc Hnd)].
  - intros i _. cbv beta. tauto.
  - intros nd' Hin. left. split; [rewrite Hel; by apply elem_of_cons; right|].
    intros E1. apply Hni. rewrite <- E1. by apply list_elem_of_fmap_2.
  - intros nd'. rewrite Hel, elem_of_cons. intros [->|?]; done.
  - done.
Qed.

Lemma mux_loop_inv n m ess :
  inv (fun _ => False) m ess -> (gens_len m <= pending_gen_i m)%nat ->
  exists out m' ess', mux_loop n m = (Ok out, m') /\ msteps tstamp ess out ess' /\
    inv (fun i => i = pending_gen_i m') m' ess' /\ evs_cap m' = evs_cap m /\
    mstate m' = mstate m /\
    (out = [] -> (n = 0)%nat \/ Forall (fun es => es = []) ess).
Proof.
  revert m ess. induction n as [|n IH]; intros m ess Hinv Hpe.
  { exists [], m, ess. split; [done|]. split; [constructor|]. split_and!; try done.
    - revert Hinv. apply inv_ext. lia.
    - by left. }
  cbn [mux_loop]. rewrite (st_bind_ok st_get _ m m m) by done.
  destruct (Nat.ltb_spec 0 (pq_len (pq m))) as [Hpos|Hemp].
  2: { exists [], m, ess. split; [done|]. split; [constructor|]. split_and!; try done.
    - revert Hinv. apply inv_ext. lia.
    - intros _. right. apply (empty_queue_drained m ess Hinv). lia. }
  destruct (pop_min m ess Hinv Hpos)
    as (nd & q & e & es & rest & Hpop & Hqwf & Hqc & Hel & Hv & Hni & Hr & Hess & Hmin).
  pose proof Hinv as [Hsh Hne _ Hlen _ _ _ _ _].
  destruct (rem_lookup m (value nd) e es Hr) as (He & He' & Hll).
  rewrite (st_bind_ok _ _ _ _ _ Hpop), (st_bind_ok st_get _ _ (set_pq q m) (set_pq q m)) by done.
  destruct (lookup_lens m (value nd) Hsh Hv) as (L1 & L2 & L3).
  cbn [in_evs in_evs_lens in_evs_cur_is set_pq]. rewrite L1, L2, L3, He.
  rewrite (st_bind_ok (st_modify _) _ _ tt (advanced (value nd) q m)) by done.
  rewrite Hlen, Hll by (done || tauto).
  destruct es as [|e' es].
  - destruct (Nat.ltb_spec (S (in_evs_cur_is m !!! value nd)) (in_evs_cur_is m !!! value nd + S (length (@nil E))))
      as [Hlt|_]; [simpl in Hlt; lia|].
    rewrite (st_bind_ok (st_modify _) _ _ tt (set_pending_gen (value nd) (advanced (value nd) q m))) by done.
    eexists _, _, _. split; [done|]. split.
    { eapply msteps_cons; [exact Hess|exact Hmin|constructor]. }
    split; [|done]. by apply (last_taken_inv m ess nd q e rest).
  - destruct (Nat.ltb_spec (S (in_evs_cur_is m !!! value nd)) (in_evs_cur_is m !!! value nd + S (length (e' :: es))))
      as [_|Hge]; [|simpl in Hge; lia].
    rewrite He'. cbn [head].
    destruct (requeue_inv m ess nd q e e' es rest Hinv Hv Hr Hess Hqwf Hqc Hel Hni) as (m1 & Hpush & Hinv1 & Hm1).
    rewrite (st_bind_ok _ _ _ _ _ Hpush). destruct Hm1 as (Hcap1 & Hst1 & Hgl1 & Hpe1).
    rewrite <- Hgl1, <- Hpe1 in Hpe.
    destruct (IH m1 _ Hinv1 Hpe) as (out & m' & ess' & Hrun & Hms & Hinv' & Hcap & Hst & _).
    rewrite (st_bind_ok _ _ _ _ _ Hrun). eexists _, _, _. split; [done|]. split.
    { eapply msteps_cons; [exact Hess|exact Hmin|exact Hms]. }
    split_and!; try done; congruence.
Qed.

(** A muxer whose generators still have the events [ess]. *)
Definition live (m : muxer) (ess : list (list E)) : Prop :=
  (0 < evs_cap m)%nat /\
  (mstate m = MUXER_STATE_FRESH /\ inv (fun _ => True) m ess /\ pending_gen_i m = gens_len m \/
   mstate m = MUXER_STATE_ONGOING /\ inv (fun i => i = pending_gen_i m) m ess).

Definition all_idle (m : muxer) : Prop := forall i g, gens m !! i = Some g -> idle i g.

Lemma mux_ongoing_inv m ess :
  inv (fun i => i = pending_gen_i m) m ess -> (0 < evs_cap m)%nat -> mstate m = MUXER_STATE_ONGOING ->
  exists out m' ess', mux_ongoing m = (Ok out, m') /\ msteps tstamp ess out ess' /\
    (out = [] -> Forall (fun es => es = []) ess) /\ (out <> [] -> live m' ess') /\ all_idle m'.
Proof.
  intros Hinv Hcap Hst. unfold mux_ongoing. rewrite (st_bind_ok st_get _ m m m) by done.
  assert (Hp : exists m1,
    (if has_pending_gen m then push_fresh_evs_to_pq (pending_gen_i m);; st_modify set_no_pending_gen
     else mret tt) m = (Ok tt, m1) /\
    inv (fun _ => False) m1 ess /\ evs_cap m1 = evs_cap m /\ mstate m1 = mstate m /\
    (gens_len m1 <= pending_gen_i m1)%nat).
  { unfold has_pending_gen. destruct (Nat.ltb_spec (pending_gen_i m) (gens_len m)) as [Hlt|Hge].
    - destruct (lookup_lt_is_Some_2 ess (pending_gen_i m)) as [es Hes]; [destruct Hinv; lia|].
      destruct (push_fresh_inv _ m ess _ es Hinv eq_refl Hes) as (m1 & Hrun & Hinv1 & Hs & _ & Hc & Hgl).
      exists (set_no_pending_gen m1). rewrite (st_bind_ok _ _ _ _ _ Hrun). split; [done|].
      split; [|done]. apply inv_set_pending. revert Hinv1. apply inv_ext. intros i Hi. cbv beta. tauto.
    - exists m. split; [done|]. split; [|done]. revert Hinv. apply inv_ext. lia. }
  destruct Hp as (m1 & Hrun1 & Hinv1 & Hc1 & Hs1 & Hp1).
  rewrite (st_bind_ok _ _ _ _ _ Hrun1).
  destruct (mux_loop_inv (evs_cap m) m1 ess Hinv1 Hp1) as (out & m2 & ess' & Hrun2 & Hms & Hinv2 & Hc2 & Hs2 & Hnil).
  rewrite (st_bind_ok _ _ _ _ _ Hrun2).
  destruct (Nat.ltb_spec 0 (evs_cap m)) as [_|?]; [|lia].
  destruct out as [|e out]; cbn [length Nat.eqb andb].
  - eexists [], _, ess'. split; [done|]. split; [done|]. split; [|split; [done|exact (inv_idle _ _ _ Hinv2)]].
    intros _. destruct Hnil; [done|lia|done].
  - exists (e :: out), m2, ess'. split; [done|]. split; [done|]. split; [done|]. split; [|exact (inv_idle _ _ _ Hinv2)].
    intros _. split; [congruence|]. right. split; [congruence|done].
Qed.

Lemma mux_step m ess :
  live m ess ->
  exists out m' ess', actf_muxer_mux m = (Ok out, m') /\ msteps tstamp ess out ess' /\
    (out = [] -> Forall (fun es => es = []) ess) /\ (out <> [] -> live m' ess') /\ all_idle m'.
Proof.
  intros [Hcap [(Hst & Hinv & Hpe)|(Hst & Hinv)]]; unfold actf_muxer_mux;
    rewrite (st_bind_ok st_get _ m m m), Hst by done.
  - destruct (push_all_inv (gens_len m) 0 m ess) as (m1 & Hrun & Hinv1 & Hc & Hp1 & Hg); [|lia|].
    { revert Hinv. apply inv_ext. intros. lia. }
    rewrite (st_bind_ok _ _ _ _ _ Hrun).
    rewrite (st_bind_ok (st_modify _) _ _ tt (set_state MUXER_STATE_ONGOING m1)) by done.
    apply mux_ongoing_inv; [|cbn; lia|done].
    apply inv_set_state. revert Hinv1. apply inv_ext. cbn. intros i Hi. lia.
  - by apply mux_ongoing_inv.
Qed.

Lemma msteps_length ess out ess' :
  msteps tstamp ess out ess' -> (length (concat ess) = length out + length (concat ess'))%nat.
Proof.
  induction 1 as [|ess i e es out ess' Hi Hmin Hms IH]; [done|]. simpl. rewrite <- IH. clear -Hi.
  revert i Hi. induction ess as [|x ess IH]; intros [|i] Hi; try done.
  - injection Hi as ->. done.
  - simpl in Hi |- *. rewrite !length_app, (IH i Hi). lia.
Qed.

(** A live muxer drains to a merge of what is still to come. *)
Lemma live_drains m ess : live m ess -> exists out, drains m out /\ merge tstamp ess out.
Proof.
  remember (length (concat ess)) as n eqn:Hn. revert m ess Hn.
  induction n as [n IH] using lt_wf_ind. intros m ess -> Hlive.
  destruct (mux_step m ess Hlive) as (out & m' & ess' & Hrun & Hms & Hnil & Hmore & _).
  destruct out as [|e out].
  - exists []. split; [by eapply drains_end|]. constructor. by apply Hnil.
  - pose proof (msteps_length _ _ _ Hms) as Hl.
    destruct (IH (length (concat ess')) ltac:(simpl in Hl; lia) m' ess' eq_refl ltac:(by apply Hmore))
      as (out' & Hd & Hm). exists ((e :: out) ++ out'). split.
    + by eapply drains_more.
    + by eapply msteps_merge.
Qed.

(** The generators [gs] yield [ess], one by one. *)
Definition all_yield (gs : list G) (ess : list (list E)) : Prop :=
  length ess = length gs /\ forall i g es, gs !! i = Some g -> ess !! i = Some es -> D i g es.

Lemma fresh_live m ess :
  shape m -> (0 < evs_cap m)%nat -> mstate m = MUXER_STATE_FRESH -> pending_gen_i m = gens_len m ->
  pq_elems (pq m) = [] -> all_yield (gens m) ess -> live m ess.
Proof.
  intros Hsh Hcap Hst Hpe Hq [Hl Hd]. split; [done|]. left. split; [done|]. split; [|done].
  split; try done; try tauto.
  - intros i g es _. apply Hd.
  - rewrite Hq. by constructor.
  - intros nd. rewrite Hq. by intros ?%not_elem_of_nil.
  - intros i g Hg. destruct (lookup_lt_is_Some_2 ess i) as [es Hes]; [rewrite Hl; by eapply lookup_lt_Some|]. by eapply D_idle, Hd.
Qed.

Lemma init_shape oom slots in_evs0 gs n m :
  length in_evs0 = length gs -> (forall sl, slots = Some sl -> length sl = length gs) ->
  actf_muxer_init oom slots in_evs0 gs n = Some m ->
  shape m /\ (0 < evs_cap m)%nat /\ mstate m = MUXER_STATE_FRESH /\ pending_gen_i m = gens_len m /\
  pq_elems (pq m) = [] /\ gens m = gs.
Proof.
  intros Hin Hsl. unfold actf_muxer_init. destruct oom; [done|]. destruct slots as [sl|]; [|done].
  simpl. specialize (Hsl sl eq_refl). destruct (pq_init_spec sl (length gs) _ Hsl eq_refl) as (Hwf & He & Hc).
  intros [= <-]. split_and!; try done.
  - split; unfold gens_len; cbn; rewrite ?length_replicate; done.
  - cbn. destruct (Nat.eqb_spec n 0); [unfold ACTF_DEFAULT_EVS_CAP|]; lia.
Qed.

(** ** Seeking *)

(** The muxer's arrays and queue, whatever its state. *)
Lemma reset_live m ess :
  length (in_evs m) = gens_len m -> pq_wf (pq m) -> cap (pq m) = gens_len m -> (0 < evs_cap m)%nat ->
  all_yield (gens m) ess -> live (muxer_reset m) ess.
Proof.
  intros Hin Hwf Hc Hcap Hd. destruct (pq_clear_spec _ Hwf) as [Hwf' He].
  apply fresh_live; try done.
  split; unfold muxer_reset, set_no_pending_gen, gens_len; mx; rewrite ?length_replicate; done.
Qed.

Lemma seek_all_run t pre gs ess m :
  gens m = pre ++ gs -> Forall2 (fun g es => seeks g t es) gs ess ->
  exists gs', seek_all t (seq (length pre) (length gs)) m = (Ok tt, set_gens (pre ++ gs') m) /\
    Forall2 drains gs' ess.
Proof.
  intros Hg Hs. revert pre m Hg. induction Hs as [|g es gs ess (g' & Hsk & Hd) Hs IH]; intros pre m Hg.
  - exists []. rewrite <- Hg. split; [by destruct m|constructor].
  - simpl seq. cbn [seek_all]. rewrite Hg, list_lookup_middle, Hsk by done.
    destruct (IH (pre ++ [g']) (set_gens (<[length pre:=g']> (gens m)) m)) as (gs' & Hrun & Hall).
    { cbn [set_gens gens]. rewrite Hg, insert_app_r_alt, Nat.sub_diag by lia.
      by rewrite <- app_assoc. }
    exists (g' :: gs'). rewrite length_app, Nat.add_comm in Hrun. simpl in Hrun.
    rewrite <- Hg, Hrun. rewrite <- app_assoc. split; [done|by constructor].
Qed.

(** ** Whatever the outcomes *)

(** The arrays keep their sizes and the queue its heap through every call. *)
Definition arrays_ok (n c : nat) (m : muxer) : Prop :=
  shape m /\ gens_len m = n /\ evs_cap m = c.

Lemma pq_push_keeps n c nd : keeps (arrays_ok n c) (pq_push nd).
Proof.
  intros m ([] & Hn & Hc). unfold pq_push.
  destruct (prio_queue_push_unchecked nd (pq m)) as [q|rc|] eqn:Eq; try done.
  assert (Hlt : (pq_len (pq m) < cap (pq m))%nat).
  { unfold prio_queue_push_unchecked in Eq. destruct (Nat.ltb_spec (pq_len (pq m)) (cap (pq m))); done. }
  destruct (pq_push_spec nd _ sh_pq0 Hlt) as (q' & Eq' & Hwf & _ & Hcap & _).
  rewrite Eq in Eq'. injection Eq' as <-. split_and!; try done. split; cbn; try done. by rewrite Hcap.
Qed.

Lemma pq_pop_keeps n c : keeps (arrays_ok n c) pq_pop.
Proof.
  intros m ([] & Hn & Hc). unfold pq_pop.
  destruct (prio_queue_pop_unchecked (pq m)) as [[nd q]|rc|] eqn:Eq; try done.
  assert (Hlt : (0 < pq_len (pq m))%nat).
  { unfold prio_queue_pop_unchecked in Eq. destruct (Nat.ltb_spec 0 (pq_len (pq m))); done. }
  destruct (pq_pop_spec _ sh_pq0 Hlt) as (nd' & q' & Eq' & Hwf & _ & Hcap & _).
  rewrite Eq in Eq'. injection Eq' as <- <-. split_and!; try done. split; cbn; try done. by rewrite Hcap.
Qed.

Lemma push_fresh_keeps n c k : keeps (arrays_ok n c) (push_fresh_evs_to_pq k).
Proof.
  intros m ([] & Hn & Hc). unfold push_fresh_evs_to_pq, gen_generate. cbn [set_cur_is gens].
  unfold gens_len in *.
  destruct (gens m !! k) as [g|].
  2: { split_and!; try done. split; unfold gens_len; cbn; rewrite ?length_insert; done. }
  destruct (generate g) as [[evs|rc|] g'].
  - destruct evs as [|e evs]; [|apply pq_push_keeps];
      (split_and!; [split|..]; unfold gens_len; cbn; rewrite ?length_insert; done).
  - split_and!; [split|..]; unfold gens_len; cbn; rewrite ?length_insert; done.
  - split_and!; [split|..]; unfold gens_len; cbn; rewrite ?length_insert; done.
Qed.

Lemma push_all_keeps n c idxs : keeps (arrays_ok n c) (push_all_fresh idxs).
Proof. induction idxs; cbn [push_all_fresh]; auto using push_fresh_keeps with st_logic. Qed.

Lemma set_cur_keeps n c k x :
  keeps (arrays_ok n c) (st_modify (fun m => set_cur_is (<[k := x]> (in_evs_cur_is m)) m)).
Proof.
  apply keeps_modify. intros m ([] & Hn & Hc). unfold gens_len in *.
  split_and!; [split|..]; unfold gens_len; cbn; rewrite ?length_insert; done.
Qed.

Lemma set_state_keeps n c s : keeps (arrays_ok n c) (st_modify (set_state s)).
Proof. apply keeps_modify. intros m ([] & Hn & Hc). done. Qed.

Lemma set_pending_keeps n c k : keeps (arrays_ok n c) (st_modify (set_pending_gen k)).
Proof. apply keeps_modify. intros m ([] & Hn & Hc). done. Qed.

Lemma set_no_pending_keeps n c : keeps (arrays_ok n c) (st_modify set_no_pending_gen).
Proof. apply keeps_modify. intros m ([] & Hn & Hc). done. Qed.

Hint Resolve pq_push_keeps pq_pop_keeps push_fresh_keeps push_all_keeps set_cur_keeps
  set_state_keeps set_pending_keeps set_no_pending_keeps : st_logic.

Lemma mux_loop_keeps n c i : keeps (arrays_ok n c) (mux_loop i).
Proof.
  induction i as [|i IH]; cbn [mux_loop]; [auto with st_logic|].
  apply keeps_bind; [auto with st_logic|]. intros m. case_match; [|auto with st_logic].
  apply keeps_bind; [auto with st_logic|]. intros nd. apply keeps_bind; [auto with st_logic|].
  intros m'. repeat case_match; auto 8 with st_logic.
Qed.

Lemma mux_keeps n c : keeps (arrays_ok n c) actf_muxer_mux.
Proof.
  assert (Hon : keeps (arrays_ok n c) mux_ongoing).
  { unfold mux_ongoing. apply keeps_bind; [auto with st_logic|]. intros m.
    apply keeps_bind; [case_match; auto with st_logic|]. intros _.
    apply keeps_bind; [apply mux_loop_keeps|]. intros out.
    apply keeps_bind; [case_match; auto with st_logic|]. auto with st_logic. }
  unfold actf_muxer_mux. apply keeps_bind; [auto with st_logic|]. intros m.
  case_match; auto with st_logic.
Qed.

Lemma reset_keeps n c : keeps (arrays_ok n c) (st_modify muxer_reset).
Proof.
  apply keeps_modify. intros m ([] & Hn & Hc). destruct (pq_clear_spec _ sh_pq0) as [Hwf _].
  split_and!; try done. split; unfold muxer_reset, set_no_pending_gen, gens_len in *; mx;
    rewrite ?length_replicate; done.
Qed.

Lemma seek_all_keeps n c t idxs : keeps (arrays_ok n c) (seek_all t idxs).
Proof.
  induction idxs as [|i idxs IH]; cbn [seek_all]; [auto with st_logic|]. intros m Hok.
  pose proof Hok as ([] & Hn & Hc).
  destruct (gens m !! i) as [g|]; [|done].
  assert (Hs : forall g', arrays_ok n c (set_gens (<[i := g']> (gens m)) m)).
  { intros g'. unfold gens_len in *. split_and!; [split|..]; unfold gens_len; cbn;
      rewrite ?length_insert; done. }
  destruct (seek_ns_from_origin t g) as [[|rc|] g']; [by apply IH| |done].
  destruct (Hs g') as ([] & Hn' & Hc'). done.
Qed.

Lemma seek_keeps n c t : keeps (arrays_ok n c) (actf_muxer_seek_ns_from_origin t).
Proof.
  unfold actf_muxer_seek_ns_from_origin. apply keeps_bind; [auto with st_logic|]. intros m.
  apply keeps_bind; [apply seek_all_keeps|]. intros _. apply reset_keeps.
Qed.

(** A call on a muxer, by a client that may ignore its outcome. *)
Inductive mux_call := CallMux | CallSeek (t : Z).

Definition do_call (o : mux_call) (m : muxer) : muxer :=
  match o with
  | CallMux => snd (actf_muxer_mux m)
  | CallSeek t => snd (actf_muxer_seek_ns_from_origin t m)
  end.

Lemma calls_keep n c os m : arrays_ok n c m -> arrays_ok n c (fold_left (fun m o => do_call o m) os m).
Proof.
  revert m. induction os as [|[|t] os IH]; intros m Hok; simpl; [done| |]; apply IH.
  - by apply mux_keeps.
  - by apply seek_keeps.
Qed.

Definition in_error (m : muxer) : Prop := mstate m = MUXER_STATE_ERROR.

Lemma pq_push_err nd : on_err in_error (pq_push nd).
Proof.
  intros m rc m'. unfold pq_push, prio_queue_push_unchecked. destruct (_ <? _)%nat; intros [=].
Qed.

Lemma pq_pop_err : on_err in_error pq_pop.
Proof.
  intros m rc m'. unfold pq_pop, prio_queue_pop_unchecked. destruct (_ <? _)%nat; intros [=].
Qed.

Lemma push_fresh_err k : on_err in_error (push_fresh_evs_to_pq k).
Proof.
  intros m rc m'. unfold push_fresh_evs_to_pq, gen_generate.
  destruct (gens _ !! k) as [g|]; [|by intros [=]].
  destruct (generate g) as [[[|e evs]|rc'|] g']; [by intros [=]| |by intros [= <- <-]|by intros [=]].
  intros Hp. by apply pq_push_err in Hp.
Qed.

Lemma push_all_err idxs : on_err in_error (push_all_fresh idxs).
Proof. induction idxs; cbn [push_all_fresh]; auto using push_fresh_err with st_logic. Qed.

Hint Resolve pq_push_err pq_pop_err push_fresh_err push_all_err : st_logic.

Lemma mux_loop_err i : on_err in_error (mux_loop i).
Proof.
  induction i as [|i IH]; cbn [mux_loop]; [auto with st_logic|].
  apply on_err_bind; [auto with st_logic|]. intros m. case_match; [|auto with st_logic].
  apply on_err_bind; [auto with st_logic|]. intros nd. apply on_err_bind; [auto with st_logic|].
  intros m'. repeat case_match; auto 8 with st_logic.
Qed.

Lemma mux_err m rc m' : actf_muxer_mux m = (Err rc, m') -> in_error m'.
Proof.
  assert (Hon : on_err in_error mux_ongoing).
  { unfold mux_ongoing. apply on_err_bind; [auto with st_logic|]. intros m0.
    apply on_err_bind; [case_match; auto with st_logic|]. intros _.
    apply on_err_bind; [apply mux_loop_err|]. intros out.
    apply on_err_bind; [case_match; auto with st_logic|]. auto with st_logic. }
  unfold actf_muxer_mux. rewrite (st_bind_ok st_get _ m m m) by done.
  destruct (mstate m) eqn:Es; [|by apply Hon|done|by intros [= <- <-]].
  assert (Hf : on_err in_error (push_all_fresh (seq 0 (gens_len m));;
    st_modify (set_state MUXER_STATE_ONGOING);; mux_ongoing)) by auto with st_logic.
  apply Hf.
Qed.
End Muxer.

(** * The contract of the muxer *)

Lemma list_choose {A B} (P : nat -> A -> B -> Prop) (l : list A) :
  (forall i a, l !! i = Some a -> exists b, P i a b) -> exists k, length l = length k /\ forall i a b, l !! i = Some a -> k !! i = Some b -> P i a b.
Proof.
  revert P. induction l as [|a l IH]; intros P HP; [by exists []|]. destruct (HP 0%nat a eq_refl) as (b & Hb).
  destruct (IH (fun i => P (S i))) as (k & Hl & Hk); [intros i; apply (HP (S i))|]. exists (b :: k). split; [by cbn; f_equal|].
  intros [|i] x y; cbn; [by intros [= <-] [= <-]|apply Hk].
Qed.

Section Contract.
Context {G E : Type} `{Generator G E} (tstamp : E -> Z).
Notation mux_gen := (actf_muxer_to_generator tstamp).

(** Generators that drain. *)
Definition yield_drains (i : nat) (g : G) (es : list E) : Prop := drains g es.
Definition anything (i : nat) (g : G) : Prop := True.
Lemma drains_yield_step : yields_step yield_drains anything.
Proof.
  intros i g es Hd. split; [done|]. destruct (drains_step g es Hd) as (evs & g' & Hg & Hs). exists evs, g'. split; [done|].
  destruct Hs as [[-> ->]|Hs]; [by left|by right].
Qed.
Lemma drains_all_yield gs ess : Forall2 drains gs ess -> all_yield yield_drains gs ess.
Proof. intros Hd. split; [symmetry; by eapply Forall2_length|]. intros i g es Hg Hes. exact (Forall2_lookup_lr _ _ _ _ _ _ Hd Hg Hes). Qed.

(** A new muxer over generators that drain, drains to a merge. *)
Lemma fresh_muxer_drains oom slots in_evs0 (gs : list G) (ess : list (list E)) n m :
  length in_evs0 = length gs -> (forall sl, slots = Some sl -> length sl = length gs) ->
  actf_muxer_init oom slots in_evs0 gs n = Some m -> Forall2 drains gs ess ->
  exists out, @drains _ _ mux_gen m out /\ merge tstamp ess out.
Proof.
  intros Hin Hsl Hinit Hd.
  destruct (init_shape _ _ _ _ _ _ Hin Hsl Hinit) as (Hsh & Hcap & Hst & Hpe & Hq & <-).
  apply (live_drains tstamp _ _ drains_yield_step), (fresh_live _ _ _ drains_yield_step); try done. by apply drains_all_yield.
Qed.

(** A seek that succeeds on every generator starts the muxer over, whatever its state. *)
Lemma muxer_restarts m t ess :
  length (in_evs m) = gens_len m -> pq_wf (pq m) -> cap (pq m) = gens_len m -> (0 < evs_cap m)%nat ->
  Forall2 (fun g es => seeks g t es) (gens m) ess ->
  exists out, @seeks _ _ mux_gen m t out /\ merge tstamp ess out.
Proof.
  intros Hin Hwf Hc Hcap Hs. destruct (seek_all_run t [] (gens m) ess m eq_refl Hs) as (gs' & Hrun & Hd).
  assert (Hl : length gs' = length (gens m)).
  { apply Forall2_length in Hd. apply Forall2_length in Hs. congruence. }
  destruct (live_drains tstamp _ _ drains_yield_step (muxer_reset (set_gens ([] ++ gs') m)) ess) as (out & Ho & Hm).
  { apply (reset_live _ _ _ drains_yield_step); unfold gens_len in *; cbn in *; try done; try lia. by apply drains_all_yield. }
  exists out. split; [|done]. eexists. split; [|exact Ho]. simpl.
  unfold actf_muxer_seek_ns_from_origin. rewrite (st_bind_ok st_get _ m m m) by done.
  by rewrite (st_bind_ok _ _ _ _ _ Hrun).
Qed.

(** A new muxer over generators that can be sought, sought. *)
Lemma fresh_muxer_seeks oom slots in_evs0 (gs : list G) (ess : list (list E)) n m t :
  length in_evs0 = length gs -> (forall sl, slots = Some sl -> length sl = length gs) ->
  actf_muxer_init oom slots in_evs0 gs n = Some m -> Forall2 (fun g es => seeks g t es) gs ess ->
  exists out, @seeks _ _ mux_gen m t out /\ merge tstamp ess out.
Proof.
  intros Hin Hsl Hinit Hs. destruct (init_shape _ _ _ _ _ _ Hin Hsl Hinit) as ([] & Hcap & _ & _ & _ & Hg).
  rewrite <- Hg in Hs. by apply muxer_restarts.
Qed.

(** The first array of a new muxer over generators that yield [ess]; they can still be sought
    then, and the muxer with them. *)
Lemma fresh_muxer_reseeks D idle oom slots in_evs0 (gs : list G) (ess : list (list E)) n m :
  yields_step D idle ->
  length in_evs0 = length gs -> (forall sl, slots = Some sl -> length sl = length gs) ->
  actf_muxer_init oom slots in_evs0 gs n = Some m -> all_yield D gs ess ->
  exists out m1 ess1, actf_muxer_mux tstamp m = (Ok out, m1) /\ msteps tstamp ess out ess1 /\ (out = [] -> Forall (fun es => es = []) ess) /\
    forall t (W : nat -> list E -> Prop), (forall i g, idle i g -> exists es, seeks g t es /\ W i es) ->
      exists ess2 out2, @seeks _ _ mux_gen m1 t out2 /\ merge tstamp ess2 out2 /\
        length ess2 = length gs /\ forall i es, ess2 !! i = Some es -> W i es.
Proof.
  intros Hstep Hin Hsl Hinit Hy.
  destruct (init_shape _ _ _ _ _ _ Hin Hsl Hinit) as (Hsh & Hcap & Hst & Hpe & Hq & Hg). rewrite <- Hg in Hy.
  pose proof (fresh_live tstamp _ _ Hstep m ess Hsh Hcap Hst Hpe Hq Hy) as Hlive.
  destruct (mux_step tstamp _ _ Hstep m ess Hlive) as (out & m1 & ess1 & Hrun & Hms & Hnil & _ & Hidle).
  exists out, m1, ess1. split_and!; [done..|]. intros t W Hseek.
  pose proof (mux_keeps tstamp (gens_len m) (evs_cap m) m (conj Hsh (conj eq_refl eq_refl))) as Hk. rewrite Hrun in Hk.
  destruct Hk as ([] & Hgl & Hec). cbn [snd] in *.
  destruct (list_choose (fun i g es => seeks g t es /\ W i es) (gens m1)) as (ess2 & Hl & Hess); [intros i g Hgi; by apply Hseek, Hidle|].
  destruct (muxer_restarts m1 t ess2) as (out2 & Ho & Hm); try done; [lia| |].
  { apply Forall2_same_length_lookup_2; [done|]. intros i g es Hgi Hes. by apply (Hess i g es). }
  exists ess2, out2. split_and!; [done..|unfold gens_len in Hgl; congruence|]. intros i es Hes.
  destruct (lookup_lt_is_Some_2 (gens m1) i) as [g Hgi]; [rewrite Hl; by eapply lookup_lt_Some|]. by apply (Hess i g es).
Qed.
End Contract.

(** C18: a muxer over generators that drain to [ess] is a generator that drains:
    its output is a k-way merge of [ess] by timestamp, whatever the buffer
    capacity and the sizes of the arrays the generators return; hence every
    event comes out exactly once, each generator's events keep their order, and
    the output is sorted by time when each generator's events are. *)
Theorem muxer_drains_merge {G E : Type} `{Generator G E} (tstamp : E -> Z)
    oom slots in_evs0 (gs : list G) (ess : list (list E)) n m :
  length in_evs0 = length gs -> (forall sl, slots = Some sl -> length sl = length gs) ->
  actf_muxer_init oom slots in_evs0 gs n = Some m ->
  Forall2 drains gs ess ->
  exists out, @drains _ _ (actf_muxer_to_generator tstamp) m out /\ merge tstamp ess out /\
    out ≡ₚ concat ess /\ (forall i es, ess !! i = Some es -> sublist es out) /\
    (Forall (time_sorted tstamp) ess -> time_sorted tstamp out).
Proof.
  intros Hin Hsl Hinit Hd.
  destruct (fresh_muxer_drains tstamp oom slots in_evs0 gs ess n m Hin Hsl Hinit Hd) as (out & Ho & Hm).
  exists out. split_and!; try done.
  - by apply merge_perm in Hm.
  - intros i es. by apply (merge_sublist tstamp).
  - intros Hs. by apply (merge_sorted tstamp ess).
Qed.

(** After any sequence of calls, failed ones included, a seek that succeeds
    on every generator makes the muxer start over: it then drains to a merge of
    what the sought generators yield. *)
Theorem muxer_seek_restarts {G E : Type} `{Generator G E} (tstamp : E -> Z)
    oom slots in_evs0 (gs : list G) (calls : list mux_call) n m0 t (ess : list (list E)) :
  length in_evs0 = length gs -> (forall sl, slots = Some sl -> length sl = length gs) ->
  actf_muxer_init oom slots in_evs0 gs n = Some m0 ->
  let m := fold_left (fun m o => do_call tstamp o m) calls m0 in
  Forall2 (fun g es => seeks g t es) (gens m) ess ->
  exists out, @seeks _ _ (actf_muxer_to_generator tstamp) m t out /\ merge tstamp ess out.
Proof.
  intros Hin Hsl Hinit m Hs.
  destruct (init_shape _ _ _ _ _ _ Hin Hsl Hinit) as (Hsh & Hcap & _).
  destruct (calls_keep tstamp (gens_len m0) (evs_cap m0) calls m0) as ([] & Hn & Hc); [done|].
  fold m in sh_in_evs0, sh_lens0, sh_cur0, sh_pq0, sh_cap0, Hn, Hc. apply muxer_restarts; (done || lia).
Qed.

(** When a generator fails, the muxer returns that error and stays in the
    error state: every later call returns [ACTF_ERROR] and changes nothing,
    until a seek. *)
Theorem muxer_error_sticks {G E : Type} `{Generator G E} (tstamp : E -> Z) (m : actf_muxer G E) rc m' :
  actf_muxer_mux tstamp m = (Err rc, m') ->
  mstate m' = MUXER_STATE_ERROR /\ actf_muxer_mux tstamp m' = (Err ACTF_ERROR, m').
Proof.
  intros Hrun. pose proof (mux_err tstamp m rc m' Hrun) as He. unfold in_error in He.
  split; [done|]. unfold actf_muxer_mux. rewrite (st_bind_ok st_get _ m' m' m') by done. by rewrite He.
Qed.

(** A generator that fails at once, for the error paths. *)
Definition failing_generator : Generator (array_gen (Z * nat)) (Z * nat) :=
  {| generate := fun g => match chunks g with [] => (Err ACTF_NOT_ENOUGH_BITS, g) | _ => array_generate g end;
     seek_ns_from_origin := array_seek fst |}.

Definition two_streams : list (array_gen (Z * nat)) :=
  [ mk_array_gen [[(1, 0%nat); (4, 0%nat)]; [(9, 0%nat)]] [[(1, 0%nat); (4, 0%nat)]; [(9, 0%nat)]];
    mk_array_gen [[(2, 1%nat)]; [(4, 1%nat); (7, 1%nat)]] [[(2, 1%nat)]; [(4, 1%nat); (7, 1%nat)]] ].
Definition two_muxer : actf_muxer (array_gen (Z * nat)) (Z * nat) :=
  mk_muxer two_streams [[]; []] [0; 0]%nat [0; 0]%nat 2
    (mk_pq [mk_node 0 0; mk_node 0 0] 0 2) MUXER_STATE_FRESH 2.

Lemma array_drains (g : array_gen (Z * nat)) :
  Forall (fun c => c <> []) (chunks g) -> @drains _ _ (array_generator fst) g (concat (chunks g)).
Proof.
  destruct g as [al cs]. simpl. induction 1 as [|c cs Hc _ IH]; [by eapply drains_end|].
  destruct c as [|e c]; [done|]. by eapply drains_more.
Qed.

Example muxer_drains_merge_witness :
  exists out, @drains _ _ (@actf_muxer_to_generator _ _ (array_generator fst) fst) two_muxer out /\
    merge fst [[(1, 0%nat); (4, 0%nat); (9, 0%nat)]; [(2, 1%nat); (4, 1%nat); (7, 1%nat)]] out /\
    out ≡ₚ concat [[(1, 0%nat); (4, 0%nat); (9, 0%nat)]; [(2, 1%nat); (4, 1%nat); (7, 1%nat)]] /\
    (forall i es, [[(1, 0%nat); (4, 0%nat); (9, 0%nat)]; [(2, 1%nat); (4, 1%nat); (7, 1%nat)]] !! i = Some es ->
      sublist es out) /\
    (Forall (time_sorted fst) [[(1, 0%nat); (4, 0%nat); (9, 0%nat)]; [(2, 1%nat); (4, 1%nat); (7, 1%nat)]] ->
      time_sorted fst out).
Proof.
  apply (@muxer_drains_merge _ _ (array_generator fst) fst false (Some [mk_node 0 0; mk_node 0 0]) [[]; []]
           two_streams [[(1, 0%nat); (4, 0%nat); (9, 0%nat)]; [(2, 1%nat); (4, 1%nat); (7, 1%nat)]] 2).
  - done.
  - by intros sl [= <-].
  - done.
  - constructor; [apply (array_drains (mk_array_gen _ [[(1, 0%nat); (4, 0%nat)]; [(9, 0%nat)]])); by repeat constructor|].
    constructor; [|constructor].
    apply (array_drains (mk_array_gen _ [[(2, 1%nat)]; [(4, 1%nat); (7, 1%nat)]])); by repeat constructor.
Defined.

Example muxer_seek_restarts_witness :
  exists out, @seeks _ _ (@actf_muxer_to_generator _ _ (array_generator fst) fst)
      (fold_left (fun m o => @do_call _ _ (array_generator fst) fst o m) [CallMux; CallSeek 3; CallMux] two_muxer) 5 out /\
    merge fst [[(9, 0%nat)]; [(7, 1%nat)]] out.
Proof.
  apply (@muxer_seek_restarts _ _ (array_generator fst) fst false (Some [mk_node 0 0; mk_node 0 0]) [[]; []]
           two_streams [CallMux; CallSeek 3; CallMux] 2 two_muxer 5 [[(9, 0%nat)]; [(7, 1%nat)]]).
  - done.
  - by intros sl [= <-].
  - done.
  - constructor; [|constructor; [|constructor]]; (eexists; split; [reflexivity|]).
    + apply (array_drains (mk_array_gen _ [[(9, 0%nat)]])); by repeat constructor.
    + apply (array_drains (mk_array_gen _ [[(7, 1%nat)]])); by repeat constructor.
Defined.

Example muxer_error_sticks_witness :
  let m' := snd (@actf_muxer_mux _ _ failing_generator fst
    (mk_muxer [mk_array_gen [] []] [[]] [0]%nat [0]%nat 2 (mk_pq [mk_node 0 0] 0 1) MUXER_STATE_FRESH 1)) in
  mstate m' = MUXER_STATE_ERROR /\ @actf_muxer_mux _ _ failing_generator fst m' = (Err ACTF_ERROR, m').
Proof.
  exact (@muxer_error_sticks _ _ failing_generator fst
    (mk_muxer [mk_array_gen [] []] [[]] [0]%nat [0]%nat 2 (mk_pq [mk_node 0 0] 0 1) MUXER_STATE_FRESH 1)
    ACTF_NOT_ENOUGH_BITS _ eq_refl).
Defined.
