(* ===== verification/Filter.v ===== *)
(** The time filter, [filter.h] and [filter.c]: passes the events of a generator
    whose timestamp lies in a range, and is a generator itself.

    The theorems: over a generator that yields time-sorted events after a seek,
    the filter drains to exactly the events of the range, with the date of the
    first event added to the bounds that have none. *)
From Stdlib Require Import Sorting.Sorted.
From S2P Require Import Prelude Common Generator.

Inductive filter_state :=
| FILTER_STATE_FRESH | FILTER_STATE_ONGOING | FILTER_STATE_DONE | FILTER_STATE_ERROR.

Record actf_filter_time_range := mk_range {
  r_begin : Z; begin_has_date : bool; r_end : Z; end_has_date : bool
}.

Record actf_filter (G : Type) := mk_filter {
  gen : G; range : actf_filter_time_range; fstate : filter_state
}.
Arguments mk_filter {G}. Arguments gen {G}. Arguments range {G}. Arguments fstate {G}.

Definition ACTF_FILTER_TIME_RANGE_ALL : actf_filter_time_range :=
  mk_range INT64_MIN true INT64_MAX true.

(** [hhmmss_ns], a day in nanoseconds. *)
Definition hhmmss_ns : Z := 24 * 60 * 60 * 1000000000.

(** The date of a timestamp: C's [%] truncates. *)
Definition date_off (ns_from_origin : Z) : Z := ns_from_origin - Z.rem ns_from_origin hhmmss_ns.

(** Signed 64-bit addition; an overflow is undefined behaviour. *)
Definition add_i64 (a b : Z) : option Z :=
  if (INT64_MIN <=? a + b) && (a + b <=? INT64_MAX) then Some (a + b) else None.

Section Filter.
Context {G E : Type} `{Generator G E} (tstamp : E -> Z).
Notation filter := (actf_filter G).

(** ** Operations *)

Definition actf_filter_init (g : G) (r : actf_filter_time_range) : filter :=
  mk_filter g r FILTER_STATE_FRESH.

Definition set_fstate (s : filter_state) (f : filter) : filter := mk_filter (gen f) (range f) s.
Definition set_range (r : actf_filter_time_range) (f : filter) : filter := mk_filter (gen f) r (fstate f).

(** A call of a method of the wrapped generator. *)
Definition on_gen {A} (c : st G A) : st filter A :=
  st_zoom gen (fun g f => mk_filter g (range f) (fstate f)) c.

(** Run [c]; on an error, move to the error state and return its code. *)
Definition or_error {A} (c : st filter A) : st filter A := fun f =>
  match c f with
  | (Err rc, f') => (Err rc, set_fstate FILTER_STATE_ERROR f')
  | r => r
  end.

(** Add the date to the bounds without one. *)
Definition shift_range (off : Z) (r : actf_filter_time_range) : option actf_filter_time_range :=
  b ← (if begin_has_date r then Some (r_begin r) else add_i64 (r_begin r) off);
  e ← (if end_has_date r then Some (r_end r) else add_i64 (r_end r) off);
  Some (mk_range b true e true).

Definition ensure_range_has_dates : st filter unit :=
  f ← st_get;
  if begin_has_date (range f) && end_has_date (range f) then mret tt
  else
    evs ← or_error (on_gen generate);
    match evs with
    | [] => mret tt
    | ev :: _ =>
        f ← st_get;
        match shift_range (date_off (tstamp ev)) (range f) with
        | Some r => st_modify (set_range r)
        | None => st_undef
        end
    end.

Definition actf_filter_seek_ns_from_origin (t : Z) : st filter unit :=
  ensure_range_has_dates;;
  f ← st_get;
  if (r_begin (range f) <=? t) && (r_end (range f) <? t) then st_modify (set_fstate FILTER_STATE_DONE)
  else
    let t := if t <? r_begin (range f) then r_begin (range f) else t in
    or_error (on_gen (seek_ns_from_origin t));;
    st_modify (set_fstate FILTER_STATE_ONGOING).

(** The loop that counts the events up to the end cutoff. *)
Fixpoint end_cutoff (e : Z) (evs : list E) : nat :=
  match evs with
  | [] => 0
  | ev :: evs' => if tstamp ev <=? e then S (end_cutoff e evs') else 0
  end.

Definition filter_ongoing : st filter (list E) :=
  evs ← or_error (on_gen generate);
  f ← st_get;
  let evs := if negb (r_end (range f) =? INT64_MAX) then take (end_cutoff (r_end (range f)) evs) evs else evs in
  (match evs with [] => st_modify (set_fstate FILTER_STATE_DONE) | _ => mret tt end);;
  mret evs.

Definition actf_filter_filter : st filter (list E) :=
  f ← st_get;
  (match fstate f with
   | FILTER_STATE_FRESH =>
       ensure_range_has_dates;;
       f ← st_get;
       actf_filter_seek_ns_from_origin (r_begin (range f))
   | _ => mret tt
   end);;
  f ← st_get;
  match fstate f with
  | FILTER_STATE_ONGOING => filter_ongoing
  | FILTER_STATE_DONE => mret []
  | FILTER_STATE_ERROR => st_fail ACTF_ERROR
  | FILTER_STATE_FRESH => st_fail ACTF_INTERNAL
  end.

#[export] Instance actf_filter_to_generator : Generator filter E := {
  generate := actf_filter_filter;
  seek_ns_from_origin := actf_filter_seek_ns_from_origin
}.

(** ** What the filter yields *)

(** The events of a sorted list that are not after the end of the range. *)
Definition until_end (r : actf_filter_time_range) (es : list E) : list E :=
  List.filter (fun e => tstamp e <=? r_end r) es.

(** The wrapped generator and the range once the dates are known. *)
Inductive dated : G -> actf_filter_time_range -> G -> actf_filter_time_range -> Prop :=
| dated_yes g r :
    begin_has_date r && end_has_date r = true -> dated g r g r
| dated_no g r ev evs g' r' :
    begin_has_date r && end_has_date r = false ->
    generate g = (Ok (ev :: evs), g') -> shift_range (date_off (tstamp ev)) r = Some r' ->
    dated g r g' r'.

Lemma dated_range g r g' r' : dated g r g' r' -> begin_has_date r' && end_has_date r' = true.
Proof.
  intros [g0 r0 Hd|g0 r0 ev evs g1 r1 Hd Hg Hs]; [done|]. revert Hs. unfold shift_range.
  destruct (if begin_has_date r0 then _ else _); simpl; [|done].
  destruct (if end_has_date r0 then _ else _); simpl; [|done]. by intros [= <-].
Qed.

Lemma ensure_dated g r g' r' s :
  dated g r g' r' -> ensure_range_has_dates (mk_filter g r s) = (Ok tt, mk_filter g' r' s).
Proof.
  intros [g0 r0 Hd|g0 r0 ev evs g1 r1 Hd Hg Hs]; unfold ensure_range_has_dates;
    rewrite (st_bind_ok st_get _ _ (mk_filter g0 r0 s) (mk_filter g0 r0 s)) by done; cbn [range];
    rewrite Hd; [done|].
  rewrite (st_bind_ok (or_error _) _ _ (ev :: evs) (mk_filter g1 r0 s))
    by (unfold or_error, on_gen, st_zoom; cbn [gen]; by rewrite Hg).
  rewrite (st_bind_ok st_get _ _ (mk_filter g1 r0 s) (mk_filter g1 r0 s)) by done. cbn [range].
  by rewrite Hs.
Qed.

Lemma end_cutoff_sorted e evs :
  time_sorted tstamp evs -> take (end_cutoff e evs) evs = List.filter (fun x => tstamp x <=? e) evs.
Proof.
  induction 1 as [|ev evs Hs IH Hge]; simpl; [done|]. destruct (Z.leb_spec (tstamp ev) e); simpl.
  - by rewrite IH.
  - symmetry. apply list_filter_none. revert Hge. apply Forall_impl. simpl. intros x Hx.
    destruct (Z.leb_spec (tstamp x) e); [lia|done].
Qed.

Lemma time_sorted_app_inv es es' :
  time_sorted tstamp (es ++ es') -> time_sorted tstamp es /\ time_sorted tstamp es' /\
    forall x y, x ∈ es -> y ∈ es' -> tstamp x <= tstamp y.
Proof.
  induction es as [|e es IH]; simpl; intros Hs.
  { split; [constructor|]. split; [done|]. by intros x y ?%not_elem_of_nil. }
  apply StronglySorted_inv in Hs as [Hs Hge]. destruct (IH Hs) as (H1 & H2 & H3).
  apply Forall_app in Hge as [Hg1 Hg2]. split; [by constructor|]. split; [done|].
  intros x y [->|Hx]%elem_of_cons Hy; [|by apply H3].
  rewrite Forall_forall in Hg2. apply Hg2. by apply list_elem_of_In.
Qed.

(** What one array of the generator becomes. *)
Lemma ongoing_generate g r evs g' :
  generate g = (Ok evs, g') -> time_sorted tstamp evs ->
  Forall (fun e => tstamp e <= INT64_MAX) evs ->
  actf_filter_filter (mk_filter g r FILTER_STATE_ONGOING) =
    (Ok (until_end r evs), mk_filter g' r
       (match until_end r evs with [] => FILTER_STATE_DONE | _ => FILTER_STATE_ONGOING end)).
Proof.
  intros Hg Hs Hmax. unfold actf_filter_filter.
  set (f := mk_filter g r FILTER_STATE_ONGOING). set (f' := mk_filter g' r FILTER_STATE_ONGOING).
  rewrite (st_bind_ok st_get _ f f f) by done. cbn [f fstate].
  rewrite (st_bind_ok (mret tt) _ f tt f), (st_bind_ok st_get _ f f f) by done. cbn [f fstate].
  unfold filter_ongoing.
  rewrite (st_bind_ok (or_error _) _ f evs f')
    by (unfold or_error, on_gen, st_zoom; cbn [f gen]; by rewrite Hg).
  rewrite (st_bind_ok st_get _ f' f' f') by done. cbn [f' range].
  assert (Hcut : (if negb (r_end r =? INT64_MAX) then take (end_cutoff (r_end r) evs) evs else evs)
                 = until_end r evs).
  { unfold until_end. destruct (Z.eqb_spec (r_end r) INT64_MAX) as [->|]; simpl.
    - symmetry. apply list_filter_all. revert Hmax. apply Forall_impl. intros x. lia.
    - by apply end_cutoff_sorted. }
  rewrite Hcut. by destruct (until_end r evs).
Qed.

Lemma ongoing_drains g r es :
  drains g es -> time_sorted tstamp es -> Forall (fun e => tstamp e <= INT64_MAX) es ->
  drains (mk_filter g r FILTER_STATE_ONGOING) (until_end r es).
Proof.
  intros Hd. induction Hd as [g g' Hg|g e evs g' es Hg Hd IH]; intros Hs Hmax.
  { eapply drains_end. change (generate ?f) with (actf_filter_filter f).
    by rewrite (ongoing_generate g r [] g'). }
  rewrite app_comm_cons in Hs, Hmax |- *.
  destruct (time_sorted_app_inv _ _ Hs) as (Hs1 & Hs2 & H12). apply Forall_app in Hmax as [Hm1 Hm2].
  pose proof (ongoing_generate g r (e :: evs) g' Hg Hs1 Hm1) as Hrun.
  specialize (IH Hs2 Hm2). unfold until_end in *. rewrite filter_app.
  destruct (List.filter (fun x => tstamp x <=? r_end r) (e :: evs)) as [|x xs] eqn:Hf.
  - assert (He : r_end r < tstamp e).
    { simpl in Hf. destruct (Z.leb_spec (tstamp e) (r_end r)); [done|lia]. }
    rewrite (list_filter_none _ es); [by eapply drains_end|].
    apply Forall_forall. intros y Hy. apply list_elem_of_In in Hy.
    pose proof (H12 e y ltac:(apply elem_of_cons; by left) Hy). destruct (Z.leb_spec (tstamp y) (r_end r)); [lia|done].
  - by eapply drains_more.
Qed.

(** A seek of the filter moves the wrapped generator, or ends at once when the
    timestamp is after the range. *)
Lemma filter_seek_run g r g1 r1 s t :
  dated g r g1 r1 ->
  actf_filter_seek_ns_from_origin t (mk_filter g r s) =
    if (r_begin r1 <=? t) && (r_end r1 <? t) then (Ok tt, mk_filter g1 r1 FILTER_STATE_DONE)
    else
      match seek_ns_from_origin (Z.max t (r_begin r1)) g1 with
      | (Ok _, g2) => (Ok tt, mk_filter g2 r1 FILTER_STATE_ONGOING)
      | (Err rc, g2) => (Err rc, mk_filter g2 r1 FILTER_STATE_ERROR)
      | (Undef, g2) => (Undef, mk_filter g2 r1 s)
      end.
Proof.
  intros Hd. unfold actf_filter_seek_ns_from_origin.
  rewrite (st_bind_ok _ _ _ _ _ (ensure_dated _ _ _ _ s Hd)). set (f1 := mk_filter g1 r1 s).
  rewrite (st_bind_ok st_get _ f1 f1 f1) by done. cbn [f1 range].
  destruct (_ && _); [done|].
  replace (if t <? r_begin r1 then r_begin r1 else t) with (Z.max t (r_begin r1)) by zcmp.
  unfold or_error, on_gen, st_zoom, mbind, st_bind. subst f1. cbn [gen range fstate].
  by destruct (seek_ns_from_origin (Z.max t (r_begin r1)) g1) as [[|rc|] g2].
Qed.

(** A done filter yields nothing. *)
Lemma done_drains g r : drains (mk_filter g r FILTER_STATE_DONE) [].
Proof. eapply drains_end. reflexivity. Qed.

Lemma until_end_none r es t :
  Forall (fun e => t <= tstamp e) es -> r_end r < t -> until_end r es = [].
Proof.
  intros Hge Hr. apply list_filter_none. revert Hge. apply Forall_impl. simpl. intros x Hx.
  destruct (Z.leb_spec (tstamp x) (r_end r)); [lia|done].
Qed.

Lemma filter_seeks g r g1 r1 s t es :
  dated g r g1 r1 -> seeks g1 (Z.max t (r_begin r1)) es -> time_sorted tstamp es ->
  Forall (fun e => Z.max t (r_begin r1) <= tstamp e <= INT64_MAX) es ->
  seeks (mk_filter g r s) t (until_end r1 es).
Proof.
  intros Hd (g2 & Hsk & Hdr) Hs Hr. pose proof (filter_seek_run g r g1 r1 s t Hd) as Hrun.
  rewrite Hsk in Hrun. destruct ((r_begin r1 <=? t) && (r_end r1 <? t)) eqn:Ec.
  - eexists. split; [exact Hrun|]. rewrite (until_end_none r1 es (Z.max t (r_begin r1))).
    + apply done_drains.
    + revert Hr. apply Forall_impl. simpl. lia.
    + lia.
  - eexists. split; [exact Hrun|]. apply ongoing_drains; [done|done|].
    revert Hr. apply Forall_impl. simpl. lia.
Qed.

(** The first call seeks to the beginning of the range. *)
Lemma fresh_generate g r g1 r1 :
  dated g r g1 r1 ->
  actf_filter_filter (mk_filter g r FILTER_STATE_FRESH) =
    (actf_filter_seek_ns_from_origin (r_begin r1) ≫= fun _ =>
     f ← st_get;
     match fstate f with
     | FILTER_STATE_ONGOING => filter_ongoing
     | FILTER_STATE_DONE => mret []
     | FILTER_STATE_ERROR => st_fail ACTF_ERROR
     | FILTER_STATE_FRESH => st_fail ACTF_INTERNAL
     end) (mk_filter g1 r1 FILTER_STATE_FRESH).
Proof.
  intros Hd. unfold actf_filter_filter. set (f := mk_filter g r FILTER_STATE_FRESH).
  rewrite (st_bind_ok st_get _ f f f) by done. cbn [f fstate].
  pose proof (ensure_dated _ _ _ _ FILTER_STATE_FRESH Hd) as He. fold f in He.
  unfold mbind at 1. unfold st_bind at 1. rewrite (st_bind_ok _ _ _ _ _ He). done.
Qed.

Lemma fresh_drains g r g1 r1 es :
  dated g r g1 r1 -> seeks g1 (r_begin r1) es -> time_sorted tstamp es ->
  Forall (fun e => r_begin r1 <= tstamp e <= INT64_MAX) es ->
  drains (actf_filter_init g r) (until_end r1 es).
Proof.
  intros Hd (g2 & Hsk & Hdr) Hs Hr. pose proof (dated_range _ _ _ _ Hd) as Hd1.
  pose proof (filter_seek_run g1 r1 g1 r1 FILTER_STATE_FRESH (r_begin r1) (dated_yes _ _ Hd1)) as Hrun.
  replace (Z.max (r_begin r1) (r_begin r1)) with (r_begin r1) in Hrun by lia. rewrite Hsk in Hrun.
  pose proof (fresh_generate g r g1 r1 Hd) as Hg.
  destruct ((r_begin r1 <=? r_begin r1) && (r_end r1 <? r_begin r1)) eqn:Ec.
  - rewrite (until_end_none r1 es (r_begin r1)); [|revert Hr; apply Forall_impl; simpl; lia|lia].
    eapply drains_end. change (generate ?f) with (actf_filter_filter f). unfold actf_filter_init.
    by rewrite Hg, (st_bind_ok _ _ _ _ _ Hrun).
  - assert (Hsame : actf_filter_filter (actf_filter_init g r) =
                    actf_filter_filter (mk_filter g2 r1 FILTER_STATE_ONGOING)).
    { unfold actf_filter_init. by rewrite Hg, (st_bind_ok _ _ _ _ _ Hrun). }
    assert (Ho : drains (mk_filter g2 r1 FILTER_STATE_ONGOING) (until_end r1 es)).
    { apply ongoing_drains; [done|done|]. revert Hr. apply Forall_impl. simpl. lia. }
    destruct (drains_step _ _ Ho) as (evs & f' & Hgen & [[-> ->]|(Hne & rest & Hd' & ->)]).
    + eapply drains_end. change (generate ?f) with (actf_filter_filter f) in *. by rewrite Hsame.
    + destruct evs as [|e evs]; [done|]. eapply drains_more; [|exact Hd'].
      change (generate ?f) with (actf_filter_filter f) in *. by rewrite Hsame.
Qed.
End Filter.

(** * The contract of the filter *)

(** The events of a list inside a range. *)
Definition in_range {E} (tstamp : E -> Z) (r : actf_filter_time_range) (es : list E) : list E :=
  List.filter (fun e => (r_begin r <=? tstamp e) && (tstamp e <=? r_end r)) es.

Lemma in_range_until {E} (tstamp : E -> Z) r es t :
  r_begin r <= t -> Forall (fun e => t <= tstamp e <= INT64_MAX) es ->
  in_range tstamp r es = until_end tstamp r es.
Proof.
  intros Ht. induction 1 as [|e es He _ IH]; [done|]. unfold in_range, until_end in *. simpl.
  rewrite IH. destruct (Z.leb_spec (r_begin r) (tstamp e)); [done|lia].
Qed.

(** C19: a new filter over a generator is a generator that drains to exactly the
    events inside the range, both ends included, in their order; when a bound has
    no date, the date of the generator's first event is added to it first.  The
    generator must honour its seek: events not before the sought time, sorted. *)
Theorem filter_drains_range {G E : Type} `{Generator G E} (tstamp : E -> Z) g r g1 r1 (es : list E) :
  dated tstamp g r g1 r1 -> seeks g1 (r_begin r1) es -> time_sorted tstamp es ->
  Forall (fun e => r_begin r1 <= tstamp e <= INT64_MAX) es ->
  @drains _ _ (actf_filter_to_generator tstamp) (actf_filter_init g r) (in_range tstamp r1 es).
Proof.
  intros Hd Hsk Hs Hr. rewrite (in_range_until tstamp r1 es (r_begin r1)) by (done || lia).
  by eapply fresh_drains.
Qed.

(** Seeking a filter, in any state, moves it to the first event of the range
    that is not before the sought time: it then drains to the events of the
    range from there, none when the time is after the range. *)
Theorem filter_seek_range {G E : Type} `{Generator G E} (tstamp : E -> Z) g r g1 r1 s t (es : list E) :
  dated tstamp g r g1 r1 -> seeks g1 (Z.max t (r_begin r1)) es -> time_sorted tstamp es ->
  Forall (fun e => Z.max t (r_begin r1) <= tstamp e <= INT64_MAX) es ->
  @seeks _ _ (actf_filter_to_generator tstamp) (mk_filter g r s) t (in_range tstamp r1 es).
Proof.
  intros Hd Hsk Hs Hr. rewrite (in_range_until tstamp r1 es (Z.max t (r_begin r1))) by (done || lia).
  by eapply filter_seeks.
Qed.

(** The date added to an undated bound is the midnight that starts the day
    of the timestamp when the timestamp is not before the origin; for one before
    the origin it is the midnight that ends the day (or the timestamp itself),
    since the remainder truncates towards zero. *)
Theorem date_off_midnight ns :
  date_off ns mod hhmmss_ns = 0 /\
  (0 <= ns -> date_off ns <= ns < date_off ns + hhmmss_ns) /\
  (ns < 0 -> date_off ns - hhmmss_ns < ns <= date_off ns).
Proof.
  unfold date_off. assert (Hp : 0 < hhmmss_ns) by done.
  assert (E : ns - Z.rem ns hhmmss_ns = Z.quot ns hhmmss_ns * hhmmss_ns).
  { pose proof (Z.quot_rem ns hhmmss_ns ltac:(lia)). lia. }
  split; [rewrite E; apply Z.mod_mul; lia|]. split; intros Hns.
  - pose proof (Z.rem_bound_pos ns hhmmss_ns Hns Hp). lia.
  - pose proof (Z.rem_bound_pos_neg ns hhmmss_ns Hp ltac:(lia)). lia.
Qed.

Definition day_stream : array_gen (Z * nat) :=
  let c := [[(hhmmss_ns + 5, 0%nat); (hhmmss_ns + 7, 1%nat)]; [(hhmmss_ns + 9, 2%nat); (hhmmss_ns + 10, 3%nat)]] in
  mk_array_gen c c.

Example filter_drains_range_witness :
  @drains _ _ (@actf_filter_to_generator _ _ (array_generator fst) fst)
    (actf_filter_init day_stream (mk_range 7 false 9 false))
    [(hhmmss_ns + 7, 1%nat); (hhmmss_ns + 9, 2%nat)].
Proof.
  apply (@filter_drains_range _ _ (array_generator fst) fst day_stream (mk_range 7 false 9 false)
    (mk_array_gen (all_chunks day_stream) (tl (chunks day_stream)))
    (mk_range (hhmmss_ns + 7) true (hhmmss_ns + 9) true)
    [(hhmmss_ns + 7, 1%nat); (hhmmss_ns + 9, 2%nat); (hhmmss_ns + 10, 3%nat)]).
  - eapply dated_no; reflexivity.
  - eexists. split; [reflexivity|].
    eapply (@drains_more _ _ (array_generator fst) _ (hhmmss_ns + 7, 1%nat) [] _ [(hhmmss_ns + 9, 2%nat); (hhmmss_ns + 10, 3%nat)]);
      [reflexivity|].
    eapply (@drains_more _ _ (array_generator fst) _ (hhmmss_ns + 9, 2%nat) [(hhmmss_ns + 10, 3%nat)] _ []); [reflexivity|].
    eapply drains_end. reflexivity.
  - repeat constructor; simpl; lia.
  - unfold INT64_MAX, hhmmss_ns. repeat constructor; simpl; lia.
Defined.

Example filter_seek_range_witness :
  @seeks _ _ (@actf_filter_to_generator _ _ (array_generator fst) fst)
    (mk_filter day_stream (mk_range 7 true (hhmmss_ns + 9) true) FILTER_STATE_DONE) (hhmmss_ns + 8)
    [(hhmmss_ns + 9, 2%nat)].
Proof.
  apply (@filter_seek_range _ _ (array_generator fst) fst day_stream (mk_range 7 true (hhmmss_ns + 9) true)
    day_stream (mk_range 7 true (hhmmss_ns + 9) true) FILTER_STATE_DONE (hhmmss_ns + 8)
    [(hhmmss_ns + 9, 2%nat); (hhmmss_ns + 10, 3%nat)]).
  - by apply dated_yes.
  - eexists. split; [reflexivity|].
    eapply (@drains_more _ _ (array_generator fst) _ (hhmmss_ns + 9, 2%nat) [(hhmmss_ns + 10, 3%nat)] _ []); [reflexivity|].
    eapply drains_end. reflexivity.
  - repeat constructor; simpl; lia.
  - unfold INT64_MAX, hhmmss_ns. repeat constructor; simpl; lia.
Defined.
