(* ===== verification/Pipeline.v ===== *)
(** The pipeline that [actf.c] builds: the generators of several data streams,
    a muxer over them and a time filter over the muxer.  The components meet
    only at the [Generator] interface, so the theorem is their contracts
    composed. *)
From Stdlib Require Import Sorting.Sorted.
From S2P Require Import Prelude Common PrioQueue Generator Muxer Filter.

(** [actf_muxer_init] and [actf_filter_init] of the command line tool. *)
Definition pipeline {G E : Type} oom slots in_evs0 (gs : list G) (n : nat)
    (r : actf_filter_time_range) : option (actf_filter (actf_muxer G E)) :=
  m ← actf_muxer_init oom slots in_evs0 gs n;
  Some (actf_filter_init m r).

(** The generator of the pipeline. *)
Definition pipeline_generator {G E : Type} `{Generator G E} (tstamp : E -> Z) :
    Generator (actf_filter (actf_muxer G E)) E :=
  @actf_filter_to_generator _ _ (actf_muxer_to_generator tstamp) tstamp.

(** Over generators whose events from the start of the range are sorted,
    the filtered muxer drains to the sorted list of exactly the events of all
    the streams inside the range. *)
Theorem pipeline_drains {G E : Type} `{Generator G E} (tstamp : E -> Z)
    oom slots in_evs0 (gs : list G) n r f (ess : list (list E)) :
  length in_evs0 = length gs -> (forall sl, slots = Some sl -> length sl = length gs) ->
  pipeline oom slots in_evs0 gs n r = Some f ->
  begin_has_date r && end_has_date r = true ->
  Forall2 (fun g es => seeks g (r_begin r) es) gs ess ->
  Forall (time_sorted tstamp) ess ->
  Forall (Forall (fun e => r_begin r <= tstamp e <= INT64_MAX)) ess ->
  exists out, @drains _ _ (pipeline_generator tstamp) f out /\ time_sorted tstamp out /\
    out ≡ₚ in_range tstamp r (concat ess).
Proof.
  intros Hin Hsl Hp Hdate Hs Hsort Hr. unfold pipeline in Hp.
  destruct (actf_muxer_init oom slots in_evs0 gs n) as [m|] eqn:Hinit; [|done]. injection Hp as <-.
  pose proof (fresh_muxer_seeks tstamp oom slots in_evs0 gs ess n m (r_begin r) Hin Hsl Hinit Hs) as Hsk.
  destruct Hsk as (out & Hsk & Hm). pose proof (merge_perm _ _ _ Hm) as Hperm.
  assert (Hout : Forall (fun e => r_begin r <= tstamp e <= INT64_MAX) out).
  { rewrite Hperm. by apply Forall_concat. }
  pose proof (merge_sorted tstamp ess out Hsort Hm) as Hso.
  exists (until_end tstamp r out). split_and!.
  - unfold pipeline_generator. eapply fresh_drains; [by apply dated_yes|done|done|done].
  - clear -Hso. unfold until_end. induction Hso as [|e es Hs IH Hge]; simpl; [constructor|].
    destruct (tstamp e <=? r_end r); [|done]. constructor; [done|].
    revert Hge. rewrite !Forall_forall. intros Hge x Hx. apply filter_In in Hx as [Hx _]. by apply Hge.
  - rewrite <- (in_range_until tstamp r out (r_begin r)) by (done || lia). unfold in_range.
    by apply filter_perm.
Qed.

Example pipeline_drains_witness :
  exists out, @drains _ _ (@pipeline_generator _ _ (array_generator fst) fst)
      (actf_filter_init two_muxer (mk_range 3 true 7 true)) out /\
    time_sorted fst out /\ out ≡ₚ [(4, 0%nat); (4, 1%nat); (7, 1%nat)].
Proof.
  apply (@pipeline_drains _ _ (array_generator fst) fst false (Some [mk_node 0 0; mk_node 0 0]) [[]; []]
    two_streams 2 (mk_range 3 true 7 true) _ [[(4, 0%nat); (9, 0%nat)]; [(4, 1%nat); (7, 1%nat)]]).
  - done.
  - by intros sl [= <-].
  - reflexivity.
  - done.
  - constructor; [|constructor; [|constructor]]; (eexists; split; [reflexivity|]).
    + apply (array_drains (mk_array_gen _ [[(4, 0%nat)]; [(9, 0%nat)]])); by repeat constructor.
    + apply (array_drains (mk_array_gen _ [[(4, 1%nat); (7, 1%nat)]])); by repeat constructor.
  - repeat constructor; simpl; lia.
  - unfold INT64_MAX. repeat constructor; simpl; lia.
Defined.
