(* ===== verification/HashMap.v ===== *)
(** The open-addressing hash map of [crust/map.h] and its helpers in
    [crust/map_util.h], which hold the data stream classes and the event classes
    by id.

    [map_wf] is the representation invariant (every entry reachable by probing
    from its home slot, no two entries with one key).  The theorems: insertion
    and growth, failed allocations included, refine insertion in a finite map,
    lookup refines lookup, the probing loops end; and two divergences: the key
    comparison of the 64-bit maps truncates, and deletion can lose other
    entries. *)
From S2P Require Import Prelude Common.

(** * Helpers (map_util.h) *)

Definition hash_uint64 (v : Z) : Z := v.

(** [int uint64cmp(uint64_t v1, uint64_t v2) { return v2 - v1; }]. *)
Definition uint64cmp (v1 v2 : Z) : Z := i32 (u64 (v2 - v1)).

Definition map_is_pow2 (v : Z) : bool :=
  if c_true v then Z.land v (u64 (v - 1)) =? 0 else false.

(** [MAP_NOENT], [SIZE_MAX]. *)
Definition MAP_NOENT : Z := 2 ^ 64 - 1.

Definition EINVAL : Z := 22.
Definition ENOMEM : Z := 12.
Definition ESRCH : Z := 3.

(** A slot; [None] is a slot whose [hash] is [MAP_NOENT]. *)
Record map_entry (K V : Type) := mk_entry { e_hash : Z; e_key : K; e_val : V }.
Arguments mk_entry {K V}. Arguments e_hash {K V}. Arguments e_key {K V}. Arguments e_val {K V}.

Record umap (K V : Type) := mk_umap {
  slots : list (option (map_entry K V)); m_len : Z; m_cap : Z; grow_limit : Z
}.
Arguments mk_umap {K V}. Arguments slots {K V}. Arguments m_len {K V}.
Arguments m_cap {K V}. Arguments grow_limit {K V}.

Section Map.
Context {K V : Type}.
(** [MAP_HASH] and [MAP_KEY_CMP], and whether [malloc] of so many slots succeeds. *)
Variable (hash : K -> Z) (cmp : K -> K -> Z) (malloc_ok : Z -> bool).
Notation map := (umap K V).
Notation entry := (map_entry K V).

(** ** Operations *)

Definition map_hash (key : K) : Z :=
  let h := hash key in if h =? MAP_NOENT then h - 1 else h.

Definition map_init_cap (cap : Z) : outcome map :=
  if negb (map_is_pow2 cap) then Err (- EINVAL)
  else if malloc_ok cap then
    Ok (mk_umap (replicate (Z.to_nat cap) None) 0 cap (Z.shiftr cap 1))
  else Err (- ENOMEM).

Definition map_init : outcome map := map_init_cap 8.

(** [m->slots[index]]; the outer [None] is an access outside the array. *)
Definition slot (sl : list (option entry)) (index : Z) : option (option entry) :=
  if index <? 0 then None else sl !! Z.to_nat index.

(** [(index + 1) & (m->cap - 1)]. *)
Definition next_index (cap index : Z) : Z := Z.land (index + 1) (cap - 1).

(** The probing loop of [find]; a turn of it per unit of fuel. *)
Fixpoint find_loop (fuel : nat) (m : map) (key : K) (initial index : Z) : outcome (option V) :=
  match fuel with
  | O => Undef
  | S fuel' =>
      match slot (slots m) index with
      | None => Undef
      | Some None => Ok None
      | Some (Some e) =>
          if cmp (e_key e) key =? 0 then Ok (Some (e_val e))
          else
            let index := next_index (m_cap m) index in
            if initial =? index then Ok None else find_loop fuel' m key initial index
      end
  end.

Definition map_find (m : map) (key : K) : outcome (option V) :=
  let index := Z.land (map_hash key) (m_cap m - 1) in
  find_loop (Z.to_nat (m_cap m)) m key index index.

Definition map_contains (m : map) (key : K) : outcome bool :=
  match map_find m key with
  | Ok r => Ok (match r with Some _ => true | None => false end)
  | Err rc => Err rc
  | Undef => Undef
  end.

(** [while (m->slots[index].hash != MAP_NOENT)]: the first free slot. *)
Fixpoint free_slot (fuel : nat) (sl : list (option entry)) (cap index : Z) : option Z :=
  match fuel with
  | O => None
  | S fuel' =>
      match slot sl index with
      | None => None
      | Some None => Some index
      | Some (Some _) => free_slot fuel' sl cap (next_index cap index)
      end
  end.

(** [insert_hash_unchk] up to its call of [grow]. *)
Definition place (m : map) (h : Z) (key : K) (val : V) : outcome map :=
  match free_slot (Z.to_nat (m_cap m)) (slots m) (m_cap m) (Z.land h (m_cap m - 1)) with
  | None => Undef
  | Some index =>
      Ok (mk_umap (<[Z.to_nat index := Some (mk_entry h key val)]> (slots m))
            (m_len m + 1) (m_cap m) (grow_limit m))
  end.

(** [map_insert_hash_unchk] and [map_grow] call each other; [depth] bounds the
    nesting.  [insert_hash_unchk] ignores what [grow] returns. *)
Fixpoint map_insert_hash_unchk (depth : nat) (m : map) (h : Z) (key : K) (val : V) : outcome map :=
  match depth with
  | O => Undef
  | S depth' =>
      match place m h key val with
      | Ok m =>
          if m_len m >=? grow_limit m then
            let next_cap := u64 (Z.shiftl (m_cap m) 1) in
            if next_cap <? m_cap m then Ok m
            else
              match map_init_cap next_cap with
              | Ok next_m =>
                  (fix copy (sl : list (option entry)) (next_m : map) : outcome map :=
                     match sl with
                     | [] => Ok next_m
                     | None :: sl' => copy sl' next_m
                     | Some e :: sl' =>
                         match map_insert_hash_unchk depth' next_m (e_hash e) (e_key e) (e_val e) with
                         | Ok next_m => copy sl' next_m
                         | r => r
                         end
                     end) (slots m) next_m
              | Err _ => Ok m
              | Undef => Undef
              end
          else Ok m
      | r => r
      end
  end.

(** A growth inside a growth is never followed by a third. *)
Definition grow_depth : nat := 3.

Definition map_insert (m : map) (key : K) (val : V) : outcome map :=
  if m_len m >=? m_cap m then Err (- ENOMEM)
  else map_insert_hash_unchk grow_depth m (map_hash key) key val.

(** The back-shifting loop of [delete]. *)
Fixpoint back_shift (fuel : nat) (sl : list (option entry)) (cap prev_index index : Z) :
    option (list (option entry)) :=
  match fuel with
  | O => None
  | S fuel' =>
      match slot sl index with
      | None => None
      | Some None => Some sl
      | Some (Some e) =>
          if Z.land (e_hash e) (cap - 1) =? index then Some sl
          else
            let sl := <[Z.to_nat index := None]> (<[Z.to_nat prev_index := Some e]> sl) in
            back_shift fuel' sl cap index (next_index cap index)
      end
  end.

Fixpoint delete_loop (fuel : nat) (m : map) (key : K) (initial index : Z) : outcome map :=
  match fuel with
  | O => Undef
  | S fuel' =>
      match slot (slots m) index with
      | None => Undef
      | Some None => Err (- ESRCH)
      | Some (Some e) =>
          if cmp (e_key e) key =? 0 then
            let sl := <[Z.to_nat index := None]> (slots m) in
            match back_shift (S (Z.to_nat (m_cap m))) sl (m_cap m) index (next_index (m_cap m) index) with
            | Some sl => Ok (mk_umap sl (m_len m) (m_cap m) (grow_limit m))
            | None => Undef
            end
          else
            let index := next_index (m_cap m) index in
            if initial =? index then Err (- ESRCH) else delete_loop fuel' m key initial index
      end
  end.

Definition map_delete (m : map) (key : K) : outcome map :=
  let index := Z.land (map_hash key) (m_cap m - 1) in
  delete_loop (Z.to_nat (m_cap m)) m key index index.

(** [foreach] from iterator position [it]: the pair and the new position. *)
Fixpoint foreach_loop (sl : list (option entry)) (i : Z) : outcome (K * V * Z) :=
  match sl with
  | [] => Err (- ESRCH)
  | Some e :: _ => Ok (e_key e, e_val e, i + 1)
  | None :: sl' => foreach_loop sl' (i + 1)
  end.

Definition map_foreach (m : map) (it : Z) : outcome (K * V * Z) :=
  foreach_loop (drop (Z.to_nat it) (slots m)) it.

(** ** Invariant *)

(** The entries of the map. *)
Definition entries (m : map) : list entry := omap id (slots m).

(** Slot number [d] of the probe sequence of [h]. *)
Definition probe (cap h d : Z) : Z := (h + d) mod cap.

Definition occupied (sl : list (option entry)) (i : Z) : Prop := exists e, slot sl i = Some (Some e).

Record map_wf (m : map) : Prop := {
  wf_cap : exists k, 0 <= k < 64 /\ m_cap m = 2 ^ k;
  wf_slots : Z.of_nat (length (slots m)) = m_cap m;
  wf_len : m_len m = Z.of_nat (length (entries m));
  wf_hash : forall i e, slot (slots m) i = Some (Some e) -> e_hash e = map_hash (e_key e);
  wf_reach : forall i e, slot (slots m) i = Some (Some e) ->
    exists d, 0 <= d < m_cap m /\ i = probe (m_cap m) (e_hash e) d /\
      forall d', 0 <= d' < d -> occupied (slots m) (probe (m_cap m) (e_hash e) d')
}.

(** ** Probing *)

Lemma land_cap k x : 0 <= k -> Z.land x (2 ^ k - 1) = x mod 2 ^ k.
Proof. intros. replace (2 ^ k - 1) with (Z.ones k) by (rewrite Z.ones_equiv; lia). by apply Z.land_ones. Qed.

Lemma probe_range cap h d : 0 < cap -> 0 <= probe cap h d < cap.
Proof. intros. by apply Z.mod_pos_bound. Qed.

Lemma home_probe k h : 0 <= k -> Z.land h (2 ^ k - 1) = probe (2 ^ k) h 0.
Proof. intros. unfold probe. by rewrite land_cap, Z.add_0_r. Qed.

Lemma next_probe k h d : 0 <= k -> next_index (2 ^ k) (probe (2 ^ k) h d) = probe (2 ^ k) h (d + 1).
Proof.
  intros. unfold next_index, probe. rewrite land_cap by done. pose proof (pow2_pos k ltac:(done)).
  rewrite Zplus_mod_idemp_l. f_equal. lia.
Qed.

(** A probe sequence meets every slot once. *)
Lemma probe_eq cap h d d' : 0 < cap -> 0 <= d < cap -> 0 <= d' < cap -> probe cap h d = probe cap h d' -> d = d'.
Proof.
  unfold probe. intros Hc Hd Hd' E.
  pose proof (Z.div_mod (h + d) cap ltac:(lia)). pose proof (Z.div_mod (h + d') cap ltac:(lia)).
  assert (d - d' = cap * ((h + d) / cap - (h + d') / cap)) by lia.
  assert ((h + d) / cap - (h + d') / cap = 0) by nia. lia.
Qed.

Lemma probe_surj cap h i : 0 <= i < cap -> exists d, 0 <= d < cap /\ probe cap h d = i.
Proof.
  intros Hi. exists ((i - h) mod cap). split; [apply Z.mod_pos_bound; lia|].
  unfold probe. rewrite Zplus_mod_idemp_r. rewrite Zplus_minus. by apply Z.mod_small.
Qed.

Lemma probe_wrap cap h : 0 < cap -> probe cap h cap = probe cap h 0.
Proof. intros. unfold probe. rewrite Z.add_0_r. rewrite <- (Z_mod_plus_full h 1 cap). f_equal; lia. Qed.

Lemma slot_in (sl : list (option entry)) i :
  0 <= i < Z.of_nat (length sl) -> exists o, slot sl i = Some o /\ sl !! Z.to_nat i = Some o.
Proof.
  intros Hi. unfold slot. destruct (Z.ltb_spec i 0); [lia|].
  destruct (lookup_lt_is_Some_2 sl (Z.to_nat i)) as [o Ho]; [lia|]. by exists o.
Qed.

Lemma slot_set (sl : list (option entry)) i j o :
  0 <= i < Z.of_nat (length sl) ->
  slot (<[Z.to_nat i := o]> sl) j = if decide (j = i) then Some o else slot sl j.
Proof.
  intros Hi. unfold slot. destruct (Z.ltb_spec j 0).
  - destruct (decide (j = i)); [lia|done].
  - destruct (decide (j = i)) as [->|]; [apply list_lookup_insert_eq; lia|].
    apply list_lookup_insert_ne. lia.
Qed.

(** ** Lookup *)

Section Find.
(** The keys on which the comparison is an equality test. *)
Variable okk : K -> Prop.
Hypothesis cmp_eq : forall a b, okk a -> okk b -> cmp a b = 0 <-> a = b.

Definition keys_ok (m : map) : Prop := forall i e, slot (slots m) i = Some (Some e) -> okk (e_key e).

(** What a scan from probe position [d] finds. *)
Lemma find_loop_spec m key h fuel d :
  map_wf m -> keys_ok m -> okk key -> 0 <= d < m_cap m -> Z.of_nat fuel = m_cap m - d ->
  exists r, find_loop fuel m key (probe (m_cap m) h 0) (probe (m_cap m) h d) = Ok r /\
    match r with
    | Some v => exists i e, slot (slots m) i = Some (Some e) /\ e_key e = key /\ e_val e = v
    | None => forall D e, d <= D < m_cap m ->
        (forall d', d <= d' < D -> occupied (slots m) (probe (m_cap m) h d')) ->
        slot (slots m) (probe (m_cap m) h D) = Some (Some e) -> e_key e <> key
    end.
Proof.
  intros Hwf Hk Hkey. revert d. induction fuel as [|fuel IH]; intros d Hd Hf; [lia|].
  pose proof Hwf as [(k & Hk0 & Hcap) Hsl _ _ _]. cbn [find_loop].
  destruct (slot_in (slots m) (probe (m_cap m) h d)) as (o & Ho & _).
  { rewrite Hsl. apply probe_range. lia. }
  rewrite Ho. destruct o as [e|].
  2: { exists None. split; [done|]. intros D e HD Hocc He.
       destruct (decide (D = d)) as [->|]; [congruence|].
       destruct (Hocc d ltac:(lia)) as (e' & He'). congruence. }
  pose proof (cmp_eq (e_key e) key (Hk _ _ Ho) Hkey) as Hc.
  destruct (Z.eqb_spec (cmp (e_key e) key) 0) as [E|E].
  { exists (Some (e_val e)). split; [done|]. exists (probe (m_cap m) h d), e. tauto. }
  assert (Hne : e_key e <> key) by tauto.
  assert (Hnx : next_index (m_cap m) (probe (m_cap m) h d) = probe (m_cap m) h (d + 1))
    by (rewrite Hcap; apply next_probe; lia).
  cbv zeta. rewrite Hnx.
  destruct (Z.eqb_spec (probe (m_cap m) h 0) (probe (m_cap m) h (d + 1))) as [Ew|Ew].
  - exists None. split; [done|]. intros D e' HD Hocc He'.
    assert (d + 1 = m_cap m) as Hend.
    { destruct (Z.ltb_spec (d + 1) (m_cap m)); [|lia].
      pose proof (probe_eq (m_cap m) h 0 (d + 1) ltac:(lia) ltac:(lia) ltac:(lia) Ew). lia. }
    assert (D = d) as -> by lia. congruence.
  - assert (d + 1 < m_cap m).
    { destruct (Z.ltb_spec (d + 1) (m_cap m)); [done|]. exfalso. apply Ew.
      replace (d + 1) with (m_cap m) by lia. symmetry. apply probe_wrap. lia. }
    destruct (IH (d + 1) ltac:(lia) ltac:(lia)) as (r & Hr & Hspec). exists r. split; [done|].
    destruct r as [v|]; [done|]. intros D e' HD Hocc He'.
    destruct (decide (D = d)) as [->|]; [congruence|]. apply (Hspec D e'); [lia| |done].
    intros d' Hd'. apply Hocc. lia.
Qed.

(** [find] returns the value of an entry with the key when there is one. *)
Lemma map_find_spec m key :
  map_wf m -> keys_ok m -> okk key ->
  exists r, map_find m key = Ok r /\
    match r with
    | Some v => exists i e, slot (slots m) i = Some (Some e) /\ e_key e = key /\ e_val e = v
    | None => forall i e, slot (slots m) i = Some (Some e) -> e_key e <> key
    end.
Proof.
  intros Hwf Hk Hkey. pose proof Hwf as [(k & Hk0 & Hcap) Hsl _ Hh Hre].
  pose proof (pow2_pos k ltac:(lia)) as Hp.
  destruct (find_loop_spec m key (map_hash key) (Z.to_nat (m_cap m)) 0 Hwf Hk Hkey) as (r & Hr & Hs);
    [lia|lia|].
  assert (Hhome : Z.land (map_hash key) (m_cap m - 1) = probe (m_cap m) (map_hash key) 0)
    by (rewrite Hcap; apply home_probe; lia).
  exists r. unfold map_find. cbv zeta. rewrite Hhome.
  split; [done|]. destruct r as [v|]; [done|]. intros i e He E.
  pose proof (Hh _ _ He) as Hhe. rewrite E in Hhe.
  destruct (Hre i e He) as (d & Hd & -> & Hocc). rewrite Hhe in He, Hocc.
  apply (Hs d e); [lia| |done|done]. intros d' Hd'. apply Hocc. lia.
Qed.

(** ** Placing an entry *)

Lemma free_slot_spec sl k h fuel d :
  0 <= k -> Z.of_nat (length sl) = 2 ^ k -> 0 <= d -> Z.of_nat fuel = 2 ^ k - d ->
  (exists D, d <= D < 2 ^ k /\ slot sl (probe (2 ^ k) h D) = Some None) ->
  exists D, free_slot fuel sl (2 ^ k) (probe (2 ^ k) h d) = Some (probe (2 ^ k) h D) /\
    d <= D < 2 ^ k /\ slot sl (probe (2 ^ k) h D) = Some None /\
    forall d', d <= d' < D -> occupied sl (probe (2 ^ k) h d').
Proof.
  intros Hk Hl. pose proof (pow2_pos k Hk). revert d.
  induction fuel as [|fuel IH]; intros d Hd Hf (D & HD & Hfree); [lia|]. cbn [free_slot].
  destruct (slot_in sl (probe (2 ^ k) h d)) as (o & Ho & _); [rewrite Hl; by apply probe_range|].
  rewrite Ho. destruct o as [e|].
  - rewrite next_probe by done.
    assert (D <> d) by (intros ->; congruence).
    destruct (IH (d + 1) ltac:(lia) ltac:(lia)) as (D' & Hr & HD' & Hf' & Hocc).
    { exists D. split; [lia|done]. }
    exists D'. split; [done|]. split; [lia|]. split; [done|]. intros d' Hd'.
    destruct (decide (d' = d)) as [->|]; [by exists e|]. apply Hocc. lia.
  - exists d. split; [done|]. split; [lia|]. split; [done|]. lia.
Qed.

Lemma some_free (sl : list (option entry)) :
  (length (omap id sl) < length sl)%nat -> exists i, 0 <= i < Z.of_nat (length sl) /\ slot sl i = Some None.
Proof.
  induction sl as [|[e|] sl IH]; intros Hl; cbn in Hl; [lia| |].
  - destruct (IH ltac:(lia)) as (i & Hi & Hs). exists (i + 1). split; [cbn [length]; lia|].
    unfold slot in *. destruct (Z.ltb_spec i 0); [lia|]. destruct (Z.ltb_spec (i + 1) 0); [lia|].
    by replace (Z.to_nat (i + 1)) with (S (Z.to_nat i)) by lia.
  - exists 0. split; [cbn [length]; lia|done].
Qed.

Lemma omap_place (sl : list (option entry)) i e :
  sl !! i = Some None -> omap id (<[i := Some e]> sl) ≡ₚ e :: omap id sl.
Proof.
  revert i. induction sl as [|o sl IH]; intros [|i] Hi; try done; simpl in *.
  - injection Hi as ->. done.
  - destruct o as [e'|]; simpl; rewrite (IH i Hi); [apply Permutation_swap|done].
Qed.

Lemma place_spec m key val :
  map_wf m -> m_len m < m_cap m ->
  exists m', place m (map_hash key) key val = Ok m' /\ map_wf m' /\
    entries m' ≡ₚ mk_entry (map_hash key) key val :: entries m /\
    m_cap m' = m_cap m /\ grow_limit m' = grow_limit m /\ m_len m' = m_len m + 1.
Proof.
  intros Hwf Hlt. pose proof Hwf as [(k & Hk0 & Hcap) Hsl Hlen Hh Hre].
  pose proof (pow2_pos k ltac:(lia)) as Hp. set (h := map_hash key).
  destruct (some_free (slots m)) as (i & Hi & Hfree).
  { fold (entries m). lia. }
  destruct (probe_surj (m_cap m) h i ltac:(lia)) as (D0 & HD0 & Hpi).
  destruct (free_slot_spec (slots m) k h (Z.to_nat (m_cap m)) 0) as (D & Hrun & HD & Hf & Hocc);
    [lia|lia|lia|lia| |].
  { exists D0. rewrite <- Hcap, Hpi. split; [lia|done]. }
  rewrite <- Hcap in *.
  assert (Hidx : 0 <= probe (m_cap m) h D < Z.of_nat (length (slots m)))
    by (rewrite Hsl; apply probe_range; lia).
  assert (Hhome : Z.land h (m_cap m - 1) = probe (m_cap m) h 0) by (rewrite Hcap; apply home_probe; lia).
  unfold place. rewrite Hhome, Hrun. eexists. split; [done|]. cbn [m_cap grow_limit m_len].
  assert (Hent : entries (mk_umap (<[Z.to_nat (probe (m_cap m) h D) := Some (mk_entry h key val)]> (slots m))
                   (m_len m + 1) (m_cap m) (grow_limit m)) ≡ₚ mk_entry h key val :: entries m).
  { unfold entries. cbn [slots]. apply omap_place.
    destruct (slot_in _ _ Hidx) as (o & Ho & Hl). congruence. }
  split; [|done]. split; cbn [m_cap slots m_len].
  - by exists k.
  - by rewrite length_insert.
  - rewrite Hent. simpl. lia.
  - intros j e. rewrite slot_set by done. destruct (decide _); [intros [= <-]; done|apply Hh].
  - intros j e. rewrite slot_set by done.
    assert (Hmono : forall x, occupied (slots m) x ->
      occupied (<[Z.to_nat (probe (m_cap m) h D) := Some (mk_entry h key val)]> (slots m)) x).
    { intros x (e' & He'). unfold occupied. rewrite slot_set by done. destruct (decide _); by eexists. }
    destruct (decide _) as [->|].
    + intros [= <-]. exists D. cbn [e_hash]. split; [lia|]. split; [done|]. intros d' Hd'. by apply Hmono, Hocc.
    + intros He. destruct (Hre j e He) as (d & Hd & -> & Ho). exists d. split; [done|]. split; [done|].
      intros d' Hd'. by apply Hmono, Ho.
Qed.

(** ** Growing *)

(** The copying loop of [grow], with [ins] for the nested insertion. *)
Fixpoint copy_slots (ins : map -> Z -> K -> V -> outcome map) (sl : list (option entry)) (next_m : map) :
    outcome map :=
  match sl with
  | [] => Ok next_m
  | None :: sl' => copy_slots ins sl' next_m
  | Some e :: sl' =>
      match ins next_m (e_hash e) (e_key e) (e_val e) with
      | Ok next_m => copy_slots ins sl' next_m
      | r => r
      end
  end.

Lemma insert_unchk_eq depth m h key val :
  map_insert_hash_unchk (S depth) m h key val =
    match place m h key val with
    | Ok m =>
        if m_len m >=? grow_limit m then
          let next_cap := u64 (Z.shiftl (m_cap m) 1) in
          if next_cap <? m_cap m then Ok m
          else
            match map_init_cap next_cap with
            | Ok next_m => copy_slots (map_insert_hash_unchk depth) (slots m) next_m
            | Err _ => Ok m
            | Undef => Undef
            end
        else Ok m
    | r => r
    end.
Proof.
  cbn [map_insert_hash_unchk]. destruct (place m h key val) as [m'| |]; [|done|done].
  destruct (_ >=? _); [|done]. cbv zeta. destruct (_ <? _); [done|].
  destruct (map_init_cap _) as [m0| |]; [|done|done]. generalize (slots m').
  intros sl. revert m0. induction sl as [|[e|] sl IH]; intros m0; cbn [copy_slots]; [done| |by apply IH].
  destruct (map_insert_hash_unchk depth m0 (e_hash e) (e_key e) (e_val e)); [|done|done]. by apply IH.
Qed.

(** The half-load growth limit. *)
Definition half_limit (m : map) : Prop := grow_limit m = m_cap m / 2.

(** [insert_hash_unchk] with nesting [depth] inserts into every map that keeps
    at most [bound cap] entries. *)
Definition inserts (depth : nat) (bound : Z -> Z) : Prop := forall m key val,
  map_wf m -> half_limit m -> m_len m + 1 <= m_cap m -> m_len m + 1 <= bound (m_cap m) ->
  exists m', map_insert_hash_unchk depth m (map_hash key) key val = Ok m' /\
    map_wf m' /\ half_limit m' /\ m_cap m <= m_cap m' /\
    entries m' ≡ₚ mk_entry (map_hash key) key val :: entries m.

Lemma init_cap_spec k :
  0 <= k < 64 ->
  map_init_cap (2 ^ k) = Err (- ENOMEM) \/
  exists m, map_init_cap (2 ^ k) = Ok m /\ map_wf m /\ half_limit m /\ m_cap m = 2 ^ k /\ entries m = [].
Proof.
  intros Hk. pose proof (pow2_pos k ltac:(lia)) as Hp. unfold map_init_cap.
  assert (Hb : map_is_pow2 (2 ^ k) = true).
  { unfold map_is_pow2, c_true. destruct (Z.eqb_spec (2 ^ k) 0); [lia|]. cbn [negb].
    rewrite u64_small by (unfold is_u64; pose proof (Z.pow_lt_mono_r 2 k 64); lia).
    rewrite land_cap by lia. apply Z.eqb_eq, Z.mod_same. lia. }
  rewrite Hb. cbn [negb]. destruct (malloc_ok (2 ^ k)); [right|by left].
  eexists. split; [done|].
  assert (Hent : omap id (replicate (Z.to_nat (2 ^ k)) (@None entry)) = [])
    by (induction (Z.to_nat (2 ^ k)) as [|n IH]; [done|exact IH]).
  assert (Hno : forall i e, slot (replicate (Z.to_nat (2 ^ k)) (@None entry)) i <> Some (Some e)).
  { intros i e. unfold slot. destruct (i <? 0); [done|].
    intros Hl. apply lookup_replicate in Hl as [Hl _]. done. }
  split; [|split; [unfold half_limit; cbn; by rewrite Z.shiftr_div_pow2 by lia|done]].
  split; cbn [m_cap slots m_len].
  - by exists k.
  - rewrite length_replicate. lia.
  - unfold entries. cbn [slots]. by rewrite Hent.
  - intros i e He. by apply Hno in He.
  - intros i e He. by apply Hno in He.
Qed.

Lemma copy_slots_spec depth bound (sl : list (option entry)) m :
  inserts depth bound -> (forall c c', 0 < c <= c' -> bound c <= bound c') ->
  map_wf m -> half_limit m -> (forall o e, o ∈ sl -> o = Some e -> e_hash e = map_hash (e_key e)) ->
  m_len m + Z.of_nat (length (omap id sl)) <= m_cap m ->
  m_len m + Z.of_nat (length (omap id sl)) <= bound (m_cap m) ->
  exists m', copy_slots (map_insert_hash_unchk depth) sl m = Ok m' /\
    map_wf m' /\ half_limit m' /\ m_cap m <= m_cap m' /\ entries m' ≡ₚ omap id sl ++ entries m.
Proof.
  intros Hins Hmono. revert m. induction sl as [|[e|] sl IH]; intros m Hwf Hhl Hh Hc Hb; cbn [copy_slots].
  - exists m. split_and!; try done.
  - cbn in Hc, Hb. pose proof Hwf as [(k & Hk & Hcap) _ Hlen _ _]. pose proof (pow2_pos k ltac:(lia)).
    rewrite (Hh (Some e) e) by (try done; apply elem_of_cons; by left).
    destruct (Hins m (e_key e) (e_val e) Hwf Hhl ltac:(lia) ltac:(lia))
      as (m1 & Hrun & Hwf1 & Hhl1 & Hc1 & He1).
    pose proof Hwf1 as [_ _ Hlen1 _ _]. rewrite He1 in Hlen1. cbn [length] in Hlen1.
    pose proof (Hmono (m_cap m) (m_cap m1) ltac:(lia)) as Hm.
    rewrite Hrun. destruct (IH m1 Hwf1 Hhl1) as (m2 & Hrun2 & Hwf2 & Hhl2 & Hc2 & He2);
      [intros o e' Ho; apply Hh; apply elem_of_cons; by right|lia|lia|].
    exists m2. split; [done|]. split; [done|]. split; [done|]. split; [lia|].
    rewrite He2, He1. cbn. rewrite <- Permutation_middle.
    rewrite <- (Hh (Some e) e) by (try done; apply elem_of_cons; by left). by destruct e.
  - cbn in Hc, Hb. destruct (IH m Hwf Hhl) as (m2 & Hrun2 & Hr); [|lia|lia|].
    + intros o e Ho. apply Hh. apply elem_of_cons. by right.
    + exists m2. split; [done|exact Hr].
Qed.

Lemma slots_hash m o e :
  map_wf m -> o ∈ slots m -> o = Some e -> e_hash e = map_hash (e_key e).
Proof.
  intros [_ _ _ Hh _] Hin ->. apply list_elem_of_lookup in Hin as (i & Hi).
  apply (Hh (Z.of_nat i)). unfold slot. destruct (Z.ltb_spec (Z.of_nat i) 0); [lia|].
  by rewrite Nat2Z.id.
Qed.

(** One more level of nesting allows larger maps. *)
Lemma inserts_step depth bound bound' :
  inserts depth bound -> (forall c c', 0 < c <= c' -> bound c <= bound c') ->
  (forall k, 0 <= k -> bound' (2 ^ k) <= bound (2 ^ (k + 1))) -> inserts (S depth) bound'.
Proof.
  intros Hins Hmono Hb m key val Hwf Hhl Hcap Hbd. rewrite insert_unchk_eq.
  destruct (place_spec m key val Hwf ltac:(lia)) as (m1 & Hrun & Hwf1 & He1 & Hc1 & Hl1 & Hn1).
  rewrite Hrun. assert (Hhl1 : half_limit m1) by (unfold half_limit in *; congruence).
  assert (Hsame : map_wf m1 /\ half_limit m1 /\ m_cap m <= m_cap m1 /\
    entries m1 ≡ₚ mk_entry (map_hash key) key val :: entries m) by (split_and!; (done || lia)).
  destruct (m_len m1 >=? grow_limit m1); [|by exists m1]. cbv zeta.
  destruct (Z.ltb_spec (u64 (Z.shiftl (m_cap m1) 1)) (m_cap m1)) as [_|Hnc]; [by exists m1|].
  pose proof Hwf1 as [(k & Hk & Hcap1) Hsl1 Hlen1 _ _]. pose proof (pow2_pos k ltac:(lia)) as Hp.
  assert (Hcap2 : u64 (Z.shiftl (m_cap m1) 1) = 2 ^ (k + 1) /\ k + 1 < 64).
  { rewrite Z.shiftl_mul_pow2, Hcap1 in * by lia. rewrite <- Z.pow_add_r in * by lia.
    destruct (decide (k = 63)) as [->|]; [by vm_compute in Hnc|].
    rewrite u64_small by (unfold is_u64; pose proof (Z.pow_lt_mono_r 2 (k + 1) 64);
      pose proof (pow2_pos (k + 1)); lia). lia. }
  destruct Hcap2 as [-> Hk1]. destruct (init_cap_spec (k + 1) ltac:(lia)) as [->|(m0 & -> & Hwf0 & Hhl0 & Hc0 & He0)].
  { by exists m1. }
  assert (Hm0 : m_len m0 = 0) by (destruct Hwf0; rewrite wf_len0, He0; done).
  assert (E2 : 2 ^ (k + 1) = 2 * 2 ^ k) by (rewrite Z.pow_add_r by lia; lia).
  pose proof (Hb k ltac:(lia)) as Hbk. rewrite <- Hcap1, Hc1 in Hbk.
  destruct (copy_slots_spec depth bound (slots m1) m0) as (m2 & Hrun2 & Hwf2 & Hhl2 & Hc2 & He2); try done.
  - intros o e. by apply slots_hash.
  - fold (entries m1). lia.
  - fold (entries m1). rewrite Hc0. lia.
  - exists m2. split; [done|]. split; [done|]. split; [done|]. split; [lia|].
    rewrite He2, He0, app_nil_r. exact He1.
Qed.

Lemma inserts_1 : inserts 1 (fun c => c / 2 - 1).
Proof.
  intros m key val Hwf Hhl Hcap Hbd. rewrite insert_unchk_eq.
  destruct (place_spec m key val Hwf ltac:(lia)) as (m1 & Hrun & Hwf1 & He1 & Hc1 & Hl1 & Hn1).
  rewrite Hrun. unfold half_limit in *.
  destruct (Z.geb_spec (m_len m1) (grow_limit m1)) as [|_]; [lia|].
  exists m1. split_and!; try done; try lia. congruence.
Qed.

(** [grow_depth] levels are enough for every map with a free slot. *)
Lemma inserts_any : inserts grow_depth (fun c => c).
Proof.
  apply (inserts_step 2 (fun c => c / 2)).
  - apply (inserts_step 1 (fun c => c / 2 - 1)); [apply inserts_1| |].
    + intros c c' Hc. zlia.
    + intros k Hk. pose proof (pow2_pos k Hk). rewrite Z.pow_add_r by lia.
      change (2 ^ 1) with 2. generalize dependent (2 ^ k). intros. zlia.
  - intros c c' Hc. zlia.
  - intros k Hk. rewrite Z.pow_add_r by lia. change (2 ^ 1) with 2. generalize (2 ^ k). intros. zlia.
Qed.

(** ** The map as a finite map *)

Definition keys_distinct (m : map) : Prop := NoDup (e_key <$> entries m).

Lemma slot_entry m e : (exists i, slot (slots m) i = Some (Some e)) <-> e ∈ entries m.
Proof.
  unfold entries. split.
  - intros (i & Hi). unfold slot in Hi. destruct (i <? 0); [done|]. apply list_elem_of_omap.
    exists (Some e). split; [|done]. by eapply list_elem_of_lookup_2.
  - intros (o & Ho & E)%list_elem_of_omap. cbn in E. subst o.
    apply list_elem_of_lookup in Ho as (i & Hi). exists (Z.of_nat i). unfold slot.
    destruct (Z.ltb_spec (Z.of_nat i) 0); [lia|]. by rewrite Nat2Z.id.
Qed.

(** [find] on a map with distinct keys, as a statement on its entries. *)
Lemma map_find_entries m key r :
  map_wf m -> keys_ok m -> okk key -> keys_distinct m ->
  map_find m key = Ok r <->
  match r with
  | Some v => exists e, e ∈ entries m /\ e_key e = key /\ e_val e = v
  | None => forall e, e ∈ entries m -> e_key e <> key
  end.
Proof.
  intros Hwf Hk Hkey Hnd. destruct (map_find_spec m key Hwf Hk Hkey) as (r' & Hr & Hs). rewrite Hr.
  assert (Huniq : forall e e', e ∈ entries m -> e' ∈ entries m -> e_key e = e_key e' -> e = e').
  { intros e e' He He' E. apply list_elem_of_lookup in He as (i & Hi). apply list_elem_of_lookup in He' as (j & Hj).
    assert (i = j) as ->.
    { apply (NoDup_lookup (e_key <$> entries m) i j (e_key e)); [done| |];
        rewrite list_lookup_fmap, ?Hi, ?Hj; simpl; congruence. }
    congruence. }
  assert (Hs' : match r' with
    | Some v => exists e, e ∈ entries m /\ e_key e = key /\ e_val e = v
    | None => forall e, e ∈ entries m -> e_key e <> key end).
  { destruct r' as [v|].
    - destruct Hs as (i & e & Hi & H1 & H2). exists e. split; [apply slot_entry; by exists i|done].
    - intros e He. apply slot_entry in He as (i & Hi). by eapply Hs. }
  split.
  - intros [= <-]. done.
  - intros Hr'. f_equal. destruct r as [v|], r' as [v'|]; try done.
    + destruct Hr' as (e & H1 & H2 & <-), Hs' as (e' & H1' & H2' & <-).
      by rewrite (Huniq e e') by congruence.
    + destruct Hr' as (e & H1 & H2 & _). by apply Hs' in H1.
    + destruct Hs' as (e & H1 & H2 & _). by apply Hr' in H1.
Qed.

Lemma map_insert_spec m key val :
  map_wf m -> half_limit m -> keys_ok m -> keys_distinct m -> okk key ->
  map_find m key = Ok None -> m_len m < m_cap m ->
  exists m', map_insert m key val = Ok m' /\
    map_wf m' /\ half_limit m' /\ keys_ok m' /\ keys_distinct m' /\ m_cap m <= m_cap m' /\
    entries m' ≡ₚ mk_entry (map_hash key) key val :: entries m.
Proof.
  intros Hwf Hhl Hk Hnd Hkey Hfresh Hlt. unfold map_insert.
  destruct (Z.geb_spec (m_len m) (m_cap m)) as [|_]; [lia|].
  destruct (inserts_any m key val Hwf Hhl ltac:(lia) ltac:(cbv beta; lia)) as (m' & Hrun & Hwf' & Hhl' & Hc & He).
  exists m'. split_and!; try done.
  - intros i e Hi. assert (Hin : e ∈ entries m') by (apply slot_entry; by exists i).
    rewrite He in Hin. apply elem_of_cons in Hin as [->|Hin]; [done|].
    apply slot_entry in Hin as (j & Hj). by apply (Hk j).
  - unfold keys_distinct. rewrite He. cbn. apply NoDup_cons_2; [|done].
    intros Hin. apply list_elem_of_fmap in Hin as (e & E & Hin).
    by apply (proj1 (map_find_entries m key None Hwf Hk Hkey Hnd) Hfresh e Hin).
Qed.
End Find.
End Map.

(** The invariant of a map whose keys [okk] compares correctly. *)
Record map_inv {K V} (hash : K -> Z) (okk : K -> Prop) (m : umap K V) : Prop := {
  inv_wf : map_wf hash m;
  inv_half : half_limit m;
  inv_keys : keys_ok okk m;
  inv_distinct : keys_distinct m
}.

(** The comparison is an equality test on the keys of [okk]. *)
Definition cmp_ok {K} (cmp : K -> K -> Z) (okk : K -> Prop) : Prop :=
  forall a b, okk a -> okk b -> cmp a b = 0 <-> a = b.

(** What a lookup finds is the value of a slot. *)
Lemma map_find_slot {K V} (hash : K -> Z) cmp (m : umap K V) key v :
  map_find hash cmp m key = Ok (Some v) -> exists e, Some e ∈ slots m /\ e_val e = v.
Proof.
  unfold map_find. set (i := Z.land _ _). clearbody i. revert i. generalize (Z.to_nat (m_cap m)) as fuel.
  intros fuel i. generalize i at 1. intros i0. revert i. induction fuel as [|fuel IH]; intros i; cbn; [done|].
  destruct (slot (slots m) i) as [[e|]|] eqn:E; [|done|done].
  destruct (cmp (e_key e) key =? 0).
  - intros [= <-]. exists e. split; [|done]. unfold slot in E. case_match; [done|]. by apply list_elem_of_lookup_2 in E.
  - case_match; [done|]. apply IH.
Qed.

(** C33: for keys that the comparison tells apart ([cmp_ok] on the keys [okk]; the
    64-bit ids of the program's maps are such keys below 2^32, see [uint64cmp_mod]):
    inserting a key that is not in the map, when a slot is free, succeeds
    whatever allocation of the larger table fails, keeps the invariant, and then
    finds the new key with its value and every other such key as before.  On these
    keys the probing table refines a finite map, and every probing and growing loop
    ends. *)
Theorem map_insert_find {K V} (hash : K -> Z) cmp malloc_ok okk (m : umap K V) key val :
  cmp_ok cmp okk -> map_inv hash okk m -> okk key ->
  map_find hash cmp m key = Ok None -> m_len m < m_cap m ->
  exists m', map_insert hash malloc_ok m key val = Ok m' /\ map_inv hash okk m' /\
    map_find hash cmp m' key = Ok (Some val) /\
    forall k, okk k -> k <> key -> map_find hash cmp m' k = map_find hash cmp m k.
Proof.
  intros Hc [Hwf Hhl Hk Hnd] Hkey Hfresh Hlt.
  destruct (map_insert_spec hash cmp malloc_ok okk Hc m key val Hwf Hhl Hk Hnd Hkey Hfresh Hlt)
    as (m' & Hrun & Hwf' & Hhl' & Hk' & Hnd' & _ & He).
  exists m'. split; [done|]. split; [done|]. split.
  - apply (proj2 (map_find_entries hash cmp malloc_ok okk Hc m' key (Some val) Hwf' Hk' Hkey Hnd')).
    exists (mk_entry (map_hash hash key) key val). split; [|done]. rewrite He. apply elem_of_cons. by left.
  - intros k Hok Hne. destruct (map_find_spec hash cmp malloc_ok okk Hc m k Hwf Hk Hok) as (r & Hr & _).
    rewrite Hr. apply (proj1 (map_find_entries hash cmp malloc_ok okk Hc m k r Hwf Hk Hok Hnd)) in Hr.
    apply (proj2 (map_find_entries hash cmp malloc_ok okk Hc m' k r Hwf' Hk' Hok Hnd')). destruct r as [v|].
    + destruct Hr as (e & Hin & H1 & H2). exists e. split; [|done]. rewrite He. apply elem_of_cons. by right.
    + intros e. rewrite He. intros [->|Hin]%elem_of_cons; [by cbn; apply not_eq_sym|by apply Hr].
Qed.

(** The comparison of the maps keyed by 64-bit ids is zero exactly when the
    ids agree modulo [2^32]: the difference is truncated to an [int], so two ids
    a multiple of [2^32] apart are one key, against the map's own contract that
    the comparison be zero if equal. *)
Theorem uint64cmp_mod v1 v2 :
  is_u64 v1 -> is_u64 v2 -> uint64cmp v1 v2 = 0 <-> v1 mod 2 ^ 32 = v2 mod 2 ^ 32.
Proof.
  intros H1 H2. unfold uint64cmp, i32, wrap_signed, u64.
  assert (E : (v2 - v1) mod 2 ^ 64 mod 2 ^ 32 = (v2 - v1) mod 2 ^ 32).
  { rewrite <- Znumtheory.Zmod_div_mod; [done|lia|lia|]. exists (2 ^ 32). reflexivity. }
  rewrite E. pose proof (Z.mod_pos_bound (v2 - v1) (2 ^ 32) ltac:(lia)).
  assert (Hz : (v2 - v1) mod 2 ^ 32 = 0 <-> v1 mod 2 ^ 32 = v2 mod 2 ^ 32).
  { rewrite Zminus_mod. pose proof (Z.mod_pos_bound v1 (2 ^ 32)). pose proof (Z.mod_pos_bound v2 (2 ^ 32)).
    set (a := v1 mod 2 ^ 32) in *. set (b := v2 mod 2 ^ 32) in *. split; intros Hab; [|subst b; rewrite Hab; subst a; by rewrite Z.sub_diag].
    destruct (Z.leb_spec a b); [rewrite Z.mod_small in Hab by lia; lia|].
    assert ((b - a) mod 2 ^ 32 = b - a + 2 ^ 32) as Hm; [|lia].
    symmetry. apply (Z.mod_unique_pos _ _ (-1)); lia. }
  destruct (Z.ltb_spec ((v2 - v1) mod 2 ^ 32) (2 ^ (32 - 1))); rewrite <- Hz; lia.
Qed.

Example uint64cmp_mod_witness :
  uint64cmp 5 (5 + 2 ^ 32) = 0 <-> 5 mod 2 ^ 32 = (5 + 2 ^ 32) mod 2 ^ 32.
Proof. apply (uint64cmp_mod 5 (5 + 2 ^ 32)); split; lia. Defined.

(** The 64-bit maps compare correctly the ids below [2^32]. *)
Lemma uint64cmp_ok : cmp_ok uint64cmp (fun k => 0 <= k < 2 ^ 32).
Proof.
  intros a b Ha Hb. unfold uint64cmp, i32, wrap_signed, u64.
  assert (E : (b - a) mod 2 ^ 64 mod 2 ^ 32 = (b - a) mod 2 ^ 32).
  { rewrite <- Znumtheory.Zmod_div_mod; [done|lia|lia|]. exists (2 ^ 32). reflexivity. }
  rewrite E. destruct (Z.leb_spec a b).
  - rewrite Z.mod_small by lia. destruct (Z.ltb_spec (b - a) (2 ^ (32 - 1))); lia.
  - assert (Hm : (b - a) mod 2 ^ 32 = b - a + 2 ^ 32).
    { symmetry. apply (Z.mod_unique_pos _ _ (-1)); lia. }
    rewrite Hm. destruct (Z.ltb_spec (b - a + 2 ^ 32) (2 ^ (32 - 1))); lia.
Qed.

(** A map with ids 3, 11 and 4, built by the code. *)
Definition sample_map : umap Z Z :=
  match map_init (fun _ => true) with
  | Ok m =>
      match map_insert hash_uint64 (fun _ => true) m 3 30 with
      | Ok m =>
          match map_insert hash_uint64 (fun _ => true) m 11 110 with
          | Ok m => m
          | _ => mk_umap [] 0 0 0
          end
      | _ => mk_umap [] 0 0 0
      end
  | _ => mk_umap [] 0 0 0
  end.

Lemma init_inv malloc_ok : 
  match map_init malloc_ok with
  | Ok m => map_inv hash_uint64 (fun k => 0 <= k < 2 ^ 32) (m : umap Z Z) /\ m_len m = 0
  | Err rc => rc = - ENOMEM
  | Undef => False
  end.
Proof.
  unfold map_init. destruct (@init_cap_spec Z Z hash_uint64 malloc_ok 3 ltac:(lia)) as [E|(m & E & Hwf & Hhl & _ & He)].
  - change 8 with (2 ^ 3). by rewrite E.
  - change 8 with (2 ^ 3). rewrite E. split; [split; try done|].
    + intros i e Hi. assert (Hin : e ∈ entries m) by (apply slot_entry; by exists i).
      rewrite He in Hin. by apply not_elem_of_nil in Hin.
    + unfold keys_distinct. rewrite He. apply NoDup_nil_2.
    + destruct Hwf. rewrite wf_len0, He. done.
Qed.

Lemma sample_inv : map_inv hash_uint64 (fun k => 0 <= k < 2 ^ 32) sample_map.
Proof.
  assert (Hno : forall i : Z, slot (slots sample_map) i <> None -> 0 <= i < 8).
  { intros i. unfold slot. destruct (Z.ltb_spec i 0); [done|]. intros Hi.
    destruct (slots sample_map !! Z.to_nat i) eqn:E; [|done].
    apply lookup_lt_Some in E.
    assert (Hl : length (slots sample_map) = 8%nat) by reflexivity. lia. }
  assert (Hcase : forall i e, slot (slots sample_map) i = Some (Some e) ->
    (i = 3 /\ e = mk_entry 3 3 30) \/ (i = 4 /\ e = mk_entry 11 11 110)).
  { intros i e Hi. assert (Hr : 0 <= i < 8) by (apply Hno; congruence).
    assert (Hd : i = 0 \/ i = 1 \/ i = 2 \/ i = 3 \/ i = 4 \/ i = 5 \/ i = 6 \/ i = 7) by lia.
    destruct Hd as [->|[->|[->|[->|[->|[->|[->| ->]]]]]]]; vm_compute in Hi; naive_solver. }
  split.
  - split.
    + exists 3. split; [lia|reflexivity].
    + reflexivity.
    + reflexivity.
    + intros i e Hi. destruct (Hcase i e Hi) as [[-> ->]|[-> ->]]; reflexivity.
    + intros i e Hi. destruct (Hcase i e Hi) as [[-> ->]|[-> ->]].
      * exists 0. split; [vm_compute; done|]. split; [reflexivity|]. intros. lia.
      * exists 1. split; [vm_compute; done|]. split; [reflexivity|]. intros d' Hd'.
        replace d' with 0 by lia. exists (mk_entry 3 3 30). reflexivity.
  - reflexivity.
  - intros i e Hi. destruct (Hcase i e Hi) as [[-> ->]|[-> ->]]; cbn; lia.
  - unfold keys_distinct. change (NoDup [3; 11]). apply NoDup_ListNoDup.
    repeat constructor; simpl; lia.
Qed.

Example map_insert_find_witness :
  exists m', map_insert hash_uint64 (fun _ => false) sample_map 4 40 = Ok m' /\
    map_inv hash_uint64 (fun k => 0 <= k < 2 ^ 32) m' /\
    map_find hash_uint64 uint64cmp m' 4 = Ok (Some 40) /\
    forall k, 0 <= k < 2 ^ 32 -> k <> 4 ->
      map_find hash_uint64 uint64cmp m' k = map_find hash_uint64 uint64cmp sample_map k.
Proof.
  apply (map_insert_find hash_uint64 uint64cmp (fun _ => false) (fun k => 0 <= k < 2 ^ 32) sample_map 4 40).
  - apply uint64cmp_ok.
  - apply sample_inv.
  - lia.
  - reflexivity.
  - reflexivity.
Defined.

(** Deleting a key can make other keys unreachable: the back-shifting loop
    stops at the first entry in its home slot, although a later entry may have
    been displaced past the freed slot.  In the table of 8 slots built by
    inserting 0, 1 and 8, deleting 0 leaves 8 in the table but not found.  The
    length is not decremented either. *)
Theorem map_delete_loses_entry :
  exists m m' : umap Z Z,
    (m0 ← (match map_init (fun _ => true) with Ok m => Some m | _ => None end);
     m1 ← (match map_insert hash_uint64 (fun _ => true) m0 0 100 with Ok m => Some m | _ => None end);
     m2 ← (match map_insert hash_uint64 (fun _ => true) m1 1 101 with Ok m => Some m | _ => None end);
     match map_insert hash_uint64 (fun _ => true) m2 8 108 with Ok m => Some m | _ => None end) = Some m /\
    map_find hash_uint64 uint64cmp m 8 = Ok (Some 108) /\
    map_delete hash_uint64 uint64cmp m 0 = Ok m' /\
    map_find hash_uint64 uint64cmp m' 8 = Ok None /\ mk_entry 8 8 108 ∈ entries m' /\ m_len m' = 3.
Proof.
  eexists _, _. split; [vm_compute; reflexivity|]. split; [vm_compute; reflexivity|].
  split; [vm_compute; reflexivity|]. split; [vm_compute; reflexivity|]. split; [|reflexivity].
  apply list_elem_of_In. vm_compute. tauto.
Qed.
