(* ===== verification/Clock.v ===== *)
(** Clock classes and the conversion of clock values to nanoseconds,
    [metadata.c] and [metadata_int.h]. *)
From S2P Require Import Prelude Common.
From stdpp Require Import strings.
Open Scope Z_scope.

Record actf_clk_offset := mk_clk_offset { seconds : Z; cycles : Z }.

(** [struct actf_clk_origin]: the custom members are only used for a custom
    origin, whose name and unique identifier the parser requires. *)
Inductive actf_clk_origin :=
| ACTF_CLK_ORIGIN_TYPE_NONE
| ACTF_CLK_ORIGIN_TYPE_UNIX_EPOCH
| ACTF_CLK_ORIGIN_TYPE_CUSTOM (namespace : option string) (name uid : string).

(** [struct actf_clk_cls]; [precision] and [accuracy] are [None] when absent.
    The description and the user attributes are left out. *)
Record actf_clk_cls := mk_clk_cls {
  clk_id : option string;
  clk_namespace : option string;
  clk_name : option string;
  clk_uid : option string;
  freq : Z;
  origin : actf_clk_origin;
  off_from_origin : actf_clk_offset;
  precision : option Z;
  accuracy : option Z
}.

Definition strcmp_eq (a b : string) : bool := bool_decide (a = b).

(** [(!!a != !!b) || (a && strcmp(a, b))]: two optional strings differ. *)
Definition opt_str_ne (a b : option string) : bool :=
  match a, b with
  | Some a, Some b => negb (strcmp_eq a b)
  | None, None => false
  | _, _ => true
  end.

Definition actf_clk_origin_eq (o1 o2 : actf_clk_origin) : bool :=
  match o1, o2 with
  | ACTF_CLK_ORIGIN_TYPE_NONE, ACTF_CLK_ORIGIN_TYPE_NONE => true
  | ACTF_CLK_ORIGIN_TYPE_UNIX_EPOCH, ACTF_CLK_ORIGIN_TYPE_UNIX_EPOCH => true
  | ACTF_CLK_ORIGIN_TYPE_CUSTOM ns1 name1 uid1, ACTF_CLK_ORIGIN_TYPE_CUSTOM ns2 name2 uid2 =>
      if opt_str_ne ns1 ns2 then false
      else if negb (strcmp_eq name1 name2) then false
      else if negb (strcmp_eq uid1 uid2) then false
      else true
  | _, _ => false
  end.

Definition actf_clk_cls_eq_identities (c1 c2 : actf_clk_cls) : bool :=
  if opt_str_ne (clk_namespace c1) (clk_namespace c2) then false
  else if opt_str_ne (clk_name c1) (clk_name c2) then false
  else if opt_str_ne (clk_uid c1) (clk_uid c2) then false
  else true.

(** [(has1 != has2) || (has1 && v1 != v2)]. *)
Definition opt_num_ne (a b : option Z) : bool :=
  match a, b with
  | Some a, Some b => negb (a =? b)
  | None, None => false
  | _, _ => true
  end.

Definition actf_clk_cls_eq_identities_strict (c1 c2 : actf_clk_cls) : bool :=
  if negb (actf_clk_cls_eq_identities c1 c2) then false
  else if negb (freq c1 =? freq c2) then false
  else if opt_num_ne (precision c1) (precision c2) then false
  else if opt_num_ne (accuracy c1) (accuracy c2) then false
  else actf_clk_origin_eq (origin c1) (origin c2).

Definition NS_PER_S : Z := 1000000000.

Definition fits_i64 (x : Z) : bool := (INT64_MIN <=? x) && (x <=? INT64_MAX).

(** [None] is undefined behaviour: a division by zero or a signed overflow. *)
Definition actf_clk_cls_cc_to_ns_from_origin (clkc : actf_clk_cls) (tstamp_cc : Z) : option Z :=
  let freq := freq clkc in
  let s_off := seconds (off_from_origin clkc) in
  let cc_off := cycles (off_from_origin clkc) in
  let cc := u64 (tstamp_cc + cc_off) in
  if freq =? 0 then None
  else
    let s := s_off + i64 (cc / freq) in
    if fits_i64 s && fits_i64 (s * NS_PER_S) then
      Some (i64 (u64 (u64 (s * NS_PER_S) + u64 ((cc mod freq) * NS_PER_S) / freq)))
    else None.

(** * Correctness *)

(** The exact time in nanoseconds, rounded down. *)
Definition exact_ns (clkc : actf_clk_cls) (tstamp_cc : Z) : Z :=
  seconds (off_from_origin clkc) * NS_PER_S +
  (tstamp_cc + cycles (off_from_origin clkc)) * NS_PER_S / freq clkc.

(** The values for which no intermediate result wraps. *)
Definition clk_in_bounds (clkc : actf_clk_cls) (tstamp_cc : Z) : Prop :=
  0 < freq clkc <= 2 ^ 64 / NS_PER_S /\ 0 <= tstamp_cc /\ 0 <= cycles (off_from_origin clkc) /\
  tstamp_cc + cycles (off_from_origin clkc) < 2 ^ 63 /\
  - 2 ^ 62 <= seconds (off_from_origin clkc) * NS_PER_S /\
  exact_ns clkc tstamp_cc < 2 ^ 63.

Lemma split_seconds cc f : 0 < f -> 0 <= cc ->
  cc * NS_PER_S / f = cc / f * NS_PER_S + (cc mod f) * NS_PER_S / f.
Proof.
  intros Hf Hcc. rewrite (Z.div_mod cc f) at 1 by lia.
  rewrite Z.mul_add_distr_r.
  replace (f * (cc / f) * NS_PER_S) with ((cc / f * NS_PER_S) * f) by ring.
  by rewrite Z.div_add_l by lia.
Qed.

Lemma cc_to_ns_exact clkc t :
  clk_in_bounds clkc t -> actf_clk_cls_cc_to_ns_from_origin clkc t = Some (exact_ns clkc t).
Proof.
  intros (Hf & Ht & Hc & Hsum & Hlow & Hres). unfold actf_clk_cls_cc_to_ns_from_origin, exact_ns in *.
  set (f := freq clkc) in *. set (s0 := seconds (off_from_origin clkc)) in *.
  set (cc := t + cycles (off_from_origin clkc)) in *.
  rewrite (u64_small cc) by (unfold is_u64; lia).
  destruct (Z.eqb_spec f 0); [lia|].
  rewrite split_seconds in * by lia.
  assert (Hq : 0 <= cc / f <= cc) by (split; [apply Z.div_pos; lia|apply Z.div_le_upper_bound; nia]).
  assert (Hi : i64 (cc / f) = cc / f) by (unfold i64; apply wrap_signed_small; lia). rewrite Hi.
  pose proof (Z.mod_pos_bound cc f ltac:(lia)) as Hm.
  set (r := cc mod f) in *.
  assert (Hr : 0 <= r * NS_PER_S / f < NS_PER_S).
  { split; [apply Z.div_pos; unfold NS_PER_S in *; nia|].
    apply Z.div_lt_upper_bound; [lia|]. unfold NS_PER_S in *. nia. }
  assert (Hrw : u64 (r * NS_PER_S) = r * NS_PER_S).
  { apply u64_small. split; [unfold NS_PER_S; nia|].
    assert (f * NS_PER_S <= 2 ^ 64) by (pose proof (Z.mul_div_le (2 ^ 64) NS_PER_S ltac:(done)); nia).
    unfold NS_PER_S in *. nia. }
  rewrite Hrw. set (x := r * NS_PER_S / f) in *. set (q := cc / f) in *.
  assert (Hs : - 2 ^ 62 <= (s0 + q) * NS_PER_S < 2 ^ 63) by (unfold NS_PER_S in *; nia).
  assert (Hf1 : fits_i64 (s0 + q) = true /\ fits_i64 ((s0 + q) * NS_PER_S) = true).
  { unfold fits_i64, INT64_MIN, INT64_MAX, NS_PER_S in *. lia. }
  destruct Hf1 as [-> ->]. cbn [andb]. f_equal.
  unfold u64. rewrite Zplus_mod_idemp_l. unfold i64.
  assert (Hw : forall z, - 2 ^ 63 <= z < 2 ^ 63 -> wrap_signed 64 (z mod 2 ^ 64) = z).
  { intros z Hz. unfold wrap_signed. rewrite Z.mod_mod by lia.
    change (wrap_signed 64 z = z). apply wrap_signed_small; lia. }
  rewrite Hw by (unfold NS_PER_S in *; lia). unfold NS_PER_S. lia.
Qed.

(** The result is a signed 64-bit number. *)
Lemma cc_to_ns_range clkc t ns : actf_clk_cls_cc_to_ns_from_origin clkc t = Some ns -> INT64_MIN <= ns <= INT64_MAX.
Proof.
  unfold actf_clk_cls_cc_to_ns_from_origin. destruct (_ =? 0); [done|]. destruct (_ && _); [|done]. intros [= <-].
  unfold i64, INT64_MIN, INT64_MAX. match goal with |- _ <= wrap_signed 64 ?x <= _ => pose proof (wrap_signed_range 64 x ltac:(done)) end. lia.
Qed.

(** C38: within the stated bounds (a frequency up to [2^64 / 10^9], sums that do
    not wrap) the conversion of a clock value is the exact time in nanoseconds
    from the origin rounded down, and so it never decreases when the clock value
    grows: events sorted by clock value are sorted by time. *)
Theorem cc_to_ns_from_origin_exact clkc t t' :
  clk_in_bounds clkc t -> clk_in_bounds clkc t' -> t <= t' ->
  exists ns ns', actf_clk_cls_cc_to_ns_from_origin clkc t = Some ns /\
    actf_clk_cls_cc_to_ns_from_origin clkc t' = Some ns' /\
    ns = exact_ns clkc t /\ ns' = exact_ns clkc t' /\ ns <= ns'.
Proof.
  intros H H' Hle. exists (exact_ns clkc t), (exact_ns clkc t'). rewrite !cc_to_ns_exact by done.
  split_and!; try done. unfold exact_ns. destruct H as (Hf & _).
  apply Z.add_le_mono_l, Z.div_le_mono; [lia|]. unfold NS_PER_S. lia.
Qed.

Example cc_to_ns_from_origin_exact_witness :
  let c := mk_clk_cls None None None None 3 ACTF_CLK_ORIGIN_TYPE_NONE (mk_clk_offset (-1) 2) None None in
  exists ns ns', actf_clk_cls_cc_to_ns_from_origin c 5 = Some ns /\
    actf_clk_cls_cc_to_ns_from_origin c 6 = Some ns' /\
    ns = exact_ns c 5 /\ ns' = exact_ns c 6 /\ ns <= ns'.
Proof.
  apply (cc_to_ns_from_origin_exact (mk_clk_cls None None None None 3 ACTF_CLK_ORIGIN_TYPE_NONE (mk_clk_offset (-1) 2) None None) 5 6);
    [vm_compute; intuition discriminate|vm_compute; intuition discriminate|lia].
Defined.

(** * Identities *)

Lemma opt_str_ne_spec a b : opt_str_ne a b = false <-> a = b.
Proof.
  destruct a as [a|], b as [b|]; simpl; try done. unfold strcmp_eq.
  rewrite negb_false_iff, bool_decide_eq_true. naive_solver.
Qed.

Lemma opt_num_ne_spec a b : opt_num_ne a b = false <-> a = b.
Proof.
  destruct a as [a|], b as [b|]; simpl; try done. rewrite negb_false_iff, Z.eqb_eq. naive_solver.
Qed.

Lemma origin_eq_spec o1 o2 : actf_clk_origin_eq o1 o2 = true <-> o1 = o2.
Proof.
  destruct o1 as [| |ns1 n1 u1], o2 as [| |ns2 n2 u2]; simpl; try done.
  pose proof (opt_str_ne_spec ns1 ns2). unfold strcmp_eq.
  destruct (opt_str_ne ns1 ns2); [naive_solver|].
  destruct (bool_decide (n1 = n2)) eqn:E1; simpl;
    [apply bool_decide_eq_true in E1|apply bool_decide_eq_false in E1; naive_solver].
  destruct (bool_decide (u1 = u2)) eqn:E2; simpl;
    [apply bool_decide_eq_true in E2|apply bool_decide_eq_false in E2]; naive_solver.
Qed.

(** Two clock classes are identified exactly when their namespaces, names
    and unique identifiers agree (absent ones included), and strictly identified
    when moreover their frequencies, precisions, accuracies and origins agree;
    both relations are therefore equivalences. *)
Theorem clk_cls_identities c1 c2 :
  (actf_clk_cls_eq_identities c1 c2 = true <->
     clk_namespace c1 = clk_namespace c2 /\ clk_name c1 = clk_name c2 /\ clk_uid c1 = clk_uid c2) /\
  (actf_clk_cls_eq_identities_strict c1 c2 = true <->
     (clk_namespace c1 = clk_namespace c2 /\ clk_name c1 = clk_name c2 /\ clk_uid c1 = clk_uid c2) /\
     freq c1 = freq c2 /\ precision c1 = precision c2 /\ accuracy c1 = accuracy c2 /\ origin c1 = origin c2).
Proof.
  assert (Hid : actf_clk_cls_eq_identities c1 c2 = true <->
     clk_namespace c1 = clk_namespace c2 /\ clk_name c1 = clk_name c2 /\ clk_uid c1 = clk_uid c2).
  { unfold actf_clk_cls_eq_identities. rewrite <- !opt_str_ne_spec.
    destruct (opt_str_ne _ _), (opt_str_ne _ _), (opt_str_ne _ _); intuition done. }
  split; [done|]. unfold actf_clk_cls_eq_identities_strict.
  rewrite <- Hid, <- !opt_num_ne_spec, <- origin_eq_spec, <- Z.eqb_eq.
  destruct (actf_clk_cls_eq_identities c1 c2), (freq c1 =? freq c2), (opt_num_ne _ _), (opt_num_ne _ _);
    simpl; intuition done.
Qed.
