(* ===== verification/RbTree.v ===== *)
(** The red-black trees of [crust/rb_tree.h] and [crust/rb_tree.c]: nodes with
    parent pointers in memory, rotation, insertion and deletion with rebalancing,
    and a callback that recomputes what a node stores about its subtree.

    What insertion does to trees is in RbInsert.v. *)
From S2P Require Import Prelude.
Open Scope Z_scope.

Inductive rb_dir := RB_LEFT | RB_RIGHT.

#[export] Instance rb_dir_eq_dec : EqDecision rb_dir.
Proof. solve_decision. Defined.

Definition FLIP (dir : rb_dir) : rb_dir := match dir with RB_LEFT => RB_RIGHT | RB_RIGHT => RB_LEFT end.

(** A pointer to a node. *)
Definition ptr := Z.

(** [struct rb_node]: [p] holds the parent and, in its lowest bit, the colour.  A
    node is embedded in a structure of the user, whose other members are [n_data];
    the sentinel is not. *)
Record rb_node (D : Type) := mk_node {
  n_left : ptr; n_right : ptr; n_parent : ptr; n_red : bool; n_data : option D
}.
Arguments mk_node {D}.
Arguments n_left {D}.
Arguments n_right {D}.
Arguments n_parent {D}.
Arguments n_red {D}.
Arguments n_data {D}.

(** [struct rb_tree] with the memory of the nodes.  The callback is an argument of
    the operations; the member [reorder_cb] tells whether it has been set. *)
Record rb_tree (D : Type) := mk_rbt {
  rbt_root : ptr; rbt_nil : ptr; rbt_cb : bool; rbt_nodes : gmap Z (rb_node D)
}.
Arguments mk_rbt {D}.
Arguments rbt_root {D}.
Arguments rbt_nil {D}.
Arguments rbt_cb {D}.
Arguments rbt_nodes {D}.

Section Ops.
Context {D : Type}.
Implicit Types (x y p : ptr) (n : rb_node D) (s : rb_tree D).

Definition n_child n dir : ptr := match dir with RB_LEFT => n_left n | RB_RIGHT => n_right n end.

Definition with_child dir y n : rb_node D :=
  match dir with
  | RB_LEFT => mk_node y (n_right n) (n_parent n) (n_red n) (n_data n)
  | RB_RIGHT => mk_node (n_left n) y (n_parent n) (n_red n) (n_data n)
  end.

Definition with_parent p n : rb_node D := mk_node (n_left n) (n_right n) p (n_red n) (n_data n).
Definition with_red (c : bool) n : rb_node D := mk_node (n_left n) (n_right n) (n_parent n) c (n_data n).
Definition with_data (d : D) n : rb_node D := mk_node (n_left n) (n_right n) (n_parent n) (n_red n) (Some d).

Definition set_root x s := mk_rbt x (rbt_nil s) (rbt_cb s) (rbt_nodes s).
Definition set_cb s := mk_rbt (rbt_root s) (rbt_nil s) true (rbt_nodes s).
Definition set_node x n s := mk_rbt (rbt_root s) (rbt_nil s) (rbt_cb s) (<[x := n]> (rbt_nodes s)).

(** Reading and writing through a pointer. *)
Definition deref x : st (rb_tree D) (rb_node D) :=
  fun s => match rbt_nodes s !! x with Some n => (Ok n, s) | None => (Undef, s) end.

Definition update x (f : rb_node D -> rb_node D) : st (rb_tree D) unit :=
  fun s => match rbt_nodes s !! x with Some n => (Ok tt, set_node x (f n) s) | None => (Undef, s) end.

Definition P x : st (rb_tree D) ptr := n ← deref x; mret (n_parent n).
Definition COLOR x : st (rb_tree D) bool := n ← deref x; mret (n_red n).
Definition child x dir : st (rb_tree D) ptr := n ← deref x; mret (n_child n dir).
Definition SET_P x p := update x (with_parent p).
Definition SET_COLOR x c := update x (with_red c).
Definition SET_COLOR_BLACK x := SET_COLOR x false.
Definition SET_COLOR_RED x := SET_COLOR x true.
Definition set_child x dir y := update x (with_child dir y).
Definition get_nil : st (rb_tree D) ptr := s ← st_get; mret (rbt_nil s).
Definition get_root : st (rb_tree D) ptr := s ← st_get; mret (rbt_root s).

(** The parent of the sentinel is a pointer to no node. *)
Definition no_node : ptr := -2.

(** [rb_tree_init] when the allocation of the sentinel, at [nil], succeeds.  Its
    children are not initialised and not read. *)
Definition rb_tree_init (nil : ptr) (nodes : gmap Z (rb_node D)) : rb_tree D :=
  mk_rbt nil nil false (<[nil := mk_node no_node no_node no_node false None]> nodes).

(** A place that holds a pointer to a node, [struct rb_node **]. *)
Inductive place := At_root | At_child (x : ptr) (dir : rb_dir).

Definition load (pl : place) : st (rb_tree D) ptr :=
  match pl with
  | At_root => get_root
  | At_child x dir => child x dir
  end.

(** [side] is compared with the address of the left child of [par]. *)
Definition rb_tree_insert (par new : ptr) (side : place) : st (rb_tree D) unit :=
  nil ← get_nil;
  SET_P new par;;
  SET_COLOR_RED new;;
  set_child new RB_LEFT nil;;
  set_child new RB_RIGHT nil;;
  match side with
  | At_child x RB_LEFT => if x =? par then set_child par RB_LEFT new else set_child par RB_RIGHT new
  | _ => set_child par RB_RIGHT new
  end.

Section Callback.
(** The callback: [cb x] recomputes what [x] stores about its subtree. *)
Variable cb : ptr -> st (rb_tree D) unit.

Definition rb_tree_insert_root (new : ptr) : st (rb_tree D) unit :=
  nil ← get_nil;
  SET_P new nil;;
  SET_COLOR_BLACK new;;
  set_child new RB_LEFT nil;;
  set_child new RB_RIGHT nil;;
  st_modify (set_root new);;
  st_modify set_cb;;
  r ← get_root;
  cb r.

Definition reorder_cb x : st (rb_tree D) unit :=
  s ← st_get;
  if rbt_cb s && negb (x =? rbt_nil s) then cb x else mret tt.

Definition rotate x dir : st (rb_tree D) unit :=
  nil ← get_nil;
  y ← child x (FLIP dir);
  b ← child y dir;
  set_child x (FLIP dir) b;;
  (if negb (b =? nil) then SET_P b x else mret tt);;
  p ← P x;
  SET_P y p;;
  (if negb (p =? nil)
   then c ← child p dir;
        if c =? x then set_child p dir y else set_child p (FLIP dir) y
   else st_modify (set_root y));;
  set_child y dir x;;
  SET_P x y;;
  reorder_cb x;;
  reorder_cb y.

(** The loop of [rb_tree_insert_rebalance]. *)
Fixpoint rebalance_loop (fuel : nat) (x : ptr) : st (rb_tree D) unit :=
  match fuel with
  | O => st_undef
  | S fuel =>
      p ← P x;
      red ← COLOR p;
      if (red : bool) then
        g ← P p;
        l ← child g RB_LEFT;
        let dir := if p =? l then RB_LEFT else RB_RIGHT in
        u ← child g (FLIP dir);
        ured ← COLOR u;
        if (ured : bool) then
          SET_COLOR_BLACK p;; SET_COLOR_BLACK u;; SET_COLOR_RED g;; rebalance_loop fuel g
        else
          c ← child p (FLIP dir);
          x ← (if x =? c then rotate p dir;; mret p else mret x);
          p ← P x;
          SET_COLOR_BLACK p;;
          g ← P p;
          SET_COLOR_RED g;;
          rotate g (FLIP dir);;
          rebalance_loop fuel x
      else mret tt
  end.

(** The loop climbs: the number of nodes bounds its rounds. *)
Definition rb_tree_insert_rebalance x : st (rb_tree D) unit :=
  s ← st_get;
  rebalance_loop (size (rbt_nodes s)) x;;
  r ← get_root;
  SET_COLOR_BLACK r.

(** ** Deletion *)

Fixpoint node_min_loop (fuel : nat) (x : ptr) : st (rb_tree D) ptr :=
  match fuel with
  | O => st_undef
  | S fuel =>
      nil ← get_nil;
      l ← child x RB_LEFT;
      if negb (l =? nil) then node_min_loop fuel l else mret x
  end.

Definition node_min x : st (rb_tree D) ptr := s ← st_get; node_min_loop (size (rbt_nodes s)) x.

Fixpoint node_max_loop (fuel : nat) (x : ptr) : st (rb_tree D) ptr :=
  match fuel with
  | O => st_undef
  | S fuel =>
      nil ← get_nil;
      r ← child x RB_RIGHT;
      if negb (r =? nil) then node_max_loop fuel r else mret x
  end.

Definition node_max x : st (rb_tree D) ptr := s ← st_get; node_max_loop (size (rbt_nodes s)) x.

Fixpoint node_succ_loop (fuel : nat) (x p : ptr) : st (rb_tree D) ptr :=
  match fuel with
  | O => st_undef
  | S fuel =>
      nil ← get_nil;
      if negb (p =? nil) then
        r ← child p RB_RIGHT;
        if x =? r then p' ← P p; node_succ_loop fuel p p' else mret p
      else mret p
  end.

Definition node_succ x : st (rb_tree D) ptr :=
  nil ← get_nil;
  r ← child x RB_RIGHT;
  if negb (r =? nil) then node_min r
  else p ← P x; s ← st_get; node_succ_loop (size (rbt_nodes s)) x p.

(** Replaces [x] by [y] below the parent of [x]. *)
Definition replace_node x y : st (rb_tree D) unit :=
  nil ← get_nil;
  p ← P x;
  (if p =? nil then st_modify (set_root y)
   else r ← child p RB_RIGHT;
        if r =? x then set_child p RB_RIGHT y else set_child p RB_LEFT y);;
  SET_P y p.

Fixpoint rebalance_delete (fuel : nat) (x : ptr) : st (rb_tree D) ptr :=
  match fuel with
  | O => st_undef
  | S fuel =>
      root ← get_root;
      red ← COLOR x;
      if negb (root =? x) && negb red then
        p ← P x;
        l ← child p RB_LEFT;
        let dir := if x =? l then RB_LEFT else RB_RIGHT in
        s ← child p (FLIP dir);
        sred ← COLOR s;
        s ← (if (sred : bool) then
               SET_COLOR_RED p;; SET_COLOR_BLACK s;; rotate p dir;;
               p ← P x; child p (FLIP dir)
             else mret s);
        sl ← child s RB_LEFT;
        slred ← COLOR sl;
        sr ← child s RB_RIGHT;
        srred ← COLOR sr;
        if negb slred && negb srred then
          SET_COLOR_RED s;; reorder_cb x;; p ← P x; rebalance_delete fuel p
        else
          far ← child s (FLIP dir);
          farred ← COLOR far;
          s ← (if negb farred then
                 SET_COLOR_RED s;;
                 near ← child s dir; SET_COLOR_BLACK near;;
                 rotate s (FLIP dir);;
                 p ← P x; child p (FLIP dir)
               else mret s);
          p ← P x;
          pred ← COLOR p;
          SET_COLOR s pred;;
          SET_COLOR_BLACK p;;
          far ← child s (FLIP dir);
          SET_COLOR_BLACK far;;
          rotate p dir;;
          root ← get_root;
          SET_COLOR_BLACK root;;
          mret x
      else SET_COLOR_BLACK x;; mret x
  end.

(** The callback on every node from [y] to the root. *)
Fixpoint reorder_up (fuel : nat) (y : ptr) : st (rb_tree D) unit :=
  match fuel with
  | O => st_undef
  | S fuel =>
      nil ← get_nil;
      reorder_cb y;;
      y ← P y;
      if negb (y =? nil) then reorder_up fuel y else mret tt
  end.

Definition rb_tree_delete x : st (rb_tree D) unit :=
  nil ← get_nil;
  color ← COLOR x;
  l ← child x RB_LEFT;
  r ← child x RB_RIGHT;
  '(y, deleted_color) ←
    (if l =? nil then replace_node x r;; mret (r, color)
     else if r =? nil then replace_node x l;; mret (l, color)
     else
       min ← node_min r;
       mcolor ← COLOR min;
       y ← child min RB_RIGHT;
       p ← P min;
       (if p =? x then SET_P y min
        else replace_node min y;;
             r ← child x RB_RIGHT;
             set_child min RB_RIGHT r;;
             SET_P r min);;
       replace_node x min;;
       l ← child x RB_LEFT;
       set_child min RB_LEFT l;;
       SET_P l min;;
       xcolor ← COLOR x;
       SET_COLOR min xcolor;;
       mret (y, mcolor));
  s ← st_get;
  y ← (if negb deleted_color then rebalance_delete (S (size (rbt_nodes s))) y else P y);
  reorder_up (S (size (rbt_nodes s))) y.
End Callback.
End Ops.
