(* ===== verification/RbRotate.v ===== *)
(** Red-black trees in memory: [reps] relates the nodes in memory to a tree and the
    path to one of its subtrees, and [rotate_spec] shows what the rotation of
    RbTree.v does to them. *)
From S2P Require Import Prelude.
From stdpp Require Import list.
From S2P Require Import RbTree.
Open Scope Z_scope.

(** * Trees, paths and their representation in memory *)

Section Trees.
Context {D : Type}.

Inductive tree :=
| Leaf
| Node (l : tree) (x : ptr) (c : bool) (d : D) (r : tree).

(** A node whose subtree on side [dir] is [a] and whose other subtree is [b]. *)
Definition node (dir : rb_dir) (a : tree) (x : ptr) (c : bool) (d : D) (b : tree) : tree :=
  match dir with RB_LEFT => Node a x c d b | RB_RIGHT => Node b x c d a end.

(** A path from a subtree to the root: the subtree is on side [f_dir] of [f_x]. *)
Record frame := mk_frame { f_dir : rb_dir; f_x : ptr; f_red : bool; f_d : D; f_sib : tree }.

Definition path := list frame.

Definition plug1 (f : frame) (t : tree) : tree := node (f_dir f) t (f_x f) (f_red f) (f_d f) (f_sib f).
Definition plug (k : path) (t : tree) : tree := fold_left (fun t f => plug1 f t) k t.

Definition is_red (t : tree) : bool := match t with Leaf => false | Node _ _ c _ _ => c end.
Definition set_color (c : bool) (t : tree) : tree :=
  match t with Leaf => Leaf | Node l x _ d r => Node l x c d r end.
Definition data (t : tree) : option D := match t with Leaf => None | Node _ _ _ d _ => Some d end.

Fixpoint ids (t : tree) : list ptr :=
  match t with Leaf => [] | Node l x _ _ r => ids l ++ x :: ids r end.

Definition ids_frame (f : frame) : list ptr := f_x f :: ids (f_sib f).
Definition ids_path (k : path) : list ptr := concat (map ids_frame k).

(** ** In memory *)

Variable nil : ptr.
Implicit Types (m : gmap Z (rb_node D)) (s : rb_tree D).

Definition tptr (t : tree) : ptr := match t with Leaf => nil | Node _ x _ _ _ => x end.

(** The contents of a node whose child on side [dir] is [a]. *)
Definition mkn (dir : rb_dir) (a b p : ptr) (c : bool) (d : D) : rb_node D :=
  match dir with RB_LEFT => mk_node a b p c (Some d) | RB_RIGHT => mk_node b a p c (Some d) end.

Fixpoint rep m (p : ptr) (t : tree) : Prop :=
  match t with
  | Leaf => True
  | Node l x c d r => m !! x = Some (mk_node (tptr l) (tptr r) p c (Some d)) /\ rep m x l /\ rep m x r
  end.

Definition path_ptr (k : path) : ptr := match k with [] => nil | f :: _ => f_x f end.

(** [h] is the pointer to the subtree at the end of the path. *)
Fixpoint rep_path m (root : ptr) (k : path) (h : ptr) : Prop :=
  match k with
  | [] => root = h
  | f :: k' =>
      m !! f_x f = Some (mkn (f_dir f) h (tptr (f_sib f)) (path_ptr k') (f_red f) (f_d f)) /\
      rep m (f_x f) (f_sib f) /\ rep_path m root k' (f_x f)
  end.

Record reps s (k : path) (t : tree) : Prop := {
  r_nil : rbt_nil s = nil;
  r_tree : rep (rbt_nodes s) (path_ptr k) t;
  r_path : rep_path (rbt_nodes s) (rbt_root s) k (tptr t);
  r_nodup : NoDup (nil :: ids t ++ ids_path k);
  r_black : exists n, rbt_nodes s !! nil = Some n /\ n_red n = false
}.

Lemma rep_node m p dir a x c d b :
  rep m p (node dir a x c d b) <-> m !! x = Some (mkn dir (tptr a) (tptr b) p c d) /\ rep m x a /\ rep m x b.
Proof. destruct dir; cbn; tauto. Qed.

Lemma tptr_node dir a x c d b : tptr (node dir a x c d b) = x.
Proof. by destruct dir. Qed.

Lemma ids_node dir a x c d b : ids (node dir a x c d b) ≡ₚ x :: ids a ++ ids b.
Proof. destruct dir; cbn; [|rewrite (Permutation_app_comm (ids a))]; by rewrite <- Permutation_middle. Qed.

Lemma node_flip dir a x c d b : node (FLIP dir) a x c d b = node dir b x c d a.
Proof. by destruct dir. Qed.

Lemma flip_flip dir : FLIP (FLIP dir) = dir.
Proof. by destruct dir. Qed.

Lemma mkn_flip dir a b p c d : mkn (FLIP dir) a b p c d = mkn dir b a p c d.
Proof. by destruct dir. Qed.

Lemma child_mkn dir a b p c d : n_child (mkn dir a b p c d) dir = a.
Proof. by destruct dir. Qed.

Lemma child_flip dir a b p c d : n_child (mkn dir a b p c d) (FLIP dir) = b.
Proof. by destruct dir. Qed.

Lemma with_child_mkn dir a b p c d y : with_child dir y (mkn dir a b p c d) = mkn dir y b p c d.
Proof. by destruct dir. Qed.

Lemma with_child_flip dir a b p c d y : with_child (FLIP dir) y (mkn dir a b p c d) = mkn dir a y p c d.
Proof. by destruct dir. Qed.

Lemma with_parent_mkn dir a b p c d q : with_parent q (mkn dir a b p c d) = mkn dir a b q c d.
Proof. by destruct dir. Qed.

Lemma with_red_mkn dir a b p c d c' : with_red c' (mkn dir a b p c d) = mkn dir a b p c' d.
Proof. by destruct dir. Qed.

Lemma with_data_mkn dir a b p c d d' : with_data d' (mkn dir a b p c d) = mkn dir a b p c d'.
Proof. by destruct dir. Qed.

Lemma parent_mkn dir a b p c d : n_parent (mkn dir a b p c d) = p.
Proof. by destruct dir. Qed.

Lemma red_mkn dir a b p c d : n_red (mkn dir a b p c d) = c.
Proof. by destruct dir. Qed.

Lemma data_mkn dir a b p c d : n_data (mkn dir a b p c d) = Some d.
Proof. by destruct dir. Qed.

Lemma rep_frame m m' p t : (forall z, z ∈ ids t -> m' !! z = m !! z) -> rep m p t -> rep m' p t.
Proof.
  revert p. induction t as [|l IHl x c d r IHr]; intros p Hm; [done|]. cbn in *. intros (Hx & Hl & Hr).
  rewrite Hm by set_solver. split_and!; [done|apply IHl|apply IHr]; set_solver.
Qed.

Lemma rep_path_frame m m' root k h :
  (forall z, z ∈ ids_path k -> m' !! z = m !! z) -> rep_path m root k h -> rep_path m' root k h.
Proof.
  revert h. induction k as [|f k IH]; intros h Hm; [done|]. cbn in *. intros (Hx & Hs & Hk).
  split_and!; [rewrite Hm by set_solver; done| |apply IH; [set_solver|done]].
  eapply rep_frame; [|done]. set_solver.
Qed.

(** The subtree at the end of a path is replaced. *)
Lemma rep_path_hole m m' root root' k h h' :
  match k with
  | [] => root' = h'
  | f :: k' => root' = root /\
      m' !! f_x f = Some (mkn (f_dir f) h' (tptr (f_sib f)) (path_ptr k') (f_red f) (f_d f))
  end ->
  (forall z, z ∈ ids_path k -> z <> path_ptr k -> m' !! z = m !! z) ->
  NoDup (ids_path k) -> rep_path m root k h -> rep_path m' root' k h'.
Proof.
  destruct k as [|f k]; [done|]. intros [-> Hf] Hm Hnd (_ & Hs & Hk). cbn in *.
  rewrite NoDup_cons, NoDup_app in Hnd. destruct Hnd as (Hx & _ & Hd & _).
  split_and!; [done| |].
  - eapply rep_frame; [|done]. intros z Hz. apply Hm; set_solver.
  - eapply rep_path_frame; [|done]. intros z Hz. apply Hm; set_solver.
Qed.

(** The root of a subtree gets another parent. *)
Lemma rep_parent m m' p p' t :
  match t with Leaf => True | Node l x c d r => m' !! x = Some (mk_node (tptr l) (tptr r) p' c (Some d)) end ->
  (forall z, z ∈ ids t -> z <> tptr t -> m' !! z = m !! z) -> NoDup (ids t) ->
  rep m p t -> rep m' p' t.
Proof.
  destruct t as [|l x c d r]; [done|]. cbn. intros Hx Hm Hnd (_ & Hl & Hr).
  apply NoDup_app in Hnd. destruct Hnd as (_ & Hd & Hnd). apply NoDup_cons in Hnd as [Hxr _].
  split_and!; [done| |]; (eapply rep_frame; [|done]); intros z Hz; apply Hm; set_solver.
Qed.

Lemma reps_plug1 s f k t : reps s (f :: k) t <-> reps s k (plug1 f t).
Proof.
  assert (Hp : nil :: ids t ++ ids_path (f :: k) ≡ₚ nil :: ids (plug1 f t) ++ ids_path k).
  { unfold plug1. rewrite ids_node. cbn. rewrite <- !app_assoc. cbn.
    by rewrite <- Permutation_middle. }
  split; intros [H1 H2 H3 H4 H5]; constructor; try done; try (by rewrite Hp + rewrite <- Hp).
  - apply rep_node. destruct H3 as (? & ? & ?). done.
  - unfold plug1. rewrite tptr_node. by destruct H3 as (? & ? & ?).
  - apply rep_node in H2. by destruct H2 as (? & ? & ?).
  - apply rep_node in H2. destruct H2 as (Hx & Ht & Hs). unfold plug1 in H3. rewrite tptr_node in H3. done.
Qed.
End Trees.
Arguments tree D : clear implicits.
Arguments frame D : clear implicits.
Arguments path D : clear implicits.

(** * Single steps *)

Section Steps.
Context {D : Type}.
Implicit Types (s : rb_tree D) (n : rb_node D).

Lemma P_ok x n s : rbt_nodes s !! x = Some n -> P x s = (Ok (n_parent n), s).
Proof. intros E. unfold P, deref, mbind, st_bind. by rewrite E. Qed.

Lemma COLOR_ok x n s : rbt_nodes s !! x = Some n -> COLOR x s = (Ok (n_red n), s).
Proof. intros E. unfold COLOR, deref, mbind, st_bind. by rewrite E. Qed.

Lemma child_ok x dir n s : rbt_nodes s !! x = Some n -> child x dir s = (Ok (n_child n dir), s).
Proof. intros E. unfold child, deref, mbind, st_bind. by rewrite E. Qed.

Lemma update_ok x f n s : rbt_nodes s !! x = Some n -> update x f s = (Ok tt, set_node x (f n) s).
Proof. intros E. unfold update. by rewrite E. Qed.

Lemma get_nil_ok s : get_nil s = (Ok (rbt_nil s), s).
Proof. done. Qed.

Lemma get_root_ok s : get_root s = (Ok (rbt_root s), s).
Proof. done. Qed.
End Steps.

(** Finds the contents of a node in a memory after some updates. *)
Ltac lk :=
  cbn [rbt_nodes rbt_nil rbt_root rbt_cb set_node set_root set_cb];
  repeat first [rewrite lookup_insert_eq | rewrite lookup_insert_ne by congruence];
  first [reflexivity | eassumption].

(** Runs the next step of a program. *)
Ltac rb_step :=
  first
  [ erewrite st_bind_ok; [|apply get_nil_ok]
  | erewrite st_bind_ok; [|apply get_root_ok]
  | erewrite st_bind_ok; [|apply P_ok; lk]
  | erewrite st_bind_ok; [|apply COLOR_ok; lk]
  | erewrite st_bind_ok; [|apply child_ok; lk]
  | erewrite st_bind_ok; [|apply update_ok; lk]
  | erewrite st_bind_ok; [|reflexivity] ];
  rewrite ?child_mkn, ?child_flip, ?parent_mkn, ?red_mkn, ?with_child_mkn, ?with_child_flip, ?with_parent_mkn,
    ?with_red_mkn.

(** * Rotation *)

Section Rotation.
Context {D : Type}.
Implicit Types (s : rb_tree D) (t : tree D) (k : path D).

Definition child_data s (y : ptr) : option (option D) :=
  if y =? rbt_nil s then Some None else n ← rbt_nodes s !! y; Some <$> n_data n.

(** What the callback is for: it combines what the node and its children store. *)
Definition cb_combines (cb : ptr -> st (rb_tree D) unit) (combine : D -> option D -> option D -> D) : Prop :=
  forall s x n d dl dr,
  rbt_nodes s !! x = Some n -> n_data n = Some d ->
  child_data s (n_left n) = Some dl -> child_data s (n_right n) = Some dr ->
  cb x s = (Ok tt, set_node x (with_data (combine d dl dr) n) s).

(** Only the nodes [l] differ between two states. *)
Record only (l : list ptr) s s' : Prop := {
  o_nil : rbt_nil s' = rbt_nil s;
  o_cb : rbt_cb s' = rbt_cb s;
  o_nodes : forall z, z ∉ l -> rbt_nodes s' !! z = rbt_nodes s !! z
}.

Lemma only_refl l s : only l s s.
Proof. done. Qed.

Lemma only_trans l s1 s2 s3 : only l s1 s2 -> only l s2 s3 -> only l s1 s3.
Proof.
  intros [] []. constructor; [congruence|congruence|]. intros z Hz. rewrite o_nodes1, o_nodes0; done.
Qed.

Lemma only_sub l l' s s' : (forall z, z ∈ l -> z ∈ l') -> only l s s' -> only l' s s'.
Proof. intros Hp []. constructor; [done|done|]. auto. Qed.

Lemma child_data_rep s (nil : ptr) p t : rbt_nil s = nil -> nil ∉ ids t -> rep nil (rbt_nodes s) p t ->
  child_data s (tptr nil t) = Some (data t).
Proof.
  intros Hn Hi Ht. unfold child_data. rewrite Hn. destruct t as [|l x c d r]; cbn in *.
  - by rewrite Z.eqb_refl.
  - destruct (Z.eqb_spec x nil) as [->|]; [set_solver|]. destruct Ht as (-> & _). done.
Qed.

Lemma reps_perm nil s k t : reps nil s k t -> nil ∉ ids t /\ nil ∉ ids_path k /\ NoDup (ids t) /\ NoDup (ids_path k) /\
  forall z, z ∈ ids t -> z ∈ ids_path k -> False.
Proof.
  intros [_ _ _ Hnd _]. apply list.NoDup_cons in Hnd as [Hn Hnd]. apply list.NoDup_app in Hnd as (? & Hd & ?).
  split_and!; try set_solver.
Qed.

(** The colour and the data of the root of a subtree. *)
Lemma set_reps nil s k dir a x c d b c' d' : reps nil s k (node dir a x c d b) ->
  let s' := set_node x (mkn dir (tptr nil a) (tptr nil b) (path_ptr nil k) c' d') s in
  reps nil s' k (node dir a x c' d' b) /\ only [x] s s'.
Proof.
  intros Hr s'. pose proof (reps_perm _ _ _ _ Hr) as (Hn & _ & Hnd & Hndk & Hdis).
  rewrite ids_node in Hn, Hnd. apply list.NoDup_cons in Hnd as [Hx Hnd]. destruct Hr as [H1 H2 H3 H4 H5].
  apply rep_node in H2 as (Hlx & Ha & Hb).
  assert (Hni : forall z, z ∈ ids_path k -> z <> x).
  { intros z Hz ->. apply (Hdis x); [rewrite ids_node; set_solver|done]. }
  split; [constructor|constructor]; try done.
  - apply rep_node. split_and!.
    + cbn. by rewrite lookup_insert_eq.
    + eapply rep_frame; [|exact Ha]. intros z Hz. cbn. rewrite lookup_insert_ne by set_solver. done.
    + eapply rep_frame; [|exact Hb]. intros z Hz. cbn. rewrite lookup_insert_ne by set_solver. done.
  - rewrite tptr_node in *. eapply rep_path_frame; [|exact H3]. intros z Hz. cbn.
    rewrite lookup_insert_ne; [done|]. intros ->. by eapply Hni.
  - rewrite ids_node in *. done.
  - destruct H5 as (n & Hl & Hred). exists n. cbn. rewrite lookup_insert_ne by set_solver. done.
  - intros z Hz. cbn. rewrite lookup_insert_ne by set_solver. done.
Qed.

(** The parent of a subtree is set to [x], when the subtree is not empty. *)
Definition adopt nil (x : ptr) (b : tree D) s : rb_tree D :=
  match b with Leaf => s | Node l z c d r => set_node z (mk_node (tptr nil l) (tptr nil r) x c (Some d)) s end.

(** The pointer at the end of a path is set to [y]. *)
Definition hole nil k (y : ptr) s : rb_tree D :=
  match k with
  | [] => set_root y s
  | f :: k' => set_node (f_x f) (mkn (f_dir f) y (tptr nil (f_sib f)) (path_ptr nil k') (f_red f) (f_d f)) s
  end.

Lemma lookup_adopt nil x b s z : z ∉ ids b -> rbt_nodes (adopt nil x b s) !! z = rbt_nodes s !! z.
Proof. destruct b; [done|]. cbn. intros Hz. rewrite lookup_insert_ne; set_solver. Qed.

Lemma lookup_hole nil k y s z : z ∉ ids_path k -> rbt_nodes (hole nil k y s) !! z = rbt_nodes s !! z.
Proof. destruct k; [done|]. cbn. intros Hz. rewrite lookup_insert_ne; set_solver. Qed.

Lemma rep_adopt nil p x b s : NoDup (ids b) -> rep nil (rbt_nodes s) p b -> rep nil (rbt_nodes (adopt nil x b s)) x b.
Proof.
  intros Hnd Hb. eapply rep_parent; [| |done|exact Hb].
  - destruct b; [done|]. cbn. by rewrite lookup_insert_eq.
  - destruct b; [done|]. intros z _ Hz. cbn in *. by rewrite lookup_insert_ne.
Qed.

Lemma rep_path_set nil k h y s : NoDup (ids_path k) -> rep_path nil (rbt_nodes s) (rbt_root s) k h ->
  rep_path nil (rbt_nodes (hole nil k y s)) (rbt_root (hole nil k y s)) k y.
Proof.
  intros Hnd Hk. eapply rep_path_hole; [| |done|exact Hk].
  - destruct k; [done|]. cbn. by rewrite lookup_insert_eq.
  - destruct k; [done|]. intros z _ Hz. cbn in *. by rewrite lookup_insert_ne.
Qed.

Lemma hole_meta nil k y s : rbt_nil (hole nil k y s) = rbt_nil s /\ rbt_cb (hole nil k y s) = rbt_cb s.
Proof. by destruct k. Qed.

Lemma adopt_meta nil x b s : rbt_nil (adopt nil x b s) = rbt_nil s /\ rbt_cb (adopt nil x b s) = rbt_cb s /\
  rbt_root (adopt nil x b s) = rbt_root s.
Proof. by destruct b. Qed.

Lemma set_parent_run nil p x b s : nil ∉ ids b -> rep nil (rbt_nodes s) p b ->
  (if negb (tptr nil b =? nil) then SET_P (tptr nil b) x else mret tt) s = (Ok tt, adopt nil x b s).
Proof.
  intros Hn Hb. destruct b as [|l z c d r]; cbn [tptr]; [by rewrite Z.eqb_refl|].
  rewrite (proj2 (Z.eqb_neq z nil)) by set_solver. cbn [negb]. destruct Hb as (Hz & _).
  unfold SET_P. erewrite update_ok by exact Hz. done.
Qed.

Lemma set_child_run nil k dir x y s : nil ∉ ids_path k -> x ∉ ids_path k -> x <> nil ->
  rep_path nil (rbt_nodes s) (rbt_root s) k x ->
  (if negb (path_ptr nil k =? nil)
   then c ← child (path_ptr nil k) dir;
        if c =? x then set_child (path_ptr nil k) dir y else set_child (path_ptr nil k) (FLIP dir) y
   else st_modify (set_root y)) s = (Ok tt, hole nil k y s).
Proof.
  intros Hn Hx Hxn Hk. destruct k as [|f k]; cbn [path_ptr]; [by rewrite Z.eqb_refl|].
  rewrite (proj2 (Z.eqb_neq (f_x f) nil)) by (cbn in Hn; set_solver). cbn [negb].
  destruct Hk as (Hf & _). erewrite st_bind_ok; [|apply child_ok; exact Hf]. unfold set_child.
  assert (Hs : tptr nil (f_sib f) <> x) by (cbn in Hx; destruct (f_sib f); [done|]; cbn in *; set_solver).
  destruct (decide (f_dir f = dir)) as [<-|Hd].
  - rewrite child_mkn, Z.eqb_refl. erewrite update_ok by exact Hf. by rewrite with_child_mkn.
  - assert (f_dir f = FLIP dir) as E by (destruct (f_dir f), dir; done). rewrite <- (flip_flip dir), <- E.
    rewrite child_flip, (proj2 (Z.eqb_neq _ _)) by done. rewrite flip_flip. erewrite update_ok by exact Hf. by rewrite with_child_mkn.
Qed.

(** Rotation keeps the order of the nodes. *)
Lemma ids_rotated dir (a : tree D) x cx dx b y cy dy c cx' dx' cy' dy' :
  ids (node dir (node dir a x cx dx b) y cy dy c) = ids (node dir a x cx' dx' (node dir b y cy' dy' c)).
Proof. destruct dir; cbn; by rewrite <- app_assoc. Qed.

Lemma rotation_ids (x y : ptr) la lb lc : NoDup (x :: la ++ y :: lb ++ lc) ->
  x <> y /\ NoDup lb /\ (forall z, z ∈ la -> z <> x /\ z <> y /\ z ∉ lb) /\ (forall z, z ∈ lb -> z <> x /\ z <> y) /\
  (forall z, z ∈ lc -> z <> x /\ z <> y /\ z ∉ lb).
Proof.
  intros Hnd. apply list.NoDup_cons in Hnd as [Hx Hnd]. apply list.NoDup_app in Hnd as (_ & Ha & Hnd).
  apply list.NoDup_cons in Hnd as [Hy Hnd]. apply list.NoDup_app in Hnd as (Hb & Hbc & _).
  split_and!; [set_solver|done|set_solver..].
Qed.

Section Callback.
Variables (cb : ptr -> st (rb_tree D) unit) (combine : D -> option D -> option D -> D).

Hypothesis Hcb : cb_combines cb combine.

Definition comb dir (d : D) (a b : tree D) : D :=
  match dir with RB_LEFT => combine d (data a) (data b) | RB_RIGHT => combine d (data b) (data a) end.

(** The callback at the root of the subtree at the end of a path. *)
Lemma reorder_reps nil s k dir a x c d b : rbt_cb s = true -> reps nil s k (node dir a x c d b) ->
  exists s', reorder_cb cb x s = (Ok tt, s') /\ reps nil s' k (node dir a x c (comb dir d a b) b) /\ only [x] s s'.
Proof.
  intros Hc Hr. eexists. split; [|apply (set_reps _ _ _ _ _ _ _ _ _ c (comb dir d a b) Hr)].
  pose proof (reps_perm _ _ _ _ Hr) as (Hn & _). rewrite ids_node in Hn. destruct Hr as [H1 H2 _ _ _].
  apply rep_node in H2 as (Hlx & Ha & Hb).
  pose proof (child_data_rep s nil x a H1 ltac:(set_solver) Ha) as Hda.
  pose proof (child_data_rep s nil x b H1 ltac:(set_solver) Hb) as Hdb.
  unfold reorder_cb. rewrite (st_bind_ok st_get _ s s s) by done. rewrite Hc, H1.
  rewrite (proj2 (Z.eqb_neq x nil)) by set_solver. cbn [andb negb].
  rewrite <- (with_data_mkn dir _ _ _ _ d). destruct dir; apply Hcb; done.
Qed.

Section Links.
Variables (nil : ptr) (s : rb_tree D) (k : path D) (dir : rb_dir) (a b c : tree D) (x y : ptr) (cx cy : bool) (dx dy : D).
Hypothesis Hr : reps nil s k (node dir a x cx dx (node dir b y cy dy c)).

Lemma rotation_distinct :
  (x <> y /\ x <> nil /\ y <> nil /\ nil ∉ ids b) /\ NoDup (ids b) /\
  (forall z, z ∈ ids a -> z <> x /\ z <> y /\ z ∉ ids b) /\ (forall z, z ∈ ids b -> z <> x /\ z <> y) /\
  (forall z, z ∈ ids c -> z <> x /\ z <> y /\ z ∉ ids b) /\
  (forall z, z ∈ ids_path k -> z <> x /\ z <> y /\ z ∉ ids b /\ z ∉ ids a /\ z ∉ ids c).
Proof.
  pose proof (reps_perm _ _ _ _ Hr) as (Hn & _ & Hnd & _ & Hdis).
  setoid_rewrite ids_node in Hdis. setoid_rewrite ids_node in Hdis. rewrite !ids_node in Hn, Hnd.
  apply rotation_ids in Hnd as (Hxy & Hndb & Fa & Fb & Fc). split_and!; try done; [clear -Hn; set_solver..|].
  clear -Hdis. intros z Hz. split_and!; intros E; apply (Hdis z); set_solver.
Qed.

Lemma rotation_nodes :
  rbt_nodes s !! x = Some (mkn dir (tptr nil a) y (path_ptr nil k) cx dx) /\
  rbt_nodes s !! y = Some (mkn dir (tptr nil b) (tptr nil c) x cy dy) /\
  rep nil (rbt_nodes s) x a /\ rep nil (rbt_nodes s) y b /\ rep nil (rbt_nodes s) y c.
Proof.
  destruct Hr as [_ H2 _ _ _]. apply rep_node in H2 as (Hx & Ha & Hy). apply rep_node in Hy as (Hy & Hb & Hc).
  rewrite tptr_node in *. done.
Qed.

Let s1 := set_node x (mkn dir (tptr nil a) (tptr nil b) (path_ptr nil k) cx dx) s.
Let s2 := adopt nil x b s1.
Let s3 := set_node y (mkn dir (tptr nil b) (tptr nil c) (path_ptr nil k) cy dy) s2.
Let s4 := hole nil k y s3.
Let s5 := set_node x (mkn dir (tptr nil a) (tptr nil b) y cx dx)
            (set_node y (mkn dir x (tptr nil c) (path_ptr nil k) cy dy) s4).

Lemma lookup_s3 z : z <> x -> z <> y -> z ∉ ids b -> rbt_nodes s3 !! z = rbt_nodes s !! z.
Proof.
  intros Hzx Hzy Hzb. cbn. rewrite lookup_insert_ne by congruence. unfold s2. rewrite lookup_adopt by done.
  cbn. by rewrite lookup_insert_ne by congruence.
Qed.

Lemma lookup_s5 z : z <> x -> z <> y -> rbt_nodes s5 !! z = rbt_nodes s4 !! z.
Proof. intros Hzx Hzy. cbn. by rewrite !lookup_insert_ne by congruence. Qed.

Lemma lookup_s5_out z : z <> x -> z <> y -> z ∉ ids b -> z ∉ ids_path k -> rbt_nodes s5 !! z = rbt_nodes s !! z.
Proof. intros ? ? ? ?. rewrite lookup_s5 by done. unfold s4. rewrite lookup_hole by done. by apply lookup_s3. Qed.

Lemma rep_s1 : rep nil (rbt_nodes s1) y b.
Proof.
  destruct rotation_distinct as (_ & _ & _ & Fb & _). destruct rotation_nodes as (_ & _ & _ & Hb & _).
  eapply rep_frame; [|exact Hb]. intros z Hz. cbn. rewrite lookup_insert_ne; [done|]. intros ->. by apply Fb in Hz as [].
Qed.

Lemma rep_path_s3 : rep_path nil (rbt_nodes s3) (rbt_root s3) k x.
Proof.
  destruct rotation_distinct as (_ & _ & _ & _ & _ & Fk). destruct (adopt_meta nil x b s1) as (_ & _ & Hroot).
  change (rbt_root s3) with (rbt_root s2). unfold s2. rewrite Hroot.
  eapply rep_path_frame; [|rewrite <- (tptr_node nil dir a x cx dx (node dir b y cy dy c)); apply Hr].
  intros z Hz. apply Fk in Hz as (? & ? & ? & _). by apply lookup_s3.
Qed.

Lemma rotate_run : rotate cb x dir s = (reorder_cb cb x;; reorder_cb cb y) s5.
Proof.
  destruct rotation_distinct as ((Hxy & Hxn & Hyn & Hnb) & _ & _ & Fb & _ & Fk).
  destruct rotation_nodes as (Hx & Hy & _). pose proof (reps_perm _ _ _ _ Hr) as (_ & Hnk & _).
  assert (Hxb : x ∉ ids b /\ y ∉ ids b) by (split; intros Hz; by apply Fb in Hz as []). destruct Hxb as [Hxb Hyb].
  assert (Hxk : x ∉ ids_path k /\ y ∉ ids_path k) by (split; intros Hz; by apply Fk in Hz as (? & ? & _)).
  destruct Hxk as [Hxk Hyk].
  assert (Hx2 : rbt_nodes s2 !! x = Some (mkn dir (tptr nil a) (tptr nil b) (path_ptr nil k) cx dx)).
  { unfold s2. rewrite lookup_adopt by done. cbn. by rewrite lookup_insert_eq. }
  assert (Hy2 : rbt_nodes s2 !! y = Some (mkn dir (tptr nil b) (tptr nil c) x cy dy)).
  { unfold s2. rewrite lookup_adopt by done. cbn. by rewrite lookup_insert_ne. }
  assert (Hx4 : rbt_nodes s4 !! x = Some (mkn dir (tptr nil a) (tptr nil b) (path_ptr nil k) cx dx)).
  { unfold s4. rewrite lookup_hole by done. cbn. by rewrite lookup_insert_ne. }
  assert (Hy4 : rbt_nodes s4 !! y = Some (mkn dir (tptr nil b) (tptr nil c) (path_ptr nil k) cy dy)).
  { unfold s4. rewrite lookup_hole by done. cbn. by rewrite lookup_insert_eq. }
  unfold rotate, SET_P, set_child. do 4 rb_step. fold s1. rewrite (r_nil _ _ _ _ Hr).
  erewrite st_bind_ok; [|eapply set_parent_run; [exact Hnb|exact rep_s1]]. fold s2. do 2 rb_step. fold s3.
  erewrite st_bind_ok; [|apply set_child_run; [done..|apply rep_path_s3]]. fold s4. do 2 rb_step. done.
Qed.

Lemma rotate_reps : reps nil s5 k (node dir (node dir a x cx dx b) y cy dy c).
Proof.
  destruct rotation_distinct as ((Hxy & Hxn & Hyn & Hnb) & Hndb & Fa & Fb & Fc & Fk).
  destruct rotation_nodes as (_ & _ & Ha & _ & Hc). pose proof (reps_perm _ _ _ _ Hr) as (Hn & Hnk & _ & Hndk & _).
  assert (Hout : forall p t, rep nil (rbt_nodes s) p t ->
    (forall z, z ∈ ids t -> z <> x /\ z <> y /\ z ∉ ids b /\ z ∉ ids_path k) -> rep nil (rbt_nodes s5) p t).
  { intros p t Ht Hf. eapply rep_frame; [|exact Ht]. intros z Hz. apply Hf in Hz as (? & ? & ? & ?). by apply lookup_s5_out. }
  destruct (hole_meta nil k y s3) as [Hm _]. destruct (adopt_meta nil x b s1) as (Ha1 & _).
  constructor.
  - etransitivity; [exact Hm|]. etransitivity; [exact Ha1|apply Hr].
  - apply rep_node. rewrite tptr_node. split; [cbn; by rewrite lookup_insert_ne, lookup_insert_eq by congruence|].
    split; [apply rep_node; split; [cbn; by rewrite lookup_insert_eq|split]|].
    + apply (Hout _ _ Ha). intros z Hz. split_and!; [by apply Fa in Hz as (? & ? & ?)..|].
      intros Hzk. by apply Fk in Hzk as (_ & _ & _ & ? & _).
    + eapply rep_frame; [|eapply rep_adopt; [exact Hndb|exact rep_s1]]. intros z Hz.
      rewrite lookup_s5 by (by apply Fb in Hz as []). unfold s4.
      rewrite lookup_hole by (intros Hzk; by apply Fk in Hzk as (_ & _ & ? & _)).
      cbn. rewrite lookup_insert_ne; [done|]. by apply Fb in Hz as [].
    + apply (Hout _ _ Hc). intros z Hz. split_and!; [by apply Fc in Hz as (? & ? & ?)..|].
      intros Hzk. by apply Fk in Hzk as (_ & _ & _ & _ & ?).
  - rewrite tptr_node. eapply rep_path_frame; [|eapply rep_path_set; [done|exact rep_path_s3]].
    intros z Hz. apply Fk in Hz as (? & ? & _). by apply lookup_s5.
  - rewrite (ids_rotated _ _ _ _ _ _ _ _ _ _ cx dx cy dy). apply Hr.
  - destruct (r_black _ _ _ _ Hr) as (n & Hl & Hred). exists n. split; [|done]. by rewrite lookup_s5_out by congruence.
Qed.

(** The nodes whose links a rotation changes. *)
Lemma rotate_links :
  exists s', rotate cb x dir s = (reorder_cb cb x;; reorder_cb cb y) s' /\
    reps nil s' k (node dir (node dir a x cx dx b) y cy dy c) /\
    only (ids (node dir a x cx dx (node dir b y cy dy c)) ++ ids_path k) s s'.
Proof.
  exists s5. split; [apply rotate_run|]. split; [apply rotate_reps|].
  destruct (hole_meta nil k y s3) as [Hm1 Hm2]. destruct (adopt_meta nil x b s1) as (Ha1 & Ha2 & _).
  constructor; [etransitivity; [exact Hm1|exact Ha1]|etransitivity; [exact Hm2|exact Ha2]|].
  intros z Hz. rewrite !ids_node in Hz. apply lookup_s5_out; clear -Hz; set_solver.
Qed.
End Links.

(** ** The whole rotation *)

Definition rotated dir a x cx dx b y cy dy c : tree D :=
  let l := node dir a x cx (comb dir dx a b) b in node dir l y cy (comb dir dy l c) c.

Lemma rotate_spec nil s k dir a x cx dx b y cy dy c : rbt_cb s = true ->
  reps nil s k (node dir a x cx dx (node dir b y cy dy c)) ->
  exists s', rotate cb x dir s = (Ok tt, s') /\ reps nil s' k (rotated dir a x cx dx b y cy dy c) /\
    only (ids (node dir a x cx dx (node dir b y cy dy c)) ++ ids_path k) s s'.
Proof.
  intros Hcbs Hr. destruct (rotate_links _ _ _ _ _ _ _ _ _ _ _ _ _ Hr) as (s1 & Hrun & Hr1 & Ho1). rewrite Hrun.
  assert (E1 : rbt_cb s1 = true) by (rewrite (o_cb _ _ _ Ho1); done).
  apply (reps_plug1 _ _ (mk_frame dir y cy dy c)) in Hr1.
  destruct (reorder_reps _ _ _ _ _ _ _ _ _ E1 Hr1) as (s2 & Hrun2 & Hr2 & Ho2).
  erewrite st_bind_ok by exact Hrun2. apply reps_plug1 in Hr2. unfold plug1 in Hr2. cbn in Hr2.
  assert (E2 : rbt_cb s2 = true) by (rewrite (o_cb _ _ _ Ho2); done).
  destruct (reorder_reps _ _ _ _ _ _ _ _ _ E2 Hr2) as (s3 & Hrun3 & Hr3 & Ho3).
  exists s3. split; [done|]. split; [exact Hr3|].
  eapply only_trans; [exact Ho1|]. eapply only_trans; [eapply only_sub; [|exact Ho2]|eapply only_sub; [|exact Ho3]];
    intros z Hz; rewrite !ids_node; clear -Hz; set_solver.
Qed.
End Callback.
End Rotation.
