(* ===== verification/RbInsert.v ===== *)
(** Rebalancing after insertion into a red-black tree: the algorithm on paths
    ([fix_up]), its refinement by the pointer code ([rebalance_refines]), and what it
    keeps: the order of the nodes, what they store about their subtrees, and the
    balance. *)
From S2P Require Import Prelude.
From stdpp Require Import list.
From S2P Require Import RbTree RbRotate.
Open Scope Z_scope.

(** * Paths *)

Section Paths.
Context {D : Type}.
Implicit Types (s : rb_tree D) (t : tree D) (k : path D).

(** The subtree of a node on side [dir]. *)
Definition sub dir (t : tree D) : tree D :=
  match t with
  | Leaf => Leaf
  | Node l _ _ _ r => match dir with RB_LEFT => l | RB_RIGHT => r end
  end.

(** A red parent and a red uncle become black, the grandparent red. *)
Definition recolor (f g : frame D) (t : tree D) : tree D :=
  node (f_dir g) (node (f_dir f) t (f_x f) false (f_d f) (f_sib f)) (f_x g) true (f_d g) (set_color false (f_sib g)).

Lemma reps_plug nil s k t : reps nil s k t <-> reps nil s [] (plug k t).
Proof. revert t. induction k as [|f k IH]; intros t; [done|]. rewrite reps_plug1. apply IH. Qed.

Lemma node_sub dir l x c d r : Node l x c d r = node dir (sub dir (Node l x c d r)) x c d (sub (FLIP dir) (Node l x c d r)).
Proof. by destruct dir. Qed.

Lemma tptr_ids nil (t : tree D) : t <> Leaf -> tptr nil t ∈ ids t.
Proof. destruct t; cbn; [done|]. set_solver. Qed.

Section Look.
Variables (nil : ptr) (s : rb_tree D) (k : path D) (t : tree D).
Hypothesis Hr : reps nil s k t.

Lemma P_root : t <> Leaf -> P (tptr nil t) s = (Ok (path_ptr nil k), s).
Proof. destruct Hr as [_ Ht _ _ _]. destruct t as [|l x c d r]; [done|]. intros _. destruct Ht as (Hx & _). cbn. by rewrite (P_ok _ _ _ Hx). Qed.

Lemma COLOR_tree : COLOR (tptr nil t) s = (Ok (is_red t), s).
Proof.
  destruct Hr as [_ Ht _ _ (n & Hn & Hred)]. destruct t as [|l x c d r]; cbn.
  - rewrite (COLOR_ok _ n); by rewrite ?Hred.
  - destruct Ht as (Hx & _). by rewrite (COLOR_ok _ _ _ Hx).
Qed.

Lemma COLOR_path : COLOR (path_ptr nil k) s = (Ok (match k with [] => false | f :: _ => f_red f end), s).
Proof.
  destruct Hr as [_ _ Hk _ (n & Hn & Hred)]. destruct k as [|f k']; cbn.
  - rewrite (COLOR_ok _ n); by rewrite ?Hred.
  - destruct Hk as (Hx & _). by rewrite (COLOR_ok _ _ _ Hx), red_mkn.
Qed.

(** The subtree is not where its sibling is. *)
Lemma child_path f k' dir : k = f :: k' ->
  child (f_x f) dir s = (Ok (if decide (dir = f_dir f) then tptr nil t else tptr nil (f_sib f)), s) /\
  P (f_x f) s = (Ok (path_ptr nil k'), s) /\
  (t <> Leaf -> tptr nil t <> tptr nil (f_sib f)).
Proof.
  intros ->. pose proof (reps_perm _ _ _ _ Hr) as (Hn & Hnk & _ & _ & Hdis). destruct Hr as [_ _ (Hf & _) _ _].
  split_and!.
  - rewrite (child_ok _ _ _ _ Hf). destruct (decide (dir = f_dir f)) as [->|Hd]; [by rewrite child_mkn|].
    replace dir with (FLIP (f_dir f)) by (destruct dir, (f_dir f); done). by rewrite child_flip.
  - by rewrite (P_ok _ _ _ Hf), parent_mkn.
  - intros Ht E. pose proof (tptr_ids nil t Ht) as Hi. destruct (f_sib f) eqn:Es; cbn in E; [congruence|].
    apply (Hdis (tptr nil t)); [done|]. unfold ids_path, ids_frame. cbn. rewrite Es, E. cbn. set_solver.
Qed.
End Look.

Lemma SET_COLOR_reps nil s k dir a x c d b c' : reps nil s k (node dir a x c d b) ->
  exists s', SET_COLOR x c' s = (Ok tt, s') /\ reps nil s' k (node dir a x c' d b) /\ only [x] s s'.
Proof.
  intros Hr. eexists. split; [|apply (set_reps _ _ _ _ _ _ _ _ _ c' d Hr)].
  destruct Hr as [_ H2 _ _ _]. apply rep_node in H2 as (Hx & _). unfold SET_COLOR. erewrite update_ok by exact Hx.
  by rewrite with_red_mkn.
Qed.

Lemma ids_plug1 f (t : tree D) : ids (plug1 f t) ≡ₚ ids t ++ ids_frame f.
Proof. unfold plug1. rewrite ids_node. unfold ids_frame. by rewrite <- Permutation_middle. Qed.

Lemma P_child nil s k dir a x c d b : reps nil s k (node dir a x c d b) ->
  (a <> Leaf -> P (tptr nil a) s = (Ok x, s)) /\ (b <> Leaf -> P (tptr nil b) s = (Ok x, s)).
Proof.
  intros Hr. split; intros Ht.
  - apply (proj2 (reps_plug1 _ _ (mk_frame dir x c d b) _ _)) in Hr. apply (P_root _ _ _ _ Hr Ht).
  - rewrite <- node_flip in Hr. apply (proj2 (reps_plug1 _ _ (mk_frame (FLIP dir) x c d a) _ _)) in Hr.
    apply (P_root _ _ _ _ Hr Ht).
Qed.

Lemma recolor_run nil s f g k t : reps nil s (f :: g :: k) t -> is_red (f_sib g) = true ->
  exists s', (forall K : st (rb_tree D) unit,
      (SET_COLOR_BLACK (f_x f);; SET_COLOR_BLACK (tptr nil (f_sib g));; SET_COLOR_RED (f_x g);; K) s = K s') /\
    reps nil s' k (recolor f g t) /\ only (ids t ++ ids_path (f :: g :: k)) s s'.
Proof.
  intros Hr Hu. destruct (f_sib g) as [|ul u uc ud ur] eqn:Eu; [done|].
  apply (proj1 (reps_plug1 _ _ _ _ _)) in Hr. unfold plug1 in Hr.
  destruct (SET_COLOR_reps _ _ _ _ _ _ _ _ _ false Hr) as (s1 & Hrun1 & Hr1 & Ho1).
  apply (proj1 (reps_plug1 _ _ _ _ _)) in Hr1. unfold plug1 in Hr1. rewrite <- node_flip, Eu in Hr1.
  set (p := node (f_dir f) t _ _ _ _) in Hr1.
  apply (proj2 (reps_plug1 _ _ (mk_frame (FLIP (f_dir g)) (f_x g) (f_red g) (f_d g) p) _ (node RB_LEFT ul u uc ud ur))) in Hr1.
  destruct (SET_COLOR_reps _ _ _ _ _ _ _ _ _ false Hr1) as (s2 & Hrun2 & Hr2 & Ho2).
  apply (proj1 (reps_plug1 _ _ _ _ _)) in Hr2. unfold plug1 in Hr2. cbn [f_dir f_x f_red f_d f_sib] in Hr2. rewrite node_flip in Hr2.
  destruct (SET_COLOR_reps _ _ _ _ _ _ _ _ _ true Hr2) as (s3 & Hrun3 & Hr3 & Ho3).
  exists s3. split_and!.
  - intros K. unfold SET_COLOR_BLACK, SET_COLOR_RED. erewrite st_bind_ok by exact Hrun1.
    erewrite st_bind_ok by exact Hrun2. by erewrite st_bind_ok by exact Hrun3.
  - unfold recolor. rewrite Eu. exact Hr3.
  - eapply only_trans; [eapply only_sub; [|exact Ho1]|eapply only_trans; [eapply only_sub; [|exact Ho2]|eapply only_sub; [|exact Ho3]]];
    intros z; unfold ids_path, ids_frame; cbn; rewrite ?Eu; cbn; clear; set_solver.
Qed.

(** The colour of the root when [k] leads to another node. *)
Fixpoint top_black (k : path D) : Prop :=
  match k with
  | [] => True
  | [f] => f_red f = false
  | _ :: k' => top_black k'
  end.

Lemma ids_set_color c (t : tree D) : ids (set_color c t) = ids t.
Proof. by destruct t. Qed.

Lemma ids_plug k (t : tree D) : ids (plug k t) ≡ₚ ids t ++ ids_path k.
Proof.
  revert t. induction k as [|f k IH]; intros t; [cbn; by rewrite app_nil_r|].
  change (plug (f :: k) t) with (plug k (plug1 f t)). rewrite IH, ids_plug1, <- app_assoc. done.
Qed.

Lemma size_length (m : gmap Z (rb_node D)) (l : list Z) : NoDup l -> (forall z, z ∈ l -> is_Some (m !! z)) -> (length l <= size m)%nat.
Proof.
  intros Hnd Hl. rewrite <- size_dom. rewrite <- (size_list_to_set (C := gset Z) l) by done. apply subseteq_size.
  intros z Hz. apply elem_of_dom, Hl. set_solver.
Qed.

Lemma rep_dom nil m p (t : tree D) z : rep nil m p t -> z ∈ ids t -> is_Some (m !! z).
Proof.
  revert p. induction t as [|l IHl x c d r IHr]; intros p; cbn; [set_solver|]. intros (Hx & Hl & Hr) Hz.
  rewrite elem_of_app, elem_of_cons in Hz. destruct Hz as [Hz|[->|Hz]]; eauto.
Qed.

(** There are more nodes in memory than in a tree. *)
Lemma reps_size nil s k t : reps nil s k t -> (length (ids t ++ ids_path k) < size (rbt_nodes s))%nat.
Proof.
  intros Hr. pose proof (proj1 (reps_plug _ _ _ _) Hr) as Hr0. rewrite <- ids_plug. destruct Hr0 as [_ Ht _ Hnd (n & Hn & _)].
  cbn in Hnd. rewrite app_nil_r in Hnd. apply (size_length _ (nil :: ids (plug k t))); [done|].
  intros z [->|Hz]%elem_of_cons; [by eexists|by eapply rep_dom].
Qed.

Lemma length_ids_path k : (length k <= length (ids_path k))%nat.
Proof. induction k as [|f k IH]; [done|]. unfold ids_path in *. cbn. rewrite length_app. lia. Qed.

Lemma path_ind2 (Q : path D -> Prop) : Q [] -> (forall f, Q [f]) -> (forall f g k, Q k -> Q (f :: g :: k)) -> forall k, Q k.
Proof. intros H0 H1 H2. fix IH 1. intros [|f [|g k]]; [done|done|]. apply H2, IH. Qed.

Lemma plug_not_leaf k (t : tree D) : t <> Leaf -> plug k t <> Leaf.
Proof. revert t. induction k as [|f k IH]; intros t Ht; [done|]. apply IH. unfold plug1. by destruct (f_dir f). Qed.

Lemma recolor_not_leaf f g t : recolor f g t <> Leaf.
Proof. unfold recolor. by destruct (f_dir g). Qed.
End Paths.

Section Rebalance.
Context {D : Type} (cb : ptr -> st (rb_tree D) unit) (combine : D -> option D -> option D -> D).
Implicit Types (s : rb_tree D) (t : tree D) (k : path D).

(** A red node below a red parent [f] whose sibling is black: one or two rotations,
    after which the subtree has a black root. *)
Definition turn (f g : frame D) (t : tree D) : tree D :=
  let dir := f_dir g in
  if decide (f_dir f = dir) then
    rotated combine (FLIP dir) (f_sib g) (f_x g) true (f_d g) (f_sib f) (f_x f) false (f_d f) t
  else
    match t with
    | Leaf => Leaf
    | Node _ x _ dx _ =>
        let b := sub dir t in
        let p := node dir (f_sib f) (f_x f) (f_red f) (comb combine dir (f_d f) (f_sib f) b) b in
        rotated combine (FLIP dir) (f_sib g) (f_x g) true (f_d g) (sub (FLIP dir) t) x false (comb combine dir dx p (sub (FLIP dir) t)) p
    end.

(** [t] has a red root. *)
Fixpoint fix_up (k : path D) (t : tree D) : tree D :=
  match k with
  | f :: ((g :: k') as kg) =>
      if f_red f then
        if is_red (f_sib g) then fix_up k' (recolor f g t) else plug k' (turn f g t)
      else plug k t
  | _ => plug k t
  end.

Hypothesis Hcb : cb_combines cb combine.

(** The rotation at the grandparent. *)
Lemma turn_outer_run nil s f g k t (K : st (rb_tree D) unit) : rbt_cb s = true -> reps nil s (f :: g :: k) t ->
  f_dir f = f_dir g ->
  exists s', (SET_COLOR_BLACK (f_x f);; y ← P (f_x f); SET_COLOR_RED y;; rotate cb y (FLIP (f_dir g));; K) s = K s' /\
    reps nil s' k (rotated combine (FLIP (f_dir g)) (f_sib g) (f_x g) true (f_d g) (f_sib f) (f_x f) false (f_d f) t) /\
    only (ids t ++ ids_path (f :: g :: k)) s s'.
Proof.
  intros Hc Hr Hd. apply reps_plug1 in Hr. unfold plug1 in Hr.
  destruct (SET_COLOR_reps _ _ _ _ _ _ _ _ _ false Hr) as (s1 & Hrun1 & Hr1 & Ho1).
  apply (reps_plug1 _ _ (mk_frame (f_dir f) (f_x f) false (f_d f) (f_sib f))) in Hr1.
  pose proof (proj1 (proj2 (child_path _ _ _ _ Hr1 _ _ RB_LEFT eq_refl))) as HP.
  do 2 apply (proj1 (reps_plug1 _ _ _ _ _)) in Hr1. unfold plug1 in Hr1. cbn in Hr1.
  destruct (SET_COLOR_reps _ _ _ _ _ _ _ _ _ true Hr1) as (s2 & Hrun2 & Hr2 & Ho2).
  rewrite Hd, <- (node_flip (f_dir g)), <- (node_flip (f_dir g) (f_sib f)) in Hr2.
  destruct (rotate_spec _ _ Hcb _ _ _ _ _ _ _ _ _ _ _ _ _ ltac:(by rewrite (o_cb _ _ _ Ho2), (o_cb _ _ _ Ho1)) Hr2)
    as (s3 & Hrun3 & Hr3 & Ho3).
  exists s3. split; [|split; [exact Hr3|]].
  - unfold SET_COLOR_BLACK, SET_COLOR_RED. erewrite st_bind_ok by exact Hrun1. erewrite st_bind_ok by exact HP.
    erewrite st_bind_ok by exact Hrun2. by erewrite st_bind_ok by exact Hrun3.
  - eapply only_trans; [eapply only_sub; [|exact Ho1]|eapply only_trans; [eapply only_sub; [|exact Ho2]|eapply only_sub; [|exact Ho3]]];
    intros z; rewrite ?ids_node; unfold ids_path, ids_frame; cbn; clear; set_solver.
Qed.

Lemma turn_run nil s f g k t (K : ptr -> st (rb_tree D) unit) : rbt_cb s = true -> reps nil s (f :: g :: k) t -> t <> Leaf ->
  exists s' x', (c ← child (f_x f) (FLIP (f_dir g));
              x ← (if tptr nil t =? c then rotate cb (f_x f) (f_dir g);; mret (f_x f) else mret (tptr nil t));
              p ← P x;
              SET_COLOR_BLACK p;; y ← P p; SET_COLOR_RED y;; rotate cb y (FLIP (f_dir g));; K x) s = K x' s' /\
    reps nil s' k (turn f g t) /\ only (ids t ++ ids_path (f :: g :: k)) s s' /\
    P x' s' = (Ok (tptr nil (turn f g t)), s') /\ is_red (turn f g t) = false.
Proof.
  intros Hc Hr Ht. destruct (child_path _ _ _ _ Hr _ _ (FLIP (f_dir g)) eq_refl) as (Hch & _ & Hne).
  erewrite st_bind_ok by exact Hch. specialize (Hne Ht). unfold turn. destruct (decide (f_dir f = f_dir g)) as [E|E].
  - rewrite decide_False by (rewrite E; by destruct (f_dir g)). rewrite (proj2 (Z.eqb_neq _ _)) by done.
    erewrite st_bind_ok by done. erewrite st_bind_ok by (by eapply P_root).
    destruct (turn_outer_run _ _ _ _ _ _ (K (tptr nil t)) Hc Hr E) as (s' & Hrun & Hr' & Ho).
    exists s', (tptr nil t). split_and!; [exact Hrun|done|done| |by destruct (f_dir g)].
    unfold rotated. rewrite tptr_node. by apply (P_child _ _ _ _ _ _ _ _ _ Hr').
  - assert (f_dir f = FLIP (f_dir g)) as E' by (destruct (f_dir f), (f_dir g); done).
    rewrite decide_True by done. rewrite Z.eqb_refl. destruct t as [|l x cx dx r]; [done|].
    set (b := sub (f_dir g) _). set (c := sub (FLIP (f_dir g)) _).
    apply (proj1 (reps_plug1 _ _ _ _ _)) in Hr. unfold plug1 in Hr.
    rewrite E', node_flip, (node_sub (f_dir g) l x cx dx r) in Hr. fold b c in Hr.
    destruct (rotate_spec _ _ Hcb _ _ _ _ _ _ _ _ _ _ _ _ _ Hc Hr) as (s1 & Hrun1 & Hr1 & Ho1).
    set (p := node (f_dir g) (f_sib f) (f_x f) (f_red f) (comb combine (f_dir g) (f_d f) (f_sib f) b) b).
    assert (Hp : tptr nil p = f_x f /\ p <> Leaf) by (split; [apply tptr_node|by unfold p; destruct (f_dir g)]).
    destruct Hp as [Hp Hpl]. unfold rotated in Hr1. fold p in Hr1.
    pose proof (proj1 (P_child _ _ _ _ _ _ _ _ _ Hr1) Hpl) as HP. rewrite Hp in HP.
    apply (proj2 (reps_plug1 _ _ (mk_frame (f_dir g) x cx (comb combine (f_dir g) dx p c) c) _ _)) in Hr1.
    destruct (turn_outer_run _ _ _ _ _ _ (K (f_x f)) ltac:(by rewrite (o_cb _ _ _ Ho1)) Hr1 eq_refl) as (s2 & Hrun2 & Hr2 & Ho2).
    exists s2, (f_x f). split_and!; [|exact Hr2| | |by destruct (f_dir g)].
    + erewrite st_bind_ok by (erewrite st_bind_ok by exact Hrun1; done). erewrite st_bind_ok by exact HP. exact Hrun2.
    + eapply only_trans; (eapply only_sub; [|eassumption]); intros z; rewrite (node_sub (f_dir g) l x cx dx r);
        fold b c; unfold ids_path, ids_frame; cbn; unfold p; rewrite ?ids_node; clear; set_solver.
    + unfold rotated. rewrite tptr_node, <- Hp. by apply (P_child _ _ _ _ _ _ _ _ _ Hr2).
Qed.

(** What one round reads. *)
Lemma rebalance_round fuel nil s f g k t : reps nil s (f :: g :: k) t -> t <> Leaf -> f_red f = true ->
  rebalance_loop cb (S fuel) (tptr nil t) s =
  (if is_red (f_sib g)
   then SET_COLOR_BLACK (f_x f);; SET_COLOR_BLACK (tptr nil (f_sib g));; SET_COLOR_RED (f_x g);; rebalance_loop cb fuel (f_x g)
   else c ← child (f_x f) (FLIP (f_dir g));
        x ← (if tptr nil t =? c then rotate cb (f_x f) (f_dir g);; mret (f_x f) else mret (tptr nil t));
        p ← P x;
        SET_COLOR_BLACK p;; y ← P p; SET_COLOR_RED y;; rotate cb y (FLIP (f_dir g));; rebalance_loop cb fuel x) s.
Proof.
  intros Hr Ht Ered. cbn [rebalance_loop]. erewrite st_bind_ok by by eapply P_root.
  erewrite st_bind_ok by by eapply COLOR_path. rewrite Ered. cbn [path_ptr].
  destruct (child_path _ _ _ _ Hr _ _ RB_LEFT eq_refl) as (_ & HP & _). erewrite st_bind_ok by exact HP.
  pose proof (proj1 (reps_plug1 _ _ _ _ _) Hr) as Hr1.
  destruct (child_path _ _ _ _ Hr1 _ _ RB_LEFT eq_refl) as (Hl & _ & Hne).
  destruct (child_path _ _ _ _ Hr1 _ _ (FLIP (f_dir g)) eq_refl) as (Hu & _ & _).
  unfold plug1 in Hl, Hu, Hne. rewrite !tptr_node in *. specialize (Hne ltac:(by destruct (f_dir f))).
  cbn [path_ptr]. erewrite st_bind_ok by exact Hl.
  match goal with |- context [if ?b then RB_LEFT else RB_RIGHT] =>
    replace (if b then RB_LEFT else RB_RIGHT) with (f_dir g) end.
  2: { destruct (decide (RB_LEFT = f_dir g)) as [<-|]; [by rewrite Z.eqb_refl|].
       rewrite (proj2 (Z.eqb_neq _ _)) by done. by destruct (f_dir g). }
  cbv zeta. erewrite st_bind_ok by exact Hu. rewrite decide_False by (by destruct (f_dir g)).
  apply (proj1 (reps_plug1 _ _ _ _ _)) in Hr1. unfold plug1 at 1 in Hr1. rewrite <- node_flip in Hr1.
  apply (proj2 (reps_plug1 _ _ (mk_frame (FLIP (f_dir g)) (f_x g) (f_red g) (f_d g) (plug1 f t)) _ _)) in Hr1.
  erewrite st_bind_ok by by eapply COLOR_tree. done.
Qed.

Lemma rebalance_loop_refines fuel nil s k t :
  rbt_cb s = true -> reps nil s k t -> t <> Leaf -> top_black k -> (length k < fuel)%nat ->
  exists s', rebalance_loop cb fuel (tptr nil t) s = (Ok tt, s') /\ reps nil s' [] (fix_up k t) /\
    only (ids t ++ ids_path k) s s'.
Proof.
  revert s k t. induction fuel as [|fuel IH]; intros s k t Hc Hr Ht Hk Hf; [lia|].
  assert (Hstop : match k with [] => false | f :: _ => f_red f end = false ->
    rebalance_loop cb (S fuel) (tptr nil t) s = (Ok tt, s)).
  { intros E. cbn [rebalance_loop]. erewrite st_bind_ok by by eapply P_root.
    erewrite st_bind_ok by by eapply COLOR_path. by rewrite E. }
  destruct k as [|f [|g k]].
  - exists s. split; [by apply Hstop|]. done.
  - exists s. split; [by apply Hstop|]. split; [by apply reps_plug1|done].
  - cbn [fix_up]. destruct (f_red f) eqn:Ered.
    2: { exists s. split; [by apply Hstop|]. split; [by apply (proj1 (reps_plug _ _ _ _))|done]. }
    clear Hstop. rewrite (rebalance_round fuel nil s f g k t) by done. destruct (is_red (f_sib g)) eqn:Eu.
    + destruct (recolor_run _ _ _ _ _ _ Hr Eu) as (s1 & Hrun1 & Hr1 & Ho1). rewrite Hrun1.
      destruct (IH s1 k (recolor f g t)) as (s2 & Hrun2 & Hr2 & Ho2); [by rewrite (o_cb _ _ _ Ho1)|done| | |cbn in Hf; lia|].
      * unfold recolor. by destruct (f_dir g).
      * cbn in Hk. destruct k; [done|exact Hk].
      * exists s2. unfold recolor in Hrun2 at 1. rewrite tptr_node in Hrun2. split_and!; [exact Hrun2|exact Hr2|].
        eapply only_trans; [exact Ho1|eapply only_sub; [|exact Ho2]]. intros z. unfold recolor, ids_path, ids_frame.
        rewrite !ids_node, ids_set_color. cbn. clear. set_solver.
    + destruct (turn_run _ _ _ _ _ _ (rebalance_loop cb fuel) Hc Hr Ht) as (s1 & x & Hrun1 & Hr1 & Ho1 & HP & Hb).
      exists s1. rewrite Hrun1. split_and!; [|by apply (proj1 (reps_plug _ _ _ _))|done].
      destruct fuel as [|fuel]; [cbn in Hf; lia|]. cbn [rebalance_loop]. erewrite st_bind_ok by exact HP.
      erewrite st_bind_ok by by eapply COLOR_tree. by rewrite Hb.
Qed.

Lemma turn_not_leaf f g t : t <> Leaf -> turn f g t <> Leaf.
Proof. intros Ht. unfold turn. repeat case_match; unfold rotated; by destruct (FLIP (f_dir g)). Qed.

Lemma fix_up_not_leaf k t : t <> Leaf -> fix_up k t <> Leaf.
Proof.
  revert t. induction k as [|f|f g k IH] using path_ind2; intros t Ht; [done|by apply plug_not_leaf|]. cbn [fix_up].
  repeat case_match; [apply IH, recolor_not_leaf|by apply plug_not_leaf, turn_not_leaf|by apply plug_not_leaf].
Qed.

(** * What rebalancing keeps *)

Section Keys.
Context {K : Type} (key : D -> K).
Hypothesis key_combine : forall d a b, key (combine d a b) = key d.

(** The nodes in order, each with the part of its data that is its own. *)
Fixpoint elems (t : tree D) : list (ptr * K) :=
  match t with Leaf => [] | Node l x _ d r => elems l ++ (x, key d) :: elems r end.

Lemma elems_ids t : map fst (elems t) = ids t.
Proof. induction t as [|l IHl x c d r IHr]; [done|]. cbn. by rewrite map_app, IHl, <- IHr. Qed.

Lemma elems_node dir a a' x c c' d d' b b' : elems a = elems a' -> elems b = elems b' -> key d = key d' ->
  elems (node dir a x c d b) = elems (node dir a' x c' d' b').
Proof. intros Ea Eb Ed. destruct dir; cbn; by rewrite Ea, Eb, Ed. Qed.

Lemma elems_plug k t t' : elems t = elems t' -> elems (plug k t) = elems (plug k t').
Proof. revert t t'. induction k as [|f k IH]; intros t t' E; [done|]. by apply IH, elems_node. Qed.

Lemma elems_set_color c t : elems (set_color c t) = elems t.
Proof. by destruct t. Qed.

Lemma key_comb dir d a b : key (comb combine dir d a b) = key d.
Proof. destruct dir; apply key_combine. Qed.

Lemma elems_rotated dir a x cx dx b y cy dy c cx' cy' :
  elems (rotated combine dir a x cx dx b y cy dy c) = elems (node dir a x cx' dx (node dir b y cy' dy c)).
Proof. unfold rotated. destruct dir; cbn; rewrite <- app_assoc; cbn; by rewrite !key_combine. Qed.

Lemma elems_turn f g t : t <> Leaf -> elems (turn f g t) = elems (plug1 g (plug1 f t)).
Proof.
  intros Ht. unfold turn, plug1. destruct (decide (f_dir f = f_dir g)) as [->|E].
  - rewrite (elems_rotated _ _ _ _ _ _ _ _ _ _ (f_red g) (f_red f)), !node_flip. done.
  - destruct t as [|l x cx dx r]; [done|]. rewrite (elems_rotated _ _ _ _ _ _ _ _ _ _ (f_red g) cx), !node_flip.
    assert (f_dir f = FLIP (f_dir g)) as -> by (destruct (f_dir f), (f_dir g); done). rewrite node_flip.
    apply elems_node; [|done..].
    pose proof (elems_rotated (f_dir g) (f_sib f) (f_x f) (f_red f) (f_d f) (sub (f_dir g) (Node l x cx dx r)) x cx dx
      (sub (FLIP (f_dir g)) (Node l x cx dx r)) (f_red f) cx) as H. rewrite <- node_sub in H. rewrite <- H.
    by apply elems_node.
Qed.

Lemma elems_recolor f g t : elems (recolor f g t) = elems (plug1 g (plug1 f t)).
Proof. apply elems_node; [by apply elems_node|apply elems_set_color|done]. Qed.

Lemma elems_fix_up k t : t <> Leaf -> elems (fix_up k t) = elems (plug k t).
Proof.
  revert t. induction k as [|f|f g k IH] using path_ind2; intros t Ht; [done..|]. cbn [fix_up].
  repeat case_match; [|by apply (elems_plug k), elems_turn|done]. rewrite IH by apply recolor_not_leaf.
  by apply (elems_plug k), elems_recolor.
Qed.

(** ** What the nodes store about their subtrees *)

Variable sum_ok : D -> list K -> Prop.

Definition keys (t : tree D) : list K := map snd (elems t).

Fixpoint aug (t : tree D) : Prop :=
  match t with Leaf => True | Node l _ _ d r => sum_ok d (keys t) /\ aug l /\ aug r end.

Hypothesis sum_combine : forall d a b, aug a -> aug b ->
  sum_ok (combine d (data a) (data b)) (keys a ++ key d :: keys b).

Lemma aug_node dir a x c d b : aug (node dir a x c d b) <-> sum_ok d (keys (node dir a x c d b)) /\ aug a /\ aug b.
Proof. destruct dir; cbn; tauto. Qed.

Lemma keys_elems t t' : elems t = elems t' -> keys t = keys t'.
Proof. unfold keys. by intros ->. Qed.

Lemma aug_sub k t : aug (plug k t) -> aug t.
Proof.
  revert t. induction k as [|f k IH]; intros t; [done|]. intros H.
  apply (IH (plug1 f t)) in H. by apply aug_node in H as (_ & ? & _).
Qed.

Lemma aug_plug k t t' : elems t' = elems t -> aug t' -> aug (plug k t) -> aug (plug k t').
Proof.
  revert t t'. induction k as [|f k IH]; intros t t' E Ht Hk; [done|].
  apply (IH (plug1 f t) (plug1 f t')); [by apply elems_node| |done]. apply (aug_sub k (plug1 f t)), aug_node in Hk as (Hs & _ & Hb).
  apply aug_node. split_and!; [|done..]. rewrite (keys_elems _ (plug1 f t)) by by apply elems_node. exact Hs.
Qed.

Lemma aug_comb dir a x c d b : aug a -> aug b -> aug (node dir a x c (comb combine dir d a b) b).
Proof.
  intros Ha Hb. apply aug_node. split_and!; [|done..].
  unfold keys. destruct dir; cbn; rewrite map_app; cbn; rewrite key_combine; by apply sum_combine.
Qed.

Lemma aug_rotated dir a x cx dx b y cy dy c : aug a -> aug b -> aug c -> aug (rotated combine dir a x cx dx b y cy dy c).
Proof. intros Ha Hb Hc. apply aug_comb; [by apply aug_comb|done]. Qed.

Lemma aug_turn f g t : t <> Leaf -> aug (plug1 g (plug1 f t)) -> aug (turn f g t).
Proof.
  intros Ht H. apply aug_node in H as (_ & H & Hg). apply aug_node in H as (_ & H & Hf). unfold turn.
  destruct (decide _); [by apply aug_rotated|]. destruct t as [|l x c d r]; [done|]. destruct H as (_ & Hl & Hr).
  apply aug_rotated; [done|by destruct (f_dir g)|]. apply aug_comb; [done|by destruct (f_dir g)].
Qed.

Lemma aug_set_color c t : aug (set_color c t) <-> aug t.
Proof. by destruct t. Qed.

Lemma aug_recolor f g t : aug (plug1 g (plug1 f t)) -> aug (recolor f g t).
Proof.
  intros H. pose proof (elems_recolor f g t) as E. unfold recolor in *. apply aug_node in H as (Hs & H & Hg). apply aug_node in H as (Hs' & H & Hf).
  apply aug_node. split_and!; [by rewrite (keys_elems _ _ E)| |by apply aug_set_color].
  apply aug_node. split_and!; [|done..]. erewrite keys_elems; [exact Hs'|]. by apply elems_node.
Qed.

Lemma aug_fix_up k t : t <> Leaf -> aug (plug k t) -> aug (fix_up k t).
Proof.
  revert t. induction k as [|f|f g k IH] using path_ind2; intros t Ht Hk; [done..|]. cbn [fix_up].
  pose proof (aug_sub k _ Hk) as Hg. repeat case_match; [|..|done].
  - apply IH; [apply recolor_not_leaf|]. eapply aug_plug; [apply elems_recolor|by apply aug_recolor|exact Hk].
  - eapply aug_plug; [by apply elems_turn|by apply aug_turn|exact Hk].
Qed.
End Keys.

(** ** Balance *)

(** A tree whose root has colour [c], in which no red node has a red child and
    every path has [n] black nodes. *)
Inductive rb : tree D -> bool -> nat -> Prop :=
| rb_leaf : rb Leaf false 0
| rb_red l x d r n : rb l false n -> rb r false n -> rb (Node l x true d r) true n
| rb_black l x d r cl cr n : rb l cl n -> rb r cr n -> rb (Node l x false d r) false (S n).

(** A path to a subtree of [n] black nodes whose root has colour [c]. *)
Inductive rb_path : path D -> bool -> nat -> Prop :=
| rbp_nil c n : rb_path [] c n
| rbp_red f k n : f_red f = true -> rb (f_sib f) false n -> rb_path k true n -> rb_path (f :: k) false n
| rbp_black f k c cs n : f_red f = false -> rb (f_sib f) cs n -> rb_path k false (S n) -> rb_path (f :: k) c n.

Lemma rb_node_red dir a x d b n : rb a false n -> rb b false n -> rb (node dir a x true d b) true n.
Proof. intros. destruct dir; by constructor. Qed.

Lemma rb_node_black dir a x d b ca c2 n : rb a ca n -> rb b c2 n -> rb (node dir a x false d b) false (S n).
Proof. intros. destruct dir; by econstructor. Qed.

Lemma rb_plug k t c n : rb_path k c n -> rb t c n -> exists c' n', rb (plug k t) c' n'.
Proof.
  intros Hk. revert t. induction Hk as [|f k n Hf Hs Hk IH|f k c cs n Hf Hs Hk IH]; intros t Ht; [by eauto|..];
    apply (IH (plug1 f t)); unfold plug1; rewrite Hf; [by apply rb_node_red|by eapply rb_node_black].
Qed.

Lemma rb_is_red t c n : rb t c n -> is_red t = c.
Proof. by destruct 1. Qed.

Lemma rb_rotated dir a x dx b y dy c n : rb a false n -> rb b false n -> rb c true n ->
  rb (rotated combine dir a x true dx b y false dy c) false (S n).
Proof. intros. eapply rb_node_black; [by apply rb_node_red|done]. Qed.

Lemma rb_turn f g t n : rb t true n -> rb (f_sib f) false n -> f_red f = true -> rb (f_sib g) false n ->
  rb (turn f g t) false (S n).
Proof.
  intros Ht Hf Hfr Hg. unfold turn. destruct (decide _); [by apply rb_rotated|].
  inversion Ht as [|l x d r n' Hl Hr|]; subst. rewrite Hfr. cbv zeta.
  assert (rb (sub (f_dir g) (Node l x true d r)) false n /\ rb (sub (FLIP (f_dir g)) (Node l x true d r)) false n) as [H1 H2]
    by (by destruct (f_dir g)).
  apply rb_rotated; [done|done|]. by apply rb_node_red.
Qed.

(** The balance of a red node below a path that accepts a black one. *)
Lemma rb_fix_up k t n : top_black k -> rb_path k false n -> rb t true n -> exists c' n', rb (fix_up k t) c' n'.
Proof.
  revert t n. induction k as [|f|f g k IH] using path_ind2; intros t n Htop Hk Ht; [by eauto|..].
  - cbn in *. inversion Hk; subst; [congruence|]. unfold plug1. rewrite Htop. do 2 eexists. by eapply rb_node_black.
  - cbn [fix_up]. inversion Hk as [|? ? ? Hf Hs Hk'|? ? ? ? ? Hf Hs Hk']; subst; rewrite Hf.
    2: { apply (rb_plug (g :: k) (plug1 f t) false (S n)); [done|]. unfold plug1. rewrite Hf. by eapply rb_node_black. }
    inversion Hk' as [| |? ? ? cs ? Hg Hsg Hk'']; subst. rewrite (rb_is_red _ _ _ Hsg). destruct cs.
    + apply (IH _ (S n)); [by destruct k|done|]. apply rb_node_red; [by eapply rb_node_black|].
      inversion Hsg; subst. cbn. by econstructor.
    + eapply rb_plug; [done|]. by apply rb_turn.
Qed.

Lemma rb_set_black t c n : rb t c n -> exists n', rb (set_color false t) false n'.
Proof. destruct 1; eexists; cbn; [by constructor|by econstructor..]. Qed.

Fixpoint height (t : tree D) : nat :=
  match t with Leaf => 0 | Node l _ _ _ r => S (max (height l) (height r)) end.

Fixpoint count (t : tree D) : nat := match t with Leaf => 0 | Node l _ _ _ r => S (count l + count r) end.

Lemma rb_height t c n : rb t c n -> (height t <= 2 * n + (if c then 1 else 0))%nat /\ (2 ^ n <= S (count t))%nat.
Proof.
  induction 1 as [|l x d r n Hl [IHl1 IHl2] Hr [IHr1 IHr2]|l x d r cl cr n Hl [IHl1 IHl2] Hr [IHr1 IHr2]]; cbn [height count].
  - cbn. lia.
  - lia.
  - rewrite Nat.pow_succ_r'. destruct cl, cr; lia.
Qed.

(** The height is at most twice the logarithm of the number of nodes. *)
Lemma rb_balanced t n : rb t false n -> (2 ^ (height t / 2) <= S (count t))%nat.
Proof.
  intros H. apply rb_height in H as [Hh Hc]. etransitivity; [|exact Hc]. apply Nat.pow_le_mono_r; [lia|].
  apply Nat.Div0.div_le_upper_bound. lia.
Qed.

Lemma rebalance_refines nil s k t : rbt_cb s = true -> reps nil s k t -> t <> Leaf -> top_black k ->
  exists s', rb_tree_insert_rebalance cb (tptr nil t) s = (Ok tt, s') /\
    reps nil s' [] (set_color false (fix_up k t)) /\ only (ids t ++ ids_path k) s s'.
Proof.
  intros Hc Hr Ht Hk. unfold rb_tree_insert_rebalance. rewrite (st_bind_ok st_get _ s s s) by done.
  pose proof (reps_size _ _ _ _ Hr) as Hs. pose proof (length_ids_path k) as Hlk. rewrite length_app in Hs.
  destruct (rebalance_loop_refines (size (rbt_nodes s)) nil s k t Hc Hr Ht Hk ltac:(lia)) as (s1 & Hrun1 & Hr1 & Ho1).
  erewrite st_bind_ok by exact Hrun1. erewrite st_bind_ok by done. pose proof (r_path _ _ _ _ Hr1) as Hroot. cbn in Hroot.
  pose proof (fix_up_not_leaf k t Ht) as Hnl. destruct (fix_up k t) as [|l x c d r] eqn:E; [done|].
  destruct (SET_COLOR_reps nil s1 [] RB_LEFT l x c d r false Hr1) as (s2 & Hrun2 & Hr2 & Ho2).
  rewrite Hroot. exists s2. split_and!; [exact Hrun2|exact Hr2|].
  eapply only_trans; [exact Ho1|eapply only_sub; [|exact Ho2]]. intros z Hz.
  rewrite <- ids_plug, <- (elems_ids (fun _ => tt)), <- elems_fix_up, elems_ids, E by done. cbn. clear -Hz. set_solver.
Qed.

End Rebalance.

(** * Linking a new node *)

Section Link.
Context {D : Type}.
Implicit Types (s : rb_tree D) (t : tree D) (k : path D).

Lemma update_data_reps nil s k dir a x c d b d' : reps nil s k (node dir a x c d b) ->
  exists s', update x (with_data d') s = (Ok tt, s') /\ reps nil s' k (node dir a x c d' b) /\ only [x] s s'.
Proof.
  intros Hr. eexists. split; [|apply (set_reps _ _ _ _ _ _ _ _ _ c d' Hr)].
  destruct Hr as [_ H2 _ _ _]. apply rep_node in H2 as (Hx & _). erewrite update_ok by exact Hx.
  by rewrite with_data_mkn.
Qed.

(** The members of a new node. *)
Lemma link_run nil s new p c n d (K : st (rb_tree D) unit) : rbt_nodes s !! new = Some n -> n_data n = Some d ->
  (SET_P new p;; SET_COLOR new c;; set_child new RB_LEFT nil;; set_child new RB_RIGHT nil;; K) s =
  K (set_node new (mk_node nil nil p c (Some d)) s).
Proof.
  intros Hn Hd. unfold SET_P, SET_COLOR, set_child. do 4 rb_step. f_equal. unfold set_node. cbn. f_equal.
  rewrite !insert_insert_eq, <- Hd. by destruct n.
Qed.

(** A new leaf at the end of a path that is not empty. *)
Lemma attach_reps nil s f k (new : ptr) n d : reps nil s (f :: k) Leaf -> new ∉ ids_path (f :: k) -> new <> nil ->
  rbt_nodes s !! new = Some n -> n_data n = Some d ->
  exists s', rb_tree_insert (f_x f) new (At_child (f_x f) (f_dir f)) s = (Ok tt, s') /\
    reps nil s' (f :: k) (Node Leaf new true d Leaf) /\ only (new :: ids_path (f :: k)) s s'.
Proof.
  intros Hr Hnew Hnn Hn Hd. pose proof (reps_perm _ _ _ _ Hr) as (_ & Hnk & _ & Hndk & _).
  destruct Hr as [H1 _ H3 H4 H5].
  set (s1 := set_node new (mk_node nil nil (f_x f) true (Some d)) s).
  assert (H31 : rep_path nil (rbt_nodes s1) (rbt_root s1) (f :: k) nil).
  { eapply rep_path_frame; [|exact H3]. intros z Hz. cbn. rewrite lookup_insert_ne; [done|]. by intros ->. }
  exists (hole nil (f :: k) new s1). split; [|split].
  - unfold rb_tree_insert. rb_step. rewrite H1. unfold SET_COLOR_RED. erewrite link_run by done. fold s1.
    destruct H31 as (Hf & _). rewrite Z.eqb_refl. unfold set_child.
    destruct (f_dir f) eqn:E; erewrite update_ok by exact Hf; cbn; by rewrite E.
  - constructor; [done| |by eapply rep_path_set| |].
    + cbn. split; [|done]. rewrite lookup_insert_ne by (cbn in Hnew; set_solver). by rewrite lookup_insert_eq.
    + cbn in *. rewrite !list.NoDup_cons in *. set_solver.
    + destruct H5 as (n0 & Hl & Hred). exists n0. split; [|done]. rewrite lookup_hole by done. cbn. by rewrite lookup_insert_ne.
  - constructor; [done|done|]. intros z Hz. rewrite lookup_hole by set_solver. cbn. rewrite lookup_insert_ne; set_solver.
Qed.

(** The first node, whose data the callback computes. *)
Lemma insert_root_reps cb combine nil s (new : ptr) n d : cb_combines cb combine -> reps nil s [] Leaf -> new <> nil ->
  rbt_nodes s !! new = Some n -> n_data n = Some d ->
  exists s', rb_tree_insert_root cb new s = (Ok tt, s') /\
    reps nil s' [] (Node Leaf new false (combine d None None) Leaf) /\ rbt_cb s' = true /\
    forall z, z <> new -> rbt_nodes s' !! z = rbt_nodes s !! z.
Proof.
  intros Hcb [H1 _ H3 _ (n0 & Hl & Hred)] Hnn Hn Hd.
  set (s1 := set_cb (set_root new (set_node new (mk_node nil nil nil false (Some d)) s))).
  assert (Hr1 : reps nil s1 [] (node RB_LEFT Leaf new false d Leaf)).
  { constructor; [done|cbn; by rewrite lookup_insert_eq|done|by cbn; apply list.NoDup_cons; split; [set_solver|apply NoDup_singleton]|].
    exists n0. split; [|done]. cbn. by rewrite lookup_insert_ne. }
  destruct (set_reps _ _ _ _ _ _ _ _ _ false (combine d None None) Hr1) as [Hr2 Ho2].
  exists (set_node new (mkn RB_LEFT nil nil nil false (combine d None None)) s1). split; [|split; [exact Hr2|split; [done|]]].
  - unfold rb_tree_insert_root. rb_step. rewrite H1. unfold SET_COLOR_BLACK. erewrite link_run by done.
    do 3 (erewrite st_bind_ok by done). fold s1.
    apply (Hcb s1 new (mk_node nil nil nil false (Some d)) d None None);
      [cbn; by rewrite lookup_insert_eq|done|unfold child_data; cbn; by rewrite H1, Z.eqb_refl..].
  - intros z Hz. rewrite (o_nodes _ _ _ Ho2) by set_solver. cbn. by rewrite lookup_insert_ne.
Qed.
End Link.
