(* ===== verification/Ival.v ===== *)
(** The interval trees of [crust/ival.h], as [crust/uival.h] and [crust/sival.h]
    instantiate them: red-black trees of intervals sorted by their lower bounds, in
    which every node stores the greatest upper bound of its subtree. *)
From S2P Require Import Prelude RbTree.
From stdpp Require Import strings.
Open Scope Z_scope.

(** [struct IVAL_NAME] without its [link]. *)
Record ival := mk_ival { iv_lower : Z; iv_upper : Z; iv_value : string; iv_link_max : Z }.

Definition with_link_max (m : Z) (iv : ival) : ival := mk_ival (iv_lower iv) (iv_upper iv) (iv_value iv) m.

Definition IVAL_MAX (a b : Z) : Z := if a >=? b then a else b.

Definition ivt := rb_tree ival.

(** The interval that embeds a node, [_unpack]. *)
Definition unpack (x : ptr) : st ivt ival :=
  n ← deref x; match n_data n with Some iv => mret iv | None => st_undef end.

Definition ival_intersects_pt (iv : ival) (v : Z) : bool := (v >=? iv_lower iv) && (v <=? iv_upper iv).

(** [_intersects] with the interval from [lo] to [hi]. *)
Definition ival_intersects (iv : ival) (lo hi : Z) : bool := (iv_lower iv <=? hi) && (lo <=? iv_upper iv).

Definition ival_eq (a b : ival) : bool := (iv_upper a =? iv_upper b) && (iv_lower a =? iv_lower b).

Definition update_link_max (x : ptr) : st ivt unit :=
  nil ← get_nil;
  l ← child x RB_LEFT;
  r ← child x RB_RIGHT;
  l_max ← (if negb (l =? nil) then iv ← unpack l; mret (iv_link_max iv) else mret 0);
  r_max ← (if negb (r =? nil) then iv ← unpack r; mret (iv_link_max iv) else mret 0);
  iv ← unpack x;
  update x (with_data (with_link_max (IVAL_MAX (iv_upper iv) (IVAL_MAX l_max r_max)) iv)).

(** The loop of [t_insert]: [cur] is the place of a pointer, [par] the node it is
    in. *)
Fixpoint insert_loop (fuel : nat) (new_iv : ival) (cur : place) (par : ptr) : st ivt (ptr * place) :=
  match fuel with
  | O => st_undef
  | S fuel =>
      nil ← get_nil;
      x ← load cur;
      if negb (x =? nil) then
        cur_iv ← unpack x;
        update x (with_data (with_link_max (IVAL_MAX (iv_upper new_iv) (iv_link_max cur_iv)) cur_iv));;
        insert_loop fuel new_iv (At_child x (if iv_lower new_iv <? iv_lower cur_iv then RB_LEFT else RB_RIGHT)) x
      else mret (par, cur)
  end.

Definition t_insert (new : ptr) : st ivt unit :=
  iv ← unpack new;
  update new (with_data (with_link_max (iv_upper iv) iv));;
  new_iv ← unpack new;
  root ← get_root;
  nil ← get_nil;
  if root =? nil then rb_tree_insert_root update_link_max new
  else
    s ← st_get;
    '(par, cur) ← insert_loop (S (size (rbt_nodes s))) new_iv At_root nil;
    rb_tree_insert par new cur;;
    rb_tree_insert_rebalance update_link_max new.

Definition t_delete (x : ptr) : st ivt unit := rb_tree_delete update_link_max x.

(** ** Search

    The members are read as the integer type of the function that searches:
    [ld] is the conversion to it. *)
Section Search.
Variable ld : Z -> Z.
Variables lo hi : Z.

Definition link_max_ge (x : ptr) : st ivt bool := iv ← unpack x; mret (ld (iv_link_max iv) >=? lo).

(** The loop that climbs from an exhausted subtree [cur] below [p]. *)
Fixpoint climb (fuel : nat) (cur p : ptr) : st ivt ptr :=
  match fuel with
  | O => st_undef
  | S fuel =>
      nil ← get_nil;
      if negb (p =? nil) then
        l ← child p RB_LEFT;
        r ← child p RB_RIGHT;
        right ← (if (cur =? l) && negb (r =? nil) then
                   ge ← link_max_ge r;
                   if (ge : bool) then iv ← unpack p; mret (ld (iv_lower iv) <=? hi) else mret false
                 else mret false);
        if (right : bool) then mret r
        else p' ← P p; climb fuel p p'
      else mret cur
  end.

Fixpoint intersect_loop (fuel : nat) (lastmatch : option ptr) (cur : ptr) : st ivt (option ptr) :=
  match fuel with
  | O => st_undef
  | S fuel =>
      nil ← get_nil;
      if negb (cur =? nil) then
        iv ← unpack cur;
        if bool_decide (lastmatch <> Some cur) && (ld (iv_lower iv) <=? hi) && (lo <=? ld (iv_upper iv))
        then mret (Some cur)
        else
          let p := cur in
          l ← child cur RB_LEFT;
          left ← (if negb (l =? nil) then link_max_ge l else mret false);
          cur ← child cur (if (left : bool) then RB_LEFT else RB_RIGHT);
          if (cur =? nil) && bool_decide (lastmatch <> None) then
            s ← st_get;
            cur ← climb (S (size (rbt_nodes s))) cur p;
            if cur =? rbt_root s then mret None else intersect_loop fuel lastmatch cur
          else intersect_loop fuel lastmatch cur
      else mret None
  end.

(** Every node is visited at most once. *)
Definition t_intersect (lastmatch : option ptr) : st ivt (option ptr) :=
  s ← st_get;
  intersect_loop (S (size (rbt_nodes s))) lastmatch
    (match lastmatch with Some x => x | None => rbt_root s end).
End Search.

Definition t_intersect_pt (ld : Z -> Z) (pt : Z) (lastmatch : option ptr) : st ivt (option ptr) :=
  t_intersect ld pt pt lastmatch.
