(* ===== verification/IvalTree.v ===== *)
(** Interval trees: insertion keeps the tree sorted, balanced and its greatest upper
    bounds good enough to search with, and a search finds the intervals that
    intersect the one it is given. *)
From S2P Require Import Prelude.
From stdpp Require Import list strings sorting.
From S2P Require Import RbTree RbRotate RbInsert Ival.
Open Scope Z_scope.

Notation itree := (tree ival).

(** * The callback *)

(** An interval without its [link_max]. *)
Definition iv_key (iv : ival) : Z * Z * string := (iv_lower iv, iv_upper iv, iv_value iv).
Definition k_lower (k : Z * Z * string) : Z := fst (fst k).
Definition k_upper (k : Z * Z * string) : Z := snd (fst k).
Definition k_value (k : Z * Z * string) : string := snd k.

Definition max_of (d : option ival) : Z := match d with Some iv => iv_link_max iv | None => 0 end.

Definition iv_combine (d : ival) (l r : option ival) : ival :=
  with_link_max (IVAL_MAX (iv_upper d) (IVAL_MAX (max_of l) (max_of r))) d.

(** [link_max] bounds the upper bounds of a subtree, and is one of them or 0: for
    an empty subtree the callback takes 0. *)
Definition lm_ok (d : ival) (ks : list (Z * Z * string)) : Prop :=
  (forall k, k ∈ ks -> k_upper k <= iv_link_max d) /\
  (iv_link_max d = 0 \/ exists k, k ∈ ks /\ k_upper k = iv_link_max d).

Notation keys := (keys iv_key).
Notation elems := (elems iv_key).
Notation aug := (aug iv_key lm_ok).

Lemma IVAL_MAX_max a b : IVAL_MAX a b = Z.max a b.
Proof. unfold IVAL_MAX. rewrite Z.geb_leb. destruct (Z.leb_spec b a); lia. Qed.

Lemma unpack_ok x n d (s : ivt) : rbt_nodes s !! x = Some n -> n_data n = Some d -> unpack x s = (Ok d, s).
Proof. intros Hx Hd. unfold unpack, deref, mbind, st_bind. by rewrite Hx, Hd. Qed.

Lemma update_combines : cb_combines update_link_max iv_combine.
Proof.
  intros s x n d dl dr Hx Hd Hl Hr. unfold update_link_max, child_data in *.
  assert (Hu : forall y dy, (if y =? rbt_nil s then Some None else n ← rbt_nodes s !! y; Some <$> n_data n) = Some dy ->
    (if negb (y =? rbt_nil s) then iv ← unpack y; mret (iv_link_max iv) else mret 0) s = (Ok (max_of dy), s)).
  { intros y dy E. destruct (y =? rbt_nil s); cbn [negb]; [by injection E as <-|].
    destruct (rbt_nodes s !! y) as [ny|] eqn:Ey; [|done]. cbn in E. destruct (n_data ny) as [iv|] eqn:En; [|done].
    injection E as <-. by erewrite st_bind_ok by by eapply unpack_ok. }
  rb_step. do 2 rb_step. cbn [n_child]. erewrite st_bind_ok by by apply Hu. erewrite st_bind_ok by by apply Hu.
  erewrite st_bind_ok by by eapply unpack_ok. by erewrite update_ok by exact Hx.
Qed.

Lemma sum_combine d (a b : itree) : aug a -> aug b ->
  lm_ok (iv_combine d (data a) (data b)) (keys a ++ iv_key d :: keys b).
Proof.
  assert (Hs : forall t : itree, aug t -> (forall k, k ∈ keys t -> k_upper k <= max_of (data t)) /\
    (max_of (data t) = 0 \/ exists k, k ∈ keys t /\ k_upper k = max_of (data t))).
  { intros [|l x c iv r]; [cbn; split; [set_solver|by left]|]. by intros (H & _). }
  intros Ha Hb. destruct (Hs a Ha) as [Ha1 Ha2]. destruct (Hs b Hb) as [Hb1 Hb2].
  unfold lm_ok, iv_combine. cbn [iv_link_max with_link_max]. rewrite !IVAL_MAX_max. split.
  - intros k. rewrite elem_of_app, elem_of_cons. intros [Hk|[->|Hk]]; [specialize (Ha1 k Hk)|cbn|specialize (Hb1 k Hk)]; lia.
  - destruct (Z.max_spec (iv_upper d) (Z.max (max_of (data a)) (max_of (data b)))) as [[_ ->]|[_ ->]].
    + destruct (Z.max_spec (max_of (data a)) (max_of (data b))) as [[_ ->]|[_ ->]].
      * destruct Hb2 as [?|(k & Hk & E)]; [by left|right]. exists k. split; [set_solver|done].
      * destruct Ha2 as [?|(k & Hk & E)]; [by left|right]. exists k. split; [set_solver|done].
    + right. exists (iv_key d). split; [set_solver|done].
Qed.

(** * Insertion *)

Notation ipath := (path ival).

Definition place_of (k : ipath) : place :=
  match k with [] => At_root | f :: _ => At_child (f_x f) (f_dir f) end.

(** The path to the place of a new interval, with the upper bound [u] counted at
    every node. *)
Fixpoint ins_path (lo u : Z) (k : ipath) (t : itree) : ipath :=
  match t with
  | Leaf => k
  | Node l x c d r =>
      let d' := with_link_max (IVAL_MAX u (iv_link_max d)) d in
      if lo <? iv_lower d then ins_path lo u (mk_frame RB_LEFT x c d' r :: k) l
      else ins_path lo u (mk_frame RB_RIGHT x c d' l :: k) r
  end.

Section Refine.
Variable nil : ptr.
Implicit Types (s : ivt) (t : itree) (k : ipath).

Lemma load_place s k t : reps nil s k t -> load (place_of k) s = (Ok (tptr nil t), s).
Proof.
  intros Hr. destruct k as [|f k]; cbn.
  - pose proof (r_path _ _ _ _ Hr) as E. cbn in E. by rewrite <- E.
  - destruct (child_path _ _ _ _ Hr _ _ (f_dir f) eq_refl) as (-> & _). by rewrite decide_True.
Qed.

Lemma ids_ins_path lo u k t z : z ∈ ids_path (ins_path lo u k t) -> z ∈ ids t ++ ids_path k.
Proof.
  revert k. induction t as [|l IHl x c d r IHr]; intros k; cbn; [done|].
  destruct (lo <? iv_lower d); intros Hz; [apply IHl in Hz|apply IHr in Hz];
    unfold ids_path in *; cbn in Hz; clear -Hz; set_solver.
Qed.

Lemma insert_loop_refines fuel new_iv s k t : reps nil s k t -> (length (ids t) < fuel)%nat ->
  let k' := ins_path (iv_lower new_iv) (iv_upper new_iv) k t in
  exists s', insert_loop fuel new_iv (place_of k) (path_ptr nil k) s = (Ok (path_ptr nil k', place_of k'), s') /\
    reps nil s' k' Leaf /\ only (ids t ++ ids_path k) s s'.
Proof.
  revert fuel s k. induction t as [|l IHl x c d r IHr]; intros fuel s k Hr Hf k'; (destruct fuel as [|fuel]; [cbn in Hf; lia|]);
    cbn [insert_loop]; rb_step; rewrite (r_nil _ _ _ _ Hr); erewrite st_bind_ok by by eapply load_place.
  - cbn [tptr]. rewrite Z.eqb_refl. exists s. by split.
  - assert (Hx : x <> nil) by (pose proof (reps_perm _ _ _ _ Hr) as (Hn & _); clear -Hn; set_solver).
    cbn [tptr]. rewrite (proj2 (Z.eqb_neq _ _)) by done. cbn [negb].
    destruct (r_tree _ _ _ _ Hr) as (Hlx & _). erewrite st_bind_ok by by eapply unpack_ok.
    set (d' := with_link_max (IVAL_MAX (iv_upper new_iv) (iv_link_max d)) d).
    destruct (update_data_reps nil s k RB_LEFT l x c d r d' Hr) as (s1 & Hrun1 & Hr1 & Ho1).
    erewrite st_bind_ok by exact Hrun1. unfold k'. cbn [ins_path]. fold d'. cbn in Hf. rewrite length_app in Hf. cbn in Hf.
    destruct (iv_lower new_iv <? iv_lower d).
    + apply (proj2 (reps_plug1 nil s1 (mk_frame RB_LEFT x c d' r) _ _)) in Hr1.
      destruct (IHl fuel _ _ Hr1 ltac:(lia)) as (s2 & Hrun2 & Hr2 & Ho2). exists s2. split; [exact Hrun2|]. split; [done|].
      eapply only_trans; (eapply only_sub; [|eassumption]); intros z; unfold ids_path, ids_frame; cbn; clear; set_solver.
    + apply (proj2 (reps_plug1 nil s1 (mk_frame RB_RIGHT x c d' l) _ _)) in Hr1.
      destruct (IHr fuel _ _ Hr1 ltac:(lia)) as (s2 & Hrun2 & Hr2 & Ho2). exists s2. split; [exact Hrun2|]. split; [done|].
      eapply only_trans; (eapply only_sub; [|eassumption]); intros z; unfold ids_path, ids_frame; cbn; clear; set_solver.
Qed.
End Refine.

(** ** What insertion gives *)

Definition lowers (l : list (ptr * (Z * Z * string))) : list Z := map (fun e => k_lower (snd e)) l.

(** The elements before and after the place of a path. *)
Fixpoint before (k : ipath) : list (ptr * (Z * Z * string)) :=
  match k with
  | [] => []
  | f :: k' => before k' ++ match f_dir f with RB_LEFT => [] | RB_RIGHT => elems (f_sib f) ++ [(f_x f, iv_key (f_d f))] end
  end.

Fixpoint after (k : ipath) : list (ptr * (Z * Z * string)) :=
  match k with
  | [] => []
  | f :: k' => match f_dir f with RB_LEFT => (f_x f, iv_key (f_d f)) :: elems (f_sib f) | RB_RIGHT => [] end ++ after k'
  end.

Lemma elems_path k t : elems (plug k t) = before k ++ elems t ++ after k.
Proof.
  revert t. induction k as [|f k IH]; intros t; cbn; [by rewrite app_nil_r|].
  change (elems (plug k (plug1 f t)) = (before k ++ match f_dir f with RB_LEFT => [] | RB_RIGHT => elems (f_sib f) ++ [(f_x f, iv_key (f_d f))] end) ++
    elems t ++ match f_dir f with RB_LEFT => (f_x f, iv_key (f_d f)) :: elems (f_sib f) | RB_RIGHT => [] end ++ after k).
  rewrite IH. unfold plug1. destruct (f_dir f); cbn; rewrite <- ?app_assoc; cbn; rewrite <- ?app_assoc; done.
Qed.

Lemma ins_path_elems lo u k t :
  before (ins_path lo u k t) ++ after (ins_path lo u k t) = before k ++ elems t ++ after k.
Proof.
  revert k. induction t as [|l IHl x c d r IHr]; intros k; cbn; [done|].
  destruct (lo <? iv_lower d); [rewrite IHl|rewrite IHr]; cbn; rewrite <- !app_assoc; cbn; by rewrite <- ?app_assoc.
Qed.

(** A path to a place for lower bound [lo]. *)
Definition around (lo : Z) (k : ipath) : Prop :=
  Forall (fun z => z <= lo) (lowers (before k)) /\ Forall (fun z => lo <= z) (lowers (after k)).

Lemma lowers_app a b : lowers (a ++ b) = lowers a ++ lowers b.
Proof. apply map_app. Qed.

Lemma sorted_app (a b : list Z) : StronglySorted Z.le (a ++ b) <->
  StronglySorted Z.le a /\ StronglySorted Z.le b /\ forall x y, x ∈ a -> y ∈ b -> x <= y.
Proof.
  induction a as [|x a IH]; cbn.
  - split; [|tauto]. intros H. split_and!; [constructor|done|set_solver].
  - split.
    + intros H. apply StronglySorted_inv in H as [H1 H2]. apply IH in H1 as (Ha & Hb & Hab). apply Forall_app in H2 as [H2 H3].
      split_and!; [by constructor|done|]. rewrite Forall_forall in H3. set_solver.
    + intros (Ha & Hb & Hab). apply StronglySorted_inv in Ha as [Ha Hx]. constructor; [apply IH; set_solver|].
      apply Forall_app. split; [done|]. apply Forall_forall. set_solver.
Qed.

Lemma around_ins lo u k t : StronglySorted Z.le (lowers (elems t)) -> around lo k -> around lo (ins_path lo u k t).
Proof.
  revert k. induction t as [|l IHl x c d r IHr]; intros k Hs Hk; cbn; [done|]. destruct Hk as [Hb Ha].
  cbn in Hs. rewrite lowers_app in Hs. apply sorted_app in Hs as (Hl & Hr & Hlr). cbn in Hr, Hlr.
  apply StronglySorted_inv in Hr as [Hr Hdr].
  destruct (Z.ltb_spec lo (iv_lower d)) as [Hlt|Hle].
  - apply IHl; [done|]. split; cbn; [by rewrite app_nil_r|]. constructor; [cbn; lia|].
    change (Forall (fun z => lo <= z) (lowers (elems r ++ after k))). rewrite lowers_app. apply Forall_app. split; [|done].
    eapply Forall_impl; [exact Hdr|]. cbn. unfold k_lower, iv_key in *. cbn in *. intros z Hz. lia.
  - apply IHr; [done|]. split; cbn; [|done]. rewrite !lowers_app. apply Forall_app. split; [done|]. apply Forall_app.
    split; [|by constructor]. apply Forall_forall. intros z Hz. specialize (Hlr z (iv_lower d) Hz ltac:(set_solver)). lia.
Qed.

(** Insertion at such a place keeps the order. *)
Lemma sorted_around lo k (e : ptr * (Z * Z * string)) : StronglySorted Z.le (lowers (before k ++ after k)) ->
  around lo k -> k_lower (snd e) = lo -> StronglySorted Z.le (lowers (before k ++ e :: after k)).
Proof.
  rewrite !lowers_app. intros Hs [Hb Ha] He. apply sorted_app in Hs as (H1 & H2 & H3). apply sorted_app. cbn. rewrite He.
  rewrite Forall_forall in Hb. split_and!; [done|by constructor|].
  intros z y Hz. rewrite elem_of_cons. intros [->|Hy]; auto.
Qed.

Lemma ins_path_rb lo u k t c n : rb t c n -> rb_path k c n -> rb_path (ins_path lo u k t) false 0.
Proof.
  intros Ht. revert k. induction Ht as [|l x d r n Hl IHl Hr IHr|l x d r cl cr n Hl IHl Hr IHr]; intros k Hk; cbn; [done|..];
    destruct (lo <? iv_lower d); first [apply IHl|apply IHr];
    first [by apply rbp_red|by eapply rbp_black].
Qed.

Lemma ins_path_top lo u k t : is_red t = false \/ k <> [] -> top_black k -> top_black (ins_path lo u k t).
Proof.
  revert k. induction t as [|l IHl x c d r IHr]; intros k Hk Ht; cbn; [done|].
  destruct (lo <? iv_lower d); (first [apply IHl|apply IHr]; [by right|]); (destruct k; [|done]); by destruct Hk.
Qed.

Lemma ins_path_cons lo u k t : t <> Leaf \/ k <> [] -> ins_path lo u k t <> [].
Proof.
  revert k. induction t as [|l IHl x c d r IHr]; intros k Hk; cbn; [by destruct Hk|].
  destruct (lo <? iv_lower d); first [apply IHl|apply IHr]; by right.
Qed.

Lemma lm_ok_perm d ks ks' : ks ≡ₚ ks' -> lm_ok d ks -> lm_ok d ks'.
Proof.
  intros Hp [H1 H2]. split; [intros k; rewrite <- Hp; auto|]. destruct H2 as [?|(k & Hk & E)]; [by left|right].
  exists k. by rewrite <- Hp.
Qed.

Lemma lm_ok_more d ks k : lm_ok d ks -> lm_ok (with_link_max (IVAL_MAX (k_upper k) (iv_link_max d)) d) (k :: ks).
Proof.
  intros [H1 H2]. unfold lm_ok. cbn [iv_link_max with_link_max]. rewrite IVAL_MAX_max. split.
  - intros k'. rewrite elem_of_cons. intros [->|Hk]; [lia|]. specialize (H1 _ Hk). lia.
  - destruct (Z.max_spec (k_upper k) (iv_link_max d)) as [[_ ->]|[_ ->]].
    + destruct H2 as [?|(k' & Hk & E)]; [by left|right]. exists k'. split; [set_solver|done].
    + right. exists k. split; [set_solver|done].
Qed.

(** On the way down every node counts the new interval. *)
Definition counts (key : Z * Z * string) (k : ipath) (t : itree) : Prop :=
  forall t', aug t' -> keys t' ≡ₚ key :: keys t -> aug (plug k t').

Lemma ins_path_aug key k t : aug t -> counts key k t -> counts key (ins_path (k_lower key) (k_upper key) k t) Leaf.
Proof.
  revert k. induction t as [|l IHl x c d r IHr]; intros k Ht Hk; cbn; [done|]. destruct Ht as (Hs & Hl & Hr).
  set (d' := with_link_max _ _).
  assert (Hd' : lm_ok d' (key :: keys (Node l x c d r))) by by apply lm_ok_more.
  unfold RbInsert.keys in Hk, Hd'. cbn in Hk, Hd'. rewrite map_app in Hd'. cbn in Hd'.
  destruct (k_lower key <? iv_lower d).
  - apply IHl; [done|]. intros t' Ht' Hp. apply (Hk (Node t' x c d' r)).
    + cbn. split_and!; [|done..]. eapply lm_ok_perm; [|exact Hd']. unfold RbInsert.keys in *. cbn. rewrite map_app. cbn. by rewrite Hp.
    + unfold RbInsert.keys in *. cbn. rewrite !map_app. cbn. by rewrite Hp.
  - apply IHr; [done|]. intros t' Ht' Hp. apply (Hk (Node l x c d' t')).
    + cbn. split_and!; [|done..]. eapply lm_ok_perm; [|exact Hd']. unfold RbInsert.keys in *. cbn. rewrite map_app. cbn. rewrite Hp.
      by rewrite <- !Permutation_middle, Permutation_swap.
    + unfold RbInsert.keys in *. cbn. rewrite !map_app. cbn. rewrite Hp. by rewrite <- !Permutation_middle, Permutation_swap.
Qed.

(** ** The whole insertion *)

(** Sorted, with the bounds of its subtrees, and balanced. *)
Record itree_ok (t : itree) : Prop := {
  io_sorted : StronglySorted Z.le (lowers (elems t));
  io_aug : aug t;
  io_rb : exists n, rb t false n
}.

(** A state that holds the tree [t]. *)
Record holds (nil : ptr) (t : itree) (s : ivt) : Prop := {
  h_reps : reps nil s [] t;
  h_cb : t <> Leaf -> rbt_cb s = true;
  h_ok : itree_ok t
}.

Lemma reps_out nil s k (t : itree) z n : reps nil s k t -> z <> nil -> z ∉ ids t -> z ∉ ids_path k -> reps nil (set_node z n s) k t.
Proof.
  intros [H1 H2 H3 H4 (n0 & H5 & H6)] Hz Ht Hk. constructor; [done| | |done|].
  - eapply rep_frame; [|exact H2]. intros y Hy. cbn. rewrite lookup_insert_ne; [done|]. by intros ->.
  - eapply rep_path_frame; [|exact H3]. intros y Hy. cbn. rewrite lookup_insert_ne; [done|]. by intros ->.
  - exists n0. split; [|done]. cbn. by rewrite lookup_insert_ne.
Qed.

Lemma elems_set_false t : elems (set_color false t) = elems t.
Proof. by destruct t. Qed.

(** The tree after insertion. *)
Definition inserted (new : ptr) (d : ival) (t : itree) : itree :=
  set_color false (fix_up iv_combine (ins_path (iv_lower d) (iv_upper d) [] t) (Node Leaf new true d Leaf)).

Lemma inserted_elems new d t : elems (inserted new d t) ≡ₚ (new, iv_key d) :: elems t.
Proof.
  unfold inserted. rewrite elems_set_false, (elems_fix_up iv_combine iv_key) by done. rewrite elems_path. cbn.
  rewrite <- Permutation_middle, ins_path_elems. cbn. by rewrite app_nil_r.
Qed.

Lemma inserted_ok new d t : itree_ok t -> iv_link_max d = iv_upper d -> itree_ok (inserted new d t).
Proof.
  intros [Hs Ha (n & Hrb)] Hmax. set (k := ins_path (iv_lower d) (iv_upper d) [] t).
  set (leaf := Node Leaf new true d Leaf). assert (Hl : aug leaf).
  { cbn. split_and!; [|done..]. unfold lm_ok. split; [|right; exists (iv_key d); split; [set_solver|done]].
    intros k0 Hk0. apply list_elem_of_singleton in Hk0 as ->. cbn. lia. }
  assert (Hk : counts (iv_key d) k Leaf) by (apply (ins_path_aug (iv_key d)); [done|by intros t' ? _]).
  constructor; unfold inserted; fold k leaf.
  - rewrite elems_set_false, (elems_fix_up iv_combine iv_key) by done. rewrite elems_path. cbn.
    apply (sorted_around (iv_lower d)); [|by apply around_ins|done]. unfold k. rewrite ins_path_elems. cbn. by rewrite app_nil_r.
  - apply aug_set_color, (aug_fix_up iv_combine iv_key); [done|apply sum_combine|done|]. by apply Hk.
  - destruct (rb_fix_up iv_combine k leaf 0) as (c & m & Hf).
    + apply ins_path_top; [|done]. left. by inversion Hrb.
    + eapply ins_path_rb; [done|constructor].
    + by apply rb_red; constructor.
    + by eapply rb_set_black.
Qed.

Lemma grow_refines nil s t (new : ptr) n d : reps nil s [] t -> t <> Leaf -> is_red t = false -> rbt_cb s = true ->
  new ∉ ids t -> new <> nil -> rbt_nodes s !! new = Some n -> n_data n = Some d ->
  exists s', (s ← st_get; '(par, cur) ← insert_loop (S (size (rbt_nodes s))) d At_root nil;
              rb_tree_insert par new cur;; rb_tree_insert_rebalance update_link_max new) s = (Ok tt, s') /\
    reps nil s' [] (inserted new d t) /\ only (new :: ids t) s s'.
Proof.
  intros Hr Ht Hred Hc Hnew Hnn Hn Hd. rewrite (st_bind_ok st_get _ s s s) by done.
  pose proof (reps_size _ _ _ _ Hr) as Hsz. cbn in Hsz. rewrite app_nil_r in Hsz.
  destruct (insert_loop_refines nil (S (size (rbt_nodes s))) d s [] t Hr ltac:(lia)) as (s1 & Hrun1 & Hr1 & Ho1).
  cbn in Ho1. rewrite app_nil_r in Ho1. erewrite st_bind_ok by exact Hrun1. set (k := ins_path _ _ [] t) in *.
  assert (Hkids : forall z, z ∈ ids_path k -> z ∈ ids t).
  { intros z Hz. apply ids_ins_path in Hz. cbn in Hz. by rewrite app_nil_r in Hz. }
  pose proof (ins_path_cons (iv_lower d) (iv_upper d) [] t ltac:(by left)) as Hkn. fold k in Hkn.
  pose proof (ins_path_top (iv_lower d) (iv_upper d) [] t ltac:(by left) I) as Htop. fold k in Htop. cbv zeta.
  unfold inserted. fold k. clearbody k. destruct k as [|f k]; [done|].
  destruct (attach_reps nil s1 f k new n d Hr1) as (s2 & Hrun2 & Hr2 & Ho2); [by intros ?%Hkids|done| |done|].
  { by rewrite (o_nodes _ _ _ Ho1). }
  cbn [path_ptr place_of]. erewrite st_bind_ok by exact Hrun2.
  destruct (rebalance_refines _ _ update_combines nil s2 _ _ ltac:(by rewrite (o_cb _ _ _ Ho2), (o_cb _ _ _ Ho1)) Hr2 ltac:(done) Htop)
    as (s3 & Hrun3 & Hr3 & Ho3).
  exists s3. split_and!; [exact Hrun3|exact Hr3|].
  eapply only_trans; [eapply only_sub; [|exact Ho1]|eapply only_trans; [eapply only_sub; [|exact Ho2]|eapply only_sub; [|exact Ho3]]];
    intros z; cbn; clear -Hkids; set_solver.
Qed.

Lemma t_insert_spec nil s t new n d : holds nil t s -> new ∉ ids t -> new <> nil ->
  rbt_nodes s !! new = Some n -> n_data n = Some d ->
  exists s' t', t_insert new s = (Ok tt, s') /\ holds nil t' s' /\ elems t' ≡ₚ (new, iv_key d) :: elems t /\
    forall z, z ∉ new :: ids t -> rbt_nodes s' !! z = rbt_nodes s !! z.
Proof.
  intros [Hr Hc Hok] Hnew Hnn Hn Hd. set (d1 := with_link_max (iv_upper d) d). set (s1 := set_node new (with_data d1 n) s).
  assert (Hr1 : reps nil s1 [] t) by (apply reps_out; [done..|set_solver]).
  assert (Hn1 : rbt_nodes s1 !! new = Some (with_data d1 n)) by (cbn; by rewrite lookup_insert_eq).
  assert (Hout : forall z, z ∉ new :: ids t -> rbt_nodes s1 !! z = rbt_nodes s !! z).
  { intros z Hz. cbn. rewrite lookup_insert_ne by set_solver. done. }
  assert (Hrun : t_insert new s = (if rbt_root s1 =? nil then rb_tree_insert_root update_link_max new
    else s ← st_get; '(par, cur) ← insert_loop (S (size (rbt_nodes s))) d1 At_root nil;
         rb_tree_insert par new cur;; rb_tree_insert_rebalance update_link_max new) s1).
  { unfold t_insert. erewrite st_bind_ok by by eapply unpack_ok. rb_step. fold d1 s1.
    erewrite st_bind_ok by by eapply unpack_ok. do 2 rb_step. by rewrite (r_nil _ _ _ _ Hr1). }
  assert (Hroot : rbt_root s1 = tptr nil t) by apply (r_path _ _ _ _ Hr1). rewrite Hrun, Hroot. destruct t as [|l x c dx r].
  - cbn [tptr]. rewrite Z.eqb_refl.
    destruct (insert_root_reps update_link_max iv_combine nil s1 new (with_data d1 n) d1 update_combines Hr1 Hnn Hn1 eq_refl)
      as (s2 & Hrun2 & Hr2 & Hc2 & Ho2).
    exists s2, (Node Leaf new false (iv_combine d1 None None) Leaf). split_and!; [done| |done|].
    + constructor; [done|done|]. constructor; [cbn; by repeat constructor| |eexists; eapply rb_black; constructor].
      cbn. split_and!; [|done..]. by apply (sum_combine d1 Leaf Leaf).
    + intros z Hz. rewrite Ho2 by set_solver. by apply Hout.
  - assert (Hx : x <> nil) by (pose proof (reps_perm _ _ _ _ Hr) as (Hi & _); cbn in Hi; clear -Hi; set_solver).
    cbn [tptr]. rewrite (proj2 (Z.eqb_neq _ _)) by done.
    destruct (grow_refines nil s1 (Node l x c dx r) new (with_data d1 n) d1 Hr1) as (s2 & Hrun2 & Hr2 & Ho2); try done.
    { destruct Hok as [_ _ (m & Hrb)]. by inversion Hrb. }
    { by apply Hc. }
    exists s2, (inserted new d1 (Node l x c dx r)). split_and!; [done| |by apply (inserted_elems new d1)|].
    + constructor; [done|intros _; rewrite (o_cb _ _ _ Ho2); by apply Hc|by apply inserted_ok].
    + intros z Hz. rewrite (o_nodes _ _ _ Ho2) by done. by apply Hout.
Qed.

Lemma init_holds nil m : holds nil Leaf (rb_tree_init nil m).
Proof.
  constructor; [|done|].
  - constructor; [done|done|done|apply NoDup_singleton|]. eexists. split; [cbn; by rewrite lookup_insert_eq|done].
  - constructor; [constructor|done|eexists; constructor].
Qed.

Lemma count_elems t : count t = length (elems t).
Proof. induction t as [|l IHl x c d r IHr]; [done|]. cbn. rewrite length_app. cbn. lia. Qed.

(** C23: Inserting a node that is not in the tree succeeds, adds its interval to the
    intervals of the tree and leaves all other nodes in memory alone.  The nodes in
    memory still form a tree with right parent pointers, sorted by lower bound,
    whose nodes bound the upper bounds of their subtrees; no red node has a red child
    and all paths have the same number of black nodes, so that [2^(height/2)] is at
    most one more than the number of intervals: the height is logarithmic. *)
Theorem interval_insert_keeps_tree nil s t new n d : holds nil t s -> new ∉ ids t -> new <> nil ->
  rbt_nodes s !! new = Some n -> n_data n = Some d ->
  exists s' t', t_insert new s = (Ok tt, s') /\ holds nil t' s' /\ elems t' ≡ₚ (new, iv_key d) :: elems t /\
    (forall z, z ∉ new :: ids t -> rbt_nodes s' !! z = rbt_nodes s !! z) /\
    (2 ^ (height t' / 2) <= S (S (length (elems t))))%nat.
Proof.
  intros Hh Hnew Hnn Hn Hd. destruct (t_insert_spec nil s t new n d Hh Hnew Hnn Hn Hd) as (s' & t' & Hrun & Hh' & He & Ho).
  exists s', t'. split_and!; [done..|]. destruct (io_rb _ (h_ok _ _ _ Hh')) as (m & Hm).
  change (S (length (elems t))) with (length ((new, iv_key d) :: elems t)). rewrite <- He, <- count_elems. by eapply rb_balanced.
Qed.

(** Two nodes, one after the other, with the sentinel at -1. *)
Example interval_insert_keeps_tree_witness :
  let d1 := mk_ival 3 5 "three to five" 0 in
  let d2 := mk_ival (-2) 9 "minus two to nine" 0 in
  let s := rb_tree_init (-1) {[1 := mk_node 0 0 0 false (Some d1); 2 := mk_node 0 0 0 false (Some d2)]} in
  exists s1 s2 t2, t_insert 1 s = (Ok tt, s1) /\ t_insert 2 s1 = (Ok tt, s2) /\ holds (-1) t2 s2 /\
    elems t2 ≡ₚ [(2, (-2, 9, "minus two to nine"%string)); (1, (3, 5, "three to five"%string))].
Proof.
  intros d1 d2 s.
  destruct (interval_insert_keeps_tree (-1) s Leaf 1 (mk_node 0 0 0 false (Some d1)) d1 (init_holds _ _) (not_elem_of_nil _)
    ltac:(discriminate) eq_refl eq_refl) as (s1 & t1 & Hrun1 & Hh1 & He1 & Hsame & _).
  assert (Hids : ids t1 ≡ₚ [1]) by (rewrite <- (elems_ids iv_key), He1; done).
  destruct (interval_insert_keeps_tree (-1) s1 t1 2 (mk_node 0 0 0 false (Some d2)) d2) as (s2 & t2 & Hrun2 & Hh2 & He2 & _).
  - exact Hh1.
  - rewrite Hids. set_solver.
  - discriminate.
  - rewrite Hsame; [reflexivity|]. set_solver.
  - reflexivity.
  - exists s1, s2, t2. split; [exact Hrun1|]. split; [exact Hrun2|]. split; [exact Hh2|]. by rewrite He2, He1.
Defined.
