(* ===== verification/IvalSearch.v ===== *)
(** Search in interval trees: the first match and the next match, and the matches
    that repeated calls enumerate. *)
From S2P Require Import Prelude.
From stdpp Require Import list strings sorting.
From S2P Require Import RbTree RbRotate RbInsert Ival IvalTree.
Open Scope Z_scope.

Notation entry := (ptr * (Z * Z * string))%type.

(** Every node before its subtrees, the order of the search. *)
Fixpoint pre (t : itree) : list entry :=
  match t with Leaf => [] | Node l x _ d r => (x, iv_key d) :: pre l ++ pre r end.

Lemma pre_elems t : pre t ≡ₚ elems t.
Proof. induction t as [|l IHl x c d r IHr]; [done|]. cbn. rewrite IHl, IHr. by rewrite Permutation_middle. Qed.

Section Search.
Variables (ld : Z -> Z) (lo hi : Z).

Definition hit (k : Z * Z * string) : bool := (k_lower k <=? hi) && (lo <=? k_upper k).

(** Matches other than the last one. *)
Definition next_hit (last : option ptr) (e : entry) : bool := bool_decide (last <> Some (fst e)) && hit (snd e).

Definition hits (last : option ptr) (t : itree) : list entry := List.filter (next_hit last) (pre t).

(** The matches that come after a subtree. *)
Fixpoint later (last : option ptr) (k : ipath) : list entry :=
  match k with
  | [] => []
  | f :: k' => match f_dir f with RB_LEFT => hits last (f_sib f) | RB_RIGHT => [] end ++ later last k'
  end.

Lemma hits_node last l x c d r : hits last (Node l x c d r) =
  (if next_hit last (x, iv_key d) then [(x, iv_key d)] else []) ++ hits last l ++ hits last r.
Proof. unfold hits. cbn. rewrite List.filter_app. by destruct (next_hit last (x, iv_key d)). Qed.

Lemma keys_pre t k : k ∈ keys t <-> exists x, (x, k) ∈ pre t.
Proof.
  unfold RbInsert.keys. rewrite list_elem_of_fmap. setoid_rewrite pre_elems. split.
  - intros ([x k'] & -> & H). by exists x.
  - intros (x & H). by exists (x, k).
Qed.

Lemma hits_none last t : (forall k, k ∈ keys t -> hit k = false) -> hits last t = [].
Proof.
  intros H. unfold hits. apply list_filter_none, Forall_forall. intros [x k] He. unfold next_hit. cbn.
  rewrite H by (apply keys_pre; by exists x). by rewrite andb_false_r.
Qed.

Lemma hits_nil t : hits None t = [] -> forall k, k ∈ keys t -> hit k = false.
Proof.
  intros H k Hk. apply keys_pre in Hk as (x & Hx). destruct (hit k) eqn:E; [|done].
  assert (Hin : (x, k) ∈ hits None t) by (apply list_elem_of_In, filter_In; split; [by apply list_elem_of_In|by unfold next_hit]).
  rewrite H in Hin. set_solver.
Qed.

(** ** What the bounds of a subtree tell *)

(** The values are of the type that the search reads. *)
Definition loads (t : itree) : Prop := ld 0 = 0 /\ forall k, k ∈ keys t -> ld (k_lower k) = k_lower k /\ ld (k_upper k) = k_upper k.

Definition bound_ge (t : itree) : bool := match t with Leaf => false | Node _ _ _ d _ => iv_link_max d >=? lo end.

Lemma load_max l x c d r : loads (Node l x c d r) -> aug (Node l x c d r) -> ld (iv_link_max d) = iv_link_max d.
Proof. intros [H0 Hl] ((_ & [->|(k & Hk & <-)]) & _); [done|]. by apply Hl. Qed.

Lemma bound_skip last t : aug t -> bound_ge t = false -> hits last t = [].
Proof.
  destruct t as [|l x c d r]; [done|]. intros ((Hm & _) & _) Hb. apply hits_none. intros k Hk. specialize (Hm k Hk).
  cbn in Hb. unfold hit. rewrite Z.geb_leb in Hb. apply Z.leb_gt in Hb.
  rewrite (proj2 (Z.leb_gt lo (k_upper k))) by lia. by rewrite andb_false_r.
Qed.

(** The bounds can be trusted when the search is for positive numbers or no interval
    is below zero. *)
Definition trusted (t : itree) : Prop := 0 < lo \/ forall k, k ∈ keys t -> 0 <= k_upper k.

Lemma bound_reach t : aug t -> trusted t -> bound_ge t = true -> exists k, k ∈ keys t /\ lo <= k_upper k.
Proof.
  destruct t as [|l x c d r]; [done|]. intros ((Hm & H0) & _) Ht Hb. cbn in Hb. rewrite Z.geb_leb in Hb. apply Z.leb_le in Hb.
  destruct H0 as [H0|(k & Hk & E)]; [|exists k; split; [done|lia]].
  assert (Hd : iv_key d ∈ keys (Node l x c d r)) by (unfold RbInsert.keys; cbn; rewrite map_app; cbn; set_solver).
  specialize (Hm _ Hd). exists (iv_key d). split; [done|]. destruct Ht as [Ht|Ht]; [lia|]. specialize (Ht _ Hd). lia.
Qed.

(** When there is such an interval on the left but no match, there is none on the
    right. *)
Lemma none_right last l x c d r : StronglySorted Z.le (lowers (elems (Node l x c d r))) -> aug l -> trusted l ->
  bound_ge l = true -> (forall k, k ∈ keys l -> hit k = false) -> hits last r = [].
Proof.
  intros Hs Ha Ht Hb Hn. destruct (bound_reach l Ha Ht Hb) as (k & Hk & Hlo). specialize (Hn k Hk). unfold hit in Hn.
  rewrite (proj2 (Z.leb_le _ _) Hlo), andb_true_r in Hn. apply Z.leb_gt in Hn.
  cbn in Hs. rewrite lowers_app in Hs. apply sorted_app in Hs as (_ & Hr & Hlr). cbn in Hr.
  apply hits_none. intros k' Hk'. unfold hit. rewrite (proj2 (Z.leb_gt (k_lower k') hi)); [done|].
  assert (Hin : forall t k, k ∈ keys t -> k_lower k ∈ lowers (elems t)).
  { intros t k0 H0. unfold RbInsert.keys in H0. apply list_elem_of_fmap in H0 as (e & -> & He). unfold lowers.
    apply list_elem_of_fmap. by exists e. }
  specialize (Hlr (k_lower k) (k_lower k') (Hin _ _ Hk) ltac:(apply list_elem_of_further, Hin, Hk')). lia.
Qed.
(** ** The loop *)

Section Loop.
Variables (nil : ptr) (s : ivt).
Implicit Types (t : itree) (k : ipath).

Lemma link_max_ge_run k t : reps nil s k t -> loads t -> aug t -> t <> Leaf ->
  link_max_ge ld lo (tptr nil t) s = (Ok (bound_ge t), s).
Proof.
  intros Hr Hl Ha Ht. destruct t as [|l x c d r]; [done|]. destruct (r_tree _ _ _ _ Hr) as (Hx & _).
  unfold link_max_ge. erewrite st_bind_ok by by eapply unpack_ok. by rewrite (load_max _ _ _ _ _ Hl Ha).
Qed.

Lemma keys_sub dir l x c d r key : key ∈ keys (sub dir (Node l x c d r)) -> key ∈ keys (Node l x c d r).
Proof. unfold RbInsert.keys. cbn. rewrite map_app. destruct dir; cbn; set_solver. Qed.

Lemma loads_sub dir l x c d r : loads (Node l x c d r) -> loads (sub dir (Node l x c d r)).
Proof. intros [H0 Hl]. split; [done|]. intros key Hk. by eapply Hl, keys_sub. Qed.

Lemma reps_sub k dir l x c d r : reps nil s k (Node l x c d r) ->
  reps nil s (mk_frame dir x c d (sub (FLIP dir) (Node l x c d r)) :: k) (sub dir (Node l x c d r)).
Proof. intros Hr. apply reps_plug1. unfold plug1. cbn [f_dir f_x f_red f_d f_sib]. by rewrite <- node_sub. Qed.

(** One round at a node. *)
Lemma visit_round fuel last k l x c d r : reps nil s k (Node l x c d r) -> loads (Node l x c d r) -> aug (Node l x c d r) ->
  intersect_loop ld lo hi (S fuel) last x s =
  if next_hit last (x, iv_key d) then (Ok (Some x), s)
  else
    let cur := tptr nil (if bound_ge l then l else r) in
    (if (cur =? nil) && bool_decide (last <> None) then
       s ← st_get;
       cur ← climb ld lo hi (S (size (rbt_nodes s))) cur x;
       if cur =? rbt_root s then mret None else intersect_loop ld lo hi fuel last cur
     else intersect_loop ld lo hi fuel last cur) s.
Proof.
  intros Hr Hl Ha. cbn [intersect_loop]. rb_step. rewrite (r_nil _ _ _ _ Hr).
  assert (Hx : x <> nil) by (pose proof (reps_perm _ _ _ _ Hr) as (Hi & _); cbn in Hi; clear -Hi; set_solver).
  rewrite (proj2 (Z.eqb_neq _ _) Hx). cbn [negb]. destruct (r_tree _ _ _ _ Hr) as (Hlx & _).
  erewrite st_bind_ok by by eapply unpack_ok.
  assert (Hkd : iv_key d ∈ keys (Node l x c d r)) by (unfold RbInsert.keys; cbn; rewrite map_app; cbn; set_solver).
  destruct (proj2 Hl _ Hkd) as [E1 E2]. cbn in E1, E2. rewrite E1, E2.
  unfold next_hit, hit. cbn [fst snd]. change (k_lower (iv_key d)) with (iv_lower d). change (k_upper (iv_key d)) with (iv_upper d).
  rewrite andb_assoc. destruct (_ && (lo <=? iv_upper d)); [done|]. cbv zeta. rb_step. cbn [n_child].
  assert (Hleft : (if negb (tptr nil l =? nil) then link_max_ge ld lo (tptr nil l) else mret false) s = (Ok (bound_ge l), s)).
  { destruct l as [|ll lx lc ldd lr]; cbn [tptr]; [by rewrite Z.eqb_refl|].
    assert (Hn : lx <> nil) by (pose proof (reps_perm _ _ _ _ Hr) as (Hi & _); cbn in Hi; clear -Hi; set_solver).
    rewrite (proj2 (Z.eqb_neq _ _) Hn). cbn [negb]. destruct Ha as (_ & Hal & _).
    exact (link_max_ge_run _ _ (reps_sub _ RB_LEFT _ _ _ _ _ Hr) (loads_sub RB_LEFT _ _ _ _ _ Hl) Hal ltac:(done)). }
  erewrite st_bind_ok by exact Hleft. rb_step. by destruct (bound_ge l).
Qed.

Lemma first_run fuel k t : reps nil s k t -> loads t -> aug t -> trusted t -> StronglySorted Z.le (lowers (elems t)) ->
  (length (ids t) < fuel)%nat ->
  intersect_loop ld lo hi fuel None (tptr nil t) s = (Ok (fst <$> head (hits None t)), s).
Proof.
  revert fuel k. induction t as [|l IHl x c d r IHr]; intros fuel k Hr Hl Ha Ht Hs Hf; (destruct fuel as [|fuel]; [cbn in Hf; lia|]).
  - cbn [intersect_loop tptr]. rb_step. rewrite (r_nil _ _ _ _ Hr), Z.eqb_refl. done.
  - cbn [tptr]. rewrite (visit_round _ _ k l x c d r Hr Hl Ha), hits_node. destruct (next_hit None (x, iv_key d)); [done|].
    cbv zeta. rewrite andb_false_r. cbn [app]. cbn in Hf. rewrite length_app in Hf. cbn in Hf. pose proof Ha as (_ & Hal & Har).
    pose proof Hs as Hs'. cbn in Hs'. rewrite lowers_app in Hs'. apply sorted_app in Hs' as (Hsl & Hsr & _).
    apply StronglySorted_inv in Hsr as [Hsr _].
    assert (Htr : forall dir, trusted (sub dir (Node l x c d r))).
    { intros dir. destruct Ht as [?|Ht]; [by left|right]. intros k0 Hk0. by eapply Ht, keys_sub. }
    destruct (bound_ge l) eqn:Eb.
    + rewrite (IHl fuel _ (reps_sub _ RB_LEFT _ _ _ _ _ Hr) (loads_sub RB_LEFT _ _ _ _ _ Hl) Hal (Htr RB_LEFT) Hsl ltac:(lia)).
      destruct (hits None l) as [|e es] eqn:El; [|done]. cbn [app].
      by rewrite (none_right None l x c d r Hs Hal (Htr RB_LEFT) Eb (hits_nil l El)).
    + rewrite (IHr fuel _ (reps_sub _ RB_RIGHT _ _ _ _ _ Hr) (loads_sub RB_RIGHT _ _ _ _ _ Hl) Har (Htr RB_RIGHT) Hsr ltac:(lia)).
      by rewrite (bound_skip None l Hal Eb).
Qed.
(** ** The next match *)

Definition searchable t : Prop := aug t /\ loads t /\ StronglySorted Z.le (lowers (elems t)).

Lemma lowers_keys t : lowers (elems t) = map k_lower (keys t).
Proof. unfold lowers, RbInsert.keys. by rewrite map_map. Qed.

Lemma searchable_sub l x c d r : searchable (Node l x c d r) ->
  searchable l /\ searchable r /\ forall key, key ∈ keys r -> iv_lower d <= k_lower key.
Proof.
  intros ((_ & Hal & Har) & Hl & Hs). cbn in Hs. rewrite lowers_app in Hs. apply sorted_app in Hs as (Hsl & Hsr & _).
  apply StronglySorted_inv in Hsr as [Hsr Hd]. split_and!; [split_and!; [done|exact (loads_sub RB_LEFT _ _ _ _ _ Hl)|done]|
    split_and!; [done|exact (loads_sub RB_RIGHT _ _ _ _ _ Hl)|done]|].
  intros key Hk. change (Forall (Z.le (iv_lower d)) (lowers (elems r))) in Hd. rewrite lowers_keys, Forall_forall in Hd.
  apply Hd, list_elem_of_fmap. by exists key.
Qed.

(** What a search relies on in the subtrees on the right of a path. *)
Fixpoint path_ok (k : ipath) : Prop :=
  match k with
  | [] => True
  | f :: k' =>
      (f_dir f = RB_LEFT -> (forall key, key ∈ keys (f_sib f) -> iv_lower (f_d f) <= k_lower key) /\
         searchable (f_sib f) /\ ld (iv_lower (f_d f)) = iv_lower (f_d f)) /\ path_ok k'
  end.

(** The number of nodes of these subtrees. *)
Fixpoint todo (k : ipath) : nat :=
  match k with
  | [] => 0
  | f :: k' => match f_dir f with RB_LEFT => length (ids (f_sib f)) | RB_RIGHT => 0 end + todo k'
  end.

Lemma flip_reps f k t : reps nil s (f :: k) t ->
  reps nil s (mk_frame (FLIP (f_dir f)) (f_x f) (f_red f) (f_d f) t :: k) (f_sib f).
Proof. intros Hr. apply reps_plug1. apply (proj1 (reps_plug1 _ _ _ _ _)) in Hr. unfold plug1 in *. cbn. by rewrite node_flip. Qed.

Lemma root_in_path m root k h : rep_path nil m root k h -> k <> [] -> root ∈ ids_path k.
Proof.
  revert h. induction k as [|f k IH]; intros h Hk Hn; [done|]. destruct Hk as (_ & _ & Hk). unfold ids_path. cbn.
  destruct k as [|g k]; [cbn in Hk; rewrite Hk; set_solver|]. specialize (IH _ Hk ltac:(done)). unfold ids_path in IH. set_solver.
Qed.

Lemma not_root k t : reps nil s k t -> t <> Leaf -> k <> [] -> tptr nil t <> rbt_root s.
Proof.
  intros Hr Ht Hk E. pose proof (reps_perm _ _ _ _ Hr) as (_ & _ & _ & _ & Hdis).
  apply (Hdis (tptr nil t)); [by apply tptr_ids|]. rewrite E. eapply root_in_path; [apply Hr|done].
Qed.

(** What the test of [climb] decides at a node. *)
Definition goes_right (f : frame ival) : bool :=
  match f_dir f with RB_LEFT => bound_ge (f_sib f) && (iv_lower (f_d f) <=? hi) | RB_RIGHT => false end.

Lemma climb_round fuel f k t : reps nil s (f :: k) t -> path_ok (f :: k) -> t <> Leaf ->
  climb ld lo hi (S fuel) (tptr nil t) (f_x f) s =
  (if goes_right f then mret (tptr nil (f_sib f)) else climb ld lo hi fuel (f_x f) (path_ptr nil k)) s.
Proof.
  intros Hr [Hok _] Ht. cbn [climb]. rb_step. rewrite (r_nil _ _ _ _ Hr).
  destruct (child_path _ _ _ _ Hr _ _ RB_LEFT eq_refl) as (Hl & HP & Hne).
  destruct (child_path _ _ _ _ Hr _ _ RB_RIGHT eq_refl) as (Hrt & _ & _).
  assert (Hx : f_x f <> nil).
  { pose proof (reps_perm _ _ _ _ Hr) as (_ & Hi & _). unfold ids_path in Hi. cbn in Hi. clear -Hi. set_solver. }
  rewrite (proj2 (Z.eqb_neq _ _) Hx). cbn [negb]. erewrite st_bind_ok by exact Hl. erewrite st_bind_ok by exact Hrt.
  unfold goes_right. destruct (f_dir f) eqn:Ed; rewrite ?decide_True, ?decide_False by done.
  - rewrite Z.eqb_refl. destruct (Hok eq_refl) as (_ & (Ha & Hld & _) & Hlow).
    destruct (f_sib f) as [|ul u uc ud ur] eqn:Eu.
    + cbn [tptr]. rewrite Z.eqb_refl. cbn [negb andb bound_ge]. erewrite st_bind_ok by done. cbv iota. by erewrite st_bind_ok by exact HP.
    + pose proof (flip_reps _ _ _ Hr) as Hu. rewrite Eu in Hu.
      assert (Hun : u <> nil) by (pose proof (reps_perm _ _ _ _ Hu) as (Hi & _); cbn in Hi; clear -Hi; set_solver).
      cbn [tptr]. rewrite (proj2 (Z.eqb_neq _ _) Hun). cbn [negb andb].
      assert (Hgo : (ge ← link_max_ge ld lo u; if (ge : bool) then iv ← unpack (f_x f); mret (ld (iv_lower iv) <=? hi) else mret false) s =
        (Ok (bound_ge (Node ul u uc ud ur) && (iv_lower (f_d f) <=? hi)), s)).
      { erewrite st_bind_ok by exact (link_max_ge_run _ _ Hu Hld Ha ltac:(done)). destruct (bound_ge _); [|done].
        pose proof (r_path _ _ _ _ Hr) as (Hf & _). erewrite st_bind_ok by (eapply unpack_ok; [exact Hf|by rewrite data_mkn]).
        by rewrite Hlow. }
      erewrite st_bind_ok by exact Hgo. destruct (_ && _); [done|]. cbv iota. by erewrite st_bind_ok by exact HP.
  - rewrite (proj2 (Z.eqb_neq _ _)) by by apply Hne. cbn [andb]. erewrite st_bind_ok by done. cbv iota. by erewrite st_bind_ok by exact HP.
Qed.

(** Subtrees that the test skips have no match. *)
Lemma skipped last f k : path_ok (f :: k) -> goes_right f = false -> later last (f :: k) = later last k.
Proof.
  intros [Hok _] Hg. cbn. unfold goes_right in Hg. destruct (f_dir f); [|done]. destruct (Hok eq_refl) as (Hlow & (Ha & _) & _).
  apply andb_false_iff in Hg as [Hg|Hg]; [by rewrite (bound_skip last _ Ha Hg)|].
  rewrite hits_none; [done|]. intros key Hk. specialize (Hlow _ Hk). apply Z.leb_gt in Hg. unfold hit.
  by rewrite (proj2 (Z.leb_gt _ _)) by lia.
Qed.

Lemma climb_run fuel last k t : reps nil s k t -> path_ok k -> t <> Leaf -> (length k < fuel)%nat ->
  (later last k = [] /\ climb ld lo hi fuel (tptr nil t) (path_ptr nil k) s = (Ok (rbt_root s), s)) \/
  exists k' u, climb ld lo hi fuel (tptr nil t) (path_ptr nil k) s = (Ok (tptr nil u), s) /\
    u <> Leaf /\ k' <> [] /\ reps nil s k' u /\ path_ok k' /\ searchable u /\
    later last k = hits last u ++ later last k' /\ (length (ids u) + todo k' <= todo k)%nat.
Proof.
  revert fuel t. induction k as [|f k IH]; intros fuel t Hr Hok Ht Hf; (destruct fuel as [|fuel]; [cbn in Hf; lia|]).
  - left. split; [done|]. cbn [climb path_ptr]. rb_step. rewrite (r_nil _ _ _ _ Hr), Z.eqb_refl. cbn [negb].
    pose proof (r_path _ _ _ _ Hr) as E. cbn in E. by rewrite E.
  - cbn [path_ptr]. rewrite (climb_round fuel f k t Hr Hok Ht). destruct (goes_right f) eqn:Eg.
    + right. unfold goes_right in Eg. destruct (f_dir f) eqn:Ed; [|done]. destruct Hok as [Hok Hok'].
      destruct (Hok Ed) as (_ & Hu1 & _). exists (mk_frame RB_RIGHT (f_x f) (f_red f) (f_d f) t :: k), (f_sib f).
      pose proof (flip_reps _ _ _ Hr) as Hu. rewrite Ed in Hu. split_and!; try done.
      * by destruct (f_sib f).
      * cbn. by rewrite Ed.
      * cbn. rewrite Ed. lia.
    + assert (Hr1 : reps nil s k (plug1 f t)) by by apply (proj1 (reps_plug1 _ _ _ _ _)).
      assert (Hnl : plug1 f t <> Leaf) by (unfold plug1; by destruct (f_dir f)).
      rewrite (skipped last f k Hok Eg). unfold plug1 in Hr1, Hnl. cbn in Hf.
      destruct (IH fuel _ Hr1 (proj2 Hok) Hnl ltac:(lia)) as [H|(k' & u & H)]; rewrite tptr_node in H; [by left|right].
      exists k', u. destruct H as (? & ? & ? & ? & ? & ? & ? & Htodo). split_and!; try done. cbn. lia.
Qed.
Lemma climb_start fuel k l x c d : reps nil s k (Node l x c d Leaf) ->
  climb ld lo hi (S fuel) nil x s = climb ld lo hi fuel x (path_ptr nil k) s.
Proof.
  intros Hr. cbn [climb]. rb_step. rewrite (r_nil _ _ _ _ Hr).
  assert (Hx : x <> nil) by (pose proof (reps_perm _ _ _ _ Hr) as (Hi & _); cbn in Hi; clear -Hi; set_solver).
  rewrite (proj2 (Z.eqb_neq _ _) Hx). cbn [negb]. destruct (r_tree _ _ _ _ Hr) as (Hlx & _). do 2 rb_step.
  cbn [n_child tptr n_right]. rewrite Z.eqb_refl. cbn [negb]. rewrite andb_false_r. erewrite st_bind_ok by done. cbv iota.
  by rb_step.
Qed.

Lemma next_run fuel last k t : last <> None -> reps nil s k t -> t <> Leaf -> path_ok k -> searchable t ->
  (length (ids t) + todo k < fuel)%nat ->
  intersect_loop ld lo hi fuel last (tptr nil t) s = (Ok (fst <$> head (hits last t ++ later last k)), s).
Proof.
  intros Hlast. revert k t. induction fuel as [|fuel IH]; intros k t Hr Ht Hok Hst Hf; [lia|].
  destruct t as [|l x c d r]; [done|]. clear Ht. pose proof Hst as (Ha & Hl & _). cbn [tptr].
  rewrite (visit_round fuel last k l x c d r Hr Hl Ha), hits_node. destruct (next_hit last (x, iv_key d)); [done|].
  cbn [app]. cbv zeta. rewrite bool_decide_true, andb_true_r by done.
  destruct (searchable_sub _ _ _ _ _ Hst) as (Hsl & Hsr & Hlow). pose proof (proj1 Hsl) as Hal.
  assert (Hkd : iv_key d ∈ keys (Node l x c d r)) by (unfold RbInsert.keys; cbn; rewrite map_app; cbn; set_solver).
  pose proof (proj1 (proj2 Hl _ Hkd)) as Hld. cbn in Hf. rewrite length_app in Hf. cbn in Hf.
  pose proof (reps_sub k RB_LEFT _ _ _ _ _ Hr) as Hrl. pose proof (reps_sub k RB_RIGHT _ _ _ _ _ Hr) as Hrr. cbn in Hrl, Hrr.
  assert (Hnil : forall k t, reps nil s k t -> t <> Leaf -> (tptr nil t =? nil) = false).
  { intros k0 t0 H0 Hn0. apply Z.eqb_neq. intros E. pose proof (tptr_ids nil t0 Hn0) as Hi. rewrite E in Hi.
    by destruct (reps_perm _ _ _ _ H0). }
  destruct (bound_ge l) eqn:Eb.
  - assert (Hn : l <> Leaf) by by destruct l. rewrite (Hnil _ _ Hrl Hn), (IH _ _ Hrl Hn); [|done|done|cbn; lia].
    cbn. by rewrite <- app_assoc.
  - rewrite (bound_skip last l Hal Eb). cbn [app]. assert (r = Leaf \/ r <> Leaf) as [->|Hn] by (destruct r; auto).
    + cbn [tptr]. rewrite Z.eqb_refl. rewrite (st_bind_ok st_get _ s s s) by done. cbn [hits pre List.filter app].
      assert (Hcl : forall c : ptr, climb ld lo hi (S (size (rbt_nodes s))) nil x s = (Ok c, s) ->
        (cur ← climb ld lo hi (S (size (rbt_nodes s))) nil x;
         if cur =? rbt_root s then mret None else intersect_loop ld lo hi fuel last cur) s =
        (if c =? rbt_root s then mret None else intersect_loop ld lo hi fuel last c) s).
      { intros c0 H0. by erewrite st_bind_ok by exact H0. }
      rewrite (climb_start _ _ _ _ _ _ Hr) in Hcl.
      pose proof (reps_size _ _ _ _ Hr) as Hsz. pose proof (length_ids_path k) as Hlk. rewrite length_app in Hsz.
      destruct (climb_run (size (rbt_nodes s)) last k _ Hr Hok ltac:(done) ltac:(lia))
        as [(-> & Hc)|(k' & u & Hc & Hu & Hk' & Hru & Hoku & Hsu & -> & Htodo)]; rewrite (Hcl _ Hc).
      * by rewrite Z.eqb_refl.
      * rewrite (proj2 (Z.eqb_neq _ _) (not_root _ _ Hru Hu Hk')). apply IH; try done. lia.
    + rewrite (Hnil _ _ Hrr Hn), (IH _ _ Hrr Hn); [done|done|done|cbn; lia].
Qed.
End Loop.
End Search.

(** ** Enumeration *)

Section Enumerate.
Variables (ld : Z -> Z) (lo hi : Z) (nil : ptr).
Notation hs := (hits lo hi).
Notation ls := (later lo hi).

Lemma hits_last x t : hs (Some x) t = List.filter (fun e => negb (fst e =? x)) (hs None t).
Proof.
  assert (Hx : forall e, next_hit lo hi (Some x) e = next_hit lo hi None e && negb (fst e =? x)).
  { intros e. unfold next_hit. rewrite (bool_decide_true (None <> _)) by done. destruct (Z.eqb_spec (fst e) x) as [E|Hne].
    - rewrite bool_decide_false by (intros Hc; by rewrite E in Hc). by rewrite andb_false_r.
    - rewrite bool_decide_true by congruence. by rewrite andb_true_r. }
  unfold hits. induction (pre t) as [|e es IH]; [done|]. cbn [List.filter]. rewrite IH, Hx.
  destruct (next_hit lo hi None e); [|done]. cbn [List.filter andb]. done.
Qed.

Lemma pre_ids t : map fst (pre t) ≡ₚ ids t.
Proof. rewrite <- (elems_ids iv_key). by rewrite pre_elems. Qed.

Lemma hits_nodup last t : NoDup (ids t) -> NoDup (map fst (hs last t)).
Proof.
  rewrite <- pre_ids. unfold hits. induction (pre t) as [|e es IH]; [done|]. cbn. intros [He Hes]%list.NoDup_cons.
  destruct (next_hit _ _ _ e); [|auto]. cbn. apply list.NoDup_cons. split; [|auto]. intros Hi. apply He.
  apply list_elem_of_fmap in Hi as (e' & E & Hi). apply list_elem_of_In, filter_In in Hi as [Hi _]. rewrite E.
  apply list_elem_of_fmap. exists e'. split; [done|]. by apply list_elem_of_In.
Qed.

(** The matches before the root of a subtree. *)
Fixpoint prior (last : option ptr) (k : ipath) : list entry :=
  match k with
  | [] => []
  | f :: k' =>
      prior last k' ++ (if next_hit lo hi last (f_x f, iv_key (f_d f)) then [(f_x f, iv_key (f_d f))] else []) ++
      match f_dir f with RB_LEFT => [] | RB_RIGHT => hs last (f_sib f) end
  end.

Lemma hits_plug last (k : ipath) (t : itree) : hs last (plug k t) = prior last k ++ hs last t ++ ls last k.
Proof.
  revert t. induction k as [|f k IH]; intros t; [cbn; by rewrite app_nil_r|].
  change (plug (f :: k) t) with (plug k (plug1 f t)). rewrite IH. unfold plug1. cbn [prior later].
  destruct (f_dir f); cbn [node]; rewrite hits_node, <- !app_assoc; done.
Qed.

Lemma zipper (t : itree) (x : ptr) : x ∈ ids t -> exists k l c d r, plug k (Node l x c d r) = t.
Proof.
  assert (H : forall (t : itree) (k : ipath), x ∈ ids t -> exists k' l c d r, plug k' (Node l x c d r) = plug k t).
  { clear t. induction t as [|l IHl y c d r IHr]; intros k Hx; [set_solver|]. cbn in Hx.
    apply elem_of_app in Hx as [Hx|[->|Hx]%elem_of_cons].
    - apply (IHl (mk_frame RB_LEFT y c d r :: k) Hx).
    - by exists k, l, c, d, r.
    - apply (IHr (mk_frame RB_RIGHT y c d l :: k) Hx). }
  intros Hx. apply (H t [] Hx).
Qed.

Lemma searchable_path (k : ipath) (t : itree) : searchable ld (plug k t) -> path_ok ld k /\ searchable ld t.
Proof.
  revert t. induction k as [|f k IH]; intros t Hs; [done|]. apply IH in Hs as [Hk Hs]. unfold plug1 in Hs. cbn.
  destruct (f_dir f); cbn in Hs; destruct (searchable_sub _ _ _ _ _ _ Hs) as (Hl & Hr & Hlow).
  - split; [|done]. split; [|done]. intros _. split_and!; try done. destruct Hs as (_ & [_ Hld] & _).
    apply (Hld (iv_key (f_d f))). unfold RbInsert.keys. cbn. rewrite map_app. cbn. set_solver.
  - split; [|done]. by split.
Qed.

Lemma split_unique (l a b a' b' : list entry) e e' : NoDup (map fst l) -> l = a ++ e :: b -> l = a' ++ e' :: b' ->
  fst e = fst e' -> e = e' /\ b = b'.
Proof.
  intros Hnd -> E Hf. revert a' E Hnd. induction a as [|y a IH]; intros [|z a'] E Hnd; cbn in *; simplify_eq; [done| | |].
  - exfalso. apply list.NoDup_cons in Hnd as [Hi _]. apply Hi. rewrite map_app. cbn. rewrite Hf. set_solver.
  - exfalso. apply list.NoDup_cons in Hnd as [Hi _]. apply Hi. rewrite map_app. cbn. rewrite <- Hf. set_solver.
  - apply list.NoDup_cons in Hnd as [_ Hnd]. by eapply IH.
Qed.

Lemma later_last x (k : ipath) : ls (Some x) k = List.filter (fun e => negb (fst e =? x)) (ls None k).
Proof.
  induction k as [|f k IH]; [done|]. cbn [later]. rewrite List.filter_app, IH. destruct (f_dir f); [by rewrite hits_last|done].
Qed.

Lemma filter_absent (l : list entry) x : x ∉ map fst l -> List.filter (fun e => negb (fst e =? x)) l = l.
Proof.
  intros Hx. apply list_filter_all, Forall_forall. intros e He. apply negb_true_iff, Z.eqb_neq. intros E. apply Hx.
  rewrite <- E. apply list_elem_of_fmap. by exists e.
Qed.

Lemma key_unique (l : list entry) x a b : NoDup (map fst l) -> (x, a) ∈ l -> (x, b) ∈ l -> a = b.
Proof.
  induction l as [|[y c] l IH]; cbn; [set_solver|]. rewrite !elem_of_cons, list.NoDup_cons. intros [Hy Hnd] Ha Hb.
  assert (Hin : forall v, (y, v) ∈ l -> False).
  { intros v Hv. apply Hy. apply list_elem_of_fmap. by exists (y, v). }
  destruct Ha as [Ha|Ha], Hb as [Hb|Hb]; simplify_eq; [done|by destruct (Hin b)|by destruct (Hin a)|auto].
Qed.

(** A match has a place in the tree, and the matches after it are those of its
    subtrees and of the path. *)
Lemma match_place t a x key b : NoDup (ids t) -> hs None t = a ++ (x, key) :: b ->
  exists k l c d r, plug k (Node l x c d r) = t /\ b = hs None l ++ hs None r ++ ls None k.
Proof.
  intros Hnd He. assert (Hin : (x, key) ∈ hs None t) by (rewrite He; set_solver).
  apply list_elem_of_In, filter_In in Hin as [Hin Hhit]. apply list_elem_of_In in Hin.
  assert (Hx : x ∈ ids t) by (rewrite <- pre_ids; apply list_elem_of_fmap; by exists (x, key)).
  destruct (zipper t x Hx) as (k & l & c & d & r & <-). exists k, l, c, d, r. split; [done|].
  assert (Ek : iv_key d = key).
  { apply (key_unique (elems (plug k (Node l x c d r))) x).
    - rewrite (elems_ids iv_key). done.
    - rewrite elems_path. cbn. set_solver.
    - by rewrite <- pre_elems. }
  pose proof (hits_nodup None _ Hnd) as Hh. pose proof (hits_plug None k (Node l x c d r)) as Hp.
  rewrite hits_node, Ek, Hhit, <- !app_assoc in Hp. cbn [app] in Hp.
  by destruct (split_unique _ _ _ _ _ _ _ Hh He Hp eq_refl).
Qed.

Lemma intersect_first s t : holds nil t s -> searchable ld t -> trusted lo t ->
  t_intersect ld lo hi None s = (Ok (fst <$> head (hs None t)), s).
Proof.
  intros [Hr _ _] (Ha & Hl & Hs) Ht. unfold t_intersect. rewrite (st_bind_ok st_get _ s s s) by done.
  pose proof (r_path _ _ _ _ Hr) as Hroot. cbn in Hroot. rewrite Hroot. pose proof (reps_size _ _ _ _ Hr) as Hsz.
  cbn in Hsz. rewrite app_nil_r in Hsz. apply (first_run ld lo hi nil s _ [] t Hr Hl Ha Ht Hs). lia.
Qed.

Lemma intersect_next s t a e b : holds nil t s -> searchable ld t -> hs None t = a ++ e :: b ->
  t_intersect ld lo hi (Some (fst e)) s = (Ok (fst <$> head b), s).
Proof.
  intros [Hr _ _] Hs He. destruct e as [x key]. cbn [fst].
  pose proof (reps_perm _ _ _ _ Hr) as (_ & _ & Hnd & _). pose proof (hits_nodup None _ Hnd) as Hh.
  rewrite He, map_app in Hh. cbn in Hh. apply list.NoDup_app in Hh as (_ & _ & Hh). apply list.NoDup_cons in Hh as [Hxb _].
  destruct (match_place _ _ _ _ _ Hnd He) as (k & l & c & d & r & <- & Hb).
  destruct (searchable_path _ _ Hs) as [Hok Hst]. apply (proj2 (reps_plug _ _ _ _)) in Hr.
  unfold t_intersect. rewrite (st_bind_ok st_get _ s s s) by done.
  pose proof (reps_size _ _ _ _ Hr) as Hsz. rewrite length_app in Hsz.
  rewrite (next_run ld lo hi nil s _ (Some x) k (Node l x c d r) ltac:(done) Hr ltac:(done) Hok Hst).
  - do 3 f_equal. rewrite hits_node. unfold next_hit at 1. cbn [fst]. rewrite bool_decide_false by auto. cbn [app andb].
    rewrite !hits_last, later_last, <- app_assoc, <- !List.filter_app. rewrite Hb in Hxb |- *. f_equal. by apply filter_absent.
  - enough (todo k <= length (ids_path k))%nat by lia. clear. induction k as [|f k IH]; [done|].
    unfold ids_path in *. cbn. rewrite length_app. destruct (f_dir f); cbn; lia.
Qed.
End Enumerate.
