(* ===== verification/FldCls.v ===== *)
(** Field locations and field classes: [fld_loc.c], [fld_cls.h],
    [fld_cls_int.h] and the accessors of [fld_cls.c].

    [actf_fld_cls] is the tagged union of the C code as an inductive type.  The
    theorems: names and enumerators convert back and forth, the alignment
    requirement of a well-formed class is a power of two and is what CTF asks
    (a compound class is aligned at least as its parts). *)
From S2P Require Import Prelude Common Rng RbTree Ival.
From stdpp Require Import strings.
Open Scope Z_scope.

(** * Field locations (fld_loc.c) *)

Inductive actf_fld_loc_origin :=
| ACTF_FLD_LOC_ORIGIN_NONE
| ACTF_FLD_LOC_ORIGIN_PKT_HEADER
| ACTF_FLD_LOC_ORIGIN_PKT_CTX
| ACTF_FLD_LOC_ORIGIN_EVENT_HEADER
| ACTF_FLD_LOC_ORIGIN_EVENT_COMMON_CTX
| ACTF_FLD_LOC_ORIGIN_EVENT_SPECIFIC_CTX
| ACTF_FLD_LOC_ORIGIN_EVENT_PAYLOAD.

#[export] Instance origin_eq_dec : EqDecision actf_fld_loc_origin.
Proof. solve_decision. Defined.

(** A path element is a member name, or [None] for the containing structure. *)
Record actf_fld_loc := mk_fld_loc { origin : actf_fld_loc_origin; path : list (option string) }.

Definition actf_fld_loc_path_len (l : actf_fld_loc) : Z := Z.of_nat (length (path l)).

Definition actf_fld_loc_origin_name (o : actf_fld_loc_origin) : option string :=
  match o with
  | ACTF_FLD_LOC_ORIGIN_NONE => None
  | ACTF_FLD_LOC_ORIGIN_PKT_HEADER => Some "packet-header"
  | ACTF_FLD_LOC_ORIGIN_PKT_CTX => Some "packet-context"
  | ACTF_FLD_LOC_ORIGIN_EVENT_HEADER => Some "event-record-header"
  | ACTF_FLD_LOC_ORIGIN_EVENT_COMMON_CTX => Some "event-record-common-context"
  | ACTF_FLD_LOC_ORIGIN_EVENT_SPECIFIC_CTX => Some "event-record-specific-context"
  | ACTF_FLD_LOC_ORIGIN_EVENT_PAYLOAD => Some "event-record-payload"
  end%string.

(** The enumerators in the order of their values. *)
Definition all_origins : list actf_fld_loc_origin :=
  [ACTF_FLD_LOC_ORIGIN_NONE; ACTF_FLD_LOC_ORIGIN_PKT_HEADER; ACTF_FLD_LOC_ORIGIN_PKT_CTX;
   ACTF_FLD_LOC_ORIGIN_EVENT_HEADER; ACTF_FLD_LOC_ORIGIN_EVENT_COMMON_CTX;
   ACTF_FLD_LOC_ORIGIN_EVENT_SPECIFIC_CTX; ACTF_FLD_LOC_ORIGIN_EVENT_PAYLOAD].

(** The loop of a name lookup: the first enumerator with the name. *)
Fixpoint by_name {T} (name_of : T -> option string) (ts : list T) (name : string) : option T :=
  match ts with
  | [] => None
  | t :: ts' =>
      match name_of t with
      | Some n => if bool_decide (name = n) then Some t else by_name name_of ts' name
      | None => by_name name_of ts' name
      end
  end.

Definition actf_fld_loc_origin_name_to_type (name : string) : actf_fld_loc_origin :=
  default ACTF_FLD_LOC_ORIGIN_NONE (by_name actf_fld_loc_origin_name all_origins name).

(** * Field classes (fld_cls.h, fld_cls_int.h) *)

(** [enum actf_role], ORed together. *)
Definition ACTF_ROLE_NIL : Z := 0.
Definition ACTF_ROLE_DSTREAM_CLS_ID : Z := Z.shiftl 1 0.
Definition ACTF_ROLE_DSTREAM_ID : Z := Z.shiftl 1 1.
Definition ACTF_ROLE_PKT_MAGIC_NUM : Z := Z.shiftl 1 2.
Definition ACTF_ROLE_METADATA_STREAM_UUID : Z := Z.shiftl 1 3.
Definition ACTF_ROLE_DEF_CLK_TSTAMP : Z := Z.shiftl 1 4.
Definition ACTF_ROLE_DISC_EVENT_CNT_SNAPSHOT : Z := Z.shiftl 1 5.
Definition ACTF_ROLE_PKT_CONTENT_LEN : Z := Z.shiftl 1 6.
Definition ACTF_ROLE_PKT_END_DEF_CLK_TSTAMP : Z := Z.shiftl 1 7.
Definition ACTF_ROLE_PKT_SEQ_NUM : Z := Z.shiftl 1 8.
Definition ACTF_ROLE_PKT_TOT_LEN : Z := Z.shiftl 1 9.
Definition ACTF_ROLE_EVENT_CLS_ID : Z := Z.shiftl 1 10.

Record fxd_len_bit_arr_fld_cls := mk_bit_arr {
  len : Z; bo : actf_byte_order; bito : actf_bit_order; align : Z
}.

(** [struct actf_mappings]: the interval tree of the ranges of all names, with the
    memory of its intervals, and the names.  Mappings.v makes it and looks numbers
    up in it. *)
Record actf_mappings := mk_actf_mappings { m_signed : bool; m_ivals_len : Z; m_ivt : ivt; m_names : list string }.

(** The members of a structure that is not initialised are zero: a tree without
    nodes and no names ([RNG_SINT] is 0). *)
Definition zero_mappings : actf_mappings := mk_actf_mappings true 0 (mk_rbt 0 0 false ∅) [].

Record int_fld_cls := mk_int_fld_cls { pref_display_base : actf_base; maps : actf_mappings }.

(** [struct actf_fld_cls], a tagged union; a member of a structure is a name and
    a class, an option of a variant also has its selector ranges.  The alias
    name (ownership of the class) and the user attributes are left out. *)
Inductive actf_fld_cls :=
| FC_NIL
| FC_FXD_LEN_BIT_ARR (a : fxd_len_bit_arr_fld_cls)
| FC_FXD_LEN_BIT_MAP (a : fxd_len_bit_arr_fld_cls) (flags : actf_flags)
| FC_FXD_LEN_UINT (base : int_fld_cls) (a : fxd_len_bit_arr_fld_cls) (roles : Z)
| FC_FXD_LEN_SINT (base : int_fld_cls) (a : fxd_len_bit_arr_fld_cls) (roles : Z)
| FC_FXD_LEN_BOOL (a : fxd_len_bit_arr_fld_cls)
| FC_FXD_LEN_FLOAT (a : fxd_len_bit_arr_fld_cls)
| FC_VAR_LEN_UINT (base : int_fld_cls) (roles : Z)
| FC_VAR_LEN_SINT (base : int_fld_cls) (roles : Z)
| FC_NULL_TERM_STR (enc : actf_encoding)
| FC_STATIC_LEN_STR (enc : actf_encoding) (n : Z)
| FC_DYN_LEN_STR (enc : actf_encoding) (len_fld_loc : actf_fld_loc)
| FC_STATIC_LEN_BLOB (n : Z) (media_type : option string) (roles : Z)
| FC_DYN_LEN_BLOB (len_fld_loc : actf_fld_loc) (media_type : option string)
| FC_STRUCT (member_clses : list (string * actf_fld_cls)) (min_align : Z) (eff_align : Z)
| FC_STATIC_LEN_ARR (ele_fld_cls : actf_fld_cls) (min_align : Z) (n : Z)
| FC_DYN_LEN_ARR (ele_fld_cls : actf_fld_cls) (min_align : Z) (len_fld_loc : actf_fld_loc)
| FC_OPTIONAL (fld_cls : actf_fld_cls) (sel_fld_loc : actf_fld_loc) (sel_fld_rng_set : actf_rng_set)
| FC_VARIANT (opts : list (option string * actf_fld_cls * actf_rng_set)) (sel_fld_loc : actf_fld_loc).

Inductive actf_fld_cls_type :=
| ACTF_FLD_CLS_NIL
| ACTF_FLD_CLS_FXD_LEN_BIT_ARR
| ACTF_FLD_CLS_FXD_LEN_BIT_MAP
| ACTF_FLD_CLS_FXD_LEN_UINT
| ACTF_FLD_CLS_FXD_LEN_SINT
| ACTF_FLD_CLS_FXD_LEN_BOOL
| ACTF_FLD_CLS_FXD_LEN_FLOAT
| ACTF_FLD_CLS_VAR_LEN_UINT
| ACTF_FLD_CLS_VAR_LEN_SINT
| ACTF_FLD_CLS_NULL_TERM_STR
| ACTF_FLD_CLS_STATIC_LEN_STR
| ACTF_FLD_CLS_DYN_LEN_STR
| ACTF_FLD_CLS_STATIC_LEN_BLOB
| ACTF_FLD_CLS_DYN_LEN_BLOB
| ACTF_FLD_CLS_STRUCT
| ACTF_FLD_CLS_STATIC_LEN_ARR
| ACTF_FLD_CLS_DYN_LEN_ARR
| ACTF_FLD_CLS_OPTIONAL
| ACTF_FLD_CLS_VARIANT.

#[export] Instance fld_cls_type_eq_dec : EqDecision actf_fld_cls_type.
Proof. solve_decision. Defined.

(** [fc->type]. *)
Definition type_of (fc : actf_fld_cls) : actf_fld_cls_type :=
  match fc with
  | FC_NIL => ACTF_FLD_CLS_NIL
  | FC_FXD_LEN_BIT_ARR _ => ACTF_FLD_CLS_FXD_LEN_BIT_ARR
  | FC_FXD_LEN_BIT_MAP _ _ => ACTF_FLD_CLS_FXD_LEN_BIT_MAP
  | FC_FXD_LEN_UINT _ _ _ => ACTF_FLD_CLS_FXD_LEN_UINT
  | FC_FXD_LEN_SINT _ _ _ => ACTF_FLD_CLS_FXD_LEN_SINT
  | FC_FXD_LEN_BOOL _ => ACTF_FLD_CLS_FXD_LEN_BOOL
  | FC_FXD_LEN_FLOAT _ => ACTF_FLD_CLS_FXD_LEN_FLOAT
  | FC_VAR_LEN_UINT _ _ => ACTF_FLD_CLS_VAR_LEN_UINT
  | FC_VAR_LEN_SINT _ _ => ACTF_FLD_CLS_VAR_LEN_SINT
  | FC_NULL_TERM_STR _ => ACTF_FLD_CLS_NULL_TERM_STR
  | FC_STATIC_LEN_STR _ _ => ACTF_FLD_CLS_STATIC_LEN_STR
  | FC_DYN_LEN_STR _ _ => ACTF_FLD_CLS_DYN_LEN_STR
  | FC_STATIC_LEN_BLOB _ _ _ => ACTF_FLD_CLS_STATIC_LEN_BLOB
  | FC_DYN_LEN_BLOB _ _ => ACTF_FLD_CLS_DYN_LEN_BLOB
  | FC_STRUCT _ _ _ => ACTF_FLD_CLS_STRUCT
  | FC_STATIC_LEN_ARR _ _ _ => ACTF_FLD_CLS_STATIC_LEN_ARR
  | FC_DYN_LEN_ARR _ _ _ => ACTF_FLD_CLS_DYN_LEN_ARR
  | FC_OPTIONAL _ _ _ => ACTF_FLD_CLS_OPTIONAL
  | FC_VARIANT _ _ => ACTF_FLD_CLS_VARIANT
  end.

(** ** Accessors (fld_cls.c) *)

(** The bit array specification of a fixed-length class. *)
Definition bit_arr_of (fc : actf_fld_cls) : option fxd_len_bit_arr_fld_cls :=
  match fc with
  | FC_FXD_LEN_BIT_ARR a | FC_FXD_LEN_BIT_MAP a _ | FC_FXD_LEN_UINT _ a _ | FC_FXD_LEN_SINT _ a _
  | FC_FXD_LEN_BOOL a | FC_FXD_LEN_FLOAT a => Some a
  | _ => None
  end.

Definition actf_fld_cls_len (fc : actf_fld_cls) : Z :=
  match fc with
  | FC_STATIC_LEN_BLOB n _ _ | FC_STATIC_LEN_STR _ n | FC_STATIC_LEN_ARR _ _ n => n
  | _ => match bit_arr_of fc with Some a => len a | None => 0 end
  end.

Definition actf_fld_cls_byte_order (fc : actf_fld_cls) : actf_byte_order :=
  match bit_arr_of fc with Some a => bo a | None => ACTF_LIL_ENDIAN end.

Definition actf_fld_cls_bit_order (fc : actf_fld_cls) : actf_bit_order :=
  match bit_arr_of fc with Some a => bito a | None => ACTF_FIRST_TO_LAST end.

Definition actf_fld_cls_alignment (fc : actf_fld_cls) : Z :=
  match bit_arr_of fc with Some a => align a | None => 0 end.

Definition actf_fld_cls_bit_map_flags (fc : actf_fld_cls) : option actf_flags :=
  match fc with FC_FXD_LEN_BIT_MAP _ f => Some f | _ => None end.

Definition int_base_of (fc : actf_fld_cls) : option int_fld_cls :=
  match fc with
  | FC_FXD_LEN_SINT b _ _ | FC_FXD_LEN_UINT b _ _ | FC_VAR_LEN_SINT b _ | FC_VAR_LEN_UINT b _ => Some b
  | _ => None
  end.

Definition actf_fld_cls_pref_display_base (fc : actf_fld_cls) : actf_base :=
  match int_base_of fc with Some b => pref_display_base b | None => ACTF_BASE_DECIMAL end.

Definition actf_fld_cls_mappings (fc : actf_fld_cls) : option actf_mappings :=
  maps <$> int_base_of fc.

Definition actf_fld_cls_roles (fc : actf_fld_cls) : Z :=
  match fc with
  | FC_FXD_LEN_UINT _ _ roles | FC_VAR_LEN_UINT _ roles | FC_STATIC_LEN_BLOB _ _ roles => roles
  | _ => ACTF_ROLE_NIL
  end.

Definition actf_fld_cls_encoding (fc : actf_fld_cls) : actf_encoding :=
  match fc with
  | FC_NULL_TERM_STR enc | FC_STATIC_LEN_STR enc _ | FC_DYN_LEN_STR enc _ => enc
  | _ => ACTF_ENCODING_UTF8
  end.

Definition actf_fld_cls_media_type (fc : actf_fld_cls) : option string :=
  match fc with
  | FC_STATIC_LEN_BLOB _ m _ | FC_DYN_LEN_BLOB _ m => m
  | _ => None
  end.

Definition actf_fld_cls_len_fld_loc (fc : actf_fld_cls) : option actf_fld_loc :=
  match fc with
  | FC_DYN_LEN_STR _ l | FC_DYN_LEN_BLOB l _ | FC_DYN_LEN_ARR _ _ l => Some l
  | _ => None
  end.

Definition actf_fld_cls_min_alignment (fc : actf_fld_cls) : Z :=
  match fc with
  | FC_STRUCT _ m _ | FC_STATIC_LEN_ARR _ m _ | FC_DYN_LEN_ARR _ m _ => m
  | _ => 0
  end.

Definition members_of (fc : actf_fld_cls) : list (string * actf_fld_cls) :=
  match fc with FC_STRUCT ms _ _ => ms | _ => [] end.

Definition actf_fld_cls_members_len (fc : actf_fld_cls) : Z := Z.of_nat (length (members_of fc)).

Definition actf_fld_cls_members_name_idx (fc : actf_fld_cls) (i : nat) : option string :=
  fst <$> members_of fc !! i.

Definition actf_fld_cls_members_fld_cls_idx (fc : actf_fld_cls) (i : nat) : option actf_fld_cls :=
  snd <$> members_of fc !! i.

Definition actf_fld_cls_element_fld_cls (fc : actf_fld_cls) : option actf_fld_cls :=
  match fc with FC_STATIC_LEN_ARR e _ _ | FC_DYN_LEN_ARR e _ _ => Some e | _ => None end.

Definition actf_fld_cls_selector_fld_loc (fc : actf_fld_cls) : option actf_fld_loc :=
  match fc with FC_OPTIONAL _ l _ | FC_VARIANT _ l => Some l | _ => None end.

Definition actf_fld_cls_selector_rng_set (fc : actf_fld_cls) : option actf_rng_set :=
  match fc with FC_OPTIONAL _ _ rs => Some rs | _ => None end.

Definition actf_fld_cls_optional_fld_cls (fc : actf_fld_cls) : option actf_fld_cls :=
  match fc with FC_OPTIONAL f _ _ => Some f | _ => None end.

Definition opts_of (fc : actf_fld_cls) : list (option string * actf_fld_cls * actf_rng_set) :=
  match fc with FC_VARIANT os _ => os | _ => [] end.

Definition actf_fld_cls_options_len (fc : actf_fld_cls) : Z := Z.of_nat (length (opts_of fc)).

Definition actf_fld_cls_options_name_idx (fc : actf_fld_cls) (i : nat) : option string :=
  o ← opts_of fc !! i; fst (fst o).

Definition actf_fld_cls_options_fld_cls_idx (fc : actf_fld_cls) (i : nat) : option actf_fld_cls :=
  o ← opts_of fc !! i; Some (snd (fst o)).

Definition actf_fld_cls_variant_options_selector_rng_set_idx (fc : actf_fld_cls) (i : nat) :
    option actf_rng_set :=
  o ← opts_of fc !! i; Some (snd o).

Definition actf_encoding_to_codepoint_size (enc : actf_encoding) : Z :=
  match enc with
  | ACTF_ENCODING_UTF8 => 1
  | ACTF_ENCODING_UTF16BE => 2
  | ACTF_ENCODING_UTF16LE => 2
  | ACTF_ENCODING_UTF32BE => 4
  | ACTF_ENCODING_UTF32LE => 4
  end.

Definition actf_encoding_to_name (enc : actf_encoding) : string :=
  match enc with
  | ACTF_ENCODING_UTF8 => "utf-8"
  | ACTF_ENCODING_UTF16BE => "utf-16be"
  | ACTF_ENCODING_UTF16LE => "utf-16le"
  | ACTF_ENCODING_UTF32BE => "utf-32be"
  | ACTF_ENCODING_UTF32LE => "utf-32le"
  end.

Definition all_encodings : list actf_encoding :=
  [ACTF_ENCODING_UTF8; ACTF_ENCODING_UTF16BE; ACTF_ENCODING_UTF16LE; ACTF_ENCODING_UTF32BE;
   ACTF_ENCODING_UTF32LE].

(** [ACTF_NOT_FOUND] is [None]. *)
Definition actf_encoding_name_to_type (name : string) : option actf_encoding :=
  by_name (fun e => Some (actf_encoding_to_name e)) all_encodings name.

Definition actf_role_name (role : Z) : option string :=
  if role =? ACTF_ROLE_NIL then None
  else if role =? ACTF_ROLE_DSTREAM_CLS_ID then Some "data-stream-class-id"%string
  else if role =? ACTF_ROLE_DSTREAM_ID then Some "data-stream-id"%string
  else if role =? ACTF_ROLE_PKT_MAGIC_NUM then Some "packet-magic-number"%string
  else if role =? ACTF_ROLE_METADATA_STREAM_UUID then Some "metadata-stream-uuid"%string
  else if role =? ACTF_ROLE_DEF_CLK_TSTAMP then Some "default-clock-timestamp"%string
  else if role =? ACTF_ROLE_DISC_EVENT_CNT_SNAPSHOT then Some "discarded-event-record-counter-snapshot"%string
  else if role =? ACTF_ROLE_PKT_CONTENT_LEN then Some "packet-content-length"%string
  else if role =? ACTF_ROLE_PKT_END_DEF_CLK_TSTAMP then Some "packet-end-default-clock-timestamp"%string
  else if role =? ACTF_ROLE_PKT_SEQ_NUM then Some "packet-sequence-number"%string
  else if role =? ACTF_ROLE_PKT_TOT_LEN then Some "packet-total-length"%string
  else if role =? ACTF_ROLE_EVENT_CLS_ID then Some "event-record-class-id"%string
  else None.

(** The loop over [1 << i] until a value has no name; [fuel] is the number of
    bits of an [int]. *)
Fixpoint role_name_loop (fuel : nat) (i : Z) (name : string) : Z :=
  match fuel with
  | O => ACTF_ROLE_NIL
  | S fuel' =>
      match actf_role_name (Z.shiftl 1 i) with
      | None => ACTF_ROLE_NIL
      | Some n => if bool_decide (name = n) then Z.shiftl 1 i else role_name_loop fuel' (i + 1) name
      end
  end.

Definition actf_role_name_get_type (name : string) : Z := role_name_loop 31 0 name.

Definition actf_fld_cls_type_name (t : actf_fld_cls_type) : option string :=
  match t with
  | ACTF_FLD_CLS_NIL => None
  | ACTF_FLD_CLS_FXD_LEN_BIT_ARR => Some "fixed-length-bit-array"
  | ACTF_FLD_CLS_FXD_LEN_BIT_MAP => Some "fixed-length-bit-map"
  | ACTF_FLD_CLS_FXD_LEN_UINT => Some "fixed-length-unsigned-integer"
  | ACTF_FLD_CLS_FXD_LEN_SINT => Some "fixed-length-signed-integer"
  | ACTF_FLD_CLS_FXD_LEN_BOOL => Some "fixed-length-boolean"
  | ACTF_FLD_CLS_FXD_LEN_FLOAT => Some "fixed-length-floating-point-number"
  | ACTF_FLD_CLS_VAR_LEN_UINT => Some "variable-length-unsigned-integer"
  | ACTF_FLD_CLS_VAR_LEN_SINT => Some "variable-length-signed-integer"
  | ACTF_FLD_CLS_NULL_TERM_STR => Some "null-terminated-string"
  | ACTF_FLD_CLS_STATIC_LEN_STR => Some "static-length-string"
  | ACTF_FLD_CLS_DYN_LEN_STR => Some "dynamic-length-string"
  | ACTF_FLD_CLS_STATIC_LEN_BLOB => Some "static-length-blob"
  | ACTF_FLD_CLS_DYN_LEN_BLOB => Some "dynamic-length-blob"
  | ACTF_FLD_CLS_STRUCT => Some "structure"
  | ACTF_FLD_CLS_STATIC_LEN_ARR => Some "static-length-array"
  | ACTF_FLD_CLS_DYN_LEN_ARR => Some "dynamic-length-array"
  | ACTF_FLD_CLS_OPTIONAL => Some "optional"
  | ACTF_FLD_CLS_VARIANT => Some "variant"
  end%string.

Definition all_fld_cls_types : list actf_fld_cls_type :=
  [ACTF_FLD_CLS_NIL; ACTF_FLD_CLS_FXD_LEN_BIT_ARR; ACTF_FLD_CLS_FXD_LEN_BIT_MAP;
   ACTF_FLD_CLS_FXD_LEN_UINT; ACTF_FLD_CLS_FXD_LEN_SINT; ACTF_FLD_CLS_FXD_LEN_BOOL;
   ACTF_FLD_CLS_FXD_LEN_FLOAT; ACTF_FLD_CLS_VAR_LEN_UINT; ACTF_FLD_CLS_VAR_LEN_SINT;
   ACTF_FLD_CLS_NULL_TERM_STR; ACTF_FLD_CLS_STATIC_LEN_STR; ACTF_FLD_CLS_DYN_LEN_STR;
   ACTF_FLD_CLS_STATIC_LEN_BLOB; ACTF_FLD_CLS_DYN_LEN_BLOB; ACTF_FLD_CLS_STRUCT;
   ACTF_FLD_CLS_STATIC_LEN_ARR; ACTF_FLD_CLS_DYN_LEN_ARR; ACTF_FLD_CLS_OPTIONAL;
   ACTF_FLD_CLS_VARIANT].

Definition actf_fld_cls_type_from_name (name : string) : actf_fld_cls_type :=
  default ACTF_FLD_CLS_NIL (by_name actf_fld_cls_type_name all_fld_cls_types name).

(** [None] is the failing [assert] of [ACTF_FLD_CLS_NIL]. *)
Fixpoint actf_fld_cls_get_align_req (fc : actf_fld_cls) : option Z :=
  match fc with
  | FC_NIL => None
  | FC_FXD_LEN_BIT_ARR a => Some (align a)
  | FC_FXD_LEN_BIT_MAP a _ => Some (align a)
  | FC_FXD_LEN_UINT _ a _ => Some (align a)
  | FC_FXD_LEN_SINT _ a _ => Some (align a)
  | FC_FXD_LEN_BOOL a => Some (align a)
  | FC_FXD_LEN_FLOAT a => Some (align a)
  | FC_VAR_LEN_UINT _ _ | FC_VAR_LEN_SINT _ _ | FC_NULL_TERM_STR _ | FC_STATIC_LEN_STR _ _
  | FC_DYN_LEN_STR _ _ | FC_STATIC_LEN_BLOB _ _ _ | FC_DYN_LEN_BLOB _ _ => Some 8
  | FC_STRUCT _ _ a => Some a
  | FC_STATIC_LEN_ARR ele m _ => ele_align ← actf_fld_cls_get_align_req ele; Some (MAX m ele_align)
  | FC_DYN_LEN_ARR ele m _ => ele_align ← actf_fld_cls_get_align_req ele; Some (MAX m ele_align)
  | FC_OPTIONAL _ _ _ | FC_VARIANT _ _ => Some 1
  end.

(** The effective alignment that [struct_fld_cls_parse] computes. *)
Fixpoint struct_align (ms : list (string * actf_fld_cls)) (acc : Z) : option Z :=
  match ms with
  | [] => Some acc
  | (_, c) :: ms' =>
      member_align ← actf_fld_cls_get_align_req c; struct_align ms' (MAX member_align acc)
  end.

(** * Names *)

Lemma by_name_inverse {T} `{EqDecision T} (name_of : T -> option string) ts t name :
  (forall a b n, a ∈ ts -> b ∈ ts -> name_of a = Some n -> name_of b = Some n -> a = b) ->
  t ∈ ts -> name_of t = Some name -> by_name name_of ts name = Some t.
Proof.
  intros Hinj Hin Ht. induction ts as [|t0 ts IH]; [by apply not_elem_of_nil in Hin|]. simpl.
  assert (Hinj' : forall a b n, a ∈ ts -> b ∈ ts -> name_of a = Some n -> name_of b = Some n -> a = b).
  { intros a b n Ha Hb. apply Hinj; apply elem_of_cons; by right. }
  destruct (name_of t0) as [n|] eqn:E.
  - destruct (bool_decide (name = n)) eqn:Eb.
    + apply bool_decide_eq_true in Eb as ->. f_equal.
      apply (Hinj t0 t n); try done. apply elem_of_cons. by left.
    + apply elem_of_cons in Hin as [->|Hin]; [|by apply IH].
      rewrite Ht in E. injection E as ->. by apply bool_decide_eq_false in Eb.
  - apply elem_of_cons in Hin as [->|Hin]; [congruence|by apply IH].
Qed.

Lemma by_name_sound {T} (name_of : T -> option string) ts name t :
  by_name name_of ts name = Some t -> name_of t = Some name.
Proof.
  induction ts as [|t0 ts IH]; [done|]. simpl. destruct (name_of t0) as [n|] eqn:E; [|done].
  destruct (bool_decide (name = n)) eqn:Eb; [|done]. apply bool_decide_eq_true in Eb as ->. by intros [= <-].
Qed.

Ltac names_inj := intros [] [] n _ _; cbn; intros; simplify_eq; done.

(** The names of field class types, field location origins, encodings and
    roles convert to the enumerator that prints as the name, and a string that
    is no such name converts to the default value: printing and parsing are
    inverse. *)
Theorem names_roundtrip :
  (forall t name, actf_fld_cls_type_name t = Some name -> actf_fld_cls_type_from_name name = t) /\
  (forall o name, actf_fld_loc_origin_name o = Some name -> actf_fld_loc_origin_name_to_type name = o) /\
  (forall e, actf_encoding_name_to_type (actf_encoding_to_name e) = Some e) /\
  (forall i name, 0 <= i <= 10 -> actf_role_name (Z.shiftl 1 i) = Some name ->
     actf_role_name_get_type name = Z.shiftl 1 i) /\
  (forall name, (forall t, actf_fld_cls_type_name t <> Some name) ->
     actf_fld_cls_type_from_name name = ACTF_FLD_CLS_NIL) /\
  (forall name, (forall o, actf_fld_loc_origin_name o <> Some name) ->
     actf_fld_loc_origin_name_to_type name = ACTF_FLD_LOC_ORIGIN_NONE) /\
  (forall name, (forall e, actf_encoding_to_name e <> name) -> actf_encoding_name_to_type name = None).
Proof.
  split_and!.
  - intros t name Ht. unfold actf_fld_cls_type_from_name.
    rewrite (by_name_inverse actf_fld_cls_type_name all_fld_cls_types t name); [done|names_inj| |done].
    destruct t; apply list_elem_of_In; cbn; tauto.
  - intros o name Ho. unfold actf_fld_loc_origin_name_to_type.
    rewrite (by_name_inverse actf_fld_loc_origin_name all_origins o name); [done|names_inj| |done].
    destruct o; apply list_elem_of_In; cbn; tauto.
  - intros e. by destruct e.
  - intros i name Hi. assert (Hd : i = 0 \/ i = 1 \/ i = 2 \/ i = 3 \/ i = 4 \/ i = 5 \/ i = 6 \/ i = 7 \/
      i = 8 \/ i = 9 \/ i = 10) by lia.
    by destruct Hd as [->|[->|[->|[->|[->|[->|[->|[->|[->|[->| ->]]]]]]]]]]; intros [= <-].
  - intros name Hno. unfold actf_fld_cls_type_from_name.
    destruct (by_name _ _ _) as [t|] eqn:E; [|done]. apply by_name_sound in E. by apply Hno in E.
  - intros name Hno. unfold actf_fld_loc_origin_name_to_type.
    destruct (by_name _ _ _) as [o|] eqn:E; [|done]. apply by_name_sound in E. by apply Hno in E.
  - intros name Hno. unfold actf_encoding_name_to_type.
    destruct (by_name _ _ _) as [e|] eqn:E; [|done]. apply by_name_sound in E.
    injection E as E. by apply Hno in E.
Qed.

(** * Well-formed classes *)

Definition pow2 (a : Z) : Prop := exists k, 0 <= k <= 63 /\ a = 2 ^ k.

Definition bit_arr_wf (a : fxd_len_bit_arr_fld_cls) : Prop := 1 <= len a <= 64 /\ pow2 (align a).

(** What parsing establishes: lengths and alignments in range, no empty class,
    the effective alignment of a structure computed from its members. *)
Fixpoint fc_wf (fc : actf_fld_cls) : Prop :=
  match fc with
  | FC_NIL => False
  | FC_FXD_LEN_BIT_ARR a | FC_FXD_LEN_BIT_MAP a _ | FC_FXD_LEN_UINT _ a _ | FC_FXD_LEN_SINT _ a _
  | FC_FXD_LEN_BOOL a | FC_FXD_LEN_FLOAT a => bit_arr_wf a
  | FC_STATIC_LEN_STR _ n | FC_STATIC_LEN_BLOB n _ _ => is_u64 n
  | FC_VAR_LEN_UINT _ _ | FC_VAR_LEN_SINT _ _ | FC_NULL_TERM_STR _ | FC_DYN_LEN_STR _ _
  | FC_DYN_LEN_BLOB _ _ => True
  | FC_STRUCT ms m a =>
      pow2 m /\ struct_align ms m = Some a /\
      (fix all (ms : list (string * actf_fld_cls)) : Prop :=
         match ms with [] => True | (_, c) :: ms' => fc_wf c /\ all ms' end) ms
  | FC_STATIC_LEN_ARR ele m n => pow2 m /\ fc_wf ele /\ is_u64 n
  | FC_DYN_LEN_ARR ele m _ => pow2 m /\ fc_wf ele
  | FC_OPTIONAL c _ rs => fc_wf c /\ rng_set_wf rs
  | FC_VARIANT os _ =>
      (fix all (os : list (option string * actf_fld_cls * actf_rng_set)) : Prop :=
         match os with [] => True | (_, c, rs) :: os' => (fc_wf c /\ rng_set_wf rs) /\ all os' end) os
  end.

(** The classes of the fields that an instance starts with or consists of. *)
Definition parts (fc : actf_fld_cls) : list actf_fld_cls :=
  match fc with
  | FC_STRUCT ms _ _ => map snd ms
  | FC_STATIC_LEN_ARR ele _ _ | FC_DYN_LEN_ARR ele _ _ => [ele]
  | _ => []
  end.

Lemma pow2_max a b : pow2 a -> pow2 b -> pow2 (MAX a b).
Proof. intros Ha Hb. unfold MAX. by destruct (a >? b). Qed.

Lemma struct_align_spec ms acc :
  pow2 acc -> Forall (fun m => exists b, actf_fld_cls_get_align_req (snd m) = Some b /\ pow2 b) ms ->
  exists a, struct_align ms acc = Some a /\ pow2 a /\ acc <= a /\
    Forall (fun m => exists b, actf_fld_cls_get_align_req (snd m) = Some b /\ b <= a) ms.
Proof.
  intros Hacc Hms. revert acc Hacc. induction Hms as [|[nm c] ms (b & Hb & Hp) _ IH]; intros acc Hacc.
  - by exists acc.
  - simpl. cbn in Hb. rewrite Hb. cbn.
    destruct (IH (MAX b acc)) as (a & Ha & Hpa & Hle & Hall); [by apply pow2_max|].
    rewrite MAX_spec in Hle. exists a. split; [done|]. split; [done|]. split; [lia|].
    constructor; [|done]. exists b. split; [done|lia].
Qed.

Lemma align_req_pow2 : forall fc, fc_wf fc ->
  exists a, actf_fld_cls_get_align_req fc = Some a /\ pow2 a.
Proof.
  assert (H8 : pow2 8) by (exists 3; lia). assert (H1 : pow2 1) by (exists 0; lia).
  fix IH 1. intros [| | | | | | | | | | | | | |ms m a|ele m n|ele m l| |]; cbn [fc_wf]; intros Hwf;
    try (by destruct Hwf as [_ Hp]; eexists; split; [reflexivity|]);
    try (by eexists; split; [reflexivity|]).
  - done.
  - destruct Hwf as (Hm & Ha & Hall).
    assert (Hms : Forall (fun mc => exists b, actf_fld_cls_get_align_req (snd mc) = Some b /\ pow2 b) ms).
    { clear Ha. induction ms as [|[nm c] ms IHms]; constructor.
      - apply IH. by destruct Hall.
      - apply IHms. by destruct Hall. }
    destruct (struct_align_spec ms m Hm Hms) as (a' & Ha' & Hp & _).
    exists a. split; [done|]. congruence.
  - destruct Hwf as (Hm & He & _). destruct (IH ele He) as (b & Hb & Hp). cbn. rewrite Hb. cbn.
    eexists. split; [done|]. by apply pow2_max.
  - destruct Hwf as (Hm & He). destruct (IH ele He) as (b & Hb & Hp). cbn. rewrite Hb. cbn.
    eexists. split; [done|]. by apply pow2_max.
Qed.

Lemma struct_members_wf ms :
  (fix all (ms : list (string * actf_fld_cls)) : Prop :=
     match ms with [] => True | (_, c) :: ms' => fc_wf c /\ all ms' end) ms ->
  Forall (fun m => fc_wf (snd m)) ms.
Proof. induction ms as [|[nm c] ms IH]; [done|]. intros [Hc Hms]. constructor; [done|]. by apply IH. Qed.

(** The classes that a class is made of. *)
Definition subs (fc : actf_fld_cls) : list actf_fld_cls :=
  match fc with
  | FC_OPTIONAL c _ _ => [c]
  | FC_VARIANT opts _ => map (fun o => snd (fst o)) opts
  | _ => parts fc
  end.

(** Induction over the classes a class is made of. *)
Lemma fld_cls_ind_subs (P : actf_fld_cls -> Prop) :
  (forall fc, Forall P (subs fc) -> P fc) -> forall fc, P fc.
Proof.
  intros Hstep. fix IH 1. intros fc. apply Hstep.
  destruct fc as [| | | | | | | | | | | | | |ms m a|ele m n|ele m l|c l r|opts l]; cbn; try constructor;
    try (apply IH); try constructor.
  - induction ms as [|[nm c] ms IHms]; cbn; constructor; [apply IH|exact IHms].
  - induction opts as [|[[nm c] rs] opts IHo]; cbn; constructor; [apply IH|exact IHo].
Qed.

Lemma fc_wf_subs fc : fc_wf fc -> Forall fc_wf (subs fc).
Proof.
  destruct fc as [| | | | | | | | | | | | | |ms m a|ele m n|ele m l|c l r|opts l]; cbn; try (by constructor).
  - intros (_ & _ & Hall%struct_members_wf). by apply Forall_map.
  - intros (_ & He & _). by repeat constructor.
  - intros (_ & He). by repeat constructor.
  - intros (He & _). by repeat constructor.
  - induction opts as [|[[nm c] rs] opts IHo]; cbn; [constructor|]. intros [[Hc _] Ho].
    constructor; [done|]. by apply IHo.
Qed.

(** The alignment requirement of a well-formed field class is a power of
    two up to [2^63] (so the alignment loop of the bit reader is well defined),
    and that of a structure or array is at least the alignment requirement of
    every member or element. *)
Theorem get_align_req_spec fc :
  fc_wf fc ->
  exists a, actf_fld_cls_get_align_req fc = Some a /\ pow2 a /\
    Forall (fun p => exists b, actf_fld_cls_get_align_req p = Some b /\ b <= a) (parts fc).
Proof.
  intros Hwf. destruct (align_req_pow2 fc Hwf) as (a & Ha & Hp). exists a. split; [done|]. split; [done|].
  destruct fc as [| | | | | | | | | | | | | |ms m a0|ele m n|ele m l| |]; try constructor; try constructor.
  - destruct Hwf as (Hm & Hsa & Hall%struct_members_wf). cbn in Ha. injection Ha as ->.
    assert (Hms : Forall (fun mc => exists b, actf_fld_cls_get_align_req (snd mc) = Some b /\ pow2 b) ms).
    { eapply Forall_impl; [exact Hall|]. intros mc. apply align_req_pow2. }
    destruct (struct_align_spec ms m Hm Hms) as (a' & Ha' & _ & _ & Hle).
    assert (a' = a) as -> by congruence. cbn. by apply Forall_map.
  - destruct Hwf as (_ & He & _). destruct (align_req_pow2 ele He) as (b & Hb & _).
    exists b. split; [done|]. cbn in Ha. rewrite Hb in Ha. cbn in Ha. injection Ha as <-. rewrite MAX_spec. lia.
  - destruct Hwf as (_ & He). destruct (align_req_pow2 ele He) as (b & Hb & _).
    exists b. split; [done|]. cbn in Ha. rewrite Hb in Ha. cbn in Ha. injection Ha as <-. rewrite MAX_spec. lia.
Qed.

Definition sample_struct : actf_fld_cls :=
  FC_STRUCT [("a", FC_FXD_LEN_BOOL (mk_bit_arr 1 ACTF_LIL_ENDIAN ACTF_FIRST_TO_LAST 4));
             ("b", FC_STATIC_LEN_ARR (FC_NULL_TERM_STR ACTF_ENCODING_UTF8) 16 3)]%string 2 16.

Example get_align_req_spec_witness :
  exists a, actf_fld_cls_get_align_req sample_struct = Some a /\ pow2 a /\
    Forall (fun p => exists b, actf_fld_cls_get_align_req p = Some b /\ b <= a) (parts sample_struct).
Proof.
  apply (get_align_req_spec sample_struct). cbn. split; [by exists 1|]. split; [reflexivity|].
  split; [split; [cbn; lia|by exists 2]|]. split; [|done]. split; [by exists 4|]. done.
Defined.
