(* ===== verification/Metadata.v ===== *)
(** The metadata model of [metadata_int.h] and its accessors in [metadata.c]:
    event classes, data stream classes and the metadata stream, whose classes
    are found by id in the hash maps of [HashMap]. *)
From S2P Require Import Prelude Common HashMap Clock FldCls.
From stdpp Require Import strings.
Open Scope Z_scope.

(** The user attributes and extensions of the classes, and the environment of the
    trace, are left out: they are only handed to the user. *)
Record actf_event_cls := mk_event_cls {
  evc_id : Z;
  evc_dsc_id : Z;
  evc_namespace : option string;
  evc_name : option string;
  evc_uid : option string;
  spec_ctx : actf_fld_cls;
  payload : actf_fld_cls
}.

(** [u64toevc]: event class id to event class. *)
Definition u64toevc : Type := umap Z actf_event_cls.

Record actf_dstream_cls := mk_dstream_cls {
  dsc_id : Z;
  dsc_name : option string;
  dsc_namespace : option string;
  dsc_uid : option string;
  def_clkc_id : option string;
  def_clkc : option actf_clk_cls;
  pkt_ctx : actf_fld_cls;
  event_hdr : actf_fld_cls;
  event_common_ctx : actf_fld_cls;
  idtoevc : u64toevc
}.

(** [u64todsc]: data stream class id to data stream class. *)
Definition u64todsc : Type := umap Z actf_dstream_cls.

Record actf_preamble := mk_preamble { version : Z; uuid : list Z; has_uuid : bool }.

Record actf_trace_cls := mk_trace_cls {
  tc_namespace : option string; tc_name : option string; tc_uid : option string;
  pkt_hdr : actf_fld_cls
}.

Record actf_metadata := mk_metadata {
  preamble : actf_preamble;
  fld_cls_aliases : list (string * actf_fld_cls);
  trace_cls : actf_trace_cls;
  clk_clses : list actf_clk_cls;
  idtodsc : u64todsc;
  preamble_is_set : bool;
  trace_cls_is_set : bool
}.

(** * Accessors (metadata.c) *)

Fixpoint find_alias (aliases : list (string * actf_fld_cls)) (name : string) : option actf_fld_cls :=
  match aliases with
  | [] => None
  | (n, fc) :: aliases' => if bool_decide (n = name) then Some fc else find_alias aliases' name
  end.

Definition actf_metadata_find_fld_cls_alias (m : actf_metadata) (name : string) : option actf_fld_cls :=
  find_alias (fld_cls_aliases m) name.

Definition u64todsc_find (m : u64todsc) (id : Z) : outcome (option actf_dstream_cls) :=
  map_find hash_uint64 uint64cmp m id.

Definition u64toevc_find (m : u64toevc) (id : Z) : outcome (option actf_event_cls) :=
  map_find hash_uint64 uint64cmp m id.

Definition actf_dstream_cls_clk_cls (dsc : actf_dstream_cls) : option actf_clk_cls := def_clkc dsc.

Definition actf_dstream_cls_pkt_ctx (dsc : actf_dstream_cls) : actf_fld_cls := pkt_ctx dsc.
Definition actf_dstream_cls_event_hdr (dsc : actf_dstream_cls) : actf_fld_cls := event_hdr dsc.
Definition actf_dstream_cls_event_common_ctx (dsc : actf_dstream_cls) : actf_fld_cls := event_common_ctx dsc.
Definition actf_event_cls_spec_ctx (evc : actf_event_cls) : actf_fld_cls := spec_ctx evc.
Definition actf_event_cls_payload (evc : actf_event_cls) : actf_fld_cls := payload evc.
