(* ===== verification/MetadataAccess.v ===== *)
(** The accessors of the metadata, [metadata.c] and [metadata.h]: what a user of
    the library reads of parsed metadata.

    Attributes, extensions, the environment and the pointers from a class to the
    metadata that holds it are not in the model.  The theorem: the iterators over
    data stream classes and event classes give every class of the maps once. *)
From S2P Require Import Prelude Common HashMap Clock FldCls Metadata.
From stdpp Require Import strings.
Open Scope Z_scope.

(** * Preamble, trace class, aliases *)

Definition actf_metadata_preamble (m : actf_metadata) : option actf_preamble :=
  if preamble_is_set m then Some (preamble m) else None.
Definition actf_preamble_uuid (p : actf_preamble) : option (list Z) := if has_uuid p then Some (uuid p) else None.

Definition actf_metadata_trace_cls (m : actf_metadata) : option actf_trace_cls :=
  if trace_cls_is_set m then Some (trace_cls m) else None.
Definition actf_trace_cls_namespace (tc : actf_trace_cls) : option string := tc_namespace tc.
Definition actf_trace_cls_name (tc : actf_trace_cls) : option string := tc_name tc.
Definition actf_trace_cls_uid (tc : actf_trace_cls) : option string := tc_uid tc.
Definition actf_trace_cls_pkt_hdr (tc : actf_trace_cls) : actf_fld_cls := pkt_hdr tc.

(** An index out of range is undefined. *)
Definition vec_idx {A} (l : list A) (i : nat) : outcome A := match l !! i with Some a => Ok a | None => Undef end.

Definition actf_metadata_fld_cls_aliases_len (m : actf_metadata) : Z := Z.of_nat (length (fld_cls_aliases m)).
Definition actf_metadata_fld_cls_aliases_idx (m : actf_metadata) (i : nat) : outcome (string * actf_fld_cls) :=
  vec_idx (fld_cls_aliases m) i.
Definition actf_fld_cls_alias_name (a : string * actf_fld_cls) : string := fst a.
Definition actf_fld_cls_alias_fld_cls (a : string * actf_fld_cls) : actf_fld_cls := snd a.

(** * Clock classes *)

Definition actf_metadata_clk_clses_len (m : actf_metadata) : Z := Z.of_nat (length (clk_clses m)).
Definition actf_metadata_clk_clses_idx (m : actf_metadata) (i : nat) : outcome actf_clk_cls := vec_idx (clk_clses m) i.

Definition actf_clk_cls_id (c : actf_clk_cls) : option string := clk_id c.
Definition actf_clk_cls_namespace (c : actf_clk_cls) : option string := clk_namespace c.
Definition actf_clk_cls_name (c : actf_clk_cls) : option string := clk_name c.
Definition actf_clk_cls_uid (c : actf_clk_cls) : option string := clk_uid c.
Definition actf_clk_cls_frequency (c : actf_clk_cls) : Z := freq c.
Definition actf_clk_cls_origin (c : actf_clk_cls) : actf_clk_origin := Clock.origin c.
Definition actf_clk_cls_offset (c : actf_clk_cls) : actf_clk_offset := off_from_origin c.
Definition actf_clk_cls_precision (c : actf_clk_cls) : Z := default 0 (precision c).
Definition actf_clk_cls_has_precision (c : actf_clk_cls) : bool := match precision c with Some _ => true | None => false end.
Definition actf_clk_cls_accuracy (c : actf_clk_cls) : Z := default 0 (accuracy c).
Definition actf_clk_cls_has_accuracy (c : actf_clk_cls) : bool := match accuracy c with Some _ => true | None => false end.

Definition actf_clk_origin_custom_namespace (o : actf_clk_origin) : option string :=
  match o with ACTF_CLK_ORIGIN_TYPE_CUSTOM namespace _ _ => namespace | _ => None end.
Definition actf_clk_origin_custom_name (o : actf_clk_origin) : option string :=
  match o with ACTF_CLK_ORIGIN_TYPE_CUSTOM _ name _ => Some name | _ => None end.
Definition actf_clk_origin_custom_uid (o : actf_clk_origin) : option string :=
  match o with ACTF_CLK_ORIGIN_TYPE_CUSTOM _ _ uid => Some uid | _ => None end.
Definition actf_clk_offset_seconds (o : actf_clk_offset) : Z := seconds o.
Definition actf_clk_offset_cycles (o : actf_clk_offset) : Z := cycles o.

(** * Data stream and event classes *)

(** A step of an iterator: the next value of the map, if there is one, and the
    position after it. *)
Definition map_next {V} (m : umap Z V) (it : Z) : option V * Z :=
  match map_foreach m it with
  | Ok (_, v, it') => (Some v, it')
  | _ => (None, Z.max it (m_cap m))
  end.

Definition actf_metadata_dstream_clses_len (m : actf_metadata) : Z := m_len (idtodsc m).
Definition actf_metadata_dstream_clses_next (m : actf_metadata) (it : Z) : option actf_dstream_cls * Z := map_next (idtodsc m) it.

Definition actf_dstream_cls_id (d : actf_dstream_cls) : Z := dsc_id d.
Definition actf_dstream_cls_namespace (d : actf_dstream_cls) : option string := dsc_namespace d.
Definition actf_dstream_cls_name (d : actf_dstream_cls) : option string := dsc_name d.
Definition actf_dstream_cls_uid (d : actf_dstream_cls) : option string := dsc_uid d.
Definition actf_dstream_cls_clk_cls_id (d : actf_dstream_cls) : option string := def_clkc_id d.
Definition actf_dstream_cls_event_clses_len (d : actf_dstream_cls) : Z := m_len (idtoevc d).
Definition actf_dstream_cls_event_clses_next (d : actf_dstream_cls) (it : Z) : option actf_event_cls * Z := map_next (idtoevc d) it.

Definition actf_event_cls_id (e : actf_event_cls) : Z := evc_id e.
Definition actf_event_cls_dstream_cls_id (e : actf_event_cls) : Z := evc_dsc_id e.
Definition actf_event_cls_namespace (e : actf_event_cls) : option string := evc_namespace e.
Definition actf_event_cls_name (e : actf_event_cls) : option string := evc_name e.
Definition actf_event_cls_uid (e : actf_event_cls) : option string := evc_uid e.

(** * Iteration *)

(** The calls of an iterator until it gives nothing. *)
Fixpoint iterate {V} (next : Z -> option V * Z) (fuel : nat) (it : Z) : list V :=
  match fuel with
  | O => []
  | S fuel' => match next it with (Some v, it') => v :: iterate next fuel' it' | (None, _) => [] end
  end.

Lemma foreach_loop_spec {K V} (sl : list (option (map_entry K V))) i :
  match foreach_loop sl i with
  | Ok (_, v, i') => exists e n, i' = i + Z.of_nat n + 1 /\ omap id sl = e :: omap id (drop (S n) sl) /\ e_val e = v
  | Err _ => omap id sl = []
  | Undef => False
  end.
Proof.
  revert i. induction sl as [|[e|] sl IH]; intros i; cbn [foreach_loop]; [done|exists e, O; split; [lia|done]|].
  specialize (IH (i + 1)). destruct (foreach_loop sl (i + 1)) as [[[k v] i']|rc|]; [|done|done].
  destruct IH as (e & n & -> & He & Hv). exists e, (S n). split; [lia|]. done.
Qed.

Lemma iterate_entries {V} (m : umap Z V) fuel (it : nat) : (length (omap id (drop it (slots m))) < fuel)%nat ->
  iterate (map_next m) fuel (Z.of_nat it) = map (fun e => e_val e) (omap id (drop it (slots m))).
Proof.
  revert it. induction fuel as [|fuel IH]; intros it Hf; [lia|]. cbn [iterate]. unfold map_next, map_foreach. rewrite Nat2Z.id.
  pose proof (foreach_loop_spec (drop it (slots m)) (Z.of_nat it)) as Hs.
  destruct (foreach_loop _ _) as [[[k v] it']|rc|]; [|by rewrite Hs|done].
  destruct Hs as (e & n & -> & He & <-). rewrite drop_drop in He.
  replace (Z.of_nat it + Z.of_nat n + 1) with (Z.of_nat (it + S n)) by lia.
  rewrite IH by (rewrite He in Hf; cbn in Hf; lia). by rewrite He.
Qed.

(** The data stream classes and the event classes of one, as a user of the
    library gets them: the values of the entries of the map, each once. *)
Lemma dstream_clses_all m fuel : (length (entries (idtodsc m)) < fuel)%nat ->
  iterate (actf_metadata_dstream_clses_next m) fuel 0 = map (fun e => e_val e) (entries (idtodsc m)).
Proof. intros Hf. apply (iterate_entries (idtodsc m) fuel O). by rewrite drop_0. Qed.

Lemma event_clses_all d fuel : (length (entries (idtoevc d)) < fuel)%nat ->
  iterate (actf_dstream_cls_event_clses_next d) fuel 0 = map (fun e => e_val e) (entries (idtoevc d)).
Proof. intros Hf. apply (iterate_entries (idtoevc d) fuel O). by rewrite drop_0. Qed.
