(* ===== verification/Json.v ===== *)
(** The interface to the json-c library, and allocation in the parsers.

    The parsers of actf work on [struct json_object]s of json-c, which is not
    part of the repository.  [JsonC] is the part of its interface that they call,
    over any type of JSON values, and [JsonCLaws] what its documentation promises
    of it: an integer is one of [INT64_MIN .. UINT64_MAX] and is clamped to the
    type it is read as, and a value is a finite tree.  [jval] is an instance for
    concrete examples. *)
From S2P Require Import Prelude Common Rng.
From stdpp Require Import strings.
Open Scope Z_scope.

(** * The json-c interface *)

Inductive json_type :=
| json_type_null | json_type_boolean | json_type_double | json_type_int
| json_type_object | json_type_array | json_type_string.

#[export] Instance json_type_eq_dec : EqDecision json_type.
Proof. solve_decision. Defined.

(** [json_object_object_get_ex] is [None] when the key is not in the object (or
    the value is not an object); [json_object_object_foreach] is the members in the
    order of the iteration; [json_object_array] is the elements, by which
    [json_object_array_length] and [json_object_array_get_idx] are given.  The JSON
    null value is a value like the others (json-c represents it by a null
    pointer, which its functions accept).  [json_object_get_string] is the C
    string up to the first null byte and [json_object_get_string_bytes] all of it;
    a double is its bit pattern.  [json_depth] is the nesting depth, which the
    code does not compute: it bounds the recursion of the parsers. *)
Class JsonC (json : Type) := {
  json_object_get_type : json -> json_type;
  json_object_object_get_ex : json -> string -> option json;
  json_object_object_foreach : json -> list (string * json);
  json_object_array : json -> list json;
  json_object_get_string : json -> string;
  json_object_get_string_bytes : json -> string;
  json_object_get_int : json -> Z;
  json_object_get_int64 : json -> Z;
  json_object_get_uint64 : json -> Z;
  json_object_get_boolean : json -> bool;
  json_object_get_double : json -> Z;
  json_depth : json -> nat
}.

(** The value of a JSON integer, determined by its two readings. *)
Definition json_int {json} `{JsonC json} (j : json) (v : Z) : Prop :=
  INT64_MIN <= v <= UINT64_MAX /\
  json_object_get_int64 j = Z.min v INT64_MAX /\ json_object_get_uint64 j = Z.max v 0.

Class JsonCLaws (json : Type) `{JsonC json} : Prop := {
  json_int_value j : json_object_get_type j = json_type_int ->
    exists v, json_int j v;
  json_get_depth j key c : json_object_object_get_ex j key = Some c -> (json_depth c < json_depth j)%nat;
  json_foreach_depth j m : m ∈ json_object_object_foreach j -> (json_depth (snd m) < json_depth j)%nat;
  json_array_depth j c : c ∈ json_object_array j -> (json_depth c < json_depth j)%nat
}.

Definition json_object_is_type {json} `{JsonC json} (j : json) (ty : json_type) : bool :=
  bool_decide (json_object_get_type j = ty).

(** * Allocation

    [malloc_ok n] says whether the [n]-th [malloc] of a run succeeds; the state of
    a parser is the number of them so far.  [junk_srng] and [junk_urng] are what
    memory reads that was allocated and not written. *)
Class Heap := { malloc_ok : nat -> bool; junk_srng : srng; junk_urng : urng }.

Definition heap_ok : Heap :=
  {| malloc_ok := fun _ => true; junk_srng := mk_srng 0 0; junk_urng := mk_urng 0 0 |}.

Definition some_malloc_fails `{Heap} : Prop := exists n, malloc_ok n = false.

Section Alloc.
Context `{Heap}.

(** [p = malloc(...); if (!p) return ACTF_OOM;]. *)
Definition malloc : st nat unit := fun n => if malloc_ok n then (Ok tt, S n) else (Err ACTF_OOM, S n).

(** A [malloc] whose result is used without a check. *)
Definition malloc_unchk : st nat unit := fun n => if malloc_ok n then (Ok tt, S n) else (Undef, S n).

(** [c_strdup(s)], whose result is never checked: a null pointer where a string
    is expected is undefined from there on. *)
Definition c_strdup (s : string) : st nat string := malloc_unchk;; mret s.

(** [s ? c_strdup(s) : NULL]. *)
Definition c_strdup_opt (s : option string) : st nat (option string) :=
  match s with None => mret None | Some s => s' ← c_strdup s; mret (Some s') end.

(** [(rc = c) < 0 && rc != ACTF_NOT_FOUND]: any other error is returned; when the
    key is not found the result is [None]. *)
Definition unless_not_found {S A} (c : st S A) : st S (option A) := fun s =>
  match c s with
  | (Ok a, s') => (Ok (Some a), s')
  | (Err rc, s') => if rc =? ACTF_NOT_FOUND then (Ok None, s') else (Err rc, s')
  | (Undef, s') => (Undef, s')
  end.

(** The same where a key that is not found is [ACTF_MISSING_PROPERTY]. *)
Definition required {S A} (c : st S A) : st S A :=
  o ← unless_not_found c;
  match o with Some a => mret a | None => st_fail ACTF_MISSING_PROPERTY end.

(** Another error in the place of that of [c]. *)
Definition map_err {S A} (f : Z -> outcome A) (c : st S A) : st S A := fun s =>
  match c s with
  | (Err rc, s') => (f rc, s')
  | r => r
  end.

Lemma Forall2_const_l {A B} (Q : B -> Prop) (l : list A) (k : list B) : Forall2 (fun _ => Q) l k -> Forall Q k.
Proof. induction 1; by constructor. Qed.

(** ** Postconditions *)

Lemma sat_map_err {S A} (Q : A -> Prop) (E E' : Z -> Prop) (U : Prop) f (c : st S A) :
  sat Q E U c -> (forall rc, E rc -> match f rc with Ok a => Q a | Err rc => E' rc | Undef => U end) ->
  sat Q E' U (map_err f c).
Proof. intros Hc Hf s. unfold map_err. specialize (Hc s). destruct (c s) as [[a|rc|] s']; cbn in *; [done|by apply Hf|done]. Qed.

Lemma sat_malloc (E : Z -> Prop) (U : Prop) :
  (some_malloc_fails -> E ACTF_OOM) -> sat (fun _ => True) E U malloc.
Proof. intros HE n. unfold malloc. destruct (malloc_ok n) eqn:Hn; cbn; [done|]. apply HE. by exists n. Qed.

Lemma sat_malloc_unchk E (U : Prop) : (some_malloc_fails -> U) -> sat (fun _ => True) E U malloc_unchk.
Proof. intros HU n. unfold malloc_unchk. destruct (malloc_ok n) eqn:Hn; cbn; [done|]. apply HU. by exists n. Qed.

Lemma sat_strdup E (U : Prop) s : (some_malloc_fails -> U) -> sat (fun s' => s' = s) E U (c_strdup s).
Proof. intros HU. eapply sat_bind; [by apply sat_malloc_unchk|]. intros _ _. by apply sat_ret. Qed.

Lemma sat_strdup_opt E (U : Prop) s : (some_malloc_fails -> U) -> sat (fun s' => s' = s) E U (c_strdup_opt s).
Proof.
  intros HU. destruct s as [s|]; [|by apply sat_ret]. eapply sat_bind; [by apply sat_strdup|].
  intros s' ->. by apply sat_ret.
Qed.

Lemma sat_unless_not_found {S A} (Q : A -> Prop) (E : Z -> Prop) U (c : st S A) :
  sat Q (fun rc => rc <> ACTF_NOT_FOUND -> E rc) U c ->
  sat (fun o => match o with Some a => Q a | None => True end) E U (unless_not_found c).
Proof.
  intros Hc s. unfold unless_not_found. specialize (Hc s). destruct (c s) as [[a|rc|] s']; cbn in *; [done| |done].
  destruct (Z.eqb_spec rc ACTF_NOT_FOUND); [done|]. by apply Hc.
Qed.

Lemma sat_required {S A} (Q : A -> Prop) (E : Z -> Prop) U (c : st S A) :
  E ACTF_MISSING_PROPERTY -> sat Q (fun rc => rc <> ACTF_NOT_FOUND -> E rc) U c -> sat Q E U (required c).
Proof.
  intros HE Hc. eapply sat_bind; [by apply sat_unless_not_found|]. intros [a|] Ha; [by apply sat_ret|by apply sat_fail].
Qed.

(** ** Runs without failing allocations *)

(** [gives o c]: from every state, [c] has the outcome [o]. *)
Definition gives {A} (o : outcome A) (c : st nat A) : Prop := forall n, fst (c n) = o.

Lemma gives_ret {A} (a : A) : gives (Ok a) (mret a).
Proof. done. Qed.
Lemma gives_fail {A} rc : gives (A := A) (Err rc) (st_fail rc).
Proof. done. Qed.

Lemma gives_bind {A B} a (o : outcome B) (m : st nat A) k : gives (Ok a) m -> gives o (k a) -> gives o (m ≫= k).
Proof. intros Hm Hk n. unfold mbind, st_bind. specialize (Hm n). destruct (m n) as [r n']. cbn in Hm. subst r. apply Hk. Qed.

Lemma gives_bind_err {A B} rc (m : st nat A) (k : A -> st nat B) : gives (Err rc) m -> gives (Err rc) (m ≫= k).
Proof. intros Hm n. unfold mbind, st_bind. specialize (Hm n). destruct (m n) as [r n']. cbn in Hm. by subst r. Qed.

Lemma bind_undef {S A B} (m : st S A) (k : A -> st S B) s : fst (m s) = Undef -> fst ((m ≫= k) s) = Undef.
Proof. unfold mbind, st_bind. destruct (m s) as [r s']. cbn. by intros ->. Qed.

Lemma gives_unless_not_found {A} (o : outcome A) (c : st nat A) : gives o c ->
  gives (match o with
         | Ok a => Ok (Some a)
         | Err rc => if rc =? ACTF_NOT_FOUND then Ok None else Err rc
         | Undef => Undef
         end) (unless_not_found c).
Proof. intros Hc n. unfold unless_not_found. specialize (Hc n). destruct (c n) as [r n']. cbn in Hc. subst r. by repeat case_match. Qed.

Lemma gives_map_err {A} f (o : outcome A) (c : st nat A) : gives o c ->
  gives (match o with Err rc => f rc | _ => o end) (map_err f c).
Proof. intros Hc n. unfold map_err. specialize (Hc n). destruct (c n) as [r n']. cbn in Hc. subst r. by case_match. Qed.

Lemma gives_mapM {A B} (f : A -> st nat B) l k : Forall2 (fun x b => gives (Ok b) (f x)) l k -> gives (Ok k) (mapM f l).
Proof. induction 1 as [|x b l k Hx _ IH]; cbn; [done|]. eapply gives_bind; [done|]. by eapply gives_bind. Qed.

Lemma gives_mapM_err {A B} (f : A -> st nat B) rc l :
  Forall (fun x => (exists b, gives (Ok b) (f x)) \/ gives (Err rc) (f x)) l -> Exists (fun x => gives (Err rc) (f x)) l ->
  gives (Err rc) (mapM f l).
Proof.
  induction 1 as [|x l [[b Hb]|He] _ IH]; intros Hl; [by inversion Hl| |]; cbn.
  - eapply gives_bind; [done|]. apply gives_bind_err, IH. inversion Hl as [? ? He|]; [|done].
    specialize (Hb O). specialize (He O). congruence.
  - by apply gives_bind_err.
Qed.

Section NoFail.
Hypothesis Hok : ~ some_malloc_fails.

Lemma malloc_always n : malloc_ok n = true.
Proof. destruct (malloc_ok n) eqn:E; [done|]. exfalso. apply Hok. by exists n. Qed.

Lemma gives_malloc : gives (Ok tt) malloc.
Proof. intros n. unfold malloc. by rewrite malloc_always. Qed.
Lemma gives_malloc_unchk : gives (Ok tt) malloc_unchk.
Proof. intros n. unfold malloc_unchk. by rewrite malloc_always. Qed.
Lemma gives_strdup s : gives (Ok s) (c_strdup s).
Proof. eapply gives_bind; [apply gives_malloc_unchk|done]. Qed.
Lemma gives_strdup_opt s : gives (Ok s) (c_strdup_opt s).
Proof. destruct s; [|done]. eapply gives_bind; [apply gives_strdup|done]. Qed.
End NoFail.

(** ** Parsers

    The errors of a parser are the codes of [types.h].  It is undefined only where an
    allocation fails that it does not check, or in a case of its own, [may_break]. *)
Class MayBreak := may_break : Prop.
Context `{MayBreak}.

Definition is_err (rc : Z) : Prop := ACTF_INVALID_METADATA_PKT <= rc <= ACTF_ERROR.
Definition parses {A} (Q : A -> Prop) (c : st nat A) : Prop := sat Q is_err (some_malloc_fails \/ may_break) c.

Lemma parses_ret {A} (Q : A -> Prop) a : Q a -> parses Q (mret a).
Proof. apply sat_ret. Qed.
Lemma parses_fail {A} (Q : A -> Prop) rc : is_err rc -> parses Q (st_fail rc).
Proof. apply sat_fail. Qed.
Lemma parses_bind {A B} (R : A -> Prop) (Q : B -> Prop) (m : st nat A) (k : A -> st nat B) :
  parses R m -> (forall a, R a -> parses Q (k a)) -> parses Q (m ≫= k).
Proof. apply sat_bind. Qed.
Lemma parses_post {A} (Q Q' : A -> Prop) (c : st nat A) : parses Q c -> (forall a, Q a -> Q' a) -> parses Q' c.
Proof. apply sat_post. Qed.
Lemma parses_malloc : parses (fun _ => True) malloc.
Proof. apply sat_malloc. intros _. unfold is_err, ACTF_OOM, ACTF_ERROR, ACTF_INVALID_METADATA_PKT. lia. Qed.
Lemma parses_malloc_unchk : parses (fun _ => True) malloc_unchk.
Proof. apply sat_malloc_unchk. by left. Qed.
Lemma parses_strdup s : parses (fun s' => s' = s) (c_strdup s).
Proof. apply sat_strdup. by left. Qed.
Lemma parses_strdup_opt s : parses (fun s' => s' = s) (c_strdup_opt s).
Proof. apply sat_strdup_opt. by left. Qed.
Lemma parses_unless_not_found {A} (Q : A -> Prop) (c : st nat A) :
  parses Q c -> parses (fun o => match o with Some a => Q a | None => True end) (unless_not_found c).
Proof. intros Hc. apply sat_unless_not_found. by eapply sat_mono. Qed.
Lemma parses_required {A} (Q : A -> Prop) (c : st nat A) : parses Q c -> parses Q (required c).
Proof.
  intros Hc. apply sat_required; [|by eapply sat_mono].
  unfold is_err, ACTF_MISSING_PROPERTY, ACTF_ERROR, ACTF_INVALID_METADATA_PKT. lia.
Qed.
Lemma parses_mapM {A B} (R : A -> B -> Prop) (f : A -> st nat B) l :
  (forall x, x ∈ l -> parses (R x) (f x)) -> parses (Forall2 R l) (mapM f l).
Proof. intros Hf. apply sat_mapM, Forall_forall, Hf. Qed.

(** The results of a mapped parser, when its postcondition does not depend on
    the argument. *)
Lemma parses_mapM_all {A B} (Q : B -> Prop) (f : A -> st nat B) l :
  (forall x, x ∈ l -> parses Q (f x)) -> parses (Forall Q) (mapM f l).
Proof.
  intros Hf. eapply parses_post; [by apply (parses_mapM (fun _ => Q))|]. intros k Hk. by apply (Forall2_const_l Q l).
Qed.
End Alloc.

Create HintDb parses.
#[export] Hint Resolve parses_malloc parses_malloc_unchk parses_strdup parses_strdup_opt
  parses_unless_not_found parses_required : parses.

(** [is_err] of a code. *)
Ltac is_err := first [done | unfold is_err; split; vm_compute; discriminate].

(** One step of a parser: a return or failure, a case of a test, or a call, whose
    postcondition the hint database knows. *)
Ltac parses_step :=
  match goal with
  | |- parses _ (mret _) => apply parses_ret
  | |- parses _ (st_fail _) => apply parses_fail; is_err
  | |- parses _ (match ?x with _ => _ end) => destruct x eqn:?
  | |- parses _ (_ ≫= _) => eapply parses_bind; [solve [eauto with parses]|let Hp := fresh "Hp" in intros ? Hp; cbv beta in Hp]
  end.
Ltac parses_auto := repeat (cbv beta zeta; parses_step; destruct_and?; simplify_eq).

(** * A concrete instance *)

Inductive jval :=
| JNull
| JBool (b : bool)
| JDouble (bits : Z)
| JInt (v : Z)
| JObj (members : list (string * jval))
| JArr (elems : list jval)
| JStr (s : string).

Fixpoint jval_depth (j : jval) : nat :=
  match j with
  | JObj ms => S (foldr (fun m => Nat.max (jval_depth (snd m))) O ms)
  | JArr es => S (foldr (fun e => Nat.max (jval_depth e)) O es)
  | _ => O
  end.

Fixpoint assoc {A} (l : list (string * A)) (key : string) : option A :=
  match l with
  | [] => None
  | (k, a) :: l' => if bool_decide (k = key) then Some a else assoc l' key
  end.

(** A C string ends at the first null byte. *)
Fixpoint c_str (s : string) : string :=
  match s with
  | EmptyString => EmptyString
  | String c s' => if Ascii.eqb c Ascii.zero then EmptyString else String c (c_str s')
  end.

Definition clamp (lo hi x : Z) : Z := Z.max lo (Z.min hi x).

#[export] Instance jval_json : JsonC jval := {
  json_object_get_type j := match j with
    | JNull => json_type_null | JBool _ => json_type_boolean | JDouble _ => json_type_double
    | JInt _ => json_type_int | JObj _ => json_type_object | JArr _ => json_type_array
    | JStr _ => json_type_string end;
  json_object_object_get_ex j key := match j with JObj ms => assoc ms key | _ => None end;
  json_object_object_foreach j := match j with JObj ms => ms | _ => [] end;
  json_object_array j := match j with JArr es => es | _ => [] end;
  json_object_get_string j := match j with JStr s => c_str s | _ => ""%string end;
  json_object_get_string_bytes j := match j with JStr s => s | _ => ""%string end;
  json_object_get_int j := match j with JInt v => clamp (- 2 ^ 31) (2 ^ 31 - 1) v | _ => 0 end;
  json_object_get_int64 j := match j with JInt v => clamp INT64_MIN INT64_MAX v | _ => 0 end;
  json_object_get_uint64 j := match j with JInt v => clamp 0 UINT64_MAX v | _ => 0 end;
  json_object_get_boolean j := match j with JBool b => b | _ => false end;
  json_object_get_double j := match j with JDouble b => b | _ => 0 end;
  json_depth := jval_depth
}.

Lemma assoc_elem {A} (l : list (string * A)) key a : assoc l key = Some a -> (key, a) ∈ l.
Proof.
  induction l as [|[k b] l IH]; cbn; [done|]. case_bool_decide as Hk; intros Ha.
  - simplify_eq. by left.
  - right. by apply IH.
Qed.

Lemma foldr_max_elem {A} (f : A -> nat) l x : x ∈ l -> (f x <= foldr (fun y => Nat.max (f y)) O l)%nat.
Proof. induction 1; cbn; lia. Qed.

#[export] Instance jval_laws : JsonCLaws jval.
Proof.
  assert (Hobj : forall ms m, m ∈ ms -> (jval_depth (snd m) < jval_depth (JObj ms))%nat).
  { intros ms m Hm. cbn. pose proof (foldr_max_elem (fun m => jval_depth (snd m)) ms m Hm). lia. }
  split.
  - intros [| | |v| | |]; try done. intros _. exists (clamp INT64_MIN UINT64_MAX v). unfold json_int. cbn.
    unfold clamp, INT64_MIN, INT64_MAX, UINT64_MAX. lia.
  - intros [| | | |ms| |] key c Hc; try done. cbn in Hc. apply assoc_elem in Hc. apply (Hobj ms _ Hc).
  - intros [| | | |ms| |] m Hm; try by apply not_elem_of_nil in Hm. by apply Hobj.
  - intros [| | | | |es|] c Hc; try by apply not_elem_of_nil in Hc. cbn in *.
    pose proof (foldr_max_elem jval_depth es c Hc). lia.
Qed.
