(* ===== verification/CtfJson.v ===== *)
(** JSON values as fields, [ctfjson.c]: the user attributes, the extensions and
    the environment of the metadata.

    A first pass generates a field class from a JSON value and a second one the
    field of that class.  The theorem: the two passes agree, so that conversion
    cannot fail but for memory, and what they give is the table of [ctfjson.h],
    with one difference: the elements of an array all have one name. *)
From S2P Require Import Prelude Common Rng FldCls Json.
From stdpp Require Import strings.
Open Scope Z_scope.

(** * Fields of JSON values

    A field with its class; its strings are copies of the JSON strings, not
    positions in a data stream.  The pointer to the parent and the vectors that
    own the allocations are left out. *)
Inductive ctf_fld := mk_ctf_fld (ctf_cls : actf_fld_cls) (ctf_d : ctf_fld_d)
with ctf_fld_d :=
| CTF_NIL
| CTF_BOOL (val : bool)
| CTF_SINT (val : Z)
| CTF_UINT (val : Z)
| CTF_REAL (val : Z)
| CTF_STR (ptr : string) (len : Z)
| CTF_STRUCT (vals : list ctf_fld).

Definition ctf_cls (f : ctf_fld) : actf_fld_cls := let '(mk_ctf_fld c _) := f in c.
Definition ctf_d (f : ctf_fld) : ctf_fld_d := let '(mk_ctf_fld _ d) := f in d.

(** The members of a structure, by the accessors of [fld.c]. *)
Definition ctf_members (f : ctf_fld) : list (string * ctf_fld) :=
  match ctf_cls f, ctf_d f with
  | FC_STRUCT ms _ _, CTF_STRUCT vals => zip (map fst ms) vals
  | _, _ => []
  end.

(** [DEFAULT_ALIGNMENT], [DEFAULT_DISPLAY_BASE] and [DEFAULT_ENCODING]. *)
Definition DEFAULT_ALIGNMENT : Z := 1.
Definition DEFAULT_DISPLAY_BASE : actf_base := ACTF_BASE_DECIMAL.
Definition DEFAULT_ENCODING : actf_encoding := ACTF_ENCODING_UTF8.

(** The members of a designated initialiser that are not given are zero. *)
Definition json_bits (n : Z) : fxd_len_bit_arr_fld_cls :=
  mk_bit_arr n ACTF_LIL_ENDIAN ACTF_FIRST_TO_LAST DEFAULT_ALIGNMENT.
Definition json_int_base : int_fld_cls := mk_int_fld_cls DEFAULT_DISPLAY_BASE zero_mappings.

Section CtfJson.
Context {json : Type} `{JsonC json, Heap}.

(** [snprintf] with the format [PRIu64], which is the length modifier and
    conversion "lu" without the percent sign. *)
Definition uitoa (i : Z) : st nat string := malloc_unchk;; mret "lu"%string.

(** One pass of the recursion per unit of fuel. *)
Fixpoint fld_cls_from_json (fuel : nat) (jobj : json) : st nat actf_fld_cls :=
  match fuel with
  | O => st_undef
  | S fuel' =>
      match json_object_get_type jobj with
      | json_type_null => mret FC_NIL
      | json_type_boolean => mret (FC_FXD_LEN_BOOL (json_bits 1))
      | json_type_double => mret (FC_FXD_LEN_FLOAT (json_bits 64))
      | json_type_int =>
          if json_object_get_int64 jobj <? 0 then mret (FC_FXD_LEN_SINT json_int_base (json_bits 64) 0)
          else mret (FC_FXD_LEN_UINT json_int_base (json_bits 64) 0)
      | json_type_object =>
          malloc;;
          clses ← mapM (fun m => cls ← fld_cls_from_json fuel' (snd m); name ← c_strdup (fst m); mret (name, cls))
                    (json_object_object_foreach jobj);
          mret (FC_STRUCT clses DEFAULT_ALIGNMENT 0)
      | json_type_array =>
          malloc;;
          clses ← mapM (fun ie => cls ← fld_cls_from_json fuel' (snd ie); name ← uitoa (Z.of_nat (fst ie)); mret (name, cls))
                    (imap pair (json_object_array jobj));
          mret (FC_STRUCT clses DEFAULT_ALIGNMENT 0)
      | json_type_string => mret (FC_NULL_TERM_STR ACTF_ENCODING_UTF8)
      end
  end.

Fixpoint fld_from_json (fuel : nat) (jobj : json) (fc : actf_fld_cls) : st nat ctf_fld :=
  match fuel with
  | O => st_undef
  | S fuel' =>
      match json_object_get_type jobj with
      | json_type_null =>
          if bool_decide (type_of fc = ACTF_FLD_CLS_NIL) then mret (mk_ctf_fld fc CTF_NIL) else st_fail ACTF_INTERNAL
      | json_type_boolean =>
          if bool_decide (type_of fc = ACTF_FLD_CLS_FXD_LEN_BOOL) then
            mret (mk_ctf_fld fc (CTF_BOOL (json_object_get_boolean jobj)))
          else st_fail ACTF_INTERNAL
      | json_type_double =>
          if bool_decide (type_of fc = ACTF_FLD_CLS_FXD_LEN_FLOAT) then
            mret (mk_ctf_fld fc (CTF_REAL (json_object_get_double jobj)))
          else st_fail ACTF_INTERNAL
      | json_type_int =>
          match type_of fc with
          | ACTF_FLD_CLS_FXD_LEN_SINT | ACTF_FLD_CLS_VAR_LEN_SINT =>
              mret (mk_ctf_fld fc (CTF_SINT (json_object_get_int64 jobj)))
          | ACTF_FLD_CLS_FXD_LEN_UINT | ACTF_FLD_CLS_VAR_LEN_UINT =>
              mret (mk_ctf_fld fc (CTF_UINT (json_object_get_uint64 jobj)))
          | _ => st_fail ACTF_INTERNAL
          end
      | json_type_object =>
          match fc with
          | FC_STRUCT member_clses _ _ =>
              let ms := json_object_object_foreach jobj in
              if negb (length ms =? length member_clses)%nat then st_fail ACTF_INTERNAL
              else
                malloc;;
                vals ← mapM (fun mm =>
                          if bool_decide (fst (fst mm) = fst (snd mm)) then fld_from_json fuel' (snd (fst mm)) (snd (snd mm))
                          else st_fail ACTF_INTERNAL) (zip ms member_clses);
                mret (mk_ctf_fld fc (CTF_STRUCT vals))
          | _ => st_fail ACTF_INTERNAL
          end
      | json_type_array =>
          match fc with
          | FC_STRUCT member_clses _ _ =>
              let es := json_object_array jobj in
              if negb (length es =? length member_clses)%nat then st_fail ACTF_INTERNAL
              else
                malloc;;
                vals ← mapM (fun em => fld_from_json fuel' (fst em) (snd (snd em))) (zip es member_clses);
                mret (mk_ctf_fld fc (CTF_STRUCT vals))
          | _ => st_fail ACTF_INTERNAL
          end
      | json_type_string =>
          match type_of fc with
          | ACTF_FLD_CLS_NULL_TERM_STR | ACTF_FLD_CLS_STATIC_LEN_STR | ACTF_FLD_CLS_DYN_LEN_STR =>
              let js := json_object_get_string_bytes jobj in
              malloc;; mret (mk_ctf_fld fc (CTF_STR js (Z.of_nat (String.length js) + 1)))
          | _ => st_fail ACTF_INTERNAL
          end
      end
  end.

(** [struct ctfjson] is the root field, which carries its class.  The nesting
    depth of the value is enough fuel. *)
Definition ctfjson_init (jobj : json) : st nat ctf_fld :=
  malloc;;
  fc ← fld_cls_from_json (S (json_depth jobj)) jobj;
  fld_from_json (S (json_depth jobj)) jobj fc.

(** * Correctness *)

(** What [ctfjson.h] says that a JSON value becomes, with the names that the
    elements of an array are given as a parameter. *)
Fixpoint ctf_of_json (elem_name : nat -> string) (fuel : nat) (j : json) : ctf_fld :=
  let struct ms :=
    mk_ctf_fld (FC_STRUCT (map (fun m => (fst m, ctf_cls (snd m))) ms) DEFAULT_ALIGNMENT 0) (CTF_STRUCT (map snd ms)) in
  match fuel with
  | O => mk_ctf_fld FC_NIL CTF_NIL
  | S fuel' =>
      match json_object_get_type j with
      | json_type_null => mk_ctf_fld FC_NIL CTF_NIL
      | json_type_boolean => mk_ctf_fld (FC_FXD_LEN_BOOL (json_bits 1)) (CTF_BOOL (json_object_get_boolean j))
      | json_type_double => mk_ctf_fld (FC_FXD_LEN_FLOAT (json_bits 64)) (CTF_REAL (json_object_get_double j))
      | json_type_int =>
          if json_object_get_int64 j <? 0 then
            mk_ctf_fld (FC_FXD_LEN_SINT json_int_base (json_bits 64) 0) (CTF_SINT (json_object_get_int64 j))
          else mk_ctf_fld (FC_FXD_LEN_UINT json_int_base (json_bits 64) 0) (CTF_UINT (json_object_get_uint64 j))
      | json_type_object =>
          struct (map (fun m => (fst m, ctf_of_json elem_name fuel' (snd m))) (json_object_object_foreach j))
      | json_type_array =>
          struct (imap (fun i e => (elem_name i, ctf_of_json elem_name fuel' e)) (json_object_array j))
      | json_type_string =>
          let js := json_object_get_string_bytes j in
          mk_ctf_fld (FC_NULL_TERM_STR ACTF_ENCODING_UTF8) (CTF_STR js (Z.of_nat (String.length js) + 1))
      end
  end.

Definition lu : nat -> string := fun _ => "lu"%string.
Notation oom rc := (rc = ACTF_OOM /\ some_malloc_fails).

Lemma sat_malloc_bind {A} (Q : A -> Prop) U (c : st nat A) :
  sat Q (fun rc => oom rc) U c -> sat Q (fun rc => oom rc) U (malloc;; c).
Proof. intros Hc. eapply sat_bind; [by apply sat_malloc|]. intros _ _. exact Hc. Qed.

(** Mapping a program over a list gives the map of a function that each run
    agrees with. *)
Lemma sat_mapM_map {A B} (g : A -> B) E U (f : A -> st nat B) l :
  (forall x, x ∈ l -> sat (fun b => b = g x) E U (f x)) -> sat (fun k => k = map g l) E U (mapM f l).
Proof.
  intros Hf. eapply sat_post; [apply (sat_mapM (fun x b => b = g x)); by apply Forall_forall|].
  cbn. intros k Hk. induction Hk as [|x b l k -> _ IH]; [done|]. cbn. f_equal. apply IH. intros y Hy. apply Hf. by right.
Qed.

Context `{!JsonCLaws json}.

Lemma imap_elem {A B} (f : nat -> A -> B) l b : b ∈ imap f l -> exists i x, l !! i = Some x /\ b = f i x.
Proof. intros (i & Hi)%list_elem_of_lookup_1. rewrite list_lookup_imap in Hi. destruct (l !! i) as [x|] eqn:E; [|done]. cbn in Hi. simplify_eq. by exists i, x. Qed.

Lemma sat_uitoa i E (U : Prop) : (some_malloc_fails -> U) -> sat (fun s => s = "lu"%string) E U (uitoa i).
Proof. intros HU. eapply sat_bind; [by apply sat_malloc_unchk|]. intros _ _. by apply sat_ret. Qed.

Lemma fld_cls_from_json_sat fuel j : (json_depth j < fuel)%nat ->
  sat (fun fc => fc = ctf_cls (ctf_of_json lu fuel j)) (fun rc => oom rc) some_malloc_fails (fld_cls_from_json fuel j).
Proof.
  revert j. induction fuel as [|fuel IH]; intros j Hd; [lia|]. cbn.
  destruct (json_object_get_type j); try (by apply sat_ret).
  - destruct (_ <? _); by apply sat_ret.
  - apply sat_malloc_bind. eapply sat_bind.
    + apply (sat_mapM_map (fun m => (fst m, ctf_cls (ctf_of_json lu fuel (snd m))))). intros m Hm%json_foreach_depth.
      eapply sat_bind; [apply IH; lia|]. intros cls ->. eapply sat_bind; [by apply sat_strdup|]. intros name ->. by apply sat_ret.
    + intros clses ->. apply sat_ret. by rewrite map_map.
  - apply sat_malloc_bind. eapply sat_bind.
    + apply (sat_mapM_map (fun ie => (lu (fst ie), ctf_cls (ctf_of_json lu fuel (snd ie))))).
      intros ie (i & e & He%list_elem_of_lookup_2%json_array_depth & ->)%imap_elem.
      eapply sat_bind; [apply IH; cbn; lia|]. intros cls ->. eapply sat_bind; [by apply sat_uitoa|]. intros name ->. by apply sat_ret.
    + intros clses ->. apply sat_ret. cbn. f_equal.
      change (map ?f ?l) with (f <$> l). rewrite !fmap_imap. by apply imap_ext.
Qed.

Lemma zip_map_r {A B} (g : A -> B) (l : list A) : zip l (map g l) = map (fun x => (x, g x)) l.
Proof. induction l as [|x l IH]; cbn; [done|]. by rewrite IH. Qed.

Lemma zip_imap_r {A B} (g : nat -> A -> B) (l : list A) : zip l (imap g l) = imap (fun i x => (x, g i x)) l.
Proof. revert g. induction l as [|x l IH]; intros g; cbn; [done|]. by rewrite IH. Qed.

Lemma fld_from_json_sat fuel j : (json_depth j < fuel)%nat ->
  sat (fun v => v = ctf_of_json lu fuel j) (fun rc => oom rc) some_malloc_fails
    (fld_from_json fuel j (ctf_cls (ctf_of_json lu fuel j))).
Proof.
  revert j. induction fuel as [|fuel IH]; intros j Hd; [lia|]. cbn.
  destruct (json_object_get_type j); cbn; try (by apply sat_ret).
  - destruct (_ <? _); by apply sat_ret.
  - rewrite !length_map, Nat.eqb_refl. cbn. apply sat_malloc_bind. rewrite map_map, zip_map_r. cbn.
    eapply sat_bind.
    + apply (sat_mapM_map (fun mm => ctf_of_json lu fuel (snd (fst mm)))).
      intros mm (m & -> & Hm%json_foreach_depth)%list_elem_of_fmap. cbn. rewrite bool_decide_true by done. apply IH. lia.
    + intros vals ->. apply sat_ret. f_equal. f_equal. by rewrite !map_map.
  - rewrite !length_map, length_imap, Nat.eqb_refl. cbn. apply sat_malloc_bind.
    change (map ?f ?l) with (f <$> l). rewrite !fmap_imap, zip_imap_r.
    eapply sat_bind.
    + apply (sat_mapM_map (fun em => ctf_of_json lu fuel (fst em))).
      intros em (i & e & He%list_elem_of_lookup_2%json_array_depth & ->)%imap_elem. cbn. apply IH. lia.
    + intros vals ->. apply sat_ret. f_equal. f_equal. change (map ?f ?l) with (f <$> l). by rewrite fmap_imap.
  - apply sat_malloc_bind. by apply sat_ret.
Qed.

Lemma ctfjson_init_sat jobj :
  sat (fun f => f = ctf_of_json lu (S (json_depth jobj)) jobj) (fun rc => oom rc) some_malloc_fails
    (ctfjson_init jobj).
Proof.
  unfold ctfjson_init. apply sat_malloc_bind. eapply sat_bind; [apply fld_cls_from_json_sat; lia|].
  intros fc ->. apply fld_from_json_sat. lia.
Qed.

(** The conversion of a JSON value to a field cannot fail but for memory:
    the second pass accepts the class that the first one generates, every value
    becomes the field of the table in [ctfjson.h], with members in the order of
    the object and the value of every integer; and the elements of a JSON array
    are all named [lu] (where their indices are meant). *)
Theorem ctfjson_init_total (jobj : json) :
  sat (fun f => f = ctf_of_json lu (S (json_depth jobj)) jobj) (fun rc => oom rc) some_malloc_fails
    (ctfjson_init jobj).
Proof. apply ctfjson_init_sat. Qed.
End CtfJson.

(** [{"a": [5, "x"], "b": -1}]. *)
Example ctfjson_init_run :
  fst (ctfjson_init (H0 := heap_ok) (JObj [("a", JArr [JInt 5; JStr "x"]); ("b", JInt (-1))]%string) O) =
  Ok (let arr := FC_STRUCT [("lu", FC_FXD_LEN_UINT json_int_base (json_bits 64) 0);
                            ("lu", FC_NULL_TERM_STR ACTF_ENCODING_UTF8)]%string 1 0 in
      let b := FC_FXD_LEN_SINT json_int_base (json_bits 64) 0 in
      mk_ctf_fld (FC_STRUCT [("a", arr); ("b", b)]%string 1 0)
        (CTF_STRUCT [mk_ctf_fld arr (CTF_STRUCT [mk_ctf_fld (FC_FXD_LEN_UINT json_int_base (json_bits 64) 0) (CTF_UINT 5);
                                                 mk_ctf_fld (FC_NULL_TERM_STR ACTF_ENCODING_UTF8) (CTF_STR "x" 2)]);
                     mk_ctf_fld b (CTF_SINT (-1))])).
Proof. vm_compute. reflexivity. Qed.

Example ctfjson_init_total_witness :
  sat (fun f => f = ctf_of_json lu 2 (JObj [("a", JInt 5)]%string)) (fun rc => rc = ACTF_OOM /\ @some_malloc_fails heap_ok)
    (@some_malloc_fails heap_ok) (ctfjson_init (H0 := heap_ok) (JObj [("a", JInt 5)]%string)).
Proof. exact (ctfjson_init_total (H0 := heap_ok) (JObj [("a", JInt 5)]%string)). Defined.
