(* ===== verification/JsonUtils.v ===== *)
(** Reading properties of JSON objects, [json_utils.c]: strings, integers,
    alignments, byte orders, UUIDs, integer ranges and their sets, mappings and
    field locations.

    The lemmas: what a getter returns is in the range of its type and its errors
    are the codes of the library; a range set that is accepted is well formed;
    alignments are accepted exactly when they are 0 or a power of two.  [JsonRng]
    says what the ranges denote. *)
From S2P Require Import Prelude Common Rng FldCls Json CtfJson.
From stdpp Require Import strings.
Open Scope Z_scope.

Definition align_is_valid (n : Z) : bool := Z.land n (u64 (n - 1)) =? 0.

(** [struct rng]: a range that is signed or not. *)
Inductive rng := RNG_S (s : srng) | RNG_U (u : urng).

(** [struct mappings], its ranges by name. *)
Inductive mappings := SMAPS (smaps : list (string * list srng)) | UMAPS (umaps : list (string * list urng)).

(** The clamping of [rng_to_srng] and [rng_to_urng]; [None] is their
    [ACTF_INVALID_RANGE], with which they leave the output alone. *)
Definition rng_to_srng (r : rng) : option srng :=
  match r with
  | RNG_S s => Some s
  | RNG_U u =>
      if u_lower u >? INT64_MAX then None
      else Some (mk_srng (u_lower u) (if u_upper u >? INT64_MAX then INT64_MAX else u_upper u))
  end.

Definition rng_to_urng (r : rng) : option urng :=
  match r with
  | RNG_S s =>
      if s_upper s <? 0 then None
      else Some (mk_urng (if s_lower s <? 0 then 0 else s_lower s) (s_upper s))
  | RNG_U u => Some u
  end.

(** The first [n_valid] cells of the array [rngs], whose cell [j] holds the
    conversion of range [j], or what the allocation left there. *)
Definition valid_prefix {R} (junk : R) (converted : list (option R)) : list R :=
  map (default junk) (take (length (omap id converted)) converted).

Section JsonUtils.
Context {json : Type} `{JsonC json, Heap}.

(** The two checks that the getters begin with. *)
Definition json_object_key_get (jobj : json) (key : string) (ty : json_type) : st nat json :=
  match json_object_object_get_ex jobj key with
  | None => st_fail ACTF_NOT_FOUND
  | Some key_jobj =>
      if negb (json_object_is_type key_jobj ty) then st_fail ACTF_JSON_WRONG_TYPE else mret key_jobj
  end.

Definition json_object_key_get_string (jobj : json) (key : string) : st nat string :=
  key_jobj ← json_object_key_get jobj key json_type_string;
  mret (json_object_get_string key_jobj).

Definition json_object_key_get_alignment (jobj : json) (key : string) : st nat Z :=
  align_jobj ← json_object_key_get jobj key json_type_int;
  let jalign := json_object_get_uint64 align_jobj in
  if negb (align_is_valid jalign) then st_fail ACTF_INVALID_ALIGNMENT else mret jalign.

Definition json_object_key_get_bo (jobj : json) (key : string) : st nat actf_byte_order :=
  bo_jobj ← json_object_key_get jobj key json_type_string;
  let bo_str := json_object_get_string bo_jobj in
  if bool_decide (bo_str = "big-endian"%string) then mret ACTF_BIG_ENDIAN
  else if bool_decide (bo_str = "little-endian"%string) then mret ACTF_LIL_ENDIAN
  else st_fail ACTF_INVALID_BYTE_ORDER.

Definition json_object_key_get_bito (jobj : json) (key : string) : st nat actf_bit_order :=
  bito_jobj ← json_object_key_get jobj key json_type_string;
  let bito_str := json_object_get_string bito_jobj in
  if bool_decide (bito_str = "first-to-last"%string) then mret ACTF_FIRST_TO_LAST
  else if bool_decide (bito_str = "last-to-first"%string) then mret ACTF_LAST_TO_FIRST
  else st_fail ACTF_INVALID_BIT_ORDER.

Definition json_object_key_get_uuid (jobj : json) (key : string) : st nat (list Z) :=
  uuid_jobj ← json_object_key_get jobj key json_type_array;
  if negb (Z.of_nat (length (json_object_array uuid_jobj)) =? ACTF_UUID_N_BYTES) then st_fail ACTF_INVALID_UUID
  else
    mapM (fun val_jobj =>
      if negb (json_object_is_type val_jobj json_type_int) then st_fail ACTF_INVALID_UUID
      else mret (u8 (json_object_get_uint64 val_jobj))) (json_object_array uuid_jobj).

Definition json_object_key_get_gtez_uint64 (jobj : json) (key : string) : st nat Z :=
  val_jobj ← json_object_key_get jobj key json_type_int;
  let ival := json_object_get_int64 val_jobj in
  if ival <? 0 then st_fail ACTF_JSON_NOT_GTEZ else mret (json_object_get_uint64 val_jobj).

Definition json_object_key_get_gtz_uint64 (jobj : json) (key : string) : st nat Z :=
  jval ← map_err (fun rc => Err (if rc =? ACTF_JSON_NOT_GTEZ then ACTF_JSON_NOT_GTZ else rc))
           (json_object_key_get_gtez_uint64 jobj key);
  if jval =? 0 then st_fail ACTF_JSON_NOT_GTZ else mret jval.

Definition json_object_key_get_int64 (jobj : json) (key : string) : st nat Z :=
  val_jobj ← json_object_key_get jobj key json_type_int;
  mret (json_object_get_int64 val_jobj).

(** ** Ranges *)

Definition rng_parse (rng_jobj : json) (force_unsigned : bool) : st nat rng :=
  if negb (json_object_is_type rng_jobj json_type_array) then st_fail ACTF_JSON_WRONG_TYPE
  else
    match json_object_array rng_jobj with
    | [lower_jobj; upper_jobj] =>
        if negb (json_object_is_type lower_jobj json_type_int) then st_fail ACTF_INVALID_RANGE
        else if negb (json_object_is_type upper_jobj json_type_int) then st_fail ACTF_INVALID_RANGE
        else
          let slower := json_object_get_int64 lower_jobj in
          if (slower <? 0) && negb force_unsigned then
            let s := mk_srng slower (json_object_get_int64 upper_jobj) in
            if s_upper s <? s_lower s then st_fail ACTF_INVALID_RANGE else mret (RNG_S s)
          else
            let u := mk_urng (json_object_get_uint64 lower_jobj) (json_object_get_uint64 upper_jobj) in
            if u_upper u <? u_lower u then st_fail ACTF_INVALID_RANGE else mret (RNG_U u)
    | _ => st_fail ACTF_INVALID_RANGE
    end.

(** [sign = RNG_SINT] is [true]. *)
Definition rngs_to_rng_set (rngs : list rng) (is_signed : bool) : st nat actf_rng_set :=
  malloc;;
  mret (if is_signed then
          RNG_SINT (map (fun r => match r with RNG_S s => s | RNG_U u => mk_srng (i64 (u_lower u)) (i64 (u_upper u)) end) rngs)
        else
          RNG_UINT (map (fun r => match r with RNG_S s => mk_urng (u64 (s_lower s)) (u64 (s_upper s)) | RNG_U u => u end) rngs)).

Definition is_negative (r : rng) : bool := match r with RNG_S s => s_lower s <? 0 | RNG_U _ => false end.
Definition is_larger_than_int64 (r : rng) : bool := match r with RNG_U u => u_upper u >? INT64_MAX | RNG_S _ => false end.

Definition json_object_key_get_rng_set (jobj : json) (key : string) : st nat actf_rng_set :=
  rs_jobj ← json_object_key_get jobj key json_type_array;
  if (length (json_object_array rs_jobj) =? 0)%nat then st_fail ACTF_INVALID_RANGE_SET
  else
    malloc;;
    rngs ← mapM (fun rng_jobj => rng_parse rng_jobj false) (json_object_array rs_jobj);
    let contains_negative := existsb is_negative rngs in
    let contains_larger_than_int64 := existsb is_larger_than_int64 rngs in
    if contains_negative && contains_larger_than_int64 then st_fail ACTF_INVALID_RANGE_SET
    else rngs_to_rng_set rngs contains_negative.

(** ** Mappings *)

(** The body of [smaps_parse] and [umaps_parse] for one name. *)
Definition map_parse {R} (force_unsigned : bool) (conv : rng -> option R) (junk : R) (m : string * json) :
    st nat (string * list R) :=
  let '(name, rs_jobj) := m in
  if negb (json_object_is_type rs_jobj json_type_array) then st_fail ACTF_JSON_WRONG_TYPE
  else if (length (json_object_array rs_jobj) =? 0)%nat then st_fail ACTF_INVALID_RANGE_SET
  else
    malloc;;
    rngs ← mapM (fun rng_jobj => r ← rng_parse rng_jobj force_unsigned; mret (conv r)) (json_object_array rs_jobj);
    name' ← c_strdup name;
    mret (name', valid_prefix junk rngs).

Definition smaps_parse (maps_jobj : json) : st nat (list (string * list srng)) :=
  mapM (map_parse false rng_to_srng junk_srng) (json_object_object_foreach maps_jobj).

Definition umaps_parse (maps_jobj : json) : st nat (list (string * list urng)) :=
  mapM (map_parse true rng_to_urng junk_urng) (json_object_object_foreach maps_jobj).

Definition json_object_key_get_mappings (jobj : json) (key : string) (is_signed : bool) : st nat mappings :=
  maps_jobj ← json_object_key_get jobj key json_type_object;
  malloc;; malloc;;
  if is_signed then smaps ← smaps_parse maps_jobj; mret (SMAPS smaps)
  else umaps ← umaps_parse maps_jobj; mret (UMAPS umaps).

(** ** Field locations *)

Definition path_ele_parse (path_ele_jobj : json) : st nat (option string) :=
  match json_object_get_type path_ele_jobj with
  | json_type_string => s ← c_strdup (json_object_get_string path_ele_jobj); mret (Some s)
  | json_type_null => mret None
  | _ => st_fail ACTF_INVALID_FLD_LOC
  end.

(** [if ((rc = c) < 0 && rc != ACTF_NOT_FOUND) return ACTF_INVALID_FLD_LOC]. *)
Definition origin_name_parse (fld_loc_jobj : json) : st nat (option string) :=
  map_err (fun _ => Err ACTF_INVALID_FLD_LOC) (unless_not_found (json_object_key_get_string fld_loc_jobj "origin")).

Definition actf_fld_loc_parse (fld_loc_jobj : json) : st nat actf_fld_loc :=
  if negb (json_object_is_type fld_loc_jobj json_type_object) then st_fail ACTF_JSON_WRONG_TYPE
  else
    origin_name ← origin_name_parse fld_loc_jobj;
    origin ← match origin_name with
             | Some name =>
                 let origin := actf_fld_loc_origin_name_to_type name in
                 if bool_decide (origin = ACTF_FLD_LOC_ORIGIN_NONE) then st_fail ACTF_INVALID_FLD_LOC else mret origin
             | None => mret ACTF_FLD_LOC_ORIGIN_NONE
             end;
    match json_object_object_get_ex fld_loc_jobj "path" with
    | None => st_fail ACTF_INVALID_FLD_LOC
    | Some path_jobj =>
        if negb (json_object_is_type path_jobj json_type_array) then st_fail ACTF_INVALID_FLD_LOC
        else if (length (json_object_array path_jobj) =? 0)%nat then st_fail ACTF_INVALID_FLD_LOC
        else
          malloc;;
          path ← mapM path_ele_parse (json_object_array path_jobj);
          match last path with
          | Some (Some _) => mret (mk_fld_loc origin path)
          | _ => st_fail ACTF_INVALID_FLD_LOC
          end
    end.

Definition json_object_key_get_fld_loc (jobj : json) (key : string) : st nat actf_fld_loc :=
  match json_object_object_get_ex jobj key with
  | None => st_fail ACTF_NOT_FOUND
  | Some fld_loc_jobj => actf_fld_loc_parse fld_loc_jobj
  end.

(** The message of a failed conversion is formatted with a string conversion
    that has no argument: undefined behaviour. *)
Definition json_object_key_get_ctfjson (jobj : json) (key : string) : st nat ctf_fld :=
  val_jobj ← json_object_key_get jobj key json_type_object;
  map_err (fun _ => Undef) (ctfjson_init val_jobj).

(** * Correctness *)

Lemma align_is_valid_spec n : is_u64 n -> align_is_valid n = true <-> n = 0 \/ pow2 n.
Proof.
  intros Hn. unfold align_is_valid. rewrite Z.eqb_eq. split.
  - intros Ha. destruct (Z.eq_dec n 0) as [->|Hz]; [by left|]. right. unfold is_u64 in Hn.
    exists (Z.log2 n). assert (Hl : 0 <= Z.log2 n <= 63).
    { split; [apply Z.log2_nonneg|]. assert (Z.log2 n < 64); [apply Z.log2_lt_pow2; lia|lia]. }
    split; [done|]. apply Z.bits_inj'. intros i Hi. rewrite Z.pow2_bits_eqb by lia.
    destruct (Z.eqb_spec (Z.log2 n) i) as [<-|Hne]; [apply Z.bit_log2; lia|].
    destruct (Z.ltb_spec (Z.log2 n) i); [apply Z.bits_above_log2; lia|].
    destruct (Z.testbit n i) eqn:Hb; [|done]. exfalso.
    assert (H2 : Z.testbit (Z.land n (n - 1)) (Z.log2 n) = true).
    { rewrite Z.land_spec, Z.bit_log2 by lia. cbn.
      assert (Hlow : 2 ^ Z.log2 n <= n - 1).
      { pose proof (Z.log2_spec n ltac:(lia)) as [Hlo _].
        destruct (Z.eq_dec n (2 ^ Z.log2 n)) as [He|]; [|lia].
        rewrite He, Z.pow2_bits_false in Hb by lia. done. }
      assert (Z.log2 (n - 1) = Z.log2 n) as <-; [|apply Z.bit_log2; pose proof (pow2_pos (Z.log2 n)); lia].
      apply Z.log2_unique; [lia|]. pose proof (Z.log2_spec n ltac:(lia)). unfold Z.succ in *. lia. }
    rewrite u64_small in Ha by (unfold is_u64; lia). rewrite Ha, Z.testbit_0_l in H2. done.
  - intros [->|(k & Hk & ->)]; [done|].
    pose proof (pow2_pos k). rewrite u64_small by (unfold is_u64 in *; lia).
    rewrite land_ones_mod by lia. by apply Z.mod_same; lia.
Qed.

Context `{!JsonCLaws json, MayBreak}.

Lemma json_int64_range j : json_object_get_type j = json_type_int -> is_i64 (json_object_get_int64 j).
Proof. intros (v & Hv & -> & _)%json_int_value. unfold is_i64, UINT64_MAX, INT64_MIN, INT64_MAX in *. lia. Qed.


Lemma json_uint64_range j : json_object_get_type j = json_type_int -> is_u64 (json_object_get_uint64 j).
Proof. intros (v & Hv & _ & ->)%json_int_value. unfold is_u64, UINT64_MAX, INT64_MIN in *. lia. Qed.

Lemma key_get_parses jobj key ty :
  parses (fun k => json_object_object_get_ex jobj key = Some k /\ json_object_get_type k = ty)
    (json_object_key_get jobj key ty).
Proof.
  unfold json_object_key_get, json_object_is_type. parses_auto. rewrite negb_false_iff, bool_decide_eq_true in *. done.
Qed.
#[local] Hint Resolve key_get_parses : parses.

Lemma get_string_parses jobj key :
  parses (fun s => exists k, json_object_object_get_ex jobj key = Some k /\ s = json_object_get_string k)
    (json_object_key_get_string jobj key).
Proof. unfold json_object_key_get_string. parses_auto. by eexists. Qed.

Lemma get_alignment_parses jobj key : parses (fun a => a = 0 \/ pow2 a) (json_object_key_get_alignment jobj key).
Proof.
  unfold json_object_key_get_alignment. parses_auto. rewrite negb_false_iff in *.
  apply align_is_valid_spec; [|done]. by apply json_uint64_range.
Qed.

Lemma get_bo_parses jobj key : parses (fun _ => True) (json_object_key_get_bo jobj key).
Proof. unfold json_object_key_get_bo. by parses_auto. Qed.
Lemma get_bito_parses jobj key : parses (fun _ => True) (json_object_key_get_bito jobj key).
Proof. unfold json_object_key_get_bito. by parses_auto. Qed.

Lemma get_uuid_parses jobj key :
  parses (fun u => length u = 16%nat /\ Forall is_byte u) (json_object_key_get_uuid jobj key).
Proof.
  unfold json_object_key_get_uuid. eapply parses_bind; [eauto with parses|]. intros k [_ Hk]. parses_step; [parses_step|].
  eapply parses_post; [apply (parses_mapM (fun _ b => is_byte b)); intros x _; parses_auto|].
  - unfold u8, is_byte. pose proof (Z.mod_pos_bound (json_object_get_uint64 x) (2 ^ 8)). lia.
  - cbn. intros u Hu. apply negb_false_iff, Z.eqb_eq in Heqb. unfold ACTF_UUID_N_BYTES in Heqb.
    split; [apply Forall2_length in Hu; lia|]. by eapply Forall2_const_l.
Qed.

Lemma get_gtez_parses jobj key : parses is_u64 (json_object_key_get_gtez_uint64 jobj key).
Proof. unfold json_object_key_get_gtez_uint64. parses_auto. by apply json_uint64_range. Qed.

Lemma get_gtz_parses jobj key : parses (fun v => 0 < v < 2 ^ 64) (json_object_key_get_gtz_uint64 jobj key).
Proof.
  unfold json_object_key_get_gtz_uint64. eapply parses_bind.
  - eapply sat_map_err; [apply get_gtez_parses|]. intros rc Hrc. cbn. case_match; [is_err|done].
  - cbn. intros v Hv. parses_auto. destruct (Z.eqb_spec v 0); [done|]. unfold is_u64 in Hv. lia.
Qed.

Lemma get_int64_parses jobj key : parses is_i64 (json_object_key_get_int64 jobj key).
Proof.
  unfold json_object_key_get_int64. parses_auto. by apply json_int64_range.
Qed.

(** ** Ranges *)

Definition rng_wf (r : rng) : Prop :=
  match r with RNG_S s => srng_wf s /\ s_lower s < 0 | RNG_U u => urng_wf u end.

Lemma is_type_false (j : json) ty : negb (json_object_is_type j ty) = false -> json_object_get_type j = ty.
Proof. by rewrite negb_false_iff; intros ?%bool_decide_eq_true_1. Qed.

Lemma rng_parse_parses jobj fu : parses (fun r => rng_wf r /\ (fu = true -> exists u, r = RNG_U u)) (rng_parse jobj fu).
Proof.
  unfold rng_parse. parses_auto;
    repeat match goal with Hn : negb (json_object_is_type _ _) = false |- _ => apply is_type_false in Hn end; cbn in *.
  - apply andb_prop in Heqb2 as [Hneg Hfu]. split; [|intros ->; done].
    split; [|cbn; lia]. split_and!; try (by apply json_int64_range); cbn; lia.
  - split; [|by eauto]. split_and!; try (by apply json_uint64_range); cbn; lia.
Qed.

Lemma rng_wf_srng r : rng_wf r -> is_larger_than_int64 r = false ->
  srng_wf (match r with RNG_S s => s | RNG_U u => mk_srng (i64 (u_lower u)) (i64 (u_upper u)) end).
Proof.
  destruct r as [s|u]; [by intros []|]. cbn. intros (Hl & Hu & Hle) Hm. unfold is_u64 in *.
  assert (Hi : u_upper u < 2 ^ 63) by (unfold INT64_MAX in *; lia).
  rewrite Z.gtb_ltb, Z.ltb_ge in Hm. unfold i64. split_and!; cbn; rewrite !wrap_signed_small by lia; unfold is_i64; lia.
Qed.

Lemma existsb_false {A} (f : A -> bool) l : existsb f l = false -> Forall (fun x => f x = false) l.
Proof. induction l as [|x l IH]; cbn; [done|]. intros [Hx Hl]%orb_false_elim. constructor; auto. Qed.

Lemma get_rng_set_parses jobj key : parses rng_set_wf (json_object_key_get_rng_set jobj key).
Proof.
  unfold json_object_key_get_rng_set. do 3 (cbv beta zeta; parses_step); try is_err.
  eapply parses_bind; [apply (parses_mapM_all rng_wf); intros x _; eapply parses_post; [apply rng_parse_parses|by intros r []]|].
  intros rngs Hr. cbv beta zeta. parses_step; [by parses_step|]. unfold rngs_to_rng_set. parses_step. apply parses_ret.
  destruct (existsb is_negative rngs) eqn:Hn; cbn in *; apply Forall_map.
  - apply existsb_false in Heqb0. eapply Forall_impl; [exact (proj2 (Forall_and _ _) (conj Hr Heqb0))|].
    intros r [Hw Hl]. by apply rng_wf_srng.
  - apply existsb_false in Hn. eapply Forall_impl; [exact (proj2 (Forall_and _ _) (conj Hr Hn))|].
    intros [s|u] [Hw Hl]; [|done]. cbn in *. destruct Hw. lia.
Qed.

(** ** Mappings, locations, attributes *)

Lemma map_parse_parses {R} fu (conv : rng -> option R) junk m : parses (fun _ => True) (map_parse fu conv junk m).
Proof.
  unfold map_parse. destruct m as [name rs]. do 3 parses_step; try is_err.
  eapply parses_bind; [apply (parses_mapM_all (fun _ => True)); intros x _|intros ? _; by parses_auto].
  eapply parses_bind; [apply rng_parse_parses|intros ? _; by parses_auto].
Qed.

Lemma get_mappings_parses jobj key is_signed :
  parses (fun m => match m with SMAPS _ => is_signed = true | UMAPS _ => is_signed = false end)
    (json_object_key_get_mappings jobj key is_signed).
Proof.
  unfold json_object_key_get_mappings, smaps_parse, umaps_parse. do 3 parses_step. destruct is_signed;
    (eapply parses_bind; [apply (parses_mapM_all (fun _ => True)); intros x _; apply map_parse_parses|]); intros ? _; by parses_auto.
Qed.

Lemma get_fld_loc_parses jobj key :
  parses (fun l => exists n, last (path l) = Some (Some n)) (json_object_key_get_fld_loc jobj key).
Proof.
  unfold json_object_key_get_fld_loc, actf_fld_loc_parse. do 2 parses_step; try by parses_step.
  eapply parses_bind.
  { eapply sat_map_err; [apply parses_unless_not_found, get_string_parses|]. intros rc _. is_err. }
  intros on _. eapply parses_bind.
  { instantiate (1 := fun _ => True). destruct on; by parses_auto. }
  intros o _. do 4 parses_step; try is_err.
  eapply parses_bind; [apply (parses_mapM_all (fun _ => True)); intros x _; unfold path_ele_parse; by parses_auto|].
  intros p _. parses_auto. by eexists.
Qed.

Lemma get_ctfjson_parses jobj key : parses (fun _ => True) (json_object_key_get_ctfjson jobj key).
Proof.
  unfold json_object_key_get_ctfjson. parses_step.
  eapply sat_map_err.
  - eapply (sat_mono _ (fun _ => True) _ (fun _ => some_malloc_fails)); [apply ctfjson_init_sat|done|by intros rc []|by left].
  - intros rc. by left.
Qed.
End JsonUtils.

#[export] Hint Resolve rng_parse_parses get_rng_set_parses get_mappings_parses get_fld_loc_parses get_ctfjson_parses : parses.
#[export] Hint Resolve key_get_parses get_string_parses get_alignment_parses get_bo_parses get_bito_parses
  get_uuid_parses get_gtez_parses get_gtz_parses get_int64_parses : parses.
