(* ===== verification/JsonRng.v ===== *)
(** What the integer ranges of JSON metadata denote.

    [JsonUtils] reads a pair of JSON integers, of -2^63 to 2^64 - 1, into a range
    of signed or unsigned 64-bit integers.  The theorems give the denotation of a
    set of ranges, and when the ranges of a mapping are those of the metadata. *)
From S2P Require Import Prelude Common Rng FldCls Json CtfJson JsonUtils.
From stdpp Require Import strings.
Open Scope Z_scope.

Section JsonRng.
Context {json : Type} `{JsonC json, !JsonCLaws json, Heap}.

(** A JSON integer of a value. *)
Definition int_jobj (j : json) (v : Z) : Prop := json_object_get_type j = json_type_int /\ json_int j v.

(** A pair of JSON integers. *)
Definition pair_jobj (j : json) (b : Z * Z) : Prop :=
  json_object_get_type j = json_type_array /\
  exists lo hi, json_object_array j = [lo; hi] /\ int_jobj lo (fst b) /\ int_jobj hi (snd b).

(** The range that a pair is read as, before its order is checked. *)
Definition rng_of_bounds (b : Z * Z) : rng :=
  if fst b <? 0 then RNG_S (mk_srng (fst b) (Z.min (snd b) INT64_MAX)) else RNG_U (mk_urng (fst b) (Z.max (snd b) 0)).

Definition bounds_rejected (b : Z * Z) : Prop := snd b < fst b /\ ~ (fst b = 0).

Lemma rng_parse_gives j b : pair_jobj j b ->
  (bounds_rejected b /\ gives (Err ACTF_INVALID_RANGE) (rng_parse j false)) \/
  (~ bounds_rejected b /\ gives (Ok (rng_of_bounds b)) (rng_parse j false)).
Proof.
  destruct b as [l u]. intros (Ht & lo & hi & Ha & [Hlt (Hlr & Hli & Hlu)] & [Hht (Hhr & Hhi & Hhu)]).
  unfold rng_parse, json_object_is_type. rewrite Ht, bool_decide_true, Ha by done. cbn [negb].
  rewrite Hlt, Hht, bool_decide_true by done. cbn [negb]. cbv zeta. rewrite Hli, Hlu, Hhi, Hhu. cbn [fst snd] in *.
  unfold bounds_rejected, rng_of_bounds. cbn [fst snd s_upper s_lower u_upper u_lower].
  unfold INT64_MIN, UINT64_MAX, INT64_MAX in *. rewrite andb_true_r.
  destruct (Z.ltb_spec (Z.min l (2 ^ 63 - 1)) 0); (destruct (Z.ltb_spec l 0); [|lia]) || (destruct (Z.ltb_spec l 0); [lia|]);
    case_match eqn:E; [left|right|left|right]; apply Z.ltb_lt in E || apply Z.ltb_ge in E; split; try lia; try apply gives_fail.
  - replace (Z.min l (2 ^ 63 - 1)) with l by lia. apply gives_ret.
  - replace (Z.max l 0) with l by lia. apply gives_ret.
Qed.

Lemma rngs_parse_gives js bs : Forall2 pair_jobj js bs ->
  if existsb (fun b => (snd b <? fst b) && negb (fst b =? 0)) bs
  then gives (Err ACTF_INVALID_RANGE) (mapM (fun j => rng_parse j false) js)
  else gives (Ok (map rng_of_bounds bs)) (mapM (fun j => rng_parse j false) js).
Proof.
  intros Hjs. destruct (existsb _ bs) eqn:E.
  - apply gives_mapM_err.
    + clear E. induction Hjs as [|j b js bs Hj _ IH]; constructor; [|done].
      destruct (rng_parse_gives j b Hj) as [[_ Hg]|[_ Hg]]; eauto.
    + induction Hjs as [|j b js bs Hj _ IH]; cbn in E; [done|]. apply orb_true_iff in E as [E|E]; [left|right; auto].
      destruct (rng_parse_gives j b Hj) as [[_ Hg]|[Hn _]]; [done|]. destruct Hn. unfold bounds_rejected. lia.
  - apply gives_mapM. apply existsb_false in E. induction Hjs as [|j b js bs Hj _ IH]; cbn; [constructor|].
    apply Forall_cons in E as [Eb E]. constructor; [|by apply IH].
    destruct (rng_parse_gives j b Hj) as [[Hr _]|[_ Hg]]; [|done]. unfold bounds_rejected in Hr. lia.
Qed.

Definition has_negative (bs : list (Z * Z)) : bool := existsb (fun b => fst b <? 0) bs.
Definition has_large (bs : list (Z * Z)) : bool := existsb (fun b => (0 <=? fst b) && (snd b >? INT64_MAX)) bs.

Lemma negative_bounds bs : existsb is_negative (map rng_of_bounds bs) = has_negative bs.
Proof.
  unfold has_negative. induction bs as [|[l u] bs IH]; cbn; [done|]. rewrite IH. f_equal. unfold rng_of_bounds. cbn.
  destruct (l <? 0) eqn:E; [|done]. done.
Qed.

Lemma large_bounds bs : existsb is_larger_than_int64 (map rng_of_bounds bs) = has_large bs.
Proof.
  unfold has_large. induction bs as [|[l u] bs IH]; cbn; [done|]. rewrite IH. f_equal. unfold rng_of_bounds. cbn.
  destruct (Z.ltb_spec l 0), (Z.leb_spec 0 l); try lia; cbn; [done|]. unfold INT64_MAX. lia.
Qed.

(** The integers of the ranges. *)
Definition in_bounds (bs : list (Z * Z)) (v : Z) : Prop := Exists (fun b => fst b <= v <= snd b) bs.

Lemma rngs_mem {R} (conv : rng -> R) (mem : R -> Z -> Prop) bs v :
  Forall (fun b => mem (conv (rng_of_bounds b)) v <-> fst b <= v <= snd b) bs ->
  Exists (fun r => mem r v) (map conv (map rng_of_bounds bs)) <-> in_bounds bs v.
Proof.
  intros Hb. rewrite map_map, Exists_map. unfold in_bounds.
  induction Hb as [|b bs Hb _ IH]; [by rewrite !Exists_nil|]. by rewrite !Exists_cons, Hb, IH.
Qed.

Lemma exists_existsb {A} (f : A -> bool) l : existsb f l = true <-> Exists (fun x => f x = true) l.
Proof. induction l as [|x l IH]; cbn; [by rewrite Exists_nil|]. by rewrite orb_true_iff, Exists_cons, IH. Qed.

Lemma existsb_none {A} (f : A -> bool) l : Forall (fun x => f x = false) l -> existsb f l = false.
Proof. induction 1 as [|x l Hx _ IH]; cbn; [done|]. by rewrite Hx, IH. Qed.

Lemma signed_denotes bs :
  Forall (fun b => INT64_MIN <= fst b /\ snd b <= UINT64_MAX) bs -> Forall (fun b => fst b <= snd b) bs -> has_large bs = false ->
  forall v, is_i64 v ->
    Exists (fun r => srng_mem r v) (map (fun r => match r with RNG_S s => s | RNG_U u => mk_srng (i64 (u_lower u)) (i64 (u_upper u)) end)
      (map rng_of_bounds bs)) <-> in_bounds bs v.
Proof.
  intros Hb Ho Hl%existsb_false v Hv. apply rngs_mem. rewrite !Forall_forall in *. intros [l u] Hin.
  specialize (Hb _ Hin). specialize (Ho _ Hin). specialize (Hl _ Hin). cbn [fst snd] in *.
  unfold rng_of_bounds, srng_mem, is_i64, INT64_MIN, INT64_MAX, UINT64_MAX in *. cbn [fst snd].
  destruct (Z.ltb_spec l 0); cbn [s_lower s_upper u_lower u_upper]; [lia|].
  destruct (Z.leb_spec 0 l); [|lia]. cbn [andb] in Hl. rewrite Z.gtb_ltb, Z.ltb_ge in Hl. unfold i64. rewrite !wrap_signed_small by lia. lia.
Qed.

Lemma unsigned_denotes bs : Forall (fun b => fst b <= snd b) bs -> has_negative bs = false ->
  forall v, is_u64 v ->
    Exists (fun r => urng_mem r v) (map (fun r => match r with RNG_S s => mk_urng (u64 (s_lower s)) (u64 (s_upper s)) | RNG_U u => u end)
      (map rng_of_bounds bs)) <-> in_bounds bs v.
Proof.
  intros Ho Hn%existsb_false v Hv. apply rngs_mem. rewrite !Forall_forall in *. intros [l u] Hin.
  specialize (Ho _ Hin). specialize (Hn _ Hin). cbn [fst snd] in *. unfold rng_of_bounds, urng_mem. cbn [fst snd].
  destruct (Z.ltb_spec l 0); [lia|]. cbn [u_lower u_upper]. lia.
Qed.

(** The result for ranges that are all accepted. *)
Definition rng_set_of_bounds (bs : list (Z * Z)) : outcome actf_rng_set :=
  if has_negative bs && has_large bs then Err ACTF_INVALID_RANGE_SET
  else Ok (if has_negative bs then
             RNG_SINT (map (fun r => match r with RNG_S s => s | RNG_U u => mk_srng (i64 (u_lower u)) (i64 (u_upper u)) end)
                         (map rng_of_bounds bs))
           else
             RNG_UINT (map (fun r => match r with RNG_S s => mk_urng (u64 (s_lower s)) (u64 (s_upper s)) | RNG_U u => u end)
                         (map rng_of_bounds bs))).

Lemma get_rng_set_gives jobj key rs_jobj bs :
  ~ some_malloc_fails -> json_object_object_get_ex jobj key = Some rs_jobj ->
  json_object_get_type rs_jobj = json_type_array -> Forall2 pair_jobj (json_object_array rs_jobj) bs -> bs <> [] ->
  gives (if existsb (fun b => (snd b <? fst b) && negb (fst b =? 0)) bs then Err ACTF_INVALID_RANGE else rng_set_of_bounds bs)
    (json_object_key_get_rng_set jobj key).
Proof.
  intros Hok Hkey Hty Hjs Hne. unfold json_object_key_get_rng_set. apply (gives_bind rs_jobj).
  { unfold json_object_key_get, json_object_is_type. by rewrite Hkey, Hty, bool_decide_true. }
  replace (length (json_object_array rs_jobj) =? 0)%nat with false.
  2: { symmetry. apply Nat.eqb_neq. rewrite (Forall2_length _ _ _ Hjs). by destruct bs. }
  apply (gives_bind tt); [by apply gives_malloc|]. pose proof (rngs_parse_gives _ _ Hjs) as Hp.
  destruct (existsb _ bs); [by apply gives_bind_err|]. eapply gives_bind; [done|]. cbv zeta. rewrite negative_bounds, large_bounds.
  unfold rng_set_of_bounds. destruct (has_negative bs && has_large bs); [apply gives_fail|].
  unfold rngs_to_rng_set. eapply gives_bind; [by apply gives_malloc|]. destruct (has_negative bs); apply gives_ret.
Qed.

(** C32: the set of integers that the ranges of a JSON property denote.  For a
    non-empty array of pairs of integers and no failing allocation: a pair whose
    upper bound is smaller than its lower bound is refused, unless the lower bound
    is 0; when each pair is in order, the set is refused exactly when one range
    starts below 0 and another, not starting below 0, ends above [INT64_MAX]; and
    otherwise the result is signed exactly when a range starts below 0, and of the
    integers of its type it denotes exactly those of the ranges.  A single range from
    below 0 to above [INT64_MAX] is thus accepted and cut off at [INT64_MAX], where
    README.md says that such a set is an error. *)
Theorem get_rng_set_denotes jobj key rs_jobj (bs : list (Z * Z)) :
  ~ some_malloc_fails -> json_object_object_get_ex jobj key = Some rs_jobj ->
  json_object_get_type rs_jobj = json_type_array -> Forall2 pair_jobj (json_object_array rs_jobj) bs -> bs <> [] ->
  (Exists bounds_rejected bs -> gives (Err ACTF_INVALID_RANGE) (json_object_key_get_rng_set jobj key)) /\
  (Forall (fun b => fst b <= snd b) bs ->
   if has_negative bs && has_large bs then gives (Err ACTF_INVALID_RANGE_SET) (json_object_key_get_rng_set jobj key)
   else exists rs, gives (Ok rs) (json_object_key_get_rng_set jobj key) /\
     match rs with
     | RNG_SINT _ => has_negative bs = true /\ forall v, is_i64 v -> rng_mem rs v <-> in_bounds bs v
     | RNG_UINT _ => has_negative bs = false /\ forall v, is_u64 v -> rng_mem rs v <-> in_bounds bs v
     end).
Proof.
  intros Hok Hkey Hty Hjs Hne.
  assert (Hb : Forall (fun b => INT64_MIN <= fst b /\ snd b <= UINT64_MAX) bs).
  { clear -Hjs. induction Hjs as [|j b js bs (_ & lo & hi & _ & [_ [? _]] & [_ [? _]]) _ IH]; constructor; [|done]. lia. }
  pose proof (get_rng_set_gives jobj key rs_jobj bs Hok Hkey Hty Hjs Hne) as Hg. split.
  - intros Hr. rewrite (proj2 (exists_existsb _ _)) in Hg; [done|].
    eapply Exists_impl; [exact Hr|]. intros [l u] [Hul Hl]. cbn in *. destruct (Z.ltb_spec u l), (Z.eqb_spec l 0); (done || lia).
  - intros Ho. rewrite existsb_none in Hg.
    2: { eapply Forall_impl; [exact Ho|]. intros [l u]. cbn. intros ?. destruct (Z.ltb_spec u l); [lia|done]. }
    unfold rng_set_of_bounds in Hg. destruct (has_negative bs && has_large bs) eqn:Hnl; [done|]. eexists. split; [done|].
    destruct (has_negative bs) eqn:Hn; cbn in Hnl; (split; [done|]); [by apply signed_denotes|by apply unsigned_denotes].
Qed.
End JsonRng.

Definition rngs_json (bs : list (Z * Z)) : jval := JArr (map (fun b => JArr [JInt (fst b); JInt (snd b)]) bs).

Lemma rngs_json_pairs bs : Forall (fun b => INT64_MIN <= fst b <= UINT64_MAX /\ INT64_MIN <= snd b <= UINT64_MAX) bs ->
  Forall2 pair_jobj (json_object_array (rngs_json bs)) bs.
Proof.
  assert (Hj : forall v, INT64_MIN <= v <= UINT64_MAX -> int_jobj (JInt v) v).
  { intros v Hv. split; [done|]. split; [done|]. cbn. unfold clamp, INT64_MIN, INT64_MAX, UINT64_MAX in *. lia. }
  induction 1 as [|[l u] bs [Hl Hu] _ IH]; constructor; [|done]. split; [done|]. exists (JInt l), (JInt u). auto.
Qed.

Lemma heap_ok_ok : ~ @some_malloc_fails heap_ok.
Proof. by intros []. Qed.

(** Ranges of which one is negative, and one ends above [INT64_MAX]. *)
Example get_rng_set_denotes_witness :
  let bs := [(- 1, 2 ^ 63); (5, 6)] in
  exists rs, gives (Ok rs) (json_object_key_get_rng_set (H0 := heap_ok) (JObj [("r", rngs_json bs)]%string) "r") /\
    rs = RNG_SINT [mk_srng (- 1) INT64_MAX; mk_srng 5 6] /\ (forall v, is_i64 v -> rng_mem rs v <-> in_bounds bs v).
Proof.
  intros bs. assert (Hb : Forall2 pair_jobj (json_object_array (rngs_json bs)) bs).
  { apply rngs_json_pairs. repeat (constructor; [done|]). constructor. }
  pose proof (get_rng_set_denotes (H0 := heap_ok) (JObj [("r", rngs_json bs)]%string) "r" (rngs_json bs) bs heap_ok_ok
                eq_refl eq_refl Hb ltac:(done)) as [_ Hg].
  destruct Hg as (rs & Hg & Hm); [by repeat (constructor; [cbn; lia|])|]. exists rs. split; [done|].
  assert (Hrs : rs = RNG_SINT [mk_srng (- 1) INT64_MAX; mk_srng 5 6]).
  { specialize (Hg O). assert (E : fst (json_object_key_get_rng_set (H0 := heap_ok) (JObj [("r", rngs_json bs)]%string) "r" O) =
      Ok (RNG_SINT [mk_srng (- 1) INT64_MAX; mk_srng 5 6])) by reflexivity. congruence. }
  split; [done|]. rewrite Hrs in *. apply Hm.
Defined.

(** A range from 0 to a negative integer is read as the range of 0. *)
Example zero_to_negative_is_zero :
  fst (json_object_key_get_rng_set (H0 := heap_ok) (JObj [("r", rngs_json [(0, - 5)])]%string) "r" O) = Ok (RNG_UINT [mk_urng 0 0]).
Proof. reflexivity. Qed.

(** Mappings of a signed integer with a range above [INT64_MAX] before another: the
    first of the two ranges is what the allocation held. *)
Example mapping_reads_uninitialised :
  let m := JObj [("m", JObj [("a", rngs_json [(2 ^ 63, 2 ^ 63 + 1); (1, 2)])])]%string in
  let h junk := {| malloc_ok := fun _ => true; junk_srng := junk; junk_urng := mk_urng 0 0 |} in
  fst (json_object_key_get_mappings (H0 := h (mk_srng 7 8)) m "m" true O) = Ok (SMAPS [("a"%string, [mk_srng 7 8])]) /\
  fst (json_object_key_get_mappings (H0 := h (mk_srng 9 9)) m "m" true O) = Ok (SMAPS [("a"%string, [mk_srng 9 9])]).
Proof. split; reflexivity. Qed.

(** Unsigned mappings read negative bounds as 0, and drop nothing. *)
Example unsigned_mapping_of_negative :
  fst (json_object_key_get_mappings (H0 := heap_ok) (JObj [("m", JObj [("a", rngs_json [(- 5, 2)])])]%string) "m" false O) =
  Ok (UMAPS [("a"%string, [mk_urng 0 2])]).
Proof. reflexivity. Qed.
