(* ===== verification/Mappings.v ===== *)
(** Integer mappings, [mappings.c]: names for ranges of integers.  The parser's raw
    mappings are searched one after the other; those of a field class are kept as
    one interval tree of the ranges of all names.

    [qsort] of the C library is a parameter, with what the C standard says of it as
    its law. *)
From S2P Require Import Prelude Common Error Rng RbTree Ival FldCls Json JsonUtils.
From stdpp Require Import list strings sorting.
From Stdlib Require Import Ascii.
Open Scope Z_scope.

(** * Raw mappings *)

Definition mappings_len (maps : mappings) : Z :=
  match maps with SMAPS m => Z.of_nat (length m) | UMAPS m => Z.of_nat (length m) end.

(** The loop of the [_find] functions from index [i]: the name and the index to go
    on from. *)
Fixpoint find_from {R} (test : R -> bool) (maps : list (string * R)) (i : Z) : option (string * Z) :=
  match maps with
  | [] => None
  | (name, rs) :: maps' => if test rs then Some (name, i + 1) else find_from test maps' (i + 1)
  end.

Definition MAPPINGS_IT_BEGIN : Z := 0.

Definition umappings_find (maps : list (string * list urng)) (val it : Z) : option (string * Z) :=
  find_from (fun urs => urng_set_intersect urs val) (drop (Z.to_nat it) maps) it.

Definition smappings_find (maps : list (string * list srng)) (val it : Z) : option (string * Z) :=
  find_from (fun srs => srng_set_intersect srs val) (drop (Z.to_nat it) maps) it.

Definition umappings_find_first (maps : list (string * list urng)) (val : Z) : option string :=
  fst <$> umappings_find maps val MAPPINGS_IT_BEGIN.

Definition smappings_find_first (maps : list (string * list srng)) (val : Z) : option string :=
  fst <$> smappings_find maps val MAPPINGS_IT_BEGIN.

Definition mappings_find_uint (maps : mappings) (val it : Z) : option (string * Z) :=
  match maps with
  | SMAPS m => if val >? INT64_MAX then None else smappings_find m (i64 val) it
  | UMAPS m => umappings_find m val it
  end.

Definition mappings_find_sint (maps : mappings) (val it : Z) : option (string * Z) :=
  match maps with
  | SMAPS m => smappings_find m val it
  | UMAPS m => if val <? 0 then None else umappings_find m (u64 val) it
  end.

Definition mappings_find_first_uint (maps : mappings) (val : Z) : option string :=
  match maps with
  | SMAPS m => if val >? INT64_MAX then None else smappings_find_first m (i64 val)
  | UMAPS m => umappings_find_first m val
  end.

Definition mappings_find_first_sint (maps : mappings) (val : Z) : option string :=
  match maps with
  | SMAPS m => smappings_find_first m val
  | UMAPS m => if val <? 0 then None else umappings_find_first m (u64 val)
  end.

(** * Sorting *)

(** A comparison function of the code; [None] where it is undefined. *)
Definition comparison R := R -> R -> option Z.

(** [qsort] needs a comparison that orders the elements of the array; otherwise it
    is undefined. *)
Definition cmp_ordersb {R} (cmp : comparison R) (l : list R) : bool :=
  forallb (fun a => forallb (fun b =>
    match cmp a b, cmp b a with
    | Some x, Some y =>
        (Z.sgn x =? - Z.sgn y) &&
        forallb (fun c => match cmp b c, cmp a c with
                          | Some y, Some z => negb (x <=? 0) || negb (y <=? 0) || (z <=? 0)
                          | _, _ => false
                          end) l
    | _, _ => false
    end) l) l.

Class QSort := qsort : forall R, (R -> R -> Z) -> list R -> list R.
Arguments qsort {_ R}.

Class QSortLaws `{QSort} := {
  qsort_perm R (cmp : comparison R) l : cmp_ordersb cmp l = true ->
    qsort (fun a b => default 0 (cmp a b)) l ≡ₚ l;
  qsort_sorted R (cmp : comparison R) l : cmp_ordersb cmp l = true ->
    StronglySorted (fun a b => default 0 (cmp a b) <= 0) (qsort (fun a b => default 0 (cmp a b)) l)
}.

(** The comparisons of the code narrow the difference of the lower bounds to
    [int]; the difference of two [int64_t] can overflow. *)
Definition urng_cmp : comparison urng := fun r1 r2 =>
  Some (if u_lower r1 >=? u_lower r2 then i32 (u64 (u_lower r1 - u_lower r2)) else -1).

Definition srng_cmp : comparison srng := fun r1 r2 =>
  let d := s_lower r1 - s_lower r2 in
  if (INT64_MIN <=? d) && (d <=? INT64_MAX) then Some (i32 d) else None.

(** * The intervals of mappings *)

Section Init.
Context `{Heap, QSort}.

(** [init_uivalt] and [init_sivalt] have the same text over their types of
    ranges. *)
Section Ivals.
Context {R : Type} (lower upper : R -> Z) (mk : Z -> Z -> R) (intersect : R -> R -> bool) (cmp : comparison R).

(** The loop over sorted ranges: [top] grows with those that intersect it. *)
Fixpoint merge_rngs (top : R) (rs : list R) : list R :=
  match rs with
  | [] => [top]
  | r :: rs' =>
      if intersect r top then merge_rngs (mk (lower top) (MAX (upper r) (upper top))) rs'
      else top :: merge_rngs r rs'
  end.

Definition ivals_of (m : string * list R) : st nat (list ival) :=
  if cmp_ordersb cmp (snd m) then
    match qsort (fun a b => default 0 (cmp a b)) (snd m) with
    | [] => mret []
    | r :: rs => mret (map (fun top => mk_ival (lower top) (upper top) (fst m) 0) (merge_rngs r rs))
    end
  else st_undef.

(** A pointer to the [i]-th interval, and to the sentinel. *)
Definition ival_ptr (i : nat) : ptr := Z.of_nat i + 1.
Definition nil_ptr : ptr := -1.

(** The memory of the array; the links are zeroed. *)
Definition ival_nodes (ivals : list ival) : gmap Z (rb_node ival) :=
  list_to_map (imap (fun i iv => (ival_ptr i, mk_node 0 0 0 false (Some iv))) ivals).

(** Inserts [n] intervals from the [i]-th on. *)
Fixpoint insert_all (i n : nat) : st ivt unit :=
  match n with
  | O => mret tt
  | S n => t_insert (ival_ptr i);; insert_all (S i) n
  end.

Definition init_ivalt (maps : list (string * list R)) : st nat (Z * ivt) :=
  malloc;;
  ivals ← mapM ivals_of maps;
  let ivals := concat ivals in
  malloc;;
  match insert_all 0 (length ivals) (rb_tree_init nil_ptr (ival_nodes ivals)) with
  | (Ok _, s) => mret (Z.of_nat (length ivals), s)
  | _ => st_undef
  end.
End Ivals.

Definition init_uivalt := init_ivalt u_lower u_upper mk_urng urng_intersect_urng urng_cmp.
Definition init_sivalt := init_ivalt s_lower s_upper mk_srng srng_intersect_srng srng_cmp.

Definition actf_mappings_init (raw_maps : mappings) : st nat actf_mappings :=
  match raw_maps with
  | SMAPS smaps => '(len, t) ← init_sivalt smaps; mret (mk_actf_mappings true len t (map fst smaps))
  | UMAPS umaps => '(len, t) ← init_uivalt umaps; mret (mk_actf_mappings false len t (map fst umaps))
  end.
End Init.

(** The comparison orders the ranges of every name. *)
Definition maps_ordered (raw_maps : mappings) : bool :=
  match raw_maps with
  | SMAPS smaps => forallb (fun m => cmp_ordersb srng_cmp (snd m)) smaps
  | UMAPS umaps => forallb (fun m => cmp_ordersb urng_cmp (snd m)) umaps
  end.

(** * Lookup *)

Definition actf_mappings_len (maps : actf_mappings) : Z := Z.of_nat (length (m_names maps)).

(** The name of the next match and the iterator; the tree is not changed. *)
Definition mappings_find (ld : Z -> Z) (maps : actf_mappings) (val : Z) (it : option ptr) : outcome (option (string * ptr)) :=
  fst ((match_ ← t_intersect_pt ld val it;
        match match_ with
        | Some x => iv ← unpack x; mret (Some (iv_value iv, x))
        | None => mret None
        end) (m_ivt maps)).

Definition actf_mappings_find_uint := mappings_find u64.
Definition actf_mappings_find_sint := mappings_find i64.

Definition find_first (o : outcome (option (string * ptr))) : outcome (option string) :=
  match o with Ok m => Ok (fst <$> m) | Err rc => Err rc | Undef => Undef end.

Definition actf_mappings_find_first_uint (maps : actf_mappings) (val : Z) := find_first (actf_mappings_find_uint maps val None).
Definition actf_mappings_find_first_sint (maps : actf_mappings) (val : Z) := find_first (actf_mappings_find_sint maps val None).

(** ** Printing names (print.c) *)

Definition quote : string := String (ascii_of_nat 34) EmptyString.
Definition quoted (name : string) : string := (quote ++ name ++ quote)%string.

(** The loop of the [_fprint_names] functions: what is printed after [n] names, and
    the number of names. *)
Fixpoint fprint_names_loop {I} (find : option I -> outcome (option (string * I))) (fuel : nat) (it : option I) (n : Z) :
    outcome (string * Z) :=
  match fuel with
  | O => Undef
  | S fuel =>
      match find it with
      | Ok (Some (name, it')) =>
          match fprint_names_loop find fuel (Some it') (n + 1) with
          | Ok (text, n') => Ok ((if n >? 0 then "," ++ quoted name else quoted name) ++ text, n')%string
          | r => r
          end
      | Ok None => Ok (""%string, n)
      | Err rc => Err rc
      | Undef => Undef
      end
  end.

(** Each interval is printed at most once. *)
Definition mappings_fprint_names (find : actf_mappings -> Z -> option ptr -> outcome (option (string * ptr)))
    (maps : actf_mappings) (val : Z) : outcome (string * Z) :=
  fprint_names_loop (find maps val) (S (Z.to_nat (m_ivals_len maps))) None 0.

Definition umappings_fprint_names := mappings_fprint_names actf_mappings_find_uint.
Definition smappings_fprint_names := mappings_fprint_names actf_mappings_find_sint.

Definition actf_flags_fprint_names (bm : actf_flags) (val : Z) : outcome (string * Z) :=
  fprint_names_loop (fun it => Ok (actf_flags_find bm val (default 0 it))) (S (length (flag_maps bm))) None 0.
