(* ===== verification/MappingsTree.v ===== *)
(** The interval trees of mappings find what the raw mappings find: building a tree
    from raw mappings, and the names that repeated lookups give. *)
From S2P Require Import Prelude Common Rng FldCls Json JsonUtils.
From stdpp Require Import list strings sorting.
From S2P Require Import RbTree RbRotate RbInsert Ival IvalTree IvalSearch Mappings.
Open Scope Z_scope.

(** * The ranges of one name *)

Section Ranges.
Context `{QSortLaws}.
Context {R : Type} (lower upper : R -> Z) (mk : Z -> Z -> R) (intersect : R -> R -> bool) (cmp : comparison R).
Hypothesis mk_lower : forall a b, lower (mk a b) = a.
Hypothesis mk_upper : forall a b, upper (mk a b) = b.
Hypothesis intersect_def : forall a b, intersect a b = negb ((upper a <? lower b) || (lower a >? upper b)).
Variable wf : R -> Prop.
Hypothesis wf_le : forall r, wf r -> lower r <= upper r.

(** Lower bounds so close that their difference fits in an [int]. *)
Definition near (a b : R) : Prop := Z.abs (lower a - lower b) < 2 ^ 31.
Hypothesis cmp_near : forall a b, wf a -> wf b -> near a b ->
  exists v, cmp a b = Some v /\ Z.sgn v = Z.sgn (lower a - lower b).

Definition all_near (rs : list R) : Prop := forall a b, a ∈ rs -> b ∈ rs -> near a b.

Lemma near_orders rs : Forall wf rs -> all_near rs -> cmp_ordersb cmp rs = true.
Proof.
  intros Hwf Hn. rewrite Forall_forall in Hwf. unfold cmp_ordersb.
  assert (Hc : forall a b, a ∈ rs -> b ∈ rs -> exists v, cmp a b = Some v /\ Z.sgn v = Z.sgn (lower a - lower b)) by auto.
  apply forallb_forall. intros a Ha%list_elem_of_In. apply forallb_forall. intros b Hb%list_elem_of_In.
  destruct (Hc a b Ha Hb) as (x & -> & Hx). destruct (Hc b a Hb Ha) as (y & -> & Hy).
  apply andb_true_intro. split; [apply Z.eqb_eq; rewrite Hx, Hy, <- Z.sgn_opp; f_equal; lia|].
  apply forallb_forall. intros c Hc'%list_elem_of_In.
  destruct (Hc b c Hb Hc') as (v & -> & Hv). destruct (Hc a c Ha Hc') as (w & -> & Hw).
  destruct (Z.leb_spec x 0), (Z.leb_spec v 0), (Z.leb_spec w 0); cbn; try done; exfalso; lia.
Qed.

Definition contains (pt : Z) (r : R) : bool := (lower r <=? pt) && (pt <=? upper r).

Definition sorted_ranges (rs : list R) : Prop :=
  StronglySorted (fun a b => lower a <= lower b) rs /\ Forall (fun r => lower r <= upper r) rs.

(** Merging gives disjoint ranges with the same numbers. *)
Lemma merge_spec pt top rs : sorted_ranges (top :: rs) ->
  length (List.filter (contains pt) (merge_rngs lower upper mk intersect top rs)) =
  (if existsb (contains pt) (top :: rs) then 1 else 0)%nat.
Proof.
  revert top. induction rs as [|r rs IH]; intros top [Hs Hw]; cbn [merge_rngs existsb].
  - cbn. by destruct (contains pt top).
  - apply StronglySorted_inv in Hs as [Hs Ht]. inversion Ht as [|? ? Hle Ht']; subst. inversion Hw as [|? ? Hwt Hw']; subst.
    inversion Hw' as [|? ? Hwr Hw'']; subst. apply StronglySorted_inv in Hs as [Hs Hr]. rewrite intersect_def.
    destruct (Z.ltb_spec (upper r) (lower top)); [lia|]. cbn [orb]. rewrite Z.gtb_ltb.
    destruct (Z.ltb_spec (upper top) (lower r)) as [Hgap|Hov]; cbn [negb].
    + cbn [List.filter]. specialize (IH r ltac:(by split; constructor)). destruct (contains pt top) eqn:Et; [|done].
      cbn [length orb]. rewrite IH. replace (existsb (contains pt) (r :: rs)) with false; [done|]. symmetry.
      apply not_true_is_false. rewrite existsb_exists. intros (q & Hq%list_elem_of_In & Hc). unfold contains in *.
      rewrite Forall_forall in Hr. apply elem_of_cons in Hq as [->|Hq]; [|specialize (Hr q Hq)]; lia.
    + unfold MAX. rewrite Z.gtb_ltb. set (u := if upper top <? upper r then _ else _).
      assert (Hu : u = Z.max (upper r) (upper top)) by (unfold u; destruct (Z.ltb_spec (upper top) (upper r)); lia).
      rewrite IH.
      * cbn [existsb]. rewrite orb_assoc. replace (contains pt (mk (lower top) u)) with (contains pt top || contains pt r); [done|].
        unfold contains. rewrite mk_lower, mk_upper, Hu. lia.
      * split; [|constructor; [rewrite mk_lower, mk_upper; lia|done]].
        constructor; [done|]. eapply Forall_impl; [exact Ht'|]. intros q Hq. by rewrite mk_lower.
Qed.

(** What holds of all bounds holds of those of the merged ranges. *)
Lemma merge_bounds (B1 B2 : Z -> Prop) top rs : Forall (fun r => B1 (lower r) /\ B2 (upper r)) (top :: rs) ->
  Forall (fun r => B1 (lower r) /\ B2 (upper r)) (merge_rngs lower upper mk intersect top rs).
Proof.
  revert top. induction rs as [|r rs IH]; intros top Hb; cbn [merge_rngs]; [done|].
  inversion Hb as [|? ? Ht Hb']; subst. inversion Hb' as [|? ? Hr Hrs]; subst. destruct (intersect r top).
  - apply IH. constructor; [|done]. rewrite mk_lower, mk_upper. unfold MAX. split; [apply Ht|]. destruct (_ >? _); [apply Hr|apply Ht].
  - constructor; [done|]. apply IH. by constructor.
Qed.

Lemma sorted_ok rs : Forall wf rs -> all_near rs -> sorted_ranges (qsort (fun a b => default 0 (cmp a b)) rs).
Proof.
  intros Hwf Hn. pose proof (near_orders rs Hwf Hn) as Ho. pose proof (qsort_perm R cmp rs Ho) as Hp.
  pose proof (qsort_sorted R cmp rs Ho) as Hs. rewrite <- Hp in Hwf. split.
  - assert (Hn' : all_near (qsort (fun a b => default 0 (cmp a b)) rs)) by (intros a b; rewrite Hp; apply Hn).
    clear -Hs Hn' Hwf cmp_near. induction Hs as [|a l Hs IH Ha]; [constructor|]. inversion Hwf as [|? ? Hwa Hwl]; subst.
    constructor; [apply IH; [done|intros x y ? ?; apply Hn'; set_solver]|].
    rewrite Forall_forall in *. intros b Hb. specialize (Ha b Hb). cbn in Ha.
    destruct (cmp_near a b Hwa (Hwl b Hb) (Hn' a b ltac:(set_solver) ltac:(set_solver))) as (v & E & Hv).
    rewrite E in Ha. cbn in Ha. lia.
  - eapply Forall_impl; [exact Hwf|exact wf_le].
Qed.

Lemma existsb_perm {A} (f : A -> bool) l l' : l ≡ₚ l' -> existsb f l = existsb f l'.
Proof.
  intros Hp. apply eq_true_iff_eq. rewrite !existsb_exists. setoid_rewrite <- list_elem_of_In. by setoid_rewrite Hp.
Qed.

Lemma filter_map {A B} (f : A -> bool) (g : B -> A) l : List.filter f (map g l) = map g (List.filter (fun x => f (g x)) l).
Proof. induction l as [|x l IH]; [done|]. cbn. rewrite IH. by destruct (f (g x)). Qed.

Lemma contains_ival name pt r :
  contains pt r = ival_intersects_pt (mk_ival (lower r) (upper r) name 0) pt.
Proof. unfold contains, ival_intersects_pt. cbn. by rewrite Z.geb_leb. Qed.

(** The intervals of one name: each number is in at most one. *)
Lemma ivals_of_run name rs n : Forall wf rs -> all_near rs ->
  exists l, ivals_of lower upper mk intersect cmp (name, rs) n = (Ok l, n) /\
    (forall pt, map iv_value (List.filter (fun iv => ival_intersects_pt iv pt) l) =
       if existsb (contains pt) rs then [name] else []) /\
    forall B1 B2 : Z -> Prop, Forall (fun r => B1 (lower r) /\ B2 (upper r)) rs -> Forall (fun iv => B1 (iv_lower iv) /\ B2 (iv_upper iv)) l.
Proof.
  intros Hwf Hn. unfold ivals_of. cbn [fst snd]. rewrite (near_orders rs Hwf Hn).
  pose proof (qsort_perm R cmp rs (near_orders rs Hwf Hn)) as Hp. pose proof (sorted_ok rs Hwf Hn) as Hs.
  set (f := fun a b => default 0 (cmp a b)) in *. destruct (qsort f rs) as [|r rs'] eqn:Eq.
  - apply Permutation_nil in Hp as ->. exists []. by split_and!.
  - eexists. split; [done|]. split.
    + intros pt. pose proof (merge_spec pt r rs' Hs) as Hm. rewrite filter_map, map_map. cbn [iv_value].
      replace (existsb (contains pt) rs) with (existsb (contains pt) (r :: rs')) by by apply existsb_perm.
      erewrite filter_ext in Hm by (intros q; apply (contains_ival name)). destruct (existsb _ _), (List.filter _ _) as [|q [|]]; done.
    + intros B1 B2 HB. apply Forall_map. eapply Forall_impl; [apply (merge_bounds B1 B2); by rewrite Hp|]. intros q Hq. exact Hq.
Qed.
End Ranges.

(** * Building the tree *)

(** The entries of the array. *)
Definition entries (l : list ival) : list entry := imap (fun i iv => (ival_ptr i, iv_key iv)) l.

Lemma entries_snoc l iv : entries (l ++ [iv]) = entries l ++ [(ival_ptr (length l), iv_key iv)].
Proof. unfold entries. rewrite imap_app. cbn. by rewrite Nat.add_0_r. Qed.

Lemma entries_keys l : map snd (entries l) = map iv_key l.
Proof. unfold entries. generalize 0%nat as j. 
  assert (H : forall f : nat -> nat, map snd (imap (fun i iv => (ival_ptr (f i), iv_key iv)) l) = map iv_key l).
  { induction l as [|iv l IH]; intros f; [done|]. cbn. f_equal. apply (IH (fun i => f (S i))). }
  intros _. apply (H (fun i => i)).
Qed.

Lemma ival_nodes_lookup l i : rbt_nodes (rb_tree_init nil_ptr (ival_nodes l)) !! ival_ptr i =
  (fun iv => mk_node 0 0 0 false (Some iv)) <$> l !! i.
Proof.
  cbn. rewrite lookup_insert_ne by (unfold nil_ptr, ival_ptr; lia). unfold ival_nodes.
  destruct (l !! i) as [iv|] eqn:E; cbn.
  - apply elem_of_list_to_map_1'; [|apply elem_of_lookup_imap; by exists i, iv].
    intros n Hn. apply elem_of_lookup_imap in Hn as (j & iv' & [= Hj ->] & Hl). unfold ival_ptr in Hj.
    assert (i = j) as -> by lia. congruence.
  - apply not_elem_of_list_to_map_1. intros Hi. apply list_elem_of_fmap in Hi as ([p n] & Hp & Hi).
    apply elem_of_lookup_imap in Hi as (j & iv' & [= -> ->] & Hl). cbn in Hp. unfold ival_ptr in Hp.
    assert (i = j) as -> by lia. congruence.
Qed.

Lemma insert_all_run l n i s t : (i + n = length l)%nat -> holds nil_ptr t s -> elems t ≡ₚ entries (take i l) ->
  (forall j, (i <= j)%nat -> rbt_nodes s !! ival_ptr j = (fun iv => mk_node 0 0 0 false (Some iv)) <$> l !! j) ->
  exists s' t', insert_all i n s = (Ok tt, s') /\ holds nil_ptr t' s' /\ elems t' ≡ₚ entries l.
Proof.
  revert i s t. induction n as [|n IH]; intros i s t Hi Hh He Hs.
  - exists s, t. split_and!; [done|done|]. rewrite He, take_ge by lia. done.
  - destruct (lookup_lt_is_Some_2 l i ltac:(lia)) as [iv Hiv].
    pose proof (Hs i ltac:(lia)) as Hn. rewrite Hiv in Hn. cbn in Hn.
    assert (Hids : forall j, (i <= j)%nat -> ival_ptr j ∉ ids t).
    { intros j Hj. rewrite <- (elems_ids iv_key), He. intros H. apply list_elem_of_fmap in H as ([p k] & Hp & H).
      unfold entries in H. apply elem_of_lookup_imap in H as (j' & iv' & [= -> ->] & Hl). cbn in Hp. unfold ival_ptr in Hp.
      apply lookup_lt_Some in Hl. rewrite length_take in Hl. lia. }
    destruct (t_insert_spec nil_ptr s t (ival_ptr i) _ iv Hh (Hids i ltac:(lia)) ltac:(unfold nil_ptr, ival_ptr; lia) Hn eq_refl)
      as (s1 & t1 & Hrun & Hh1 & He1 & Ho).
    destruct (IH (S i) s1 t1 ltac:(lia) Hh1) as (s2 & t2 & Hrun2 & Hh2 & He2).
    + rewrite He1, He, (take_S_r _ _ _ Hiv), entries_snoc, length_take, Nat.min_l by lia. by rewrite Permutation_app_comm.
    + intros j Hj. rewrite Ho; [apply Hs; lia|]. apply not_elem_of_cons. split; [unfold ival_ptr; lia|apply Hids; lia].
    + exists s2, t2. split_and!; [|done|done]. cbn [insert_all]. by erewrite st_bind_ok by exact Hrun.
Qed.

Lemma build_run l : exists s t,
  insert_all 0 (length l) (rb_tree_init nil_ptr (ival_nodes l)) = (Ok tt, s) /\ holds nil_ptr t s /\ elems t ≡ₚ entries l.
Proof.
  apply (insert_all_run l (length l) 0 _ Leaf); [done|apply init_holds|done|]. intros j _. apply ival_nodes_lookup.
Qed.

(** ** When the tree can be built *)

Section Outcome.
Context `{Heap, QSort}.

Section Ranges.
Context {R : Type} (lower upper : R -> Z) (mk : Z -> Z -> R) (intersect : R -> R -> bool) (cmp : comparison R).
Notation ordered := (forallb (fun m : string * list R => cmp_ordersb cmp (snd m))).
Notation init := (init_ivalt lower upper mk intersect cmp).
Notation ivals := (ivals_of lower upper mk intersect cmp).

Lemma ivals_ordered m : cmp_ordersb cmp (snd m) = true ->
  exists l, (forall n, ivals m n = (Ok l, n)) /\ Forall (fun iv => iv_value iv = fst m) l.
Proof.
  unfold ivals_of. intros ->. destruct (qsort _ _) as [|top rs]; eexists; (split; [done|]); [done|]. by apply Forall_map, Forall_true.
Qed.

Lemma all_ivals_ordered maps : ordered maps = true ->
  exists ls, (forall n, mapM ivals maps n = (Ok ls, n)) /\ Forall (fun iv => iv_value iv ∈ map fst maps) (concat ls).
Proof.
  induction maps as [|m maps IH]; cbn [forallb]; [intros _; by exists []|]. intros [Hm Hms]%andb_true_iff.
  destruct (ivals_ordered m Hm) as (l & Hl & Hlv). destruct (IH Hms) as (ls & Hls & Hlsv). exists (l :: ls). split.
  - intros n. cbn [mapM]. erewrite st_bind_ok by exact (Hl n). by erewrite st_bind_ok by exact (Hls n).
  - cbn. apply Forall_app_2; [eapply Forall_impl; [exact Hlv|]|eapply Forall_impl; [exact Hlsv|]]; cbn; intros iv Hiv; [rewrite Hiv; by left|by right].
Qed.

(** Ordered ranges always give the same tree, whatever their numbers. *)
Lemma init_gives maps : ordered maps = true ->
  exists len s t, sat (fun r => r = (len, s)) (fun rc => rc = ACTF_OOM /\ some_malloc_fails) False (init maps) /\
    holds nil_ptr t s /\ len = Z.of_nat (length (elems t)) /\ Forall (fun e => k_value (snd e) ∈ map fst maps) (elems t).
Proof.
  intros (ls & Hls & Hv)%all_ivals_ordered. destruct (build_run (concat ls)) as (s & t & Hbuild & Hh & He).
  exists (Z.of_nat (length (concat ls))), s, t. split_and!; [|done| |].
  - unfold init_ivalt. eapply sat_bind; [by apply sat_malloc|]. intros _ _.
    eapply (sat_bind (fun ls' => ls' = ls)); [intros n; by rewrite Hls|]. intros ? ->.
    eapply sat_bind; [by apply sat_malloc|]. intros _ _ n. by rewrite Hbuild.
  - rewrite He. unfold entries. by rewrite length_imap.
  - rewrite He. apply Forall_forall. intros e Hin. apply (list_elem_of_fmap_2 snd) in Hin. change (fmap snd) with (map (@snd ptr (Z * Z * string))) in Hin.
    rewrite entries_keys in Hin. apply list_elem_of_fmap in Hin as (iv & Hk & Hiv). rewrite Hk. rewrite Forall_forall in Hv. by apply Hv.
Qed.

Lemma all_ivals_undef maps : ordered maps = false -> gives Undef (mapM ivals maps).
Proof.
  induction maps as [|m maps IH]; [done|]. cbn [forallb mapM]. intros Ho n. destruct (cmp_ordersb cmp (snd m)) eqn:Em.
  - destruct (ivals_ordered m Em) as (l & Hl & _). rewrite (st_bind_ok _ _ _ _ _ (Hl n)). by apply bind_undef, IH.
  - apply bind_undef. unfold ivals_of. by rewrite Em.
Qed.

Lemma init_undef maps n : ordered maps = false -> malloc_ok n = true -> fst (init maps n) = Undef.
Proof.
  intros Ho Hn. unfold init_ivalt. rewrite (st_bind_ok malloc _ n tt (S n)) by (unfold malloc; by rewrite Hn).
  by apply bind_undef, all_ivals_undef.
Qed.
End Ranges.

Definition names_of (raw : mappings) : list string := match raw with SMAPS l => map fst l | UMAPS l => map fst l end.
Definition is_smaps (raw : mappings) : bool := match raw with SMAPS _ => true | UMAPS _ => false end.

(** What the tree of ordered mappings is like. *)
Definition built (raw : mappings) (m : actf_mappings) : Prop :=
  m_signed m = is_smaps raw /\ m_names m = names_of raw /\
  exists t, holds nil_ptr t (m_ivt m) /\ m_ivals_len m = Z.of_nat (length (elems t)) /\
    Forall (fun e => k_value (snd e) ∈ m_names m) (elems t).

Lemma mappings_init_sat raw : maps_ordered raw = true ->
  exists m, built raw m /\ sat (fun m' => m' = m) (fun rc => rc = ACTF_OOM /\ some_malloc_fails) False (actf_mappings_init raw).
Proof.
  destruct raw as [l|l]; cbn [maps_ordered actf_mappings_init]; intros Ho.
  - destruct (init_gives s_lower s_upper mk_srng srng_intersect_srng srng_cmp l Ho) as (len & s & t & Hs & Hh & Hl & Hv).
    exists (mk_actf_mappings true len s (map fst l)). split; [split; [done|]; split; [done|]; by exists t|].
    eapply sat_bind; [exact Hs|]. intros ? ->. by apply sat_ret.
  - destruct (init_gives u_lower u_upper mk_urng urng_intersect_urng urng_cmp l Ho) as (len & s & t & Hs & Hh & Hl & Hv).
    exists (mk_actf_mappings false len s (map fst l)). split; [split; [done|]; split; [done|]; by exists t|].
    eapply sat_bind; [exact Hs|]. intros ? ->. by apply sat_ret.
Qed.

Lemma mappings_init_undef raw n : maps_ordered raw = false -> malloc_ok n = true -> fst (actf_mappings_init raw n) = Undef.
Proof. intros Ho Hn. destruct raw as [l|l]; apply bind_undef; by apply init_undef. Qed.

Lemma mappings_init_outcome raw :
  sat (fun _ => True) (fun rc => rc = ACTF_OOM) (maps_ordered raw = false) (actf_mappings_init raw).
Proof.
  intros n. destruct (maps_ordered raw) eqn:Ho.
  - destruct (mappings_init_sat raw Ho) as (m & _ & Hs). specialize (Hs n). destruct (fst _); [done|apply Hs|done].
  - destruct (malloc_ok n) eqn:Hn; [by rewrite mappings_init_undef|].
    destruct raw as [l|l]; cbn; unfold init_sivalt, init_uivalt, init_ivalt, malloc, mbind, st_bind; by rewrite Hn.
Qed.

(** The tree that is built of some mappings. *)
Definition tree_of (raw : mappings) (m : actf_mappings) : Prop := exists n n', actf_mappings_init raw n = (Ok m, n').

Lemma tree_gives raw m : ~ some_malloc_fails -> tree_of raw m -> gives (Ok m) (actf_mappings_init raw).
Proof.
  intros Hok (n & n' & Hr) k. destruct (maps_ordered raw) eqn:Ho.
  - destruct (mappings_init_sat raw Ho) as (m' & _ & Hs). pose proof (Hs n) as Hn. rewrite Hr in Hn. cbn in Hn. subst m'.
    specialize (Hs k). destruct (fst _); [by subst|by destruct Hs|done].
  - pose proof (mappings_init_undef raw n Ho (malloc_always Hok n)) as Hu. by rewrite Hr in Hu.
Qed.

(** C22: initialising mappings, when no allocation fails.  When the comparison that
    [qsort] gets orders the ranges of every name, whatever their numbers, the result
    is a tree in memory that satisfies all invariants of interval trees (parent
    pointers, lower bounds in order, colours and balance, the bounds of subtrees),
    with the counted number of intervals, each of which points to one of the names,
    and the names are those of the mappings; when it does not order them, the
    behaviour is undefined. *)
Theorem mappings_init_builds raw : ~ some_malloc_fails ->
  if maps_ordered raw then exists m, gives (Ok m) (actf_mappings_init raw) /\ built raw m
  else gives Undef (actf_mappings_init raw).
Proof.
  intros Hok. destruct (maps_ordered raw) eqn:Ho.
  - destruct (mappings_init_sat raw Ho) as (m & Hb & Hs). exists m. split; [|done]. intros n. specialize (Hs n).
    destruct (fst _); [by subst|by destruct Hs|done].
  - intros n. apply mappings_init_undef; [done|]. by apply malloc_always.
Qed.
End Outcome.

(** * Enumeration *)

(** The names that repeated calls of a lookup give. *)
Fixpoint enum {I} (find : option I -> outcome (option (string * I))) (fuel : nat) (it : option I) : outcome (list string) :=
  match fuel with
  | O => Undef
  | S fuel =>
      match find it with
      | Ok (Some (name, it')) =>
          match enum find fuel (Some it') with
          | Ok names => Ok (name :: names)
          | r => r
          end
      | Ok None => Ok []
      | Err rc => Err rc
      | Undef => Undef
      end
  end.

Section Lookup.
Variables (ld : Z -> Z) (m : actf_mappings) (t : itree) (val : Z).
Hypothesis Ht : holds nil_ptr t (m_ivt m).
Hypothesis Hs : searchable ld t.
Notation hs := (hits val val None t).

Lemma entry_node x key p (u : itree) : rep nil_ptr (rbt_nodes (m_ivt m)) p u -> (x, key) ∈ elems u ->
  exists iv, unpack x (m_ivt m) = (Ok iv, m_ivt m) /\ iv_value iv = k_value key.
Proof.
  revert p. induction u as [|l IHl y c d r IHr]; intros p; cbn; [set_solver|]. intros (Hy & Hl & Hr) Hx.
  rewrite elem_of_app, elem_of_cons in Hx. destruct Hx as [Hx|[[= -> ->]|Hx]]; [by eapply IHl| |by eapply IHr].
  exists d. split; [by eapply unpack_ok|done].
Qed.

(** One lookup, whatever the search returned. *)
Lemma find_run it es : t_intersect_pt ld val it (m_ivt m) = (Ok (fst <$> head es), m_ivt m) ->
  (forall e, e ∈ es -> e ∈ hs) ->
  mappings_find ld m val it = Ok ((fun e => (k_value (snd e), fst e)) <$> head es).
Proof.
  intros Hrun Hes. unfold mappings_find. erewrite st_bind_ok by exact Hrun. destruct es as [|[x key] es]; [done|]. cbn.
  assert (Hin : (x, key) ∈ elems t).
  { specialize (Hes (x, key) ltac:(set_solver)). unfold hits in Hes. rewrite <- pre_elems.
    apply list_elem_of_In, filter_In in Hes as [Hes _]. by apply list_elem_of_In. }
  destruct (entry_node x key _ t (r_tree _ _ _ _ (h_reps _ _ _ Ht)) Hin) as (iv & Hu & Hv).
  erewrite st_bind_ok by exact Hu. by rewrite Hv.
Qed.

Lemma enum_next b a e fuel : hs = a ++ e :: b -> (length b < fuel)%nat ->
  enum (mappings_find ld m val) fuel (Some (fst e)) = Ok (map (fun e => k_value (snd e)) b).
Proof.
  revert a e fuel. induction b as [|e' b IH]; intros a e fuel He Hf; (destruct fuel as [|fuel]; [cbn in Hf; lia|]); cbn [enum];
    rewrite (find_run _ _ (intersect_next ld val val nil_ptr (m_ivt m) t a e _ Ht Hs He)) by (intros e0; rewrite He; set_solver); cbn.
  - done.
  - rewrite (IH (a ++ [e])); [done|by rewrite <- app_assoc|cbn in Hf; lia].
Qed.

Lemma enum_all fuel : trusted val t -> (length hs < fuel)%nat ->
  enum (mappings_find ld m val) fuel None = Ok (map (fun e => k_value (snd e)) hs).
Proof.
  intros Htr Hf. destruct fuel as [|fuel]; [lia|]. cbn [enum].
  rewrite (find_run _ _ (intersect_first ld val val nil_ptr (m_ivt m) t Ht Hs Htr)) by done.
  destruct hs as [|e b] eqn:E; [done|]. cbn. by rewrite (enum_next b [] e) by (done || (cbn in Hf; lia)).
Qed.
End Lookup.

(** The linear search. *)
Lemma enum_from {R} (test : R -> bool) (maps : list (string * R)) fuel i : (length maps < i + fuel)%nat -> (i <= length maps)%nat ->
  enum (fun it => Ok (find_from test (drop (Z.to_nat (default 0 it)) maps) (default 0 it))) fuel (Some (Z.of_nat i)) =
  Ok (map fst (List.filter (fun m => test (snd m)) (drop i maps))).
Proof.
  revert i. induction fuel as [|fuel IH]; intros i Hf Hi; [lia|]. cbn [enum default]. unfold default at 1 2. cbn. rewrite Nat2Z.id.
  assert (Hff : forall l (j : nat), match find_from test l (Z.of_nat j) with
    | Some (name, it') => exists l1 rs l2, l = l1 ++ (name, rs) :: l2 /\ List.filter (fun m => test (snd m)) l1 = [] /\ test rs = true /\
         it' = Z.of_nat (j + length l1 + 1)
    | None => List.filter (fun m => test (snd m)) l = [] end).
  { induction l as [|[name rs] l IHl]; intros j; [done|]. cbn. destruct (test rs) eqn:E.
    - exists [], rs, l. split_and!; try done. cbn. lia.
    - specialize (IHl (S j)). replace (Z.of_nat j + 1) with (Z.of_nat (S j)) by lia.
      destruct (find_from test l _) as [[name' it']|]; [|done]. destruct IHl as (l1 & rs' & l2 & -> & H1 & H2 & ->).
      exists ((name, rs) :: l1), rs', l2. split_and!; [done|by cbn; rewrite E|done|cbn; lia]. }
  specialize (Hff (drop i maps) i). destruct (find_from _ _ _) as [[name it']|].
  - destruct Hff as (l1 & rs & l2 & E & H1 & H2 & ->). rewrite E, List.filter_app, H1. cbn. rewrite H2. cbn.
    assert (Hd : drop (i + length l1 + 1) maps = l2).
    { rewrite <- !drop_drop, E, drop_app_length. done. }
    assert (Hl : (length (drop i maps) = length l1 + S (length l2))%nat) by (rewrite E, length_app; done).
    rewrite length_drop in Hl. rewrite IH by lia. by rewrite Hd.
  - by rewrite Hff.
Qed.

(** What is printed for some names, [n] names before them. *)
Fixpoint joined (n : Z) (names : list string) : string :=
  match names with
  | [] => ""
  | name :: names' => (if n >? 0 then "," ++ quoted name else quoted name) ++ joined (n + 1) names'
  end%string.

Lemma fprint_enum {I} (find : option I -> outcome (option (string * I))) fuel it n names :
  enum find fuel it = Ok names -> fprint_names_loop find fuel it n = Ok (joined n names, n + Z.of_nat (length names)).
Proof.
  revert it n names. induction fuel as [|fuel IH]; intros it n names; cbn; [done|].
  destruct (find it) as [[[name it']|]|rc|]; [| |done|done].
  - destruct (enum find fuel (Some it')) as [names'|rc|] eqn:E; [|done|done]. intros [= <-]. rewrite (IH _ (n + 1) _ E). cbn.
    do 2 f_equal. lia.
  - intros [= <-]. cbn. do 2 f_equal. lia.
Qed.

(** * Mappings *)

Section Mappings.
Context `{Heap, QSortLaws}.
Hypothesis malloc_ok_all : forall n, malloc_ok n = true.

(** ** Any type of ranges *)

Section Init.
Context {R : Type} (lower upper : R -> Z) (mk : Z -> Z -> R) (intersect : R -> R -> bool) (cmp : comparison R) (wf : R -> Prop).
Hypothesis mk_lower : forall a b, lower (mk a b) = a.
Hypothesis mk_upper : forall a b, upper (mk a b) = b.
Hypothesis intersect_def : forall a b, intersect a b = negb ((upper a <? lower b) || (lower a >? upper b)).
Hypothesis wf_le : forall r, wf r -> lower r <= upper r.
Hypothesis cmp_near : forall a b, wf a -> wf b -> near lower a b ->
  exists v, cmp a b = Some v /\ Z.sgn v = Z.sgn (lower a - lower b).

Definition good (maps : list (string * list R)) : Prop := Forall (fun m => Forall wf (snd m) /\ all_near lower (snd m)) maps.

Lemma ivals_run maps n : good maps -> exists ls, mapM (ivals_of lower upper mk intersect cmp) maps n = (Ok ls, n) /\
  (forall pt, map iv_value (List.filter (fun iv => ival_intersects_pt iv pt) (concat ls)) =
     map fst (List.filter (fun m => existsb (contains lower upper pt) (snd m)) maps)) /\
  forall B1 B2 : Z -> Prop, Forall (fun m => Forall (fun r => B1 (lower r) /\ B2 (upper r)) (snd m)) maps ->
    Forall (fun iv => B1 (iv_lower iv) /\ B2 (iv_upper iv)) (concat ls).
Proof.
  induction 1 as [|[name rs] maps [Hwf Hn] Hg (ls & Hrun & Hv & Hb)].
  - exists []. by split_and!.
  - destruct (ivals_of_run lower upper mk intersect cmp mk_lower mk_upper intersect_def wf wf_le cmp_near name rs n Hwf Hn)
      as (l & Hl & Hlv & Hlb).
    exists (l :: ls). split_and!.
    + cbn [mapM]. erewrite st_bind_ok by exact Hl. by erewrite st_bind_ok by exact Hrun.
    + intros pt. cbn. rewrite List.filter_app, map_app, Hlv, Hv. by destruct (existsb _ rs).
    + intros B1 B2 HB. inversion HB; subst. apply Forall_app. split; [by apply Hlb|by apply Hb].
Qed.

Lemma init_run maps n : good maps -> exists ls s t,
  init_ivalt lower upper mk intersect cmp maps n = (Ok (Z.of_nat (length (concat ls)), s), S (S n)) /\
  holds nil_ptr t s /\ elems t ≡ₚ entries (concat ls) /\
  (forall pt, map iv_value (List.filter (fun iv => ival_intersects_pt iv pt) (concat ls)) =
     map fst (List.filter (fun m => existsb (contains lower upper pt) (snd m)) maps)) /\
  forall B1 B2 : Z -> Prop, Forall (fun m => Forall (fun r => B1 (lower r) /\ B2 (upper r)) (snd m)) maps ->
    Forall (fun iv => B1 (iv_lower iv) /\ B2 (iv_upper iv)) (concat ls).
Proof.
  intros Hg. destruct (ivals_run maps (S n) Hg) as (ls & Hrun & Hv & Hb).
  destruct (build_run (concat ls)) as (s & t & Hbuild & Hh & He). exists ls, s, t. split_and!; try done.
  assert (Hm : forall k, malloc k = (Ok tt, S k)) by (intros k; unfold malloc; by rewrite malloc_ok_all).
  unfold init_ivalt. erewrite st_bind_ok by apply Hm. erewrite st_bind_ok by exact Hrun. cbv zeta.
  erewrite st_bind_ok by apply Hm. by rewrite Hbuild.
Qed.
Lemma keys_entries t l : elems t ≡ₚ entries l -> keys t ≡ₚ map iv_key l.
Proof. intros He. unfold RbInsert.keys. by rewrite He, entries_keys. Qed.

Lemma searchable_built ld s t l : ld 0 = 0 -> holds nil_ptr t s -> elems t ≡ₚ entries l ->
  Forall (fun iv => ld (iv_lower iv) = iv_lower iv /\ ld (iv_upper iv) = iv_upper iv) l -> searchable ld t.
Proof.
  intros Hz [_ _ [Hs Ha _]] He Hl. split_and!; [done|split; [done|]|done]. intros key.
  rewrite (keys_entries t l He). intros Hk. apply list_elem_of_fmap in Hk as (iv & -> & Hiv).
  rewrite Forall_forall in Hl. by apply Hl.
Qed.

(** The names of the tree are the names of the mappings that contain a number. *)
Lemma names_run ld maps n sg : good maps -> ld 0 = 0 ->
  Forall (fun m => Forall (fun r => ld (lower r) = lower r /\ ld (upper r) = upper r) (snd m)) maps ->
  exists len s, init_ivalt lower upper mk intersect cmp maps n = (Ok (len, s), S (S n)) /\
    forall val, 0 < val \/ Forall (fun m => Forall (fun r => 0 <= upper r) (snd m)) maps ->
     exists names, enum (mappings_find ld (mk_actf_mappings sg len s (map fst maps)) val) (S (Z.to_nat len)) None = Ok names /\
       names ≡ₚ map fst (List.filter (fun m => existsb (contains lower upper val) (snd m)) maps).
Proof.
  intros Hg Hz Hld. destruct (init_run maps n Hg) as (ls & s & t & Hrun & Hh & He & Hv & Hb).
  exists (Z.of_nat (length (concat ls))), s. split; [exact Hrun|]. intros val Htr.
  pose proof (searchable_built ld s t _ Hz Hh He (Hb (fun z => ld z = z) (fun z => ld z = z) Hld)) as Hs.
  set (m := mk_actf_mappings sg _ s _). pose proof (keys_entries t _ He) as Hk.
  assert (Htr' : trusted val t).
  { destruct Htr as [Htr|Htr]; [by left|right]. intros key. rewrite Hk. intros (iv & -> & Hiv)%list_elem_of_fmap.
    assert (Hup : Forall (fun iv => True /\ 0 <= iv_upper iv) (concat ls)).
    { apply (Hb (fun _ => True) (fun z => 0 <= z)). eapply Forall_impl; [exact Htr|]. intros x Hx. eapply Forall_impl; [exact Hx|]. auto. }
    rewrite Forall_forall in Hup. by apply Hup. }
  assert (Hnames : map (fun e => k_value (snd e)) (hits val val None t) ≡ₚ
    map fst (List.filter (fun m => existsb (contains lower upper val) (snd m)) maps)).
  { rewrite <- Hv. unfold hits. rewrite (filter_perm _ _ _ (pre_elems t)), (filter_perm _ _ _ He).
    rewrite (filter_ext _ (fun e => hit val val (snd e))) by done.
    rewrite <- (map_map snd k_value), <- (filter_map (hit val val) snd), entries_keys, filter_map, map_map.
    rewrite (filter_ext _ (fun iv => ival_intersects_pt iv val)); [done|]. intros iv. unfold hit, ival_intersects_pt. by rewrite Z.geb_leb. }
  eexists. split; [|exact Hnames].
  apply (enum_all ld m t val Hh Hs); [done|]. rewrite <- (length_map (fun e => k_value (snd e))), Hnames, <- Hv, length_map.
  rewrite Nat2Z.id. pose proof (filter_length_le (fun iv => ival_intersects_pt iv val) (concat ls)). lia.
Qed.
End Init.
(** ** Signed and unsigned mappings *)

Lemma narrow_near d : Z.abs d < 2 ^ 31 -> i32 d = d.
Proof. intros Hd. apply wrap_signed_small; [lia|]. change (2 ^ (32 - 1)) with (2 ^ 31). lia. Qed.

Lemma urng_cmp_near a b : urng_wf a -> urng_wf b -> near u_lower a b ->
  exists v, urng_cmp a b = Some v /\ Z.sgn v = Z.sgn (u_lower a - u_lower b).
Proof.
  intros (Ha & _) (Hb & _) Hn. unfold urng_cmp, near, is_u64 in *. eexists. split; [done|]. rewrite Z.geb_leb.
  destruct (Z.leb_spec (u_lower b) (u_lower a)); [|lia]. rewrite u64_small by (unfold is_u64; lia). by rewrite narrow_near.
Qed.

Lemma srng_cmp_near a b : srng_wf a -> srng_wf b -> near s_lower a b ->
  exists v, srng_cmp a b = Some v /\ Z.sgn v = Z.sgn (s_lower a - s_lower b).
Proof.
  intros (Ha & _) (Hb & _) Hn. unfold srng_cmp, near in *. cbv zeta.
  rewrite (proj2 (Z.leb_le _ _)), (proj2 (Z.leb_le _ _)) by (unfold INT64_MIN, INT64_MAX; lia).
  eexists. split; [done|]. by rewrite narrow_near.
Qed.

Lemma urng_set_existsb rs pt : urng_set_intersect rs pt = existsb (contains u_lower u_upper pt) rs.
Proof.
  induction rs as [|r rs IH]; [done|]. cbn. rewrite IH. unfold contains. rewrite Z.geb_leb. by destruct (_ && _).
Qed.

Lemma srng_set_existsb rs pt : srng_set_intersect rs pt = existsb (contains s_lower s_upper pt) rs.
Proof.
  induction rs as [|r rs IH]; [done|]. cbn. rewrite IH. unfold contains. rewrite Z.geb_leb. by destruct (_ && _).
Qed.

(** Ranges as the parser makes them, with lower bounds that the comparisons can
    order. *)
Definition raw_good (raw : mappings) : Prop :=
  match raw with
  | SMAPS l => good s_lower srng_wf l
  | UMAPS l => good u_lower urng_wf l
  end.

(** No negative number is involved. *)
Definition not_negative (raw : mappings) (val : Z) : Prop :=
  match raw with
  | SMAPS l => 0 < val \/ Forall (fun m => Forall (fun r => 0 <= s_upper r) (snd m)) l
  | UMAPS _ => True
  end.

(** The lookups of the sign of the mappings. *)
Definition raw_find (raw : mappings) (val : Z) (it : option Z) : outcome (option (string * Z)) :=
  Ok (match raw with
      | SMAPS _ => mappings_find_sint raw val (default MAPPINGS_IT_BEGIN it)
      | UMAPS _ => mappings_find_uint raw val (default MAPPINGS_IT_BEGIN it)
      end).

Definition tree_find (m : actf_mappings) : Z -> option ptr -> outcome (option (string * ptr)) :=
  (if m_signed m then actf_mappings_find_sint else actf_mappings_find_uint) m.

Lemma enum_start {I} (find : option I -> outcome (option (string * I))) i fuel : find None = find (Some i) ->
  enum find fuel None = enum find fuel (Some i).
Proof. intros E. destruct fuel; [done|]. cbn. by rewrite E. Qed.

Definition raw_names (raw : mappings) (val : Z) : list string :=
  match raw with
  | SMAPS l => map fst (List.filter (fun m => existsb (contains s_lower s_upper val) (snd m)) l)
  | UMAPS l => map fst (List.filter (fun m => existsb (contains u_lower u_upper val) (snd m)) l)
  end.

Lemma enum_raw raw val : enum (raw_find raw val) (S (Z.to_nat (mappings_len raw))) None = Ok (raw_names raw val).
Proof.
  rewrite (enum_start _ 0) by done. destruct raw as [l|l]; cbn [mappings_len raw_names]; rewrite Nat2Z.id.
  - unfold raw_find. cbn [mappings_find_sint]. unfold smappings_find.
    rewrite (enum_from (fun srs => srng_set_intersect srs val) l _ 0) by lia. do 2 f_equal. cbn.
    apply filter_ext. intros m. apply srng_set_existsb.
  - unfold raw_find. cbn [mappings_find_uint]. unfold umappings_find.
    rewrite (enum_from (fun urs => urng_set_intersect urs val) l _ 0) by lia. do 2 f_equal. cbn.
    apply filter_ext. intros m. apply urng_set_existsb.
Qed.

Lemma good_bounds {R} (lower : R -> Z) (wf B : R -> Prop) l : good lower wf l -> (forall r, wf r -> B r) ->
  Forall (fun m => Forall B (snd m)) l.
Proof. intros Hg HB. eapply Forall_impl; [exact Hg|]. intros m [Hm _]. eapply Forall_impl; [exact Hm|done]. Qed.

Lemma i64_id x : is_i64 x -> i64 x = x.
Proof. intros Hx. apply wrap_signed_small; [lia|]. exact Hx. Qed.

(** The tree that is built, and its lookups. *)
Lemma tree_names raw n : raw_good raw ->
  exists m, actf_mappings_init raw n = (Ok m, S (S n)) /\ m_signed m = (match raw with SMAPS _ => true | UMAPS _ => false end) /\
    forall val, not_negative raw val ->
    exists names, enum (tree_find m val) (S (Z.to_nat (m_ivals_len m))) None = Ok names /\ names ≡ₚ raw_names raw val.
Proof.
  intros Hg. destruct raw as [l|l]; cbn [raw_good not_negative actf_mappings_init] in *.
  - destruct (names_run s_lower s_upper mk_srng srng_intersect_srng srng_cmp srng_wf (fun _ _ => eq_refl) (fun _ _ => eq_refl)
      (fun _ _ => eq_refl) (fun r Hr => proj2 (proj2 Hr)) srng_cmp_near i64 l n true Hg eq_refl) as (len & s & Hrun & Hf).
    { apply (good_bounds _ _ _ _ Hg). intros r (? & ? & _). split; by apply i64_id. }
    eexists. split; [by erewrite st_bind_ok by exact Hrun|]. split; [done|]. exact Hf.
  - destruct (names_run u_lower u_upper mk_urng urng_intersect_urng urng_cmp urng_wf (fun _ _ => eq_refl) (fun _ _ => eq_refl)
      (fun _ _ => eq_refl) (fun r Hr => proj2 (proj2 Hr)) urng_cmp_near u64 l n false Hg eq_refl) as (len & s & Hrun & Hf).
    { apply (good_bounds _ _ _ _ Hg). intros r (? & ? & _). split; by apply u64_small. }
    eexists. split; [by erewrite st_bind_ok by exact Hrun|]. split; [done|]. intros val _. apply Hf. right.
    apply (good_bounds _ _ _ _ Hg). intros r (_ & [? _] & _). done.
Qed.

(** C21: The interval tree of a field class finds what the linear search finds: when
    allocation succeeds, initialising mappings whose ranges can be ordered succeeds;
    then repeated lookups of a number in the tree end, and give the names that
    repeated lookups in the raw mappings give, each as often, in some order; they are
    what the printer prints.  For signed mappings this holds of positive numbers, and
    of all numbers when no range lies below zero. *)
Theorem mappings_tree_finds_all raw n : raw_good raw ->
  exists m, actf_mappings_init raw n = (Ok m, S (S n)) /\ forall val, not_negative raw val ->
    exists names raw_names, enum (tree_find m val) (S (Z.to_nat (m_ivals_len m))) None = Ok names /\
      enum (raw_find raw val) (S (Z.to_nat (mappings_len raw))) None = Ok raw_names /\ names ≡ₚ raw_names /\
      mappings_fprint_names tree_find m val = Ok (joined 0 names, Z.of_nat (length names)).
Proof.
  intros Hg. destruct (tree_names raw n Hg) as (m & Hm & _ & Hf). exists m. split; [done|]. intros val Hv. destruct (Hf val Hv) as (names & He & Hp).
  exists names, (raw_names raw val). split_and!; [done|apply enum_raw|done|]. unfold mappings_fprint_names.
  by rewrite (fprint_enum _ _ _ _ _ He).
Qed.
End Mappings.

(** * A sorting function that satisfies the laws *)

Fixpoint insert_sorted {R} (c : R -> R -> Z) (x : R) (l : list R) : list R :=
  match l with
  | [] => [x]
  | y :: l' => if c x y <=? 0 then x :: l else y :: insert_sorted c x l'
  end.

#[export] Instance insertion_sort : QSort := fun R c => foldr (insert_sorted c) [].

Lemma insert_sorted_perm {R} (c : R -> R -> Z) x l : insert_sorted c x l ≡ₚ x :: l.
Proof. induction l as [|y l IH]; cbn; [done|]. destruct (c x y <=? 0); [done|]. rewrite IH. constructor. Qed.

Lemma insertion_perm {R} (c : R -> R -> Z) l : insertion_sort R c l ≡ₚ l.
Proof. induction l as [|x l IH]; [done|]. cbn. by rewrite insert_sorted_perm, IH. Qed.

Lemma insertion_sorted {R} (c : R -> R -> Z) l :
  (forall a b, a ∈ l -> b ∈ l -> c a b <= 0 \/ c b a <= 0) ->
  (forall a b d, a ∈ l -> b ∈ l -> d ∈ l -> c a b <= 0 -> c b d <= 0 -> c a d <= 0) ->
  StronglySorted (fun a b => c a b <= 0) (insertion_sort R c l).
Proof.
  induction l as [|x l IH]; intros Ht Htr; [constructor|]. cbn.
  assert (Hs : StronglySorted (fun a b => c a b <= 0) (insertion_sort R c l)) by (apply IH; intros; [apply Ht|eapply Htr]; set_solver).
  assert (Hin : forall z, z ∈ insertion_sort R c l -> z ∈ l) by (intros z; by rewrite insertion_perm).
  change (foldr (insert_sorted c) [] l) with (insertion_sort R c l). clear IH.
  induction Hs as [|y k Hs IH Hy]; cbn; [repeat constructor|]. destruct (Z.leb_spec (c x y) 0) as [Hle|Hgt].
  - constructor; [by constructor|]. constructor; [done|]. rewrite Forall_forall in *. intros z Hz.
    apply (Htr x y z); [set_solver..|done|by apply Hy].
  - constructor; [apply IH; set_solver|]. rewrite Forall_forall in *. intros z. rewrite insert_sorted_perm. intros [->|Hz]%elem_of_cons.
    + destruct (Ht x y ltac:(set_solver) ltac:(set_solver)); lia.
    + by apply Hy.
Qed.

#[export] Instance insertion_sort_laws : QSortLaws.
Proof.
  split; intros R cmp l Ho; [apply insertion_perm|]. unfold cmp_ordersb in Ho.
  assert (Hc : forall a b, a ∈ l -> b ∈ l -> exists x y, cmp a b = Some x /\ cmp b a = Some y /\ Z.sgn x = - Z.sgn y /\
    forall d, d ∈ l -> exists v w, cmp b d = Some v /\ cmp a d = Some w /\ (x <= 0 -> v <= 0 -> w <= 0)).
  { intros a b Ha%list_elem_of_In Hb%list_elem_of_In. rewrite forallb_forall in Ho. specialize (Ho a Ha).
    rewrite forallb_forall in Ho. specialize (Ho b Hb). destruct (cmp a b) as [x|], (cmp b a) as [y|]; try done.
    apply andb_true_iff in Ho as [Hs Ho]. exists x, y. split_and!; try done; [lia|]. intros d Hd%list_elem_of_In.
    rewrite forallb_forall in Ho. specialize (Ho d Hd). destruct (cmp b d) as [v|], (cmp a d) as [w|]; try done.
    exists v, w. split_and!; try done. lia. }
  apply insertion_sorted.
  - intros a b Ha Hb. destruct (Hc a b Ha Hb) as (x & y & -> & -> & Hs & _). cbn. lia.
  - intros a b d Ha Hb Hd. destruct (Hc a b Ha Hb) as (x & y & -> & _ & _ & Hd'). destruct (Hd' d Hd) as (v & w & -> & -> & Hi). exact Hi.
Qed.

(** * Examples *)

#[local] Existing Instance heap_ok.

Definition sample_mappings : mappings :=
  UMAPS [("low", [mk_urng 1 4; mk_urng 3 9; mk_urng 20 20]); ("all", [mk_urng 0 100]); ("mid", [mk_urng 5 6])]%string.

Example mappings_tree_finds_all_witness :
  raw_good sample_mappings /\
  exists m, fst (actf_mappings_init sample_mappings 0%nat) = Ok m /\
    exists names, enum (tree_find m 5) (S (Z.to_nat (m_ivals_len m))) None = Ok names /\ names ≡ₚ ["low"; "all"; "mid"]%string.
Proof.
  assert (Hg : raw_good sample_mappings).
  { repeat constructor; cbn; try lia; intros a b Ha Hb; unfold near;
      repeat (apply elem_of_cons in Ha as [->|Ha]); repeat (apply elem_of_cons in Hb as [->|Hb]);
      cbn; try lia; first [by apply elem_of_nil in Ha|by apply elem_of_nil in Hb]. }
  split; [exact Hg|]. destruct (@mappings_tree_finds_all heap_ok insertion_sort insertion_sort_laws (fun _ => eq_refl) sample_mappings 0%nat Hg) as (m & Hm & Hf).
  exists m. rewrite Hm. split; [done|]. destruct (Hf 5 I) as (names & raw & He & Hr & Hp & _). exists names. split; [exact He|].
  rewrite Hp. revert Hr. vm_compute. intros [= <-]. reflexivity.
Defined.

(** Ranges that only the low bits of their bounds put in order, and a name without. *)
Example mappings_init_builds_witness :
  let raw := SMAPS [("a", [mk_srng 7 9; mk_srng (2 ^ 32) (2 ^ 32)]); ("b", []); ("c", [mk_srng (-5) (-1)])]%string in
  maps_ordered raw = true /\ exists m, gives (Ok m) (actf_mappings_init raw) /\ built raw m.
Proof.
  intros raw. split; [vm_compute; reflexivity|]. apply (mappings_init_builds raw). by intros [n Hn].
Defined.

(** Three names for three negative numbers. *)
Definition negative_mappings : mappings :=
  SMAPS [("a", [mk_srng (-10) (-10)]); ("b", [mk_srng (-5) (-5)]); ("c", [mk_srng (-3) (-3)])]%string.

(** The tree does not find the name of -3: the callback takes 0 for the upper bounds
    of a missing subtree, so that a subtree of negative intervals looks as if it
    reached 0 and the first search goes there. *)
Example negative_name_lost :
  (m ← actf_mappings_init negative_mappings; mret (actf_mappings_find_first_sint m (-3), mappings_fprint_names tree_find m (-3))) 0%nat =
  (Ok (Ok None, Ok (""%string, 0)), 2%nat) /\
  mappings_find_first_sint negative_mappings (-3) = Some "c"%string.
Proof. split; vm_compute; reflexivity. Qed.

(** The narrowed difference of lower bounds that are far apart need not order them,
    which is undefined for [qsort]; the difference of two [int64_t] can overflow. *)
Example far_ranges_not_ordered :
  cmp_ordersb urng_cmp [mk_urng 0 0; mk_urng (2 ^ 31) (2 ^ 31)] = false /\
  cmp_ordersb srng_cmp [mk_srng 0 0; mk_srng (2 ^ 31) (2 ^ 31)] = false /\
  srng_cmp (mk_srng INT64_MIN 0) (mk_srng 1 1) = None /\
  fst (actf_mappings_init (UMAPS [("a", [mk_urng 0 0; mk_urng (2 ^ 31) (2 ^ 31)])]%string) 0%nat) = Undef.
Proof. split_and!; vm_compute; reflexivity. Qed.

(** Or it orders them by their low bits, and merging then loses numbers. *)
Definition wide_mappings : mappings := SMAPS [("a", [mk_srng 1 (2 ^ 33); mk_srng (2 ^ 32) (2 ^ 32)])]%string.

Example wide_range_lost :
  cmp_ordersb srng_cmp [mk_srng 1 (2 ^ 33); mk_srng (2 ^ 32) (2 ^ 32)] = true /\
  fst ((m ← actf_mappings_init wide_mappings; mret (actf_mappings_find_first_sint m 5)) 0%nat) = Ok (Ok None) /\
  mappings_find_first_sint wide_mappings 5 = Some "a"%string.
Proof. split_and!; vm_compute; reflexivity. Qed.

(** Deletion, on a tree of seven intervals: each in turn is deleted from the whole
    tree, and then all of them one after the other. *)
Definition seven : list ival :=
  map (fun r => mk_ival (fst r) (snd r) "" 0) [(1, 4); (2, 2); (3, 8); (0, 10); (5, 5); (7, 7); (4, 9)].

Definition seven_tree : ivt := snd (insert_all 0 7 (rb_tree_init nil_ptr (ival_nodes seven))).

(** The nodes in order, by [node_succ]. *)
Fixpoint in_order (fuel : nat) (s : ivt) (x : ptr) : list ptr :=
  match fuel with
  | O => []
  | S fuel => if x =? nil_ptr then [] else match fst (node_succ x s) with Ok y => x :: in_order fuel s y | _ => [] end
  end.

Definition all_in_order (s : ivt) : list ptr :=
  match fst (node_min (rbt_root s) s) with Ok x => in_order 10 s x | _ => [] end.

Example delete_each :
  all_in_order seven_tree = [4; 1; 2; 3; 7; 5; 6] /\
  map (fun x => all_in_order (snd (t_delete x seven_tree))) [1; 2; 3; 4; 5; 6; 7] =
    [[4; 2; 3; 7; 5; 6]; [4; 1; 3; 7; 5; 6]; [4; 1; 2; 7; 5; 6]; [1; 2; 3; 7; 5; 6]; [4; 1; 2; 3; 7; 6]; [4; 1; 2; 3; 7; 5]; [4; 1; 2; 3; 5; 6]] /\
  rbt_root (snd (foldl (fun r x => t_delete x (snd r)) (Ok tt, seven_tree) [1; 2; 3; 4; 5; 6; 7])) = nil_ptr.
Proof. split_and!; vm_compute; reflexivity. Qed.
