(* ===== verification/FldClsParse.v ===== *)
(** Parsing of field classes from JSON, the parsers of [fld_cls.c].

    A parser of a compound class takes the parser of its parts, which
    [actf_fld_cls_parse] closes with fuel; the nesting depth of the JSON value is
    enough.  Attributes and extensions are converted, as an error in them is an
    error of the class, and dropped. *)
From S2P Require Import Prelude Common Rng FldCls HashMap Clock Metadata Json CtfJson JsonUtils Mappings.
From stdpp Require Import strings.
Open Scope Z_scope.

Definition DEFAULT_MEDIA_TYPE : string := "application/octet-stream".

(** The two loops over the pairs of options. *)
Fixpoint options_intersect (opts : list (option string * actf_fld_cls * actf_rng_set)) : bool :=
  match opts with
  | [] => false
  | opt_a :: opts' =>
      existsb (fun opt_b => actf_rng_set_intersect_rng_set (snd opt_a) (snd opt_b)) opts' || options_intersect opts'
  end.

Section FldClsParse.
Context {json : Type} `{JsonC json, Heap, QSort}.
Context (metadata : actf_metadata).

(** ** Classes without parts *)

Definition int_fxd_len_bit_arr_fld_cls_parse (fc_jobj : json) : st nat fxd_len_bit_arr_fld_cls :=
  len ← json_object_key_get_gtz_uint64 fc_jobj "length";
  if len >? 64 then st_fail ACTF_UNSUPPORTED_LENGTH
  else
    bo ← json_object_key_get_bo fc_jobj "byte-order";
    bito ← unless_not_found (json_object_key_get_bito fc_jobj "bit-order");
    align ← unless_not_found (json_object_key_get_alignment fc_jobj "alignment");
    mret (mk_bit_arr len bo
            (default (match bo with ACTF_LIL_ENDIAN => ACTF_FIRST_TO_LAST | ACTF_BIG_ENDIAN => ACTF_LAST_TO_FIRST end) bito)
            (default DEFAULT_ALIGNMENT align)).

Definition fxd_len_bit_arr_fld_cls_parse (fc_jobj : json) : st nat actf_fld_cls :=
  bit_arr ← int_fxd_len_bit_arr_fld_cls_parse fc_jobj; mret (FC_FXD_LEN_BIT_ARR bit_arr).

Definition umaps_of (m : mappings) : list (string * list urng) :=
  match m with UMAPS l => l | SMAPS _ => [] end.

Definition fxd_len_bit_map_fld_cls_parse (fc_jobj : json) : st nat actf_fld_cls :=
  bit_arr ← int_fxd_len_bit_arr_fld_cls_parse fc_jobj;
  maps ← json_object_key_get_mappings fc_jobj "flags" false;
  if (length (umaps_of maps) =? 0)%nat then st_fail ACTF_INVALID_FLAGS
  else malloc;; mret (FC_FXD_LEN_BIT_MAP bit_arr (actf_flags_init (umaps_of maps))).

(** Roles that are not known are ignored. *)
Fixpoint roles_loop (roles_jobj : list json) (roles : Z) : st nat Z :=
  match roles_jobj with
  | [] => mret roles
  | role_jobj :: roles_jobj' =>
      if negb (json_object_is_type role_jobj json_type_string) then st_fail ACTF_INVALID_ROLE
      else roles_loop roles_jobj' (Z.lor roles (actf_role_name_get_type (json_object_get_string role_jobj)))
  end.

Definition json_object_get_roles (jobj : json) : st nat Z :=
  match json_object_object_get_ex jobj "roles" with
  | None => mret 0
  | Some roles_jobj =>
      if negb (json_object_is_type roles_jobj json_type_array) then st_fail ACTF_INVALID_ROLE
      else roles_loop (json_object_array roles_jobj) 0
  end.

Definition json_object_key_get_base (jobj : json) (key : string) : st nat actf_base :=
  ubase ← json_object_key_get_gtez_uint64 jobj key;
  if ubase =? 2 then mret ACTF_BASE_BINARY
  else if ubase =? 8 then mret ACTF_BASE_OCTAL
  else if ubase =? 10 then mret ACTF_BASE_DECIMAL
  else if ubase =? 16 then mret ACTF_BASE_HEXADECIMAL
  else st_fail ACTF_INVALID_BASE.

(** [raw_maps] is cleared: without the key it is of sign [RNG_SINT], which is 0, and
    empty. *)
Definition int_fld_cls_parse (fc_jobj : json) (is_signed : bool) : st nat int_fld_cls :=
  pref_display_base ← unless_not_found (json_object_key_get_base fc_jobj "preferred-display-base");
  raw_maps ← unless_not_found (json_object_key_get_mappings fc_jobj "mappings" is_signed);
  maps ← actf_mappings_init (default (SMAPS []) raw_maps);
  mret (mk_int_fld_cls (default DEFAULT_DISPLAY_BASE pref_display_base) maps).

Definition int_fxd_len_int_fld_cls_parse (fc_jobj : json) (is_signed : bool) :
    st nat (int_fld_cls * fxd_len_bit_arr_fld_cls * Z) :=
  base ← int_fld_cls_parse fc_jobj is_signed;
  bit_arr ← int_fxd_len_bit_arr_fld_cls_parse fc_jobj;
  roles ← (if is_signed then mret 0 else json_object_get_roles fc_jobj);
  mret (base, bit_arr, roles).

Definition fxd_len_int_fld_cls_parse (fc_jobj : json) (is_signed : bool) : st nat actf_fld_cls :=
  '(base, bit_arr, roles) ← int_fxd_len_int_fld_cls_parse fc_jobj is_signed;
  mret (if is_signed then FC_FXD_LEN_SINT base bit_arr roles else FC_FXD_LEN_UINT base bit_arr roles).

Definition fxd_len_bool_fld_cls_parse (fc_jobj : json) : st nat actf_fld_cls :=
  bit_arr ← int_fxd_len_bit_arr_fld_cls_parse fc_jobj; mret (FC_FXD_LEN_BOOL bit_arr).

Definition fxd_len_float_fld_cls_parse (fc_jobj : json) : st nat actf_fld_cls :=
  bit_arr ← int_fxd_len_bit_arr_fld_cls_parse fc_jobj;
  if (len bit_arr =? 16) || (len bit_arr =? 32) || (len bit_arr =? 64) then mret (FC_FXD_LEN_FLOAT bit_arr)
  else st_fail ACTF_UNSUPPORTED_LENGTH.

Definition int_var_len_int_fld_cls_parse (fc_jobj : json) (is_signed : bool) : st nat (int_fld_cls * Z) :=
  base ← int_fld_cls_parse fc_jobj is_signed;
  roles ← (if is_signed then mret 0 else json_object_get_roles fc_jobj);
  mret (base, roles).

Definition var_len_int_fld_cls_parse (fc_jobj : json) (is_signed : bool) : st nat actf_fld_cls :=
  '(base, roles) ← int_var_len_int_fld_cls_parse fc_jobj is_signed;
  mret (if is_signed then FC_VAR_LEN_SINT base roles else FC_VAR_LEN_UINT base roles).

Definition str_fld_cls_parse (fc_jobj : json) : st nat actf_encoding :=
  encoding_name ← unless_not_found (json_object_key_get_string fc_jobj "encoding");
  match encoding_name with
  | None => mret DEFAULT_ENCODING
  | Some name =>
      match actf_encoding_name_to_type name with
      | Some enc => mret enc
      | None => st_fail ACTF_INVALID_ENCODING
      end
  end.

Definition null_term_str_fld_cls_parse (fc_jobj : json) : st nat actf_fld_cls :=
  enc ← str_fld_cls_parse fc_jobj; mret (FC_NULL_TERM_STR enc).

Definition static_len_str_fld_cls_parse (fc_jobj : json) : st nat actf_fld_cls :=
  enc ← str_fld_cls_parse fc_jobj;
  len ← required (json_object_key_get_gtez_uint64 fc_jobj "length");
  mret (FC_STATIC_LEN_STR enc len).

Definition dyn_len_str_fld_cls_parse (fc_jobj : json) : st nat actf_fld_cls :=
  enc ← str_fld_cls_parse fc_jobj;
  len_fld_loc ← required (json_object_key_get_fld_loc fc_jobj "length-field-location");
  mret (FC_DYN_LEN_STR enc len_fld_loc).

Definition static_len_blob_fld_cls_parse (fc_jobj : json) : st nat actf_fld_cls :=
  len ← required (json_object_key_get_gtez_uint64 fc_jobj "length");
  media_type ← unless_not_found (json_object_key_get_string fc_jobj "media-type");
  roles ← json_object_get_roles fc_jobj;
  media_type ← c_strdup (default DEFAULT_MEDIA_TYPE media_type);
  mret (FC_STATIC_LEN_BLOB len (Some media_type) roles).

Definition dyn_len_blob_fld_cls_parse (fc_jobj : json) : st nat actf_fld_cls :=
  media_type ← unless_not_found (json_object_key_get_string fc_jobj "media-type");
  len_fld_loc ← required (json_object_key_get_fld_loc fc_jobj "length-field-location");
  media_type ← c_strdup (default DEFAULT_MEDIA_TYPE media_type);
  mret (FC_DYN_LEN_BLOB len_fld_loc (Some media_type)).

(** ** Compound classes *)

(** Attributes and extensions, of a class or of a part of one. *)
Definition attributes_extensions_parse (jobj : json) : st nat unit :=
  _ ← unless_not_found (json_object_key_get_ctfjson jobj "attributes");
  _ ← unless_not_found (json_object_key_get_ctfjson jobj "extensions");
  mret tt.

(** A required class of a part. *)
Definition part_parse (parse : json -> st nat actf_fld_cls) (jobj : json) (key : string) : st nat actf_fld_cls :=
  match json_object_object_get_ex jobj key with
  | None => st_fail ACTF_MISSING_PROPERTY
  | Some fc_jobj => parse fc_jobj
  end.

Section Compound.
Context (parse : json -> st nat actf_fld_cls).

Definition variant_fld_cls_opt_parse (opt_jobj : json) : st nat (option string * actf_fld_cls * actf_rng_set) :=
  if negb (json_object_is_type opt_jobj json_type_object) then st_fail ACTF_JSON_WRONG_TYPE
  else
    fc ← part_parse parse opt_jobj "field-class";
    sel_fld_rng_set ← required (json_object_key_get_rng_set opt_jobj "selector-field-ranges");
    name ← unless_not_found (json_object_key_get_string opt_jobj "name");
    attributes_extensions_parse opt_jobj;;
    name ← c_strdup_opt name;
    mret (name, fc, sel_fld_rng_set).

Definition member_cls_parse (member_cls_jobj : json) : st nat (string * actf_fld_cls) :=
  if negb (json_object_is_type member_cls_jobj json_type_object) then st_fail ACTF_JSON_WRONG_TYPE
  else
    name ← required (json_object_key_get_string member_cls_jobj "name");
    fc ← part_parse parse member_cls_jobj "field-class";
    attributes_extensions_parse member_cls_jobj;;
    name ← c_strdup name;
    mret (name, fc).

Definition struct_fld_cls_parse_member_clses (member_clses_jobj : json) : st nat (list (string * actf_fld_cls)) :=
  if negb (json_object_is_type member_clses_jobj json_type_array) then st_fail ACTF_JSON_WRONG_TYPE
  else malloc;; mapM member_cls_parse (json_object_array member_clses_jobj).

Definition struct_fld_cls_parse (struct_fc_jobj : json) : st nat actf_fld_cls :=
  min_align ← unless_not_found (json_object_key_get_alignment struct_fc_jobj "minimum-alignment");
  let min_align := default DEFAULT_ALIGNMENT min_align in
  clses ← match json_object_object_get_ex struct_fc_jobj "member-classes" with
          | None => mret []
          | Some member_clses_jobj => struct_fld_cls_parse_member_clses member_clses_jobj
          end;
  match struct_align clses min_align with
  | Some align => mret (FC_STRUCT clses min_align align)
  | None => st_undef
  end.

Definition arr_fld_cls_parse (fc_jobj : json) : st nat (actf_fld_cls * Z) :=
  min_align ← unless_not_found (json_object_key_get_alignment fc_jobj "minimum-alignment");
  ele_fc ← part_parse parse fc_jobj "element-field-class";
  malloc_unchk;;
  mret (ele_fc, default DEFAULT_ALIGNMENT min_align).

Definition static_len_arr_fld_cls_parse (fc_jobj : json) : st nat actf_fld_cls :=
  '(ele_fld_cls, min_align) ← arr_fld_cls_parse fc_jobj;
  len ← json_object_key_get_gtez_uint64 fc_jobj "length";
  mret (FC_STATIC_LEN_ARR ele_fld_cls min_align len).

Definition dyn_len_arr_fld_cls_parse (fc_jobj : json) : st nat actf_fld_cls :=
  '(ele_fld_cls, min_align) ← arr_fld_cls_parse fc_jobj;
  len_fld_loc ← required (json_object_key_get_fld_loc fc_jobj "length-field-location");
  mret (FC_DYN_LEN_ARR ele_fld_cls min_align len_fld_loc).

(** The ranges are cleared when there are none. *)
Definition optional_fld_cls_parse (fc_jobj : json) : st nat actf_fld_cls :=
  opt_fc ← part_parse parse fc_jobj "field-class";
  sel_fld_loc ← required (json_object_key_get_fld_loc fc_jobj "selector-field-location");
  sel_fld_rng_set ← unless_not_found (json_object_key_get_rng_set fc_jobj "selector-field-ranges");
  malloc_unchk;;
  mret (FC_OPTIONAL opt_fc sel_fld_loc (default (RNG_SINT []) sel_fld_rng_set)).

Definition variant_fld_cls_parse (fc_jobj : json) : st nat actf_fld_cls :=
  match json_object_object_get_ex fc_jobj "options" with
  | None => st_fail ACTF_MISSING_PROPERTY
  | Some opts_jobj =>
      if negb (json_object_is_type opts_jobj json_type_array) then st_fail ACTF_JSON_WRONG_TYPE
      else if (length (json_object_array opts_jobj) =? 0)%nat then st_fail ACTF_INVALID_VARIANT
      else
        malloc;;
        opts ← mapM variant_fld_cls_opt_parse (json_object_array opts_jobj);
        if options_intersect opts then st_fail ACTF_INVALID_VARIANT
        else
          sel_fld_loc ← required (json_object_key_get_fld_loc fc_jobj "selector-field-location");
          mret (FC_VARIANT opts sel_fld_loc)
  end.
End Compound.

Definition actf_fld_cls_resolve_alias (fc_jobj : json) : st nat actf_fld_cls :=
  c_assert (json_object_is_type fc_jobj json_type_string);;
  let alias := json_object_get_string fc_jobj in
  match actf_metadata_find_fld_cls_alias metadata alias with
  | None => st_fail ACTF_NO_SUCH_ALIAS
  | Some fc => _ ← c_strdup alias; mret fc
  end.

(** [switch (fc->type)]. *)
Definition fld_cls_type_parse (parse : json -> st nat actf_fld_cls) (ty : actf_fld_cls_type) (fc_jobj : json) :
    st nat actf_fld_cls :=
  match ty with
  | ACTF_FLD_CLS_NIL => st_fail ACTF_INTERNAL
  | ACTF_FLD_CLS_FXD_LEN_BIT_ARR => fxd_len_bit_arr_fld_cls_parse fc_jobj
  | ACTF_FLD_CLS_FXD_LEN_BIT_MAP => fxd_len_bit_map_fld_cls_parse fc_jobj
  | ACTF_FLD_CLS_FXD_LEN_UINT => fxd_len_int_fld_cls_parse fc_jobj false
  | ACTF_FLD_CLS_FXD_LEN_SINT => fxd_len_int_fld_cls_parse fc_jobj true
  | ACTF_FLD_CLS_FXD_LEN_BOOL => fxd_len_bool_fld_cls_parse fc_jobj
  | ACTF_FLD_CLS_FXD_LEN_FLOAT => fxd_len_float_fld_cls_parse fc_jobj
  | ACTF_FLD_CLS_VAR_LEN_UINT => var_len_int_fld_cls_parse fc_jobj false
  | ACTF_FLD_CLS_VAR_LEN_SINT => var_len_int_fld_cls_parse fc_jobj true
  | ACTF_FLD_CLS_NULL_TERM_STR => null_term_str_fld_cls_parse fc_jobj
  | ACTF_FLD_CLS_STATIC_LEN_STR => static_len_str_fld_cls_parse fc_jobj
  | ACTF_FLD_CLS_DYN_LEN_STR => dyn_len_str_fld_cls_parse fc_jobj
  | ACTF_FLD_CLS_STATIC_LEN_BLOB => static_len_blob_fld_cls_parse fc_jobj
  | ACTF_FLD_CLS_DYN_LEN_BLOB => dyn_len_blob_fld_cls_parse fc_jobj
  | ACTF_FLD_CLS_STRUCT => struct_fld_cls_parse parse fc_jobj
  | ACTF_FLD_CLS_STATIC_LEN_ARR => static_len_arr_fld_cls_parse parse fc_jobj
  | ACTF_FLD_CLS_DYN_LEN_ARR => dyn_len_arr_fld_cls_parse parse fc_jobj
  | ACTF_FLD_CLS_OPTIONAL => optional_fld_cls_parse parse fc_jobj
  | ACTF_FLD_CLS_VARIANT => variant_fld_cls_parse parse fc_jobj
  end.

(** One level of nesting per unit of fuel. *)
Fixpoint fld_cls_parse_fuel (fuel : nat) (fc_jobj : json) : st nat actf_fld_cls :=
  match fuel with
  | O => st_undef
  | S fuel' =>
      if json_object_is_type fc_jobj json_type_object then
        type_name ← map_err (fun _ => Err ACTF_INVALID_FLD_CLS) (json_object_key_get_string fc_jobj "type");
        attributes_extensions_parse fc_jobj;;
        fld_cls_type_parse (fld_cls_parse_fuel fuel') (actf_fld_cls_type_from_name type_name) fc_jobj
      else if json_object_is_type fc_jobj json_type_string then actf_fld_cls_resolve_alias fc_jobj
      else st_fail ACTF_INVALID_FLD_CLS
  end.

Definition actf_fld_cls_parse (fc_jobj : json) : st nat actf_fld_cls :=
  fld_cls_parse_fuel (S (json_depth fc_jobj)) fc_jobj.
End FldClsParse.
