(* ===== verification/FldClsJson.v ===== *)
(** Field classes as JSON, and back.

    [fld_cls_json] writes a field class as CTF metadata, every property spelled
    out.  A class keeps its mappings as an interval tree; they are written as the
    ranges that the tree was made of, which [ranges] gives.  The theorem: the parser
    reads back the class, the tree included, for every class within the limits of
    the program ([fc_canon]). *)
From S2P Require Import Prelude Common Rng FldCls HashMap Clock Metadata Json CtfJson JsonUtils JsonRng Mappings MappingsTree FldClsParse.
From stdpp Require Import strings.
Open Scope Z_scope.

(** * Writing *)

Definition bo_json (b : actf_byte_order) : jval :=
  JStr (match b with ACTF_BIG_ENDIAN => "big-endian" | ACTF_LIL_ENDIAN => "little-endian" end).
Definition bito_json (b : actf_bit_order) : jval :=
  JStr (match b with ACTF_FIRST_TO_LAST => "first-to-last" | ACTF_LAST_TO_FIRST => "last-to-first" end).
Definition base_json (b : actf_base) : jval :=
  JInt (match b with ACTF_BASE_BINARY => 2 | ACTF_BASE_OCTAL => 8 | ACTF_BASE_DECIMAL => 10 | ACTF_BASE_HEXADECIMAL => 16 end).

Definition bit_arr_json (a : fxd_len_bit_arr_fld_cls) : list (string * jval) :=
  [("length", JInt (len a)); ("byte-order", bo_json (bo a)); ("bit-order", bito_json (bito a)); ("alignment", JInt (align a))]%string.

Definition urngs_json (rs : list urng) : jval := rngs_json (map (fun r => (u_lower r, u_upper r)) rs).
Definition rng_set_json (rs : actf_rng_set) : jval :=
  match rs with
  | RNG_SINT srs => rngs_json (map (fun r => (s_lower r, s_upper r)) srs)
  | RNG_UINT urs => urngs_json urs
  end.
Definition mappings_json (m : mappings) : jval :=
  JObj (match m with
        | SMAPS l => map (fun m => (fst m, rng_set_json (RNG_SINT (snd m)))) l
        | UMAPS l => map (fun m => (fst m, rng_set_json (RNG_UINT (snd m)))) l
        end).

Section Write.
(** The ranges by name that a tree was made of. *)
Context (ranges : actf_mappings -> mappings).

Definition int_json (i : int_fld_cls) : list (string * jval) :=
  [("preferred-display-base", base_json (pref_display_base i));
   ("mappings", mappings_json (ranges (maps i)))]%string.

(** The names of the roles that are set. *)
Definition role_names (roles : Z) : list string :=
  omap (fun i => if Z.testbit roles i then actf_role_name (Z.shiftl 1 i) else None) (seqZ 0 11).
Definition roles_json (roles : Z) : string * jval := ("roles"%string, JArr (map JStr (role_names roles))).

Definition loc_json (l : actf_fld_loc) : jval :=
  JObj (match actf_fld_loc_origin_name (FldCls.origin l) with Some n => [("origin"%string, JStr n)] | None => [] end ++
        [("path"%string, JArr (map (fun e => match e with Some n => JStr n | None => JNull end) (path l)))]).

Definition encoding_json (e : actf_encoding) : string * jval := ("encoding"%string, JStr (actf_encoding_to_name e)).

Fixpoint fld_cls_json (fc : actf_fld_cls) : jval :=
  let obj ms := JObj (("type"%string, JStr (default ""%string (actf_fld_cls_type_name (type_of fc)))) :: ms) in
  match fc with
  | FC_NIL => JNull
  | FC_FXD_LEN_BIT_ARR a | FC_FXD_LEN_BOOL a | FC_FXD_LEN_FLOAT a => obj (bit_arr_json a)
  | FC_FXD_LEN_BIT_MAP a f => obj (bit_arr_json a ++ [("flags", JObj (map (fun m => (fst m, urngs_json (snd m))) (flag_maps f)))]%string)
  | FC_FXD_LEN_UINT i a r => obj (bit_arr_json a ++ int_json i ++ [roles_json r])
  | FC_FXD_LEN_SINT i a _ => obj (bit_arr_json a ++ int_json i)
  | FC_VAR_LEN_UINT i r => obj (int_json i ++ [roles_json r])
  | FC_VAR_LEN_SINT i _ => obj (int_json i)
  | FC_NULL_TERM_STR e => obj [encoding_json e]
  | FC_STATIC_LEN_STR e n => obj [encoding_json e; ("length", JInt n)]%string
  | FC_DYN_LEN_STR e l => obj [encoding_json e; ("length-field-location", loc_json l)]%string
  | FC_STATIC_LEN_BLOB n m r => obj [("length", JInt n); ("media-type", JStr (default DEFAULT_MEDIA_TYPE m)); roles_json r]%string
  | FC_DYN_LEN_BLOB l m => obj [("length-field-location", loc_json l); ("media-type", JStr (default DEFAULT_MEDIA_TYPE m))]%string
  | FC_STRUCT ms m _ =>
      obj [("minimum-alignment", JInt m);
           ("member-classes", JArr (map (fun m => JObj [("name", JStr (fst m)); ("field-class", fld_cls_json (snd m))]) ms))]%string
  | FC_STATIC_LEN_ARR e m n =>
      obj [("minimum-alignment", JInt m); ("element-field-class", fld_cls_json e); ("length", JInt n)]%string
  | FC_DYN_LEN_ARR e m l =>
      obj [("minimum-alignment", JInt m); ("element-field-class", fld_cls_json e); ("length-field-location", loc_json l)]%string
  | FC_OPTIONAL c l rs =>
      obj ([("field-class", fld_cls_json c); ("selector-field-location", loc_json l)]%string ++
           match rs with RNG_SINT [] => [] | _ => [("selector-field-ranges"%string, rng_set_json rs)] end)
  | FC_VARIANT os l =>
      obj [("options", JArr (map (fun o => JObj (match fst (fst o) with Some n => [("name", JStr n)] | None => [] end ++
                                [("field-class", fld_cls_json (snd (fst o))); ("selector-field-ranges", rng_set_json (snd o))])) os));
           ("selector-field-location", loc_json l)]%string
  end.
End Write.

(** * What can be written *)

(** A string without null bytes. *)
Definition plain (s : string) : Prop := c_str s = s.

Definition bit_arr_canon (a : fxd_len_bit_arr_fld_cls) : Prop := 1 <= len a <= 64 /\ (align a = 0 \/ pow2 (align a)).
Definition urngs_canon (rs : list urng) : Prop := rs <> [] /\ Forall urng_wf rs.
Definition srngs_canon (rs : list srng) : Prop := rs <> [] /\ Forall srng_wf rs.
Definition mappings_canon (sg : bool) (m : mappings) : Prop :=
  match m with
  | SMAPS l => sg = true /\ Forall (fun m => srngs_canon (snd m)) l
  | UMAPS l => sg = false /\ Forall (fun m => urngs_canon (snd m)) l
  end.
(** A signed set has a negative range. *)
Definition rng_set_canon (rs : actf_rng_set) : Prop :=
  match rs with
  | RNG_SINT rs => srngs_canon rs /\ Exists (fun r => s_lower r < 0) rs
  | RNG_UINT rs => urngs_canon rs
  end.
Definition roles_canon (r : Z) : Prop := 0 <= r < 2 ^ 11.
Definition loc_canon (l : actf_fld_loc) : Prop :=
  (exists n, last (path l) = Some (Some n)) /\ Forall (fun e => match e with Some n => plain n | None => True end) (path l).
Definition align_canon (a : Z) : Prop := a = 0 \/ pow2 a.

Section Canon.
Context `{Heap, QSort} (ranges : actf_mappings -> mappings).

(** The mappings are the tree that is built of their ranges. *)
Definition int_canon (sg : bool) (i : int_fld_cls) : Prop :=
  mappings_canon sg (ranges (maps i)) /\ tree_of (ranges (maps i)) (maps i).

(** Classes within the limits of the program, node by node. *)
Definition node_canon (fc : actf_fld_cls) : Prop :=
  match fc with
  | FC_NIL => False
  | FC_FXD_LEN_BIT_ARR a | FC_FXD_LEN_BOOL a => bit_arr_canon a
  | FC_FXD_LEN_FLOAT a => bit_arr_canon a /\ (len a = 16 \/ len a = 32 \/ len a = 64)
  | FC_FXD_LEN_BIT_MAP a f =>
      bit_arr_canon a /\ flag_maps f <> [] /\ f = actf_flags_init (flag_maps f) /\ Forall (fun m => urngs_canon (snd m)) (flag_maps f)
  | FC_FXD_LEN_UINT i a r => int_canon false i /\ bit_arr_canon a /\ roles_canon r
  | FC_FXD_LEN_SINT i a r => int_canon true i /\ bit_arr_canon a /\ r = 0
  | FC_VAR_LEN_UINT i r => int_canon false i /\ roles_canon r
  | FC_VAR_LEN_SINT i r => int_canon true i /\ r = 0
  | FC_NULL_TERM_STR _ => True
  | FC_STATIC_LEN_STR _ n => is_u64 n
  | FC_DYN_LEN_STR _ l => loc_canon l
  | FC_STATIC_LEN_BLOB n m r => is_u64 n /\ (exists s, m = Some s /\ plain s) /\ roles_canon r
  | FC_DYN_LEN_BLOB l m => loc_canon l /\ exists s, m = Some s /\ plain s
  | FC_STRUCT ms m a => align_canon m /\ struct_align ms m = Some a /\ Forall (fun m => plain (fst m)) ms
  | FC_STATIC_LEN_ARR _ m n => align_canon m /\ is_u64 n
  | FC_DYN_LEN_ARR _ m l => align_canon m /\ loc_canon l
  | FC_OPTIONAL _ l rs => loc_canon l /\ (rs = RNG_SINT [] \/ rng_set_canon rs)
  | FC_VARIANT os l =>
      loc_canon l /\ os <> [] /\ options_intersect os = false /\
      Forall (fun o => rng_set_canon (snd o) /\ match fst (fst o) with Some n => plain n | None => True end) os
  end.

Inductive fc_canon : actf_fld_cls -> Prop :=
| Canon fc : node_canon fc -> Forall fc_canon (subs fc) -> fc_canon fc.

Lemma fc_canon_inv fc : fc_canon fc -> node_canon fc /\ Forall fc_canon (subs fc).
Proof. by inversion 1. Qed.
End Canon.

(** * Reading back *)

#[local] Notation assoc := Json.assoc.

Section Read.
Context `{Heap, QSort} (Hok : ~ some_malloc_fails) (ranges : actf_mappings -> mappings).
Notation fld_cls_json := (fld_cls_json ranges).
Notation node_canon := (node_canon ranges).
Notation int_canon := (int_canon ranges).

Lemma gives_some {A} (a : A) (c : st nat A) : gives (Ok a) c -> gives (Ok (Some a)) (unless_not_found c).
Proof. apply (gives_unless_not_found (Ok a)). Qed.
Lemma gives_none {A} (c : st nat A) : gives (Err ACTF_NOT_FOUND) c -> gives (Ok None) (unless_not_found c).
Proof. apply (gives_unless_not_found (Err ACTF_NOT_FOUND)). Qed.
Lemma gives_required {A} (a : A) (c : st nat A) : gives (Ok a) c -> gives (Ok a) (required c).
Proof. intros Hc. eapply gives_bind; [by apply gives_some|apply gives_ret]. Qed.

Lemma gives_key ms key j ty : assoc ms key = Some j -> json_object_get_type j = ty -> gives (Ok j) (json_object_key_get (JObj ms) key ty).
Proof. intros Hk Ht. unfold json_object_key_get. cbn [json_object_object_get_ex jval_json]. unfold json_object_is_type. by rewrite Hk, Ht, bool_decide_true. Qed.
Lemma gives_no_key ms key ty : assoc ms key = None -> gives (Err ACTF_NOT_FOUND) (json_object_key_get (JObj ms) key ty).
Proof. intros Hk. unfold json_object_key_get. cbn [json_object_object_get_ex jval_json]. by rewrite Hk. Qed.

Lemma gives_string ms key s : assoc ms key = Some (JStr s) -> plain s -> gives (Ok s) (json_object_key_get_string (JObj ms) key).
Proof. intros Hk Hs. eapply gives_bind; [by eapply gives_key|]. cbn. rewrite Hs. apply gives_ret. Qed.

Lemma clamp_small lo hi v : lo <= v <= hi -> clamp lo hi v = v.
Proof. unfold clamp. lia. Qed.

Lemma u64_clamp v : is_u64 v -> json_object_get_uint64 (JInt v) = v.
Proof. intros Hv. unfold is_u64 in Hv. cbn [json_object_get_uint64 jval_json]. apply clamp_small. unfold UINT64_MAX. lia. Qed.

Lemma gives_align ms key v : assoc ms key = Some (JInt v) -> align_canon v -> gives (Ok v) (json_object_key_get_alignment (JObj ms) key).
Proof.
  intros Hk Hv. assert (Hu : is_u64 v).
  { unfold is_u64. destruct Hv as [->|(k & ? & ->)]; [done|]. pose proof (pow2_pos k). pose proof (Z.pow_lt_mono_r 2 k 64). lia. }
  eapply gives_bind; [by eapply gives_key|]. cbv zeta. rewrite u64_clamp by done.
  rewrite (proj2 (align_is_valid_spec v Hu) Hv). apply gives_ret.
Qed.

Lemma gives_bo ms key b : assoc ms key = Some (bo_json b) -> gives (Ok b) (json_object_key_get_bo (JObj ms) key).
Proof. intros Hk. eapply gives_bind; [by eapply gives_key|]. by destruct b. Qed.
Lemma gives_bito ms key b : assoc ms key = Some (bito_json b) -> gives (Ok b) (json_object_key_get_bito (JObj ms) key).
Proof. intros Hk. eapply gives_bind; [by eapply gives_key|]. by destruct b. Qed.

Lemma gives_gtez ms key v : assoc ms key = Some (JInt v) -> is_u64 v -> gives (Ok v) (json_object_key_get_gtez_uint64 (JObj ms) key).
Proof.
  intros Hk Hv. eapply gives_bind; [by eapply gives_key|]. cbv zeta. rewrite u64_clamp by done.
  destruct (Z.ltb_spec (json_object_get_int64 (JInt v)) 0) as [Hlt|]; [|apply gives_ret].
  exfalso. cbn in Hlt. unfold is_u64, clamp, INT64_MIN, INT64_MAX in *. lia.
Qed.

Lemma gives_gtz ms key v : assoc ms key = Some (JInt v) -> 0 < v < 2 ^ 64 -> gives (Ok v) (json_object_key_get_gtz_uint64 (JObj ms) key).
Proof.
  intros Hk Hv. eapply gives_bind.
  - apply (gives_map_err _ (Ok v)). apply gives_gtez; [done|]. unfold is_u64. lia.
  - destruct (Z.eqb_spec v 0); [lia|apply gives_ret].
Qed.

Lemma gives_base ms key b : assoc ms key = Some (base_json b) -> gives (Ok b) (json_object_key_get_base (JObj ms) key).
Proof. intros Hk. eapply gives_bind; [apply gives_gtez; [done|by destruct b]|]. by destruct b. Qed.

(** ** Ranges and mappings *)

Lemma i64_small x : is_i64 x -> i64 x = x.
Proof. intros Hx. apply wrap_signed_small; [done|]. exact Hx. Qed.

Lemma u64_range_bounds rs : Forall urng_wf rs ->
  Forall (fun b => INT64_MIN <= fst b <= UINT64_MAX /\ INT64_MIN <= snd b <= UINT64_MAX) (map (fun r => (u_lower r, u_upper r)) rs).
Proof.
  intros Hr. apply Forall_map. eapply Forall_impl; [exact Hr|]. intros [l u] (Hl & Hu & Hle). cbn in *.
  unfold is_u64, INT64_MIN, UINT64_MAX in *. lia.
Qed.

Lemma i64_range_bounds rs : Forall srng_wf rs ->
  Forall (fun b => INT64_MIN <= fst b <= UINT64_MAX /\ INT64_MIN <= snd b <= UINT64_MAX) (map (fun r => (s_lower r, s_upper r)) rs).
Proof.
  intros Hr. apply Forall_map. eapply Forall_impl; [exact Hr|]. intros [l u] (Hl & Hu & Hle). cbn in *.
  unfold is_i64, INT64_MIN, UINT64_MAX in *. lia.
Qed.

Lemma map_ids {A} (f : A -> A) l : Forall (fun x => f x = x) l -> map f l = l.
Proof. induction 1 as [|x l Hx _ IH]; cbn; [done|]. by rewrite Hx, IH. Qed.

Lemma bounds_in_order bs : Forall (fun b => fst b <= snd b) bs -> existsb (fun b => (snd b <? fst b) && negb (fst b =? 0)) bs = false.
Proof. intros Hb. apply existsb_none. eapply Forall_impl; [exact Hb|]. intros [l u]. cbn. intros ?. destruct (Z.ltb_spec u l); [lia|done]. Qed.

(** The range that a range in order is read as. *)
Lemma rng_of_urng u : urng_wf u -> rng_of_bounds (u_lower u, u_upper u) = RNG_U u.
Proof.
  destruct u as [l u]. intros (Hl & Hu & Hle). unfold is_u64, rng_of_bounds in *. cbn [u_lower u_upper fst snd] in *.
  destruct (Z.ltb_spec l 0); [lia|]. by rewrite Z.max_l by lia.
Qed.

Lemma rng_of_srng r : srng_wf r ->
  rng_of_bounds (s_lower r, s_upper r) = if s_lower r <? 0 then RNG_S r else RNG_U (mk_urng (s_lower r) (s_upper r)).
Proof.
  destruct r as [l u]. intros (Hl & Hu & Hle). unfold is_i64, rng_of_bounds in *. cbn [s_lower s_upper fst snd] in *.
  destruct (Z.ltb_spec l 0); [by rewrite Z.min_l by (unfold INT64_MAX; lia)|]. by rewrite Z.max_l by lia.
Qed.

Lemma set_of_urngs urs : Forall urng_wf urs ->
  rng_set_of_bounds (map (fun r => (u_lower r, u_upper r)) urs) = Ok (RNG_UINT urs).
Proof.
  intros Hw. unfold rng_set_of_bounds. replace (has_negative _) with false.
  - cbn [andb]. rewrite !map_map. do 2 f_equal. apply map_ids. eapply Forall_impl; [exact Hw|]. intros u Hu. by rewrite rng_of_urng.
  - symmetry. apply existsb_none, Forall_map. eapply Forall_impl; [exact Hw|]. intros [l u] (Hl & _). cbn in *.
    unfold is_u64 in *. destruct (Z.ltb_spec l 0); [lia|done].
Qed.

Lemma set_of_srngs srs : Forall srng_wf srs -> Exists (fun r => s_lower r < 0) srs ->
  rng_set_of_bounds (map (fun r => (s_lower r, s_upper r)) srs) = Ok (RNG_SINT srs).
Proof.
  intros Hw Hn. unfold rng_set_of_bounds. replace (has_large _) with false.
  - rewrite andb_false_r. replace (has_negative _) with true.
    + rewrite !map_map. do 2 f_equal. apply map_ids. eapply Forall_impl; [exact Hw|]. intros r Hr. rewrite rng_of_srng by done.
      destruct (s_lower r <? 0); [done|]. destruct Hr as (Hl & Hu & _). cbn. rewrite !i64_small by done. by destruct r.
    + symmetry. apply exists_existsb, Exists_map. eapply Exists_impl; [exact Hn|]. intros r Hr. by apply Z.ltb_lt.
  - symmetry. apply existsb_none, Forall_map. eapply Forall_impl; [exact Hw|]. intros r (_ & Hu & _).
    unfold is_i64 in *. cbn. destruct (Z.gtb_spec (s_upper r) INT64_MAX); [unfold INT64_MAX in *; lia|]. by rewrite andb_false_r.
Qed.

Lemma urngs_order urs : Forall urng_wf urs -> Forall (fun b => fst b <= snd b) (map (fun r => (u_lower r, u_upper r)) urs).
Proof. intros Hw. apply Forall_map. eapply Forall_impl; [exact Hw|]. by intros r (_ & _ & ?). Qed.
Lemma srngs_order srs : Forall srng_wf srs -> Forall (fun b => fst b <= snd b) (map (fun r => (s_lower r, s_upper r)) srs).
Proof. intros Hw. apply Forall_map. eapply Forall_impl; [exact Hw|]. by intros r (_ & _ & ?). Qed.

Lemma gives_rng_set ms key rs : assoc ms key = Some (rng_set_json rs) -> rng_set_canon rs ->
  gives (Ok rs) (json_object_key_get_rng_set (JObj ms) key).
Proof.
  assert (Hgo : forall bs, assoc ms key = Some (rngs_json bs) -> bs <> [] -> Forall (fun b => fst b <= snd b) bs ->
    Forall (fun b => INT64_MIN <= fst b <= UINT64_MAX /\ INT64_MIN <= snd b <= UINT64_MAX) bs -> rng_set_of_bounds bs = Ok rs ->
    gives (Ok rs) (json_object_key_get_rng_set (JObj ms) key)).
  { intros bs Hk Hne Ho Hb Hrs.
    pose proof (get_rng_set_gives (JObj ms) key _ bs Hok Hk eq_refl (rngs_json_pairs bs Hb) Hne) as Hg.
    by rewrite bounds_in_order, Hrs in Hg. }
  destruct rs as [srs|urs]; cbn [rng_set_json rng_set_canon]; intros Hk.
  - intros [[Hne Hw] Hn]. eapply Hgo; [done|by destruct srs|by apply srngs_order|by apply i64_range_bounds|by apply set_of_srngs].
  - intros [Hne Hw]. eapply Hgo; [done|by destruct urs|by apply urngs_order|by apply u64_range_bounds|by apply set_of_urngs].
Qed.

(** The ranges of a mapping, each converted to the sign of the mappings. *)
Lemma gives_map_rngs {R} fu (conv : rng -> option R) junk (bs : list (Z * Z)) (rs : list R) name :
  bs <> [] ->
  Forall2 (fun b r => gives (Ok (Some r)) (x ← rng_parse (JArr [JInt (fst b); JInt (snd b)]) fu; mret (conv x))) bs rs ->
  gives (Ok (name, rs)) (map_parse fu conv junk (name, rngs_json bs)).
Proof.
  intros Hne Hb. unfold map_parse. cbn [json_object_is_type]. replace (negb (json_object_is_type (rngs_json bs) json_type_array)) with false by done.
  replace (length (json_object_array (rngs_json bs)) =? 0)%nat with false by by destruct bs.
  apply (gives_bind tt); [by apply gives_malloc|]. eapply (gives_bind (map Some rs)).
  { apply gives_mapM. cbn. clear Hne. induction Hb; constructor; done. }
  apply (gives_bind name); [by apply gives_strdup|].
  replace (valid_prefix junk (map Some rs)) with rs; [apply gives_ret|]. unfold valid_prefix. clear Hb Hne.
  replace (length (omap id (map Some rs))) with (length (map Some rs)) by (induction rs as [|r rs IH]; cbn; congruence).
  rewrite firstn_all, map_map. symmetry. by apply map_ids, Forall_forall.
Qed.

Lemma srng_converted r : srng_wf r ->
  gives (Ok (Some r)) (x ← rng_parse (JArr [JInt (s_lower r); JInt (s_upper r)]) false; mret (rng_to_srng x)).
Proof.
  intros Hw. pose proof (rngs_json_pairs _ (i64_range_bounds [r] ltac:(by constructor))) as Hp. apply Forall2_cons_1 in Hp as [Hp _].
  destruct (rng_parse_gives _ _ Hp) as [[[Hr _] _]|[_ Hg]]; [destruct Hw as (_ & _ & ?); cbn in Hr; lia|].
  eapply gives_bind; [done|]. rewrite rng_of_srng by done. destruct r as [l u], Hw as (Hl & Hu & Hle). unfold is_i64 in *. cbn [s_lower s_upper] in *.
  destruct (l <? 0); [apply gives_ret|]. unfold rng_to_srng, INT64_MAX. cbn [u_lower u_upper].
  destruct (Z.gtb_spec l (2 ^ 63 - 1)); [lia|]. destruct (Z.gtb_spec u (2 ^ 63 - 1)); [lia|]. apply gives_ret.
Qed.

Lemma urng_converted r : urng_wf r ->
  gives (Ok (Some r)) (x ← rng_parse (JArr [JInt (u_lower r); JInt (u_upper r)]) true; mret (rng_to_urng x)).
Proof.
  destruct r as [l u]. intros (Hl & Hu & Hle). cbn [u_lower u_upper] in *. apply (gives_bind (RNG_U (mk_urng l u))); [|apply gives_ret].
  unfold rng_parse. cbn [json_object_is_type]. replace (negb _) with false by done. cbn [json_object_array jval_json].
  replace (negb (json_object_is_type (JInt l) json_type_int)) with false by done.
  replace (negb (json_object_is_type (JInt u) json_type_int)) with false by done. cbv zeta. rewrite andb_false_r, !u64_clamp by done.
  cbn [u_lower u_upper]. destruct (Z.ltb_spec u l); [lia|]. apply gives_ret.
Qed.

Lemma srngs_map name srs : srngs_canon srs ->
  gives (Ok (name, srs)) (map_parse false rng_to_srng junk_srng (name, rngs_json (map (fun r => (s_lower r, s_upper r)) srs))).
Proof.
  intros [Hne Hw]. apply gives_map_rngs; [by destruct srs|]. clear Hne. induction Hw as [|r srs Hr _ IH]; constructor; [|done].
  by apply srng_converted.
Qed.

Lemma urngs_map name urs : urngs_canon urs ->
  gives (Ok (name, urs)) (map_parse true rng_to_urng junk_urng (name, urngs_json urs)).
Proof.
  intros [Hne Hw]. apply gives_map_rngs; [by destruct urs|]. clear Hne. induction Hw as [|r urs Hr _ IH]; constructor; [|done].
  by apply urng_converted.
Qed.

Lemma gives_umaps ms key (l : list (string * list urng)) :
  assoc ms key = Some (JObj (map (fun m => (fst m, urngs_json (snd m))) l)) -> Forall (fun m => urngs_canon (snd m)) l ->
  gives (Ok (UMAPS l)) (json_object_key_get_mappings (JObj ms) key false).
Proof.
  intros Hk Hl. eapply gives_bind; [by eapply gives_key|]. do 2 (apply (gives_bind tt); [by apply gives_malloc|]).
  apply (gives_bind l); [|apply gives_ret]. apply gives_mapM. cbn. clear Hk. induction Hl as [|[n r] l Hr _ IH]; constructor; [|done].
  by apply urngs_map.
Qed.

Lemma gives_smaps ms key (l : list (string * list srng)) :
  assoc ms key = Some (JObj (map (fun m => (fst m, rngs_json (map (fun r => (s_lower r, s_upper r)) (snd m)))) l)) ->
  Forall (fun m => srngs_canon (snd m)) l ->
  gives (Ok (SMAPS l)) (json_object_key_get_mappings (JObj ms) key true).
Proof.
  intros Hk Hl. eapply gives_bind; [by eapply gives_key|]. do 2 (apply (gives_bind tt); [by apply gives_malloc|]).
  apply (gives_bind l); [|apply gives_ret]. apply gives_mapM. cbn. clear Hk. induction Hl as [|[n r] l Hr _ IH]; constructor; [|done].
  by apply srngs_map.
Qed.

Lemma gives_int ms sg i :
  assoc ms "preferred-display-base" = Some (base_json (pref_display_base i)) ->
  assoc ms "mappings" = Some (mappings_json (ranges (maps i))) -> int_canon sg i ->
  gives (Ok i) (int_fld_cls_parse (JObj ms) sg).
Proof.
  intros Hb Hm [Hc Ht]. eapply gives_bind; [by eapply gives_some, gives_base|]. eapply gives_bind.
  { apply gives_some. instantiate (1 := ranges (maps i)). destruct (ranges (maps i)) as [l|l]; destruct Hc as [-> Hl];
      [by apply gives_smaps|by apply gives_umaps]. }
  eapply gives_bind; [by apply tree_gives|]. destruct i. apply gives_ret.
Qed.

(** ** Roles, locations and the other properties *)

Lemma gives_roles_loop names acc : Forall plain names ->
  gives (Ok (fold_left (fun r n => Z.lor r (actf_role_name_get_type n)) names acc)) (roles_loop (map JStr names) acc).
Proof.
  intros Hn. revert acc. induction Hn as [|n names Hn _ IH]; intros acc; cbn; [apply gives_ret|]. rewrite Hn. apply IH.
Qed.

(** Checked for each of the 2048 sets of roles. *)
Lemma role_names_all :
  forallb (fun r => bool_decide (Forall (fun n => c_str n = n) (role_names r)) &&
                    (fold_left (fun r n => Z.lor r (actf_role_name_get_type n)) (role_names r) 0 =? r)) (seqZ 0 (2 ^ 11)) = true.
Proof. vm_compute. reflexivity. Qed.

Lemma gives_roles ms r : assoc ms "roles" = Some (snd (roles_json r)) -> roles_canon r -> gives (Ok r) (json_object_get_roles (JObj ms)).
Proof.
  intros Hk Hr. unfold json_object_get_roles. cbn [json_object_object_get_ex jval_json]. rewrite Hk. cbn [snd roles_json negb].
  replace (negb _) with false by done. cbn [json_object_array jval_json].
  pose proof (proj1 (forallb_forall _ _) role_names_all r) as Hc. rewrite andb_true_iff, bool_decide_eq_true in Hc.
  destruct Hc as [Hp Hf]; [apply list_elem_of_In, elem_of_seqZ; unfold roles_canon in Hr; lia|]. apply Z.eqb_eq in Hf.
  rewrite <- Hf at 1. by apply gives_roles_loop.
Qed.

Lemma origin_named o n : actf_fld_loc_origin_name o = Some n ->
  c_str n = n /\ actf_fld_loc_origin_name_to_type n = o /\ o <> ACTF_FLD_LOC_ORIGIN_NONE.
Proof. by destruct o; intros [= <-]. Qed.

Lemma gives_loc ms key l : assoc ms key = Some (loc_json l) -> loc_canon l -> gives (Ok l) (json_object_key_get_fld_loc (JObj ms) key).
Proof.
  intros Hk [(nm & Hlast) Hp]. unfold json_object_key_get_fld_loc. cbn [json_object_object_get_ex jval_json]. rewrite Hk.
  unfold actf_fld_loc_parse. replace (negb _) with false by done. apply (gives_bind (actf_fld_loc_origin_name (FldCls.origin l))).
  { unfold origin_name_parse, loc_json. destruct (actf_fld_loc_origin_name _) as [n|] eqn:Eo.
    - apply (gives_map_err _ (Ok (Some n))), gives_some, gives_string; [done|]. exact (proj1 (origin_named _ n Eo)).
    - apply (gives_map_err _ (Ok None)), gives_none. apply gives_bind_err. by apply gives_no_key. }
  apply (gives_bind (FldCls.origin l)).
  { destruct (actf_fld_loc_origin_name _) as [n|] eqn:Eo.
    - apply origin_named in Eo as (_ & -> & Hn). rewrite bool_decide_false by done. apply gives_ret.
    - destruct (FldCls.origin l); try done; apply gives_ret. }
  assert (Hpath : json_object_object_get_ex (loc_json l) "path" =
    Some (JArr (map (fun e => match e with Some n => JStr n | None => JNull end) (path l)))).
  { unfold loc_json. by destruct (actf_fld_loc_origin_name _). }
  rewrite Hpath. replace (negb _) with false by done. cbn [json_object_array jval_json].
  replace (length _ =? 0)%nat with false by (rewrite length_map; by destruct (path l)).
  apply (gives_bind tt); [by apply gives_malloc|]. apply (gives_bind (path l)).
  - apply gives_mapM. clear Hlast Hpath Hk. induction Hp as [|e p He _ IH]; constructor; [|done]. destruct e as [n|]; [|apply gives_ret].
    unfold path_ele_parse. cbn [json_object_get_type jval_json json_object_get_string]. rewrite He.
    eapply gives_bind; [by apply gives_strdup|apply gives_ret].
  - rewrite Hlast. destruct l. apply gives_ret.
Qed.

Lemma gives_encoding ms e : assoc ms "encoding" = Some (snd (encoding_json e)) -> gives (Ok e) (str_fld_cls_parse (JObj ms)).
Proof. intros Hk. eapply gives_bind; [eapply gives_some, gives_string; [exact Hk|by destruct e]|]. by destruct e. Qed.

Lemma gives_bit_arr ms a :
  assoc ms "length" = Some (JInt (len a)) -> assoc ms "byte-order" = Some (bo_json (bo a)) ->
  assoc ms "bit-order" = Some (bito_json (bito a)) -> assoc ms "alignment" = Some (JInt (align a)) -> bit_arr_canon a ->
  gives (Ok a) (int_fxd_len_bit_arr_fld_cls_parse (JObj ms)).
Proof.
  intros H1 H2 H3 H4 [Hl Ha]. eapply gives_bind; [eapply gives_gtz; [done|lia]|]. cbv zeta.
  destruct (Z.gtb_spec (len a) 64); [lia|]. eapply gives_bind; [by apply gives_bo|]. eapply gives_bind; [by eapply gives_some, gives_bito|].
  eapply gives_bind; [by eapply gives_some, gives_align|]. destruct a. apply gives_ret.
Qed.

Lemma gives_no_attributes ms : assoc ms "attributes" = None -> assoc ms "extensions" = None ->
  gives (Ok tt) (attributes_extensions_parse (JObj ms)).
Proof.
  intros H1 H2. eapply gives_bind; [by apply gives_none, gives_bind_err, gives_no_key|].
  eapply gives_bind; [by apply gives_none, gives_bind_err, gives_no_key|]. apply gives_ret.
Qed.

(** ** Classes *)

Context (md : actf_metadata).
Notation parse := (fld_cls_parse_fuel md).

(** The properties that all classes have. *)
Lemma gives_cls fuel ty name ms fc :
  actf_fld_cls_type_name ty = Some name -> assoc ms "attributes" = None -> assoc ms "extensions" = None ->
  gives (Ok fc) (fld_cls_type_parse (parse fuel) ty (JObj (("type"%string, JStr name) :: ms))) ->
  gives (Ok fc) (parse (S fuel) (JObj (("type"%string, JStr name) :: ms))).
Proof.
  intros Hn Ha He Hp. assert (Hty : actf_fld_cls_type_from_name name = ty /\ c_str name = name) by (destruct ty; [done|by injection Hn as <-..]).
  cbn [fld_cls_parse_fuel]. replace (json_object_is_type _ json_type_object) with true by done. apply (gives_bind name).
  { apply (gives_map_err _ (Ok name)), gives_string; [done|apply Hty]. }
  apply (gives_bind tt); [by apply gives_no_attributes|]. by rewrite (proj1 Hty).
Qed.

Ltac cls :=
  lazymatch goal with |- gives (Ok ?fc) _ => apply (gives_cls _ (type_of fc)); [try reflexivity..|];
    cbn [fld_cls_type_parse type_of] end.
Ltac bits := apply gives_bit_arr; [reflexivity..|done].

Lemma leaf_reads fuel fc : subs fc = [] -> node_canon fc -> (forall ms m a, fc <> FC_STRUCT ms m a) -> (forall os l, fc <> FC_VARIANT os l) ->
  gives (Ok fc) (parse (S fuel) (fld_cls_json fc)).
Proof.
  intros Hs Hn Hst Hva. destruct fc as [|a|a f|i a r|i a r|a|a|i r|i r|e|e n|e l|n m r|l m|ms m a|e m n|e m l|c l rs|os l]; try done;
    cbn [node_canon fld_cls_json] in *; try cls.
  - eapply gives_bind; [bits|apply gives_ret].
  - destruct Hn as (Ha & Hne & Hf & Hu). eapply gives_bind; [bits|]. eapply gives_bind; [by apply gives_umaps|]. cbn [umaps_of].
    replace (length (flag_maps f) =? 0)%nat with false by by destruct (flag_maps f).
    apply (gives_bind tt); [by apply gives_malloc|]. rewrite <- Hf. apply gives_ret.
  - destruct Hn as (Hi & Ha & Hr). unfold fxd_len_int_fld_cls_parse. apply (gives_bind (i, a, r)); [|apply gives_ret].
    eapply gives_bind; [by apply gives_int|]. eapply gives_bind; [bits|]. eapply gives_bind; [by apply gives_roles|apply gives_ret].
  - destruct Hn as (Hi & Ha & ->). unfold fxd_len_int_fld_cls_parse. apply (gives_bind (i, a, 0)); [|apply gives_ret].
    eapply gives_bind; [by apply gives_int|]. eapply gives_bind; [bits|]. apply gives_ret.
  - eapply gives_bind; [bits|apply gives_ret].
  - destruct Hn as (Ha & Hl). eapply gives_bind; [bits|]. replace (_ || _) with true; [apply gives_ret|]. 
    symmetry. destruct Hl as [->|[-> | ->]]; done.
  - destruct Hn as (Hi & Hr). apply (gives_bind (i, r)); [|apply gives_ret]. eapply gives_bind; [by apply gives_int|].
    eapply gives_bind; [by apply gives_roles|apply gives_ret].
  - destruct Hn as (Hi & ->). apply (gives_bind (i, 0)); [|apply gives_ret]. eapply gives_bind; [by apply gives_int|]. apply gives_ret.
  - eapply gives_bind; [by apply gives_encoding|apply gives_ret].
  - eapply gives_bind; [by apply gives_encoding|]. eapply gives_bind; [by apply gives_required, gives_gtez|apply gives_ret].
  - eapply gives_bind; [by apply gives_encoding|]. eapply gives_bind; [by apply gives_required, gives_loc|apply gives_ret].
  - destruct Hn as (Hl & (s & -> & Hs') & Hr). eapply gives_bind; [by apply gives_required, gives_gtez|].
    eapply gives_bind; [by apply gives_some, gives_string|]. eapply gives_bind; [by apply gives_roles|].
    eapply gives_bind; [by apply gives_strdup|apply gives_ret].
  - destruct Hn as (Hl & (s & -> & Hs')). eapply gives_bind; [by apply gives_some, gives_string|].
    eapply gives_bind; [by apply gives_required, gives_loc|]. eapply gives_bind; [by apply gives_strdup|apply gives_ret].
  - by destruct (Hst ms m a).
  - by destruct (Hva os l).
Qed.

(** A part of a class is read back when it is read from its JSON. *)
Definition reads (fuel : nat) (fc : actf_fld_cls) : Prop := gives (Ok fc) (parse fuel (fld_cls_json fc)).

Lemma get_member ms key j : assoc ms key = Some j -> json_object_object_get_ex (JObj ms) key = Some j.
Proof. done. Qed.

Lemma gives_part fuel ms key c : assoc ms key = Some (fld_cls_json c) -> reads fuel c -> gives (Ok c) (part_parse (parse fuel) (JObj ms) key).
Proof. intros Hk Hc. unfold part_parse. cbn [json_object_object_get_ex jval_json]. by rewrite Hk. Qed.

Lemma member_reads fuel m : plain (fst m) -> reads fuel (snd m) ->
  gives (Ok m) (member_cls_parse (parse fuel) (JObj [("name", JStr (fst m)); ("field-class", fld_cls_json (snd m))]%string)).
Proof.
  destruct m as [n c]. intros Hn Hc. unfold member_cls_parse. replace (negb _) with false by done.
  eapply gives_bind; [by apply gives_required, gives_string|]. eapply gives_bind; [by apply gives_part|].
  apply (gives_bind tt); [by apply gives_no_attributes|]. eapply gives_bind; [by apply gives_strdup|apply gives_ret].
Qed.

Lemma option_reads fuel o :
  rng_set_canon (snd o) -> match fst (fst o) with Some n => plain n | None => True end -> reads fuel (snd (fst o)) ->
  gives (Ok o) (variant_fld_cls_opt_parse (parse fuel)
    (JObj (match fst (fst o) with Some n => [("name"%string, JStr n)] | None => [] end ++
           [("field-class", fld_cls_json (snd (fst o))); ("selector-field-ranges", rng_set_json (snd o))]%string))).
Proof.
  destruct o as [[nm c] rs]. cbn [fst snd]. intros Hr Hn Hc. unfold variant_fld_cls_opt_parse. replace (negb _) with false by done.
  eapply gives_bind; [apply gives_part; [|done]; by destruct nm|].
  eapply gives_bind; [apply gives_required, gives_rng_set; [|done]; by destruct nm|]. apply (gives_bind nm).
  { destruct nm as [n|]; [by apply gives_some, gives_string|]. by apply gives_none, gives_bind_err, gives_no_key. }
  apply (gives_bind tt); [by destruct nm; apply gives_no_attributes|].
  apply (gives_bind nm); [by apply gives_strdup_opt|apply gives_ret].
Qed.

Lemma gives_parts {A} fuel (enc : A -> jval) (cls_of : A -> actf_fld_cls) (P : A -> Prop) (read : jval -> st nat A) l :
  (forall a, P a -> reads fuel (cls_of a) -> gives (Ok a) (read (enc a))) ->
  Forall P l -> Forall (reads fuel) (map cls_of l) -> gives (Ok l) (mapM read (map enc l)).
Proof.
  intros Hr HP Hl. rewrite Forall_map in Hl. apply gives_mapM. induction HP as [|a l Ha _ IH]; cbn; constructor;
    apply Forall_cons in Hl as [? ?]; [by apply Hr|by apply IH].
Qed.

Ltac lens := apply gives_required, gives_loc; done.

Lemma node_reads fuel fc : node_canon fc -> Forall (reads fuel) (subs fc) -> reads (S fuel) fc.
Proof.
  intros Hn Hs. destruct fc as [|a|a f|i a r|i a r|a|a|i r|i r|e|e n|e l|n m r|l m|ms m a|e m n|e m l|c l rs|os l] eqn:E; try done;
    try (apply leaf_reads; done); unfold reads; cbn [node_canon fld_cls_json subs parts] in *; cls.
  - destruct Hn as (Hm & Ha & Hp). eapply gives_bind; [by apply gives_some, gives_align|]. cbv zeta.
    change (default DEFAULT_ALIGNMENT (Some m)) with m.
    apply (gives_bind ms); [|rewrite Ha; apply gives_ret].
    apply (gives_bind tt); [by apply gives_malloc|].
    apply (gives_parts fuel _ snd (fun m => plain (fst m))); [by apply member_reads|done|done].
  - destruct Hn as (Hm & Hl). rewrite Forall_singleton in Hs. apply (gives_bind (e, m)); [|eapply gives_bind; [by apply gives_gtez|apply gives_ret]].
    eapply gives_bind; [by apply gives_some, gives_align|]. eapply gives_bind; [by apply gives_part|].
    eapply gives_bind; [by apply gives_malloc_unchk|apply gives_ret].
  - destruct Hn as (Hm & Hl). rewrite Forall_singleton in Hs. apply (gives_bind (e, m)); [|eapply gives_bind; [lens|apply gives_ret]].
    eapply gives_bind; [by apply gives_some, gives_align|]. eapply gives_bind; [by apply gives_part|].
    eapply gives_bind; [by apply gives_malloc_unchk|apply gives_ret].
  - by destruct rs as [[]|].
  - by destruct rs as [[]|].
  - destruct Hn as (Hl & Hr). rewrite Forall_singleton in Hs. eapply gives_bind; [by apply gives_part|]. eapply gives_bind; [lens|].
    apply (gives_bind (match rs with RNG_SINT [] => None | _ => Some rs end)).
    { destruct rs as [[|r srs]|urs]; [by apply gives_none, gives_bind_err, gives_no_key|..]; destruct Hr; try done;
        by apply gives_some, gives_rng_set. }
    eapply gives_bind; [by apply gives_malloc_unchk|]. destruct rs as [[|r srs]|urs]; apply gives_ret.
  - destruct Hn as (Hl & Hne & Hi & Ho). unfold variant_fld_cls_parse.
    erewrite (get_member _ "options") by reflexivity.
    replace (negb _) with false by done. cbn [json_object_array jval_json].
    replace (length _ =? 0)%nat with false by (rewrite length_map; by destruct os).
    apply (gives_bind tt); [by apply gives_malloc|]. apply (gives_bind os).
    + apply (gives_parts fuel _ (fun o => snd (fst o)) (fun o => rng_set_canon (snd o) /\ match fst (fst o) with Some n => plain n | None => True end));
        [intros o [Hr Hn]; by apply option_reads|done|done].
    + rewrite Hi. eapply gives_bind; [lens|apply gives_ret].
Qed.

Lemma parts_depth fc c : fc <> FC_NIL -> c ∈ subs fc -> (json_depth (fld_cls_json c) < json_depth (fld_cls_json fc))%nat.
Proof.
  assert (Hm : forall ms key j, assoc ms key = Some j -> (json_depth j < json_depth (JObj ms))%nat).
  { intros ms key j Hk. by apply (json_get_depth (JObj ms) key j). }
  assert (Ha : forall ms key js j, assoc ms key = Some (JArr js) -> j ∈ js -> (json_depth j < json_depth (JObj ms))%nat).
  { intros ms key js j Hk Hj. pose proof (Hm _ _ _ Hk). pose proof (json_array_depth (JArr js) j Hj). lia. }
  intros Hn Hc. destruct fc as [|a|a f|i a r|i a r|a|a|i r|i r|e|e n|e l|n m r|l m|ms m a|e m n|e m l|cc l rs|os l]; try done;
    cbn [subs parts] in Hc; try (by apply not_elem_of_nil in Hc).
  - apply list_elem_of_fmap in Hc as ([n c'] & -> & Hin). cbn [snd fld_cls_json].
    eapply Nat.lt_trans; [|eapply (Ha _ "member-classes"); [reflexivity|by apply list_elem_of_fmap_2]].
    by apply (Hm _ "field-class").
  - apply list_elem_of_singleton in Hc as ->. by apply (Hm _ "element-field-class").
  - apply list_elem_of_singleton in Hc as ->. by apply (Hm _ "element-field-class").
  - apply list_elem_of_singleton in Hc as ->. by apply (Hm _ "field-class").
  - apply list_elem_of_fmap in Hc as ([[nm c'] rs] & -> & Hin). cbn [fst snd fld_cls_json].
    eapply Nat.lt_trans; [|eapply (Ha _ "options"); [reflexivity|by apply list_elem_of_fmap_2]].
    apply (Hm _ "field-class"). by destruct nm.
Qed.
End Read.

Lemma canon_reads `{Heap, QSort} (Hok : ~ some_malloc_fails) ranges md fuel fc :
  fc_canon ranges fc -> (json_depth (fld_cls_json ranges fc) < fuel)%nat -> reads ranges md fuel fc.
Proof.
  revert fuel. induction fc as [fc IH] using fld_cls_ind_subs. intros fuel [Hn Hs]%fc_canon_inv Hd.
  destruct fuel as [|fuel]; [lia|]. apply node_reads; [done..|]. rewrite Forall_forall in *. intros c Hc.
  apply IH; [done|by apply Hs|]. pose proof (parts_depth ranges fc c ltac:(by intros ->) Hc). lia.
Qed.

(** C8: the parser of field classes reads back every class that satisfies
    [fc_canon], of all 18 types and nested to any depth, from the JSON that spells out
    its properties, whatever metadata came before, when no allocation fails.  These
    are: bit arrays of 1 to 64 bits, floating point numbers of 16, 32 or 64; lengths
    and ranges that fit in 64 bits, the bounds of a range in order, the options of a
    variant disjoint, a signed selector with a range below 0; alignments that are 0 or
    a power of two, and the effective alignment that follows from them; locations that
    end with a name, and names without null bytes.  The mappings of an integer class
    are the interval tree that [actf_mappings_init] builds of the ranges that are
    written.  Classes that CTF allows beyond these limits are not described. *)
Theorem fld_cls_json_roundtrip `{Heap, QSort} (ranges : actf_mappings -> mappings) md fc :
  ~ some_malloc_fails -> fc_canon ranges fc -> gives (Ok fc) (actf_fld_cls_parse md (fld_cls_json ranges fc)).
Proof. intros Hok Hc. apply canon_reads; [done..|]. lia. Qed.

(** A variant of a structure with an array and of an optional bit map. *)
Definition sample_bits : fxd_len_bit_arr_fld_cls := mk_bit_arr 5 ACTF_BIG_ENDIAN ACTF_FIRST_TO_LAST 8.
Definition sample_loc : actf_fld_loc := mk_fld_loc ACTF_FLD_LOC_ORIGIN_PKT_CTX [None; Some "n"%string].
Definition sample_ranges : mappings := SMAPS [("neg"%string, [mk_srng (- 3) (- 1); mk_srng 4 4]); ("any"%string, [mk_srng 5 9; mk_srng (- 9) 5])].
Definition sample_tree : actf_mappings :=
  match fst (actf_mappings_init (H := heap_ok) sample_ranges 0%nat) with Ok m => m | _ => zero_mappings end.
Definition sample_class : actf_fld_cls :=
  FC_VARIANT
    [(Some "a"%string,
      FC_STRUCT [("x"%string, FC_DYN_LEN_ARR (FC_FXD_LEN_SINT (mk_int_fld_cls ACTF_BASE_OCTAL sample_tree) sample_bits 0) 1 sample_loc)] 16 16,
      RNG_UINT [mk_urng 0 3; mk_urng (2 ^ 63) (2 ^ 64 - 1)]);
     (None,
      FC_OPTIONAL (FC_FXD_LEN_BIT_MAP sample_bits (actf_flags_init [("f"%string, [mk_urng 1 2])])) sample_loc (RNG_SINT [mk_srng (- 5) 5]),
      RNG_UINT [mk_urng 4 5])]
    sample_loc.

Example fld_cls_json_roundtrip_witness :
  m_ivals_len sample_tree = 3 /\ fc_canon (H := heap_ok) (fun _ => sample_ranges) sample_class /\
  gives (Ok sample_class)
    (actf_fld_cls_parse (H0 := heap_ok) (mk_metadata (mk_preamble 2 [] false) [] (mk_trace_cls None None None FC_NIL) []
       (mk_umap [] 0 0 0) true false) (fld_cls_json (fun _ => sample_ranges) sample_class)).
Proof.
  assert (H8 : pow2 8) by by exists 3. assert (H1 : pow2 1) by by exists 0. assert (H16 : pow2 16) by by exists 4.
  assert (Hb : bit_arr_canon sample_bits) by (split; [done|by right]).
  assert (Hl : loc_canon sample_loc) by (split; [by eexists|by repeat constructor]).
  assert (Hc : fc_canon (H := heap_ok) (fun _ => sample_ranges) sample_class).
  { constructor; [split; [done|]; split; [done|]; split; [reflexivity|]|].
    - repeat constructor; done.
    - constructor; [|constructor; [|done]].
      + constructor; [split_and!; [by right|reflexivity|by repeat constructor]|]. constructor; [|done].
        constructor; [split; [by right|done]|]. constructor; [|done]. constructor; [|done]. split; [|done].
        split; [by repeat constructor|]. exists 0%nat, 2%nat. vm_compute. reflexivity.
      + constructor; [split; [done|right]; split; [by repeat constructor|by constructor]|]. constructor; [|done].
        constructor; [|done]. split; [done|]. by repeat constructor. }
  split; [vm_compute; reflexivity|]. split; [done|]. by apply (fld_cls_json_roundtrip (H := heap_ok)); [apply heap_ok_ok|].
Defined.
