(* ===== verification/FldClsParseInv.v ===== *)
(** What parsing a field class establishes.

    [fc_parsed] is the contract of the parser: of every class in a parsed class,
    the lengths, alignments, locations, ranges and options are as CTF requires,
    with one exception: an alignment may be 0.  Without such alignments a parsed
    class is well formed, which is what the decoder asks for.  [disordered] says which
    mappings of an integer class make parsing it undefined. *)
From S2P Require Import Prelude Common Rng FldCls HashMap Clock Metadata Json CtfJson JsonUtils Mappings MappingsTree FldClsParse.
From stdpp Require Import strings.
Open Scope Z_scope.

(** * Properties of all classes in a class *)

Inductive every (P : actf_fld_cls -> Prop) : actf_fld_cls -> Prop :=
| Every fc : P fc -> Forall (every P) (subs fc) -> every P fc.

Lemma every_inv P fc : every P fc -> P fc /\ Forall (every P) (subs fc).
Proof. by inversion 1. Qed.

(** The alignments that are given for a class. *)
Definition aligns_of (fc : actf_fld_cls) : list Z :=
  match fc with
  | FC_FXD_LEN_BIT_ARR a | FC_FXD_LEN_BIT_MAP a _ | FC_FXD_LEN_UINT _ a _ | FC_FXD_LEN_SINT _ a _
  | FC_FXD_LEN_BOOL a | FC_FXD_LEN_FLOAT a => [align a]
  | FC_STRUCT _ m _ | FC_STATIC_LEN_ARR _ m _ | FC_DYN_LEN_ARR _ m _ => [m]
  | _ => []
  end.

(** The location of a length or selector field ends with a name. *)
Definition loc_parsed (l : actf_fld_loc) : Prop := exists n, last (path l) = Some (Some n).

Definition align_parsed (a : Z) : Prop := a = 0 \/ pow2 a.

(** What the parser checks of a class, apart from its parts. *)
Definition node_parsed (fc : actf_fld_cls) : Prop :=
  Forall align_parsed (aligns_of fc) /\
  match fc with
  | FC_NIL => False
  | FC_FXD_LEN_BIT_ARR a | FC_FXD_LEN_UINT _ a _ | FC_FXD_LEN_BOOL a => 1 <= len a <= 64
  | FC_FXD_LEN_SINT _ a roles => 1 <= len a <= 64 /\ roles = 0
  | FC_FXD_LEN_BIT_MAP a f => 1 <= len a <= 64 /\ flag_maps f <> [] /\ f = actf_flags_init (flag_maps f)
  | FC_FXD_LEN_FLOAT a => len a = 16 \/ len a = 32 \/ len a = 64
  | FC_VAR_LEN_SINT _ roles => roles = 0
  | FC_VAR_LEN_UINT _ _ | FC_NULL_TERM_STR _ => True
  | FC_STATIC_LEN_STR _ n | FC_STATIC_LEN_BLOB n _ _ | FC_STATIC_LEN_ARR _ _ n => is_u64 n
  | FC_DYN_LEN_STR _ l | FC_DYN_LEN_BLOB l _ | FC_DYN_LEN_ARR _ _ l => loc_parsed l
  | FC_STRUCT ms m a => struct_align ms m = Some a
  | FC_OPTIONAL _ l rs => loc_parsed l /\ rng_set_wf rs
  | FC_VARIANT os l =>
      loc_parsed l /\ os <> [] /\ Forall (fun o => rng_set_wf (snd o)) os /\ options_intersect os = false
  end.

Definition fc_parsed : actf_fld_cls -> Prop := every node_parsed.

(** No alignment of the class is 0. *)
Definition no_zero_align : actf_fld_cls -> Prop := every (fun fc => Forall (fun a => a <> 0) (aligns_of fc)).

Lemma align_parsed_max a b : align_parsed a -> align_parsed b -> align_parsed (MAX a b).
Proof. unfold MAX. by case_match. Qed.

Lemma pow2_8 : pow2 8.
Proof. by exists 3. Qed.
Lemma pow2_1 : pow2 1.
Proof. by exists 0. Qed.
#[local] Hint Resolve pow2_8 pow2_1 align_parsed_max : core.

Lemma align_req_parsed fc : fc_parsed fc ->
  exists a, actf_fld_cls_get_align_req fc = Some a /\ align_parsed a.
Proof.
  induction fc as [fc IH] using fld_cls_ind_subs. intros [[Ha Hn] Hs]%every_inv.
  assert (Harr : forall ele m, subs fc = [ele] -> aligns_of fc = [m] ->
    exists a, (e ← actf_fld_cls_get_align_req ele; Some (MAX m e)) = Some a /\ align_parsed a).
  { intros ele m He Hm. rewrite He in *. rewrite Hm in *. rewrite ?Forall_singleton in *.
    destruct (IH Hs) as (e & -> & Hpe). cbn. eauto. }
  destruct fc; cbn in *; try done; rewrite ?Forall_singleton in *; try (by eexists); try (by apply Harr);
    try (by eexists; split; [done|right]).
  (* a structure *)
  assert (Hms : Forall (fun m => exists a, actf_fld_cls_get_align_req (snd m) = Some a /\ align_parsed a) member_clses).
  { rewrite Forall_map in IH, Hs. apply Forall_forall. intros m Hm.
    rewrite Forall_forall in IH, Hs. by apply IH, Hs. }
  exists eff_align. split; [done|]. clear IH Hs Harr. revert min_align Ha Hn.
  induction Hms as [|[nm c] ms (b & Hb & Hp) _ IH]; cbn in *; intros m Hm Hal; [by simplify_eq|].
  rewrite Hb in Hal. cbn in Hal. by apply (IH (MAX b m)); [apply align_parsed_max|].
Qed.

Lemma struct_align_parsed ms m : Forall (fun mc => fc_parsed (snd mc)) ms -> exists a, struct_align ms m = Some a.
Proof.
  intros Hms. revert m. induction Hms as [|[nm c] ms Hc _ IH]; intros m; cbn; [by eexists|].
  destruct (align_req_parsed c Hc) as (b & -> & _). apply IH.
Qed.

(** ** Parsed classes are well formed *)

Lemma struct_members_all ms :
  Forall (fun m => fc_wf (snd m)) ms ->
  (fix all (ms : list (string * actf_fld_cls)) : Prop :=
     match ms with [] => True | (_, c) :: ms' => fc_wf c /\ all ms' end) ms.
Proof. induction 1 as [|[nm c] ms Hc _ IH]; [done|by split]. Qed.

Lemma options_all os :
  Forall (fun o => fc_wf (snd (fst o)) /\ rng_set_wf (snd o)) os ->
  (fix all (os : list (option string * actf_fld_cls * actf_rng_set)) : Prop :=
     match os with [] => True | (_, c, rs) :: os' => (fc_wf c /\ rng_set_wf rs) /\ all os' end) os.
Proof. induction 1 as [|[[nm c] rs] os Hc _ IH]; [done|by split]. Qed.

Lemma parsed_wf fc : fc_parsed fc -> no_zero_align fc -> fc_wf fc.
Proof.
  induction fc as [fc IH] using fld_cls_ind_subs. intros [[Ha Hn] Hs]%every_inv [Hz Hzs]%every_inv.
  assert (Hsub : Forall fc_wf (subs fc)).
  { rewrite Forall_forall in *. intros c Hc. by apply IH; [|apply Hs|apply Hzs]. }
  assert (Hp : Forall pow2 (aligns_of fc)).
  { rewrite Forall_forall in *. intros a Hin. by destruct (Ha a Hin); [destruct (Hz a Hin)|]. }
  clear Ha Hz Hs Hzs IH. destruct fc; cbn in *; rewrite ?Forall_singleton in *;
    destruct_and?; try done; try (by split; [lia|]).
  - split; [done|]. split; [done|]. apply struct_members_all. by rewrite Forall_map in Hsub.
  - apply options_all. rewrite Forall_map in Hsub. by apply (proj2 (Forall_and _ _)).
Qed.

(** * The parser *)

(** ** Mappings that the parser cannot sort *)

(** A value inside another, at any depth. *)
Inductive within {json} `{JsonC json} (c : json) : json -> Prop :=
| within_refl : within c c
| within_key j key k : json_object_object_get_ex j key = Some k -> within c k -> within c j
| within_elem j k : k ∈ json_object_array j -> within c k -> within c j.

Lemma within_trans {json} `{JsonC json} (a b c : json) : within a b -> within b c -> within a c.
Proof. intros Hab. induction 1 as [|j key k Hk _ IH|j k Hk _ IH]; [done|by eapply within_key|by eapply within_elem]. Qed.

(** The sign of an integer class. *)
Definition int_sign (ty : actf_fld_cls_type) : option bool :=
  match ty with
  | ACTF_FLD_CLS_FXD_LEN_UINT | ACTF_FLD_CLS_VAR_LEN_UINT => Some false
  | ACTF_FLD_CLS_FXD_LEN_SINT | ACTF_FLD_CLS_VAR_LEN_SINT => Some true
  | _ => None
  end.

Section Disorder.
Context {json : Type} `{JsonC json, Heap}.

(** The mappings of an object are read, with a sign, and the comparison that
    [qsort] is given does not order the ranges of one of the names: the narrowed
    differences of their lower bounds are not those of an order, or a difference of
    two [int64_t] overflows. *)
Definition disordered_maps (j : json) (sg : bool) : Prop :=
  exists m n n', json_object_key_get_mappings j "mappings" sg n = (Ok m, n') /\ maps_ordered m = false.

(** An integer class with such mappings. *)
Definition disordered (j : json) : Prop :=
  exists k sg, json_object_object_get_ex j "type" = Some k /\
    int_sign (actf_fld_cls_type_from_name (json_object_get_string k)) = Some sg /\ disordered_maps j sg.

Definition disorder_within (j : json) : Prop := exists c, within c j /\ disordered c.
End Disorder.

Section Parse.
Context {json : Type} `{JsonC json, !JsonCLaws json, Heap, QSort}.
(** The whole value that is parsed. *)
Context {B : MayBreak} (top : json).
Hypothesis break_disordered : forall c, within c top -> disordered c -> may_break.

Lemma bit_arr_parses jobj :
  parses (fun a => 1 <= len a <= 64 /\ align_parsed (align a)) (int_fxd_len_bit_arr_fld_cls_parse jobj).
Proof.
  unfold int_fxd_len_bit_arr_fld_cls_parse. parses_auto; cbn. split; [lia|].
  destruct a2; cbn; [done|]. by right.
Qed.
#[local] Hint Resolve bit_arr_parses : parses.

Lemma roles_loop_parses js roles : parses (fun _ => True) (roles_loop js roles).
Proof. revert roles. induction js as [|j js IH]; intros roles; cbn; [by parses_auto|]. parses_step; [by parses_step|apply IH]. Qed.

Lemma get_roles_parses jobj : parses (fun _ => True) (json_object_get_roles jobj).
Proof. unfold json_object_get_roles. pose proof roles_loop_parses. by parses_auto. Qed.
#[local] Hint Resolve get_roles_parses : parses.

Lemma get_base_parses jobj key : parses (fun _ => True) (json_object_key_get_base jobj key).
Proof. unfold json_object_key_get_base. by parses_auto. Qed.
#[local] Hint Resolve get_base_parses : parses.

(** Where the parsers of integer classes look at an object, its mappings are ordered
    or it may break. *)
Definition maps_break (jobj : json) (sg : bool) : Prop := disordered_maps jobj sg -> may_break.

Lemma int_fld_cls_parses jobj sg : maps_break jobj sg -> parses (fun _ => True) (int_fld_cls_parse jobj sg).
Proof.
  intros Hb. unfold int_fld_cls_parse. parses_step.
  eapply (parses_bind (fun o => match o with Some m => maps_ordered m = false -> may_break | None => True end)).
  - apply parses_unless_not_found. intros n. pose proof (get_mappings_parses jobj "mappings" sg n) as Hmp.
    destruct (json_object_key_get_mappings _ _ _ n) as [[m|rc|] n'] eqn:E; cbn in *; [|done..].
    intros Hm. apply Hb. by exists m, n, n'.
  - intros o Ho. eapply (parses_bind (fun _ => True)); [|by intros m _; apply parses_ret].
    eapply sat_mono; [apply mappings_init_outcome|done|intros rc ->; is_err|]. intros Hm. right. destruct o; [by apply Ho|done].
Qed.
#[local] Hint Resolve int_fld_cls_parses : parses.

Lemma str_fld_cls_parses jobj : parses (fun _ => True) (str_fld_cls_parse jobj).
Proof. unfold str_fld_cls_parse. by parses_auto. Qed.
#[local] Hint Resolve str_fld_cls_parses : parses.

Lemma attributes_parses jobj : parses (fun _ => True) (attributes_extensions_parse jobj).
Proof. unfold attributes_extensions_parse. by parses_auto. Qed.
#[local] Hint Resolve attributes_parses : parses.

(** A class without parts is parsed when the node is right. *)
Lemma leaf_parsed fc : subs fc = [] -> node_parsed fc -> fc_parsed fc.
Proof. intros Hs Hn. constructor; [done|]. by rewrite Hs. Qed.

Ltac leaf := apply leaf_parsed; [done|split; cbn; rewrite ?Forall_singleton; try done; try lia; auto].

Lemma bit_arr_cls_parses jobj : parses fc_parsed (fxd_len_bit_arr_fld_cls_parse jobj).
Proof. unfold fxd_len_bit_arr_fld_cls_parse. parses_auto. leaf. Qed.

Lemma bit_map_parses jobj : parses fc_parsed (fxd_len_bit_map_fld_cls_parse jobj).
Proof.
  unfold fxd_len_bit_map_fld_cls_parse. parses_auto. leaf. split_and!; try lia.
  - intros E. rewrite E in *. done.
  - done.
Qed.

Lemma fxd_int_parses jobj sg : maps_break jobj sg -> parses fc_parsed (fxd_len_int_fld_cls_parse jobj sg).
Proof.
  intros Hb. unfold fxd_len_int_fld_cls_parse, int_fxd_len_int_fld_cls_parse.
  eapply (parses_bind (fun bar => 1 <= len (snd (fst bar)) <= 64 /\ align_parsed (align (snd (fst bar))) /\ (sg = true -> snd bar = 0))).
  - do 2 parses_step. eapply (parses_bind (fun r => sg = true -> r = 0)).
    + destruct sg; [by apply parses_ret|]. eapply parses_post; [apply get_roles_parses|done].
    + intros r Hr. apply parses_ret. cbn. by destruct_and!.
  - intros [[b a] r] (Hl & Ha & Hr). cbn in *. apply parses_ret. destruct sg; leaf.
Qed.

Lemma bool_parses jobj : parses fc_parsed (fxd_len_bool_fld_cls_parse jobj).
Proof. unfold fxd_len_bool_fld_cls_parse. parses_auto. leaf. Qed.

Lemma float_parses jobj : parses fc_parsed (fxd_len_float_fld_cls_parse jobj).
Proof. unfold fxd_len_float_fld_cls_parse. parses_auto. leaf. Qed.

Lemma var_int_parses jobj sg : maps_break jobj sg -> parses fc_parsed (var_len_int_fld_cls_parse jobj sg).
Proof.
  intros Hb. unfold var_len_int_fld_cls_parse, int_var_len_int_fld_cls_parse.
  eapply (parses_bind (fun br => sg = true -> snd br = 0)).
  - parses_step. destruct sg; [by apply parses_ret|]. parses_step. by apply parses_ret.
  - intros [b r] Hr. cbn in *. apply parses_ret. destruct sg; leaf.
Qed.

Lemma null_str_parses jobj : parses fc_parsed (null_term_str_fld_cls_parse jobj).
Proof. unfold null_term_str_fld_cls_parse. parses_auto. leaf. Qed.
Lemma static_str_parses jobj : parses fc_parsed (static_len_str_fld_cls_parse jobj).
Proof. unfold static_len_str_fld_cls_parse. parses_auto. leaf. Qed.
Lemma dyn_str_parses jobj : parses fc_parsed (dyn_len_str_fld_cls_parse jobj).
Proof. unfold dyn_len_str_fld_cls_parse. parses_auto. leaf. Qed.
Lemma static_blob_parses jobj : parses fc_parsed (static_len_blob_fld_cls_parse jobj).
Proof. unfold static_len_blob_fld_cls_parse. parses_auto. leaf. Qed.
Lemma dyn_blob_parses jobj : parses fc_parsed (dyn_len_blob_fld_cls_parse jobj).
Proof. unfold dyn_len_blob_fld_cls_parse. parses_auto. leaf. Qed.

(** ** Compound classes *)

Section Compound.
Context (parse : json -> st nat actf_fld_cls) (jobj : json).
Hypothesis Hparse : forall c, (json_depth c < json_depth jobj)%nat -> within c jobj -> parses fc_parsed (parse c).

(** A value inside, from which the parser of parts goes on. *)
Definition inside (j : json) : Prop := (json_depth j <= json_depth jobj)%nat /\ within j jobj.

Lemma inside_top : inside jobj.
Proof. split; [lia|constructor]. Qed.
#[local] Hint Resolve inside_top : core.

Lemma inside_key j key k : inside j -> json_object_object_get_ex j key = Some k -> inside k.
Proof.
  intros [Hd Hw] Hk. split; [pose proof (json_get_depth j key k Hk); lia|].
  eapply within_trans; [|exact Hw]. eapply within_key; [done|constructor].
Qed.

Lemma inside_elem j k : inside j -> k ∈ json_object_array j -> inside k.
Proof.
  intros [Hd Hw] Hk. split; [pose proof (json_array_depth j k Hk); lia|].
  eapply within_trans; [|exact Hw]. eapply within_elem; [done|constructor].
Qed.

Lemma part_parses j key : inside j -> parses fc_parsed (part_parse parse j key).
Proof.
  intros Hj. unfold part_parse. destruct (json_object_object_get_ex j key) as [k|] eqn:E; [|by parses_step].
  apply Hparse; [|by apply (inside_key j key k)]. destruct Hj as [Hj _]. apply json_get_depth in E. lia.
Qed.

Lemma default_align_parsed o : match o with Some a => align_parsed a | None => True end ->
  align_parsed (default DEFAULT_ALIGNMENT o).
Proof. destruct o; cbn; [done|]. intros _. by right. Qed.
#[local] Hint Resolve default_align_parsed : core.

Lemma member_parses c : inside c ->
  parses (fun m => fc_parsed (snd m)) (member_cls_parse parse c).
Proof.
  intros Hc. unfold member_cls_parse. parses_step; [by parses_step|]. parses_step.
  eapply parses_bind; [by apply part_parses|]. intros fc Hfc. by parses_auto.
Qed.

Lemma struct_parses : parses fc_parsed (struct_fld_cls_parse parse jobj).
Proof.
  unfold struct_fld_cls_parse. parses_step. cbv zeta.
  eapply (parses_bind (Forall (fun m => fc_parsed (snd m)))).
  - parses_step; [|by apply parses_ret]. unfold struct_fld_cls_parse_member_clses. do 2 parses_step.
    apply parses_mapM_all. intros m Hm. eapply member_parses, inside_elem; [|done]. by eapply inside_key.
  - intros clses Hc. destruct (struct_align_parsed clses (default DEFAULT_ALIGNMENT a) Hc) as (al & Hal). rewrite Hal.
    apply parses_ret. constructor; [split; cbn; [constructor; auto|done]|]. cbn. by apply Forall_map.
Qed.

Lemma arr_parses : parses (fun ea => fc_parsed (fst ea) /\ align_parsed (snd ea)) (arr_fld_cls_parse parse jobj).
Proof.
  unfold arr_fld_cls_parse. parses_step. eapply parses_bind; [by apply part_parses|]. intros fc Hfc.
  parses_step. apply parses_ret. cbn. auto.
Qed.

Lemma static_arr_parses : parses fc_parsed (static_len_arr_fld_cls_parse parse jobj).
Proof.
  unfold static_len_arr_fld_cls_parse. eapply parses_bind; [apply arr_parses|]. intros [ele m] [He Hm].
  parses_step. apply parses_ret. constructor; [split; [by constructor|done]|]. by constructor.
Qed.

Lemma dyn_arr_parses : parses fc_parsed (dyn_len_arr_fld_cls_parse parse jobj).
Proof.
  unfold dyn_len_arr_fld_cls_parse. eapply parses_bind; [apply arr_parses|]. intros [ele m] [He Hm].
  parses_step. apply parses_ret. constructor; [split; [by constructor|done]|]. by constructor.
Qed.

Lemma optional_parses : parses fc_parsed (optional_fld_cls_parse parse jobj).
Proof.
  unfold optional_fld_cls_parse. eapply parses_bind; [by apply part_parses|]. intros fc Hfc.
  parses_auto. constructor; [|by constructor]. split; [constructor|]. split; [done|].
  match goal with |- rng_set_wf (default _ ?o) => by destruct o; [|constructor] end.
Qed.

Lemma option_parses c : inside c ->
  parses (fun o => fc_parsed (snd (fst o)) /\ rng_set_wf (snd o)) (variant_fld_cls_opt_parse parse c).
Proof.
  intros Hc. unfold variant_fld_cls_opt_parse. parses_step; [by parses_step|].
  eapply parses_bind; [by apply part_parses|]. intros fc Hfc. by parses_auto.
Qed.

Lemma variant_parses : parses fc_parsed (variant_fld_cls_parse parse jobj).
Proof.
  unfold variant_fld_cls_parse. do 4 parses_step; try is_err.
  eapply (parses_bind (fun os => os <> [] /\ Forall (fun o => fc_parsed (snd (fst o)) /\ rng_set_wf (snd o)) os)).
  - eapply parses_post.
    + apply (parses_mapM (fun _ o => fc_parsed (snd (fst o)) /\ rng_set_wf (snd o))). intros c Hc.
      eapply option_parses, inside_elem; [|done]. by eapply inside_key.
    + cbn. intros os Hos. split; [|by eapply Forall2_const_l]. intros ->. apply Forall2_length in Hos.
      match goal with E : (length _ =? 0)%nat = false |- _ => by rewrite Hos in E end.
  - intros os [Hne [Hc Hr]%Forall_and]. parses_step; [by parses_step|]. parses_auto.
    constructor; [|cbn; by apply Forall_map]. split; [constructor|]. cbn. by split_and!.
Qed.
End Compound.

(** ** All classes *)

Context (metadata : actf_metadata).
Hypothesis Haliases : Forall (fun a => fc_parsed (snd a)) (fld_cls_aliases metadata).

Lemma find_alias_parsed name fc : actf_metadata_find_fld_cls_alias metadata name = Some fc -> fc_parsed fc.
Proof.
  unfold actf_metadata_find_fld_cls_alias. revert Haliases. generalize (fld_cls_aliases metadata). intros l.
  induction 1 as [|[n c] l' Hc _ IH]; cbn; [done|]. case_bool_decide; [by intros [= <-]|done].
Qed.

Lemma resolve_alias_parses jobj : json_object_is_type jobj json_type_string = true ->
  parses fc_parsed (actf_fld_cls_resolve_alias metadata jobj).
Proof.
  intros Ht. unfold actf_fld_cls_resolve_alias. eapply (parses_bind (fun _ => True)); [by intros s; rewrite c_assert_true|].
  intros _ _. cbv zeta. parses_step; [|by parses_step]. parses_step. apply parses_ret. by eapply find_alias_parsed.
Qed.

#[local] Hint Resolve bit_arr_cls_parses bit_map_parses fxd_int_parses bool_parses float_parses var_int_parses
  null_str_parses static_str_parses dyn_str_parses static_blob_parses dyn_blob_parses struct_parses
  static_arr_parses dyn_arr_parses optional_parses variant_parses : parses.

Lemma type_parses parse ty jobj :
  (forall c, (json_depth c < json_depth jobj)%nat -> within c jobj -> parses fc_parsed (parse c)) ->
  (forall sg, int_sign ty = Some sg -> maps_break jobj sg) -> parses fc_parsed (fld_cls_type_parse parse ty jobj).
Proof. intros Hp Hb. destruct ty; cbn in *; auto with parses. by parses_step. Qed.

Lemma fld_cls_parse_parses fuel jobj : (json_depth jobj < fuel)%nat -> within jobj top ->
  parses fc_parsed (fld_cls_parse_fuel metadata fuel jobj).
Proof.
  revert jobj. induction fuel as [|fuel IH]; intros jobj Hd Hw; [lia|]. cbn. parses_step.
  - eapply parses_bind.
    { eapply sat_map_err; [apply get_string_parses|]. intros rc _. is_err. }
    intros name (k & Hk & ->). cbv beta. parses_step. apply type_parses.
    + intros c Hc Hcw. apply IH; [lia|by eapply within_trans].
    + intros sg Hsg Hdis. apply (break_disordered jobj Hw). by exists k, sg.
  - parses_step; [by apply resolve_alias_parses|by parses_step].
Qed.
End Parse.

(** C17: parsing a field class, from any JSON value and whatever allocations
    fail, returns a class all of whose parts satisfy the requirements of CTF that
    the parser checks (lengths of 1 to 64 bits, 16, 32 or 64 for floating point,
    alignments that are 0 or a power of two and the effective alignment computed
    from them, non-empty flags, non-empty options whose ranges are in order and
    disjoint, locations that end with a name, no roles on signed integers), or an
    error code.  Behaviour is undefined only if an allocation fails, or if an integer
    class inside the value has mappings whose ranges the comparison given to [qsort]
    does not order ([disordered]: lower bounds that are too far apart).  When no
    alignment is 0 the class is well formed. *)
Theorem fld_cls_parse_establishes {json} `{JsonC json, !JsonCLaws json, Heap, QSort} metadata (fc_jobj : json) :
  Forall (fun a => fc_parsed (snd a)) (fld_cls_aliases metadata) ->
  sat (fun fc => fc_parsed fc /\ (no_zero_align fc -> fc_wf fc)) is_err (some_malloc_fails \/ disorder_within fc_jobj)
    (actf_fld_cls_parse metadata fc_jobj).
Proof.
  intros Ha. eapply sat_post.
  - apply (fld_cls_parse_parses (B := disorder_within fc_jobj) fc_jobj); [by intros c Hc Hd; exists c|done|lia|constructor].
  - intros fc Hfc. split; [done|]. by apply parsed_wf.
Qed.

(** [{"type": "optional", "field-class": "u8", "selector-field-location": {"path": ["sel"]}}]
    with an alias of a class of 8 bits. *)
Example fld_cls_parse_establishes_witness :
  let u8 := FC_FXD_LEN_UINT (mk_int_fld_cls ACTF_BASE_DECIMAL zero_mappings) (mk_bit_arr 8 ACTF_LIL_ENDIAN ACTF_FIRST_TO_LAST 8) 0 in
  let md := mk_metadata (mk_preamble 2 [] false) [("u8"%string, u8)] (mk_trace_cls None None None FC_NIL) []
              (mk_umap [] 0 0 0) true false in
  let j := JObj [("type", JStr "optional"); ("field-class", JStr "u8");
                 ("selector-field-location", JObj [("path", JArr [JStr "sel"])])]%string in
  (exists fc n, actf_fld_cls_parse (H0 := heap_ok) md j O = (Ok fc, n)) /\
  sat (fun fc => fc_parsed fc /\ (no_zero_align fc -> fc_wf fc)) is_err (@some_malloc_fails heap_ok \/ disorder_within (H0 := heap_ok) j)
    (actf_fld_cls_parse (H0 := heap_ok) md j).
Proof.
  intros u8 md j. split; [vm_compute; eauto|]. apply (fld_cls_parse_establishes (H0 := heap_ok) md j).
  constructor; [|done]. constructor; [|done]. split; [|cbn; lia]. constructor; [|done]. by right; exists 3.
Defined.

(** Such mappings: the lower bounds of one name are INT64_MIN and 1, whose
    difference overflows; parsing the class is undefined. *)
Example far_mappings_undefined :
  let range l u := JArr [JInt l; JInt u] in
  let j := JObj [("type", JStr "variable-length-signed-integer");
                 ("mappings", JObj [("A", JArr [range INT64_MIN INT64_MIN; range 1 1])])]%string in
  let md := mk_metadata (mk_preamble 2 [] false) [] (mk_trace_cls None None None FC_NIL) [] (mk_umap [] 0 0 0) true false in
  fst (actf_fld_cls_parse (H0 := heap_ok) md j O) = Undef /\ disorder_within (H0 := heap_ok) j.
Proof.
  intros range j md. split; [vm_compute; reflexivity|]. exists j. split; [constructor|]. do 2 eexists. split; [reflexivity|]. split; [reflexivity|].
  exists (SMAPS [("A"%string, [mk_srng INT64_MIN INT64_MIN; mk_srng 1 1])]), 0%nat. eexists. split; vm_compute; reflexivity.
Qed.
