(* ===== verification/MetadataParse.v ===== *)
(** Parsing of metadata fragments, the parsers of [metadata.c]: the metadata
    class of each kind of fragment and the checks between fragments.

    The parsers take JSON values; reading text into values, and the packets of a
    packetised stream, are in MetadataText.v and MetadataPkt.v. *)
From S2P Require Import Prelude Common Rng HashMap Clock FldCls Metadata Json CtfJson JsonUtils Mappings FldClsParse.
From stdpp Require Import strings.
Open Scope Z_scope.

Definition ACTF_MAJOR_VERSION : Z := 2.

(** * Extensions and environment *)

(** The name of the first extension in a namespace that declares one. *)
Definition first_extension_enabled (extensions : ctf_fld) : option string :=
  head (omap (fun m => fst <$> head (ctf_members (snd m))) (ctf_members extensions)).

Definition environment_valid (environment : ctf_fld) : bool :=
  forallb (fun m => match ctf_d (snd m) with
                    | CTF_SINT _ | CTF_UINT _ | CTF_STR _ _ => true
                    | _ => false
                    end) (ctf_members environment).

(** * Classes *)

Definition actf_clk_origin_type_to_name (type : actf_clk_origin) : option string :=
  match type with
  | ACTF_CLK_ORIGIN_TYPE_UNIX_EPOCH => Some "unix-epoch"%string
  | ACTF_CLK_ORIGIN_TYPE_NONE | ACTF_CLK_ORIGIN_TYPE_CUSTOM _ _ _ => None
  end.

Definition actf_clk_origin_name_to_type (name : string) : actf_clk_origin :=
  default ACTF_CLK_ORIGIN_TYPE_NONE
    (by_name actf_clk_origin_type_to_name [ACTF_CLK_ORIGIN_TYPE_NONE; ACTF_CLK_ORIGIN_TYPE_UNIX_EPOCH] name).

Section Classes.
Context {json : Type} `{JsonC json, Heap, QSort}.
Context (metadata : actf_metadata).
Notation get_opt_string j k := (unless_not_found (json_object_key_get_string j k)).

Definition actf_preamble_parse (preamble_jobj : json) : st nat actf_preamble :=
  match json_object_object_get_ex preamble_jobj "version" with
  | None => st_fail ACTF_MISSING_PROPERTY
  | Some version_jobj =>
      if negb (json_object_is_type version_jobj json_type_int) then st_fail ACTF_JSON_WRONG_TYPE
      else
        uuid ← unless_not_found (json_object_key_get_uuid preamble_jobj "uuid");
        _ ← unless_not_found (json_object_key_get_ctfjson preamble_jobj "attributes");
        extensions ← unless_not_found (json_object_key_get_ctfjson preamble_jobj "extensions");
        match extensions ≫= first_extension_enabled with
        | Some _ => st_fail ACTF_UNSUPPORTED_EXTENSION
        | None =>
            mret (mk_preamble (json_object_get_int version_jobj) (default (replicate 16 0) uuid)
                    (match uuid with Some _ => true | None => false end))
        end
  end.

(** A class of fields that may be absent: an absent one is zeroed. *)
Definition opt_cls_parse (jobj : json) (key : string) : st nat actf_fld_cls :=
  match json_object_object_get_ex jobj key with
  | None => mret FC_NIL
  | Some fc_jobj => actf_fld_cls_parse metadata fc_jobj
  end.

Definition actf_fld_cls_alias_parse (fc_alias_jobj : json) : st nat (string * actf_fld_cls) :=
  name ← required (json_object_key_get_string fc_alias_jobj "name");
  fc ← part_parse (actf_fld_cls_parse metadata) fc_alias_jobj "field-class";
  attributes_extensions_parse fc_alias_jobj;;
  name ← c_strdup name;
  mret (name, fc).

Definition environment_parse (tc_jobj : json) : st nat unit :=
  environment ← unless_not_found (json_object_key_get_ctfjson tc_jobj "environment");
  match environment with
  | Some env => if environment_valid env then mret tt else st_fail ACTF_INVALID_ENVIRONMENT
  | None => mret tt
  end.

Definition actf_trace_cls_parse (tc_jobj : json) : st nat actf_trace_cls :=
  namespace ← get_opt_string tc_jobj "namespace";
  name ← get_opt_string tc_jobj "name";
  uid ← get_opt_string tc_jobj "uid";
  pkt_hdr ← opt_cls_parse tc_jobj "packet-header-field-class";
  environment_parse tc_jobj;;
  attributes_extensions_parse tc_jobj;;
  namespace ← c_strdup_opt namespace;
  name ← c_strdup_opt name;
  uid ← c_strdup_opt uid;
  mret (mk_trace_cls namespace name uid pkt_hdr).

Definition actf_clk_origin_parse (clk_origin_jobj : json) : st nat actf_clk_origin :=
  match json_object_get_type clk_origin_jobj with
  | json_type_string =>
      match actf_clk_origin_name_to_type (json_object_get_string clk_origin_jobj) with
      | ACTF_CLK_ORIGIN_TYPE_NONE => st_fail ACTF_NO_SUCH_ORIGIN
      | type => mret type
      end
  | json_type_object =>
      namespace ← get_opt_string clk_origin_jobj "namespace";
      name ← required (json_object_key_get_string clk_origin_jobj "name");
      uid ← required (json_object_key_get_string clk_origin_jobj "uid");
      namespace ← c_strdup_opt namespace;
      name ← c_strdup name;
      uid ← c_strdup uid;
      mret (ACTF_CLK_ORIGIN_TYPE_CUSTOM namespace name uid)
  | _ => st_fail ACTF_JSON_WRONG_TYPE
  end.

Definition actf_clk_offset_parse (clk_off_jobj : json) : st nat actf_clk_offset :=
  if negb (json_object_is_type clk_off_jobj json_type_object) then st_fail ACTF_JSON_WRONG_TYPE
  else
    seconds ← unless_not_found (json_object_key_get_int64 clk_off_jobj "seconds");
    cycles ← unless_not_found (json_object_key_get_gtez_uint64 clk_off_jobj "cycles");
    mret (mk_clk_offset (default 0 seconds) (default 0 cycles)).

Definition actf_clk_cls_parse (clk_cls_jobj : json) : st nat actf_clk_cls :=
  malloc;;
  id ← required (json_object_key_get_string clk_cls_jobj "id");
  namespace ← get_opt_string clk_cls_jobj "namespace";
  name ← get_opt_string clk_cls_jobj "name";
  uid ← get_opt_string clk_cls_jobj "uid";
  freq ← required (json_object_key_get_gtz_uint64 clk_cls_jobj "frequency");
  precision ← unless_not_found (json_object_key_get_gtez_uint64 clk_cls_jobj "precision");
  accuracy ← unless_not_found (json_object_key_get_gtez_uint64 clk_cls_jobj "accuracy");
  desc ← get_opt_string clk_cls_jobj "description";
  origin ← match json_object_object_get_ex clk_cls_jobj "origin" with
           | None => mret ACTF_CLK_ORIGIN_TYPE_NONE
           | Some origin_jobj => actf_clk_origin_parse origin_jobj
           end;
  off_from_origin ← match json_object_object_get_ex clk_cls_jobj "offset-from-origin" with
                    | None => mret (mk_clk_offset 0 0)
                    | Some off_jobj => actf_clk_offset_parse off_jobj
                    end;
  attributes_extensions_parse clk_cls_jobj;;
  id ← c_strdup id;
  namespace ← c_strdup_opt namespace;
  name ← c_strdup_opt name;
  uid ← c_strdup_opt uid;
  _ ← c_strdup_opt desc;
  mret (mk_clk_cls (Some id) namespace name uid freq origin off_from_origin precision accuracy).

Definition actf_event_cls_parse (evc_jobj : json) : st nat actf_event_cls :=
  malloc;;
  id ← unless_not_found (json_object_key_get_gtez_uint64 evc_jobj "id");
  dsc_id ← unless_not_found (json_object_key_get_gtez_uint64 evc_jobj "data-stream-class-id");
  namespace ← get_opt_string evc_jobj "namespace";
  name ← get_opt_string evc_jobj "name";
  uid ← get_opt_string evc_jobj "uid";
  payload ← opt_cls_parse evc_jobj "payload-field-class";
  spec_ctx ← opt_cls_parse evc_jobj "specific-context-field-class";
  attributes_extensions_parse evc_jobj;;
  namespace ← c_strdup_opt namespace;
  name ← c_strdup_opt name;
  uid ← c_strdup_opt uid;
  mret (mk_event_cls (default 0 id) (default 0 dsc_id) namespace name uid spec_ctx payload).

(** The allocations of an operation on a map are numbered by the logarithm of
    the capacity that they are for. *)
Definition map_op {A} (op : (Z -> bool) -> outcome A) : st nat A :=
  fun n => (op (fun cap => malloc_ok (n + Z.to_nat (Z.log2 cap))), (n + 64)%nat).

Definition actf_dstream_cls_parse (ds_cls_jobj : json) : st nat actf_dstream_cls :=
  malloc;;
  id ← unless_not_found (json_object_key_get_gtez_uint64 ds_cls_jobj "id");
  namespace ← get_opt_string ds_cls_jobj "namespace";
  name ← get_opt_string ds_cls_jobj "name";
  uid ← get_opt_string ds_cls_jobj "uid";
  def_clkc_id ← get_opt_string ds_cls_jobj "default-clock-class-id";
  pkt_ctx ← opt_cls_parse ds_cls_jobj "packet-context-field-class";
  event_hdr ← opt_cls_parse ds_cls_jobj "event-record-header-field-class";
  event_common_ctx ← opt_cls_parse ds_cls_jobj "event-record-common-context-field-class";
  attributes_extensions_parse ds_cls_jobj;;
  idtoevc ← map_err (fun _ => Err ACTF_ERROR) (map_op map_init);
  namespace ← c_strdup_opt namespace;
  name ← c_strdup_opt name;
  uid ← c_strdup_opt uid;
  def_clkc_id ← c_strdup_opt def_clkc_id;
  mret (mk_dstream_cls (default 0 id) name namespace uid def_clkc_id None pkt_ctx event_hdr event_common_ctx idtoevc).
End Classes.

(** * Checks of roles *)

(** The members of a structure in order, until the first error. *)
Fixpoint first_err {A} (check : A -> outcome unit) (l : list A) : outcome unit :=
  match l with
  | [] => Ok tt
  | a :: l' => match check a with Ok _ => first_err check l' | r => r end
  end.

Definition has_role (fc : actf_fld_cls) (role : Z) : bool := c_true (Z.land (actf_fld_cls_roles fc) role).

Fixpoint verify_clk_roles (def_clkc_id : option string) (fc : actf_fld_cls) : outcome unit :=
  match fc with
  | FC_STRUCT ms _ _ => first_err (fun m => verify_clk_roles def_clkc_id (snd m)) ms
  | _ =>
      match def_clkc_id with
      | Some _ => Ok tt
      | None =>
          if has_role fc ACTF_ROLE_DEF_CLK_TSTAMP then Err ACTF_NO_DEFAULT_CLOCK
          else if has_role fc ACTF_ROLE_PKT_END_DEF_CLK_TSTAMP then Err ACTF_NO_DEFAULT_CLOCK
          else Ok tt
      end
  end.

Fixpoint verify_metadata_stream_uuid_role (preamble : actf_preamble) (fc : actf_fld_cls) : outcome unit :=
  match fc with
  | FC_STRUCT ms _ _ => first_err (fun m => verify_metadata_stream_uuid_role preamble (snd m)) ms
  | _ =>
      if has_role fc ACTF_ROLE_METADATA_STREAM_UUID then
        if negb (has_uuid preamble) then Err ACTF_INVALID_UUID_ROLE
        else
          match fc with
          | FC_STATIC_LEN_BLOB n _ _ => if negb (n =? 16) then Err ACTF_INVALID_UUID_ROLE else Ok tt
          | _ => Err ACTF_INVALID_UUID_ROLE
          end
      else Ok tt
  end.

Definition is_struct (fc : actf_fld_cls) : bool := bool_decide (type_of fc = ACTF_FLD_CLS_STRUCT).

Fixpoint int_verify_pkt_magic_num_role (fc : actf_fld_cls) (is_top_lvl_struct is_first_member : bool) : outcome unit :=
  match fc with
  | FC_STRUCT ms _ _ =>
      (fix members (ms : list (string * actf_fld_cls)) (is_first : bool) : outcome unit :=
         match ms with
         | [] => Ok tt
         | (_, c) :: ms' =>
             match int_verify_pkt_magic_num_role c (is_top_lvl_struct && negb (is_struct c)) is_first with
             | Ok _ => members ms' false
             | r => r
             end
         end) ms true
  | _ =>
      if has_role fc ACTF_ROLE_PKT_MAGIC_NUM && (negb is_top_lvl_struct || negb is_first_member)
      then Err ACTF_INVALID_MAGIC_ROLE else Ok tt
  end.

Definition verify_pkt_magic_num_role (fc : actf_fld_cls) : outcome unit := int_verify_pkt_magic_num_role fc true false.

(** * Places in maps *)

Section MapPlace.
Context {V : Type}.

(** The loop of [find], which returns a pointer to the value of a slot: here the
    index of the slot. *)
Fixpoint find_place_loop (fuel : nat) (m : umap Z V) (key initial index : Z) : outcome (option Z) :=
  match fuel with
  | O => Undef
  | S fuel' =>
      match slot (slots m) index with
      | None => Undef
      | Some None => Ok None
      | Some (Some e) =>
          if uint64cmp (e_key e) key =? 0 then Ok (Some index)
          else
            let index := next_index (m_cap m) index in
            if initial =? index then Ok None else find_place_loop fuel' m key initial index
      end
  end.

Definition map_find_place (m : umap Z V) (key : Z) : outcome (option Z) :=
  let index := Z.land (map_hash hash_uint64 key) (m_cap m - 1) in
  find_place_loop (Z.to_nat (m_cap m)) m key index index.

(** A write through the pointer. *)
Definition map_set_place (m : umap Z V) (index : Z) (v : V) : umap Z V :=
  match slot (slots m) index with
  | Some (Some e) =>
      mk_umap (<[Z.to_nat index := Some (mk_entry (e_hash e) (e_key e) v)]> (slots m)) (m_len m) (m_cap m) (grow_limit m)
  | _ => m
  end.
End MapPlace.

Definition set_idtoevc (m : u64toevc) (d : actf_dstream_cls) : actf_dstream_cls :=
  mk_dstream_cls (dsc_id d) (dsc_name d) (dsc_namespace d) (dsc_uid d) (def_clkc_id d) (def_clkc d) (pkt_ctx d)
    (event_hdr d) (event_common_ctx d) m.
Definition set_def_clkc (c : option actf_clk_cls) (d : actf_dstream_cls) : actf_dstream_cls :=
  mk_dstream_cls (dsc_id d) (dsc_name d) (dsc_namespace d) (dsc_uid d) (def_clkc_id d) c (pkt_ctx d)
    (event_hdr d) (event_common_ctx d) (idtoevc d).

(** * Fragments *)

(** The metadata and the number of allocations so far. *)
Definition pstate : Type := actf_metadata * nat.

Definition set_preamble (p : actf_preamble) (s : pstate) : pstate :=
  let m := fst s in
  (mk_metadata p (fld_cls_aliases m) (trace_cls m) (clk_clses m) (idtodsc m) true (trace_cls_is_set m), snd s).
Definition set_trace_cls (tc : actf_trace_cls) (s : pstate) : pstate :=
  let m := fst s in
  (mk_metadata (preamble m) (fld_cls_aliases m) tc (clk_clses m) (idtodsc m) (preamble_is_set m) true, snd s).
Definition set_idtodsc (d : u64todsc) (s : pstate) : pstate :=
  let m := fst s in
  (mk_metadata (preamble m) (fld_cls_aliases m) (trace_cls m) (clk_clses m) d (preamble_is_set m) (trace_cls_is_set m),
   snd s).
Definition push_alias (a : string * actf_fld_cls) (s : pstate) : pstate :=
  let m := fst s in
  (mk_metadata (preamble m) (fld_cls_aliases m ++ [a]) (trace_cls m) (clk_clses m) (idtodsc m) (preamble_is_set m)
     (trace_cls_is_set m), snd s).
Definition push_clk_cls (c : actf_clk_cls) (s : pstate) : pstate :=
  let m := fst s in
  (mk_metadata (preamble m) (fld_cls_aliases m) (trace_cls m) (clk_clses m ++ [c]) (idtodsc m) (preamble_is_set m)
     (trace_cls_is_set m), snd s).

(** A parser, and the result of a check or a map operation. *)
Definition with_alloc {A} (c : st nat A) : st pstate A := st_zoom snd (fun n s => (fst s, n)) c.
Definition check {A} (o : outcome A) : st pstate A := fun s => (o, s).
Definition fail_if (b : bool) (rc : Z) : st pstate unit := if b then st_fail rc else mret tt.

Definition nil_or_struct (fc : actf_fld_cls) : bool :=
  bool_decide (type_of fc = ACTF_FLD_CLS_NIL) || is_struct fc.

Section Frag.
Context {json : Type} `{JsonC json, Heap, QSort}.

(** Pushing to a vector may allocate; the code ignores its failure, which drops
    the element. *)
Definition vec_push (push : pstate -> pstate) : st pstate unit := fun s =>
  let n := S (snd s) in
  (Ok tt, if malloc_ok (snd s) then push (fst s, n) else (fst s, n)).

Definition frag_preamble (frag_jobj : json) : st pstate unit :=
  s ← st_get;
  if preamble_is_set (fst s) then st_fail ACTF_DUPLICATE_ERROR
  else
    preamble ← with_alloc (actf_preamble_parse frag_jobj);
    fail_if (negb (version preamble =? ACTF_MAJOR_VERSION)) ACTF_UNSUPPORTED_VERSION;;
    st_modify (set_preamble preamble).

Definition frag_alias (frag_jobj : json) : st pstate unit :=
  s ← st_get;
  alias ← with_alloc (actf_fld_cls_alias_parse (fst s) frag_jobj);
  fail_if (existsb (fun a => bool_decide (fst a = fst alias)) (fld_cls_aliases (fst s))) ACTF_DUPLICATE_ERROR;;
  vec_push (push_alias alias).

Definition frag_trace_cls (frag_jobj : json) : st pstate unit :=
  s ← st_get;
  if trace_cls_is_set (fst s) then st_fail ACTF_DUPLICATE_ERROR
  else
    tc ← with_alloc (actf_trace_cls_parse (fst s) frag_jobj);
    fail_if (negb (nil_or_struct (pkt_hdr tc))) ACTF_NOT_A_STRUCT;;
    check (verify_pkt_magic_num_role (pkt_hdr tc));;
    check (verify_metadata_stream_uuid_role (preamble (fst s)) (pkt_hdr tc));;
    st_modify (set_trace_cls tc).

Definition frag_clk_cls (frag_jobj : json) : st pstate unit :=
  s ← st_get;
  clkc ← with_alloc (actf_clk_cls_parse frag_jobj);
  fail_if (cycles (off_from_origin clkc) >=? freq clkc) ACTF_CC_GTE_FREQ_ERROR;;
  fail_if (existsb (fun c => bool_decide (clk_id c = clk_id clkc)) (clk_clses (fst s))) ACTF_DUPLICATE_ERROR;;
  vec_push (push_clk_cls clkc).

(** The clock class that a data stream class refers to.  When there is none the
    message of the error is formatted with the id as the string and the string as
    the id: undefined behaviour. *)
Definition resolve_clk_cls (md : actf_metadata) (dsc : actf_dstream_cls) : st pstate actf_dstream_cls :=
  match def_clkc_id dsc with
  | None => mret dsc
  | Some id =>
      match List.find (fun c => bool_decide (clk_id c = Some id)) (clk_clses md) with
      | Some c => mret (set_def_clkc (Some c) dsc)
      | None => st_undef
      end
  end.

Definition frag_dstream_cls (frag_jobj : json) : st pstate unit :=
  s ← st_get;
  dsc ← with_alloc (actf_dstream_cls_parse (fst s) frag_jobj);
  fail_if (negb (nil_or_struct (pkt_ctx dsc))) ACTF_NOT_A_STRUCT;;
  check (verify_clk_roles (def_clkc_id dsc) (pkt_ctx dsc));;
  fail_if (negb (nil_or_struct (event_hdr dsc))) ACTF_NOT_A_STRUCT;;
  check (verify_clk_roles (def_clkc_id dsc) (event_hdr dsc));;
  fail_if (negb (nil_or_struct (event_common_ctx dsc))) ACTF_NOT_A_STRUCT;;
  contains ← check (map_contains hash_uint64 uint64cmp (idtodsc (fst s)) (dsc_id dsc));
  fail_if contains ACTF_DUPLICATE_ERROR;;
  dsc ← resolve_clk_cls (fst s) dsc;
  m ← with_alloc (map_err (fun _ => Err ACTF_ERROR)
                    (map_op (fun ok => map_insert hash_uint64 ok (idtodsc (fst s)) (dsc_id dsc) dsc)));
  st_modify (set_idtodsc m).

Definition frag_event_cls (frag_jobj : json) : st pstate unit :=
  s ← st_get;
  evc ← with_alloc (actf_event_cls_parse (fst s) frag_jobj);
  fail_if (negb (nil_or_struct (payload evc))) ACTF_NOT_A_STRUCT;;
  fail_if (negb (nil_or_struct (spec_ctx evc))) ACTF_NOT_A_STRUCT;;
  dscp ← check (map_find_place (idtodsc (fst s)) (evc_dsc_id evc));
  match (dscp ≫= fun i => e ← slot (slots (idtodsc (fst s))) i; e ← e; Some (i, e_val e)) with
  | None => st_fail ACTF_NO_SUCH_ID
  | Some (i, dsc) =>
      contains ← check (map_contains hash_uint64 uint64cmp (idtoevc dsc) (evc_id evc));
      fail_if contains ACTF_DUPLICATE_ERROR;;
      m ← with_alloc (map_err (fun _ => Err ACTF_ERROR)
                        (map_op (fun ok => map_insert hash_uint64 ok (idtoevc dsc) (evc_id evc) evc)));
      st_modify (set_idtodsc (map_set_place (idtodsc (fst s)) i (set_idtoevc m dsc)))
  end.

Definition frag_parse (frag_jobj : json) : st pstate unit :=
  if negb (json_object_is_type frag_jobj json_type_object) then st_fail ACTF_JSON_WRONG_TYPE
  else
    type ← with_alloc (map_err (fun _ => Err ACTF_MISSING_PROPERTY) (json_object_key_get_string frag_jobj "type"));
    s ← st_get;
    if bool_decide (type = "preamble"%string) then frag_preamble frag_jobj
    else if negb (preamble_is_set (fst s)) then st_fail ACTF_NO_PREAMBLE
    else if bool_decide (type = "field-class-alias"%string) then frag_alias frag_jobj
    else if bool_decide (type = "trace-class"%string) then frag_trace_cls frag_jobj
    else if bool_decide (type = "clock-class"%string) then frag_clk_cls frag_jobj
    else if bool_decide (type = "data-stream-class"%string) then frag_dstream_cls frag_jobj
    else if bool_decide (type = "event-record-class"%string) then frag_event_cls frag_jobj
    else st_fail ACTF_JSON_ERROR.
End Frag.

(** [calloc] of the metadata and the map of 4 data stream classes; [None] is a
    null pointer. *)
Definition nil_metadata (d : u64todsc) : actf_metadata :=
  mk_metadata (mk_preamble 0 (replicate 16 0) false) [] (mk_trace_cls None None None FC_NIL) [] d false false.

Definition actf_metadata_init `{Heap} : st nat (option actf_metadata) := fun n =>
  match malloc n with
  | (Ok _, n') =>
      match map_op (fun ok => map_init_cap ok 4) n' with
      | (Ok d, n'') => (Ok (Some (nil_metadata d)), n'')
      | (_, n'') => (Ok None, n'')
      end
  | (_, n') => (Ok None, n')
  end.
