(* ===== verification/MetadataText.v ===== *)
(** Metadata streams as text and as packets: the rest of the parsing of
    [metadata.c].

    A metadata stream is a sequence of JSON texts, each after a record separator,
    as it is or cut into the contents of packets (CTF2-PMETA-1.0). *)
From S2P Require Import Prelude Common Rng HashMap Clock FldCls Metadata Json CtfJson JsonUtils Mappings FldClsParse MetadataParse.
From stdpp Require Import strings.
Open Scope Z_scope.

(** * The tokener of json-c *)

Inductive json_tokener_error := json_tokener_success | json_tokener_continue | json_tokener_error_parse (code : Z).

#[export] Instance tokener_error_eq_dec : EqDecision json_tokener_error.
Proof. solve_decision. Defined.

(** [json_tokener_parse_ex] of a number of bytes; [None] is a null pointer, which
    is returned for an error, for text that is not complete, whose parsing the next
    call continues, and for the JSON null value. *)
Class Tokener (json tok : Type) := {
  json_tokener_new : tok;
  json_tokener_parse_ex : tok -> list Z -> option json * tok;
  json_tokener_get_error : tok -> json_tokener_error
}.

(** * Packet headers *)

Definition METADATA_PKT_HDR_MAGIC : Z := 0x75d11d57.
Definition METADATA_PKT_HDR_MAJOR : Z := 2.
Definition METADATA_PKT_HDR_MINOR : Z := 0.
Definition METADATA_PKT_HDR_SZ_BITS : Z := 352.
Definition METADATA_PKT_HDR_SZ : Z := 44.

Record metadata_pkt_hdr := mk_pkt_hdr {
  h_magic : Z; h_uuid : list Z; h_checksum : Z; h_content_sz_bits : Z; h_total_sz_bits : Z;
  h_compression_scheme : Z; h_encryption_scheme : Z; h_content_checksum : Z; h_major : Z; h_minor : Z;
  h_reserved : list Z; h_hdr_sz_bits : Z
}.

Definition is_metadata_stream_magic_valid (magic : Z) : bool :=
  (magic =? METADATA_PKT_HDR_MAGIC) || (magic =? bswap32 METADATA_PKT_HDR_MAGIC).

Definition is_metadata_stream_packetized (b : list Z) : bool :=
  if Z.of_nat (length b) <? 4 then false else is_metadata_stream_magic_valid (le_load (mem_slice b 0 4)).

(** [memcpy] into the packed structure, on a little-endian host. *)
Definition load_pkt_hdr (b : list Z) : metadata_pkt_hdr :=
  mk_pkt_hdr (le_load (mem_slice b 0 4)) (mem_slice b 4 16) (le_load (mem_slice b 20 4)) (le_load (mem_slice b 24 4))
    (le_load (mem_slice b 28 4)) (byte_at b 32) (byte_at b 33) (byte_at b 34) (byte_at b 35) (byte_at b 36)
    (mem_slice b 37 3) (le_load (mem_slice b 40 4)).

Definition swap_pkt_hdr (h : metadata_pkt_hdr) : metadata_pkt_hdr :=
  mk_pkt_hdr (h_magic h) (h_uuid h) (h_checksum h) (bswap32 (h_content_sz_bits h)) (bswap32 (h_total_sz_bits h))
    (h_compression_scheme h) (h_encryption_scheme h) (h_content_checksum h) (h_major h) (h_minor h) (h_reserved h)
    (bswap32 (h_hdr_sz_bits h)).

Definition read_metadata_pkt_hdr (b : list Z) : outcome metadata_pkt_hdr :=
  if Z.of_nat (length b) <? METADATA_PKT_HDR_SZ then Err ACTF_INVALID_METADATA_PKT
  else
    let hdr := load_pkt_hdr b in
    if negb (is_metadata_stream_magic_valid (h_magic hdr)) then Err ACTF_INVALID_METADATA_PKT
    else
      let hdr := if h_magic hdr =? bswap32 METADATA_PKT_HDR_MAGIC then swap_pkt_hdr hdr else hdr in
      if negb (h_major hdr =? METADATA_PKT_HDR_MAJOR) then Err ACTF_INVALID_METADATA_PKT
      else if negb (h_minor hdr =? METADATA_PKT_HDR_MINOR) then Err ACTF_INVALID_METADATA_PKT
      else if negb (h_content_sz_bits hdr mod 8 =? 0) then Err ACTF_INVALID_METADATA_PKT
      else if negb (h_total_sz_bits hdr mod 8 =? 0) then Err ACTF_INVALID_METADATA_PKT
      else if negb (h_compression_scheme hdr =? 0) then Err ACTF_INVALID_METADATA_PKT
      else if negb (h_encryption_scheme hdr =? 0) then Err ACTF_INVALID_METADATA_PKT
      else if negb (h_content_checksum hdr =? 0) then Err ACTF_INVALID_METADATA_PKT
      else if negb (h_hdr_sz_bits hdr =? METADATA_PKT_HDR_SZ_BITS) then Err ACTF_INVALID_METADATA_PKT
      else if h_content_sz_bits hdr <? h_hdr_sz_bits hdr then Err ACTF_INVALID_METADATA_PKT
      else if h_total_sz_bits hdr <? h_content_sz_bits hdr then Err ACTF_INVALID_METADATA_PKT
      else Ok hdr.

(** * Parsing *)

Section Text.
Context {json tok : Type} `{JsonC json, Heap, Tokener json tok, QSort}.

Definition RS : Z := 0x1e.

(** The bytes up to the first separator, [memchr]. *)
Fixpoint up_to_rs (b : list Z) : list Z :=
  match b with
  | [] => []
  | c :: b' => if c =? RS then [] else c :: up_to_rs b'
  end.

(** [jobj] is parsed as a fragment and released. *)
Definition parse_frag (frag : list Z) : st (tok * pstate) unit :=
  s ← st_get;
  let '(jobj, t) := json_tokener_parse_ex (fst s) frag in
  st_put (t, snd s);;
  match jobj with
  | None => st_fail ACTF_JSON_PARSE_ERROR
  | Some jobj => st_zoom snd (fun p s => (fst s, p)) (frag_parse jobj)
  end.

(** A round of the loop consumes a byte at least. *)
Fixpoint parse_frags_loop (fuel : nat) (b : list Z) : st (tok * pstate) unit :=
  match fuel with
  | O => st_undef
  | S fuel' =>
      match b with
      | [] => mret tt
      | _ =>
          let frag := up_to_rs b in
          (if (length frag =? 0)%nat then mret tt else parse_frag frag);;
          parse_frags_loop fuel' (drop (length frag + 1) b)
      end
  end.

Definition parse_json_frags (b : list Z) : st (tok * pstate) unit := parse_frags_loop (S (length b)) b.

(** The code that a call returns, as a value. *)
Definition st_rc {S} (c : st S unit) : st S Z := fun s =>
  match c s with
  | (Ok _, s') => (Ok ACTF_OK, s')
  | (Err rc, s') => (Ok rc, s')
  | (Undef, s') => (Undef, s')
  end.

(** A packet has 44 bytes at least.  The result is that of the last packet. *)
Fixpoint unpack_loop (fuel : nat) (b : list Z) (cur rc : Z) : st (tok * pstate) unit :=
  match fuel with
  | O => st_undef
  | S fuel' =>
      if cur <? Z.of_nat (length b) then
        match read_metadata_pkt_hdr (drop (Z.to_nat cur) b) with
        | Err rc => st_fail rc
        | Undef => st_undef
        | Ok hdr =>
            let hdr_sz := h_hdr_sz_bits hdr / 8 in
            let content_sz := h_content_sz_bits hdr / 8 in
            let total_sz := h_total_sz_bits hdr / 8 in
            if cur + content_sz >? Z.of_nat (length b) then st_fail ACTF_INVALID_METADATA_PKT
            else
              rc ← st_rc (parse_json_frags (mem_slice b (cur + hdr_sz) (content_sz - hdr_sz)));
              s ← st_get;
              if (rc <? 0) && negb (bool_decide (json_tokener_get_error (fst s) = json_tokener_continue)) then st_fail rc
              else unpack_loop fuel' b (cur + total_sz) rc
        end
      else if rc <? 0 then st_fail rc else mret tt
  end.

(** With a new tokener, which is freed at the end. *)
Definition with_tokener (c : st (tok * pstate) unit) : st pstate unit := fun p =>
  let '(r, s) := c (json_tokener_new, p) in (r, snd s).

Definition unpack_packetized_metadata_stream (b : list Z) : st pstate unit :=
  with_tokener (unpack_loop (S (length b)) b 0 ACTF_OK).

Definition actf_metadata_nparse (b : list Z) : st pstate unit :=
  if is_metadata_stream_packetized b then unpack_packetized_metadata_stream b
  else with_tokener (parse_json_frags b).

(** [strlen]. *)
Fixpoint c_strlen (b : list Z) : nat :=
  match b with
  | [] => O
  | c :: b' => if c =? 0 then O else S (c_strlen b')
  end.

Definition actf_metadata_parse (str : list Z) : st pstate unit := actf_metadata_nparse (take (c_strlen str) str).
End Text.
