(* ===== verification/MetadataPkt.v ===== *)
(** Packetised metadata streams: what the unpacking of [MetadataText] means.

    The reader of packet headers accepts exactly the encodings of valid headers, in
    either byte order.  A stream of packets parses as the text that it carries, for
    any cut of the text into packets that falls between two fragments or inside a
    fragment; and, as a counterexample, not for a cut after a fragment and before
    its trailing white space. *)
From S2P Require Import Prelude Common Rng HashMap Clock FldCls.
From S2P Require Import Metadata Json CtfJson JsonUtils Mappings MappingsTree FldClsParse MetadataParse MetadataText.
From stdpp Require Import strings.
Open Scope Z_scope.

(** * Integers as bytes *)

(** The [n] little-endian bytes of an integer. *)
Fixpoint le_bytes (n : nat) (x : Z) : list Z :=
  match n with O => [] | S n' => x mod 256 :: le_bytes n' (x / 256) end.

Lemma le_load_cons b d : is_byte b -> Forall is_byte d -> le_load (b :: d) = b + 256 * le_load d.
Proof.
  intros Hb Hd. cbn. pose proof (le_load_nonneg d Hd). rewrite <- Z.add_nocarry_lor.
  - rewrite Z.shiftl_mul_pow2 by lia. lia.
  - bitwise i. destruct (Z.ltb_spec i 8); [|by rewrite (testbit_high 8 b) by (unfold is_byte in Hb; lia)].
    rewrite (Z.testbit_neg_r _ (i - 8)) by lia. by rewrite andb_false_r.
Qed.

Lemma length_le_bytes n x : length (le_bytes n x) = n.
Proof. revert x. induction n as [|n IH]; intros x; cbn; [done|]. by rewrite IH. Qed.

Lemma le_bytes_are_bytes n x : Forall is_byte (le_bytes n x).
Proof. revert x. induction n as [|n IH]; intros x; cbn; constructor; [unfold is_byte; apply Z.mod_pos_bound; lia|done]. Qed.

Lemma le_load_bytes n x : 0 <= x < 256 ^ Z.of_nat n -> le_load (le_bytes n x) = x.
Proof.
  revert x. induction n as [|n IH]; intros x Hx; [cbn in *; lia|]. cbn [le_bytes].
  rewrite Nat2Z.inj_succ, Z.pow_succ_r in Hx by lia.
  rewrite le_load_cons, IH by (try apply le_bytes_are_bytes; unfold is_byte; zlia). zlia.
Qed.

Lemma le_bytes_load d : Forall is_byte d -> le_bytes (length d) (le_load d) = d.
Proof.
  induction 1 as [|b d Hb Hd IH]; [done|]. cbn [length le_bytes]. rewrite le_load_cons by done. unfold is_byte in Hb.
  replace ((b + 256 * le_load d) mod 256) with b by zlia. replace ((b + 256 * le_load d) / 256) with (le_load d) by zlia. by rewrite IH.
Qed.

Lemma le_load_bound d : Forall is_byte d -> 0 <= le_load d < 256 ^ Z.of_nat (length d).
Proof.
  induction 1 as [|b d Hb Hd IH]; [done|]. rewrite le_load_cons by done. unfold is_byte in Hb.
  cbn [length]. rewrite Nat2Z.inj_succ, Z.pow_succ_r by lia. lia.
Qed.

(** Byte [k] of a byte-swapped word is byte [3 - k]. *)
Lemma testbit_bswap32 x i : 0 <= i ->
  Z.testbit (bswap32 x) i = (i <? 32) && Z.testbit x (8 * (3 - i / 8) + i mod 8).
Proof.
  intros Hi. unfold bswap32, u32.
  change 0xFF000000 with (Z.shiftl 0xFF 24). change 0x00FF0000 with (Z.shiftl 0xFF 16).
  change 0x0000FF00 with (Z.shiftl 0xFF 8). change 0x000000FF with (Z.shiftl 0xFF 0).
  rewrite !Z.lor_spec, !testbit_mod2, !Z.shiftl_spec, !Z.shiftr_spec, !Z.land_spec by lia.
  rewrite !testbit_byte_mask by lia.
  destruct (Z.ltb_spec i 32); zcmp; zbits; try (apply (f_equal (Z.testbit x)); zlia); done.
Qed.

Lemma bswap32_range x : 0 <= bswap32 x < 2 ^ 32.
Proof.
  assert (Hnn : 0 <= bswap32 x).
  { unfold bswap32, u32. rewrite !Z.lor_nonneg.
    split_and!; try done; try (apply Z.shiftr_nonneg, Z.land_nonneg; lia); by apply Z.mod_pos_bound. }
  split; [done|]. apply bits_bound; [done|done|]. intros i Hi. rewrite testbit_bswap32 by lia.
  destruct (Z.ltb_spec i 32); [lia|done].
Qed.

Lemma bswap32_invol x : 0 <= x < 2 ^ 32 -> bswap32 (bswap32 x) = x.
Proof.
  intros Hx. bitwise i. rewrite testbit_bswap32 by lia.
  destruct (Z.ltb_spec i 32) as [Hi|Hi]; cbn [andb]; [|by rewrite (testbit_high 32 x)].
  rewrite testbit_bswap32 by zlia. rewrite (proj2 (Z.ltb_lt (8 * (3 - i / 8) + i mod 8) 32)) by zlia. cbn [andb].
  f_equal. zlia.
Qed.

(** * Packet headers *)

Definition hdr_swapped (h : metadata_pkt_hdr) : bool := h_magic h =? bswap32 METADATA_PKT_HDR_MAGIC.

(** A size in the byte order of the packet. *)
Definition enc_size (h : metadata_pkt_hdr) (x : Z) : list Z := le_bytes 4 (if hdr_swapped h then bswap32 x else x).

Definition enc_hdr (h : metadata_pkt_hdr) : list Z :=
  le_bytes 4 (h_magic h) ++ h_uuid h ++ le_bytes 4 (h_checksum h) ++ enc_size h (h_content_sz_bits h) ++
  enc_size h (h_total_sz_bits h) ++ [h_compression_scheme h; h_encryption_scheme h; h_content_checksum h; h_major h; h_minor h] ++
  h_reserved h ++ enc_size h (h_hdr_sz_bits h).

(** The requirements on a header. *)
Record hdr_valid (h : metadata_pkt_hdr) : Prop := {
  hv_magic : h_magic h = METADATA_PKT_HDR_MAGIC \/ h_magic h = bswap32 METADATA_PKT_HDR_MAGIC;
  hv_uuid : length (h_uuid h) = 16%nat /\ Forall is_byte (h_uuid h);
  hv_checksum : 0 <= h_checksum h < 2 ^ 32;
  hv_content : h_content_sz_bits h mod 8 = 0 /\ h_hdr_sz_bits h <= h_content_sz_bits h;
  hv_total : h_total_sz_bits h mod 8 = 0 /\ h_content_sz_bits h <= h_total_sz_bits h < 2 ^ 32;
  hv_schemes : h_compression_scheme h = 0 /\ h_encryption_scheme h = 0 /\ h_content_checksum h = 0;
  hv_version : h_major h = METADATA_PKT_HDR_MAJOR /\ h_minor h = METADATA_PKT_HDR_MINOR;
  hv_reserved : length (h_reserved h) = 3%nat /\ Forall is_byte (h_reserved h);
  hv_size : h_hdr_sz_bits h = METADATA_PKT_HDR_SZ_BITS
}.

Lemma bytes_slices b : (44 <= length b)%nat ->
  b = mem_slice b 0 4 ++ mem_slice b 4 16 ++ mem_slice b 20 4 ++ mem_slice b 24 4 ++ mem_slice b 28 4 ++
      [byte_at b 32; byte_at b 33; byte_at b 34; byte_at b 35; byte_at b 36] ++ mem_slice b 37 3 ++ mem_slice b 40 4 ++
      drop 44 b.
Proof.
  intros Hl. do 44 (destruct b as [|? b]; [cbn in Hl; lia|]). reflexivity.
Qed.

(** The slices of the encoding of a header. *)
Lemma load_enc h rest : length (h_uuid h) = 16%nat -> length (h_reserved h) = 3%nat ->
  load_pkt_hdr (enc_hdr h ++ rest) =
  mk_pkt_hdr (le_load (le_bytes 4 (h_magic h))) (h_uuid h) (le_load (le_bytes 4 (h_checksum h)))
    (le_load (enc_size h (h_content_sz_bits h))) (le_load (enc_size h (h_total_sz_bits h)))
    (h_compression_scheme h) (h_encryption_scheme h) (h_content_checksum h) (h_major h) (h_minor h)
    (h_reserved h) (le_load (enc_size h (h_hdr_sz_bits h))).
Proof.
  destruct h as [mg u cs co to c1 c2 c3 ma mi rs hs]. cbn [h_uuid h_reserved]. intros Hu Hr.
  do 17 (destruct u as [|? u]; try done). do 4 (destruct rs as [|? rs]; try done).
Qed.

Lemma length_enc_hdr h : length (h_uuid h) = 16%nat -> length (h_reserved h) = 3%nat -> length (enc_hdr h) = 44%nat.
Proof. intros Hu Hr. unfold enc_hdr, enc_size. rewrite !length_app, Hu, Hr, !length_le_bytes. done. Qed.

Lemma load_size h x : 0 <= x < 2 ^ 32 -> le_load (enc_size h x) = if hdr_swapped h then bswap32 x else x.
Proof.
  intros Hx. apply le_load_bytes. change (256 ^ Z.of_nat 4) with (2 ^ 32). destruct (hdr_swapped h); [apply bswap32_range|done].
Qed.

(** A valid header is read back. *)
Lemma read_enc h rest : hdr_valid h -> read_metadata_pkt_hdr (enc_hdr h ++ rest) = Ok h.
Proof.
  intros [Hm [Hu Hub] Hcs [Hc8 Hch] [Ht8 Htc] (S1 & S2 & S3) [Vm Vn] [Hr Hrb] Hh].
  assert (Hh32 : h_hdr_sz_bits h = 352) by done.
  unfold read_metadata_pkt_hdr. rewrite length_app, length_enc_hdr by done.
  destruct (Z.ltb_spec (Z.of_nat (44 + length rest)) METADATA_PKT_HDR_SZ); [unfold METADATA_PKT_HDR_SZ in *; lia|].
  rewrite load_enc, !load_size by (done || lia).
  rewrite !le_load_bytes by (change (256 ^ Z.of_nat 4) with (2 ^ 32); [done || (destruct Hm as [->| ->]; done)]).
  cbn [h_magic]. assert (Hmv : is_metadata_stream_magic_valid (h_magic h) = true).
  { unfold is_metadata_stream_magic_valid. destruct Hm as [->| ->]; rewrite Z.eqb_refl; [done|apply orb_true_r]. }
  rewrite Hmv. cbv zeta. cbn [negb]. fold (hdr_swapped h).
  match goal with |- context [if negb (h_major ?x =? _) then _ else _] => replace x with h end.
  2: { destruct h; cbn in *. unfold swap_pkt_hdr; cbn. destruct (hdr_swapped _); [|done].
       cbn. by rewrite !bswap32_invol by lia. }
  rewrite Vm, Vn, S1, S2, S3, Hc8, Ht8, Hh, !Z.eqb_refl. cbn [negb].
  destruct (Z.ltb_spec (h_content_sz_bits h) METADATA_PKT_HDR_SZ_BITS); [lia|].
  destruct (Z.ltb_spec (h_total_sz_bits h) (h_content_sz_bits h)); [lia|done].
Qed.

Lemma mem_slice_bytes b off n : Forall is_byte b -> off + n <= Z.of_nat (length b) -> 0 <= off -> 0 <= n ->
  Forall is_byte (mem_slice b off n) /\ length (mem_slice b off n) = Z.to_nat n.
Proof.
  intros Hb Hl Ho Hn. split; [by apply is_byte_slice|]. unfold mem_slice. rewrite length_take, length_drop. lia.
Qed.

(** A header as it is loaded is that of the bytes, before the order of bytes is known. *)
Lemma load_size_inv h x b off : Forall is_byte b -> off + 4 <= Z.of_nat (length b) -> 0 <= off ->
  x = (if hdr_swapped h then bswap32 (le_load (mem_slice b off 4)) else le_load (mem_slice b off 4)) ->
  0 <= x < 2 ^ 32 /\ enc_size h x = mem_slice b off 4.
Proof.
  intros Hb Hl Ho ->. destruct (mem_slice_bytes b off 4 Hb Hl Ho ltac:(lia)) as [Hs Hn].
  pose proof (le_load_bound _ Hs) as Hr. rewrite Hn in Hr. change (256 ^ Z.of_nat (Z.to_nat 4)) with (2 ^ 32) in Hr.
  unfold enc_size. pose proof (le_bytes_load _ Hs) as He. rewrite Hn in He. change (Z.to_nat 4) with 4%nat in He.
  destruct (hdr_swapped h); [|done]. split; [apply bswap32_range|]. by rewrite bswap32_invol.
Qed.

Lemma read_inv b h : Forall is_byte b -> read_metadata_pkt_hdr b = Ok h -> hdr_valid h /\ b = enc_hdr h ++ drop 44 b.
Proof.
  intros Hb. unfold read_metadata_pkt_hdr. destruct (Z.ltb_spec (Z.of_nat (length b)) METADATA_PKT_HDR_SZ) as [|Hl]; [done|].
  unfold METADATA_PKT_HDR_SZ in Hl. destruct (is_metadata_stream_magic_valid _) eqn:Hmv; [|done]. cbn [negb]. cbv zeta.
  match goal with |- context [h_major ?x] => set (k := x) end.
  assert (Hk : h_magic k = le_load (mem_slice b 0 4)) by (unfold k; by case_match).
  repeat match goal with |- context [negb (?x =? ?y)] => destruct (Z.eqb_spec x y); [|done]; cbn [negb] end.
  destruct (Z.ltb_spec (h_content_sz_bits k) (h_hdr_sz_bits k)); [done|].
  destruct (Z.ltb_spec (h_total_sz_bits k) (h_content_sz_bits k)); [done|]. intros [= <-].
  assert (Hks : k = if hdr_swapped k then swap_pkt_hdr (load_pkt_hdr b) else load_pkt_hdr b) by (unfold hdr_swapped; by rewrite Hk).
  clearbody k.
  destruct (load_size_inv k (h_content_sz_bits k) b 24 Hb ltac:(lia) ltac:(lia)) as [R1 E1];
    [rewrite Hks at 1; by destruct (hdr_swapped k)|].
  destruct (load_size_inv k (h_total_sz_bits k) b 28 Hb ltac:(lia) ltac:(lia)) as [R2 E2];
    [rewrite Hks at 1; by destruct (hdr_swapped k)|].
  destruct (load_size_inv k (h_hdr_sz_bits k) b 40 Hb ltac:(lia) ltac:(lia)) as [R3 E3];
    [rewrite Hks at 1; by destruct (hdr_swapped k)|].
  assert (Hf : h_uuid k = mem_slice b 4 16 /\ h_checksum k = le_load (mem_slice b 20 4) /\ h_reserved k = mem_slice b 37 3 /\
    h_compression_scheme k = byte_at b 32 /\ h_encryption_scheme k = byte_at b 33 /\ h_content_checksum k = byte_at b 34 /\
    h_major k = byte_at b 35 /\ h_minor k = byte_at b 36) by (rewrite Hks; by destruct (hdr_swapped k)).
  destruct Hf as (Fu & Fc & Fr & F1 & F2 & F3 & F4 & F5).
  destruct (mem_slice_bytes b 4 16 Hb) as [Bu Lu]; [lia..|]. destruct (mem_slice_bytes b 37 3 Hb) as [Br Lr]; [lia..|].
  destruct (mem_slice_bytes b 0 4 Hb) as [Bm Lm]; [lia..|]. destruct (mem_slice_bytes b 20 4 Hb) as [Bc Lc]; [lia..|].
  pose proof (le_bytes_load _ Bm) as Em. rewrite Lm in Em. pose proof (le_bytes_load _ Bc) as Ec. rewrite Lc in Ec.
  pose proof (le_load_bound _ Bc) as Rc. rewrite Lc in Rc. change (256 ^ Z.of_nat (Z.to_nat 4)) with (2 ^ 32) in Rc.
  change (Z.to_nat 4) with 4%nat in *. split.
  - split; try done; try congruence; try (by rewrite Fu); try (by rewrite Fr); try lia; try (by split_and!; lia).
    rewrite Hk. unfold is_metadata_stream_magic_valid in Hmv. cbn [h_magic load_pkt_hdr] in Hmv. lia.
  - rewrite (bytes_slices b) at 1 by lia. unfold enc_hdr. rewrite E1, E2, E3, Hk, Fu, Fc, Fr, Em, Ec, F1, F2, F3, F4, F5.
    by rewrite <- !app_assoc.
Qed.

(** C36: the reader of metadata packet headers accepts a sequence of bytes exactly
    when it begins with the encoding, in either byte order, of a header that
    satisfies the requirements, and returns that header; anything else, also a
    sequence that is too short, is an invalid packet. *)
Theorem read_metadata_pkt_hdr_spec b :
  Forall is_byte b ->
  (exists h, read_metadata_pkt_hdr b = Ok h /\ hdr_valid h /\ b = enc_hdr h ++ drop 44 b) \/
  (read_metadata_pkt_hdr b = Err ACTF_INVALID_METADATA_PKT /\ forall h rest, hdr_valid h -> b <> enc_hdr h ++ rest).
Proof.
  intros Hb. destruct (read_metadata_pkt_hdr b) as [h|rc|] eqn:E.
  - left. exists h. split; [done|]. by apply read_inv.
  - right. split; [|by intros h rest Hv ->; rewrite read_enc in E]. revert E. unfold read_metadata_pkt_hdr. cbv zeta.
    repeat case_match; congruence.
  - exfalso. revert E. unfold read_metadata_pkt_hdr. cbv zeta. repeat case_match; congruence.
Qed.

(** A header in big-endian byte order, a packet of 46 bytes, and its payload. *)
Definition be_pkt : list Z :=
  [0x75; 0xd1; 0x1d; 0x57; 1; 2; 3; 4; 5; 6; 7; 8; 9; 10; 11; 12; 13; 14; 15; 16; 0; 0; 0; 0;
   0; 0; 1; 0x70; 0; 0; 1; 0x70; 0; 0; 0; 2; 0; 0; 0; 0; 0; 0; 1; 0x60; 0x7b; 0x7d].

Example read_metadata_pkt_hdr_spec_witness :
  Forall is_byte be_pkt /\ exists h, read_metadata_pkt_hdr be_pkt = Ok h /\ hdr_valid h /\ h_content_sz_bits h = 368.
Proof.
  assert (Hb : Forall is_byte be_pkt) by (unfold be_pkt, is_byte; repeat (constructor; [lia|]); constructor).
  split; [done|]. destruct (read_metadata_pkt_hdr_spec be_pkt Hb) as [(h & E & Hv & _)|[E _]]; [|discriminate E].
  exists h. repeat split; try apply Hv; [done|]. injection E as <-. reflexivity.
Defined.

(** * Text sequences *)

(** The pieces between the separators. *)
Fixpoint split_rs (b : list Z) : list (list Z) :=
  match b with
  | [] => [[]]
  | c :: b' =>
      if c =? RS then [] :: split_rs b'
      else match split_rs b' with
           | p :: ps => (c :: p) :: ps
           | [] => [[c]]
           end
  end.

Section Text.
Context {json tok : Type} `{JsonC json, Heap, Tokener json tok, QSort}.
Implicit Types (s : tok * pstate).

Fixpoint parse_pieces (ps : list (list Z)) : st (tok * pstate) unit :=
  match ps with
  | [] => mret tt
  | p :: ps' => (match p with [] => mret tt | _ => parse_frag p end);; parse_pieces ps'
  end.

Lemma split_rs_up b : split_rs b = up_to_rs b :: (if (length (up_to_rs b) <? length b)%nat then split_rs (drop (length (up_to_rs b) + 1) b) else []).
Proof.
  induction b as [|c b IH]; [done|]. cbn [split_rs up_to_rs]. destruct (c =? RS); [done|]. by rewrite IH.
Qed.

Lemma parse_frags_loop_pieces fuel b s : (length b < fuel)%nat -> parse_frags_loop fuel b s = parse_pieces (split_rs b) s.
Proof.
  revert b s. induction fuel as [|fuel IH]; intros b s Hl; [lia|]. cbn [parse_frags_loop].
  destruct b as [|c b]; [done|]. cbv zeta. rewrite split_rs_up. set (p := up_to_rs (c :: b)). cbn [parse_pieces].
  assert (Hk : forall s', parse_frags_loop fuel (drop (length p + 1) (c :: b)) s' =
                parse_pieces (if (length p <? length (c :: b))%nat then split_rs (drop (length p + 1) (c :: b)) else []) s').
  { intros s'. rewrite IH by (rewrite length_drop; cbn in *; lia).
    destruct (Nat.ltb_spec (length p) (length (c :: b))); [done|]. by rewrite drop_ge by lia. }
  unfold mbind, st_bind. destruct p as [|x p]; cbn [length Nat.eqb]; [apply Hk|].
  destruct (parse_frag (x :: p) s) as [[[]|rc|] s']; [apply Hk|done|done].
Qed.

Lemma parse_json_frags_pieces b s : parse_json_frags b s = parse_pieces (split_rs b) s.
Proof. apply parse_frags_loop_pieces. lia. Qed.

Lemma split_rs_snoc b : exists ps p, split_rs b = ps ++ [p].
Proof.
  induction b as [|c b (ps & p & IH)]; [by exists [], []|]. cbn. rewrite IH. destruct (c =? RS); [by exists ([] :: ps), p|].
  destruct ps as [|q ps]; [by exists [], (c :: p)|by exists ((c :: q) :: ps), p].
Qed.

Lemma split_rs_app a b ps p q qs : split_rs a = ps ++ [p] -> split_rs b = q :: qs -> split_rs (a ++ b) = ps ++ (p ++ q) :: qs.
Proof.
  intros Ha Hb. revert ps p Ha. induction a as [|c a IH]; intros ps p Ha.
  { cbn in Ha. destruct ps as [|x [|y ps]]; try done. injection Ha as <-. done. }
  cbn in Ha |- *. destruct (split_rs_snoc a) as (ps' & p' & Ha'). rewrite (IH ps' p' Ha'). rewrite Ha' in Ha.
  destruct (c =? RS).
  - destruct ps as [|x ps]; [by destruct ps'|]. injection Ha as <- Ha. apply app_inj_tail in Ha as [-> ->]. done.
  - destruct ps' as [|x' ps']; cbn in Ha |- *.
    + destruct ps as [|x [|y ps]]; try done. by injection Ha as <-.
    + destruct ps as [|x ps]; [by destruct ps'|]. injection Ha as <- Ha. apply app_inj_tail in Ha as [-> ->]. done.
Qed.

Lemma parse_pieces_app ps qs s : parse_pieces (ps ++ qs) s = (parse_pieces ps;; parse_pieces qs) s.
Proof.
  revert s. induction ps as [|p ps IH]; intros s; [done|]. cbn [app parse_pieces].
  unfold mbind, st_bind in *. destruct (match p with [] => mret tt | _ => parse_frag p end s) as [[[]|rc|] s']; [apply IH|done|done].
Qed.
End Text.

(** What the documentation of json-c promises of the tokener: a value is returned
    with success, and after text that is not complete the next call continues. *)
Class TokenerLaws (json tok : Type) `{Tokener json tok} : Prop := {
  tokener_value t a j t' : json_tokener_parse_ex t a = (Some j, t') -> json_tokener_get_error t' = json_tokener_success;
  tokener_resume t a t' b : json_tokener_parse_ex t a = (None, t') -> json_tokener_get_error t' = json_tokener_continue ->
    json_tokener_parse_ex t' b = json_tokener_parse_ex t (a ++ b)
}.

Section Packets.
Context {json tok : Type} `{JsonC json, Heap, Tokener json tok, !TokenerLaws json tok, QSort}.
Implicit Types (s : tok * pstate).

(** The text may be cut between [P] and [Q], which are parsed from [s]: between
    fragments, or where the tokener has not got a complete text. *)
Definition cut_ok s (P Q : list Z) : Prop :=
  match parse_json_frags P s with
  | (Ok _, _) => P = [] \/ Q = [] \/ last P = Some RS \/ head Q = Some RS
  | (Err _, (t, _)) => json_tokener_get_error t = json_tokener_continue
  | (Undef, _) => False
  end.

Lemma split_rs_last b ps p : split_rs b = ps ++ [p] -> last b = Some RS -> p = [].
Proof.
  intros Hs (b' & ->)%last_Some. destruct (split_rs_snoc b') as (ps' & p' & Hs').
  rewrite (split_rs_app b' [RS] ps' p' [] [[]] Hs' eq_refl) in Hs.
  replace (ps' ++ [p' ++ []; []]) with ((ps' ++ [p' ++ []]) ++ [[]]) in Hs by (by rewrite <- app_assoc).
  by apply app_inj_tail in Hs as [_ <-].
Qed.

(** The parse of the rest of a text, from where a cut left the parser. *)
Lemma resume s P c R r sU s2 :
  parse_json_frags P s = (r, sU) -> cut_ok s P (c ++ R) -> parse_json_frags (P ++ c ++ R) s = (Ok tt, s2) -> c <> [] ->
  parse_json_frags c sU = parse_json_frags (P ++ c) s.
Proof.
  intros HP Hcut Hall Hc. unfold cut_ok in Hcut. rewrite HP in Hcut. rewrite !parse_json_frags_pieces in *.
  destruct (split_rs_snoc P) as (ps & p & Sp).
  destruct (split_rs c) as [|q qs] eqn:Sc; [by rewrite split_rs_up in Sc|].
  assert (Sr : exists q' qs', split_rs (c ++ R) = q' :: qs' /\ (q = [] -> q' = [])).
  { destruct c as [|x c]; [done|]. cbn in Sc |- *. destruct (x =? RS); [eexists _, _; split; done|].
    destruct (split_rs c); injection Sc as <- <-; destruct (split_rs (c ++ R)); by eexists _, _. }
  destruct Sr as (q' & qs' & Sr & Hq'). rewrite (split_rs_app _ _ _ _ _ _ Sp Sc), (split_rs_app _ _ _ _ _ _ Sp Sr) in *.
  rewrite Sp in HP. rewrite parse_pieces_app in HP, Hall |- *. unfold mbind, st_bind in HP, Hall |- *.
  destruct (parse_pieces ps s) as [[[]|rc|] s1]; [|done|done]. cbn [parse_pieces] in HP, Hall |- *.
  unfold mbind, st_bind in HP, Hall |- *. destruct r as [[]|rc|]; [| |done].
  - assert (Ho : p = [] \/ q = []).
    { destruct Hcut as [->|[Hn|[Hl|Hh]]].
      - left. destruct ps as [|x [|y ps]]; try done. by injection Sp.
      - by destruct c.
      - left. by eapply split_rs_last.
      - right. destruct c as [|x c]; [done|]. cbn in Hh, Sc. injection Hh as ->. cbn in Sc. by injection Sc. }
    destruct p as [|x p]; [cbv [mret st_ret] in HP; by simplify_eq|]. destruct Ho as [|Ho]; [done|]. rewrite Ho, app_nil_r.
    destruct (parse_frag (x :: p) s1) as [[[]|rc|] s1']; cbv [mret st_ret] in HP; by simplify_eq.
  - destruct sU as [tU pU]. destruct p as [|x p]; [done|].
    assert (Hf : parse_frag (x :: p) s1 = (Err rc, (tU, pU))) by (destruct (parse_frag (x :: p) s1) as [[[]|rc'|] s1']; cbv [mret st_ret] in HP; congruence).
    destruct q as [|y q].
    { rewrite Hq', app_nil_r in Hall by done. cbn [app] in Hall. by rewrite Hf in Hall. }
    assert (Hj : parse_frag (y :: q) (tU, pU) = parse_frag ((x :: p) ++ y :: q) s1); [|by rewrite Hj].
    revert Hf. unfold parse_frag, mbind, st_bind, st_get, st_put. cbn [fst snd].
    destruct (json_tokener_parse_ex (fst s1) (x :: p)) as [[j|] t'] eqn:Et.
    + unfold st_zoom. cbn [fst snd]. destruct (frag_parse j (snd s1)) as [r' p']. intros [= _ <- _].
      rewrite (tokener_value _ _ _ _ Et) in Hcut. done.
    + intros [= _ <- <-]. rewrite (tokener_resume _ _ _ _ Et Hcut). by destruct (json_tokener_parse_ex (fst s1) ((x :: p) ++ y :: q)) as [[j|] t''].
Qed.

(** ** Packets *)

Record metadata_pkt := mk_pkt { pk_hdr : metadata_pkt_hdr; pk_content : list Z; pk_padding : list Z }.

(** The sizes of the header are those of the packet. *)
Definition pkt_valid (k : metadata_pkt) : Prop :=
  hdr_valid (pk_hdr k) /\
  h_content_sz_bits (pk_hdr k) = METADATA_PKT_HDR_SZ_BITS + 8 * Z.of_nat (length (pk_content k)) /\
  h_total_sz_bits (pk_hdr k) = h_content_sz_bits (pk_hdr k) + 8 * Z.of_nat (length (pk_padding k)).

Definition enc_pkt (k : metadata_pkt) : list Z := enc_hdr (pk_hdr k) ++ pk_content k ++ pk_padding k.

Lemma length_enc_pkt k : pkt_valid k ->
  length (enc_pkt k) = (44 + length (pk_content k) + length (pk_padding k))%nat.
Proof. intros [[] _]. unfold enc_pkt. rewrite !length_app, length_enc_hdr by tauto. lia. Qed.

Lemma mem_slice_app a b c n : n = Z.of_nat (length b) -> mem_slice (a ++ b ++ c) (Z.of_nat (length a)) n = b.
Proof. intros ->. unfold mem_slice. by rewrite !Nat2Z.id, drop_app_length, take_app_length. Qed.

(** One packet is read and its contents parsed. *)
Lemma unpack_step fuel front k rest rc s : pkt_valid k ->
  let b := front ++ enc_pkt k ++ rest in
  unpack_loop (S fuel) b (Z.of_nat (length front)) rc s =
  (rc ← st_rc (parse_json_frags (pk_content k));
   s ← st_get;
   if (rc <? 0) && negb (bool_decide (json_tokener_get_error (fst s) = json_tokener_continue)) then st_fail rc
   else unpack_loop fuel b (Z.of_nat (length (front ++ enc_pkt k))) rc) s.
Proof.
  intros Hk b. pose proof (length_enc_pkt k Hk) as Hl. destruct Hk as (Hv & Hc & Ht). pose proof (hv_size _ Hv) as Hs.
  assert (Hh : length (enc_hdr (pk_hdr k)) = 44%nat) by (destruct Hv; apply length_enc_hdr; tauto).
  assert (Hb : Z.of_nat (length b) = Z.of_nat (length front) + (44 + Z.of_nat (length (pk_content k)) +
               Z.of_nat (length (pk_padding k))) + Z.of_nat (length rest)) by (unfold b; rewrite !length_app; lia).
  cbn [unpack_loop]. destruct (Z.ltb_spec (Z.of_nat (length front)) (Z.of_nat (length b))); [|lia].
  unfold b at 1. rewrite Nat2Z.id, drop_app_length. unfold enc_pkt at 1. rewrite <- app_assoc, read_enc by done. cbv zeta.
  rewrite Ht, Hc, Hs. unfold METADATA_PKT_HDR_SZ_BITS.
  replace ((352 + 8 * Z.of_nat (length (pk_content k))) / 8) with (44 + Z.of_nat (length (pk_content k))) by zlia.
  replace ((352 + 8 * Z.of_nat (length (pk_content k)) + 8 * Z.of_nat (length (pk_padding k))) / 8)
    with (Z.of_nat (length (enc_pkt k))) by (rewrite Hl; zlia).
  change (352 / 8) with 44. destruct (Z.gtb_spec (Z.of_nat (length front) + (44 + Z.of_nat (length (pk_content k)))) (Z.of_nat (length b))); [lia|].
  replace (mem_slice b _ _) with (pk_content k); [by rewrite length_app, Nat2Z.inj_add|].
  replace (Z.of_nat (length front) + 44) with (Z.of_nat (length (front ++ enc_hdr (pk_hdr k)))) by (rewrite length_app; lia).
  unfold b, enc_pkt. rewrite <- !app_assoc, (app_assoc front). rewrite mem_slice_app by lia. done.
Qed.

Definition text_of (pkts : list metadata_pkt) : list Z := concat (map pk_content pkts).
Definition stream_of (pkts : list metadata_pkt) : list Z := concat (map enc_pkt pkts).

Lemma length_stream pkts : Forall pkt_valid pkts -> (length pkts <= length (stream_of pkts))%nat.
Proof.
  induction 1 as [|k pkts Hk _ IH]; [done|]. change (stream_of (k :: pkts)) with (enc_pkt k ++ stream_of pkts).
  rewrite length_app, length_enc_pkt by done. cbn [length]. lia.
Qed.

Lemma magic_is_packetized m rest :
  is_metadata_stream_magic_valid m = true -> 0 <= m < 2 ^ 32 -> is_metadata_stream_packetized (le_bytes 4 m ++ rest) = true.
Proof.
  intros Hm Hr. unfold is_metadata_stream_packetized. rewrite length_app, length_le_bytes.
  destruct (Z.ltb_spec (Z.of_nat (4 + length rest)) 4); [lia|].
  change (mem_slice (le_bytes 4 m ++ rest) 0 4) with (le_bytes 4 m). by rewrite le_load_bytes.
Qed.

Lemma stream_is_packetized pkts : pkts <> [] -> Forall pkt_valid pkts -> is_metadata_stream_packetized (stream_of pkts) = true.
Proof.
  intros Hne Hv. destruct pkts as [|k pkts]; [done|]. apply Forall_cons in Hv as [[Hv _] _].
  change (stream_of (k :: pkts)) with (enc_pkt k ++ stream_of pkts). unfold enc_pkt, enc_hdr. rewrite <- !app_assoc.
  apply magic_is_packetized; destruct Hv; by destruct hv_magic0 as [-> | ->].
Qed.

(** The packets that are left, from the state that the parse of the text before
    them has. *)
Lemma unpack_loop_packets fuel front pkts s P r sU rc s2 :
  Forall pkt_valid pkts -> (length pkts < fuel)%nat ->
  parse_json_frags P s = (r, sU) -> (r = Ok tt -> rc = ACTF_OK) ->
  (forall pre post, pkts = pre ++ post -> cut_ok s (P ++ text_of pre) (text_of post)) ->
  parse_json_frags (P ++ text_of pkts) s = (Ok tt, s2) ->
  unpack_loop fuel (front ++ stream_of pkts) (Z.of_nat (length front)) rc sU = (Ok tt, s2).
Proof.
  revert fuel front P r sU rc. induction pkts as [|k pkts IH]; intros fuel front P r sU rc Hv Hf HP Hr Hcut Hall.
  { destruct fuel as [|fuel]; [cbn in Hf; lia|]. change (text_of []) with (@nil Z) in Hall. rewrite app_nil_r, HP in Hall.
    injection Hall as -> ->. change (stream_of []) with (@nil Z). rewrite app_nil_r. cbn [unpack_loop]. by rewrite Z.ltb_irrefl, Hr. }
  destruct fuel as [|fuel]; [cbn in Hf; lia|]. apply Forall_cons in Hv as [Hk Hv].
  change (stream_of (k :: pkts)) with (enc_pkt k ++ stream_of pkts). change (text_of (k :: pkts)) with (pk_content k ++ text_of pkts) in *.
  rewrite unpack_step by done. rewrite (app_assoc front).
  assert (Hgo : forall r' sU' rc', parse_json_frags (P ++ pk_content k) s = (r', sU') -> (r' = Ok tt -> rc' = ACTF_OK) ->
    unpack_loop fuel ((front ++ enc_pkt k) ++ stream_of pkts) (Z.of_nat (length (front ++ enc_pkt k))) rc' sU' = (Ok tt, s2)).
  { intros r' sU' rc' HP' Hr'. apply (IH fuel _ (P ++ pk_content k) r'); try done; [cbn in Hf; lia| |by rewrite <- app_assoc].
    intros pre post ->. rewrite <- app_assoc. by apply (Hcut (k :: pre) post). }
  unfold st_rc, mbind, st_bind, st_get. destruct (decide (pk_content k = [])) as [E|Hne].
  { rewrite E in *. cbn -[unpack_loop]. apply (Hgo r); [by rewrite app_nil_r|done]. }
  pose proof (Hcut [] (k :: pkts) eq_refl) as Hk0. change (text_of []) with (@nil Z) in Hk0. rewrite app_nil_r in Hk0.
  rewrite (resume s P _ _ r sU s2 HP Hk0) by done.
  pose proof (Hcut [k] pkts eq_refl) as Hk1. unfold cut_ok in Hk1. unfold text_of at 1 in Hk1. cbn [map concat] in Hk1.
  rewrite app_nil_r in Hk1. destruct (parse_json_frags (P ++ pk_content k) s) as [[[]|e|] [t' p']] eqn:E.
  - by apply (Hgo (Ok tt)).
  - cbn [fst]. rewrite Hk1, bool_decide_true, andb_false_r by done. by apply (Hgo (Err e)).
  - done.
Qed.
End Packets.

(** C16: a packetised metadata stream parses as the text that it carries: with any
    number of packets, of either byte order, padded or not, empty or not, when
    the text is cut between two fragments or inside one (so that the tokener waits
    for the rest), and the text is accepted, the stream is accepted and leaves the
    same metadata. *)
Theorem packets_parse_as_text {json tok} `{JsonC json, Heap, Tokener json tok, !TokenerLaws json tok, QSort} pkts p p' :
  pkts <> [] -> Forall pkt_valid pkts ->
  (forall pre post, pkts = pre ++ post -> cut_ok (json_tokener_new, p) (text_of pre) (text_of post)) ->
  is_metadata_stream_packetized (text_of pkts) = false ->
  actf_metadata_nparse (text_of pkts) p = (Ok tt, p') ->
  actf_metadata_nparse (stream_of pkts) p = (Ok tt, p').
Proof.
  intros Hne Hv Hcut Ht. unfold actf_metadata_nparse. rewrite Ht.
  rewrite stream_is_packetized by done. unfold unpack_packetized_metadata_stream, with_tokener.
  destruct (parse_json_frags (text_of pkts) (json_tokener_new, p)) as [r s2] eqn:E. intros [= -> <-].
  pose proof (length_stream pkts Hv).
  rewrite (unpack_loop_packets _ [] pkts (json_tokener_new, p) [] (Ok tt) (json_tokener_new, p) ACTF_OK s2); (done || lia).
Qed.

(** * A sample tokener *)

(** Text is a digit, the index of a JSON value, and a semicolon, with white space
    around it; [pending] is text that is not complete. *)
Record sample_tok := mk_sample_tok { tok_err : json_tokener_error; pending : list Z }.

Fixpoint skip_newlines (b : list Z) : list Z :=
  match b with c :: b' => if c =? 10 then skip_newlines b' else b | [] => [] end.

Definition sample_tok_parse (js : list jval) (t : sample_tok) (frag : list Z) : option jval * sample_tok :=
  let b := (if bool_decide (tok_err t = json_tokener_continue) then pending t else []) ++ frag in
  match skip_newlines b with
  | k :: c :: _ =>
      match (if c =? 59 then js !! Z.to_nat (k - 48) else None) with
      | Some j => (Some j, mk_sample_tok json_tokener_success [])
      | None => (None, mk_sample_tok (json_tokener_error_parse 1) [])
      end
  | _ => (None, mk_sample_tok json_tokener_continue b)
  end.

Definition sample_tokener (js : list jval) : Tokener jval sample_tok :=
  {| json_tokener_new := mk_sample_tok json_tokener_success [];
     json_tokener_parse_ex := sample_tok_parse js;
     json_tokener_get_error := tok_err |}.

Lemma sample_tokener_laws js : @TokenerLaws jval sample_tok (sample_tokener js).
Proof.
  split; cbn; unfold sample_tok_parse.
  - intros t a j t'. repeat case_match; by intros [= _ <-].
  - intros t a t' b. set (p := if bool_decide (tok_err t = _) then _ else _). intros Hp He.
    assert (Ht : t' = mk_sample_tok json_tokener_continue (p ++ a)) by (repeat case_match; simplify_eq; done).
    subst t'. cbn. by rewrite bool_decide_true, <- app_assoc by done.
Qed.

Definition two_frags : list jval :=
  [ JObj [("type", JStr "preamble"); ("version", JInt 2)];
    JObj [("type", JStr "clock-class"); ("id", JStr "a"); ("frequency", JInt 1)];
    JObj [("type", JStr "clock-class"); ("id", JStr "b"); ("frequency", JInt 1)] ]%string.

(** A packet with the content, in the given byte order. *)
Definition sample_pkt (magic : Z) (content : list Z) : metadata_pkt :=
  let sz := 352 + 8 * Z.of_nat (length content) in
  mk_pkt (mk_pkt_hdr magic (replicate 16 0) 0 sz (sz + 8) 0 0 0 2 0 [0; 0; 0] 352) content [255].

Definition empty_md : pstate := (nil_metadata (mk_umap (replicate 4 None) 0 4 2), O).

(** The second fragment is cut in two, and the packets differ in byte order. *)
Example packets_parse_as_text_witness :
  let nparse := actf_metadata_nparse (H0 := heap_ok) (H1 := sample_tokener two_frags) in
  let pkts := [sample_pkt 0x75d11d57 [30; 48; 59; 10; 30; 49]; sample_pkt 0x571dd175 [59; 10]] in
  let p' := snd (nparse (text_of pkts) empty_md) in
  length (clk_clses (fst p')) = 1%nat /\ nparse (stream_of pkts) empty_md = (Ok tt, p').
Proof.
  intros nparse pkts p'. split; [vm_compute; reflexivity|].
  pose proof (sample_tokener_laws two_frags).
  apply (packets_parse_as_text (H0 := heap_ok) (H1 := sample_tokener two_frags) pkts empty_md).
  - done.
  - apply Forall_cons. split; [|apply Forall_singleton]; (split; [|done]); split; cbn; try done;
      try (by left); try (by right); split_and!; try done; by repeat constructor.
  - intros [|k [|k2 [|k3 pre]]] post E; [left; vm_compute; reflexivity|..].
    + injection E as <- <-. vm_compute. done.
    + injection E as <- <- <-. vm_compute. auto.
    + done.
  - vm_compute. reflexivity.
  - vm_compute. reflexivity.
Defined.

(** A cut between a fragment and the newline after it: the rest of the packet is
    dropped and the call succeeds, with one clock class of two. *)
Example packet_cut_drops_fragments :
  let nparse := actf_metadata_nparse (H0 := heap_ok) (H1 := sample_tokener two_frags) in
  let pkts := map (sample_pkt 0x75d11d57) [[30; 48; 59]; [10; 30; 49; 59; 10]; [30; 50; 59; 10]] in
  (fst (nparse (text_of pkts) empty_md), length (clk_clses (fst (snd (nparse (text_of pkts) empty_md))))) = (Ok tt, 2%nat) /\
  (fst (nparse (stream_of pkts) empty_md), length (clk_clses (fst (snd (nparse (stream_of pkts) empty_md))))) = (Ok tt, 1%nat).
Proof. vm_compute. done. Qed.
