(* ===== verification/MetadataInv.v ===== *)
(** What parsing metadata establishes.

    [metadata_parsed] is the invariant of the metadata between fragments.  The
    theorem: a fragment either extends the metadata and keeps the invariant, or is
    refused and leaves it as it was. *)
From S2P Require Import Prelude Mappings MappingsTree Common Rng HashMap Clock FldCls.
From S2P Require Import Metadata Json CtfJson JsonUtils FldClsParse FldClsParseInv MetadataParse.
From stdpp Require Import strings.
Open Scope Z_scope.

(** * Maps that parsing builds

    The ids are any 64-bit integers, so that keys may compare equal that are not:
    the lemmas here do not need a comparison that is right. *)

Notation id_map_wf m := (map_wf hash_uint64 m /\ half_limit m).
Definition map_vals {V} (P : V -> Prop) (m : umap Z V) : Prop := Forall (fun e => P (e_val e)) (entries m).

Section Maps.
Context {V : Type}.
Implicit Types (m : umap Z V).

Lemma find_place_loop_spec m h key fuel d :
  map_wf hash_uint64 m -> 0 <= d < m_cap m -> Z.of_nat fuel = m_cap m - d ->
  exists r, find_place_loop fuel m key (probe (m_cap m) h 0) (probe (m_cap m) h d) = Ok r /\
    match r with Some i => exists e, slot (slots m) i = Some (Some e) | None => True end.
Proof.
  intros Hwf. revert d. induction fuel as [|fuel IH]; intros d Hd Hf; [lia|].
  pose proof Hwf as [(k & Hk0 & Hcap) Hsl _ _ _]. cbn [find_place_loop].
  destruct (slot_in (slots m) (probe (m_cap m) h d)) as (o & Ho & _).
  { rewrite Hsl. apply probe_range. lia. }
  rewrite Ho. destruct o as [e|]; [|by exists None].
  case_match; [by eexists; split; [done|]; cbn; eexists|].
  assert (Hnx : next_index (m_cap m) (probe (m_cap m) h d) = probe (m_cap m) h (d + 1))
    by (rewrite Hcap; apply next_probe; lia).
  cbv zeta. rewrite Hnx. destruct (Z.eqb_spec (probe (m_cap m) h 0) (probe (m_cap m) h (d + 1))) as [Ew|Ew]; [by exists None|].
  assert (d + 1 < m_cap m); [|apply IH; lia].
  destruct (Z.ltb_spec (d + 1) (m_cap m)); [done|]. exfalso. apply Ew.
  replace (d + 1) with (m_cap m) by lia. symmetry. apply probe_wrap. lia.
Qed.

Lemma map_find_place_spec m key : map_wf hash_uint64 m ->
  exists r, map_find_place m key = Ok r /\
    match r with Some i => exists e, slot (slots m) i = Some (Some e) | None => True end.
Proof.
  intros Hwf. pose proof Hwf as [(k & Hk0 & Hcap) _ _ _ _]. pose proof (pow2_pos k ltac:(lia)).
  unfold map_find_place. cbv zeta.
  assert (Hhome : Z.land (map_hash hash_uint64 key) (m_cap m - 1) = probe (m_cap m) (map_hash hash_uint64 key) 0)
    by (rewrite Hcap; apply home_probe; lia).
  rewrite Hhome. apply find_place_loop_spec; [done|lia|lia].
Qed.

(** [find] is the value at the place that it finds. *)
Lemma find_loop_place fuel m key initial index :
  find_loop uint64cmp fuel m key initial index =
    match find_place_loop fuel m key initial index with
    | Ok (Some i) => match slot (slots m) i with Some (Some e) => Ok (Some (e_val e)) | _ => Undef end
    | Ok None => Ok None
    | Err rc => Err rc
    | Undef => Undef
    end.
Proof.
  revert index. induction fuel as [|fuel IH]; intros index; cbn [find_loop find_place_loop]; [done|].
  destruct (slot (slots m) index) as [[e|]|] eqn:Es; [|done|done].
  destruct (_ =? 0); [by rewrite Es|]. cbv zeta. destruct (_ =? _); [done|apply IH].
Qed.

Lemma map_contains_total m key : map_wf hash_uint64 m -> exists b, map_contains hash_uint64 uint64cmp m key = Ok b.
Proof.
  intros Hwf. unfold map_contains, map_find. cbv zeta. rewrite find_loop_place.
  destruct (map_find_place_spec m key Hwf) as (r & Hr & Hs). unfold map_find_place in Hr. rewrite Hr.
  destruct r as [i|]; [|by eexists]. destruct Hs as (e & ->). by eexists.
Qed.

(** An insertion gives a map with one more entry, or there is no room. *)
Lemma map_insert_vals ok (P : V -> Prop) m key v :
  id_map_wf m -> map_vals P m -> P v ->
  map_insert hash_uint64 ok m key v = Err (- ENOMEM) \/
  exists m', map_insert hash_uint64 ok m key v = Ok m' /\ id_map_wf m' /\ map_vals P m'.
Proof.
  intros [Hwf Hhl] Hm Hv. unfold map_insert. destruct (Z.geb_spec (m_len m) (m_cap m)); [by left|right].
  destruct (inserts_any hash_uint64 ok m key v Hwf Hhl ltac:(lia) ltac:(cbv beta; lia)) as (m' & Hrun & Hwf' & Hhl' & _ & He).
  exists m'. split; [done|]. split; [done|]. unfold map_vals. rewrite He. by constructor.
Qed.

Lemma slot_set_place m i e v j : slot (slots m) i = Some (Some e) ->
  slot (slots (map_set_place m i v)) j =
    if decide (j = i) then Some (Some (mk_entry (e_hash e) (e_key e) v)) else slot (slots m) j.
Proof.
  intros Hi. unfold map_set_place. rewrite Hi. cbn [slots]. unfold slot in *.
  destruct (Z.ltb_spec i 0); [done|]. destruct (decide (j = i)) as [->|Hne].
  - destruct (Z.ltb_spec i 0); [lia|]. apply list_lookup_insert_eq. by apply lookup_lt_Some in Hi.
  - destruct (Z.ltb_spec j 0); [done|]. apply list_lookup_insert_ne. lia.
Qed.

Lemma set_place_vals (P : V -> Prop) m i e v :
  id_map_wf m -> slot (slots m) i = Some (Some e) -> map_vals P m -> P v ->
  id_map_wf (map_set_place m i v) /\ map_vals P (map_set_place m i v).
Proof.
  intros [Hwf Hhl] Hi Hm Hv.
  assert (Hfields : m_cap (map_set_place m i v) = m_cap m /\ m_len (map_set_place m i v) = m_len m /\
                    grow_limit (map_set_place m i v) = grow_limit m /\
                    length (slots (map_set_place m i v)) = length (slots m) /\
                    length (entries (map_set_place m i v)) = length (entries m)).
  { unfold map_set_place. rewrite Hi. cbn. split_and!; try done; [apply length_insert|].
    unfold entries. cbn. unfold slot in Hi. destruct (i <? 0); [done|]. clear -Hi.
    revert Hi. generalize (Z.to_nat i) as n. induction (slots m) as [|[e'|] sl IH]; intros [|n] Hi; cbn in *;
      simplify_eq; try done; cbn; auto. }
  destruct Hfields as (Hc & Hl & Hg & Hs & He). pose proof (slot_set_place m i e v) as Hslot.
  assert (Hocc : forall j, occupied (slots (map_set_place m i v)) j <-> occupied (slots m) j).
  { intros j. unfold occupied. rewrite Hslot by done. destruct (decide (j = i)) as [->|]; [|done].
    rewrite Hi. split; intros _; by eexists. }
  destruct Hwf as [H1 H2 H3 H4 H5]. split.
  - split; [|unfold half_limit in *; congruence]. split; rewrite ?Hc, ?Hl, ?Hs, ?He; try done.
    + intros j e' Hj. rewrite Hslot in Hj by done. destruct (decide (j = i)); [|by eapply H4].
      simplify_eq. cbn. by apply (H4 i).
    + intros j e' Hj. rewrite Hslot in Hj by done. destruct (decide (j = i)) as [->|].
      * simplify_eq. cbn. destruct (H5 i e Hi) as (d & Hd & Hp & Ho). exists d. split; [done|]. split; [done|].
        intros d' Hd'. apply Hocc. by apply Ho.
      * destruct (H5 j e' Hj) as (d & Hd & Hp & Ho). exists d. split; [done|]. split; [done|].
        intros d' Hd'. apply Hocc. by apply Ho.
  - unfold map_vals in *. rewrite Forall_forall in *. intros e' (j & Hj)%slot_entry.
    rewrite Hslot in Hj by done. destruct (decide (j = i)); [by simplify_eq|]. apply Hm, slot_entry. by exists j.
Qed.

Lemma map_init_vals ok (k : Z) (P : V -> Prop) : 0 <= k < 64 ->
  (map_init_cap ok (2 ^ k) : outcome (umap Z V)) = Err (- ENOMEM) \/
  exists m : umap Z V, map_init_cap ok (2 ^ k) = Ok m /\ id_map_wf m /\ map_vals P m.
Proof.
  intros Hk. destruct (@init_cap_spec Z V hash_uint64 ok k Hk) as [E|(m & E & Hwf & Hhl & _ & He)]; [by left|right].
  exists m. split; [done|]. split; [done|]. unfold map_vals. by rewrite He.
Qed.
End Maps.

(** * Checks of roles *)

(** The classes of the fields in nested structures that are not structures. *)
Inductive leaf_of : actf_fld_cls -> actf_fld_cls -> Prop :=
| leaf_here fc : is_struct fc = false -> leaf_of fc fc
| leaf_member l ms m a nm c : (nm, c) ∈ ms -> leaf_of l c -> leaf_of l (FC_STRUCT ms m a).

Lemma first_err_spec {A} (chk : A -> outcome unit) (P : A -> Prop) (rc : Z) l :
  Forall (fun a => (chk a = Ok tt /\ P a) \/ (chk a = Err rc /\ ~ P a)) l ->
  (first_err chk l = Ok tt /\ Forall P l) \/ (first_err chk l = Err rc /\ ~ Forall P l).
Proof.
  induction 1 as [|a l [[Ha Hp]|[Ha Hp]] _ IH]; cbn; [by left|rewrite Ha..].
  - destruct IH as [[Hr Hl]|[Hr Hl]]; [left|right]; (split; [done|]); [by constructor|]. intros Hf. by inversion Hf.
  - right. split; [done|]. intros Hf. by inversion Hf.
Qed.

Lemma leaves_struct (P : actf_fld_cls -> Prop) ms m a :
  (forall l, leaf_of l (FC_STRUCT ms m a) -> P l) <-> Forall (fun mc => forall l, leaf_of l (snd mc) -> P l) ms.
Proof.
  rewrite Forall_forall. split.
  - intros H [nm c] Hin l Hl. apply H. by eapply leaf_member.
  - intros H l Hl. inversion Hl as [|? ? ? ? nm c Hin Hlc]; [done|]. by apply (H (nm, c)).
Qed.

Lemma leaves_leaf (P : actf_fld_cls -> Prop) fc :
  is_struct fc = false -> (forall l, leaf_of l fc -> P l) <-> P fc.
Proof.
  intros Hs. split; [intros H; by apply H, leaf_here|]. intros H l Hl. by inversion Hl; subst.
Qed.

(** A check that walks nested structures, by what it checks of the leaves. *)
Lemma check_leaves (chk : actf_fld_cls -> outcome unit) (P : actf_fld_cls -> Prop) rc :
  (forall ms m a, chk (FC_STRUCT ms m a) = first_err (fun mc => chk (snd mc)) ms) ->
  (forall fc, is_struct fc = false -> (chk fc = Ok tt /\ P fc) \/ (chk fc = Err rc /\ ~ P fc)) ->
  forall fc, (chk fc = Ok tt /\ (forall l, leaf_of l fc -> P l)) \/
             (chk fc = Err rc /\ ~ (forall l, leaf_of l fc -> P l)).
Proof.
  intros Hst Hleaf fc. induction fc as [fc IH] using fld_cls_ind_subs.
  destruct (is_struct fc) eqn:Hs; [|rewrite leaves_leaf by done; by apply Hleaf].
  destruct fc; try done. cbn in IH. rewrite Hst, leaves_struct. apply first_err_spec. by rewrite Forall_map in IH.
Qed.

(** Without a default clock no field has the role of a timestamp. *)
Definition no_clk_role (fc : actf_fld_cls) : Prop :=
  has_role fc ACTF_ROLE_DEF_CLK_TSTAMP = false /\ has_role fc ACTF_ROLE_PKT_END_DEF_CLK_TSTAMP = false.

Lemma verify_clk_roles_spec cid fc :
  let P l := cid <> None \/ no_clk_role l in
  (verify_clk_roles cid fc = Ok tt /\ (forall l, leaf_of l fc -> P l)) \/
  (verify_clk_roles cid fc = Err ACTF_NO_DEFAULT_CLOCK /\ ~ (forall l, leaf_of l fc -> P l)).
Proof.
  cbv zeta. apply (check_leaves _ (fun l => cid <> None \/ no_clk_role l)); [done|]. intros l Hl.
  assert (Hv : verify_clk_roles cid l = match cid with
      | Some _ => Ok tt
      | None => if has_role l ACTF_ROLE_DEF_CLK_TSTAMP then Err ACTF_NO_DEFAULT_CLOCK
                else if has_role l ACTF_ROLE_PKT_END_DEF_CLK_TSTAMP then Err ACTF_NO_DEFAULT_CLOCK else Ok tt
      end) by by destruct l.
  rewrite Hv. unfold no_clk_role. destruct cid; [left; split; [done|by left]|].
  destruct (has_role l ACTF_ROLE_DEF_CLK_TSTAMP); [right; split; [done|naive_solver]|].
  destruct (has_role l ACTF_ROLE_PKT_END_DEF_CLK_TSTAMP); [right; split; [done|naive_solver]|].
  left. split; [done|by right].
Qed.

(** A field with the role of the metadata stream UUID is a blob of 16 bytes, and
    the preamble has a UUID. *)
Definition uuid_role_ok (p : actf_preamble) (fc : actf_fld_cls) : Prop :=
  has_role fc ACTF_ROLE_METADATA_STREAM_UUID = true ->
  has_uuid p = true /\ exists mt roles, fc = FC_STATIC_LEN_BLOB 16 mt roles.

Lemma verify_uuid_role_spec p fc :
  (verify_metadata_stream_uuid_role p fc = Ok tt /\ (forall l, leaf_of l fc -> uuid_role_ok p l)) \/
  (verify_metadata_stream_uuid_role p fc = Err ACTF_INVALID_UUID_ROLE /\ ~ (forall l, leaf_of l fc -> uuid_role_ok p l)).
Proof.
  apply check_leaves; [done|]. intros l Hl.
  assert (Hv : verify_metadata_stream_uuid_role p l =
      if has_role l ACTF_ROLE_METADATA_STREAM_UUID then
        if negb (has_uuid p) then Err ACTF_INVALID_UUID_ROLE
        else match l with
             | FC_STATIC_LEN_BLOB n _ _ => if negb (n =? 16) then Err ACTF_INVALID_UUID_ROLE else Ok tt
             | _ => Err ACTF_INVALID_UUID_ROLE
             end
      else Ok tt) by by destruct l.
  rewrite Hv. unfold uuid_role_ok. destruct (has_role l _); [|by left].
  destruct (has_uuid p); cbn; [|right; split; [done|naive_solver]].
  destruct l; try (right; split; [done|]; intros Hx; by destruct (Hx eq_refl) as (_ & ? & ? & ?)).
  destruct (Z.eqb_spec n 16) as [->|Hn]; cbn; [left; split; [done|]; intros _; eauto|].
  right. split; [done|]. intros Hx. destruct (Hx eq_refl) as (_ & ? & ? & ?). congruence.
Qed.

(** The role of the magic number is only at the first member of the top-level
    structure. *)
Definition no_magic (l : actf_fld_cls) : Prop := has_role l ACTF_ROLE_PKT_MAGIC_NUM = false.
Definition no_magic_in (fc : actf_fld_cls) : Prop := forall l, leaf_of l fc -> no_magic l.
Definition magic_ok (fc : actf_fld_cls) : Prop :=
  match fc with
  | FC_STRUCT ((_, c) :: ms) _ _ => (is_struct c = true -> no_magic_in c) /\ Forall (fun m => no_magic_in (snd m)) ms
  | FC_STRUCT [] _ _ => True
  | _ => no_magic fc
  end.

Lemma magic_leaf l top first : is_struct l = false ->
  int_verify_pkt_magic_num_role l top first =
    if has_role l ACTF_ROLE_PKT_MAGIC_NUM && (negb top || negb first) then Err ACTF_INVALID_MAGIC_ROLE else Ok tt.
Proof. by destruct l. Qed.

Lemma magic_nested_first fc first : int_verify_pkt_magic_num_role fc false first = int_verify_pkt_magic_num_role fc false false.
Proof. destruct fc; try done; cbn [int_verify_pkt_magic_num_role]; by rewrite !orb_true_l. Qed.

(** The members of a structure after the first one, or of a nested structure. *)
Lemma magic_members ms top :
  (fix members (ms : list (string * actf_fld_cls)) (is_first : bool) : outcome unit :=
     match ms with
     | [] => Ok tt
     | (_, c) :: ms' =>
         match int_verify_pkt_magic_num_role c (top && negb (is_struct c)) is_first with
         | Ok _ => members ms' false
         | r => r
         end
     end) ms false
  = first_err (fun m => int_verify_pkt_magic_num_role (snd m) (top && negb (is_struct (snd m))) false) ms.
Proof. induction ms as [|[nm c] ms IH]; cbn; [done|]. destruct (int_verify_pkt_magic_num_role _ _ _); by rewrite ?IH. Qed.

Lemma magic_nested fc :
  (int_verify_pkt_magic_num_role fc false false = Ok tt /\ no_magic_in fc) \/
  (int_verify_pkt_magic_num_role fc false false = Err ACTF_INVALID_MAGIC_ROLE /\ ~ no_magic_in fc).
Proof.
  apply (check_leaves (fun fc => int_verify_pkt_magic_num_role fc false false) no_magic).
  - intros ms m a. cbn [int_verify_pkt_magic_num_role]. destruct ms as [|[nm c] ms]; [done|].
    cbn [andb first_err snd]. rewrite magic_nested_first. destruct (int_verify_pkt_magic_num_role c false false); [|done|done].
    apply (magic_members ms false).
  - intros l Hl. rewrite magic_leaf by done. unfold no_magic. destruct (has_role _ _); cbn; [right|left]; (split; [done|]); done.
Qed.

Lemma magic_rest c :
  (int_verify_pkt_magic_num_role c (negb (is_struct c)) false = Ok tt /\ no_magic_in c) \/
  (int_verify_pkt_magic_num_role c (negb (is_struct c)) false = Err ACTF_INVALID_MAGIC_ROLE /\ ~ no_magic_in c).
Proof.
  destruct (is_struct c) eqn:Hs; [apply magic_nested|]. cbn [negb]. rewrite magic_leaf by done. unfold no_magic_in.
  rewrite leaves_leaf by done. unfold no_magic. destruct (has_role _ _); [right|left]; (split; [done|]); done.
Qed.

Lemma verify_magic_spec fc :
  (verify_pkt_magic_num_role fc = Ok tt /\ magic_ok fc) \/
  (verify_pkt_magic_num_role fc = Err ACTF_INVALID_MAGIC_ROLE /\ ~ magic_ok fc).
Proof.
  unfold verify_pkt_magic_num_role. destruct (is_struct fc) eqn:Hs.
  - destruct fc as [| | | | | | | | | | | | | |ms m a| | | |]; try done. destruct ms as [|[nm c] ms]; [by left|].
    cbn [int_verify_pkt_magic_num_role magic_ok andb].
    assert (Hc : (int_verify_pkt_magic_num_role c (negb (is_struct c)) true = Ok tt /\ (is_struct c = true -> no_magic_in c)) \/
      (int_verify_pkt_magic_num_role c (negb (is_struct c)) true = Err ACTF_INVALID_MAGIC_ROLE /\ ~ (is_struct c = true -> no_magic_in c))).
    { destruct (is_struct c) eqn:Hc; cbn [negb].
      - rewrite magic_nested_first. destruct (magic_nested c) as [[Hr Hn]|[Hr Hn]]; [left|right]; (split; [done|]); naive_solver.
      - left. rewrite magic_leaf by done. cbn. by rewrite andb_false_r. }
    destruct Hc as [[-> Hn]|[-> Hn]]; [|right; split; [done|by intros []]].
    pose proof (magic_members ms true) as Hm. cbn [andb] in Hm. rewrite Hm.
    destruct (first_err_spec (fun m0 => int_verify_pkt_magic_num_role (snd m0) (negb (is_struct (snd m0))) false)
                (fun m0 => no_magic_in (snd m0)) ACTF_INVALID_MAGIC_ROLE ms) as [[Hr Hf]|[Hr Hf]].
    { apply Forall_forall. intros m0 _. apply magic_rest. }
    + left. by rewrite Hr.
    + right. rewrite Hr. split; [done|]. by intros [].
  - rewrite magic_leaf by done. cbn. rewrite andb_true_r. 
    assert (Hm : magic_ok fc <-> no_magic fc) by by destruct fc. rewrite Hm. unfold no_magic.
    destruct (has_role _ _); [right|left]; (split; [done|]); done.
Qed.

(** * Parsed classes *)

Definition opt_parsed (fc : actf_fld_cls) : Prop := fc = FC_NIL \/ fc_parsed fc.

(** The class of a property is absent or a structure. *)
Definition top_parsed (fc : actf_fld_cls) : Prop := fc = FC_NIL \/ (is_struct fc = true /\ fc_parsed fc).

Lemma opt_top fc : opt_parsed fc -> nil_or_struct fc = true -> top_parsed fc.
Proof.
  intros [->|Hp] Hs; [by left|]. right. split; [|done]. unfold nil_or_struct in Hs.
  apply orb_prop in Hs as [Hn|Hs]; [|done]. apply bool_decide_eq_true_1 in Hn.
  destruct (every_inv _ _ Hp) as [[_ Hnode] _]. by destruct fc.
Qed.

Record clk_parsed (c : actf_clk_cls) : Prop := {
  cp_id : exists id, clk_id c = Some id;
  cp_freq : 0 < freq c < 2 ^ 64;
  cp_cycles : 0 <= cycles (off_from_origin c) < freq c;
  cp_seconds : is_i64 (seconds (off_from_origin c))
}.

Record evc_parsed (e : actf_event_cls) : Prop := {
  ep_ctx : top_parsed (spec_ctx e);
  ep_payload : top_parsed (payload e)
}.

Record dsc_parsed (clks : list actf_clk_cls) (d : actf_dstream_cls) : Prop := {
  dp_ctx : top_parsed (pkt_ctx d);
  dp_hdr : top_parsed (event_hdr d);
  dp_common : top_parsed (event_common_ctx d);
  dp_clk : match def_clkc_id d with
           | None => def_clkc d = None
           | Some id => exists c, def_clkc d = Some c /\ clk_id c = Some id /\ c ∈ clks
           end;
  dp_roles : def_clkc_id d = None -> forall l, leaf_of l (pkt_ctx d) \/ leaf_of l (event_hdr d) -> no_clk_role l;
  dp_map : id_map_wf (idtoevc d);
  dp_evcs : map_vals evc_parsed (idtoevc d)
}.

Record metadata_parsed (m : actf_metadata) : Prop := {
  mp_preamble : preamble_is_set m = true -> version (preamble m) = ACTF_MAJOR_VERSION /\ length (uuid (preamble m)) = 16%nat;
  mp_aliases : Forall (fun a => fc_parsed (snd a)) (fld_cls_aliases m);
  mp_names : NoDup (fst <$> fld_cls_aliases m);
  mp_hdr : top_parsed (pkt_hdr (trace_cls m));
  mp_magic : magic_ok (pkt_hdr (trace_cls m));
  mp_uuid : preamble_is_set m = true -> forall l, leaf_of l (pkt_hdr (trace_cls m)) -> uuid_role_ok (preamble m) l;
  mp_clks : Forall clk_parsed (clk_clses m);
  mp_ids : NoDup (clk_id <$> clk_clses m);
  mp_map : id_map_wf (idtodsc m);
  mp_dscs : map_vals (dsc_parsed (clk_clses m)) (idtodsc m);
  mp_first : preamble_is_set m = false -> trace_cls_is_set m = false /\ pkt_hdr (trace_cls m) = FC_NIL
}.

Section Classes.
Context {json : Type} `{JsonC json, !JsonCLaws json, Heap, QSort}.
(** The fragment that is parsed. *)
Context {B : MayBreak} (frag_jobj : json).
Hypothesis break_disordered : forall c, within c frag_jobj -> disordered c -> may_break.
Context (md : actf_metadata).

Lemma preamble_parses j : parses (fun p => length (uuid p) = 16%nat) (actf_preamble_parse j).
Proof.
  unfold actf_preamble_parse. do 2 parses_step; try is_err. do 4 parses_step; try is_err.
  apply parses_ret. cbn. destruct a as [u|]; [|done]. by destruct_and!.
Qed.

Lemma clk_origin_parses j : parses (fun _ => True) (actf_clk_origin_parse j).
Proof. unfold actf_clk_origin_parse. by parses_auto. Qed.

Lemma clk_offset_parses j : parses (fun o => is_i64 (seconds o) /\ is_u64 (cycles o)) (actf_clk_offset_parse j).
Proof. unfold actf_clk_offset_parse. parses_auto. cbn. by destruct a, a0. Qed.

Lemma clk_cls_parses j : parses (fun c => (exists id, clk_id c = Some id) /\ 0 < freq c < 2 ^ 64 /\
    is_i64 (seconds (off_from_origin c)) /\ is_u64 (cycles (off_from_origin c))) (actf_clk_cls_parse j).
Proof.
  unfold actf_clk_cls_parse. pose proof clk_origin_parses. pose proof clk_offset_parses. do 9 parses_step.
  eapply (parses_bind (fun _ => True)); [by parses_auto|]. intros o _.
  eapply (parses_bind (fun o => is_i64 (seconds o) /\ is_u64 (cycles o))); [parses_step; [auto|by apply parses_ret]|].
  intros off Hoff. pose proof attributes_parses. parses_auto. cbn. split; [by eexists|]. done.
Qed.

Hypothesis Ha : Forall (fun a => fc_parsed (snd a)) (fld_cls_aliases md).

Lemma cls_parses key j : json_object_object_get_ex frag_jobj key = Some j -> parses fc_parsed (actf_fld_cls_parse md j).
Proof.
  intros Hj. eapply fld_cls_parse_parses; [exact break_disordered|done|lia|]. eapply within_key; [done|constructor].
Qed.

Lemma opt_cls_parses key : parses opt_parsed (opt_cls_parse md frag_jobj key).
Proof.
  unfold opt_cls_parse. destruct (json_object_object_get_ex frag_jobj key) as [j|] eqn:E; [|by apply parses_ret; left].
  eapply parses_post; [by eapply cls_parses|]. by right.
Qed.

#[local] Hint Resolve opt_cls_parses attributes_parses : parses.

Lemma alias_parses : parses (fun a => fc_parsed (snd a)) (actf_fld_cls_alias_parse md frag_jobj).
Proof.
  unfold actf_fld_cls_alias_parse, part_parse. parses_step.
  eapply parses_bind; [parses_step; [by eapply cls_parses|by parses_step]|]. intros fc Hfc. by parses_auto.
Qed.

Lemma environment_parses j : parses (fun _ => True) (environment_parse j).
Proof. unfold environment_parse. by parses_auto. Qed.

Lemma trace_cls_parses : parses (fun tc => opt_parsed (pkt_hdr tc)) (actf_trace_cls_parse md frag_jobj).
Proof. unfold actf_trace_cls_parse. pose proof environment_parses. by parses_auto. Qed.

Lemma event_cls_parses : parses (fun e => opt_parsed (spec_ctx e) /\ opt_parsed (payload e)) (actf_event_cls_parse md frag_jobj).
Proof. unfold actf_event_cls_parse. by parses_auto. Qed.

Lemma map_op_parses {A} (Q : A -> Prop) (op : (Z -> bool) -> outcome A) :
  (forall ok, match op ok with Ok a => Q a | Err _ => True | Undef => False end) ->
  parses Q (map_err (fun _ => Err ACTF_ERROR) (map_op op)).
Proof.
  intros Hop n. unfold map_err, map_op. specialize (Hop (fun cap => malloc_ok (n + Z.to_nat (Z.log2 cap)))).
  destruct (op _); cbn; [done|is_err|done].
Qed.

(** A data stream class as it is parsed, before it is checked. *)
Record dsc_fresh (j : json) (d : actf_dstream_cls) : Prop := {
  df_ctx : opt_parsed (pkt_ctx d);
  df_hdr : opt_parsed (event_hdr d);
  df_common : opt_parsed (event_common_ctx d);
  df_clk : def_clkc d = None;
  df_clk_id : forall id, def_clkc_id d = Some id ->
    exists k, json_object_object_get_ex j "default-clock-class-id" = Some k /\ id = json_object_get_string k;
  df_map : id_map_wf (idtoevc d);
  df_evcs : map_vals evc_parsed (idtoevc d)
}.

Lemma dstream_cls_parses : parses (dsc_fresh frag_jobj) (actf_dstream_cls_parse md frag_jobj).
Proof.
  unfold actf_dstream_cls_parse. do 10 parses_step.
  eapply parses_bind.
  { apply (map_op_parses (fun m => id_map_wf m /\ map_vals evc_parsed m)). intros ok.
    destruct (map_init_vals ok 3 evc_parsed ltac:(lia)) as [E|(m & E & Hm)]; unfold map_init;
      change (2 ^ 3) with 8 in E; by rewrite E. }
  intros m [Hm Hv]. parses_auto. split; cbn; try done. by intros id ->.
Qed.
End Classes.

(** * Fragments *)

Section Frag.
Context {json : Type} `{JsonC json, !JsonCLaws json, Heap, QSort}.

(** A data stream class that refers to a clock class that does not exist. *)
Definition missing_clk_cls (md : actf_metadata) (j : json) : Prop :=
  exists k, json_object_object_get_ex j "default-clock-class-id" = Some k /\
    Forall (fun c => clk_id c <> Some (json_object_get_string k)) (clk_clses md).

(** The end of a fragment that is refused: nothing has changed. *)
Definition refused (md : actf_metadata) (U : Prop) {A} (r : outcome A) (s : pstate) : Prop :=
  fst s = md /\ match r with Err rc => is_err rc | _ => U end.

Context (md : actf_metadata) (j : json).
(** Parsing breaks on the fragment's own mappings. *)
#[local] Instance frag_breaks : MayBreak := disorder_within j.
Notation U := (some_malloc_fails \/ disorder_within j \/ missing_clk_cls md j).

Lemma breaks_within c : within c j -> disordered c -> may_break.
Proof. by exists c. Qed.
Notation ends c n := (runs c (md, n) (fun _ s' => metadata_parsed (fst s')) (refused md U)).

Lemma runs_alloc {A B} (R : A -> Prop) (c : st nat A) (k : A -> st pstate B) n Q :
  parses R c -> (forall a n', R a -> runs (k a) (md, n') Q (refused md U)) ->
  runs (with_alloc c ≫= k) (md, n) Q (refused md U).
Proof.
  intros Hc Hk. eapply (runs_bind _ _ _ (fun a s' => R a /\ fst s' = md)).
  - unfold runs, with_alloc, st_zoom. cbn. specialize (Hc n). destruct (c n) as [[a|rc|] n']; cbn in *; split; try done. destruct Hc as [Hc|Hc]; [by left|by right; left].
  - intros a [md' n'] [Ha E]. cbn in E. subst md'. by apply Hk.
Qed.

Lemma runs_fail_if {B} (b : bool) rc (k : st pstate B) n Q :
  is_err rc -> (b = false -> runs k (md, n) Q (refused md U)) -> runs (fail_if b rc;; k) (md, n) Q (refused md U).
Proof. intros Hrc Hk. unfold fail_if. destruct b; [by split|by apply Hk]. Qed.

Lemma runs_check {A B} (o : outcome A) (k : A -> st pstate B) n Q :
  (exists rc, o = Err rc /\ is_err rc) \/ (exists a, o = Ok a /\ runs (k a) (md, n) Q (refused md U)) ->
  runs (check o ≫= k) (md, n) Q (refused md U).
Proof. intros [(rc & -> & Hrc)|(a & -> & Hk)]; [by split|exact Hk]. Qed.

Hypothesis Hmd : metadata_parsed md.

Lemma existsb_not {A} (f : A -> bool) l : existsb f l = false -> forall x, x ∈ l -> f x = false.
Proof. intros Hf. by apply Forall_forall, existsb_false. Qed.

Lemma NoDup_snoc {A} (l : list A) x : NoDup l -> x ∉ l -> NoDup (l ++ [x]).
Proof.
  intros Hl Hx. apply NoDup_app. split_and!; [done| |apply NoDup_singleton].
  intros y Hy ->%list_elem_of_singleton. done.
Qed.

Lemma frag_preamble_ends n : ends (frag_preamble j) n.
Proof.
  unfold frag_preamble. eapply (runs_bind _ _ _ (fun a s' => a = s' /\ s' = (md, n))); [done|].
  intros s s' [-> ->]. cbn [fst]. destruct (preamble_is_set md) eqn:Hp; [split; [done|is_err]|].
  eapply runs_alloc; [apply preamble_parses|]. intros p n' Hu. apply runs_fail_if; [is_err|].
  intros Hv. apply negb_false_iff, Z.eqb_eq in Hv. unfold runs, st_modify. cbn. destruct Hmd.
  destruct (mp_first0 Hp) as [Htc Hnil]. split; cbn; try done.
  intros _ l Hl. rewrite Hnil in Hl. inversion Hl; subst. by intros Hr.
Qed.

Lemma frag_alias_ends n : ends (frag_alias j) n.
Proof.
  unfold frag_alias. eapply (runs_bind _ _ _ (fun a s' => a = s' /\ s' = (md, n))); [done|].
  intros s s' [-> ->]. cbn [fst]. eapply runs_alloc; [by apply (alias_parses j breaks_within), mp_aliases|]. intros [nm fc] n' Hfc.
  apply runs_fail_if; [is_err|]. intros Hdup. unfold runs, vec_push. destruct (malloc_ok _); [|done].
  cbn in *. destruct Hmd. split; cbn; try done.
  - apply Forall_app_2; [done|by constructor].
  - rewrite fmap_app. apply NoDup_snoc; [done|]. intros (a & Ha & Hin)%list_elem_of_fmap.
    apply (existsb_not _ _ Hdup) in Hin. by apply bool_decide_eq_false_1 in Hin.
Qed.

Lemma frag_trace_cls_ends n : preamble_is_set md = true -> ends (frag_trace_cls j) n.
Proof.
  intros Hset. unfold frag_trace_cls. eapply (runs_bind _ _ _ (fun a s' => a = s' /\ s' = (md, n))); [done|].
  intros s s' [-> ->]. cbn [fst]. destruct (trace_cls_is_set md); [split; [done|is_err]|].
  eapply runs_alloc; [by apply (trace_cls_parses j breaks_within), mp_aliases|]. intros tc n' Htc.
  apply runs_fail_if; [is_err|]. intros Hs%negb_false_iff. apply runs_check.
  destruct (verify_magic_spec (pkt_hdr tc)) as [[Hr Hm]|[Hr _]]; [right; exists tt; split; [done|]|left; eexists; split; [done|is_err]].
  apply runs_check.
  destruct (verify_uuid_role_spec (preamble md) (pkt_hdr tc)) as [[Hu Hp]|[Hu _]];
    [right; exists tt; split; [done|]|left; eexists; split; [done|is_err]].
  unfold runs, st_modify. cbn. destruct Hmd. split; cbn; try done; [by apply opt_top|]. congruence.
Qed.

Lemma dsc_parsed_more clks clks' d : clks ⊆ clks' -> dsc_parsed clks d -> dsc_parsed clks' d.
Proof.
  intros Hsub []. split; try done. destruct (def_clkc_id d); [|done]. destruct dp_clk0 as (c & K1 & K2 & K3).
  exists c. auto.
Qed.

Lemma frag_clk_cls_ends n : ends (frag_clk_cls j) n.
Proof.
  unfold frag_clk_cls. eapply (runs_bind _ _ _ (fun a s' => a = s' /\ s' = (md, n))); [done|].
  intros s s' [-> ->]. cbn [fst]. eapply runs_alloc; [by apply clk_cls_parses|]. intros c n' (Hid & Hf & Hs & Hc).
  apply runs_fail_if; [is_err|]. intros Hcy. apply runs_fail_if; [is_err|]. intros Hdup.
  unfold runs, vec_push. destruct (malloc_ok _); [|done]. cbn in *. destruct Hmd. split; cbn; try done.
  - apply Forall_app_2; [done|]. constructor; [|done]. unfold is_u64 in Hc. split; try done. lia.
  - rewrite fmap_app. apply NoDup_snoc; [done|]. intros (c' & Hc' & Hin)%list_elem_of_fmap.
    apply (existsb_not _ _ Hdup) in Hin. by apply bool_decide_eq_false_1 in Hin.
  - eapply Forall_impl; [exact mp_dscs0|]. intros e. apply dsc_parsed_more. set_solver.
Qed.

Lemma resolve_clk_cls_ends d n (k : actf_dstream_cls -> st pstate unit) :
  dsc_fresh j d ->
  (forall d', d' = set_def_clkc (def_clkc d') d ->
     match def_clkc_id d with
     | None => def_clkc d' = None
     | Some id => exists c, def_clkc d' = Some c /\ clk_id c = Some id /\ c ∈ clk_clses md
     end -> ends (k d') n) ->
  ends (resolve_clk_cls md d ≫= k) n.
Proof.
  intros [] Hk. unfold resolve_clk_cls. destruct (def_clkc_id d) as [id|] eqn:Hid.
  - destruct (List.find _ _) as [c|] eqn:Hf.
    + apply find_some in Hf as [Hin Hc]. apply bool_decide_eq_true_1 in Hc.
      change (ends (k (set_def_clkc (Some c) d)) n). apply Hk; [done|]. exists c. split_and!; try done.
      by apply list_elem_of_In.
    + split; [done|]. right; right. destruct (df_clk_id0 id eq_refl) as (k0 & Hk0 & ->). exists k0. split; [done|].
      apply Forall_forall. intros c Hin%list_elem_of_In. apply (find_none _ _ Hf) in Hin. by apply bool_decide_eq_false_1 in Hin.
  - change (ends (k d) n). apply Hk; [|done]. rewrite df_clk0. destruct d. cbn in *. by subst.
Qed.

Lemma frag_dstream_cls_ends n : ends (frag_dstream_cls j) n.
Proof.
  unfold frag_dstream_cls. eapply (runs_bind _ _ _ (fun a s' => a = s' /\ s' = (md, n))); [done|].
  intros s s' [-> ->]. cbn [fst]. eapply runs_alloc; [by apply (dstream_cls_parses j breaks_within), mp_aliases|]. intros d n' Hd.
  apply runs_fail_if; [is_err|]. intros Hs1%negb_false_iff. apply runs_check.
  destruct (verify_clk_roles_spec (def_clkc_id d) (pkt_ctx d)) as [[Hr1 Hp1]|[Hr1 _]];
    [right; exists tt; split; [done|]|left; eexists; split; [done|is_err]].
  apply runs_fail_if; [is_err|]. intros Hs2%negb_false_iff. apply runs_check.
  destruct (verify_clk_roles_spec (def_clkc_id d) (event_hdr d)) as [[Hr2 Hp2]|[Hr2 _]];
    [right; exists tt; split; [done|]|left; eexists; split; [done|is_err]].
  apply runs_fail_if; [is_err|]. intros Hs3%negb_false_iff. apply runs_check. right.
  destruct (map_contains_total (idtodsc md) (dsc_id d)) as (b & Hb); [by apply mp_map|]. exists b. split; [done|].
  apply runs_fail_if; [is_err|]. intros ->. apply resolve_clk_cls_ends; [done|]. intros d' Hd' Hclk.
  assert (Hnew : dsc_parsed (clk_clses md) d').
  { destruct Hd. rewrite Hd' in *. split; cbn; try done; try (by apply opt_top).
    intros E l [Hl|Hl]; [apply Hp1 in Hl|apply Hp2 in Hl]; by destruct Hl. }
  eapply runs_alloc.
  { apply (map_op_parses (fun m => id_map_wf m /\ map_vals (dsc_parsed (clk_clses md)) m)). intros ok.
    destruct (map_insert_vals ok (dsc_parsed (clk_clses md)) (idtodsc md) (dsc_id d') d') as [->|(m' & -> & Hm')];
      [by apply mp_map|by apply mp_dscs|done|done|done]. }
  intros m n'' [Hm Hv]. unfold runs, st_modify. cbn. destruct Hmd. by split.
Qed.

Lemma frag_event_cls_ends n : ends (frag_event_cls j) n.
Proof.
  unfold frag_event_cls. eapply (runs_bind _ _ _ (fun a s' => a = s' /\ s' = (md, n))); [done|].
  intros s s' [-> ->]. cbn [fst]. eapply runs_alloc; [by apply (event_cls_parses j breaks_within), mp_aliases|]. intros e n' [Hc Hp].
  apply runs_fail_if; [is_err|]. intros Hs1%negb_false_iff. apply runs_fail_if; [is_err|]. intros Hs2%negb_false_iff.
  apply runs_check. right. destruct (map_find_place_spec (idtodsc md) (evc_dsc_id e)) as (r & Hr & Hslot); [by apply mp_map|].
  exists r. split; [done|]. destruct r as [i|]; cbn; [|split; [done|is_err]].
  destruct Hslot as (en & Hen). rewrite Hen. cbn.
  pose proof (mp_dscs md Hmd) as Hv. unfold map_vals in Hv. rewrite Forall_forall in Hv.
  assert (Hd : dsc_parsed (clk_clses md) (e_val en)) by (apply Hv, slot_entry; by exists i).
  apply runs_check. right.
  destruct (map_contains_total (idtoevc (e_val en)) (evc_id e)) as (b & Hb); [by apply (dp_map _ _ Hd)|]. exists b. split; [done|].
  apply runs_fail_if; [is_err|]. intros ->.
  eapply runs_alloc.
  { apply (map_op_parses (fun m => id_map_wf m /\ map_vals evc_parsed m)). intros ok.
    destruct (map_insert_vals ok evc_parsed (idtoevc (e_val en)) (evc_id e) e) as [->|(m' & -> & Hm')];
      [by apply (dp_map _ _ Hd)|by apply (dp_evcs _ _ Hd)|split; by apply opt_top|done|done]. }
  intros m n'' [Hm Hmv]. unfold runs, st_modify. cbn.
  destruct (set_place_vals (dsc_parsed (clk_clses md)) (idtodsc md) i en (set_idtoevc m (e_val en))) as [K1 K2];
    [by apply mp_map|done|by apply mp_dscs| |].
  { destruct Hd. by split. }
  destruct Hmd. by split.
Qed.

Lemma frag_parse_ends n : ends (frag_parse j) n.
Proof.
  unfold frag_parse. destruct (negb _); [split; [done|is_err]|].
  eapply runs_alloc.
  { eapply sat_map_err; [apply get_string_parses|]. intros rc _. is_err. }
  intros type n' _. eapply (runs_bind _ _ _ (fun a s' => a = s' /\ s' = (md, n'))); [done|].
  intros s s' [-> ->]. cbn [fst]. destruct (bool_decide _); [apply frag_preamble_ends|].
  destruct (preamble_is_set md) eqn:Hset; cbn [negb]; [|split; [done|is_err]].
  repeat case_match; [apply frag_alias_ends|by apply frag_trace_cls_ends|apply frag_clk_cls_ends|apply frag_dstream_cls_ends
    |apply frag_event_cls_ends|split; [done|is_err]].
Qed.
End Frag.


