(* ===== verification/Fld.v ===== *)
(** Fields, packets and events: [fld_int.h], [fld.c], [pkt_state.h], [pkt.c],
    [event_state.h] and [event.c].

    A field is a tagged union with a pointer to its class and to the structure
    that holds it.  The arrays [vals] that the decoder allocates belong to one
    field each, so a field is modelled as a tree, and a pointer to a field as
    its place: a root (a property of the packet or of the event) and the path
    of indices to it. *)
From S2P Require Import Prelude Common Libc Rng Clock FldCls HashMap Metadata.
From stdpp Require Import strings.
Open Scope Z_scope.

(** * Fields (fld_int.h) *)

Inductive actf_pkt_prop := ACTF_PKT_PROP_HEADER | ACTF_PKT_PROP_CTX.
Inductive actf_event_prop :=
| ACTF_EVENT_PROP_HEADER | ACTF_EVENT_PROP_COMMON_CTX | ACTF_EVENT_PROP_SPECIFIC_CTX
| ACTF_EVENT_PROP_PAYLOAD.

Inductive root := RPkt (p : actf_pkt_prop) | REv (p : actf_event_prop).
Record addr := mk_addr { a_root : root; a_path : list nat }.

#[export] Instance pkt_prop_eq_dec : EqDecision actf_pkt_prop.
Proof. solve_decision. Defined.
#[export] Instance event_prop_eq_dec : EqDecision actf_event_prop.
Proof. solve_decision. Defined.
#[export] Instance root_eq_dec : EqDecision root.
Proof. solve_decision. Defined.

(** [struct actf_fld]: [type] and [d] are the constructor of [fld_d].  Floating
    point values are their bit patterns; [ptr] is an offset in the data stream. *)
Inductive actf_fld := mk_fld (cls : option actf_fld_cls) (parent : option addr) (d : fld_d)
with fld_d :=
| ACTF_FLD_TYPE_NIL
| ACTF_FLD_TYPE_BOOL (val : bool)
| ACTF_FLD_TYPE_SINT (val : Z)
| ACTF_FLD_TYPE_UINT (val : Z) (len : Z)
| ACTF_FLD_TYPE_BIT_MAP (val : Z)
| ACTF_FLD_TYPE_REAL (val : Z)
| ACTF_FLD_TYPE_STR (ptr len : Z)
| ACTF_FLD_TYPE_BLOB (ptr len : Z)
| ACTF_FLD_TYPE_ARR (vals : list actf_fld) (n_vals : Z)
| ACTF_FLD_TYPE_STRUCT (vals : list actf_fld).

Definition f_cls (f : actf_fld) : option actf_fld_cls := let '(mk_fld c _ _) := f in c.
Definition f_parent (f : actf_fld) : option addr := let '(mk_fld _ p _) := f in p.
Definition f_d (f : actf_fld) : fld_d := let '(mk_fld _ _ d) := f in d.

(** A zeroed field, as [memset] leaves it. *)
Definition nil_fld : actf_fld := mk_fld None None ACTF_FLD_TYPE_NIL.

(** [fld->type], and [enum actf_fld_type]. *)
Inductive actf_fld_type :=
| FLD_TYPE_NIL | FLD_TYPE_BOOL | FLD_TYPE_SINT | FLD_TYPE_UINT | FLD_TYPE_BIT_MAP | FLD_TYPE_REAL
| FLD_TYPE_STR | FLD_TYPE_BLOB | FLD_TYPE_ARR | FLD_TYPE_STRUCT.

#[export] Instance fld_type_eq_dec : EqDecision actf_fld_type.
Proof. solve_decision. Defined.

Definition fld_type (f : actf_fld) : actf_fld_type :=
  match f_d f with
  | ACTF_FLD_TYPE_NIL => FLD_TYPE_NIL
  | ACTF_FLD_TYPE_BOOL _ => FLD_TYPE_BOOL
  | ACTF_FLD_TYPE_SINT _ => FLD_TYPE_SINT
  | ACTF_FLD_TYPE_UINT _ _ => FLD_TYPE_UINT
  | ACTF_FLD_TYPE_BIT_MAP _ => FLD_TYPE_BIT_MAP
  | ACTF_FLD_TYPE_REAL _ => FLD_TYPE_REAL
  | ACTF_FLD_TYPE_STR _ _ => FLD_TYPE_STR
  | ACTF_FLD_TYPE_BLOB _ _ => FLD_TYPE_BLOB
  | ACTF_FLD_TYPE_ARR _ _ => FLD_TYPE_ARR
  | ACTF_FLD_TYPE_STRUCT _ => FLD_TYPE_STRUCT
  end.

Definition actf_fld_type_name (t : actf_fld_type) : string :=
  match t with
  | FLD_TYPE_NIL => "nil"
  | FLD_TYPE_BOOL => "bool"
  | FLD_TYPE_SINT => "signed int"
  | FLD_TYPE_UINT => "unsigned int"
  | FLD_TYPE_BIT_MAP => "bit map"
  | FLD_TYPE_REAL => "real"
  | FLD_TYPE_STR => "string"
  | FLD_TYPE_BLOB => "blob"
  | FLD_TYPE_ARR => "array"
  | FLD_TYPE_STRUCT => "struct"
  end.

(** [sizeof(struct actf_fld)] (LP64). *)
Definition SIZEOF_FLD : Z := 40.

(** * Accessors (fld.c) *)

Definition actf_fld_bool (f : actf_fld) : bool :=
  match f_d f with
  | ACTF_FLD_TYPE_BOOL b => b
  | ACTF_FLD_TYPE_SINT v => c_true v
  | ACTF_FLD_TYPE_UINT v _ => c_true v
  | _ => false
  end.

Definition actf_fld_uint64 (f : actf_fld) : Z :=
  match f_d f with
  | ACTF_FLD_TYPE_BOOL b => Z.b2z b
  | ACTF_FLD_TYPE_SINT v => if v <? 0 then 0 else u64 v
  | ACTF_FLD_TYPE_UINT v _ => v
  | ACTF_FLD_TYPE_BIT_MAP v => v
  | _ => UINT64_MAX
  end.

Definition actf_fld_int64 (f : actf_fld) : Z :=
  match f_d f with
  | ACTF_FLD_TYPE_BOOL b => Z.b2z b
  | ACTF_FLD_TYPE_SINT v => v
  | ACTF_FLD_TYPE_UINT v _ => if v >=? INT64_MAX then INT64_MAX else i64 v
  | ACTF_FLD_TYPE_BIT_MAP v => if v >=? INT64_MAX then INT64_MAX else i64 v
  | _ => INT64_MAX
  end.

(** The member of the union that the length of the class selects; the outer [None]
    is a class that is [NULL]. *)
Definition real_val (f : actf_fld) (max : Z) (of32 of64 : Z -> Z) : option Z :=
  match f_d f with
  | ACTF_FLD_TYPE_REAL v =>
      match f_cls f with
      | None => None
      | Some (FC_FXD_LEN_FLOAT a) => Some (if len a =? 32 then of32 v else if len a =? 64 then of64 v else max)
      | Some _ => Some max
      end
  | _ => Some max
  end.

Definition actf_fld_float (f : actf_fld) : option Z := real_val f FLT_MAX id f64_to_f32.
Definition actf_fld_double (f : actf_fld) : option Z := real_val f DBL_MAX f32_to_f64 id.

Definition actf_fld_str_raw (f : actf_fld) : option Z :=
  match f_d f with ACTF_FLD_TYPE_STR p _ => Some p | _ => None end.
Definition actf_fld_str_sz (f : actf_fld) : Z :=
  match f_d f with ACTF_FLD_TYPE_STR _ n => n | _ => 0 end.
Definition actf_fld_blob (f : actf_fld) : option Z :=
  match f_d f with ACTF_FLD_TYPE_BLOB p _ => Some p | _ => None end.
Definition actf_fld_blob_sz (f : actf_fld) : Z :=
  match f_d f with ACTF_FLD_TYPE_BLOB _ n => n | _ => 0 end.

Definition actf_fld_arr_len (f : actf_fld) : Z :=
  match f_d f with ACTF_FLD_TYPE_ARR _ n => n | _ => 0 end.

Definition actf_fld_arr_idx (f : actf_fld) (i : Z) : option actf_fld :=
  match f_d f with
  | ACTF_FLD_TYPE_ARR vals n => if i >=? n then None else vals !! Z.to_nat i
  | _ => None
  end.

(** The class of a structure field, when the field is one. *)
Definition struct_fld (f : actf_fld) : option (list (string * actf_fld_cls) * list actf_fld) :=
  match f_d f, f_cls f with
  | ACTF_FLD_TYPE_STRUCT vals, Some (FC_STRUCT ms _ _) => Some (ms, vals)
  | _, _ => None
  end.

Fixpoint struct_fld_loop (ms : list (string * actf_fld_cls)) (vals : list actf_fld) (key : string) :
    option actf_fld :=
  match ms, vals with
  | (name, _) :: ms', v :: vals' =>
      if bool_decide (name = key) then Some v else struct_fld_loop ms' vals' key
  | _, _ => None
  end.

Definition actf_fld_struct_fld (f : actf_fld) (key : string) : option actf_fld :=
  '(ms, vals) ← struct_fld f; struct_fld_loop ms vals key.

Definition actf_fld_struct_len (f : actf_fld) : Z :=
  match struct_fld f with Some (ms, _) => Z.of_nat (length ms) | None => 0 end.

Definition actf_fld_struct_fld_idx (f : actf_fld) (i : Z) : option actf_fld :=
  '(ms, vals) ← struct_fld f;
  if i >=? Z.of_nat (length ms) then None else vals !! Z.to_nat i.

Definition actf_fld_struct_fld_name_idx (f : actf_fld) (i : Z) : option string :=
  '(ms, vals) ← struct_fld f;
  if i >=? Z.of_nat (length ms) then None else fst <$> ms !! Z.to_nat i.

(** * Packets (pkt_state.h, pkt.c) *)

Definition PACKET_MAGIC_NUMBER : Z := 0xc1fc1fc1.

(** [enum pkt_state_opt]. *)
Definition PKT_DISC_ER_SNAP : Z := 1.
Definition PKT_DSTREAM_CLS : Z := 2.
Definition PKT_DSTREAM_ID : Z := 4.
Definition PKT_LAST_BO : Z := 8.
Definition PKT_END_DEF_CLK_VAL : Z := 16.
Definition PKT_SEQ_NUM : Z := 32.

Record pkt_state := mk_pkt_state {
  bit_off : Z;
  pkt_def_clk_val : Z;
  begin_def_clk_val : Z;
  disc_er_snap : Z;
  dsc_cls : option actf_dstream_cls;
  dsc_cls_id : Z;
  ds_id : Z;
  last_bo : actf_byte_order;
  content_len : Z;
  end_def_clk_val : Z;
  seq_num : Z;
  tot_len : Z;
  opt_flags : Z
}.

(** The members that are not assigned keep their value. *)
Definition pkt_state_init (p : pkt_state) : pkt_state :=
  mk_pkt_state 0 0 0 (disc_er_snap p) None 0 (ds_id p) (last_bo p) UINT64_MAX (end_def_clk_val p)
    (seq_num p) UINT64_MAX 0.

Definition has_flag (p : pkt_state) (flag : Z) : bool := c_true (Z.land (opt_flags p) flag).

(** The state of the packet less the clock and the byte order, which advance with the
    events. *)
Definition settled (p : pkt_state) : pkt_state :=
  mk_pkt_state (bit_off p) 0 (begin_def_clk_val p) (disc_er_snap p) (dsc_cls p) (dsc_cls_id p) (ds_id p) ACTF_LIL_ENDIAN
    (content_len p) (end_def_clk_val p) (seq_num p) (tot_len p) (Z.ldiff (opt_flags p) PKT_LAST_BO).

(** What of this the flags let be read ([actf_pkt_end_tstamp] tests the wrong member and
    does not go by the flag). *)
Definition guarded (p : pkt_state) : pkt_state :=
  let p := settled p in
  let flagged flag v := if has_flag p flag then v else 0 in
  mk_pkt_state (bit_off p) 0 (begin_def_clk_val p) (flagged PKT_DISC_ER_SNAP (disc_er_snap p)) (dsc_cls p) (dsc_cls_id p)
    (flagged PKT_DSTREAM_ID (ds_id p)) ACTF_LIL_ENDIAN (content_len p) (flagged PKT_END_DEF_CLK_VAL (end_def_clk_val p))
    (flagged PKT_SEQ_NUM (seq_num p)) (tot_len p) (opt_flags p).

Lemma settled_flag p flag : Z.land flag PKT_LAST_BO = 0 -> has_flag (settled p) flag = has_flag p flag.
Proof.
  intros Hf. unfold has_flag. f_equal. cbn. apply Z.bits_inj'. intros k Hk. apply (f_equal (fun x => Z.testbit x k)) in Hf.
  rewrite Z.land_spec, Z.bits_0 in Hf. rewrite !Z.land_spec, Z.ldiff_spec.
  by destruct (Z.testbit (opt_flags p) k), (Z.testbit flag k), (Z.testbit PKT_LAST_BO k).
Qed.
Lemma settled_guarded p q : settled p = settled q -> guarded p = guarded q.
Proof. unfold guarded. by intros ->. Qed.

(** [struct actf_pkt]: its state and its two properties. *)
Record actf_pkt := mk_pkt { pkt_s : pkt_state; pkt_header_fld : actf_fld; pkt_ctx_fld : actf_fld }.

(** [pkt->props[prop]] and assigning to it. *)
Definition pkt_props (pkt : actf_pkt) (prop : actf_pkt_prop) : actf_fld :=
  match prop with ACTF_PKT_PROP_HEADER => pkt_header_fld pkt | ACTF_PKT_PROP_CTX => pkt_ctx_fld pkt end.
Definition set_pkt_prop (prop : actf_pkt_prop) (f : actf_fld) (pkt : actf_pkt) : actf_pkt :=
  match prop with
  | ACTF_PKT_PROP_HEADER => mk_pkt (pkt_s pkt) f (pkt_ctx_fld pkt)
  | ACTF_PKT_PROP_CTX => mk_pkt (pkt_s pkt) (pkt_header_fld pkt) f
  end.

Definition actf_pkt_init (p : pkt_state) : actf_pkt := mk_pkt p nil_fld nil_fld.

Definition actf_pkt_prop_fld (pkt : actf_pkt) (key : string) (prop : actf_pkt_prop) : option actf_fld :=
  actf_fld_struct_fld (pkt_props pkt prop) key.

Definition actf_pkt_fld (pkt : actf_pkt) (key : string) : option actf_fld :=
  match actf_pkt_prop_fld pkt key ACTF_PKT_PROP_HEADER with
  | Some f => Some f
  | None => actf_pkt_prop_fld pkt key ACTF_PKT_PROP_CTX
  end.

Definition actf_pkt_seq_num (pkt : actf_pkt) : Z :=
  if has_flag (pkt_s pkt) PKT_SEQ_NUM then seq_num (pkt_s pkt) else 0.
Definition actf_pkt_has_seq_num (pkt : actf_pkt) : bool := has_flag (pkt_s pkt) PKT_SEQ_NUM.
Definition actf_pkt_begin_tstamp (pkt : actf_pkt) : Z := begin_def_clk_val (pkt_s pkt).

(** The clock conversion of a timestamp of a packet; the outer [None] is the
    undefined behaviour of the conversion. *)
Definition pkt_tstamp_ns (p : pkt_state) (cc : Z) : option Z :=
  match dsc_cls p with
  | None => Some 0
  | Some dsc =>
      match actf_dstream_cls_clk_cls dsc with
      | None => Some 0
      | Some clkc => actf_clk_cls_cc_to_ns_from_origin clkc cc
      end
  end.

Definition actf_pkt_begin_tstamp_ns_from_origin (pkt : actf_pkt) : option Z :=
  if negb (has_flag (pkt_s pkt) PKT_DSTREAM_CLS) then Some 0
  else pkt_tstamp_ns (pkt_s pkt) (begin_def_clk_val (pkt_s pkt)).

Definition actf_pkt_end_tstamp (pkt : actf_pkt) : Z :=
  if c_true (Z.land (end_def_clk_val (pkt_s pkt)) PKT_END_DEF_CLK_VAL)
  then end_def_clk_val (pkt_s pkt) else 0.

Definition actf_pkt_has_end_tstamp (pkt : actf_pkt) : bool := has_flag (pkt_s pkt) PKT_END_DEF_CLK_VAL.

Definition actf_pkt_end_tstamp_ns_from_origin (pkt : actf_pkt) : option Z :=
  if negb (has_flag (pkt_s pkt) PKT_DSTREAM_CLS) || negb (has_flag (pkt_s pkt) PKT_END_DEF_CLK_VAL)
  then Some 0
  else pkt_tstamp_ns (pkt_s pkt) (end_def_clk_val (pkt_s pkt)).

Definition actf_pkt_disc_event_record_snapshot (pkt : actf_pkt) : Z :=
  if has_flag (pkt_s pkt) PKT_DISC_ER_SNAP then disc_er_snap (pkt_s pkt) else 0.
Definition actf_pkt_has_disc_event_record_snapshot (pkt : actf_pkt) : bool :=
  has_flag (pkt_s pkt) PKT_DISC_ER_SNAP.
Definition actf_pkt_dstream_id (pkt : actf_pkt) : Z :=
  if has_flag (pkt_s pkt) PKT_DSTREAM_ID then ds_id (pkt_s pkt) else 0.
Definition actf_pkt_has_dstream_id (pkt : actf_pkt) : bool := has_flag (pkt_s pkt) PKT_DSTREAM_ID.
Definition actf_pkt_dstream_cls_id (pkt : actf_pkt) : Z := dsc_cls_id (pkt_s pkt).
Definition actf_pkt_dstream_cls (pkt : actf_pkt) : option actf_dstream_cls :=
  if has_flag (pkt_s pkt) PKT_DSTREAM_CLS then dsc_cls (pkt_s pkt) else None.

Lemma guarded_seq_num pkt : actf_pkt_seq_num pkt = seq_num (guarded (pkt_s pkt)).
Proof. cbn. by rewrite settled_flag. Qed.
Lemma guarded_disc pkt : actf_pkt_disc_event_record_snapshot pkt = disc_er_snap (guarded (pkt_s pkt)).
Proof. cbn. by rewrite settled_flag. Qed.

(** * Events (event_state.h, event.c) *)

Record event_state := mk_event_state {
  ev_id : Z; ev_cls : option actf_event_cls; ev_def_clk_val : Z
}.

Definition event_state_init : event_state := mk_event_state 0 None 0.

(** [struct actf_event]; [ev_dsc] is the [dsc] pointer of the event's class. *)
Record actf_event := mk_event {
  ev_s : event_state; ev_dsc : option actf_dstream_cls;
  ev_header_fld : actf_fld; ev_common_ctx_fld : actf_fld; ev_spec_ctx_fld : actf_fld; ev_payload_fld : actf_fld
}.

(** [ev->props[prop]] and assigning to it. *)
Definition ev_props (ev : actf_event) (prop : actf_event_prop) : actf_fld :=
  match prop with
  | ACTF_EVENT_PROP_HEADER => ev_header_fld ev
  | ACTF_EVENT_PROP_COMMON_CTX => ev_common_ctx_fld ev
  | ACTF_EVENT_PROP_SPECIFIC_CTX => ev_spec_ctx_fld ev
  | ACTF_EVENT_PROP_PAYLOAD => ev_payload_fld ev
  end.
Definition set_ev_prop (prop : actf_event_prop) (f : actf_fld) (ev : actf_event) : actf_event :=
  let '(mk_event s d h c x p) := ev in
  match prop with
  | ACTF_EVENT_PROP_HEADER => mk_event s d f c x p
  | ACTF_EVENT_PROP_COMMON_CTX => mk_event s d h f x p
  | ACTF_EVENT_PROP_SPECIFIC_CTX => mk_event s d h c f p
  | ACTF_EVENT_PROP_PAYLOAD => mk_event s d h c x f
  end.
Definition set_ev_state (s : event_state) (d : option actf_dstream_cls) (ev : actf_event) : actf_event :=
  mk_event s d (ev_header_fld ev) (ev_common_ctx_fld ev) (ev_spec_ctx_fld ev) (ev_payload_fld ev).

Definition actf_event_init : actf_event := mk_event event_state_init None nil_fld nil_fld nil_fld nil_fld.

Definition actf_event_prop_fld (ev : actf_event) (key : string) (prop : actf_event_prop) : option actf_fld :=
  actf_fld_struct_fld (ev_props ev prop) key.

Definition actf_event_fld (ev : actf_event) (key : string) : option actf_fld :=
  match actf_event_prop_fld ev key ACTF_EVENT_PROP_HEADER with
  | Some f => Some f
  | None =>
      match actf_event_prop_fld ev key ACTF_EVENT_PROP_COMMON_CTX with
      | Some f => Some f
      | None =>
          match actf_event_prop_fld ev key ACTF_EVENT_PROP_SPECIFIC_CTX with
          | Some f => Some f
          | None => actf_event_prop_fld ev key ACTF_EVENT_PROP_PAYLOAD
          end
      end
  end.

Definition actf_event_tstamp (ev : actf_event) : Z := ev_def_clk_val (ev_s ev).

(** [None] is the undefined behaviour of the conversion, or a [NULL] class. *)
Definition actf_event_tstamp_ns_from_origin (ev : actf_event) : option Z :=
  match ev_dsc ev with
  | None => None
  | Some dsc =>
      match actf_dstream_cls_clk_cls dsc with
      | None => Some 0
      | Some clkc => actf_clk_cls_cc_to_ns_from_origin clkc (ev_def_clk_val (ev_s ev))
      end
  end.

(** [actf_pkt_end_tstamp] tests the value where it means to test the flags: a
    recorded end of 32 is reported as 0, and 16 is reported when no end was
    recorded. *)
Lemma end_tstamp_ignores_flag :
  let p := fun v flags => actf_pkt_init (mk_pkt_state 0 0 0 0 None 0 0 ACTF_LIL_ENDIAN 0 v 0 0 flags) in
  (actf_pkt_has_end_tstamp (p 32 PKT_END_DEF_CLK_VAL) = true /\ actf_pkt_end_tstamp (p 32 PKT_END_DEF_CLK_VAL) = 0) /\
  (actf_pkt_has_end_tstamp (p 16 0) = false /\ actf_pkt_end_tstamp (p 16 0) = 16).
Proof. by vm_compute. Qed.
