(* ===== verification/Scalar.v ===== *)
(** The scalar decoders of [decoder.c]: alignment inside a packet, bit arrays,
    sign extension, variable-length integers, null terminators and the default
    clock update.

    They use the bit reader and the packet state of the decoder only, so they
    are programs on a [cursor], the pair of both; [Decoder] runs them on its
    own state. *)
From S2P Require Import Prelude Common Breader Rng Clock FldCls HashMap Metadata Fld.

(** * State *)

Record cursor := mk_cursor { c_br : breader; c_pkt : pkt_state }.

Definition on_br {A} (m : st breader A) : st cursor A :=
  st_zoom c_br (fun b c => mk_cursor b (c_pkt c)) m.
Definition set_pkt (p : pkt_state) (c : cursor) : cursor := mk_cursor (c_br c) p.

(** * Operations *)

(** The offset of the reader in the packet, [br->tot_bit_cnt - pkt_s->bit_off]. *)
Definition pkt_off (p : pkt_state) (br : breader) : Z := u64 (tot_bit_cnt br - bit_off p).

Definition pkt_bits_remaining (p : pkt_state) (br : breader) : Z :=
  if pkt_off p br <? content_len p then u64 (content_len p - pkt_off p br) else 0.

(** [do_alignm]: [align_BO] is that of the byte order. *)
Definition do_alignm (align_BO : Z -> st breader unit) (align : Z) : st cursor unit :=
  on_br (align_BO align);;
  c ← st_get;
  if pkt_off (c_pkt c) (c_br c) >? content_len (c_pkt c) then st_fail ACTF_NOT_ENOUGH_BITS
  else mret tt.

Definition do_align_le (align : Z) : st cursor unit := do_alignm breader_align_le align.
Definition do_align_be (align : Z) : st cursor unit := do_alignm breader_align_be align.

Definition do_align (align : Z) : st cursor unit :=
  c ← st_get;
  match br_bo (c_br c) with
  | ACTF_LIL_ENDIAN => do_align_le align
  | ACTF_BIG_ENDIAN => do_align_be align
  end.

(** The loop runs until [v] is 0, at most 63 times for a 64-bit [v]. *)
Fixpoint reverse_bits_loop (fuel : nat) (v r s : Z) : Z * Z :=
  match fuel with
  | O => (r, s)
  | S fuel' =>
      if c_true v then
        let r := Z.lor (u64 (Z.shiftl r 1)) (Z.land v 1) in
        reverse_bits_loop fuel' (Z.shiftr v 1) r (s - 1)
      else (r, s)
  end.

Definition reverse_bits (v len : Z) : Z :=
  let '(r, s) := reverse_bits_loop 64 (Z.shiftr v 1) v 63 in
  Z.shiftr (u64 (Z.shiftl r s)) (64 - len).

Definition needs_reverse_bits_le (cls : fxd_len_bit_arr_fld_cls) : bool :=
  bool_decide (bito cls = ACTF_LAST_TO_FIRST).
Definition needs_reverse_bits_be (cls : fxd_len_bit_arr_fld_cls) : bool :=
  bool_decide (bito cls = ACTF_FIRST_TO_LAST).

Definition read_upper_bits_le (result remain_bits first_bits : Z) : st breader Z :=
  v ← breader_peek_le remain_bits; mret (Z.lor result (u64 (Z.shiftl v first_bits))).
Definition read_upper_bits_be (result remain_bits first_bits : Z) : st breader Z :=
  v ← breader_peek_be remain_bits; mret (Z.lor (u64 (Z.shiftl result remain_bits)) v).

(** [op##BO] for each operation the macro uses. *)
Definition needs_reverse_bits_of (bo : actf_byte_order) : fxd_len_bit_arr_fld_cls -> bool :=
  match bo with ACTF_LIL_ENDIAN => needs_reverse_bits_le | ACTF_BIG_ENDIAN => needs_reverse_bits_be end.
Definition read_upper_bits_of (bo : actf_byte_order) : Z -> Z -> Z -> st breader Z :=
  match bo with ACTF_LIL_ENDIAN => read_upper_bits_le | ACTF_BIG_ENDIAN => read_upper_bits_be end.
Definition do_align_of (bo : actf_byte_order) : Z -> st cursor unit :=
  match bo with ACTF_LIL_ENDIAN => do_align_le | ACTF_BIG_ENDIAN => do_align_be end.

Definition set_last_bo (b : actf_byte_order) (p : pkt_state) : pkt_state :=
  mk_pkt_state (bit_off p) (pkt_def_clk_val p) (begin_def_clk_val p) (disc_er_snap p) (dsc_cls p)
    (dsc_cls_id p) (ds_id p) b (content_len p) (end_def_clk_val p) (seq_num p) (tot_len p)
    (Z.lor (opt_flags p) PKT_LAST_BO).

(** The bits are read in two steps when more are wanted than one refill gives. *)
Definition read_fxd_bits (BO : actf_byte_order) (len : Z) : st breader Z :=
  avail_bits ← refill_of BO;
  if negb (c_true avail_bits) then st_fail ACTF_NOT_ENOUGH_BITS
  else
    let first_bits := MIN avail_bits len in
    result ← peek_of BO first_bits;
    consume_of BO first_bits;;
    let remain_bits := len - first_bits in
    if c_true remain_bits then
      avail_bits ← refill_of BO;
      if avail_bits <? remain_bits then st_fail ACTF_NOT_ENOUGH_BITS
      else
        result ← read_upper_bits_of BO result remain_bits first_bits;
        consume_of BO remain_bits;;
        mret result
    else mret result.

Definition fxd_len_bit_arr_decodem (cls : fxd_len_bit_arr_fld_cls) (BO : actf_byte_order) : st cursor Z :=
  c_assert (len cls <=? 64);;
  on_br (st_modify (breader_set_bo (bo cls)));;
  do_align_of BO (align cls);;
  c ← st_get;
  if pkt_bits_remaining (c_pkt c) (c_br c) <? len cls then st_fail ACTF_NOT_ENOUGH_BITS
  else if has_flag (c_pkt c) PKT_LAST_BO && negb (bool_decide (last_bo (c_pkt c) = bo cls)) &&
          negb (breader_byte_aligned (c_br c)) then st_fail ACTF_MID_BYTE_ENDIAN_SWAP
  else
    result ← on_br (read_fxd_bits BO (len cls));
    let val := if needs_reverse_bits_of BO cls then reverse_bits result (len cls) else result in
    st_modify (fun c => set_pkt (set_last_bo (bo cls) (c_pkt c)) c);;
    mret val.

Definition fxd_len_bit_arr_decode (cls : fxd_len_bit_arr_fld_cls) : st cursor Z :=
  match bo cls with
  | ACTF_LIL_ENDIAN => fxd_len_bit_arr_decodem cls ACTF_LIL_ENDIAN
  | ACTF_BIG_ENDIAN => fxd_len_bit_arr_decodem cls ACTF_BIG_ENDIAN
  end.

Definition sext (val n_bits : Z) : Z :=
  let sign_bit := Z.shiftr val (n_bits - 1) in
  if (n_bits <? 64) && c_true sign_bit then
    let sign_mask := u64 (Z.shiftl 1 (64 - n_bits)) - 1 in
    Z.lor val (u64 (Z.shiftl sign_mask n_bits))
  else val.

(** The inner loop of [fld_cls_var_len_int_decode]: at most [n] bytes of the
    look-ahead; an incomplete byte fails the assertion of a peek.  Shifting a 64-bit value by 64 or more is undefined. *)
Fixpoint var_len_inner (n : nat) (result shift : Z) : st breader (Z * Z * bool) :=
  match n with
  | O => mret (result, shift, false)
  | S n' =>
      v ← breader_peek 7;
      c_assert (shift <? 64);;
      let result := Z.lor result (u64 (Z.shiftl v shift)) in
      breader_consume 7;;
      more ← breader_peek 1;
      breader_consume 1;;
      if c_true more then var_len_inner n' result (shift + 7) else mret (result, shift + 7, true)
  end.

(** The outer loop; every round reads a byte, and the eleventh byte is
    undefined, so 11 rounds are never exceeded. *)
Fixpoint var_len_outer (fuel : nat) (result shift : Z) : st cursor (Z * Z) :=
  match fuel with
  | O => st_undef
  | S fuel' =>
      avail_bits ← on_br breader_refill;
      if negb (c_true avail_bits) then st_fail ACTF_NOT_ENOUGH_BITS
      else
        '(result, shift, fin) ← on_br (var_len_inner (Z.to_nat ((avail_bits + 7) / 8)) result shift);
        c ← st_get;
        if (negb fin && (pkt_bits_remaining (c_pkt c) (c_br c) <? 8)) ||
           (fin && (pkt_off (c_pkt c) (c_br c) >? content_len (c_pkt c)))
        then st_fail ACTF_NOT_ENOUGH_BITS
        else if fin then mret (result, MIN shift 64) else var_len_outer fuel' result shift
  end.

Definition fld_cls_var_len_int_decode (align_req : Z) : st cursor (Z * Z) :=
  on_br (st_modify (breader_set_bo ACTF_LIL_ENDIAN));;
  do_align align_req;;
  c ← st_get;
  if pkt_bits_remaining (c_pkt c) (c_br c) <? 8 then st_fail ACTF_NOT_ENOUGH_BITS
  else var_len_outer 12 0 0.

(** [ptr[i]]: reading outside the data is undefined. *)
Definition mem_read (mem : list Z) (i : Z) : outcome Z :=
  if (0 <=? i) && (i <? Z.of_nat (length mem)) then Ok (byte_at mem i) else Undef.

(** [memchr(ptr, 0, n)]. *)
Fixpoint memchr0 (mem : list Z) (ptr : Z) (n : nat) : outcome (option Z) :=
  match n with
  | O => Ok None
  | S n' =>
      match mem_read mem ptr with
      | Ok b => if b =? 0 then Ok (Some ptr) else memchr0 mem (ptr + 1) n'
      | Err rc => Err rc
      | Undef => Undef
      end
  end.

(** The inner loop of [find_null_term]: whether [n] bytes from [ptr] are 0; the
    loop stops at the first other byte. *)
Fixpoint all_zero (mem : list Z) (ptr : Z) (n : nat) : outcome bool :=
  match n with
  | O => Ok true
  | S n' =>
      match mem_read mem ptr with
      | Ok b => if b =? 0 then all_zero mem (ptr + 1) n' else Ok false
      | Err rc => Err rc
      | Undef => Undef
      end
  end.

(** The outer loop over [i]; [fuel] is at least the number of code points. *)
Fixpoint find_wide_null (fuel : nat) (mem : list Z) (ptr n_bytes codepoint_sz i : Z) : outcome (option Z) :=
  match fuel with
  | O => Ok None
  | S fuel' =>
      if i <? n_bytes then
        match all_zero mem (ptr + i) (Z.to_nat codepoint_sz) with
        | Ok true => Ok (Some (ptr + i + codepoint_sz - 1))
        | Ok false => find_wide_null fuel' mem ptr n_bytes codepoint_sz (i + codepoint_sz)
        | Err rc => Err rc
        | Undef => Undef
        end
      else Ok None
  end.

Definition find_null_term (mem : list Z) (ptr n_bytes : Z) (enc : actf_encoding) : outcome (option Z) :=
  let codepoint_sz := actf_encoding_to_codepoint_size enc in
  if codepoint_sz =? 1 then memchr0 mem ptr (Z.to_nat n_bytes)
  else find_wide_null (Z.to_nat n_bytes) mem ptr n_bytes codepoint_sz 0.

Definition is_valid_str_sz (str_sz : Z) (enc : actf_encoding) : bool :=
  negb (c_true (str_sz mod actf_encoding_to_codepoint_size enc)).

(** ** Strings and blobs: the part of their decoders that reads the data. *)

(** [find_null_term] on the data of the reader. *)
Definition find_null (ptr n_bytes : Z) (enc : actf_encoding) : st cursor (option Z) := fun c =>
  (find_null_term (br_mem (c_br c)) ptr n_bytes enc, c).

Definition read_null_term_str (enc : actf_encoding) (align_req : Z) : st cursor (Z * Z) :=
  do_align align_req;;
  c ← st_get;
  if pkt_bits_remaining (c_pkt c) (c_br c) <? actf_encoding_to_codepoint_size enc * 8
  then st_fail ACTF_NOT_ENOUGH_BITS
  else
    let ptr := breader_peek_bytes (c_br c) in
    let n_bytes := MIN (breader_bytes_remaining (c_br c)) (pkt_bits_remaining (c_pkt c) (c_br c) / 8) in
    term ← find_null ptr n_bytes enc;
    match term with
    | None => st_fail ACTF_NOT_ENOUGH_BITS
    | Some term =>
        let str_len := term - ptr + 1 in
        p ← on_br (breader_read_bytes str_len);
        match p with
        | None => st_fail ACTF_INTERNAL
        | Some _ => mret (ptr, str_len)
        end
    end.

(** Strings of a known length, static or dynamic. *)
Definition read_str (enc : actf_encoding) (align_req len : Z) : st cursor (Z * Z) :=
  do_align align_req;;
  c ← st_get;
  if pkt_bits_remaining (c_pkt c) (c_br c) <? u64 (len * 8) then st_fail ACTF_NOT_ENOUGH_BITS
  else
    p ← on_br (breader_read_bytes len);
    match p with
    | None => st_fail ACTF_NOT_ENOUGH_BITS
    | Some ptr =>
        term ← find_null ptr len enc;
        match term with
        | Some term => mret (ptr, term - ptr + 1)
        | None =>
            if negb (is_valid_str_sz len enc) then st_fail ACTF_INVALID_STR_LEN
            else mret (ptr, len)
        end
    end.

Definition read_blob (align_req len : Z) : st cursor Z :=
  do_align align_req;;
  c ← st_get;
  if pkt_bits_remaining (c_pkt c) (c_br c) <? u64 (len * 8) then st_fail ACTF_NOT_ENOUGH_BITS
  else
    p ← on_br (breader_read_bytes len);
    match p with
    | None => st_fail ACTF_NOT_ENOUGH_BITS
    | Some ptr => mret ptr
    end.

(** [uint64_t] of a shift count that is undefined outside [0..63]. *)
Definition shl_checked (x n : Z) : option Z :=
  if (0 <=? n) && (n <? 64) then Some (u64 (Z.shiftl x n)) else None.

(** [None] is the undefined shift of a zero length. *)
Definition calc_new_def_clk_val (cls : actf_fld_cls) (val : actf_fld) (def_clk_val : Z) : option Z :=
  let v := actf_fld_uint64 val in
  let l :=
    match cls with
    | FC_FXD_LEN_UINT _ a _ => Some (len a)
    | FC_VAR_LEN_UINT _ _ =>
        let n := match f_d val with ACTF_FLD_TYPE_UINT _ n => n | _ => 0 end in
        Some (n / 7 + Z.b2z (c_true (n mod 7)))
    | _ => None
    end in
  match l with
  | None => Some def_clk_val
  | Some l =>
      m ← shl_checked 2 (l - 1);
      let mask := u64 (m - 1) in
      let h := Z.land def_clk_val (u64 (Z.lnot mask)) in
      let cur := Z.land def_clk_val mask in
      Some (if v >=? cur then u64 (h + v) else u64 (h + mask + 1 + v))
  end.

(** * Reversal and extension *)

(** [r] after [k] rounds of the loop: the bits of [v] reversed below bit [k]. *)
Definition rev_inv (v k r : Z) : Prop :=
  forall i, 0 <= i < 64 -> Z.testbit r i = if i <? k then Z.testbit v (k - i) else Z.testbit v (i - k).

(** Recording a byte order changes nothing that is settled. *)
Lemma settled_last_bo b p : settled (set_last_bo b p) = settled p.
Proof.
  unfold settled, set_last_bo. destruct p; cbn. f_equal. apply Z.bits_inj'. intros n Hn.
  rewrite !Z.ldiff_spec, Z.lor_spec. by destruct (Z.testbit opt_flags n), (Z.testbit PKT_LAST_BO n).
Qed.

Lemma reverse_bits_loop_spec fuel v k r :
  is_u64 v -> 0 <= k <= 63 -> rev_inv v k r -> 63 < Z.of_nat fuel + k ->
  exists k' r', reverse_bits_loop fuel (Z.shiftr v (k + 1)) r (63 - k) = (r', 63 - k') /\
    0 <= k' <= 63 /\ rev_inv v k' r' /\ Z.shiftr v (k' + 1) = 0.
Proof.
  intros Hv. revert k r. induction fuel as [|fuel IH]; intros k r Hk Hinv Hf.
  - lia.
  - cbn [reverse_bits_loop]. unfold c_true. destruct (Z.eqb_spec (Z.shiftr v (k + 1)) 0) as [E|NE]; cbn [negb].
    { exists k, r. done. }
    rewrite Z.shiftr_shiftr by lia. replace (63 - k - 1) with (63 - (k + 1)) by lia.
    assert (k + 1 <= 63).
    { destruct (Z.leb_spec (k + 1) 63); [done|]. destruct NE. bitwise i. apply (testbit_high 64); [done|lia]. }
    apply IH; [lia| |lia]. intros i Hi. zbits. replace (Z.testbit 1 i) with (i =? 0).
    2: { destruct (Z.eqb_spec i 0) as [->|]; [done|]. symmetry. apply (testbit_high 1); lia. }
    destruct (Z.eqb_spec i 0) as [->|].
    + rewrite (Z.testbit_neg_r r (0 - 1)), andb_false_r, andb_true_r by lia. cbn [orb]. destruct (Z.ltb_spec 0 (k + 1)); [|lia]. f_equal. lia.
    + rewrite andb_false_r, orb_false_r, Hinv by lia. zcmp; cbn; f_equal; lia.
Qed.

Lemma testbit_reverse_bits v n i :
  is_u64 v -> 1 <= n <= 64 -> 0 <= i ->
  Z.testbit (reverse_bits v n) i = (i <? n) && Z.testbit v (n - 1 - i).
Proof.
  intros Hv Hn Hi. unfold reverse_bits.
  destruct (reverse_bits_loop_spec 64 v 0 v Hv ltac:(lia)) as (k & r & Hrun & Hk & Hinv & Hz).
  { intros j Hj. zcmp. f_equal. lia. }
  { lia. }
  change (0 + 1) with 1 in Hrun. change (63 - 0) with 63 in Hrun. rewrite Hrun.
  rewrite Z.shiftr_spec, testbit_u64 by lia. zcmp; cbn [andb]; try done.
  assert (Hhigh : forall j, k < j -> Z.testbit v j = false).
  { intros j Hj. replace j with (j - (k + 1) + (k + 1)) by lia.
    rewrite <- Z.shiftr_spec, Hz by lia. apply Z.testbit_0_l. }
  rewrite Z.shiftl_spec by lia. destruct (Z.ltb_spec (i + (64 - n) - (63 - k)) 0).
  - rewrite Z.testbit_neg_r by lia. symmetry. apply Hhigh. lia.
  - rewrite Hinv by lia. zcmp; f_equal; lia.
Qed.

(** Sign extension reads the low [n] bits as a two's complement integer. *)
Lemma sext_spec val n : 1 <= n <= 64 -> 0 <= val < 2 ^ n -> i64 (sext val n) = wrap_signed n val.
Proof.
  intros Hn Hv. unfold i64, sext.
  assert (E : 2 ^ n = 2 * 2 ^ (n - 1)) by (rewrite <- Z.pow_succ_r by lia; f_equal; lia).
  assert (Hw : wrap_signed n val = if val <? 2 ^ (n - 1) then val else val - 2 ^ n)
    by (unfold wrap_signed; by rewrite Z.mod_small by lia).
  assert (E64 : 2 ^ 64 = 2 ^ n * 2 ^ (64 - n)) by (rewrite <- Z.pow_add_r by lia; f_equal; lia).
  assert (Hn1 : 1 <= 2 ^ (64 - n)) by (pose proof (pow2_pos (64 - n)); lia).
  assert (Hs : Z.shiftr val (n - 1) = if val <? 2 ^ (n - 1) then 0 else 1).
  { rewrite Z.shiftr_div_pow2 by lia. pose proof (pow2_pos (n - 1)).
    destruct (Z.ltb_spec val (2 ^ (n - 1))); [apply Z.div_small; lia|].
    symmetry. apply (Z.div_unique val _ 1 (val - 2 ^ (n - 1))); lia. }
  rewrite Hs, Hw. destruct (Z.ltb_spec val (2 ^ (n - 1))) as [Hlt|Hge].
  - cbn [c_true Z.eqb negb]. rewrite andb_false_r. apply wrap_signed_small; [lia|].
    assert (2 ^ (n - 1) <= 2 ^ 63) by (apply Z.pow_le_mono_r; lia). lia.
  - cbn [c_true Z.eqb negb]. rewrite andb_true_r. destruct (Z.ltb_spec n 64).
    + rewrite (u64_small (Z.shiftl 1 (64 - n))), Z.shiftl_1_l.
      2: { rewrite Z.shiftl_1_l. split; [lia|apply Z.pow_lt_mono_r; lia]. }
      rewrite Z.shiftl_mul_pow2 by lia.
      assert (Hle : 2 ^ n <= 2 ^ 64) by (apply Z.pow_le_mono_r; lia).
      assert (Hm : (2 ^ (64 - n) - 1) * 2 ^ n = 2 ^ 64 - 2 ^ n) by (rewrite E64; ring).
      assert (Hu : u64 ((2 ^ (64 - n) - 1) * 2 ^ n) = 2 ^ 64 - 2 ^ n)
        by (rewrite Hm; apply u64_small; unfold is_u64; lia).
      rewrite Hu.
      assert (Hl : Z.lor val (2 ^ 64 - 2 ^ n) = val + (2 ^ 64 - 2 ^ n)).
      { replace (2 ^ 64 - 2 ^ n) with (Z.shiftl (2 ^ (64 - n) - 1) n)
          by (rewrite Z.shiftl_mul_pow2 by lia; lia).
        rewrite Z.add_nocarry_lxor, <- Z.lxor_lor; [done| |]; bitwise i.
        - destruct (Z.ltb_spec i n); [by rewrite (Z.testbit_neg_r _ (i - n)), andb_false_r by lia|].
          by rewrite (testbit_high n val) by lia.
        - destruct (Z.ltb_spec i n); [by rewrite (Z.testbit_neg_r _ (i - n)), andb_false_r by lia|].
          by rewrite (testbit_high n val) by lia. }
      rewrite Hl. unfold wrap_signed. rewrite Z.mod_small by lia.
      assert (2 ^ n <= 2 ^ 63) by (apply Z.pow_le_mono_r; lia).
      destruct (Z.ltb_spec (val + (2 ^ 64 - 2 ^ n)) (2 ^ (64 - 1))); lia.
    + replace n with 64 in * by lia. unfold wrap_signed. rewrite Z.mod_small by lia.
      destruct (Z.ltb_spec val (2 ^ (64 - 1))); lia.
Qed.

(** * Fixed-length bit arrays *)

(** ** Abstract specification *)

(** The bits of the stream from position [p], in reading order. *)
Definition stream_bits (bo : actf_byte_order) (mem : list Z) (p : Z) (n : nat) : list bool :=
  map (fun i => stream_bit bo mem (p + Z.of_nat i)) (seq 0 n).

(** The integer whose bits, from the least significant one, are [l]. *)
Fixpoint bits_value (l : list bool) : Z :=
  match l with
  | [] => 0
  | b :: l' => Z.b2z b + 2 * bits_value l'
  end.

(** The value of a bit array of [n] bits at [p]: the bit order says whether the
    first bit is the least or the most significant one. *)
Definition fxd_value (bo : actf_byte_order) (bito : actf_bit_order) (mem : list Z) (p : Z) (n : nat) : Z :=
  match bito with
  | ACTF_FIRST_TO_LAST => bits_value (stream_bits bo mem p n)
  | ACTF_LAST_TO_FIRST => bits_value (rev (stream_bits bo mem p n))
  end.

Lemma testbit_bits_value l i : 0 <= i -> Z.testbit (bits_value l) i = nth (Z.to_nat i) l false.
Proof.
  revert i. induction l as [|b l IH]; intros i Hi; cbn [bits_value].
  - rewrite Z.testbit_0_l. by destruct (Z.to_nat i).
  - rewrite Z.add_comm. destruct (Z.eq_dec i 0) as [->|]; [by rewrite Z.testbit_0_r|].
    replace i with (Z.succ (i - 1)) at 1 by lia. rewrite Z.testbit_succ_r, IH by lia.
    by replace (Z.to_nat i) with (S (Z.to_nat (i - 1))) by lia.
Qed.

Lemma nth_stream_bits bo mem p n i :
  nth i (stream_bits bo mem p n) false = (Z.of_nat i <? Z.of_nat n) && stream_bit bo mem (p + Z.of_nat i).
Proof.
  unfold stream_bits. destruct (Z.ltb_spec (Z.of_nat i) (Z.of_nat n)).
  - rewrite (nth_indep _ false (stream_bit bo mem (p + Z.of_nat 0))) by (rewrite length_map, length_seq; lia).
    rewrite (map_nth (fun i => stream_bit bo mem (p + Z.of_nat i))), seq_nth by lia. done.
  - apply nth_overflow. rewrite length_map, length_seq. lia.
Qed.

Lemma testbit_fxd_value bo bito mem p n i :
  0 <= i ->
  Z.testbit (fxd_value bo bito mem p n) i =
    (i <? Z.of_nat n) &&
    stream_bit bo mem (p + match bito with ACTF_FIRST_TO_LAST => i | _ => Z.of_nat n - 1 - i end).
Proof.
  intros Hi. assert (Hlen : length (stream_bits bo mem p n) = n)
    by (unfold stream_bits; by rewrite length_map, length_seq).
  destruct bito; cbn [fxd_value]; rewrite testbit_bits_value by done.
  - rewrite nth_stream_bits, Z2Nat.id by done. done.
  - destruct (Z.ltb_spec i (Z.of_nat n)) as [Hlt|Hge].
    + rewrite rev_nth by lia. rewrite nth_stream_bits, Hlen.
      destruct (Z.ltb_spec (Z.of_nat (n - S (Z.to_nat i))) (Z.of_nat n)); [|lia].
      cbn [andb]. f_equal. lia.
    + cbn [andb]. apply nth_overflow. rewrite length_rev. lia.
Qed.

(** ** Reading the bits *)

Lemma ctf_bits_split bo mem p f r :
  ctf_bits bo mem p (f + r) =
    match bo with
    | ACTF_LIL_ENDIAN => Z.lor (ctf_bits bo mem p f) (Z.shiftl (ctf_bits bo mem (p + Z.of_nat f) r) (Z.of_nat f))
    | ACTF_BIG_ENDIAN => Z.lor (Z.shiftl (ctf_bits bo mem p f) (Z.of_nat r)) (ctf_bits bo mem (p + Z.of_nat f) r)
    end.
Proof.
  destruct bo; bitwise i.
  - destruct (Z.ltb_spec i (Z.of_nat f)).
    + rewrite (Z.testbit_neg_r _ (i - Z.of_nat f)), !testbit_ctf_bits_le by lia. zcmp. cbn.
      by rewrite orb_false_r.
    + rewrite !testbit_ctf_bits_le by lia. zcmp; cbn; try done. f_equal; lia.
  - destruct (Z.ltb_spec i (Z.of_nat r)).
    + rewrite (Z.testbit_neg_r _ (i - Z.of_nat r)), !testbit_ctf_bits_be by lia. zcmp. cbn. f_equal. lia.
    + rewrite !testbit_ctf_bits_be by lia. zcmp; cbn; rewrite ?orb_false_r; try done. f_equal; lia.
Qed.

Lemma read_upper_bits_spec br result f r :
  br_wf br -> 1 <= r <= lookahead_bit_cnt br -> 0 <= f -> f + r <= 64 -> 0 <= result < 2 ^ f ->
  read_upper_bits_of (br_bo br) result r f br =
    (Ok (match br_bo br with
         | ACTF_LIL_ENDIAN =>
             Z.lor result (Z.shiftl (ctf_bits (br_bo br) (br_mem br) (tot_bit_cnt br) (Z.to_nat r)) f)
         | ACTF_BIG_ENDIAN =>
             Z.lor (Z.shiftl result r) (ctf_bits (br_bo br) (br_mem br) (tot_bit_cnt br) (Z.to_nat r))
         end), br).
Proof.
  intros Hwf Hr Hf Hfr Hres. pose proof (peek_of_spec br r Hwf Hr) as Hp.
  pose proof (ctf_bits_range (br_bo br) (br_mem br) (tot_bit_cnt br) (Z.to_nat r)) as Hc.
  rewrite Z2Nat.id in Hc by lia.
  assert (Hs : forall x a b, 0 <= a -> 0 <= b -> a + b <= 64 -> 0 <= x < 2 ^ a -> u64 (Z.shiftl x b) = Z.shiftl x b).
  { intros x a b Ha Hb Hab Hx. apply u64_small. unfold is_u64. rewrite Z.shiftl_mul_pow2 by done.
    assert (2 ^ (a + b) <= 2 ^ 64) by (apply Z.pow_le_mono_r; lia). rewrite Z.pow_add_r in * by done.
    pose proof (pow2_pos b Hb). nia. }
  unfold read_upper_bits_of, peek_of in *. destruct (br_bo br).
  - unfold read_upper_bits_le. rewrite (st_bind_ok _ _ _ _ _ Hp). cbv [mret st_ret].
    by rewrite (Hs _ r f) by lia.
  - unfold read_upper_bits_be. rewrite (st_bind_ok _ _ _ _ _ Hp). cbv [mret st_ret].
    by rewrite (Hs _ f r) by lia.
Qed.

Lemma read_fxd_bits_spec br n :
  br_wf br -> 1 <= n <= 64 ->
  exists br',
    read_fxd_bits (br_bo br) n br =
      ((if tot_bit_cnt br + n <=? mem_bits br
        then Ok (ctf_bits (br_bo br) (br_mem br) (tot_bit_cnt br) (Z.to_nat n))
        else Err ACTF_NOT_ENOUGH_BITS), br') /\
    br_wf br' /\ same_stream br br' /\ tot_bit_cnt br <= tot_bit_cnt br' /\
    (tot_bit_cnt br + n <= mem_bits br -> tot_bit_cnt br' = tot_bit_cnt br + n).
Proof.
  intros Hwf Hn. unfold read_fxd_bits.
  destruct (refill_of_spec br Hwf) as (br1 & Hrun1 & (Hwf1 & Hss1 & Ht1) & Hav1 & _ & _).
  rewrite (st_bind_ok _ _ _ _ _ Hrun1). unfold c_true.
  pose proof (same_stream_bits _ _ Hss1) as Hm1. pose proof Hss1 as [Hbo1 Hmem1].
  pose proof (wf_pos_le _ Hwf). pose proof (wf_cnt _ Hwf1).
  assert (Hla1 : tot_bit_cnt br1 + lookahead_bit_cnt br1 <= mem_bits br1).
  { destruct Hwf1. unfold mem_bits in *. lia. }
  destruct (Z.eqb_spec (lookahead_bit_cnt br1) 0) as [E0|NE0]; cbn [negb].
  { exists br1. destruct (Z.leb_spec (tot_bit_cnt br + n) (mem_bits br)); [lia|]. split_and!; try done; lia. }
  set (f := MIN (lookahead_bit_cnt br1) n).
  assert (Hf : f = Z.min (lookahead_bit_cnt br1) n) by apply MIN_spec.
  rewrite <- Hbo1.
  rewrite (st_bind_ok _ _ _ _ _ (peek_of_spec br1 f Hwf1 ltac:(lia))).
  destruct (consume_of_spec br1 f Hwf1 ltac:(lia)) as (br2 & Hrun2 & (Hwf2 & Hss2 & Ht2) & _ & _).
  rewrite (st_bind_ok _ _ _ _ _ Hrun2). pose proof Hss2 as [Hbo2 Hmem2].
  pose proof (same_stream_bits _ _ Hss2) as Hm2.
  assert (Hss12 : same_stream br br2) by (split; congruence).
  destruct (Z.eqb_spec (n - f) 0) as [Er|NEr]; cbn [negb].
  { exists br2. destruct (Z.leb_spec (tot_bit_cnt br + n) (mem_bits br)); [|lia].
    rewrite Hmem1, Ht1. replace (Z.to_nat f) with (Z.to_nat n) by lia. split_and!; try done; lia. }
  destruct (refill_of_spec br2 Hwf2) as (br3 & Hrun3 & (Hwf3 & Hss3 & Ht3) & Hav3 & _ & _).
  rewrite <- Hbo2, (st_bind_ok _ _ _ _ _ Hrun3). pose proof Hss3 as [Hbo3 Hmem3].
  pose proof (same_stream_bits _ _ Hss3) as Hm3. pose proof (wf_cnt _ Hwf3).
  assert (Hla3 : tot_bit_cnt br3 + lookahead_bit_cnt br3 <= mem_bits br3).
  { destruct Hwf3. unfold mem_bits in *. lia. }
  assert (Hss13 : same_stream br br3) by (split; congruence).
  destruct (Z.ltb_spec (lookahead_bit_cnt br3) (n - f)) as [Hlt|Hge].
  { exists br3. destruct (Z.leb_spec (tot_bit_cnt br + n) (mem_bits br)); [lia|]. split_and!; try done; lia. }
  pose proof (ctf_bits_range (br_bo br1) (br_mem br1) (tot_bit_cnt br1) (Z.to_nat f)) as Hc.
  rewrite Z2Nat.id, <- Hbo2, <- Hbo3 in Hc by lia.
  rewrite <- Hbo3, (st_bind_ok _ _ _ _ _ (read_upper_bits_spec br3 _ f (n - f) Hwf3 ltac:(lia) ltac:(lia) ltac:(lia) Hc)).
  destruct (consume_of_spec br3 (n - f) Hwf3 ltac:(lia)) as (br4 & Hrun4 & (Hwf4 & Hss4 & Ht4) & _ & _).
  rewrite (st_bind_ok _ _ _ _ _ Hrun4). pose proof Hss4 as [Hbo4 Hmem4]. exists br4.
  destruct (Z.leb_spec (tot_bit_cnt br + n) (mem_bits br)); [|lia].
  split; [|split_and!; [done|split; congruence|lia|lia]]. unfold mret, st_ret. f_equal. f_equal.
  pose proof (ctf_bits_split (br_bo br) (br_mem br) (tot_bit_cnt br) (Z.to_nat f) (Z.to_nat (n - f))) as Hsp.
  replace (Z.to_nat f + Z.to_nat (n - f))%nat with (Z.to_nat n) in Hsp by lia.
  rewrite Hmem3, Hmem2, Hmem1, Hbo3, Hbo2, Hbo1, Hsp, Ht3, Ht2, Ht1, !Z2Nat.id by lia.
  by destruct (br_bo br).
Qed.

(** ** The cursor *)

Record cur_wf (c : cursor) : Prop := {
  cw_br : br_wf (c_br c);
  cw_off : 0 <= bit_off (c_pkt c) <= tot_bit_cnt (c_br c);
  cw_content : is_u64 (content_len (c_pkt c));
  cw_tot : is_u64 (tot_len (c_pkt c))
}.

(** The position of the reader and the end of the content of the packet. *)
Definition c_pos (c : cursor) : Z := tot_bit_cnt (c_br c).
Definition content_end (c : cursor) : Z := bit_off (c_pkt c) + content_len (c_pkt c).
Definition c_mem (c : cursor) : list Z := br_mem (c_br c).
Definition c_bits (c : cursor) : Z := mem_bits (c_br c).

(** The position after aligning to [a] bits; the end of the data stops it. *)
Definition aligned_pos (c : cursor) (a : Z) : Z := Z.min (round_up (c_pos c) a) (c_bits c).

(** [c'] reads the same data from position [p]. *)
Definition moved (c c' : cursor) (p : Z) : Prop :=
  br_wf (c_br c') /\ c_mem c' = c_mem c /\ c_pos c' = p /\ br_bo (c_br c') = br_bo (c_br c).

Lemma pkt_off_spec c : cur_wf c -> pkt_off (c_pkt c) (c_br c) = c_pos c - bit_off (c_pkt c).
Proof.
  intros [Hbr Hoff _]. unfold pkt_off. apply u64_small. unfold is_u64. pose proof (wf_pos_le _ Hbr).
  destruct Hbr. unfold c_pos. lia.
Qed.

Lemma pkt_bits_remaining_spec c :
  cur_wf c -> pkt_bits_remaining (c_pkt c) (c_br c) = Z.max 0 (content_end c - c_pos c).
Proof.
  intros Hc. unfold pkt_bits_remaining. rewrite (pkt_off_spec c Hc). destruct Hc as [_ Hoff Hcl].
  unfold content_end, c_pos in *.
  destruct (Z.ltb_spec (tot_bit_cnt (c_br c) - bit_off (c_pkt c)) (content_len (c_pkt c))); [|lia].
  rewrite u64_small; [lia|]. unfold is_u64 in *. lia.
Qed.

Lemma moved_wf c c' p :
  cur_wf c -> moved c c' p -> c_pos c <= p -> c_pkt c' = c_pkt c -> cur_wf c'.
Proof. intros [] (Hwf & _ & Hp & _) Hle Hpk. unfold c_pos in *. split; rewrite ?Hpk; try done. lia. Qed.

Lemma aligned_pos_le c k :
  cur_wf c -> 0 <= k <= 63 -> c_pos c <= aligned_pos c (2 ^ k) <= c_bits c.
Proof.
  intros [Hbr _ _] Hk. unfold aligned_pos. pose proof (wf_pos_le _ Hbr).
  pose proof (pow2_pos k). pose proof (round_up_bounds (c_pos c) (2 ^ k)). unfold c_pos, c_bits in *. lia.
Qed.

(** Alignment moves to [aligned_pos] and fails when that is past the content. *)
Lemma do_align_of_spec c k :
  cur_wf c -> 0 <= k <= 63 ->
  exists c',
    do_align_of (br_bo (c_br c)) (2 ^ k) c =
      ((if aligned_pos c (2 ^ k) >? content_end c then Err ACTF_NOT_ENOUGH_BITS else Ok tt), c') /\
    moved c c' (aligned_pos c (2 ^ k)) /\ c_pkt c' = c_pkt c.
Proof.
  intros Hc Hk. pose proof (aligned_pos_le c k Hc Hk) as Hle.
  destruct (align_of_spec (c_br c) k (cw_br _ Hc) Hk) as (br' & Hrun & Hwf' & [Hbo' Hmem'] & Ht').
  set (c' := mk_cursor br' (c_pkt c)).
  assert (Hmv : moved c c' (aligned_pos c (2 ^ k))) by (split_and!; done).
  pose proof (moved_wf c c' _ Hc Hmv ltac:(lia) eq_refl) as Hc'.
  exists c'. split; [|done].
  assert (Hd : do_align_of (br_bo (c_br c)) (2 ^ k) = do_alignm (align_of (br_bo (c_br c))) (2 ^ k))
    by (by destruct (br_bo (c_br c))).
  rewrite Hd. unfold do_alignm.
  assert (Hon : on_br (align_of (br_bo (c_br c)) (2 ^ k)) c = (Ok tt, c'))
    by (unfold on_br, st_zoom; by rewrite Hrun).
  rewrite (st_bind_ok _ _ _ _ _ Hon), (st_bind_ok st_get _ c' c' c') by done.
  rewrite (pkt_off_spec c' Hc'). destruct Hmv as (_ & _ & -> & _). cbn [c' c_pkt]. unfold content_end.
  destruct (Z.gtb_spec (aligned_pos c (2 ^ k) - bit_off (c_pkt c)) (content_len (c_pkt c)));
    destruct (Z.gtb_spec (aligned_pos c (2 ^ k)) (bit_off (c_pkt c) + content_len (c_pkt c))); (done || lia).
Qed.

Lemma do_align_spec c k :
  cur_wf c -> 0 <= k <= 63 ->
  exists c',
    do_align (2 ^ k) c =
      ((if aligned_pos c (2 ^ k) >? content_end c then Err ACTF_NOT_ENOUGH_BITS else Ok tt), c') /\
    moved c c' (aligned_pos c (2 ^ k)) /\ c_pkt c' = c_pkt c.
Proof.
  intros Hc Hk. destruct (do_align_of_spec c k Hc Hk) as (c' & Hrun & H). exists c'. split; [|done].
  unfold do_align, do_align_of in *. rewrite (st_bind_ok st_get _ c c c) by done. by destruct (br_bo (c_br c)).
Qed.

(** ** Decoding a bit array *)

Lemma reverse_ctf_bits bo mem p n :
  1 <= n <= 64 ->
  reverse_bits (ctf_bits bo mem p (Z.to_nat n)) n =
    fxd_value bo (match bo with ACTF_LIL_ENDIAN => ACTF_LAST_TO_FIRST | _ => ACTF_FIRST_TO_LAST end) mem p (Z.to_nat n).
Proof.
  intros Hn. pose proof (ctf_bits_range bo mem p (Z.to_nat n)) as Hr. rewrite Z2Nat.id in Hr by lia.
  assert (2 ^ n <= 2 ^ 64) by (apply Z.pow_le_mono_r; lia).
  bitwise i. rewrite testbit_reverse_bits, testbit_fxd_value, Z2Nat.id by (unfold is_u64; lia).
  destruct (Z.ltb_spec i n); [|done]. cbn [andb].
  destruct bo; rewrite ?testbit_ctf_bits_le, ?testbit_ctf_bits_be, Z2Nat.id by lia; zcmp; cbn; f_equal; lia.
Qed.

Lemma ctf_bits_value bo mem p n :
  0 <= n ->
  ctf_bits bo mem p (Z.to_nat n) =
    fxd_value bo (match bo with ACTF_LIL_ENDIAN => ACTF_FIRST_TO_LAST | _ => ACTF_LAST_TO_FIRST end) mem p (Z.to_nat n).
Proof.
  intros Hn. bitwise i. rewrite testbit_fxd_value by lia.
  destruct bo; rewrite ?testbit_ctf_bits_le, ?testbit_ctf_bits_be by lia; done.
Qed.

(** What decoding a bit array must return. *)
Definition fxd_spec (cls : fxd_len_bit_arr_fld_cls) (c : cursor) : outcome Z :=
  let p := aligned_pos c (align cls) in
  if content_end c <? p + len cls then Err ACTF_NOT_ENOUGH_BITS
  else if has_flag (c_pkt c) PKT_LAST_BO && negb (bool_decide (last_bo (c_pkt c) = bo cls)) &&
          negb (p mod 8 =? 0) then Err ACTF_MID_BYTE_ENDIAN_SWAP
  else if c_bits c <? p + len cls then Err ACTF_NOT_ENOUGH_BITS
  else Ok (fxd_value (bo cls) (bito cls) (c_mem c) p (Z.to_nat (len cls))).

(** The reader can switch to byte order [b] here. *)
Definition can_switch (c : cursor) (b : actf_byte_order) : Prop :=
  br_bo (c_br c) = b \/ c_pos c mod 8 = 0.

Lemma lookahead_mod8 br : br_wf br -> lookahead_bit_cnt br mod 8 = 0 <-> tot_bit_cnt br mod 8 = 0.
Proof. intros []. split; intros; zlia. Qed.

Lemma set_bo_spec c b :
  cur_wf c -> can_switch c b ->
  exists c', on_br (st_modify (breader_set_bo b)) c = (Ok tt, c') /\ cur_wf c' /\
    br_bo (c_br c') = b /\ c_mem c' = c_mem c /\ c_pos c' = c_pos c /\ c_pkt c' = c_pkt c.
Proof.
  intros [Hbr Hoff Hcl Htl] Hsw.
  destruct (breader_set_bo_wf (c_br c) b Hbr) as (Hwf & Hbo & Hmem & Ht & _).
  { destruct Hsw as [?|H]; [by left|right]. by apply lookahead_mod8. }
  exists (mk_cursor (breader_set_bo b (c_br c)) (c_pkt c)). unfold c_mem, c_pos. cbn.
  split_and!; try done. split; cbn; [done| |done..]. by rewrite Ht.
Qed.

Lemma same_mem_bits c c' : c_mem c' = c_mem c -> c_bits c' = c_bits c.
Proof. unfold c_bits, mem_bits, c_mem. by intros ->. Qed.

(** Switching to byte order [b] and aligning to [2 ^ k], by any program [m] that
    does the latter in that byte order; then [n]. *)
Lemma switch_align_spec {A} c b k (m : st cursor unit) (n : st cursor A) :
  cur_wf c -> can_switch c b -> 0 <= k <= 63 ->
  (forall c1, br_bo (c_br c1) = b -> m c1 = do_align_of b (2 ^ k) c1) ->
  exists c2, (on_br (st_modify (breader_set_bo b));; m;; n) c =
      (if aligned_pos c (2 ^ k) >? content_end c then (Err ACTF_NOT_ENOUGH_BITS, c2) else n c2) /\
    cur_wf c2 /\ c_mem c2 = c_mem c /\ br_bo (c_br c2) = b /\ c_pkt c2 = c_pkt c /\
    c_pos c2 = aligned_pos c (2 ^ k) /\ c_pos c <= aligned_pos c (2 ^ k).
Proof.
  intros Hc Hsw Hk Hm. destruct (set_bo_spec c b Hc Hsw) as (c1 & Hrun1 & Hc1 & Hbo1 & Hmem1 & Hpos1 & Hpk1).
  destruct (do_align_of_spec c1 k Hc1 Hk) as (c2 & Hrun2 & Hmv2 & Hpk2). rewrite Hbo1, <- Hm in Hrun2 by done.
  pose proof (aligned_pos_le c1 k Hc1 Hk) as Hle.
  pose proof (moved_wf _ _ _ Hc1 Hmv2 ltac:(lia) Hpk2) as Hc2. destruct Hmv2 as (_ & Hmem2 & Hpos2 & Hbo2).
  assert (Ha : aligned_pos c1 (2 ^ k) = aligned_pos c (2 ^ k))
    by (unfold aligned_pos; by rewrite Hpos1, (same_mem_bits _ _ Hmem1)).
  assert (He : content_end c1 = content_end c) by (unfold content_end; by rewrite Hpk1).
  rewrite Ha, He in *. exists c2. rewrite (st_bind_ok _ _ _ _ _ Hrun1). split.
  - destruct (_ >? _); [by apply st_bind_err|by rewrite (st_bind_ok _ _ _ _ _ Hrun2)].
  - split_and!; try done; try congruence; lia.
Qed.

Lemma read_fxd_cur c n :
  cur_wf c -> 1 <= n <= 64 ->
  let b := br_bo (c_br c) in
  exists c', on_br (read_fxd_bits b n) c =
      ((if c_pos c + n <=? c_bits c then Ok (ctf_bits b (c_mem c) (c_pos c) (Z.to_nat n)) else Err ACTF_NOT_ENOUGH_BITS), c') /\
    br_wf (c_br c') /\ c_mem c' = c_mem c /\ br_bo (c_br c') = b /\ c_pkt c' = c_pkt c /\ c_pos c <= c_pos c' /\
    (c_pos c + n <= c_bits c -> c_pos c' = c_pos c + n).
Proof.
  intros Hc Hn. cbv zeta. destruct (read_fxd_bits_spec (c_br c) n (cw_br _ Hc) Hn) as (br3 & Hrun & Hwf & [Hbo Hmem] & Hle & Hpos).
  exists (mk_cursor br3 (c_pkt c)). split; [unfold on_br, st_zoom; by rewrite Hrun|].
  unfold c_mem, c_pos. cbn. split_and!; (done || lia).
Qed.

Lemma fxd_len_bit_arr_decode_spec cls c :
  cur_wf c -> bit_arr_wf cls -> can_switch c (bo cls) ->
  exists c',
    fxd_len_bit_arr_decode cls c = (fxd_spec cls c, c') /\ br_wf (c_br c') /\ c_mem c' = c_mem c /\
    br_bo (c_br c') = bo cls /\ c_pos c <= c_pos c' /\
    match fxd_spec cls c with
    | Ok _ => c_pos c' = aligned_pos c (align cls) + len cls /\ c_pkt c' = set_last_bo (bo cls) (c_pkt c)
    | _ => c_pkt c' = c_pkt c
    end.
Proof.
  intros Hc [Hlen (k & Hk & Hal)] Hsw.
  assert (Hd : fxd_len_bit_arr_decode cls = fxd_len_bit_arr_decodem cls (bo cls))
    by (unfold fxd_len_bit_arr_decode; by destruct (bo cls)).
  rewrite Hd. unfold fxd_len_bit_arr_decodem, fxd_spec. rewrite Hal.
  rewrite (st_bind_ok (c_assert _) _ c tt c) by (apply c_assert_true; lia).
  match goal with |- context [(on_br _ ;; ?m ;; ?n) c] =>
    destruct (switch_align_spec c (bo cls) k m n Hc Hsw Hk ltac:(done)) as (c2 & -> & Hc2 & Hmem2 & Hbo2 & Hpk2 & Hpos2 & Hle) end.
  set (p := aligned_pos c (2 ^ k)) in *.
  assert (He : content_end c2 = content_end c) by (unfold content_end; by rewrite Hpk2).
  assert (Htriv : br_wf (c_br c2) /\ c_mem c2 = c_mem c /\ br_bo (c_br c2) = bo cls /\ c_pos c <= c_pos c2)
    by (split_and!; try done; [apply Hc2|lia]).
  destruct (Z.gtb_spec p (content_end c)) as [Hgt|Hle2].
  { exists c2. destruct (Z.ltb_spec (content_end c) (p + len cls)); [|lia]. by destruct Htriv as (?&?&?&?). }
  rewrite (st_bind_ok st_get _ c2 c2 c2) by done.
  rewrite (pkt_bits_remaining_spec c2 Hc2), He, (breader_byte_aligned_spec _ (cw_br _ Hc2)).
  fold (c_pos c2). rewrite Hpos2, Hpk2.
  destruct (Z.ltb_spec (Z.max 0 (content_end c - p)) (len cls)), (Z.ltb_spec (content_end c) (p + len cls)); try lia.
  { exists c2. by destruct Htriv as (?&?&?&?). }
  destruct (_ && _ && _) eqn:Emid; [exists c2; by destruct Htriv as (?&?&?&?)|].
  destruct (read_fxd_cur c2 (len cls) Hc2 Hlen) as (c3 & Hrun3 & Hwf3 & Hmem3 & Hbo3 & Hpk3 & Hle3 & Hpos3).
  rewrite Hbo2, Hpos2, Hmem2, (same_mem_bits c c2 Hmem2) in *.
  destruct (Z.leb_spec (p + len cls) (c_bits c)) as [Hfit|Hnofit], (Z.ltb_spec (c_bits c) (p + len cls)); try lia.
  - rewrite (st_bind_ok _ _ _ _ _ Hrun3). eexists. split; [|split_and!].
    + cbv [mbind st_bind mret st_ret st_modify]. f_equal. f_equal.
      unfold needs_reverse_bits_of, needs_reverse_bits_le, needs_reverse_bits_be.
      rewrite reverse_ctf_bits, ctf_bits_value by lia. destruct (bo cls), (bito cls); done.
    + done.
    + done.
    + done.
    + unfold c_pos in *. cbn. lia.
    + by apply Hpos3.
    + cbn. congruence.
  - rewrite (st_bind_err _ _ _ _ _ Hrun3). exists c3. split_and!; (done || congruence || lia).
Qed.

Lemma fxd_value_range bo bito mem p n : 0 <= fxd_value bo bito mem p n < 2 ^ Z.of_nat n.
Proof.
  assert (H0 : forall l, 0 <= bits_value l).
  { induction l as [|b l IH]; cbn; [done|]. destruct b; cbn; lia. }
  assert (Hge : 0 <= fxd_value bo bito mem p n) by (destruct bito; apply H0).
  split; [done|]. apply bits_bound; [lia|done|]. intros i Hi. rewrite testbit_fxd_value by lia.
  by destruct (Z.ltb_spec i (Z.of_nat n)); [lia|].
Qed.

Lemma has_flag_set_last_bo b p : has_flag (set_last_bo b p) PKT_LAST_BO = true.
Proof.
  unfold has_flag, set_last_bo, c_true, PKT_LAST_BO. cbn. destruct (Z.eqb_spec (Z.land (Z.lor (opt_flags p) 8) 8) 0) as [E|]; [|done].
  exfalso. apply (f_equal (fun x => Z.testbit x 3)) in E.
  rewrite Z.land_spec, Z.lor_spec in E. change (Z.testbit 8 3) with true in E.
  rewrite orb_true_r in E. discriminate.
Qed.

(** C25: Decoding a fixed-length bit array of a well-formed class at a place
    where its byte order can be read aligns the reader, returns the integer that
    the class's byte and bit order give to the next [len] bits of the data and
    moves past them; sign extension of that integer is its two's complement
    reading.  It fails with [ACTF_NOT_ENOUGH_BITS] exactly when the bits do not
    fit in the packet's content or in the data, and with
    [ACTF_MID_BYTE_ENDIAN_SWAP] exactly when the byte order changes inside a
    byte. *)
Theorem fxd_decode_correct cls c :
  cur_wf c -> bit_arr_wf cls -> can_switch c (bo cls) ->
  let '(r, c') := fxd_len_bit_arr_decode cls c in
  r = fxd_spec cls c /\ cur_wf c' /\ c_mem c' = c_mem c /\
  (forall v, r = Ok v ->
     c_pos c' = aligned_pos c (align cls) + len cls /\ 0 <= v < 2 ^ len cls /\
     i64 (sext v (len cls)) = wrap_signed (len cls) v /\
     last_bo (c_pkt c') = bo cls /\ has_flag (c_pkt c') PKT_LAST_BO = true) /\
  (forall rc, r = Err rc -> c_pkt c' = c_pkt c).
Proof.
  intros Hc Hwf Hsw.
  destruct (fxd_len_bit_arr_decode_spec cls c Hc Hwf Hsw) as (c' & -> & Hbr & Hmem & _ & Hle & Hres).
  split; [done|]. destruct Hc as [_ Hoff Hcl], Hwf as [Hlen _]. split; [|split; [done|]].
  { unfold c_pos in Hle. destruct (fxd_spec cls c); [destruct Hres as [_ Hpk]|..]; split; try done;
      rewrite ?Hpk, ?Hres; cbn; (done || lia). }
  split; [|intros rc E; by rewrite E in Hres].
  intros v E. rewrite E in Hres. destruct Hres as [Hpos Hpk].
  assert (Hv : 0 <= v < 2 ^ len cls).
  { unfold fxd_spec in E. repeat case_match; try done. injection E as <-.
    pose proof (fxd_value_range (bo cls) (bito cls) (c_mem c) (aligned_pos c (align cls)) (Z.to_nat (len cls))).
    by rewrite Z2Nat.id in * by lia. }
  rewrite Hpk. split_and!; try done; try lia; [by apply sext_spec|]. apply has_flag_set_last_bo.
Qed.

Definition zero_pkt_state : pkt_state :=
  mk_pkt_state 0 0 0 0 None 0 0 ACTF_LIL_ENDIAN 0 0 0 0 0.

(** The start of a packet that is the whole of [data]. *)
Definition start_of (data : list Z) : cursor :=
  mk_cursor (breader_init data (Z.of_nat (length data)) ACTF_LIL_ENDIAN) (pkt_state_init zero_pkt_state).

Lemma start_of_wf data :
  Forall is_byte data -> 8 * Z.of_nat (length data) <= 2 ^ 62 -> cur_wf (start_of data).
Proof.
  intros Hd Hl. split; cbn; [|lia|(unfold is_u64, UINT64_MAX; lia)..]. by apply breader_init_wf.
Qed.

Definition be12 : fxd_len_bit_arr_fld_cls := mk_bit_arr 12 ACTF_BIG_ENDIAN ACTF_LAST_TO_FIRST 8.

Example fxd_decode_correct_witness :
  fxd_spec be12 (start_of [0xab; 0xcd; 0xef]) = Ok 0xabc /\
  let '(r, c') := fxd_len_bit_arr_decode be12 (start_of [0xab; 0xcd; 0xef]) in
  r = fxd_spec be12 (start_of [0xab; 0xcd; 0xef]) /\ cur_wf c' /\ c_mem c' = [0xab; 0xcd; 0xef] /\
  (forall v, r = Ok v -> c_pos c' = aligned_pos (start_of [0xab; 0xcd; 0xef]) 8 + 12 /\ 0 <= v < 2 ^ 12 /\
     i64 (sext v 12) = wrap_signed 12 v /\
     last_bo (c_pkt c') = ACTF_BIG_ENDIAN /\ has_flag (c_pkt c') PKT_LAST_BO = true) /\
  (forall rc, r = Err rc -> c_pkt c' = c_pkt (start_of [0xab; 0xcd; 0xef])).
Proof.
  split; [reflexivity|]. apply (fxd_decode_correct be12).
  - apply start_of_wf; [repeat constructor; unfold is_byte; lia|cbn; lia].
  - split; [cbn; lia|]. exists 3. split; [lia|reflexivity].
  - right. reflexivity.
Defined.

(** The byte order is switched before the alignment: after a 4-bit
    little-endian field, an 8-bit big-endian field aligned to a byte is decoded
    as 0x25, nibbles of the first and the third byte, and not as the second
    byte 0x43, although the byte order changes on a byte boundary and the decoder
    reports no error. *)
Theorem switch_before_align_reads_garbage :
  let nibble := mk_bit_arr 4 ACTF_LIL_ENDIAN ACTF_FIRST_TO_LAST 1 in
  let byte := mk_bit_arr 8 ACTF_BIG_ENDIAN ACTF_LAST_TO_FIRST 8 in
  let c := start_of [0x21; 0x43; 0x65; 0x87] in
  fst ((_ ← fxd_len_bit_arr_decode nibble; fxd_len_bit_arr_decode byte) c) = Ok 0x25 /\
  fxd_spec byte (snd (fxd_len_bit_arr_decode nibble c)) = Ok 0x43.
Proof. split; vm_compute; reflexivity. Qed.

(** * Variable-length integers *)

(** ** Abstract specification *)

(** The value of 7-bit groups, the first one least significant. *)
Fixpoint leb_val (l : list Z) : Z :=
  match l with
  | [] => 0
  | b :: l' => b mod 128 + 128 * leb_val l'
  end.

(** The number of bytes at the start of [l] that announce another byte. *)
Fixpoint leb_more (l : list Z) : nat :=
  match l with
  | [] => O
  | b :: l' => if 128 <=? b then S (leb_more l') else O
  end.

Lemma leb_val_range l : 0 <= leb_val l < 2 ^ (7 * Z.of_nat (length l)).
Proof.
  induction l as [|b l IH]; [done|]. cbn [leb_val length].
  replace (7 * Z.of_nat (S (length l))) with (7 + 7 * Z.of_nat (length l)) by lia.
  rewrite Z.pow_add_r by lia. change (2 ^ 7) with 128. pose proof (Z.mod_pos_bound b 128). lia.
Qed.

Lemma leb_val_snoc l b :
  leb_val (l ++ [b]) = Z.lor (leb_val l) (Z.shiftl (b mod 128) (7 * Z.of_nat (length l))).
Proof.
  set (k := 7 * Z.of_nat (length l)).
  assert (E : leb_val (l ++ [b]) = leb_val l + Z.shiftl (b mod 128) k).
  { subst k. rewrite Z.shiftl_mul_pow2 by lia. induction l as [|a l IH]; [cbn; lia|].
    cbn [app leb_val length]. rewrite IH.
    replace (7 * Z.of_nat (S (length l))) with (7 + 7 * Z.of_nat (length l)) by lia.
    rewrite Z.pow_add_r by lia. change (2 ^ 7) with 128. lia. }
  rewrite E. pose proof (leb_val_range l) as Hr. fold k in Hr.
  rewrite Z.add_nocarry_lxor, <- Z.lxor_lor; [done| |]; bitwise i.
  all: destruct (Z.ltb_spec i k); [by rewrite (Z.testbit_neg_r _ (i - k)), andb_false_r by lia|].
  all: by rewrite (testbit_high k (leb_val l)) by lia.
Qed.

Lemma u64_lor a b : u64 (Z.lor a b) = Z.lor (u64 a) (u64 b).
Proof. bitwise i. by destruct (i <? 64). Qed.

Lemma leb_more_le l : (leb_more l <= length l)%nat.
Proof. induction l as [|b l IH]; cbn; [lia|]. case_match; lia. Qed.

Lemma leb_more_byte l j : (j < leb_more l)%nat -> exists b, l !! j = Some b /\ 128 <= b.
Proof.
  revert j. induction l as [|b l IH]; intros j Hj; cbn in *; [lia|].
  destruct (Z.leb_spec 128 b); [|lia]. destruct j as [|j]; [by exists b|]. apply IH. lia.
Qed.

Lemma leb_more_end l : (leb_more l < length l)%nat -> exists b, l !! leb_more l = Some b /\ b < 128.
Proof.
  induction l as [|b l IH]; intros Hl; cbn in *; [lia|].
  destruct (Z.leb_spec 128 b); [|by exists b]. apply IH. lia.
Qed.

(** ** Reading a byte *)

Lemma ctf_bits_low7 mem q :
  0 <= q -> Forall is_byte mem -> ctf_bits ACTF_LIL_ENDIAN mem (8 * q) 7 = byte_at mem q mod 128.
Proof.
  intros Hq Hm. bitwise i. change 128 with (2 ^ 7). rewrite testbit_ctf_bits_le, testbit_mod2 by lia.
  destruct (Z.ltb_spec i (Z.of_nat 7)); destruct (Z.ltb_spec i 7); try lia; cbn [andb]; try done.
  unfold bit_le. replace ((8 * q + i) / 8) with q by zlia. by replace ((8 * q + i) mod 8) with i by zlia.
Qed.

Lemma ctf_bits_bit7 mem q :
  0 <= q -> Forall is_byte mem ->
  c_true (ctf_bits ACTF_LIL_ENDIAN mem (8 * q + 7) 1) = (128 <=? byte_at mem q).
Proof.
  intros Hq Hm. cbn. unfold bit_le.
  replace ((8 * q + 7) / 8) with q by zlia. replace ((8 * q + 7) mod 8) with 7 by zlia.
  pose proof (byte_at_range mem q Hm) as Hb. unfold is_byte in Hb.
  assert (E : Z.testbit (byte_at mem q) 7 = (128 <=? byte_at mem q)).
  { rewrite Z.testbit_eqb by lia. change (2 ^ 7) with 128.
    destruct (Z.eqb_spec (byte_at mem q / 128 mod 2) 1); destruct (Z.leb_spec 128 (byte_at mem q)); zlia. }
  rewrite E. by destruct (128 <=? byte_at mem q).
Qed.

Lemma breader_peek_spec br n :
  br_wf br -> 1 <= n <= lookahead_bit_cnt br ->
  breader_peek n br = (Ok (ctf_bits (br_bo br) (br_mem br) (tot_bit_cnt br) (Z.to_nat n)), br).
Proof.
  intros Hwf Hn. pose proof (peek_of_spec br n Hwf Hn) as Hp. unfold breader_peek.
  rewrite (st_bind_ok st_get _ br br br) by done.
  rewrite (st_bind_ok (c_assert _) _ br tt br) by (apply c_assert_true; lia).
  by destruct (br_bo br).
Qed.

Lemma breader_consume_spec br n :
  br_wf br -> 0 <= n <= lookahead_bit_cnt br ->
  exists br', breader_consume n br = (Ok tt, br') /\ at_pos br br' (tot_bit_cnt br + n) /\
    lookahead_bit_cnt br' = lookahead_bit_cnt br - n.
Proof.
  intros Hwf Hn. destruct (consume_of_spec br n Hwf Hn) as (br' & Hrun & Hat & Hc & _).
  exists br'. split; [|done]. unfold breader_consume.
  rewrite (st_bind_ok st_get _ br br br) by done.
  rewrite (st_bind_ok (c_assert _) _ br tt br) by (apply c_assert_true; lia).
  by destruct (br_bo br).
Qed.

(** The bytes of the data from the position of the reader. *)
Definition rest_bytes (br : breader) : list Z := drop (Z.to_nat (tot_bit_cnt br / 8)) (br_mem br).

Lemma var_len_inner_step n br result shift :
  br_wf br -> br_bo br = ACTF_LIL_ENDIAN -> tot_bit_cnt br mod 8 = 0 -> 8 <= lookahead_bit_cnt br ->
  shift < 64 ->
  let b := byte_at (br_mem br) (tot_bit_cnt br / 8) in
  let result' := Z.lor result (u64 (Z.shiftl (b mod 128) shift)) in
  exists br', at_pos br br' (tot_bit_cnt br + 8) /\ lookahead_bit_cnt br' = lookahead_bit_cnt br - 8 /\
    var_len_inner (S n) result shift br =
      if 128 <=? b then var_len_inner n result' (shift + 7) br' else (Ok (result', shift + 7, true), br').
Proof.
  intros Hwf Hbo Hal Hla Hsh b result'. pose proof (wf_bytes _ Hwf) as Hbytes.
  assert (Hq : tot_bit_cnt br = 8 * (tot_bit_cnt br / 8)) by zlia. pose proof (wf_pos _ Hwf).
  assert (Hq0 : 0 <= tot_bit_cnt br / 8) by zlia.
  cbn [var_len_inner].
  rewrite (st_bind_ok _ _ _ _ _ (breader_peek_spec br 7 Hwf ltac:(lia))).
  rewrite (st_bind_ok (c_assert _) _ br tt br) by (apply c_assert_true; lia).
  destruct (breader_consume_spec br 7 Hwf ltac:(lia)) as (br1 & Hrun1 & (Hwf1 & [Hbo1 Hmem1] & Ht1) & Hc1).
  rewrite (st_bind_ok _ _ _ _ _ Hrun1).
  rewrite (st_bind_ok _ _ _ _ _ (breader_peek_spec br1 1 Hwf1 ltac:(lia))).
  destruct (breader_consume_spec br1 1 Hwf1 ltac:(lia)) as (br2 & Hrun2 & (Hwf2 & [Hbo2 Hmem2] & Ht2) & Hc2).
  rewrite (st_bind_ok _ _ _ _ _ Hrun2). exists br2.
  split; [split_and!; [done|split; congruence|lia]|]. split; [lia|].
  rewrite Hbo1, Hbo, Hmem1, Ht1. change (Z.to_nat 7) with 7%nat. change (Z.to_nat 1) with 1%nat.
  pose proof (ctf_bits_low7 (br_mem br) _ Hq0 Hbytes) as Hlow.
  pose proof (ctf_bits_bit7 (br_mem br) _ Hq0 Hbytes) as Hbit.
  rewrite <- Hq in Hlow, Hbit. rewrite Hlow, Hbit. by destruct (128 <=? _).
Qed.

(** ** The loops

    [bs] are the bytes of the data from the first byte of the integer, [B] its
    offset; the loops run with the first [j] of them read. *)
Section VarLen.
Context (mem : list Z) (B : Z) (bs : list Z).
Hypotheses (HB : 0 <= B) (Hbs : bs = drop (Z.to_nat B) mem).

(** The reader after [j] bytes. *)
Record at_byte (br : breader) (j : nat) : Prop := {
  ab_wf : br_wf br;
  ab_bo : br_bo br = ACTF_LIL_ENDIAN;
  ab_mem : br_mem br = mem;
  ab_pos : tot_bit_cnt br = 8 * (B + Z.of_nat j)
}.

Definition partial (j : nat) : Z := u64 (leb_val (take j bs)).

Lemma byte_bs j b : bs !! j = Some b -> byte_at mem (B + Z.of_nat j) = b.
Proof.
  rewrite Hbs, lookup_drop. intros E. unfold byte_at. destruct (Z.ltb_spec (B + Z.of_nat j) 0); [lia|].
  rewrite nth_lookup. replace (Z.to_nat (B + Z.of_nat j)) with (Z.to_nat B + j)%nat by lia. by rewrite E.
Qed.

Lemma partial_snoc j b :
  bs !! j = Some b ->
  partial (S j) = Z.lor (partial j) (u64 (Z.shiftl (b mod 128) (7 * Z.of_nat j))).
Proof.
  intros E. unfold partial. pose proof (lookup_lt_Some _ _ _ E).
  rewrite (take_S_r _ _ _ E), leb_val_snoc, u64_lor, length_take. by rewrite Nat.min_l by lia.
Qed.

Lemma at_byte_la br j : at_byte br j -> 0 <= lookahead_bit_cnt br <= 8 * (Z.of_nat (length bs) - Z.of_nat j).
Proof.
  intros [Hwf _ Hmem Hpos]. rewrite Hbs, length_drop. destruct Hwf. unfold mem_bits in *.
  rewrite Hmem in *. lia.
Qed.

Lemma var_len_inner_spec n br j :
  at_byte br j -> 8 * Z.of_nat n <= lookahead_bit_cnt br -> (j <= leb_more bs)%nat -> (j <= 10)%nat ->
  let e := Nat.min (j + n) (S (leb_more bs)) in
  if (e <=? 10)%nat then
    exists br', var_len_inner n (partial j) (7 * Z.of_nat j) br =
      (Ok (partial e, 7 * Z.of_nat e, (leb_more bs <? j + n)%nat), br') /\ at_byte br' e
  else exists br', var_len_inner n (partial j) (7 * Z.of_nat j) br = (Undef, br').
Proof.
  revert br j. induction n as [|n IH]; intros br j Hab Hla Hj H10 e.
  { assert (He : e = j) by (subst e; lia). rewrite He. destruct (Nat.leb_spec j 10); [|lia].
    exists br. split; [|done]. destruct (Nat.ltb_spec (leb_more bs) (j + 0)); [lia|done]. }
  pose proof (at_byte_la br j Hab) as Hrest.
  destruct (lookup_lt_is_Some_2 bs j) as [b Eb]; [lia|].
  destruct Hab as [Hwf Hbo Hmem Hpos].
  destruct (decide (j = 10%nat)) as [->|].
  { destruct (Nat.leb_spec e 10); [lia|]. eexists. cbn [var_len_inner].
    rewrite (st_bind_ok _ _ _ _ _ (breader_peek_spec br 7 Hwf ltac:(lia))). reflexivity. }
  assert (Hq : tot_bit_cnt br / 8 = B + Z.of_nat j) by zlia.
  destruct (var_len_inner_step n br (partial j) (7 * Z.of_nat j) Hwf Hbo ltac:(zlia) ltac:(lia) ltac:(lia))
    as (br' & (Hwf' & [Hbo' Hmem'] & Ht') & Hla' & Hrun).
  rewrite Hmem, Hq, (byte_bs j b Eb), <- (partial_snoc j b Eb) in Hrun.
  replace (7 * Z.of_nat j + 7) with (7 * Z.of_nat (S j)) in Hrun by lia. rewrite Hrun.
  assert (Hab' : at_byte br' (S j)) by (split; [done|congruence|congruence|lia]).
  destruct (Z.leb_spec 128 b) as [Hmore|Hlast].
  - assert (Hj' : (S j <= leb_more bs)%nat).
    { destruct (decide (j = leb_more bs)) as [->|]; [|lia].
      destruct (leb_more_end bs) as (b' & Eb' & Hb'); [by apply lookup_lt_Some in Eb|].
      rewrite Eb in Eb'. injection Eb' as ->. lia. }
    specialize (IH br' (S j) Hab' ltac:(lia) Hj' ltac:(lia)). cbn zeta in IH.
    replace (S j + n)%nat with (j + S n)%nat in IH by lia. exact IH.
  - assert (Hj' : j = leb_more bs).
    { destruct (decide (j = leb_more bs)) as [|]; [done|].
      destruct (leb_more_byte bs j) as (b' & Eb' & Hb'); [lia|]. rewrite Eb in Eb'. injection Eb' as ->. lia. }
    assert (He : e = S j) by (subst e; lia). rewrite He. destruct (Nat.leb_spec (S j) 10); [|lia].
    exists br'. split; [|done]. destruct (Nat.ltb_spec (leb_more bs) (j + S n)); [done|lia].
Qed.

Lemma breader_refill_spec br :
  br_wf br ->
  exists br', breader_refill br = (Ok (lookahead_bit_cnt br'), br') /\
    at_pos br br' (tot_bit_cnt br) /\
    Z.min 56 (mem_bits br - tot_bit_cnt br) <= lookahead_bit_cnt br' /\
    lookahead_bit_cnt br' mod 8 = lookahead_bit_cnt br mod 8.
Proof.
  intros Hwf. destruct (refill_of_spec br Hwf) as (br' & Hrun & Hat & H1 & _ & H3).
  exists br'. split; [|done]. unfold breader_refill, refill_of in *.
  rewrite (st_bind_ok st_get _ br br br) by done. by destruct (br_bo br).
Qed.

(** What the loop must return, given the end of the packet's content. *)
Definition var_len_result (content_end : Z) : outcome (Z * Z) :=
  let m := leb_more bs in
  if (m <? length bs)%nat && (8 * (B + Z.of_nat (S m)) <=? content_end)
  then Ok (partial (S m), MIN (7 * Z.of_nat (S m)) 64) else Err ACTF_NOT_ENOUGH_BITS.

(** [r] and [c'] are right for the loop started at [c]: the specified result when
    the integer has at most ten bytes or the data end before, and undefined when
    an eleventh byte is read. *)
Record var_len_ok (c : cursor) (r : outcome (Z * Z)) (c' : cursor) : Prop := {
  vo_pkt : c_pkt c' = c_pkt c;
  vo_short : (leb_more bs < 10 \/ length bs <= 10)%nat ->
    r = var_len_result (content_end c) /\ br_wf (c_br c') /\ c_mem c' = mem /\
    br_bo (c_br c') = ACTF_LIL_ENDIAN /\ c_pos c <= c_pos c' /\
    (forall v, r = Ok v -> c_pos c' = 8 * (B + Z.of_nat (S (leb_more bs))));
  vo_long : (10 <= leb_more bs)%nat -> (11 <= length bs)%nat -> 8 * (B + 11) <= content_end c -> r = Undef
}.

(** The loop ends at a byte of the integer or at the end of the data. *)
Lemma var_len_ends c c' r e :
  at_byte (c_br c') e -> c_pkt c' = c_pkt c -> c_pos c <= c_pos c' -> r = var_len_result (content_end c) ->
  (forall v, r = Ok v -> e = S (leb_more bs)) ->
  ((length bs <= leb_more bs)%nat /\ length bs = e \/ content_end c < 8 * (B + Z.of_nat e) + 8 \/ (leb_more bs < 10)%nat) ->
  (e <= 10)%nat -> var_len_ok c r c'.
Proof.
  intros [Hwf Hbo Hmem Hpos] Hpk Hle Hr Hok Hend He. split; [done| |lia].
  intros _. split_and!; try done. intros v Ev. rewrite <- (Hok v Ev). unfold c_pos. lia.
Qed.

Lemma var_len_fails c :
  (length bs <= leb_more bs)%nat \/ content_end c < 8 * (B + Z.of_nat (S (leb_more bs))) ->
  Err ACTF_NOT_ENOUGH_BITS = var_len_result (content_end c).
Proof.
  intros H. unfold var_len_result.
  destruct (Nat.ltb_spec (leb_more bs) (length bs)), (Z.leb_spec (8 * (B + Z.of_nat (S (leb_more bs)))) (content_end c)); try done. lia.
Qed.

Lemma refill_at_byte c j : cur_wf c -> at_byte (c_br c) j ->
  exists br1, on_br breader_refill c = (Ok (lookahead_bit_cnt br1), mk_cursor br1 (c_pkt c)) /\ at_byte br1 j /\
    Z.min 56 (mem_bits (c_br c) - tot_bit_cnt (c_br c)) <= lookahead_bit_cnt br1 /\
    lookahead_bit_cnt br1 mod 8 = lookahead_bit_cnt (c_br c) mod 8.
Proof.
  intros Hc [Hwf Hbo Hmem Hpos]. destruct (breader_refill_spec (c_br c) (cw_br _ Hc)) as (br1 & Hrun1 & (Hwf1 & [Hbo1 Hmem1] & Ht1) & Hav & Hal).
  exists br1. split; [unfold on_br, st_zoom; by rewrite Hrun1|]. split; [split; [done|congruence|congruence|lia]|done].
Qed.

Lemma var_len_outer_spec fuel c j :
  cur_wf c -> at_byte (c_br c) j -> (j <= leb_more bs)%nat -> (j <= 10)%nat -> (10 < fuel + j)%nat ->
  exists r c', var_len_outer fuel (partial j) (7 * Z.of_nat j) c = (r, c') /\ var_len_ok c r c'.
Proof.
  revert c j. induction fuel as [|fuel IH]; intros c j Hc Hab Hj H10 Hf; [lia|]. cbn [var_len_outer].
  destruct (refill_at_byte c j Hc Hab) as (br1 & Hon1 & Hab1 & Hav & Hal). set (c1 := mk_cursor br1 (c_pkt c)) in *.
  rewrite (st_bind_ok _ _ _ _ _ Hon1). destruct Hab as [Hwf Hbo Hmem Hpos]. pose proof Hab1 as [Hwf1 _ _ Hpos1].
  pose proof (at_byte_la br1 j Hab1) as Hla1. pose proof (leb_more_le bs) as Hml.
  assert (Hm8 : lookahead_bit_cnt br1 mod 8 = 0) by (rewrite Hal; apply lookahead_mod8; [done|zlia]).
  assert (Hrest : mem_bits (c_br c) - tot_bit_cnt (c_br c) = 8 * Z.of_nat (length mem) - 8 * (B + Z.of_nat j))
    by (unfold mem_bits; rewrite Hmem; lia).
  assert (Hlen : Z.of_nat (length bs) = Z.max 0 (Z.of_nat (length mem) - B)) by (rewrite Hbs, length_drop; lia).
  assert (Hcpos : c_pos c = 8 * (B + Z.of_nat j)) by (unfold c_pos; lia).
  unfold c_true. destruct (Z.eqb_spec (lookahead_bit_cnt br1) 0) as [E0|NE0]; cbn [negb].
  { eexists _, c1. split; [done|]. apply (var_len_ends _ _ _ j); try done; try lia; [unfold c_pos; cbn; lia|].
    apply var_len_fails. lia. }
  set (n := Z.to_nat ((lookahead_bit_cnt br1 + 7) / 8)).
  assert (Hn : 8 * Z.of_nat n = lookahead_bit_cnt br1) by (subst n; zlia).
  pose proof (var_len_inner_spec n br1 j Hab1 ltac:(lia) Hj H10) as Hin. cbn zeta in Hin.
  set (e := Nat.min (j + n) (S (leb_more bs))) in *.
  destruct (Nat.leb_spec e 10) as [He|He].
  2: { destruct Hin as (br2 & Hrun2). exists Undef, (mk_cursor br2 (c_pkt c)).
       split; [unfold on_br; unfold mbind at 1, st_bind at 1; unfold st_zoom; cbn [c_br c1]; by rewrite Hrun2|].
       split; [done|lia|done]. }
  destruct Hin as (br2 & Hrun2 & Hab2). set (c2 := mk_cursor br2 (c_pkt c)).
  assert (Hon2 : on_br (var_len_inner n (partial j) (7 * Z.of_nat j)) c1 =
    (Ok (partial e, 7 * Z.of_nat e, (leb_more bs <? j + n)%nat), c2))
    by (unfold on_br, st_zoom; cbn [c_br c1]; by rewrite Hrun2).
  rewrite (st_bind_ok _ _ _ _ _ Hon2), (st_bind_ok st_get _ c2 c2 c2) by done.
  assert (Hcpos2 : c_pos c2 = 8 * (B + Z.of_nat e)) by (destruct Hab2; unfold c_pos; cbn; lia).
  assert (Hc2 : cur_wf c2) by (destruct Hab2, Hc as [_ Ho Hcl Ht]; split; cbn in *; [done|lia|done|done]).
  rewrite (pkt_bits_remaining_spec c2 Hc2), (pkt_off_spec c2 Hc2), Hcpos2.
  change (content_end c2) with (content_end c). cbn [c2 c_pkt].
  assert (Hce : content_end c = bit_off (c_pkt c) + content_len (c_pkt c)) by done.
  destruct (Nat.ltb_spec (leb_more bs) (j + n)) as [Hfin|Hnfin]; cbn [negb andb orb].
  - assert (Ee : e = S (leb_more bs)) by lia. exists (var_len_result (content_end c)), c2.
    split; [|apply (var_len_ends _ _ _ e); try done; lia].
    unfold var_len_result. rewrite <- Ee. destruct (Nat.ltb_spec (leb_more bs) (length bs)); [|lia]. cbn [andb].
    destruct (Z.gtb_spec (8 * (B + Z.of_nat e) - bit_off (c_pkt c)) (content_len (c_pkt c))),
      (Z.leb_spec (8 * (B + Z.of_nat e)) (content_end c)); try done; lia.
  - rewrite orb_false_r. destruct (Z.ltb_spec (Z.max 0 (content_end c - 8 * (B + Z.of_nat e))) 8) as [Hlt|Hge].
    + eexists _, c2. split; [done|]. apply (var_len_ends _ _ _ e); try done; try lia. apply var_len_fails. lia.
    + destruct (IH c2 e Hc2 Hab2 ltac:(lia) He ltac:(lia)) as (r & c' & Hrun & [Hpk H1 H2]).
      exists r, c'. split; [exact Hrun|]. split; [done| |done].
      intros Hs. destruct (H1 Hs) as (? & ? & ? & ? & ? & ?). split_and!; (done || lia).
Qed.
End VarLen.

(** The bytes of the data from the byte at or after the reader. *)
Definition next_bytes (c : cursor) : list Z := drop (Z.to_nat (aligned_pos c 8 / 8)) (c_mem c).

Lemma aligned_pos_byte c : cur_wf c -> aligned_pos c 8 mod 8 = 0.
Proof.
  intros _. unfold aligned_pos, c_bits, mem_bits. pose proof (round_up_multiple (c_pos c) 8 ltac:(lia)).
  destruct (Z.min_spec (round_up (c_pos c) 8) (8 * Z.of_nat (length (br_mem (c_br c))))) as [[_ ->]|[_ ->]]; zlia.
Qed.

Lemma aligned_pos_le8 c : cur_wf c -> c_pos c <= aligned_pos c 8 <= c_bits c.
Proof. intros Hc. apply (aligned_pos_le c 3 Hc). lia. Qed.

Lemma var_len_int_decode_spec c :
  cur_wf c -> can_switch c ACTF_LIL_ENDIAN ->
  let bs := next_bytes c in
  exists r c', fld_cls_var_len_int_decode 8 c = (r, c') /\ c_pkt c' = c_pkt c /\
    (content_end c < aligned_pos c 8 -> r = Err ACTF_NOT_ENOUGH_BITS) /\
    ((leb_more bs < 10 \/ length bs <= 10)%nat ->
       r = var_len_result (aligned_pos c 8 / 8) bs (content_end c) /\ br_wf (c_br c') /\
       c_mem c' = c_mem c /\ br_bo (c_br c') = ACTF_LIL_ENDIAN /\ c_pos c <= c_pos c' /\
       (forall v, r = Ok v -> c_pos c' = aligned_pos c 8 + 8 * Z.of_nat (S (leb_more bs)))) /\
    ((10 <= leb_more bs)%nat -> (11 <= length bs)%nat -> aligned_pos c 8 + 88 <= content_end c -> r = Undef).
Proof.
  intros Hc Hsw bs. unfold fld_cls_var_len_int_decode. pose proof (aligned_pos_byte c Hc) as Hal.
  match goal with |- context [(on_br _ ;; ?m ;; ?n) c] =>
    destruct (switch_align_spec c ACTF_LIL_ENDIAN 3 m n Hc Hsw ltac:(lia)) as (c2 & -> & Hc2 & Hmem2 & Hbo2 & Hpk2 & Hpos2 & Hle) end.
  { intros c1 Hb. unfold do_align. rewrite (st_bind_ok st_get _ c1 c1 c1), Hb by done. done. }
  change (2 ^ 3) with 8 in *.
  assert (He : content_end c2 = content_end c) by (unfold content_end; by rewrite Hpk2).
  assert (Hshort : content_end c < aligned_pos c 8 + 8 ->
    Err ACTF_NOT_ENOUGH_BITS = var_len_result (aligned_pos c 8 / 8) bs (content_end c))
    by (intros Hs; apply var_len_fails; zlia).
  assert (Hwf2 : br_wf (c_br c2)) by apply Hc2.
  destruct (Z.gtb_spec (aligned_pos c 8) (content_end c)).
  { eexists _, c2. split; [done|]. split; [done|]. split; [done|]. split; [|lia].
    intros _. split_and!; try done; try lia. apply Hshort. lia. }
  rewrite (st_bind_ok st_get _ c2 c2 c2) by done. rewrite (pkt_bits_remaining_spec c2 Hc2), He, Hpos2.
  destruct (Z.ltb_spec (Z.max 0 (content_end c - aligned_pos c 8)) 8).
  { eexists _, c2. split; [done|]. split; [done|]. split; [done|]. split; [|lia].
    intros _. split_and!; try done; try lia. apply Hshort. lia. }
  destruct (var_len_outer_spec (c_mem c) (aligned_pos c 8 / 8) bs) with (fuel := 12%nat) (c := c2) (j := 0%nat)
    as (r & c' & Hrun & [Hpk H1 H2]); try done; try lia.
  { pose proof (wf_pos_le _ (cw_br _ Hc)). unfold c_pos in *. zlia. }
  { split; [done|done|done|]. unfold c_pos in Hpos2. zlia. }
  exists r, c'. split; [exact Hrun|]. split; [congruence|]. split; [lia|]. rewrite He in *.
  split; [|intros ? ? ?; apply H2; [done|done|zlia]].
  intros Hs. destruct (H1 Hs) as (? & ? & ? & ? & ? & Hp). split_and!; try done; [lia|].
  intros v Ev. rewrite (Hp v Ev). zlia.
Qed.

(** C26: Decoding a variable-length integer of at most ten bytes, from a byte boundary
    or with a reader that is already little-endian ([can_switch]: the byte order is
    switched before the reader aligns, which inside a byte garbles what it holds),
    reads bytes from the next byte boundary up to the first one below 128 and returns the
    sum of their low seven bits, least significant group first, modulo 2^64,
    with the number of bits read, at most 64; it fails with
    [ACTF_NOT_ENOUGH_BITS] exactly when that last byte is missing or past the
    packet's content. *)
Theorem var_len_int_decode_correct c :
  cur_wf c -> can_switch c ACTF_LIL_ENDIAN ->
  let bs := next_bytes c in
  let n := S (leb_more bs) in
  (n <= 10 \/ length bs <= 10)%nat ->
  let '(r, c') := fld_cls_var_len_int_decode 8 c in
  cur_wf c' /\ c_mem c' = c_mem c /\
  r = (if (n <=? length bs)%nat && (aligned_pos c 8 + 8 * Z.of_nat n <=? content_end c)
       then Ok (u64 (leb_val (take n bs)), Z.min (7 * Z.of_nat n) 64) else Err ACTF_NOT_ENOUGH_BITS) /\
  (forall v, r = Ok v -> c_pos c' = aligned_pos c 8 + 8 * Z.of_nat n).
Proof.
  intros Hc Hsw bs n Hn.
  destruct (var_len_int_decode_spec c Hc Hsw) as (r & c' & -> & Hpk & _ & H1 & _).
  destruct H1 as (-> & Hwf & Hmem & _ & Hle & Hp); [fold bs; lia|].
  split; [destruct Hc as [_ Ho Hcl Ht]; unfold c_pos in *; split; rewrite ?Hpk; (done || lia)|].
  split; [done|]. split; [|exact Hp].
  unfold var_len_result. fold bs n. rewrite MIN_spec. pose proof (aligned_pos_byte c Hc).
  replace (8 * (aligned_pos c 8 / 8 + Z.of_nat n)) with (aligned_pos c 8 + 8 * Z.of_nat n) by zlia.
  destruct (Nat.ltb_spec (leb_more bs) (length bs)); destruct (Nat.leb_spec n (length bs)); (done || lia).
Qed.

Example var_len_int_decode_correct_witness :
  cur_wf (start_of [0xe5; 0x8e; 0x26]) /\
  let '(r, c') := fld_cls_var_len_int_decode 8 (start_of [0xe5; 0x8e; 0x26]) in
  cur_wf c' /\ c_mem c' = [0xe5; 0x8e; 0x26] /\ r = Ok (624485, 21) /\
  (forall v, r = Ok v -> c_pos c' = 24).
Proof.
  assert (Hc : cur_wf (start_of [0xe5; 0x8e; 0x26]))
    by (apply start_of_wf; [repeat constructor; unfold is_byte; lia|cbn; lia]).
  split; [exact Hc|]. apply (var_len_int_decode_correct _ Hc).
  - left. reflexivity.
  - left. vm_compute. lia.
Defined.

(** A variable-length integer of more than ten bytes inside the packet's
    content has no defined result: the eleventh group is shifted by 70, beyond
    the width of [uint64_t], although the result is meant to be truncated to 64
    bits. *)
Theorem var_len_int_overlong_undefined c :
  cur_wf c -> can_switch c ACTF_LIL_ENDIAN ->
  (10 <= leb_more (next_bytes c))%nat -> (11 <= length (next_bytes c))%nat ->
  aligned_pos c 8 + 88 <= content_end c ->
  fst (fld_cls_var_len_int_decode 8 c) = Undef.
Proof.
  intros Hc Hsw Hm Hl Hce. destruct (var_len_int_decode_spec c Hc Hsw) as (r & c' & -> & _ & _ & _ & H). by apply H.
Qed.

Example var_len_int_overlong_undefined_witness :
  fst (fld_cls_var_len_int_decode 8 (start_of (repeat 0x80 10 ++ [0]))) = Undef.
Proof.
  apply var_len_int_overlong_undefined.
  - apply start_of_wf; [repeat constructor; unfold is_byte; lia|cbn; lia].
  - left. reflexivity.
  - vm_compute. lia.
  - vm_compute. lia.
  - vm_compute. discriminate.
Defined.

(** * Null terminators *)

(** Code point [i] of the string at [ptr] is all zero. *)
Definition zero_codepoint (mem : list Z) (ptr sz i : Z) : Prop :=
  forall j, 0 <= j < sz -> byte_at mem (ptr + sz * i + j) = 0.

Lemma mem_read_ok mem i : 0 <= i < Z.of_nat (length mem) -> mem_read mem i = Ok (byte_at mem i).
Proof. intros. unfold mem_read. zcmp. done. Qed.

Lemma all_zero_spec mem p n :
  0 <= p -> p + Z.of_nat n <= Z.of_nat (length mem) ->
  exists b, all_zero mem p n = Ok b /\ (b = true <-> forall j, 0 <= j < Z.of_nat n -> byte_at mem (p + j) = 0).
Proof.
  revert p. induction n as [|n IH]; intros p Hp Hl; cbn [all_zero].
  { exists true. split; [done|]. split; [lia|done]. }
  rewrite mem_read_ok by lia. destruct (Z.eqb_spec (byte_at mem p) 0) as [E|NE].
  - destruct (IH (p + 1)) as (b & Hb & Hiff); [lia|lia|]. exists b. split; [done|]. rewrite Hiff.
    split; intros H j Hj.
    + destruct (Z.eq_dec j 0) as [->|]; [by rewrite Z.add_0_r|].
      replace (p + j) with (p + 1 + (j - 1)) by lia. apply H. lia.
    + replace (p + 1 + j) with (p + (j + 1)) by lia. apply H. lia.
  - exists false. split; [done|]. split; [done|]. intros H. destruct NE. specialize (H 0 ltac:(lia)).
    by rewrite Z.add_0_r in H.
Qed.

(** A search for the first all-zero code point from code point [i]. *)
Definition first_null (mem : list Z) (ptr n_bytes sz i : Z) (r : outcome (option Z)) : Prop :=
  match r with
  | Ok (Some t) => exists k, i <= k /\ sz * (k + 1) <= n_bytes /\ t = ptr + sz * (k + 1) - 1 /\
      zero_codepoint mem ptr sz k /\ forall k', i <= k' < k -> ~ zero_codepoint mem ptr sz k'
  | Ok None => forall k, i <= k -> sz * (k + 1) <= n_bytes -> ~ zero_codepoint mem ptr sz k
  | _ => False
  end.

Lemma first_null_next mem ptr n sz i r :
  ~ zero_codepoint mem ptr sz i -> first_null mem ptr n sz (i + 1) r -> first_null mem ptr n sz i r.
Proof.
  intros Hnz H. destruct r as [[t|]|rc|]; cbn in *; try done.
  - destruct H as (k & Hk & Hn & Ht & Hz & Hmin). exists k. split_and!; try done; [lia|].
    intros k' Hk'. destruct (decide (k' = i)) as [->|]; [done|]. apply Hmin. lia.
  - intros k Hk Hn. destruct (decide (k = i)) as [->|]; [done|]. apply H; lia.
Qed.

Lemma memchr0_spec mem ptr n i :
  0 <= ptr -> 0 <= i -> ptr + i + Z.of_nat n <= Z.of_nat (length mem) ->
  first_null mem ptr (i + Z.of_nat n) 1 i (memchr0 mem (ptr + i) n).
Proof.
  revert i. induction n as [|n IH]; intros i Hp Hi Hl; cbn [memchr0].
  { cbn. intros k ? ?. lia. }
  rewrite mem_read_ok by lia. destruct (Z.eqb_spec (byte_at mem (ptr + i)) 0) as [E|NE].
  - cbn. exists i. split_and!; try lia. intros j Hj. rewrite <- E. f_equal. lia.
  - apply first_null_next.
    { intros Hz. destruct NE. rewrite <- (Hz 0 ltac:(lia)). f_equal. lia. }
    specialize (IH (i + 1) Hp ltac:(lia) ltac:(lia)).
    replace (ptr + i + 1) with (ptr + (i + 1)) by lia.
    replace (i + Z.of_nat (S n)) with (i + 1 + Z.of_nat n) by lia. done.
Qed.

Lemma find_wide_null_spec fuel mem ptr n sz i :
  0 <= ptr -> 1 <= sz -> 0 <= i -> n mod sz = 0 -> ptr + n <= Z.of_nat (length mem) ->
  n <= Z.of_nat fuel + sz * i ->
  first_null mem ptr n sz i (find_wide_null fuel mem ptr n sz (sz * i)).
Proof.
  intros Hp Hsz. revert i. induction fuel as [|fuel IH]; intros i Hi Hmod Hl Hf; cbn [find_wide_null].
  { cbn. intros k ? ?. nia. }
  destruct (Z.ltb_spec (sz * i) n) as [Hlt|Hge].
  2: { cbn. intros k ? ?. nia. }
  assert (Hroom : sz * (i + 1) <= n).
  { apply Z.mod_divide in Hmod as [q Hq]; [|lia].
    assert (i < q) by (apply (Z.mul_lt_mono_pos_l sz); lia).
    rewrite Hq, (Z.mul_comm q). apply Z.mul_le_mono_nonneg_l; lia. }
  destruct (all_zero_spec mem (ptr + sz * i) (Z.to_nat sz)) as (b & Hb & Hiff); [nia|nia|].
  rewrite Hb, Z2Nat.id in * by lia. destruct b.
  - cbn. exists i. split_and!; try lia. exact (proj1 Hiff eq_refl).
  - apply first_null_next; [intros Hz; apply Hiff in Hz; discriminate|].
    replace (sz * i + sz) with (sz * (i + 1)) by lia. apply IH; lia.
Qed.

Lemma codepoint_size_pos enc : 1 <= actf_encoding_to_codepoint_size enc.
Proof. destruct enc; cbn; lia. Qed.

Lemma find_null_term_spec mem ptr n enc :
  0 <= ptr -> 0 <= n -> ptr + n <= Z.of_nat (length mem) -> is_valid_str_sz n enc = true ->
  first_null mem ptr n (actf_encoding_to_codepoint_size enc) 0 (find_null_term mem ptr n enc).
Proof.
  intros Hp Hn Hl Hv. pose proof (codepoint_size_pos enc) as Hsz.
  unfold is_valid_str_sz, c_true in Hv. rewrite negb_involutive in Hv. apply Z.eqb_eq in Hv.
  unfold find_null_term. set (sz := actf_encoding_to_codepoint_size enc) in *.
  destruct (Z.eqb_spec sz 1) as [->|NE].
  - pose proof (memchr0_spec mem ptr (Z.to_nat n) 0 Hp ltac:(lia) ltac:(lia)) as H.
    rewrite Z.add_0_r, Z2Nat.id in H by done. exact H.
  - pose proof (find_wide_null_spec (Z.to_nat n) mem ptr n sz 0 Hp Hsz ltac:(lia) Hv Hl ltac:(lia)) as H.
    by rewrite Z.mul_0_r in H.
Qed.

(** In a buffer that holds a whole number of code points of the encoding,
    [find_null_term] returns the last byte of the first code point whose bytes
    are all zero, and nothing when there is none; it reads inside the buffer
    only.  In a one-byte UTF-16 buffer it reads past the end: undefined at the
    end of the data, and otherwise possibly a terminator outside the buffer. *)
Theorem find_null_term_correct mem ptr n enc :
  (0 <= ptr -> 0 <= n -> ptr + n <= Z.of_nat (length mem) -> is_valid_str_sz n enc = true ->
   first_null mem ptr n (actf_encoding_to_codepoint_size enc) 0 (find_null_term mem ptr n enc)) /\
  find_null_term [0] 0 1 ACTF_ENCODING_UTF16LE = Undef /\
  find_null_term [0; 0] 0 1 ACTF_ENCODING_UTF16LE = Ok (Some 1).
Proof. split; [apply find_null_term_spec|split; reflexivity]. Qed.

Example find_null_term_correct_witness :
  first_null [1; 0; 0; 1; 0; 0] 0 6 2 0 (find_null_term [1; 0; 0; 1; 0; 0] 0 6 ACTF_ENCODING_UTF16LE) /\
  find_null_term [1; 0; 0; 1; 0; 0] 0 6 ACTF_ENCODING_UTF16LE = Ok (Some 5).
Proof.
  split; [|reflexivity].
  apply (proj1 (find_null_term_correct [1; 0; 0; 1; 0; 0] 0 6 ACTF_ENCODING_UTF16LE)); cbn; (lia || reflexivity).
Defined.

(** * The default clock *)

Lemma clk_mask l : 1 <= l <= 64 -> exists m, shl_checked 2 (l - 1) = Some m /\ u64 (m - 1) = 2 ^ l - 1.
Proof.
  intros Hl. unfold shl_checked. destruct (Z.leb_spec 0 (l - 1)); [|lia]. destruct (Z.ltb_spec (l - 1) 64); [|lia].
  eexists. split; [reflexivity|]. rewrite Z.shiftl_mul_pow2 by lia.
  replace (2 * 2 ^ (l - 1)) with (2 ^ l) by (rewrite <- Z.pow_succ_r by lia; f_equal; lia).
  assert (1 <= 2 ^ l <= 2 ^ 64) by (split; [pose proof (pow2_pos l); lia|apply Z.pow_le_mono_r; lia]).
  destruct (Z.eq_dec l 64) as [->|]; [done|].
  assert (2 ^ l < 2 ^ 64) by (apply Z.pow_lt_mono_r; lia).
  rewrite (u64_small (2 ^ l)) by (unfold is_u64; lia). apply u64_small. unfold is_u64. lia.
Qed.

(** The update for a field of [l] bits, before it is reduced to 64 bits. *)
Lemma clk_update_spec l v old :
  1 <= l <= 64 -> 0 <= v < 2 ^ l -> is_u64 old ->
  let h := Z.land old (u64 (Z.lnot (2 ^ l - 1))) in
  let r := if v >=? Z.land old (2 ^ l - 1) then h + v else h + (2 ^ l - 1) + 1 + v in
  old <= r < old + 2 ^ l /\ r mod 2 ^ l = v.
Proof.
  intros Hl Hv Ho. cbn zeta. rewrite land_high, land_ones_mod by (done || lia).
  pose proof (pow2_pos l ltac:(lia)) as Hp. pose proof (Z.mod_pos_bound old (2 ^ l) Hp) as Hm.
  assert (Hq : old - old mod 2 ^ l = 2 ^ l * (old / 2 ^ l)) by (rewrite Z.mod_eq by lia; lia).
  destruct (Z.geb_spec v (old mod 2 ^ l)); (split; [lia|]).
  - rewrite Hq. rewrite Z.add_comm, Z.mul_comm, Z_mod_plus_full. by apply Z.mod_small.
  - replace (old - old mod 2 ^ l + (2 ^ l - 1) + 1 + v) with (v + (old / 2 ^ l + 1) * 2 ^ l) by lia.
    rewrite Z_mod_plus_full. by apply Z.mod_small.
Qed.

(** C37: A timestamp field of a fixed length of [l] bits, 1 to 64, sets the clock to the
    first value, not before the old one, whose low [l] bits are the field's
    value, modulo 2^64: where that value does not fit in 64 bits the clock wraps
    around, so that a field of 64 bits always sets it to the field's value. *)
Theorem calc_new_def_clk_val_correct base a roles val n old :
  1 <= len a <= 64 -> 0 <= val < 2 ^ len a -> is_u64 old ->
  exists r,
    calc_new_def_clk_val (FC_FXD_LEN_UINT base a roles) (mk_fld None None (ACTF_FLD_TYPE_UINT val n)) old = Some (u64 r) /\
    old <= r < old + 2 ^ len a /\ r mod 2 ^ len a = val /\
    forall r', old <= r' -> r' mod 2 ^ len a = val -> r <= r'.
Proof.
  intros Hl Hv Ho. unfold calc_new_def_clk_val. destruct (clk_mask (len a) Hl) as (m & -> & Hm).
  cbn [mbind option_bind actf_fld_uint64 f_d]. rewrite Hm.
  pose proof (clk_update_spec (len a) val old Hl Hv Ho) as [Hr Hmod].
  match type of Hmod with ?x mod _ = _ => exists x; set (r := x) in * end.
  split; [unfold r; by destruct (_ >=? _)|]. split; [exact Hr|]. split; [exact Hmod|]. intros r' Hr' Hmod'.
  pose proof (pow2_pos (len a) ltac:(lia)) as Hp.
  pose proof (Z.div_mod r (2 ^ len a) ltac:(lia)) as Er. pose proof (Z.div_mod r' (2 ^ len a) ltac:(lia)) as Er'.
  destruct (Z.leb_spec r r'); [done|].
  assert (0 < r / 2 ^ len a - r' / 2 ^ len a) by (apply (Z.mul_pos_cancel_l (2 ^ len a)); lia).
  nia.
Qed.

(** A clock near its end wraps around: 12 bits from 2^64 - 2 on. *)
Example calc_new_def_clk_val_correct_witness :
  exists r,
    calc_new_def_clk_val (FC_FXD_LEN_UINT (mk_int_fld_cls ACTF_BASE_DECIMAL zero_mappings) be12 16)
      (mk_fld None None (ACTF_FLD_TYPE_UINT 5 0)) (2 ^ 64 - 2) = Some (u64 r) /\
    2 ^ 64 - 2 <= r < 2 ^ 64 - 2 + 2 ^ 12 /\ r mod 2 ^ 12 = 5 /\ (forall r', 2 ^ 64 - 2 <= r' -> r' mod 2 ^ 12 = 5 -> r <= r').
Proof.
  apply (calc_new_def_clk_val_correct (mk_int_fld_cls ACTF_BASE_DECIMAL zero_mappings) be12 16 5 0 (2 ^ 64 - 2));
    unfold is_u64; cbn; lia.
Defined.

(** For a variable-length field the number of 7-bit groups is used as the
    number of bits: a two-byte timestamp 200 read at clock value 1000 sets the
    clock to 1200, whose low 14 bits are not the field's value, where 16584 is
    the next clock value that ends in it. *)
Theorem clk_update_var_len_wrong base roles :
  calc_new_def_clk_val (FC_VAR_LEN_UINT base roles) (mk_fld None None (ACTF_FLD_TYPE_UINT 200 14)) 1000 = Some 1200 /\
  1200 mod 2 ^ 14 <> 200 /\ 16584 mod 2 ^ 14 = 200.
Proof. split; [reflexivity|]. split; [discriminate|reflexivity]. Qed.
