(* ===== verification/Arena.v ===== *)
(** The arena allocator of [crust/arena.h]: regions of memory with a fill
    level, a list of regions in use and a list of free ones.

    The theorem shows that a chunk lies inside its region, is aligned and does
    not overlap the chunks handed out before, so long as the sizes do not wrap
    around. *)
From S2P Require Import Prelude Common.

(** * State *)

(** [struct region]; [r_size] is the number of bytes that [malloc] really gave
    to [reg], which is less than [cap] when the size of the block wrapped. *)
Record region := mk_region { r_cap : Z; r_len : Z; r_size : Z }.

(** [a_regs] is the list from [head] to [tail], the tail first. *)
Record arena := mk_arena {
  a_regs : list region; a_free : list region; a_default_cap : Z; a_mallocs : nat
}.

(** A pointer into the tail region, with the size of the chunk. *)
Record chunk := mk_chunk { ch_off : Z; ch_sz : Z }.

Definition SIZEOF_REGION : Z := 24.

(** * Operations *)

Section Arena.
(** Whether the [n]-th [malloc] of an arena, of [sz] bytes, succeeds. *)
Variable malloc_ok : nat -> Z -> bool.

Definition region_init (n : nat) (sz : Z) : option region :=
  let bytes := u64 (SIZEOF_REGION + sz) in
  if malloc_ok n bytes then Some (mk_region sz 0 (bytes - SIZEOF_REGION)) else None.

Definition region_alloc_unchk (reg : region) (sz : Z) : chunk * region :=
  (mk_chunk (r_len reg) sz, mk_region (r_cap reg) (u64 (r_len reg + sz)) (r_size reg)).

(** [~(align - 1)] on [size_t]. *)
Definition pad (len align : Z) : Z := Z.land (u64 (len + align - 1)) (u64 (Z.lnot (align - 1))).

Definition region_alloc (reg : region) (sz align : Z) : option (chunk * region) :=
  let padded_len := pad (r_len reg) align in
  if u64 (padded_len + sz) >? r_cap reg then None
  else Some (mk_chunk padded_len sz, mk_region (r_cap reg) (u64 (padded_len + sz)) (r_size reg)).

Definition region_fits (reg : region) (sz : Z) : bool := u64 (r_len reg + sz) <=? r_cap reg.

(** The first free region that fits and the others. *)
Fixpoint arena_pop_free_reg (free : list region) (sz : Z) : option (region * list region) :=
  match free with
  | [] => None
  | cur :: free' =>
      if region_fits cur sz then Some (cur, free')
      else '(fits, rest) ← arena_pop_free_reg free' sz; Some (fits, cur :: rest)
  end.

(** A chunk and the arena, or [None] for [NULL]; the arena is as before then,
    except that the [malloc] was tried. *)
Definition arena_alloc_align (a : arena) (sz align : Z) : option chunk * arena :=
  let from_tail :=
    match a_regs a with
    | [] => None
    | tail :: others =>
        '(p, tail') ← region_alloc tail sz align;
        Some (p, mk_arena (tail' :: others) (a_free a) (a_default_cap a) (a_mallocs a))
    end in
  match from_tail with
  | Some (p, a') => (Some p, a')
  | None =>
      match arena_pop_free_reg (a_free a) sz with
      | Some (fits, free') =>
          let '(p, fits') := region_alloc_unchk fits sz in
          (Some p, mk_arena (fits' :: a_regs a) free' (a_default_cap a) (a_mallocs a))
      | None =>
          match region_init (a_mallocs a) (MAX sz (a_default_cap a)) with
          | None => (None, mk_arena (a_regs a) (a_free a) (a_default_cap a) (S (a_mallocs a)))
          | Some fits =>
              let '(p, fits') := region_alloc_unchk fits sz in
              (Some p, mk_arena (fits' :: a_regs a) (a_free a) (a_default_cap a) (S (a_mallocs a)))
          end
      end
  end.

(** The regions in use go, emptied and from head to tail, before the free ones. *)
Definition arena_clear (a : arena) : arena :=
  mk_arena [] (rev (map (fun r => mk_region (r_cap r) 0 (r_size r)) (a_regs a)) ++ a_free a)
    (a_default_cap a) (a_mallocs a).

(** The bytes of a chunk are inside the memory of the region. *)
Definition chunk_in (p : chunk) (r : region) : Prop := 0 <= ch_off p /\ ch_off p + ch_sz p <= r_size r.
Definition chunk_inb (p : chunk) (r : region) : bool :=
  (0 <=? ch_off p) && (ch_off p + ch_sz p <=? r_size r).

(** The last chunk [p] of [a] is inside the memory of the tail region. *)
Definition chunk_fits (a : arena) (p : chunk) : bool :=
  match a_regs a with [] => false | r :: _ => chunk_inb p r end.

(** * Correctness *)

Record region_wf (r : region) : Prop := {
  rw_len : 0 <= r_len r <= r_cap r;
  rw_cap : r_cap r <= 2 ^ 62;
  rw_size : r_size r = r_cap r
}.

Record arena_wf (a : arena) : Prop := {
  aw_regs : Forall region_wf (a_regs a);
  aw_free : Forall region_wf (a_free a);
  aw_empty : Forall (fun r => r_len r = 0) (a_free a);
  aw_cap : 0 <= a_default_cap a <= 2 ^ 62
}.

Lemma pad_spec len k :
  0 <= len <= 2 ^ 62 -> 0 <= k <= 12 ->
  len <= pad len (2 ^ k) < len + 2 ^ k /\ pad len (2 ^ k) mod 2 ^ k = 0.
Proof.
  intros Hl Hk. unfold pad. pose proof (pow2_pos k ltac:(lia)) as Hp.
  assert (2 ^ k <= 2 ^ 12) by (apply Z.pow_le_mono_r; lia).
  rewrite (u64_small (len + 2 ^ k - 1)) by (unfold is_u64; lia).
  set (x := len + 2 ^ k - 1). pose proof (Z.mod_pos_bound x (2 ^ k) Hp).
  rewrite land_high by (unfold is_u64; lia). split; [lia|].
  rewrite Zminus_mod_idemp_r, Z.sub_diag. by apply Z.mod_0_l; lia.
Qed.

Lemma region_alloc_spec r sz k p r' :
  region_wf r -> 0 <= sz <= 2 ^ 62 -> 0 <= k <= 12 -> region_alloc r sz (2 ^ k) = Some (p, r') ->
  region_wf r' /\ chunk_in p r' /\ ch_sz p = sz /\ ch_off p mod 2 ^ k = 0 /\
  r_len r <= ch_off p /\ r_len r' = ch_off p + sz.
Proof.
  intros [Hl Hc Hs] Hsz Hk. unfold region_alloc.
  pose proof (pad_spec (r_len r) k ltac:(lia) Hk) as [Hp Hm].
  assert (2 ^ k <= 2 ^ 12) by (apply Z.pow_le_mono_r; lia).
  rewrite u64_small by (unfold is_u64; lia).
  destruct (Z.gtb_spec (pad (r_len r) (2 ^ k) + sz) (r_cap r)); [done|].
  intros [= <- <-]. unfold chunk_in. cbn. split_and!; try done; try lia. split; cbn; (done || lia).
Qed.

Lemma region_alloc_unchk_spec r sz k :
  region_wf r -> r_len r = 0 -> 0 <= sz <= r_cap r -> 0 <= k ->
  let '(p, r') := region_alloc_unchk r sz in
  region_wf r' /\ chunk_in p r' /\ ch_sz p = sz /\ ch_off p mod 2 ^ k = 0 /\ ch_off p = 0 /\ r_len r' = sz.
Proof.
  intros [Hl Hc Hs] H0 Hsz Hk. unfold region_alloc_unchk, chunk_in. rewrite H0, u64_small by (unfold is_u64; lia).
  cbn. pose proof (pow2_pos k Hk).
  split_and!; try done; try lia; try (split; cbn; (done || lia)).
Qed.

Lemma arena_pop_free_spec free sz fits rest :
  Forall region_wf free -> Forall (fun r => r_len r = 0) free -> 0 <= sz <= 2 ^ 62 ->
  arena_pop_free_reg free sz = Some (fits, rest) ->
  region_wf fits /\ r_len fits = 0 /\ sz <= r_cap fits /\
  Forall region_wf rest /\ Forall (fun r => r_len r = 0) rest.
Proof.
  intros Hw He Hsz. revert rest. induction free as [|r free IH]; intros rest; [done|]. cbn.
  inversion_clear Hw as [|? ? Hr Hfree]. inversion_clear He as [|? ? H0 He']. unfold region_fits.
  rewrite H0, u64_small by (unfold is_u64; lia). destruct (Z.leb_spec (0 + sz) (r_cap r)).
  - intros [= <- <-]. split_and!; (done || lia).
  - destruct (arena_pop_free_reg free sz) as [[f rs]|] eqn:E; cbn; [|done]. intros [= <- <-].
    destruct (IH Hfree He' rs eq_refl) as (? & ? & ? & ? & ?). split_and!; try done; by constructor.
Qed.

(** The chunk [p] taken from [a], which became [a']: it is the end of the tail
    region [r], which is the old tail filled further or a fresh region. *)
Definition chunk_of (a a' : arena) (p : chunk) (sz align : Z) : Prop :=
  exists r rest, a_regs a' = r :: rest /\ region_wf r /\ chunk_in p r /\ ch_sz p = sz /\
    ch_off p mod align = 0 /\ r_len r = ch_off p + sz /\
    ((exists r0, a_regs a = r0 :: rest /\ r_len r0 <= ch_off p /\ r_cap r0 = r_cap r) \/
     (rest = a_regs a /\ ch_off p = 0)).

Lemma arena_alloc_align_spec a sz k :
  arena_wf a -> 0 <= sz <= 2 ^ 62 -> 0 <= k <= 12 ->
  match arena_alloc_align a sz (2 ^ k) with
  | (Some p, a') => arena_wf a' /\ chunk_of a a' p sz (2 ^ k)
  | (None, a') => arena_wf a' /\ a_regs a' = a_regs a
  end.
Proof.
  intros [Hregs Hfree He Hcap] Hsz Hk. unfold arena_alloc_align.
  assert (Hfresh : forall fits free' n, region_wf fits -> r_len fits = 0 -> sz <= r_cap fits ->
    Forall region_wf free' -> Forall (fun r => r_len r = 0) free' ->
    let '(p, fits') := region_alloc_unchk fits sz in
    arena_wf (mk_arena (fits' :: a_regs a) free' (a_default_cap a) n) /\
    chunk_of a (mk_arena (fits' :: a_regs a) free' (a_default_cap a) n) p sz (2 ^ k)).
  { intros fits free' n Hw H0 Hfit Hf Hz.
    pose proof (region_alloc_unchk_spec fits sz k Hw H0 ltac:(lia) ltac:(lia)) as H.
    destruct (region_alloc_unchk fits sz) as [p fits']. destruct H as (Hw' & Hin & Hs & Hm & H0' & Hl).
    split; [split; cbn; (done || by constructor)|].
    exists fits', (a_regs a). split_and!; try done; [lia|by right]. }
  destruct (match a_regs a with [] => None | _ :: _ => _ end) as [[p a']|] eqn:Etail.
  { destruct (a_regs a) as [|tail others] eqn:Er; [done|]. inversion_clear Hregs as [|? ? Ht Ho].
    destruct (region_alloc tail sz (2 ^ k)) as [[p0 tail']|] eqn:Ea; cbn in Etail; [|done]. injection Etail as <- <-.
    pose proof Ea as Ea'. unfold region_alloc in Ea'. case_match; [done|]. injection Ea' as _ Et'.
    destruct (region_alloc_spec _ _ _ _ _ Ht Hsz Hk Ea) as (Hw' & Hin & Hs & Hm & Hle & Hl).
    split; [split; cbn; (done || by constructor)|].
    exists tail', others. split_and!; try done. left. exists tail. by rewrite <- Et'. }
  destruct (arena_pop_free_reg (a_free a) sz) as [[fits free']|] eqn:Ep.
  { destruct (arena_pop_free_spec _ _ _ _ Hfree He Hsz Ep) as (Hw & H0 & Hfit & Hf & Hz).
    specialize (Hfresh fits free' (a_mallocs a) Hw H0 Hfit Hf Hz).
    by destruct (region_alloc_unchk fits sz). }
  rewrite MAX_spec. unfold region_init. set (n := Z.max sz (a_default_cap a)). unfold SIZEOF_REGION.
  rewrite u64_small by (unfold is_u64; lia). destruct (malloc_ok _ _); [|done].
  assert (Hw : region_wf (mk_region n 0 (24 + n - 24))) by (split; cbn; lia).
  specialize (Hfresh _ (a_free a) (S (a_mallocs a)) Hw eq_refl ltac:(cbn; lia) Hfree He).
  by destruct (region_alloc_unchk _ sz).
Qed.

Lemma arena_clear_wf a : arena_wf a -> arena_wf (arena_clear a).
Proof.
  intros [Hregs Hfree He Hcap]. split; cbn; [constructor| | |done]; apply Forall_app; split; try done.
  - apply Forall_rev, Forall_fmap. revert Hregs. apply Forall_impl. intros r [Hl Hc Hs].
    split; cbn; (done || lia).
  - apply Forall_rev, Forall_fmap. by apply Forall_true.
Qed.
End Arena.

(** An allocation of at most 2^62 bytes from a well-formed arena either
    fails and leaves the regions in use as they are, or returns an aligned chunk
    of that size inside the memory of the last region and behind every chunk
    handed out from it before.  For a size close to 2^64 the capacity check
    wraps around: the chunk returned is not inside its region, and the fill level
    of the region goes down. *)
Theorem arena_alloc_correct malloc_ok a sz k :
  (arena_wf a -> 0 <= sz <= 2 ^ 62 -> 0 <= k <= 12 ->
   match arena_alloc_align malloc_ok a sz (2 ^ k) with
   | (Some p, a') => arena_wf a' /\ chunk_of a a' p sz (2 ^ k)
   | (None, a') => arena_wf a' /\ a_regs a' = a_regs a
   end) /\
  (let r := mk_region 640 80 640 in
   exists p r', region_alloc r (2 ^ 64 - 40) 8 = Some (p, r') /\ chunk_inb p r' = false /\ r_len r' < r_len r).
Proof.
  split; [apply arena_alloc_align_spec|]. eexists _, _. split; [vm_compute; reflexivity|]. split; reflexivity.
Qed.

Definition sample_arena : arena := mk_arena [mk_region 640 41 640] [] 640 1.

Example arena_alloc_correct_witness :
  match arena_alloc_align (fun _ _ => true) sample_arena 40 (2 ^ 3) with
  | (Some p, a') => arena_wf a' /\ chunk_of sample_arena a' p 40 (2 ^ 3)
  | (None, a') => arena_wf a' /\ a_regs a' = a_regs sample_arena
  end /\
  fst (arena_alloc_align (fun _ _ => true) sample_arena 40 (2 ^ 3)) = Some (mk_chunk 48 40).
Proof.
  split; [|reflexivity]. apply (proj1 (arena_alloc_correct (fun _ _ => true) sample_arena 40 3)); [|lia|lia].
  split; cbn; [|constructor|constructor|lia]. constructor; [split; cbn; lia|constructor].
Defined.
