(* ===== verification/Decoder.v ===== *)
(** The data stream decoder, [decoder.c]: field location, the decoding of every
    field class, roles, events, packets, the decoder's state machine and its
    seek.

    The fields of the current packet and event are trees, updated in place at
    the place [addr] that stands for the C pointer; reading or writing where no
    field was allocated is [Undef]. *)
From S2P Require Import Prelude Common Breader Rng Generator HashMap Clock FldCls Metadata Fld Scalar Arena.
From stdpp Require Import strings.
Open Scope Z_scope.

(** * State *)

Inductive dec_ctx :=
| DEC_CTX_PKT_HEADER
| DEC_CTX_PKT_CTX
| DEC_CTX_EVENT_HEADER
| DEC_CTX_EVENT_COMMON_CTX
| DEC_CTX_EVENT_SPECIFIC_CTX
| DEC_CTX_EVENT_PAYLOAD.

(** [struct dec_state]; the packet holds its state [pkt_s], and [ev] is the
    event that is being decoded or was decoded last. *)
Record dec_state := mk_dec_state {
  pkt_arena : arena; ev_arena : arena; pkt : actf_pkt; ev : option actf_event; ctx : dec_ctx
}.

(** [enum decoding_state]: the flags that are set. *)
Record decoding_state := mk_decoding_state {
  DECODING_STATE_RESUME_PKT : bool;
  DECODING_STATE_RESUME_SEEK : bool;
  DECODING_STATE_ERROR : bool
}.
Definition DECODING_STATE_OK : decoding_state := mk_decoding_state false false false.

(** [struct actf_decoder]; [evs] are the events of the output array that the
    last decoding has filled.  The error message is left out, and the metadata
    is a parameter of the operations. *)
Record actf_decoder := mk_decoder {
  state : decoding_state;
  err_rc : Z;
  seek_evs_off : nat;
  seek_evs_len : nat;
  br : breader;
  evs : list actf_event;
  evs_cap : nat;
  dec_s : dec_state
}.

(** ** Assignments to members *)

Definition set_state (x : decoding_state) (d : actf_decoder) : actf_decoder :=
  mk_decoder x (err_rc d) (seek_evs_off d) (seek_evs_len d) (br d) (evs d) (evs_cap d) (dec_s d).
Definition set_err_rc (x : Z) (d : actf_decoder) : actf_decoder :=
  mk_decoder (state d) x (seek_evs_off d) (seek_evs_len d) (br d) (evs d) (evs_cap d) (dec_s d).
Definition set_seek_evs (off len : nat) (d : actf_decoder) : actf_decoder :=
  mk_decoder (state d) (err_rc d) off len (br d) (evs d) (evs_cap d) (dec_s d).
Definition set_br (x : breader) (d : actf_decoder) : actf_decoder :=
  mk_decoder (state d) (err_rc d) (seek_evs_off d) (seek_evs_len d) x (evs d) (evs_cap d) (dec_s d).
Definition set_evs (x : list actf_event) (d : actf_decoder) : actf_decoder :=
  mk_decoder (state d) (err_rc d) (seek_evs_off d) (seek_evs_len d) (br d) x (evs_cap d) (dec_s d).
Definition set_dec_s (x : dec_state) (d : actf_decoder) : actf_decoder :=
  mk_decoder (state d) (err_rc d) (seek_evs_off d) (seek_evs_len d) (br d) (evs d) (evs_cap d) x.

Definition set_resume_pkt (b : bool) (d : actf_decoder) : actf_decoder :=
  set_state (mk_decoding_state b (DECODING_STATE_RESUME_SEEK (state d)) (DECODING_STATE_ERROR (state d))) d.
Definition set_resume_seek (b : bool) (d : actf_decoder) : actf_decoder :=
  set_state (mk_decoding_state (DECODING_STATE_RESUME_PKT (state d)) b (DECODING_STATE_ERROR (state d))) d.
(** [dec->state |= DECODING_STATE_ERROR; dec->err_rc = rc]. *)
Definition set_error (rc : Z) (d : actf_decoder) : actf_decoder :=
  set_err_rc rc (set_state (mk_decoding_state (DECODING_STATE_RESUME_PKT (state d))
                              (DECODING_STATE_RESUME_SEEK (state d)) true) d).

Definition set_arenas (p e : arena) (d : actf_decoder) : actf_decoder :=
  let s := dec_s d in set_dec_s (mk_dec_state p e (pkt s) (ev s) (ctx s)) d.
Definition set_pkt (x : actf_pkt) (d : actf_decoder) : actf_decoder :=
  let s := dec_s d in set_dec_s (mk_dec_state (pkt_arena s) (ev_arena s) x (ev s) (ctx s)) d.
Definition set_ev (x : option actf_event) (d : actf_decoder) : actf_decoder :=
  let s := dec_s d in set_dec_s (mk_dec_state (pkt_arena s) (ev_arena s) (pkt s) x (ctx s)) d.
Definition set_ctx (x : dec_ctx) (d : actf_decoder) : actf_decoder :=
  let s := dec_s d in set_dec_s (mk_dec_state (pkt_arena s) (ev_arena s) (pkt s) (ev s) x) d.

Definition d_pkt_s (d : actf_decoder) : pkt_state := pkt_s (pkt (dec_s d)).
Definition set_pkt_s (x : pkt_state) (d : actf_decoder) : actf_decoder :=
  let k := pkt (dec_s d) in set_pkt (mk_pkt x (pkt_header_fld k) (pkt_ctx_fld k)) d.
Definition set_ev_s (x : event_state) (d : actf_decoder) : actf_decoder :=
  set_ev ((fun e => set_ev_state x (ev_dsc e) e) <$> ev (dec_s d)) d.

(** Run a program on the bit reader and the packet state. *)
Definition on_cur {A} (m : st cursor A) : st actf_decoder A :=
  st_zoom (fun d => mk_cursor (br d) (d_pkt_s d)) (fun c d => set_pkt_s (c_pkt c) (set_br (c_br c) d)) m.

(** ** Fields in place *)

Definition children (f : actf_fld) : list actf_fld :=
  match f_d f with ACTF_FLD_TYPE_ARR vals _ => vals | ACTF_FLD_TYPE_STRUCT vals => vals | _ => [] end.
Definition set_children (vals : list actf_fld) (f : actf_fld) : actf_fld :=
  match f_d f with
  | ACTF_FLD_TYPE_ARR _ n => mk_fld (f_cls f) (f_parent f) (ACTF_FLD_TYPE_ARR vals n)
  | ACTF_FLD_TYPE_STRUCT _ => mk_fld (f_cls f) (f_parent f) (ACTF_FLD_TYPE_STRUCT vals)
  | _ => f
  end.

Fixpoint sub_fld (p : list nat) (f : actf_fld) : option actf_fld :=
  match p with [] => Some f | i :: p' => children f !! i ≫= sub_fld p' end.
Fixpoint upd_sub (p : list nat) (h : actf_fld -> actf_fld) (f : actf_fld) : actf_fld :=
  match p with
  | [] => h f
  | i :: p' =>
      match children f !! i with
      | Some g => set_children (<[i := upd_sub p' h g]> (children f)) f
      | None => f
      end
  end.

Definition root_fld (d : actf_decoder) (r : root) : option actf_fld :=
  match r with
  | RPkt p => Some (pkt_props (pkt (dec_s d)) p)
  | REv p => (fun e => ev_props e p) <$> ev (dec_s d)
  end.
Definition fetch (d : actf_decoder) (a : addr) : option actf_fld :=
  root_fld d (a_root a) ≫= sub_fld (a_path a).

Definition upd_root (r : root) (h : actf_fld -> actf_fld) (d : actf_decoder) : actf_decoder :=
  match r with
  | RPkt p =>
      let k := pkt (dec_s d) in set_pkt (set_pkt_prop p (h (pkt_props k p)) k) d
  | REv p => set_ev ((fun e => set_ev_prop p (h (ev_props e p)) e) <$> ev (dec_s d)) d
  end.

(** Assign to members of [*val]. *)
Definition modify_fld (val : addr) (h : actf_fld -> actf_fld) : st actf_decoder unit := fun d =>
  match fetch d val with
  | Some _ => (Ok tt, upd_root (a_root val) (upd_sub (a_path val) h) d)
  | None => (Undef, d)
  end.
Definition read_fld (val : addr) : st actf_decoder actf_fld := fun d =>
  match fetch d val with Some f => (Ok f, d) | None => (Undef, d) end.

Definition set_fld_d (val : addr) (x : fld_d) : st actf_decoder unit :=
  modify_fld val (fun f => mk_fld (f_cls f) (f_parent f) x).
Definition set_fld_cls (val : addr) (c : actf_fld_cls) : st actf_decoder unit :=
  modify_fld val (fun f => mk_fld (Some c) (f_parent f) (f_d f)).
Definition set_fld_parent (val : addr) (p : option addr) : st actf_decoder unit :=
  modify_fld val (fun f => mk_fld (f_cls f) p (f_d f)).

(** [&val->d...vals[i]]. *)
Definition elem (a : addr) (i : nat) : addr := mk_addr (a_root a) (a_path a ++ [i]).

(** * Field location *)

Fixpoint member_idx (ms : list (string * actf_fld_cls)) (name : string) (i : nat) : option nat :=
  match ms with
  | [] => None
  | (n, _) :: ms' => if bool_decide (n = name) then Some i else member_idx ms' name (S i)
  end.

(** The assertion that [val] is a structure; [None] is [NULL]. *)
Definition get_struct_member (f : actf_fld) (a : addr) (name : string) : outcome (option addr) :=
  match f_d f, f_cls f with
  | ACTF_FLD_TYPE_STRUCT _, Some (FC_STRUCT ms _ _) => Ok (elem a <$> member_idx ms name 0)
  | _, _ => Undef
  end.

Definition origin_addr (loc : actf_fld_loc) (cur : actf_fld) : option addr :=
  match origin loc with
  | ACTF_FLD_LOC_ORIGIN_NONE => f_parent cur
  | ACTF_FLD_LOC_ORIGIN_PKT_HEADER => Some (mk_addr (RPkt ACTF_PKT_PROP_HEADER) [])
  | ACTF_FLD_LOC_ORIGIN_PKT_CTX => Some (mk_addr (RPkt ACTF_PKT_PROP_CTX) [])
  | ACTF_FLD_LOC_ORIGIN_EVENT_HEADER => Some (mk_addr (REv ACTF_EVENT_PROP_HEADER) [])
  | ACTF_FLD_LOC_ORIGIN_EVENT_COMMON_CTX => Some (mk_addr (REv ACTF_EVENT_PROP_COMMON_CTX) [])
  | ACTF_FLD_LOC_ORIGIN_EVENT_SPECIFIC_CTX => Some (mk_addr (REv ACTF_EVENT_PROP_SPECIFIC_CTX) [])
  | ACTF_FLD_LOC_ORIGIN_EVENT_PAYLOAD => Some (mk_addr (REv ACTF_EVENT_PROP_PAYLOAD) [])
  end.

(** The [do ... while] over nested arrays: the element being decoded, [None]
    for [NULL]; [get_len] is [get_arr_cls_len].  Every round goes one level down
    the tree of fields. *)
Fixpoint arr_descend (get_len : actf_fld -> outcome Z) (fuel : nat) (f : actf_fld) (a : addr) :
    outcome (option addr) :=
  match fuel, f_d f with
  | S fuel', ACTF_FLD_TYPE_ARR vals n_vals =>
      match get_len f with
      | Ok len =>
          if n_vals =? len then Ok None
          else
            match vals !! Z.to_nat n_vals with
            | None => Undef
            | Some g =>
                let a' := elem a (Z.to_nat n_vals) in
                match f_d g with
                | ACTF_FLD_TYPE_ARR _ _ => arr_descend get_len fuel' g a'
                | _ => Ok (Some a')
                end
            end
      | Err _ => Ok None
      | Undef => Undef
      end
  | _, _ => Undef
  end.

(** The loop over the elements of the path; [None] is [NULL], and [look] reads a
    field of the packet or event. *)
Fixpoint loc_walk (get_len : actf_fld -> outcome Z) (look : addr -> option actf_fld) (fuel : nat)
    (path : list (option string)) (a : addr) : outcome (option addr) :=
  match path with
  | [] => Ok None
  | next_path :: path' =>
      match look a with
      | None => Undef
      | Some f =>
          let next :=
            match next_path with
            | Some name =>
                match get_struct_member f a name with
                | Ok (Some b) =>
                    match look b with
                    | None => Undef
                    | Some g => Ok (match f_d g with ACTF_FLD_TYPE_NIL => None | _ => Some b end)
                    end
                | r => r
                end
            | None => Ok (f_parent f)
            end in
          match next with
          | Ok (Some b) =>
              match look b with
              | None => Undef
              | Some g =>
                  match f_d g with
                  | ACTF_FLD_TYPE_BOOL _ | ACTF_FLD_TYPE_SINT _ | ACTF_FLD_TYPE_UINT _ _ =>
                      match path' with [] => Ok (Some b) | _ => Ok None end
                  | ACTF_FLD_TYPE_STRUCT _ => loc_walk get_len look fuel path' b
                  | ACTF_FLD_TYPE_ARR _ _ =>
                      match arr_descend get_len fuel g b with
                      | Ok (Some e) => loc_walk get_len look fuel path' e
                      | r => r
                      end
                  | _ => Ok None
                  end
              end
          | r => r
          end
      end
  end.

(** [fld_loc_locate] and [get_arr_cls_len] call each other, the latter to find
    the length of a dynamic-length array on the path; [fuel] bounds the depth
    of the calls and of nested arrays. *)
Fixpoint fld_loc_locate (fuel : nat) (look : addr -> option actf_fld) (loc : actf_fld_loc) (cur : actf_fld) :
    outcome (option addr) :=
  match fuel with
  | O => Undef
  | S fuel' =>
      match origin_addr loc cur with
      | None => Ok None
      | Some a =>
          match look a with
          | None => Ok None
          | Some f =>
              match f_d f with
              | ACTF_FLD_TYPE_STRUCT _ =>
                  let get_arr_cls_len := fun val =>
                    match f_cls val with
                    | Some (FC_STATIC_LEN_ARR _ _ n) => Ok n
                    | Some (FC_DYN_LEN_ARR _ _ len_fld_loc) =>
                        match fld_loc_locate fuel' look len_fld_loc val with
                        | Ok None => Err ACTF_MISSING_FLD_LOC
                        | Ok (Some b) =>
                            match f_d <$> look b with
                            | Some (ACTF_FLD_TYPE_UINT v _) => Ok v
                            | Some _ => Err ACTF_WRONG_FLD_TYPE
                            | None => Undef
                            end
                        | Err rc => Err rc
                        | Undef => Undef
                        end
                    | _ => Err ACTF_INTERNAL
                    end in
                  loc_walk get_arr_cls_len look fuel' (path loc) a
              | _ => Ok None
              end
          end
      end
  end.

Section Decoder.
(** The metadata, the [malloc] of the two arenas, and the depth of field
    location. *)
Variable metadata : actf_metadata.
Variable pkt_malloc ev_malloc : nat -> Z -> bool.
Variable loc_fuel : nat.

(** The field that [loc] refers to from the field at [val]. *)
Definition locate (loc : actf_fld_loc) (val : addr) : st actf_decoder (option addr) := fun d =>
  match fetch d val with
  | None => (Undef, d)
  | Some cur => (fld_loc_locate loc_fuel (fetch d) loc cur, d)
  end.

(** [len_val->d.uint.val], for the decoders whose length is a field. *)
Definition read_len (len_fld_loc : actf_fld_loc) (val : addr) : st actf_decoder Z :=
  len_val ← locate len_fld_loc val;
  match len_val with
  | None => st_fail ACTF_MISSING_FLD_LOC
  | Some b =>
      f ← read_fld b;
      match f_d f with ACTF_FLD_TYPE_UINT v _ => mret v | _ => st_fail ACTF_WRONG_FLD_TYPE end
  end.

Definition get_arr_cls_len (val : addr) : st actf_decoder Z :=
  f ← read_fld val;
  match f_cls f with
  | Some (FC_STATIC_LEN_ARR _ _ n) => mret n
  | Some (FC_DYN_LEN_ARR _ _ len_fld_loc) => read_len len_fld_loc val
  | _ => st_fail ACTF_INTERNAL
  end.

(** [actf_fld_cls_get_align_req]; its [assert] fails for the nil class. *)
Definition align_req (cls : actf_fld_cls) : st actf_decoder Z :=
  match actf_fld_cls_get_align_req cls with Some a => mret a | None => st_undef end.

(** * Field classes without members *)

Definition fld_cls_fxd_len_bit_arr_decode (a : fxd_len_bit_arr_fld_cls) (val : addr) : st actf_decoder unit :=
  bit_arr ← on_cur (fxd_len_bit_arr_decode a);
  set_fld_d val (ACTF_FLD_TYPE_UINT bit_arr 0).

Definition fld_cls_fxd_len_bit_map_decode (a : fxd_len_bit_arr_fld_cls) (val : addr) : st actf_decoder unit :=
  bit_arr ← on_cur (fxd_len_bit_arr_decode a);
  set_fld_d val (ACTF_FLD_TYPE_BIT_MAP bit_arr).

Definition fld_cls_fxd_len_sint_decode (a : fxd_len_bit_arr_fld_cls) (val : addr) : st actf_decoder unit :=
  bit_arr ← on_cur (fxd_len_bit_arr_decode a);
  set_fld_d val (ACTF_FLD_TYPE_SINT (i64 (sext bit_arr (len a)))).

Definition fld_cls_fxd_len_uint_decode (a : fxd_len_bit_arr_fld_cls) (val : addr) : st actf_decoder unit :=
  bit_arr ← on_cur (fxd_len_bit_arr_decode a);
  set_fld_d val (ACTF_FLD_TYPE_UINT bit_arr 0).

Definition fld_cls_fxd_len_bool_decode (a : fxd_len_bit_arr_fld_cls) (val : addr) : st actf_decoder unit :=
  bit_arr ← on_cur (fxd_len_bit_arr_decode a);
  set_fld_d val (ACTF_FLD_TYPE_BOOL (c_true bit_arr)).

Definition fld_cls_fxd_len_float_decode (a : fxd_len_bit_arr_fld_cls) (val : addr) : st actf_decoder unit :=
  bit_arr ← on_cur (fxd_len_bit_arr_decode a);
  set_fld_d val (ACTF_FLD_TYPE_REAL 0);;
  if len a =? 32 then set_fld_d val (ACTF_FLD_TYPE_REAL (u32 bit_arr))
  else if len a =? 64 then set_fld_d val (ACTF_FLD_TYPE_REAL bit_arr)
  else st_fail ACTF_UNSUPPORTED_LENGTH.

Definition fld_cls_var_len_uint_decode (gen_cls : actf_fld_cls) (val : addr) : st actf_decoder unit :=
  al ← align_req gen_cls;
  '(uval, n_bits) ← on_cur (fld_cls_var_len_int_decode al);
  set_fld_d val (ACTF_FLD_TYPE_UINT uval n_bits).

Definition fld_cls_var_len_sint_decode (gen_cls : actf_fld_cls) (val : addr) : st actf_decoder unit :=
  al ← align_req gen_cls;
  '(uval, n_bits) ← on_cur (fld_cls_var_len_int_decode al);
  set_fld_d val (ACTF_FLD_TYPE_SINT (i64 (sext uval n_bits))).

Definition fld_cls_null_term_str_decode (gen_cls : actf_fld_cls) (enc : actf_encoding) (val : addr) : st actf_decoder unit :=
  al ← align_req gen_cls;
  '(ptr, str_len) ← on_cur (read_null_term_str enc al);
  set_fld_d val (ACTF_FLD_TYPE_STR ptr str_len).

Definition fld_cls_static_len_str_decode (gen_cls : actf_fld_cls) (enc : actf_encoding) (len : Z) (val : addr) :
    st actf_decoder unit :=
  al ← align_req gen_cls;
  '(ptr, str_len) ← on_cur (read_str enc al len);
  set_fld_d val (ACTF_FLD_TYPE_STR ptr str_len).

Definition fld_cls_dyn_len_str_decode (gen_cls : actf_fld_cls) (enc : actf_encoding) (len_fld_loc : actf_fld_loc)
    (val : addr) : st actf_decoder unit :=
  len ← read_len len_fld_loc val;
  al ← align_req gen_cls;
  '(ptr, str_len) ← on_cur (read_str enc al len);
  set_fld_d val (ACTF_FLD_TYPE_STR ptr str_len).

Definition fld_cls_static_len_blob_decode (gen_cls : actf_fld_cls) (len : Z) (val : addr) : st actf_decoder unit :=
  al ← align_req gen_cls;
  ptr ← on_cur (read_blob al len);
  set_fld_d val (ACTF_FLD_TYPE_BLOB ptr len).

Definition fld_cls_dyn_len_blob_decode (gen_cls : actf_fld_cls) (len_fld_loc : actf_fld_loc) (val : addr) :
    st actf_decoder unit :=
  len ← read_len len_fld_loc val;
  al ← align_req gen_cls;
  ptr ← on_cur (read_blob al len);
  set_fld_d val (ACTF_FLD_TYPE_BLOB ptr len).

(** * Roles *)

Definition upd_pkt_s (f : pkt_state -> pkt_state) : st actf_decoder unit :=
  st_modify (fun d => set_pkt_s (f (d_pkt_s d)) d).
Definition upd_ev_s (f : event_state -> event_state) : st actf_decoder unit := fun d =>
  match ev (dec_s d) with
  | None => (Undef, d)
  | Some e => (Ok tt, set_ev_s (f (ev_s e)) d)
  end.

Definition set_flag (flag : Z) (p : pkt_state) : pkt_state :=
  mk_pkt_state (bit_off p) (pkt_def_clk_val p) (begin_def_clk_val p) (disc_er_snap p) (dsc_cls p) (dsc_cls_id p)
    (ds_id p) (last_bo p) (content_len p) (end_def_clk_val p) (seq_num p) (tot_len p) (Z.lor (opt_flags p) flag).
Definition set_dsc_id (x : Z) (p : pkt_state) : pkt_state :=
  mk_pkt_state (bit_off p) (pkt_def_clk_val p) (begin_def_clk_val p) (disc_er_snap p) (dsc_cls p) x
    (ds_id p) (last_bo p) (content_len p) (end_def_clk_val p) (seq_num p) (tot_len p) (opt_flags p).
Definition set_dsc_cls (x : option actf_dstream_cls) (p : pkt_state) : pkt_state :=
  mk_pkt_state (bit_off p) (pkt_def_clk_val p) (begin_def_clk_val p) (disc_er_snap p) x (dsc_cls_id p)
    (ds_id p) (last_bo p) (content_len p) (end_def_clk_val p) (seq_num p) (tot_len p) (opt_flags p).
Definition set_ds_id (x : Z) (p : pkt_state) : pkt_state :=
  mk_pkt_state (bit_off p) (pkt_def_clk_val p) (begin_def_clk_val p) (disc_er_snap p) (dsc_cls p) (dsc_cls_id p)
    x (last_bo p) (content_len p) (end_def_clk_val p) (seq_num p) (tot_len p) (opt_flags p).
Definition set_def_clk (x : Z) (p : pkt_state) : pkt_state :=
  mk_pkt_state (bit_off p) x (begin_def_clk_val p) (disc_er_snap p) (dsc_cls p) (dsc_cls_id p)
    (ds_id p) (last_bo p) (content_len p) (end_def_clk_val p) (seq_num p) (tot_len p) (opt_flags p).
Definition set_begin_clk (x : Z) (p : pkt_state) : pkt_state :=
  mk_pkt_state (bit_off p) (pkt_def_clk_val p) x (disc_er_snap p) (dsc_cls p) (dsc_cls_id p)
    (ds_id p) (last_bo p) (content_len p) (end_def_clk_val p) (seq_num p) (tot_len p) (opt_flags p).
Definition set_disc_er_snap (x : Z) (p : pkt_state) : pkt_state :=
  mk_pkt_state (bit_off p) (pkt_def_clk_val p) (begin_def_clk_val p) x (dsc_cls p) (dsc_cls_id p)
    (ds_id p) (last_bo p) (content_len p) (end_def_clk_val p) (seq_num p) (tot_len p) (opt_flags p).
Definition set_content_len (x : Z) (p : pkt_state) : pkt_state :=
  mk_pkt_state (bit_off p) (pkt_def_clk_val p) (begin_def_clk_val p) (disc_er_snap p) (dsc_cls p) (dsc_cls_id p)
    (ds_id p) (last_bo p) x (end_def_clk_val p) (seq_num p) (tot_len p) (opt_flags p).
Definition set_end_clk (x : Z) (p : pkt_state) : pkt_state :=
  mk_pkt_state (bit_off p) (pkt_def_clk_val p) (begin_def_clk_val p) (disc_er_snap p) (dsc_cls p) (dsc_cls_id p)
    (ds_id p) (last_bo p) (content_len p) x (seq_num p) (tot_len p) (opt_flags p).
Definition set_seq_num (x : Z) (p : pkt_state) : pkt_state :=
  mk_pkt_state (bit_off p) (pkt_def_clk_val p) (begin_def_clk_val p) (disc_er_snap p) (dsc_cls p) (dsc_cls_id p)
    (ds_id p) (last_bo p) (content_len p) (end_def_clk_val p) x (tot_len p) (opt_flags p).
Definition set_tot_len (x : Z) (p : pkt_state) : pkt_state :=
  mk_pkt_state (bit_off p) (pkt_def_clk_val p) (begin_def_clk_val p) (disc_er_snap p) (dsc_cls p) (dsc_cls_id p)
    (ds_id p) (last_bo p) (content_len p) (end_def_clk_val p) (seq_num p) x (opt_flags p).
Definition set_bit_off (x : Z) (p : pkt_state) : pkt_state :=
  mk_pkt_state x (pkt_def_clk_val p) (begin_def_clk_val p) (disc_er_snap p) (dsc_cls p) (dsc_cls_id p)
    (ds_id p) (last_bo p) (content_len p) (end_def_clk_val p) (seq_num p) (tot_len p) (opt_flags p).

Definition set_ev_id (x : Z) (e : event_state) : event_state := mk_event_state x (ev_cls e) (ev_def_clk_val e).
Definition set_ev_clk (x : Z) (e : event_state) : event_state := mk_event_state (ev_id e) (ev_cls e) x.

(** [if (roles & role) { ... }]. *)
Definition when_role (roles role : Z) (c : st actf_decoder unit) : st actf_decoder unit :=
  if c_true (Z.land roles role) then c else mret tt.

(** [pkt_s->def_clk_val = calc_new_def_clk_val(cls, val, pkt_s->def_clk_val)]. *)
Definition upd_def_clk (cls : actf_fld_cls) (f : actf_fld) : st actf_decoder unit := fun d =>
  match calc_new_def_clk_val cls f (pkt_def_clk_val (d_pkt_s d)) with
  | None => (Undef, d)
  | Some v => (Ok tt, set_pkt_s (set_def_clk v (d_pkt_s d)) d)
  end.

(** [memcmp(preamble->uuid.d, ptr, ACTF_UUID_N_BYTES) != 0]; bytes outside the
    data are undefined. *)
Definition uuid_differs (ptr : Z) : st actf_decoder bool := fun d =>
  if (0 <=? ptr) && (ptr + ACTF_UUID_N_BYTES <=? Z.of_nat (length (br_mem (br d)))) then
    (Ok (negb (bool_decide (uuid (preamble metadata) = mem_slice (br_mem (br d)) ptr ACTF_UUID_N_BYTES))), d)
  else (Undef, d).

Definition handle_fld_roles (roles : Z) (cls : actf_fld_cls) (val : addr) : st actf_decoder unit :=
  f ← read_fld val;
  d ← st_get;
  match ctx (dec_s d) with
  | DEC_CTX_PKT_HEADER =>
      when_role roles ACTF_ROLE_DSTREAM_CLS_ID (upd_pkt_s (set_dsc_id (actf_fld_uint64 f)));;
      when_role roles ACTF_ROLE_DSTREAM_ID
        (upd_pkt_s (fun p => set_flag PKT_DSTREAM_ID (set_ds_id (actf_fld_uint64 f) p)));;
      when_role roles ACTF_ROLE_PKT_MAGIC_NUM
        (if negb (actf_fld_uint64 f =? PACKET_MAGIC_NUMBER) then st_fail ACTF_MAGIC_MISMATCH else mret tt);;
      when_role roles ACTF_ROLE_METADATA_STREAM_UUID
        (match f_d f with
         | ACTF_FLD_TYPE_BLOB ptr _ =>
             differs ← uuid_differs ptr;
             if (differs : bool) then st_fail ACTF_UUID_MISMATCH else mret tt
         | _ => st_undef
         end)
  | DEC_CTX_PKT_CTX =>
      when_role roles ACTF_ROLE_DEF_CLK_TSTAMP
        (upd_def_clk cls f;; upd_pkt_s (fun p => set_begin_clk (pkt_def_clk_val p) p));;
      when_role roles ACTF_ROLE_DISC_EVENT_CNT_SNAPSHOT
        (upd_pkt_s (fun p => set_flag PKT_DISC_ER_SNAP (set_disc_er_snap (actf_fld_uint64 f) p)));;
      when_role roles ACTF_ROLE_PKT_CONTENT_LEN (upd_pkt_s (set_content_len (actf_fld_uint64 f)));;
      when_role roles ACTF_ROLE_PKT_END_DEF_CLK_TSTAMP
        (upd_pkt_s (fun p => set_flag PKT_END_DEF_CLK_VAL (set_end_clk (actf_fld_uint64 f) p)));;
      when_role roles ACTF_ROLE_PKT_SEQ_NUM
        (upd_pkt_s (fun p => set_flag PKT_SEQ_NUM (set_seq_num (actf_fld_uint64 f) p)));;
      when_role roles ACTF_ROLE_PKT_TOT_LEN (upd_pkt_s (set_tot_len (actf_fld_uint64 f)))
  | DEC_CTX_EVENT_HEADER =>
      when_role roles ACTF_ROLE_EVENT_CLS_ID (upd_ev_s (set_ev_id (actf_fld_uint64 f)));;
      when_role roles ACTF_ROLE_DEF_CLK_TSTAMP
        (upd_def_clk cls f;; d ← st_get; upd_ev_s (set_ev_clk (pkt_def_clk_val (d_pkt_s d))))
  | _ => mret tt
  end.

(** [if (roles && (rc = handle_fld_roles(...)) < 0) return rc]. *)
Definition handle_roles_of (cls : actf_fld_cls) (val : addr) : st actf_decoder unit :=
  let roles := actf_fld_cls_roles cls in
  if c_true roles then handle_fld_roles roles cls val else mret tt.

(** * Selectors *)

(** Whether an optional field is enabled. *)
Definition optional_enabled (sel_fld_loc : actf_fld_loc) (rngs : actf_rng_set) (val : addr) : st actf_decoder bool :=
  sel_val ← locate sel_fld_loc val;
  match sel_val with
  | None => st_fail ACTF_MISSING_FLD_LOC
  | Some b =>
      f ← read_fld b;
      match f_d f with
      | ACTF_FLD_TYPE_BOOL v => mret v
      | x =>
          if actf_rng_set_len rngs =? 0 then st_fail ACTF_NO_SELECTOR_FLD
          else
            match x with
            | ACTF_FLD_TYPE_SINT v => mret (actf_rng_set_intersect_sint rngs v)
            | ACTF_FLD_TYPE_UINT v _ => mret (actf_rng_set_intersect_uint rngs v)
            | _ => st_fail ACTF_WRONG_FLD_TYPE
            end
      end
  end.

(** The last option whose ranges hold the selector: the loop does not stop at
    the first one. *)
Fixpoint last_option (test : actf_rng_set -> bool) (opts : list (option string * actf_fld_cls * actf_rng_set))
    (i : nat) (found : option nat) : option nat :=
  match opts with
  | [] => found
  | (_, _, rngs) :: opts' => last_option test opts' (S i) (if test rngs then Some i else found)
  end.

Definition variant_option (opts : list (option string * actf_fld_cls * actf_rng_set)) (sel_fld_loc : actf_fld_loc)
    (val : addr) : st actf_decoder nat :=
  sel_val ← locate sel_fld_loc val;
  match sel_val with
  | None => st_fail ACTF_MISSING_FLD_LOC
  | Some b =>
      f ← read_fld b;
      found ←
        match f_d f with
        | ACTF_FLD_TYPE_SINT v => mret (last_option (fun r => actf_rng_set_intersect_sint r v) opts 0 None)
        | ACTF_FLD_TYPE_UINT v _ => mret (last_option (fun r => actf_rng_set_intersect_uint r v) opts 0 None)
        | _ => st_fail ACTF_WRONG_FLD_TYPE
        end;
      match found with None => st_fail ACTF_NO_SELECTOR_FLD | Some i => mret i end
  end.

(** * Allocation *)

(** [arena_allocn(dec_ctx_arena(...), struct actf_fld, n)] and the [memset] of
    the block, whose size [n * sizeof] wraps around: the fields that really fit
    in the block are returned. *)
Definition alloc_flds (n : Z) : st actf_decoder (list actf_fld) := fun d =>
  let sz := u64 (n * SIZEOF_FLD) in
  let s := dec_s d in
  let '(p, s') :=
    match ctx s with
    | DEC_CTX_PKT_HEADER | DEC_CTX_PKT_CTX =>
        let '(p, a) := arena_alloc_align pkt_malloc (pkt_arena s) sz 8 in
        (chunk_fits a <$> p, mk_dec_state a (ev_arena s) (pkt s) (ev s) (ctx s))
    | _ =>
        let '(p, a) := arena_alloc_align ev_malloc (ev_arena s) sz 8 in
        (chunk_fits a <$> p, mk_dec_state (pkt_arena s) a (pkt s) (ev s) (ctx s))
    end in
  match p with
  | None => (Err ACTF_OOM, set_dec_s s' d)
  | Some false => (Undef, set_dec_s s' d)
  | Some true => (Ok (repeat nil_fld (Z.to_nat (sz / SIZEOF_FLD))), set_dec_s s' d)
  end.

(** * Decoding a field class *)

(** The array [vals] of a fresh structure or array value. *)
Definition decode_elem (decode : addr -> st actf_decoder unit) (val : addr) (i : nat) (parent : option addr) :
    st actf_decoder unit :=
  set_fld_parent (elem val i) parent;;
  decode (elem val i).

(** The loop of [fld_cls_arr_decode] over the [n] elements from the [i]-th. *)
Fixpoint arr_loop (decode : addr -> st actf_decoder unit) (val : addr) (n i : nat) : st actf_decoder unit :=
  match n with
  | O => mret tt
  | S n' =>
      f ← read_fld val;
      decode_elem decode val i (f_parent f);;
      modify_fld val (fun f =>
        match f_d f with
        | ACTF_FLD_TYPE_ARR vals n_vals => mk_fld (f_cls f) (f_parent f) (ACTF_FLD_TYPE_ARR vals (n_vals + 1))
        | _ => f
        end);;
      arr_loop decode val n' (S i)
  end.

Definition fld_cls_arr_decode (decode : addr -> st actf_decoder unit) (align arr_len : Z) (val : addr) :
    st actf_decoder unit :=
  on_cur (do_align align);;
  vals ← alloc_flds arr_len;
  set_fld_d val (ACTF_FLD_TYPE_ARR vals 0);;
  arr_loop decode val (Z.to_nat arr_len) 0.

(** The loop of [fld_cls_struct_decode] over the members from the [i]-th. *)
Definition members_loop (decode : actf_fld_cls -> addr -> st actf_decoder unit) (val : addr) :=
  fix members (ms : list (string * actf_fld_cls)) (i : nat) : st actf_decoder unit :=
    match ms with
    | [] => mret tt
    | (_, member_cls) :: ms' =>
        decode_elem (decode member_cls) val i (Some val);;
        handle_roles_of member_cls (elem val i);;
        members ms' (S i)
    end.

(** The class that an optional or a variant selects, and its roles. *)
Definition decode_selected (decode : actf_fld_cls -> addr -> st actf_decoder unit) (val : addr) (c : actf_fld_cls) :
    st actf_decoder unit :=
  decode c val;; handle_roles_of c val.

(** The [i]-th option. *)
Definition decode_option (decode : actf_fld_cls -> addr -> st actf_decoder unit) (val : addr) :=
  fix option_at (opts : list (option string * actf_fld_cls * actf_rng_set)) (i : nat) : st actf_decoder unit :=
    match opts, i with
    | (_, c, _) :: _, O => decode_selected decode val c
    | _ :: opts', S i' => option_at opts' i'
    | [], _ => st_undef
    end.

(** [fld_cls_decode], with the decoders of the compound classes written out;
    the recursion is on the class. *)
Fixpoint fld_cls_decode (cls : actf_fld_cls) (val : addr) : st actf_decoder unit :=
  set_fld_cls val cls;;
  match cls with
  | FC_NIL => st_fail ACTF_INTERNAL
  | FC_FXD_LEN_BIT_ARR a => fld_cls_fxd_len_bit_arr_decode a val
  | FC_FXD_LEN_BIT_MAP a _ => fld_cls_fxd_len_bit_map_decode a val
  | FC_FXD_LEN_UINT _ a _ => fld_cls_fxd_len_uint_decode a val
  | FC_FXD_LEN_SINT _ a _ => fld_cls_fxd_len_sint_decode a val
  | FC_FXD_LEN_BOOL a => fld_cls_fxd_len_bool_decode a val
  | FC_FXD_LEN_FLOAT a => fld_cls_fxd_len_float_decode a val
  | FC_VAR_LEN_UINT _ _ => fld_cls_var_len_uint_decode cls val
  | FC_VAR_LEN_SINT _ _ => fld_cls_var_len_sint_decode cls val
  | FC_NULL_TERM_STR enc => fld_cls_null_term_str_decode cls enc val
  | FC_STATIC_LEN_STR enc n => fld_cls_static_len_str_decode cls enc n val
  | FC_DYN_LEN_STR enc loc => fld_cls_dyn_len_str_decode cls enc loc val
  | FC_STATIC_LEN_BLOB n _ _ => fld_cls_static_len_blob_decode cls n val
  | FC_DYN_LEN_BLOB loc _ => fld_cls_dyn_len_blob_decode cls loc val
  | FC_STRUCT ms _ _ =>
      (* fld_cls_struct_decode *)
      al ← align_req cls;
      on_cur (do_align al);;
      vals ← alloc_flds (Z.of_nat (length ms));
      set_fld_d val (ACTF_FLD_TYPE_STRUCT vals);;
      members_loop fld_cls_decode val ms 0%nat
  | FC_STATIC_LEN_ARR ele _ n =>
      (* fld_cls_static_len_arr_decode *)
      al ← align_req cls;
      _ ← get_arr_cls_len val;
      fld_cls_arr_decode (fld_cls_decode ele) al n val
  | FC_DYN_LEN_ARR ele _ _ =>
      (* fld_cls_dyn_len_arr_decode *)
      al ← align_req cls;
      n ← get_arr_cls_len val;
      fld_cls_arr_decode (fld_cls_decode ele) al n val
  | FC_OPTIONAL c loc rngs =>
      (* fld_cls_optional_decode *)
      enabled ← optional_enabled loc rngs val;
      if (enabled : bool) then decode_selected fld_cls_decode val c
      else set_fld_d val ACTF_FLD_TYPE_NIL
  | FC_VARIANT opts loc =>
      (* fld_cls_variant_decode *)
      i ← variant_option opts loc val;
      decode_option fld_cls_decode val opts i
  end.

(** * Packets and events *)

Definition dec_state_init (pkt_bit_off : Z) : st actf_decoder unit :=
  st_modify (fun d =>
    let s := dec_s d in
    set_dec_s (mk_dec_state (arena_clear (pkt_arena s)) (arena_clear (ev_arena s))
                 (actf_pkt_init (set_bit_off pkt_bit_off (pkt_state_init (pkt_s (pkt s))))) None (ctx s)) d).

(** [if (cls->type != ACTF_FLD_CLS_NIL) { ctx = ...; fld_cls_decode(...) }]. *)
Definition decode_prop (c : dec_ctx) (cls : actf_fld_cls) (r : root) : st actf_decoder unit :=
  match cls with
  | FC_NIL => mret tt
  | _ => st_modify (set_ctx c);; fld_cls_decode cls (mk_addr r [])
  end.

(** The class of the packet, set once its header is decoded. *)
Definition get_dsc : st actf_decoder actf_dstream_cls := fun d =>
  match dsc_cls (d_pkt_s d) with None => (Undef, d) | Some dsc => (Ok dsc, d) end.

Definition lift_outcome {A} (r : outcome A) : st actf_decoder A := fun d => (r, d).

Definition actf_decoder_ev_decode : st actf_decoder unit :=
  st_modify (set_ev (Some actf_event_init));;
  dsc ← get_dsc;
  decode_prop DEC_CTX_EVENT_HEADER (event_hdr dsc) (REv ACTF_EVENT_PROP_HEADER);;
  d ← st_get;
  match ev (dec_s d) with
  | None => st_undef
  | Some e =>
      evcp ← lift_outcome (u64toevc_find (idtoevc dsc) (ev_id (ev_s e)));
      match evcp with
      | None => st_fail ACTF_NO_SUCH_ID
      | Some evc =>
          st_modify (set_ev (Some (set_ev_state
            (mk_event_state (ev_id (ev_s e)) (Some evc) (ev_def_clk_val (ev_s e))) (Some dsc) e)));;
          decode_prop DEC_CTX_EVENT_COMMON_CTX (event_common_ctx dsc) (REv ACTF_EVENT_PROP_COMMON_CTX);;
          decode_prop DEC_CTX_EVENT_SPECIFIC_CTX (spec_ctx evc) (REv ACTF_EVENT_PROP_SPECIFIC_CTX);;
          decode_prop DEC_CTX_EVENT_PAYLOAD (payload evc) (REv ACTF_EVENT_PROP_PAYLOAD)
      end
  end.

(** The lengths that the packet context leaves unset. *)
Definition complete_lens (p : pkt_state) : pkt_state :=
  let p := if (tot_len p =? UINT64_MAX) && negb (content_len p =? UINT64_MAX)
           then set_tot_len (content_len p) p else p in
  if (content_len p =? UINT64_MAX) && negb (tot_len p =? UINT64_MAX)
  then set_content_len (tot_len p) p else p.

Definition actf_decoder_pkt_hdrctx_decode : st actf_decoder unit :=
  d ← st_get;
  dec_state_init (tot_bit_cnt (br d));;
  decode_prop DEC_CTX_PKT_HEADER (pkt_hdr (trace_cls metadata)) (RPkt ACTF_PKT_PROP_HEADER);;
  d ← st_get;
  dscp ← lift_outcome (u64todsc_find (idtodsc metadata) (dsc_cls_id (d_pkt_s d)));
  match dscp with
  | None => st_fail ACTF_NO_SUCH_ID
  | Some dsc =>
      upd_pkt_s (fun p => set_flag PKT_DSTREAM_CLS (set_dsc_cls (Some dsc) p));;
      match pkt_ctx dsc with
      | FC_NIL => mret tt
      | _ =>
          decode_prop DEC_CTX_PKT_CTX (pkt_ctx dsc) (RPkt ACTF_PKT_PROP_CTX);;
          upd_pkt_s complete_lens;;
          d ← st_get;
          if content_len (d_pkt_s d) >? tot_len (d_pkt_s d) then st_fail ACTF_INVALID_CONTENT_LEN else mret tt
      end
  end.

Definition d_bits_remaining (d : actf_decoder) : Z := pkt_bits_remaining (d_pkt_s d) (br d).

(** The loop over the events of a packet; [room] is what is left of the output
    array. *)
Fixpoint ev_loop (room : nat) : st actf_decoder bool :=
  d ← st_get;
  if breader_has_bits_remaining (br d) && c_true (d_bits_remaining d) then
    match room with
    | O => st_modify (set_resume_pkt true);; mret true
    | S room' =>
        actf_decoder_ev_decode;;
        st_modify (fun d => set_evs (evs d ++ option_list (ev (dec_s d))) d);;
        ev_loop room'
    end
  else mret false.

(** Skip from the end of the content to the end of the packet. *)
Definition skip_to_end : st actf_decoder unit :=
  d ← st_get;
  let p := d_pkt_s d in
  if negb (tot_len p =? UINT64_MAX) && negb (content_len p =? UINT64_MAX) then
    let skip_cnt := u64 (bit_off p + tot_len p - tot_bit_cnt (br d)) in
    on_cur (on_br (breader_consume_checked skip_cnt))
  else mret tt.

Definition actf_decoder_pkt_decode : st actf_decoder unit :=
  d ← st_get;
  (if DECODING_STATE_RESUME_PKT (state d) then
     st_modify (fun d => set_resume_pkt false
       (set_arenas (pkt_arena (dec_s d)) (arena_clear (ev_arena (dec_s d))) d))
   else actf_decoder_pkt_hdrctx_decode);;
  d ← st_get;
  full ← ev_loop (evs_cap d - length (evs d));
  if (full : bool) then mret tt else skip_to_end.

(** * The decoder *)

(** [mmap]ed data and the capacity of the output array, 0 for the default. *)
Definition actf_decoder_init (data : list Z) (evs_cap : nat) : actf_decoder :=
  let evs_cap := match evs_cap with O => ACTF_DEFAULT_EVS_CAP | _ => evs_cap end in
  mk_decoder DECODING_STATE_OK 0 0 0 (breader_init data (Z.of_nat (length data)) ACTF_LIL_ENDIAN) [] evs_cap
    (mk_dec_state (mk_arena [] [] (16 * SIZEOF_FLD) 0) (mk_arena [] [] (16 * SIZEOF_FLD * Z.of_nat evs_cap) 0)
       (actf_pkt_init zero_pkt_state) None DEC_CTX_PKT_HEADER).

Definition actf_decoder_decode : st actf_decoder (list actf_event) := fun d =>
  if DECODING_STATE_RESUME_SEEK (state d) then
    (Ok (take (seek_evs_len d) (drop (seek_evs_off d) (evs d))), set_resume_seek false d)
  else if DECODING_STATE_ERROR (state d) then (Err (err_rc d), d)
  else
    let d := set_evs [] d in
    if breader_has_bits_remaining (br d) then
      match actf_decoder_pkt_decode d with
      | (Ok _, d') => (Ok (evs d'), d')
      | (Err rc, d') =>
          let d'' := set_error rc d' in
          match evs d' with [] => (Err rc, d'') | _ => (Ok (evs d'), d'') end
      | (Undef, d') => (Undef, d')
      end
    else (Ok [], d).

(** The index of the first event with a timestamp at or after [t]; [Undef] when
    a conversion on the way is undefined. *)
Fixpoint first_at (t : Z) (es : list actf_event) (i : nat) : outcome (option nat) :=
  match es with
  | [] => Ok None
  | e :: es' =>
      match actf_event_tstamp_ns_from_origin e with
      | None => Undef
      | Some ts => if ts >=? t then Ok (Some i) else first_at t es' (S i)
      end
  end.

(** The inner loop of the seek, through the events of a packet: [Some rc] when
    the loop ends with [rc], [None] when the event was found.  [fuel] bounds the
    calls of [decode]. *)
Fixpoint seek_events (fuel : nat) (t : Z) : st actf_decoder (option Z) :=
  match fuel with
  | O => st_undef
  | S fuel' => fun d =>
      match actf_decoder_decode d with
      | (Undef, d') => (Undef, d')
      | (Err rc, d') => (Ok (Some rc), d')
      | (Ok [], d') => (Ok (Some ACTF_OK), d')
      | (Ok es, d') =>
          match first_at t es 0 with
          | Ok (Some i) => (Ok None, set_seek_evs i (length es - i) (set_resume_seek true d'))
          | Ok None =>
              if d_bits_remaining d' =? 0 then (Ok (Some ACTF_OK), d') else seek_events fuel' t d'
          | Err rc => (Err rc, d')
          | Undef => (Undef, d')
          end
      end
  end.

(** Whether the packet ends before [t]; [None] when the conversion of its end
    is undefined. *)
Definition ends_before (t : Z) (p : pkt_state) : option bool :=
  match dsc_cls p ≫= actf_dstream_cls_clk_cls with
  | Some clkc =>
      if has_flag p PKT_END_DEF_CLK_VAL then
        e ← actf_clk_cls_cc_to_ns_from_origin clkc (end_def_clk_val p); Some (e <? t)
      else Some false
  | None => Some false
  end.

(** The outer loop of the seek, packet by packet; [rc] is the result so far. *)
Fixpoint seek_loop (fuel : nat) (t rc : Z) : st actf_decoder unit :=
  match fuel with
  | O => st_undef
  | S fuel' => fun d =>
      if breader_has_bits_remaining (br d) then
        match actf_decoder_pkt_hdrctx_decode d with
        | (Undef, d') => (Undef, d')
        | (Err rc, d') => (Err rc, set_error rc d')
        | (Ok _, d') =>
            let p := d_pkt_s d' in
            match ends_before t p with
            | None => (Undef, d')
            | Some true =>
                let off := sataddu64 (bit_off p) (tot_len p) in
                seek_loop fuel' t ACTF_OK (set_br (breader_seek (off / 8) BREADER_SEEK_SET (br d')) d')
            | Some false =>
                match seek_events fuel' t (set_resume_pkt true d') with
                | (Ok None, d2) => (Ok tt, d2)
                | (Ok (Some rc), d2) => seek_loop fuel' t rc d2
                | (Err rc, d2) => (Err rc, d2)
                | (Undef, d2) => (Undef, d2)
                end
            end
        end
      else (if rc <? 0 then Err rc else Ok tt, d)
  end.

Definition actf_decoder_seek_ns_from_origin (fuel : nat) (t : Z) : st actf_decoder unit := fun d =>
  seek_loop fuel t ACTF_OK
    (set_br (breader_seek 0 BREADER_SEEK_SET (br d)) (set_state DECODING_STATE_OK d)).

(** [actf_decoder_to_generator]; [fuel] is that of the seek. *)
Definition actf_decoder_to_generator (fuel : nat) : Generator actf_decoder actf_event :=
  {| generate := actf_decoder_decode; seek_ns_from_origin := actf_decoder_seek_ns_from_origin fuel |}.

End Decoder.
