(* ===== verification/DecoderInv.v ===== *)
(** Invariants of the decoder.

    The first part is memory safety of the bit reader without any assumption on
    what it has read so far: [br_ok] holds of every reader the decoder can
    produce, also after the byte order was switched inside a byte.  The second
    part is a rule for invariants of [fld_cls_decode]: a property of the decoder
    that the scalar readers, the roles and updates of fields keep is kept by
    the decoding of every field class. *)
From S2P Require Import Prelude Common Breader Rng Generator HashMap Clock FldCls Metadata Fld Scalar Arena Decoder.

(** * The reader stays in its data *)

Section ReaderSafe.
Context (data : list Z).
Hypotheses (Hdata : Forall is_byte data) (Hsize : 8 * Z.of_nat (length data) <= 2 ^ 62).

(** The representation invariant of the reader, less what its look-ahead
    holds. *)
Record br_ok (br : breader) : Prop := {
  ok_mem : br_mem br = data;
  ok_start : start_ptr br = 0;
  ok_end : end_ptr br = Z.of_nat (length data);
  ok_rp : 0 <= read_ptr br <= end_ptr br;
  ok_cnt : 0 <= lookahead_bit_cnt br <= 63;
  ok_tot : tot_bit_cnt br = 8 * read_ptr br - lookahead_bit_cnt br;
  ok_pos : 0 <= tot_bit_cnt br;
  ok_la : is_u64 (lookahead br)
}.

Lemma breader_init_ok bo : br_ok (breader_init data (Z.of_nat (length data)) bo).
Proof. split; cbn; try done; try lia. Qed.

Lemma set_bo_ok bo br : br_ok br -> br_ok (breader_set_bo bo br).
Proof.
  intros []. unfold breader_set_bo. destruct (decide (br_bo br = bo)); [by split|].
  split; cbn; try done. by apply bswap64_range.
Qed.

Lemma refillm_ok bo br : br_ok br -> br_ok (breader_refillm (shft_of bo) (htobo_of bo) br).
Proof.
  intros []. unfold breader_refillm. rewrite shiftr_3.
  assert (Hla : forall w, is_u64 w ->
    is_u64 (Z.lor (lookahead br) (shft_of bo (htobo_of bo w) (lookahead_bit_cnt br)))).
  { intros w Hw. apply lor_range; [done|]. apply shft_of_range; [by apply htobo_range|lia]. }
  assert (Hb : Forall is_byte (br_mem br)) by (by rewrite ok_mem0).
  destruct (Z.geb_spec (end_ptr br - read_ptr br) 8).
  - split; cbn; try done; try (unfold MAX_READ_BITS; rewrite lor_56 by lia; zlia); try zlia.
    apply Hla. unfold read_unalign_64. apply le_load_range; (done || lia).
  - destruct (Z.ltb_spec (end_ptr br - read_ptr br) ((63 - lookahead_bit_cnt br) / 8));
      split; cbn; try done; try zlia; apply Hla; apply le_load_range; (done || lia).
Qed.

Lemma refill_of_ok bo : keeps br_ok (refill_of bo).
Proof.
  intros br Hbr. destruct bo; [exact (refillm_ok ACTF_LIL_ENDIAN br Hbr)|exact (refillm_ok ACTF_BIG_ENDIAN br Hbr)].
Qed.

Lemma breader_refill_ok : keeps br_ok breader_refill.
Proof. intros br Hbr. unfold breader_refill. st_unfold. 
  destruct (br_bo br); [apply (refill_of_ok ACTF_LIL_ENDIAN br Hbr)|apply (refill_of_ok ACTF_BIG_ENDIAN br Hbr)]. Qed.

Lemma consumem_ok bo n : 0 <= n -> keeps br_ok (breader_consumem n (consume_shft_of bo)).
Proof.
  intros Hn br Hbr. unfold breader_consumem. st_unfold.
  destruct (Z.leb_spec n (lookahead_bit_cnt br)); [|done]. destruct Hbr.
  assert (Hu : u64 (tot_bit_cnt br + n) = tot_bit_cnt br + n) by (apply u64_small; unfold is_u64; lia).
  split; cbn; rewrite ?Hu; try done; try lia. by apply consume_shft_range.
Qed.

Lemma consume_of_ok bo n : 0 <= n -> keeps br_ok (consume_of bo n).
Proof. intros Hn. destruct bo; [apply (consumem_ok ACTF_LIL_ENDIAN n Hn)|apply (consumem_ok ACTF_BIG_ENDIAN n Hn)]. Qed.

Lemma breader_consume_ok n : 0 <= n -> keeps br_ok (breader_consume n).
Proof.
  intros Hn br Hbr. unfold breader_consume. st_unfold. destruct (n <=? lookahead_bit_cnt br); [|done].
  destruct (br_bo br); [apply (consume_of_ok ACTF_LIL_ENDIAN n Hn br Hbr)|apply (consume_of_ok ACTF_BIG_ENDIAN n Hn br Hbr)].
Qed.

Lemma peek_of_ok bo n : keeps br_ok (peek_of bo n).
Proof.
  apply keeps_pure. intros br. destruct bo; cbn; unfold breader_peek_le, breader_peek_be; st_unfold;
    by destruct (n <=? lookahead_bit_cnt br).
Qed.

Lemma breader_peek_ok n : keeps br_ok (breader_peek n).
Proof.
  apply keeps_pure. intros br. unfold breader_peek, breader_peek_le, breader_peek_be. st_unfold.
  destruct (n <=? lookahead_bit_cnt br); [|done]. destruct (br_bo br); by destruct (n <=? lookahead_bit_cnt br).
Qed.

(** Skipping the look-ahead and [n] whole bytes behind it. *)
Lemma skip_ok br n :
  br_ok br -> lookahead_bit_cnt br = 0 -> 0 <= n <= end_ptr br - read_ptr br ->
  br_ok {| br_bo := br_bo br; br_mem := br_mem br; start_ptr := start_ptr br;
           read_ptr := read_ptr br + n; end_ptr := end_ptr br;
           lookahead := 0; lookahead_bit_cnt := lookahead_bit_cnt br;
           tot_bit_cnt := u64 (tot_bit_cnt br + n * 8) |}.
Proof.
  intros [] H0 Hn. rewrite u64_small by (unfold is_u64; lia). split; cbn; try done; lia.
Qed.

Lemma consume_checkedm_ok bo cnt :
  0 <= cnt -> keeps br_ok (breader_consume_checkedm (consume_of bo) (refill_of bo) cnt).
Proof.
  intros Hcnt br Hbr. unfold breader_consume_checkedm.
  rewrite (st_bind_ok st_get _ br br br) by done.
  destruct (Z.leb_spec cnt (lookahead_bit_cnt br)); [by apply consume_of_ok|].
  assert (H0 : 0 <= lookahead_bit_cnt br) by apply Hbr.
  pose proof (consume_of_ok bo (lookahead_bit_cnt br) H0 br Hbr) as H1.
  assert (Hrun : exists br1, consume_of bo (lookahead_bit_cnt br) br = (Ok tt, br1) /\
            lookahead_bit_cnt br1 = 0 /\ end_ptr br1 = end_ptr br).
  { destruct bo; cbn; unfold breader_consume_le, breader_consume_be, breader_consumem; st_unfold;
      rewrite Z.leb_refl; eexists; (split; [reflexivity|]); cbn; split; (done || lia). }
  destruct Hrun as (br1 & Hrun & Hc1 & He1). rewrite Hrun in H1. cbn in H1.
  rewrite (st_bind_ok _ _ _ _ _ Hrun), (st_bind_ok st_get _ br1 br1 br1) by done. rewrite shiftr_3.
  destruct (Z.leb_spec (end_ptr br1 - read_ptr br1) ((cnt - lookahead_bit_cnt br) / 8)).
  { apply (skip_ok br1 _ H1 Hc1). destruct H1. lia. }
  set (br2 := {| br_bo := _ |}).
  assert (Hbr2 : br_ok br2) by (apply (skip_ok br1 _ H1 Hc1); zlia).
  rewrite (st_bind_ok (st_put br2) _ br1 tt br2) by done.
  clearbody br2. revert br2 Hbr2.
  match goal with |- forall br2, br_ok br2 -> br_ok (snd (?m br2)) => change (keeps br_ok m) end.
  apply keeps_bind; [apply refill_of_ok|]. intros avail.
  apply keeps_bind; [apply keeps_assert|]. intros _. apply breader_consume_ok. rewrite land_7. zlia.
Qed.

Lemma consume_checked_ok n : 0 <= n -> keeps br_ok (breader_consume_checked n).
Proof.
  intros Hn br Hbr. unfold breader_consume_checked. st_unfold. destruct (br_bo br);
    [apply (consume_checkedm_ok ACTF_LIL_ENDIAN n Hn br Hbr)|apply (consume_checkedm_ok ACTF_BIG_ENDIAN n Hn br Hbr)].
Qed.

Lemma align_of_ok bo al : keeps br_ok (align_of bo al).
Proof.
  intros br Hbr.
  assert (Hd : align_of bo al = breader_alignm (breader_consume_checkedm (consume_of bo) (refill_of bo)) al)
    by (by destruct bo).
  rewrite Hd. unfold breader_alignm. rewrite (st_bind_ok st_get _ br br br) by done.
  unfold c_assert. unfold mbind at 1, st_bind at 1.
  destruct (Z.geb_spec (align_up (tot_bit_cnt br) al) (tot_bit_cnt br)); [|done].
  apply consume_checkedm_ok; [lia|done].
Qed.

Lemma breader_read_bytes_ok n : keeps br_ok (breader_read_bytes n).
Proof.
  unfold breader_read_bytes. apply keeps_bind; [apply keeps_get|]. intros br.
  apply keeps_bind; [apply keeps_assert|]. intros _. case_match; [apply keeps_ret|].
  apply keeps_bind; [|intros; apply keeps_ret]. apply consume_checked_ok. apply u64_range.
Qed.

Lemma seek_ok off whence br : br_ok br -> 0 <= off -> br_ok (breader_seek off whence br).
Proof.
  intros Hbr Hoff. destruct Hbr.
  assert (Hgo : forall p, 0 <= p <= end_ptr br -> br_ok {| br_bo := br_bo br; br_mem := br_mem br;
     start_ptr := start_ptr br; read_ptr := p; end_ptr := end_ptr br; lookahead := 0; lookahead_bit_cnt := 0;
     tot_bit_cnt := u64 ((p - start_ptr br) * 8) |}).
  { intros p Hp. rewrite u64_small by (unfold is_u64; lia). split; cbn; try done; lia. }
  unfold breader_seek. destruct whence; repeat case_match; apply Hgo; lia.
Qed.

Lemma read_fxd_bits_ok bo n : 1 <= n -> keeps br_ok (read_fxd_bits bo n).
Proof.
  intros Hn br Hbr. unfold read_fxd_bits. pose proof (refill_of_ok bo br Hbr) as H1.
  assert (Hrun : exists br1, refill_of bo br = (Ok (lookahead_bit_cnt br1), br1))
    by (destruct bo; eexists; reflexivity).
  destruct Hrun as (br1 & Hrun). rewrite Hrun in H1. cbn in H1. rewrite (st_bind_ok _ _ _ _ _ Hrun).
  pose proof (ok_cnt _ H1) as Hc. pose proof (MIN_spec (lookahead_bit_cnt br1) n) as Hmin.
  destruct (negb _); [done|]. revert br1 H1 Hc Hmin Hrun. intros br1 H1 Hc Hmin _.
  set (f := MIN (lookahead_bit_cnt br1) n) in *. clearbody f.
  assert (Hf : 0 <= f <= n) by lia. clear Hmin Hc. revert br1 H1.
  match goal with |- forall b, br_ok b -> br_ok (snd (?m b)) => change (keeps br_ok m) end.
  pose proof peek_of_ok. pose proof refill_of_ok. pose proof consume_of_ok.
  assert (Hup : forall r a b, keeps br_ok (read_upper_bits_of bo r a b)).
  { intros r a b. destruct bo; [unfold read_upper_bits_of, read_upper_bits_le|unfold read_upper_bits_of, read_upper_bits_be];
      (apply keeps_bind; [|intros; apply keeps_ret]); [apply (peek_of_ok ACTF_LIL_ENDIAN)|apply (peek_of_ok ACTF_BIG_ENDIAN)]. }
  apply keeps_bind; [done|]. intros result. apply keeps_bind; [apply consume_of_ok; lia|]. intros _.
  case_match; [|apply keeps_ret]. apply keeps_bind; [done|]. intros avail. case_match; [apply keeps_fail|].
  apply keeps_bind; [done|]. intros r. apply keeps_bind; [apply consume_of_ok; lia|]. intros; apply keeps_ret.
Qed.

Lemma var_len_inner_ok n result shift : keeps br_ok (var_len_inner n result shift).
Proof.
  revert result shift. induction n as [|n IH]; intros result shift; cbn [var_len_inner]; [apply keeps_ret|].
  pose proof breader_peek_ok. apply keeps_bind; [done|]. intros v. apply keeps_bind; [apply keeps_assert|]. intros _.
  apply keeps_bind; [by apply breader_consume_ok|]. intros _. apply keeps_bind; [done|]. intros more.
  apply keeps_bind; [by apply breader_consume_ok|]. intros _. case_match; [apply IH|apply keeps_ret].
Qed.

(** ** Programs on the cursor *)

Section CursorSafe.
(** A property of the packet state that recording a byte order keeps. *)
Context (R : pkt_state -> Prop) (HR : forall b p, R p -> R (set_last_bo b p)).

Definition cur_ok (c : cursor) : Prop := br_ok (c_br c) /\ R (c_pkt c).

Lemma on_br_ok {A} (m : st breader A) : keeps br_ok m -> keeps cur_ok (on_br m).
Proof. intros Hm. apply keeps_zoom with (J := br_ok); [done|by intros c []|by intros c b []]. Qed.

Lemma set_bo_cur_ok b : keeps cur_ok (on_br (st_modify (breader_set_bo b))).
Proof. apply on_br_ok, keeps_modify. apply set_bo_ok. Qed.

Lemma do_align_of_ok bo al : keeps cur_ok (do_align_of bo al).
Proof.
  assert (Hd : do_align_of bo al = do_alignm (align_of bo) al) by (by destruct bo).
  rewrite Hd. unfold do_alignm. apply keeps_bind; [apply on_br_ok, align_of_ok|]. intros _.
  apply keeps_bind; [apply keeps_get|]. intros c. case_match; [apply keeps_fail|apply keeps_ret].
Qed.

Lemma do_align_ok al : keeps cur_ok (do_align al).
Proof.
  unfold do_align. apply keeps_bind; [apply keeps_get|]. intros c.
  destruct (br_bo (c_br c)); [apply (do_align_of_ok ACTF_LIL_ENDIAN)|apply (do_align_of_ok ACTF_BIG_ENDIAN)].
Qed.

Lemma fxd_len_bit_arr_decode_ok a : bit_arr_wf a -> keeps cur_ok (fxd_len_bit_arr_decode a).
Proof.
  intros [Hlen _].
  assert (Hm : forall bo, keeps cur_ok (fxd_len_bit_arr_decodem a bo)).
  { intros bo. unfold fxd_len_bit_arr_decodem. apply keeps_bind; [apply keeps_assert|]. intros _.
    apply keeps_bind; [apply set_bo_cur_ok|]. intros _. apply keeps_bind; [apply do_align_of_ok|]. intros _.
    apply keeps_bind; [apply keeps_get|]. intros c. case_match; [apply keeps_fail|]. case_match; [apply keeps_fail|].
    apply keeps_bind; [apply on_br_ok, read_fxd_bits_ok; lia|]. intros r.
    apply keeps_bind; [|intros; apply keeps_ret]. apply keeps_modify. intros c' [H1 H2]. split; [done|]. by apply HR. }
  unfold fxd_len_bit_arr_decode. destruct (bo a); apply Hm.
Qed.

Lemma var_len_int_decode_ok al : keeps cur_ok (fld_cls_var_len_int_decode al).
Proof.
  assert (Hout : forall fuel result shift, keeps cur_ok (var_len_outer fuel result shift)).
  { induction fuel as [|fuel IH]; intros result shift; cbn [var_len_outer]; [apply keeps_undef|].
    apply keeps_bind; [apply on_br_ok, breader_refill_ok|]. intros av. case_match; [apply keeps_fail|].
    apply keeps_bind; [apply on_br_ok, var_len_inner_ok|]. intros [[r s] fin].
    apply keeps_bind; [apply keeps_get|]. intros c. case_match; [apply keeps_fail|].
    case_match; [apply keeps_ret|apply IH]. }
  unfold fld_cls_var_len_int_decode. apply keeps_bind; [apply set_bo_cur_ok|]. intros _.
  apply keeps_bind; [apply do_align_ok|]. intros _. apply keeps_bind; [apply keeps_get|]. intros c.
  case_match; [apply keeps_fail|apply Hout].
Qed.

Lemma find_null_ok ptr n enc : keeps cur_ok (find_null ptr n enc).
Proof. by apply keeps_pure. Qed.

Lemma read_bytes_cur_ok n : keeps cur_ok (on_br (breader_read_bytes n)).
Proof. apply on_br_ok, breader_read_bytes_ok. Qed.
#[local] Hint Resolve do_align_ok find_null_ok read_bytes_cur_ok : st_logic.

Lemma read_null_term_str_ok enc al : keeps cur_ok (read_null_term_str enc al).
Proof. unfold read_null_term_str. keeps_auto. Qed.

Lemma read_str_ok enc al n : keeps cur_ok (read_str enc al n).
Proof. unfold read_str. keeps_auto. Qed.

Lemma read_blob_ok al n : keeps cur_ok (read_blob al n).
Proof. unfold read_blob. keeps_auto. Qed.
End CursorSafe.
End ReaderSafe.

(** * Invariants of the decoding of fields *)

(** The programs on the cursor that the decoders of field classes run. *)
Inductive scalar_op : forall A, st cursor A -> Prop :=
| op_bit_arr a : bit_arr_wf a -> scalar_op Z (fxd_len_bit_arr_decode a)
| op_var_len al : scalar_op (Z * Z) (fld_cls_var_len_int_decode al)
| op_null_term_str enc al : scalar_op (Z * Z) (read_null_term_str enc al)
| op_str enc al n : scalar_op (Z * Z) (read_str enc al n)
| op_blob al n : scalar_op Z (read_blob al n)
| op_align al : scalar_op unit (do_align al).
Arguments scalar_op {A}.

Lemma scalar_op_ok data R {A} (m : st cursor A) :
  Forall is_byte data -> 8 * Z.of_nat (length data) <= 2 ^ 62 ->
  (forall b p, R p -> R (set_last_bo b p)) -> scalar_op m -> keeps (cur_ok data R) m.
Proof.
  intros Hd Hs HR [a Ha|al|enc al|enc al n|al n|al].
  - by apply fxd_len_bit_arr_decode_ok.
  - by apply var_len_int_decode_ok.
  - by apply read_null_term_str_ok.
  - by apply read_str_ok.
  - by apply read_blob_ok.
  - by apply do_align_ok.
Qed.

Section FieldInv.
Context (metadata : actf_metadata) (pkt_malloc ev_malloc : nat -> Z -> bool) (loc_fuel : nat).
Notation decode := (fld_cls_decode metadata pkt_malloc ev_malloc loc_fuel).

(** A property of the decoder that the steps of decoding a field keep, for fields in the
    roots [R]. *)
Record field_inv (R : root -> Prop) (I : actf_decoder -> Prop) : Prop := {
  fi_root : forall r h d, R r -> I d -> I (upd_root r h d);
  fi_arenas : forall p e d, I d -> I (set_arenas p e d);
  fi_cur : forall A (m : st cursor A), scalar_op m -> keeps I (on_cur m);
  fi_roles : forall roles cls val, keeps I (handle_fld_roles metadata roles cls val)
}.

Section Rule.
Context (R : root -> Prop) (I : actf_decoder -> Prop) (HI : field_inv R I).

Lemma modify_fld_keeps val h : R (a_root val) -> keeps I (modify_fld val h).
Proof. intros Hr d Hd. unfold modify_fld. case_match; [|done]. by apply HI. Qed.

Lemma read_fld_keeps val : keeps I (read_fld val).
Proof. apply keeps_pure. intros d. unfold read_fld. by case_match. Qed.

Lemma locate_keeps loc val : keeps I (locate loc_fuel loc val).
Proof. apply keeps_pure. intros d. unfold locate. by case_match. Qed.

Lemma align_req_keeps cls : keeps I (align_req cls).
Proof. unfold align_req. case_match; [apply keeps_ret|apply keeps_undef]. Qed.

Lemma alloc_flds_keeps n : keeps I (alloc_flds pkt_malloc ev_malloc n).
Proof.
  intros d Hd. unfold alloc_flds.
  assert (Hset : forall p e, I (set_dec_s (mk_dec_state p e (pkt (dec_s d)) (ev (dec_s d)) (ctx (dec_s d))) d))
    by (intros p e; apply (fi_arenas R I HI p e d Hd)).
  destruct (ctx (dec_s d)) eqn:Ectx; destruct (arena_alloc_align _ _ _ _) as [p a]; destruct p as [p|]; cbn;
    try (destruct (chunk_fits a p)); cbn; rewrite ?Ectx; apply Hset.
Qed.

Lemma on_cur_keeps {A} (m : st cursor A) : scalar_op m -> keeps I (on_cur m).
Proof. apply HI. Qed.

#[local] Hint Resolve modify_fld_keeps read_fld_keeps locate_keeps align_req_keeps alloc_flds_keeps : st_logic.
#[local] Hint Extern 2 (keeps I (on_cur _)) => apply on_cur_keeps; constructor : st_logic.
#[local] Hint Extern 1 (keeps I (set_fld_d _ _)) => apply modify_fld_keeps; assumption : st_logic.
#[local] Hint Extern 1 (keeps I (set_fld_cls _ _)) => apply modify_fld_keeps; assumption : st_logic.
#[local] Hint Extern 1 (keeps I (set_fld_parent _ _)) => apply modify_fld_keeps; assumption : st_logic.

Lemma read_len_keeps loc val : keeps I (read_len loc_fuel loc val).
Proof. unfold read_len. keeps_auto. Qed.
#[local] Hint Resolve read_len_keeps : st_logic.

Lemma get_arr_cls_len_keeps val : keeps I (get_arr_cls_len loc_fuel val).
Proof. unfold get_arr_cls_len. keeps_auto. Qed.

Lemma optional_enabled_keeps loc rngs val : keeps I (optional_enabled loc_fuel loc rngs val).
Proof. unfold optional_enabled. keeps_auto. Qed.

Lemma variant_option_keeps opts loc val : keeps I (variant_option loc_fuel opts loc val).
Proof. unfold variant_option. keeps_auto. Qed.
#[local] Hint Resolve get_arr_cls_len_keeps optional_enabled_keeps variant_option_keeps : st_logic.

Lemma handle_roles_of_keeps cls val : keeps I (handle_roles_of metadata cls val).
Proof. unfold handle_roles_of. case_match; [apply HI|apply keeps_ret]. Qed.

Definition keeps_at (dec : addr -> st actf_decoder unit) : Prop := forall v, R (a_root v) -> keeps I (dec v).

Lemma decode_elem_keeps dec val i p : R (a_root val) -> keeps_at dec -> keeps I (decode_elem dec val i p).
Proof. intros Hr Hd. unfold decode_elem. apply keeps_bind; [by apply modify_fld_keeps|intros _; by apply Hd]. Qed.

Lemma arr_decode_keeps dec al n val :
  R (a_root val) -> keeps_at dec -> keeps I (fld_cls_arr_decode pkt_malloc ev_malloc dec al n val).
Proof.
  intros Hr Hd. unfold fld_cls_arr_decode.
  assert (Hloop : forall k i, keeps I (arr_loop dec val k i)).
  { induction k as [|k IH]; intros i; cbn [arr_loop]; [apply keeps_ret|].
    apply keeps_bind; [apply read_fld_keeps|]. intros f. apply keeps_bind; [by apply decode_elem_keeps|]. intros _.
    apply keeps_bind; [by apply modify_fld_keeps|]. intros _. apply IH. }
  keeps_auto.
Qed.

Lemma members_loop_keeps ms val i :
  R (a_root val) -> Forall (fun m => keeps_at (decode (snd m))) ms -> keeps I (members_loop metadata decode val ms i).
Proof.
  intros Hr Hms. revert i. induction Hms as [|[nm c] ms Hc _ IH]; intros i; cbn; [apply keeps_ret|].
  apply keeps_bind; [by apply decode_elem_keeps|]. intros _.
  apply keeps_bind; [apply handle_roles_of_keeps|]. intros _. apply IH.
Qed.

Lemma decode_option_keeps opts val i :
  R (a_root val) -> Forall (fun c => keeps_at (decode c)) (map (fun o => snd (fst o)) opts) ->
  keeps I (decode_option metadata decode val opts i).
Proof.
  intros Hr Ho. revert i. induction opts as [|[[nm c] rs] opts IH]; intros i; [apply keeps_undef|].
  inversion_clear Ho as [|? ? Hc Hopts]. destruct i as [|i]; cbn; [|by apply IH].
  apply keeps_bind; [by apply Hc|]. intros _. apply handle_roles_of_keeps.
Qed.

(** Decoding a field of any well-formed class keeps such a property, whatever
    the data and whether or not it succeeds. *)
Lemma fld_cls_decode_keeps cls : fc_wf cls -> keeps_at (decode cls).
Proof.
  induction cls as [cls IH] using fld_cls_ind_subs. intros Hwf val Hr.
  assert (Hsubs : Forall (fun c => keeps_at (decode c)) (subs cls)).
  { pose proof (fc_wf_subs cls Hwf) as Hw. induction IH as [|c cs Hc _ IHcs]; [constructor|].
    inversion_clear Hw. constructor; [by apply Hc|by apply IHcs]. }
  clear IH. destruct cls as [| | | | | | | | | | | | | |ms m a|ele m n|ele m l|c l r|opts l];
    cbn [fld_cls_decode]; (apply keeps_bind; [by apply modify_fld_keeps|]; intros _); cbn [subs parts] in Hsubs;
    unfold fld_cls_fxd_len_bit_arr_decode, fld_cls_fxd_len_bit_map_decode, fld_cls_fxd_len_uint_decode,
      fld_cls_fxd_len_sint_decode, fld_cls_fxd_len_bool_decode, fld_cls_fxd_len_float_decode,
      fld_cls_var_len_uint_decode, fld_cls_var_len_sint_decode, fld_cls_null_term_str_decode,
      fld_cls_static_len_str_decode, fld_cls_dyn_len_str_decode, fld_cls_static_len_blob_decode,
      fld_cls_dyn_len_blob_decode; try (keeps_auto; fail).
  - apply keeps_bind; [apply align_req_keeps|]. intros al. apply keeps_bind; [auto with st_logic|]. intros _.
    apply keeps_bind; [apply alloc_flds_keeps|]. intros vals. apply keeps_bind; [by apply modify_fld_keeps|]. intros _.
    apply members_loop_keeps; [done|]. exact (proj1 (Forall_map _ _ _) Hsubs).
  - inversion_clear Hsubs as [|? ? He _]. apply keeps_bind; [apply align_req_keeps|]. intros al.
    apply keeps_bind; [apply get_arr_cls_len_keeps|]. intros _. by apply arr_decode_keeps.
  - inversion_clear Hsubs as [|? ? He _]. apply keeps_bind; [apply align_req_keeps|]. intros al.
    apply keeps_bind; [apply get_arr_cls_len_keeps|]. intros k. by apply arr_decode_keeps.
  - inversion_clear Hsubs as [|? ? Hc _]. apply keeps_bind; [apply optional_enabled_keeps|]. intros b.
    destruct b; [|by apply modify_fld_keeps]. apply keeps_bind; [by apply Hc|]. intros _. apply handle_roles_of_keeps.
  - apply keeps_bind; [apply variant_option_keeps|]. intros i. by apply decode_option_keeps.
Qed.
End Rule.
End FieldInv.

(** * The frame of the decoding of a field

    Decoding the fields of a property leaves alone the members of the decoder
    outside the packet and event, the class of the packet, and, outside the
    event header, the event's id and class; the reader stays in its data. *)

Definition outer (d : actf_decoder) :=
  (state d, err_rc d, seek_evs_off d, seek_evs_len d, evs d, evs_cap d).

Definition ev_id_cls (d : actf_decoder) := (fun e => (ev_s e, ev_dsc e)) <$> ev (dec_s d).

Record framed (data : list Z) (d0 : actf_decoder) (c : dec_ctx) (d : actf_decoder) : Prop := {
  fr_br : br_ok data (br d);
  fr_outer : outer d = outer d0;
  fr_dsc : dsc_cls (d_pkt_s d) = dsc_cls (d_pkt_s d0);
  fr_ctx : ctx (dec_s d) = c;
  fr_ev : c <> DEC_CTX_EVENT_HEADER -> ev_id_cls d = ev_id_cls d0;
  fr_some : is_Some (ev (dec_s d)) <-> is_Some (ev (dec_s d0))
}.

Section Frame.
Context (metadata : actf_metadata) (pkt_malloc ev_malloc : nat -> Z -> bool) (loc_fuel : nat) (data : list Z).
Hypotheses (Hdata : Forall is_byte data) (Hsize : 8 * Z.of_nat (length data) <= 2 ^ 62).

Lemma upd_pkt_s_framed d0 c f :
  (forall p, dsc_cls (f p) = dsc_cls p) -> keeps (framed data d0 c) (upd_pkt_s f).
Proof. intros Hf. apply keeps_modify. intros d []. split; try done. etransitivity; [apply Hf|done]. Qed.

Lemma upd_def_clk_framed d0 c cls f : keeps (framed data d0 c) (upd_def_clk cls f).
Proof. intros d Hd. unfold upd_def_clk. case_match; [|done]. destruct Hd. by split. Qed.

Lemma upd_ev_s_framed d0 f : keeps (framed data d0 DEC_CTX_EVENT_HEADER) (upd_ev_s f).
Proof.
  intros d Hd. unfold upd_ev_s. destruct (ev (dec_s d)) as [e|] eqn:E; [|done]. destruct Hd as [? ? ? ? ? Hs].
  split; try done. cbn. rewrite E. cbn. rewrite <- Hs, E. split; intros _; by eexists.
Qed.

Lemma when_role_keeps (I : actf_decoder -> Prop) roles role c : keeps I c -> keeps I (when_role roles role c).
Proof. intros Hc. unfold when_role. case_match; [done|apply keeps_ret]. Qed.

Lemma handle_fld_roles_framed d0 c roles cls val : keeps (framed data d0 c) (handle_fld_roles metadata roles cls val).
Proof.
  intros d Hd. unfold handle_fld_roles.
  destruct (read_fld val d) as [[f|rc|] d1] eqn:Er; unfold read_fld in Er; case_match; try done.
  2: { injection Er as <-. unfold mbind, st_bind, read_fld. by rewrite H. }
  injection Er as <- <-. rewrite (st_bind_ok (read_fld val) _ d a d) by (unfold read_fld; by rewrite H).
  rewrite (st_bind_ok st_get _ d d d) by done. pose proof (fr_ctx _ _ _ _ Hd) as Hctx.
  pose proof (upd_pkt_s_framed d0 c) as Hupd. pose proof (upd_def_clk_framed d0 c) as Hclk.
  rewrite Hctx. destruct c; try done; revert d Hd Hctx H; intros d Hd _ _; revert d Hd;
    match goal with |- forall d, framed data d0 ?c d -> framed data d0 ?c (snd (?m d)) => change (keeps (framed data d0 c) m) end;
    repeat (apply keeps_bind; [|intros []]); apply when_role_keeps;
    try (apply Hupd; by intros []); try (by apply upd_ev_s_framed).
  - case_match; [apply keeps_fail|apply keeps_ret].
  - case_match; try apply keeps_undef. apply keeps_bind; [|intros []; [apply keeps_fail|apply keeps_ret]].
    apply keeps_pure. intros s. unfold uuid_differs. by case_match.
  - apply keeps_bind; [apply Hclk|]. intros _. apply Hupd. by intros [].
  - apply keeps_bind; [apply Hclk|]. intros _. apply keeps_bind; [apply keeps_get|]. intros s. apply upd_ev_s_framed.
Qed.

Lemma framed_field_inv d0 c : field_inv metadata (fun _ => True) (framed data d0 c).
Proof.
  split.
  - intros r h d _ []. destruct r as [p|p]; [destruct p; by split|]. split; try done.
    + intros Hc. rewrite <- (fr_ev0 Hc). unfold ev_id_cls. cbn. destruct (ev (dec_s d)) as [[]|]; by destruct p.
    + cbn. rewrite fmap_is_Some. exact fr_some0.
  - intros p e d []. by split.
  - intros A m Hm d [].
    assert (HR : forall b p, dsc_cls p = dsc_cls (d_pkt_s d0) -> dsc_cls (set_last_bo b p) = dsc_cls (d_pkt_s d0)) by done.
    pose proof (scalar_op_ok data _ m Hdata Hsize HR Hm (mk_cursor (br d) (d_pkt_s d)) (conj fr_br0 fr_dsc0)) as [H1 H2].
    unfold on_cur, st_zoom. destruct (m _) as [r cu]. by split.
  - intros roles cls val. apply handle_fld_roles_framed.
Qed.

(** [d] is [d0] after some decoding of fields; [same_ev] when the event kept
    its id and class. *)
Definition same_frame (d0 d : actf_decoder) : Prop := exists c, framed data d0 c d.
Definition same_ev (d0 d : actf_decoder) : Prop := same_frame d0 d /\ ev_id_cls d = ev_id_cls d0.

Lemma same_ev_refl d : br_ok data (br d) -> same_ev d d.
Proof. intros Hbr. split; [|done]. by exists (ctx (dec_s d)). Qed.

Lemma decode_prop_framed d0 c c' cls r d :
  fc_wf cls -> framed data d0 c d -> (c' <> DEC_CTX_EVENT_HEADER -> ev_id_cls d = ev_id_cls d0) ->
  framed data d0 c' (snd (decode_prop metadata pkt_malloc ev_malloc loc_fuel c' cls r d)).
Proof.
  intros Hwf Hd Hev. unfold decode_prop. destruct cls; try done.
  all: rewrite (st_bind_ok (st_modify _) _ d tt (set_ctx c' d)) by done.
  all: apply (fld_cls_decode_keeps _ _ _ _ _ _ (framed_field_inv d0 c') _ Hwf).
  all: destruct Hd; by split.
Qed.

Lemma decode_hdr_same d0 cls r :
  cls = FC_NIL \/ fc_wf cls ->
  keeps (same_frame d0) (decode_prop metadata pkt_malloc ev_malloc loc_fuel DEC_CTX_EVENT_HEADER cls r).
Proof.
  intros [->|Hwf]; [apply keeps_ret|]. intros d [c Hd]. exists DEC_CTX_EVENT_HEADER. by apply (decode_prop_framed d0 c).
Qed.

Lemma decode_prop_same d0 c cls r :
  cls = FC_NIL \/ fc_wf cls -> c <> DEC_CTX_EVENT_HEADER ->
  keeps (same_ev d0) (decode_prop metadata pkt_malloc ev_malloc loc_fuel c cls r).
Proof.
  intros [->|Hwf] Hc; [apply keeps_ret|]. intros d [[c0 Hd] Hev].
  pose proof (decode_prop_framed d0 c0 c cls r d Hwf Hd (fun _ => Hev)) as H.
  split; [by exists c|]. by apply (fr_ev _ _ _ _ H).
Qed.
End Frame.

(** * The invariant of the decoder *)

Definition class_ok (fc : actf_fld_cls) : Prop := fc = FC_NIL \/ fc_wf fc.

(** What parsing establishes of the classes that a data stream refers to. *)
Record dsc_wf (dsc : actf_dstream_cls) : Prop := {
  dw_ctx : class_ok (pkt_ctx dsc);
  dw_hdr : class_ok (event_hdr dsc);
  dw_common : class_ok (event_common_ctx dsc);
  dw_evcs : forall id evc, u64toevc_find (idtoevc dsc) id = Ok (Some evc) ->
    class_ok (spec_ctx evc) /\ class_ok (payload evc)
}.
Record metadata_wf (md : actf_metadata) : Prop := {
  mw_hdr : class_ok (pkt_hdr (trace_cls md));
  mw_dscs : forall id dsc, u64todsc_find (idtodsc md) id = Ok (Some dsc) -> dsc_wf dsc
}.

(** An event that the decoder may return: its class is the one its id has in
    its data stream class. *)
Definition complete (e : actf_event) : Prop :=
  exists dsc evc, ev_dsc e = Some dsc /\ ev_cls (ev_s e) = Some evc /\
    u64toevc_find (idtoevc dsc) (ev_id (ev_s e)) = Ok (Some evc).

Record dec_inv (data : list Z) (cap : nat) (d : actf_decoder) : Prop := {
  di_br : br_ok data (br d);
  di_dsc : forall dsc, dsc_cls (d_pkt_s d) = Some dsc -> dsc_wf dsc;
  di_cap : evs_cap d = cap;
  di_len : (length (evs d) <= cap)%nat;
  di_evs : Forall complete (evs d)
}.

Section Inv.
Context (metadata : actf_metadata) (pkt_malloc ev_malloc : nat -> Z -> bool) (loc_fuel : nat).
Context (data : list Z) (cap : nat).
Hypotheses (Hdata : Forall is_byte data) (Hsize : 8 * Z.of_nat (length data) <= 2 ^ 62).
Hypothesis Hmd : metadata_wf metadata.
Notation prop c cls r := (decode_prop metadata pkt_malloc ev_malloc loc_fuel c cls r).
Notation ev_decode := (actf_decoder_ev_decode metadata pkt_malloc ev_malloc loc_fuel).
Notation hdrctx_decode := (actf_decoder_pkt_hdrctx_decode metadata pkt_malloc ev_malloc loc_fuel).
Notation inv := (dec_inv data cap).

Lemma same_frame_inv d0 d : inv d0 -> same_frame data d0 d -> inv d.
Proof.
  intros [Hbr Hdsc Hcap Hlen Hevs] [c [Hbr' Ho Hk _ _ _]]. unfold outer in Ho. injection Ho as _ _ _ _ He Hc.
  split; [done| |congruence|congruence|congruence]. intros dsc. rewrite Hk. apply Hdsc.
Qed.

Lemma set_ev_frame d x : inv d -> inv (set_ev x d).
Proof. intros []. by split. Qed.

(** Decoding an event keeps the invariant, and a decoded event is complete. *)
Lemma ev_decode_inv d :
  inv d ->
  let '(r, d') := ev_decode d in
  inv d' /\ outer d' = outer d /\ dsc_cls (d_pkt_s d') = dsc_cls (d_pkt_s d) /\
  (r = Ok tt -> exists e, ev (dec_s d') = Some e /\ complete e).
Proof.
  intros Hd. unfold actf_decoder_ev_decode. set (d1 := set_ev (Some actf_event_init) d).
  rewrite (st_bind_ok (st_modify _) _ d tt d1) by done. assert (H1 : inv d1) by by apply set_ev_frame.
  unfold get_dsc. unfold mbind at 1, st_bind at 1. change (dsc_cls (d_pkt_s d1)) with (dsc_cls (d_pkt_s d)).
  destruct (dsc_cls (d_pkt_s d)) as [dsc|] eqn:Edsc; [|by split_and!].
  assert (Hw : dsc_wf dsc) by by apply Hd.
  pose proof (decode_hdr_same metadata pkt_malloc ev_malloc loc_fuel data Hdata Hsize d1 (event_hdr dsc)
    (REv ACTF_EVENT_PROP_HEADER) (dw_hdr _ Hw) d1) as Hh.
  destruct (same_ev_refl data d1 (di_br _ _ _ H1)) as [Hr1 _]. specialize (Hh Hr1).
  assert (Hout : forall d0 d', same_frame data d0 d' -> outer d0 = outer d -> dsc_cls (d_pkt_s d0) = Some dsc ->
    inv d0 -> inv d' /\ outer d' = outer d /\ dsc_cls (d_pkt_s d') = Some dsc).
  { intros d0 d' Hs Ho Hk Hi. split; [by apply (same_frame_inv d0)|].
    destruct Hs as [c [_ Ho' Hk' _ _ _]]. split; congruence. }
  unfold mbind at 1, st_bind at 1.
  destruct (prop _ _ _ d1) as [[[]|rc|] d2] eqn:Eh; cbn in Hh;
    destruct (Hout d1 d2 Hh eq_refl Edsc H1) as (Hi2 & Ho2 & Hk2); try by split_and!.
  rewrite (st_bind_ok st_get _ d2 d2 d2) by done.
  destruct (ev (dec_s d2)) as [e|] eqn:Ee; [|by split_and!]. unfold lift_outcome. unfold mbind at 1, st_bind at 1.
  destruct (u64toevc_find (idtoevc dsc) (ev_id (ev_s e))) as [[evc|]|rc|] eqn:Ef; try by split_and!.
  set (e3 := set_ev_state (mk_event_state (ev_id (ev_s e)) (Some evc) (ev_def_clk_val (ev_s e))) (Some dsc) e).
  set (d3 := set_ev (Some e3) d2).
  rewrite (st_bind_ok (st_modify (set_ev (Some e3))) _ d2 tt d3) by done.
  assert (Hi3 : inv d3) by by apply set_ev_frame.
  destruct (dw_evcs _ Hw _ _ Ef) as [Hspec Hpay].
  pose proof (same_ev_refl data d3 (di_br _ _ _ Hi3)) as H3.
  match goal with |- context [let '(_, _) := ?m d3 in _] =>
    assert (Hk : keeps (same_ev data d3) m) by
      (repeat (apply keeps_bind; [|intros _]); apply decode_prop_same; (done || apply Hw));
    pose proof (Hk d3 H3) as [Hs4 Hev4]; destruct (m d3) as [r d4]
  end.
  cbn in Hs4, Hev4. destruct (Hout d3 d4 Hs4 Ho2 Hk2 Hi3) as (Hi4 & Ho4 & Hk4). split_and!; try done.
  intros _. unfold ev_id_cls in Hev4. cbn in Hev4. destruct (ev (dec_s d4)) as [e4|]; [|done]. injection Hev4 as Es Ed.
  exists e4. split; [done|]. exists dsc, evc. by rewrite Es, Ed.
Qed.

Lemma inv_push d e : inv d -> complete e -> (S (length (evs d)) <= cap)%nat -> inv (set_evs (evs d ++ [e]) d).
Proof.
  intros [] He Hl. split; try done; cbn.
  - rewrite length_app. cbn. lia.
  - apply Forall_app. split; [done|by constructor].
Qed.

Notation ev_loop := (ev_loop metadata pkt_malloc ev_malloc loc_fuel).

Lemma ev_loop_inv room d :
  inv d -> (room + length (evs d) <= cap)%nat -> inv (snd (ev_loop room d)).
Proof.
  revert d. induction room as [|room IH]; intros d Hd Hr; cbn [Decoder.ev_loop];
    rewrite (st_bind_ok st_get _ d d d) by done; (destruct (_ && _); [|done]).
  { destruct Hd. by split. }
  pose proof (ev_decode_inv d Hd) as He. unfold mbind at 1, st_bind at 1.
  destruct (ev_decode d) as [[[]|rc|] d1]; destruct He as (Hi & Ho & _ & Hc); [|done|done].
  destruct (Hc eq_refl) as (e & Ee & Hce). unfold outer in Ho. injection Ho as _ _ _ _ Hevs _.
  rewrite (st_bind_ok (st_modify _) _ d1 tt (set_evs (evs d1 ++ [e]) d1)) by (unfold st_modify; by rewrite Ee).
  apply IH; cbn.
  - apply inv_push; [done|done|]. rewrite Hevs. lia.
  - rewrite length_app, Hevs. cbn. lia.
Qed.

(** The invariant, with the members outside the packet and event fixed. *)
Definition inv_at (d0 d : actf_decoder) : Prop := inv d /\ outer d = outer d0.

Lemma same_frame_inv_at d0 d1 d : inv_at d0 d1 -> same_frame data d1 d -> inv_at d0 d.
Proof.
  intros [Hi Ho] Hs. split; [by apply (same_frame_inv d1)|]. destruct Hs as [c []]. congruence.
Qed.

Lemma hdrctx_inv d0 : keeps (inv_at d0) hdrctx_decode.
Proof.
  intros d Hd. unfold actf_decoder_pkt_hdrctx_decode. rewrite (st_bind_ok st_get _ d d d) by done.
  unfold dec_state_init. match goal with |- context [st_modify ?f] => set (d1 := f d); rewrite (st_bind_ok (st_modify f) _ d tt d1) by done end.
  assert (H1 : inv_at d0 d1) by (destruct Hd as [[] ?]; by split; [split|]). clearbody d1. clear d Hd.
  pose proof (decode_prop_same metadata pkt_malloc ev_malloc loc_fuel data Hdata Hsize d1 DEC_CTX_PKT_HEADER
    (pkt_hdr (trace_cls metadata)) (RPkt ACTF_PKT_PROP_HEADER) (mw_hdr _ Hmd) ltac:(done) d1
    (same_ev_refl data d1 (di_br _ _ _ (proj1 H1)))) as [Hs _].
  unfold mbind at 1, st_bind at 1. destruct (prop _ _ _ d1) as [[[]|rc|] d2]; cbn in Hs;
    apply (same_frame_inv_at d0 d1 d2 H1) in Hs; try done. clear d1 H1.
  rewrite (st_bind_ok st_get _ d2 d2 d2) by done. unfold lift_outcome. unfold mbind at 1, st_bind at 1.
  destruct (u64todsc_find _ _) as [[dsc|]|rc|] eqn:Ef; try done. pose proof (mw_dscs _ Hmd _ _ Ef) as Hw.
  unfold upd_pkt_s. match goal with |- context [st_modify ?f ≫= _] => set (d3 := f d2); rewrite (st_bind_ok (st_modify f) _ d2 tt d3) by done end.
  assert (H3 : inv_at d0 d3).
  { destruct Hs as [[] ?]. split; [|done]. split; try done. intros dsc'. cbn. by intros [= <-]. }
  clearbody d3. clear d2 Hs Ef.
  assert (Hc : keeps (same_ev data d3) (prop DEC_CTX_PKT_CTX (pkt_ctx dsc) (RPkt ACTF_PKT_PROP_CTX)))
    by (apply decode_prop_same; (done || apply Hw)).
  specialize (Hc d3 (same_ev_refl data d3 (di_br _ _ _ (proj1 H3)))).
  destruct (pkt_ctx dsc) eqn:Ep; [done|..]; unfold mbind at 1, st_bind at 1;
    destruct (prop _ _ _ d3) as [[[]|rc|] d4]; destruct Hc as [Hs _]; cbn in Hs;
    apply (same_frame_inv_at d0 d3 d4 H3) in Hs; try done.
  all: unfold upd_pkt_s, complete_lens; st_unfold; repeat case_match; cbn; destruct Hs as [[] ?]; by split; [split|].
Qed.

Notation pkt_decode := (actf_decoder_pkt_decode metadata pkt_malloc ev_malloc loc_fuel).
Notation dec_decode := (actf_decoder_decode metadata pkt_malloc ev_malloc loc_fuel).

Lemma skip_to_end_inv : keeps inv skip_to_end.
Proof.
  unfold skip_to_end. apply keeps_bind; [apply keeps_get|]. intros d0. case_match; [|apply keeps_ret].
  intros d []. unfold on_cur, on_br, st_zoom. cbn.
  match goal with |- context [breader_consume_checked ?n] =>
    pose proof (consume_checked_ok data Hdata Hsize n (proj1 (u64_range _)) (br d) di_br0) as H1;
    destruct (breader_consume_checked n (br d)) as [r b] end. by split.
Qed.

Lemma inv_clear_evs d : inv d -> inv (set_evs [] d).
Proof. intros []. split; try done. cbn. lia. Qed.

Lemma pkt_decode_inv d : inv d -> inv (snd (pkt_decode d)).
Proof.
  intros Hd. unfold actf_decoder_pkt_decode. rewrite (st_bind_ok st_get _ d d d) by done.
  match goal with |- inv (snd ((?h ≫= ?k) d)) => assert (Hh : inv (snd (h d))) end.
  { destruct (DECODING_STATE_RESUME_PKT (state d)); [destruct Hd; by split|]. by apply (hdrctx_inv d d). }
  unfold mbind at 1, st_bind at 1.
  match goal with |- context [match ?x with (_, _) => _ end] => destruct x as [[[]|rc|] d1] end; [|done|done].
  cbn in Hh. rewrite (st_bind_ok st_get _ d1 d1 d1) by done. unfold mbind, st_bind.
  pose proof (ev_loop_inv (evs_cap d1 - length (evs d1)) d1 Hh) as Hl.
  destruct (ev_loop _ d1) as [[full|rc|] d2]; cbn in *;
    try (apply Hl; destruct Hh; lia). specialize (Hl ltac:(destruct Hh; lia)).
  destruct full; [done|]. by apply skip_to_end_inv.
Qed.

(** What a call returns. *)
Definition good_evs (es : list actf_event) : Prop := Forall complete es /\ (length es <= cap)%nat.

Lemma dec_decode_inv d :
  inv d -> let '(r, d') := dec_decode d in inv d' /\ forall es, r = Ok es -> good_evs es.
Proof.
  intros Hd. unfold actf_decoder_decode. destruct (DECODING_STATE_RESUME_SEEK (state d)).
  { destruct Hd. split; [by split|]. intros es [= <-]. split; [by apply Forall_take, Forall_drop|].
    rewrite length_take, length_drop. lia. }
  destruct (DECODING_STATE_ERROR (state d)); [done|]. apply inv_clear_evs in Hd.
  destruct (breader_has_bits_remaining _).
  2: { split; [done|]. intros es [= <-]. split; [constructor|cbn; lia]. }
  pose proof (pkt_decode_inv _ Hd) as Hp. destruct (pkt_decode _) as [r d1]. cbn in Hp.
  assert (Hg : good_evs (evs d1)) by (destruct Hp; split; [done|lia]).
  assert (He : forall rc, inv (set_error rc d1)) by (intros rc; destruct Hp; by split).
  destruct r as [[]|rc|]; [by split; [|intros es [= <-]]| |done].
  destruct (evs d1) eqn:Ee; [done|]. split; [done|]. intros es [= <-]. done.
Qed.

Lemma seek_events_inv fuel t d :
  inv d -> inv (snd (seek_events metadata pkt_malloc ev_malloc loc_fuel fuel t d)).
Proof.
  revert d. induction fuel as [|fuel IH]; intros d Hd; cbn [seek_events]; [done|].
  pose proof (dec_decode_inv d Hd) as H1. destruct (dec_decode d) as [[es|rc|] d1]; destruct H1 as [H1 _]; [|done|done].
  destruct es as [|e es]; [done|]. destruct (first_at t (e :: es) 0) as [[i|]|rc|]; [destruct H1; by split| |done|done].
  destruct (_ =? 0); [done|by apply IH].
Qed.

Lemma seek_loop_inv fuel t rc d :
  inv d -> inv (snd (seek_loop metadata pkt_malloc ev_malloc loc_fuel fuel t rc d)).
Proof.
  revert rc d. induction fuel as [|fuel IH]; intros rc d Hd; cbn [seek_loop]; [done|].
  destruct (breader_has_bits_remaining (br d)); [|done]. pose proof (hdrctx_inv d d (conj Hd eq_refl)) as [H1 _].
  destruct (hdrctx_decode d) as [[[]|rc'|] d1]; cbn in H1; [|destruct H1; by split|done].
  destruct (ends_before _ _) as [[]|]; [| |done].
  - apply IH. destruct H1. split; try done. apply seek_ok; try done. apply Z.div_pos; [|lia].
    unfold sataddu64, UINT64_MAX. pose proof (u64_range (bit_off (d_pkt_s d1) + tot_len (d_pkt_s d1))) as [? _].
    case_match; lia.
  - assert (H2 : inv (set_resume_pkt true d1)) by (destruct H1; by split).
    pose proof (seek_events_inv fuel t _ H2) as H3. destruct (seek_events _ _ _ _ _ _ _) as [[[rc'|]|rc'|] d2];
      cbn in H3; [by apply IH|done..].
Qed.
End Inv.

(** The calls of a client of the decoder. *)
Inductive dec_call := CallDecode | CallSeek (fuel : nat) (t : Z).

Definition do_call md pm em lf (c : dec_call) (d : actf_decoder) : actf_decoder :=
  match c with
  | CallDecode => snd (actf_decoder_decode md pm em lf d)
  | CallSeek fuel t => snd (actf_decoder_seek_ns_from_origin md pm em lf fuel t d)
  end.

Lemma calls_inv md pm em lf data cap calls d :
  Forall is_byte data -> 8 * Z.of_nat (length data) <= 2 ^ 62 -> metadata_wf md ->
  dec_inv data cap d -> dec_inv data cap (fold_left (fun d c => do_call md pm em lf c d) calls d).
Proof.
  intros Hd Hs Hm. revert d. induction calls as [|c calls IH]; intros d Hi; [done|]. cbn. apply IH. destruct c as [|fuel t]; cbn.
  - pose proof (dec_decode_inv md pm em lf data cap Hd Hs Hm d Hi) as H.
    by destruct (actf_decoder_decode _ _ _ _ d) as [r d'], H.
  - unfold actf_decoder_seek_ns_from_origin. apply seek_loop_inv; try done.
    destruct Hi. split; try done. by apply seek_ok.
Qed.

Definition eff_cap (n : nat) : nat := match n with O => ACTF_DEFAULT_EVS_CAP | _ => n end.

Lemma dec_init_inv data n :
  8 * Z.of_nat (length data) <= 2 ^ 62 -> dec_inv data (eff_cap n) (actf_decoder_init data n).
Proof. intros Hs. split; cbn; try done; [by apply breader_init_ok|lia]. Qed.

(** C7: Whatever the bytes of the data stream, the allocation failures and the
    calls made to the decoder (decode, or seek to any timestamp), after any
    error, and with any well-formed metadata: the reader stays inside the data,
    its position is that of its pointer, and a call of decode returns at most
    [evs_cap] events, each of them with the event class that its id has in the
    data stream class of its packet. *)
Theorem decoder_calls_safe md pm em lf data n calls :
  Forall is_byte data -> 8 * Z.of_nat (length data) <= 2 ^ 62 -> metadata_wf md ->
  let d := fold_left (fun d c => do_call md pm em lf c d) calls (actf_decoder_init data n) in
  let '(r, d') := actf_decoder_decode md pm em lf d in
  br_ok data (br d) /\ br_ok data (br d') /\
  forall es, r = Ok es -> (length es <= eff_cap n)%nat /\ Forall complete es.
Proof.
  intros Hd Hs Hm d. pose proof (calls_inv md pm em lf data _ calls _ Hd Hs Hm (dec_init_inv data n Hs)) as Hi. fold d in Hi.
  pose proof (dec_decode_inv md pm em lf data _ Hd Hs Hm d Hi) as H.
  destruct (actf_decoder_decode md pm em lf d) as [r d'], H as [H1 H2].
  split; [apply Hi|]. split; [apply H1|]. intros es E. by destruct (H2 es E).
Qed.
