(* ===== verification/Samples.v ===== *)
(** Sample metadata for the concrete runs of the decoder: one data stream class
    whose packets have a length field and whose events carry an id, an 8-bit
    timestamp and one byte, with a nanosecond clock. *)
From S2P Require Import Prelude Common Rng HashMap Clock FldCls Metadata Fld Scalar Arena Decoder DecoderInv.
From stdpp Require Import strings.
Open Scope Z_scope.

Definition dec_base : int_fld_cls := mk_int_fld_cls ACTF_BASE_DECIMAL zero_mappings.
Definition le_bits (n al : Z) : fxd_len_bit_arr_fld_cls := mk_bit_arr n ACTF_LIL_ENDIAN ACTF_FIRST_TO_LAST al.
(** An [n]-bit little-endian unsigned integer aligned to a byte. *)
Definition uint_fc (n roles : Z) : actf_fld_cls := FC_FXD_LEN_UINT dec_base (le_bits n 8) roles.

(** A map built by the code's insertion. *)
Definition map_of {V} (l : list (Z * V)) : umap Z V :=
  fold_left (fun m kv => match map_insert hash_uint64 (fun _ => true) m kv.1 kv.2 with Ok m' => m' | _ => m end) l
    (match map_init (fun _ => true) with Ok m => m | _ => mk_umap [] 0 0 0 end).

Definition ns_clk : actf_clk_cls :=
  mk_clk_cls (Some "clk"%string) None None None 1000000000 ACTF_CLK_ORIGIN_TYPE_UNIX_EPOCH (mk_clk_offset 0 0) None None.

Definition sample_evc (payload : actf_fld_cls) : actf_event_cls := mk_event_cls 0 0 None None None FC_NIL payload.
Definition ev_hdr_fc : actf_fld_cls :=
  FC_STRUCT [("id", uint_fc 8 ACTF_ROLE_EVENT_CLS_ID); ("ts", uint_fc 8 ACTF_ROLE_DEF_CLK_TSTAMP)]%string 1 8.
Definition pkt_ctx_fc : actf_fld_cls := FC_STRUCT [("len", uint_fc 8 ACTF_ROLE_PKT_TOT_LEN)]%string 1 8.
Definition byte_payload : actf_fld_cls := FC_STRUCT [("x", uint_fc 8 0)]%string 1 8.

Definition sample_dsc (ctx hdr payload : actf_fld_cls) : actf_dstream_cls :=
  mk_dstream_cls 0 None None None None (Some ns_clk) ctx hdr FC_NIL (map_of [(0, sample_evc payload)]).
(** Metadata with a packet context, an event header and a payload. *)
Definition sample_md (ctx hdr payload : actf_fld_cls) : actf_metadata :=
  mk_metadata (mk_preamble 2 [] false) [] (mk_trace_cls None None None FC_NIL) [ns_clk]
    (map_of [(0, sample_dsc ctx hdr payload)]) true false.
Definition md0 : actf_metadata := sample_md pkt_ctx_fc ev_hdr_fc byte_payload.

Definition malloc_yes : nat -> Z -> bool := fun _ _ => true.

(** A map with one entry finds nothing else. *)
Lemma map_of_one {V} (v w : V) id : map_find hash_uint64 uint64cmp (map_of [(0, v)]) id = Ok (Some w) -> w = v.
Proof.
  intros (e & He & <-)%map_find_slot.
  assert (Hs : slots (map_of [(0, v)]) = [Some (mk_entry 0 0 v); None; None; None; None; None; None; None]) by reflexivity.
  rewrite Hs in He. repeat (apply elem_of_cons in He as [He|He]; [by simplify_eq|]). by apply not_elem_of_nil in He.
Qed.

Lemma sample_md_wf ctx hdr payload :
  class_ok ctx -> class_ok hdr -> class_ok payload -> metadata_wf (sample_md ctx hdr payload).
Proof.
  intros Hc Hh Hp. split; [by left|]. intros id dsc ->%map_of_one. split; cbn; try done; [by left|].
  intros id' evc ->%map_of_one. split; [by left|done].
Qed.

Lemma le_bits_wf n k : 1 <= n <= 64 -> 0 <= k <= 63 -> bit_arr_wf (le_bits n (2 ^ k)).
Proof. intros Hn Hk. split; [done|]. by exists k. Qed.

Lemma md0_wf : metadata_wf md0.
Proof.
  assert (H8 : pow2 8) by (by exists 3). assert (H1 : pow2 1) by (by exists 0).
  assert (Hb : bit_arr_wf (le_bits 8 8)) by (by apply (le_bits_wf 8 3)).
  apply sample_md_wf; right; cbn; repeat split; (done || apply Hb).
Qed.

Lemma bytes_ok (l : list Z) : forallb (fun b => (0 <=? b) && (b <? 256)) l = true -> Forall is_byte l.
Proof.
  intros H. apply Forall_forall. intros x Hx. rewrite forallb_forall in H. specialize (H x (proj1 (list_elem_of_In _ _) Hx)). unfold is_byte. lia.
Qed.

Notation run_decode := (actf_decoder_decode md0 malloc_yes malloc_yes 4).

(** The timestamps of the events that a call returned. *)
Definition tstamps (r : outcome (list actf_event)) : outcome (list (option Z)) :=
  match r with Ok es => Ok (map actf_event_tstamp_ns_from_origin es) | Err rc => Err rc | Undef => Undef end.

(** Two packets of one and two events. *)
Definition two_pkts : list Z := [32; 0; 5; 7;  56; 0; 9; 8; 0; 4; 1].
