(* ===== verification/DecoderEdge.v ===== *)
(** The decoder at the edges: where the reader goes at the end of a packet, and
    the behaviours in which the code does not do what its callers expect. *)
From S2P Require Import Prelude Common Breader Rng Generator HashMap Clock FldCls Metadata Fld Scalar Arena Decoder DecoderInv Samples.
From stdpp Require Import strings.
Open Scope Z_scope.

Example decoder_calls_safe_witness :
  let d := fold_left (fun d c => do_call md0 malloc_yes malloc_yes 4 c d) [CallDecode; CallSeek 9 6; CallDecode]
             (actf_decoder_init two_pkts 3) in
  let '(r, d') := run_decode d in
  br_ok two_pkts (br d) /\ br_ok two_pkts (br d') /\
  forall es, r = Ok es -> (length es <= 3)%nat /\ Forall complete es.
Proof.
  apply (decoder_calls_safe md0 malloc_yes malloc_yes 4 two_pkts 3 [CallDecode; CallSeek 9 6; CallDecode]).
  - by apply bytes_ok.
  - vm_compute. discriminate.
  - apply md0_wf.
Defined.

(** * Packets without events *)

(** A packet without events in front of others: the decoder returns an empty
    array for it although events follow, so that a consumer that stops at an empty
    array, as the muxer and the filter do, sees no event of the stream. *)
Theorem empty_packet_ends_stream :
  let gen := actf_decoder_to_generator md0 malloc_yes malloc_yes 4 9 in
  let d := actf_decoder_init [8; 32; 0; 5; 7] 0 in
  drains (H := gen) d [] /\ tstamps (fst (run_decode (snd (run_decode d)))) = Ok [Some 5].
Proof.
  split; [|vm_compute; reflexivity]. apply (drains_end (H := actf_decoder_to_generator md0 malloc_yes malloc_yes 4 9)
    _ (snd (run_decode (actf_decoder_init [8; 32; 0; 5; 7] 0)))). vm_compute. reflexivity.
Qed.

(** After the events of a packet the reader moves to the end of the packet:
    to [bit_off + tot_len], or to the end of the data when that is less.  When the
    packet gives no lengths it stays.  When the total length is less than what has
    been read, which nothing rules out, the distance wraps around and all the rest
    of the data is skipped, without an error. *)
Theorem skip_to_end_spec d :
  br_wf (br d) -> 0 <= bit_off (d_pkt_s d) -> bit_off (d_pkt_s d) + tot_len (d_pkt_s d) < 2 ^ 64 ->
  is_u64 (tot_len (d_pkt_s d)) ->
  let pos := tot_bit_cnt (br d) in
  let pkt_end := bit_off (d_pkt_s d) + tot_len (d_pkt_s d) in
  let given := negb (tot_len (d_pkt_s d) =? UINT64_MAX) && negb (content_len (d_pkt_s d) =? UINT64_MAX) in
  exists br', skip_to_end d = (Ok tt, set_br br' d) /\
    at_pos (br d) br' (if given then if pos <=? pkt_end then Z.min pkt_end (mem_bits (br d)) else mem_bits (br d) else pos).
Proof.
  intros Hwf Hoff Hend Htl. cbv zeta. unfold skip_to_end. rewrite (st_bind_ok st_get _ d d d) by done.
  destruct (_ && _).
  2: { exists (br d). split; [by destruct d as [? ? ? ? ? ? ? [? ? [] ? ?]]|by apply at_pos_refl]. }
  pose proof (wf_pos_le _ Hwf) as Hp. pose proof (wf_size _ Hwf) as Hs. unfold is_u64 in *.
  set (n := u64 _). assert (Hn : n = if tot_bit_cnt (br d) <=? bit_off (d_pkt_s d) + tot_len (d_pkt_s d)
    then bit_off (d_pkt_s d) + tot_len (d_pkt_s d) - tot_bit_cnt (br d)
    else 2 ^ 64 + (bit_off (d_pkt_s d) + tot_len (d_pkt_s d) - tot_bit_cnt (br d))).
  { unfold n, u64. destruct (Z.leb_spec (tot_bit_cnt (br d)) (bit_off (d_pkt_s d) + tot_len (d_pkt_s d))).
    - apply Z.mod_small. lia.
    - symmetry. apply (Z.mod_unique_pos _ _ (-1)); lia. }
  clearbody n. destruct (breader_consume_checked_spec (br d) n Hwf) as (br' & Hrun & Hat).
  { rewrite Hn. case_match; lia. }
  exists br'. split.
  - unfold on_cur, on_br, st_zoom. cbn. rewrite Hrun. by destruct d as [? ? ? ? ? ? ? [? ? [] ? ?]].
  - rewrite Hn in Hat. destruct (Z.leb_spec (tot_bit_cnt (br d)) (bit_off (d_pkt_s d) + tot_len (d_pkt_s d)));
      eapply eq_rect; [exact Hat|lia|exact Hat|lia].
Qed.

(** A packet of four bits in front of an event. *)
Definition short_pkt : list Z := [4; 32; 0; 5; 7].

Example skip_to_end_spec_witness :
  tot_bit_cnt (br (snd (run_decode (actf_decoder_init short_pkt 0)))) = 40 /\
  let d := set_pkt_s (mk_pkt_state 0 0 0 0 None 0 0 ACTF_LIL_ENDIAN 4 0 0 4 0) (set_br (snd (breader_consume_checked 8
             (br (actf_decoder_init short_pkt 0)))) (actf_decoder_init short_pkt 0)) in
  exists br', skip_to_end d = (Ok tt, set_br br' d) /\ at_pos (br d) br' 40.
Proof.
  split; [vm_compute; reflexivity|]. cbv zeta.
  refine (skip_to_end_spec (set_pkt_s (mk_pkt_state 0 0 0 0 None 0 0 ACTF_LIL_ENDIAN 4 0 0 4 0) (set_br (snd (breader_consume_checked 8
             (br (actf_decoder_init short_pkt 0)))) (actf_decoder_init short_pkt 0))) _ _ _ _).
  - cbn [br set_pkt_s set_pkt set_br set_dec_s].
    assert (Hi : br_wf (br (actf_decoder_init short_pkt 0))) by (apply breader_init_wf; [by apply bytes_ok|vm_compute; discriminate]).
    destruct (breader_consume_checked_spec _ 8 Hi ltac:(lia)) as (b & -> & H & _). exact H.
  - vm_compute. discriminate.
  - vm_compute. reflexivity.
  - split; vm_compute; [discriminate|reflexivity].
Defined.

(** * Undefined behaviour on hostile input *)

Definition elems_loc : actf_fld_loc := mk_fld_loc ACTF_FLD_LOC_ORIGIN_EVENT_PAYLOAD [Some "n"%string].
Definition dyn_arr_payload : actf_fld_cls :=
  FC_STRUCT [("n"%string, uint_fc 64 0); ("a"%string, FC_DYN_LEN_ARR (uint_fc 8 0) 1 elems_loc)] 1 8.

(** A dynamic-length array of 2^61 elements, a length that the data stream
    chooses: the size of its block wraps around to 0, the allocation succeeds, and
    the first element is written outside the block. *)
Theorem huge_array_overruns_block :
  fst (actf_decoder_decode (sample_md FC_NIL ev_hdr_fc dyn_arr_payload) malloc_yes malloc_yes 4
         (actf_decoder_init ([0; 0] ++ [0; 0; 0; 0; 0; 0; 0; 0x20] ++ [1; 2; 3]) 0)) = Undef.
Proof. lazy. reflexivity. Qed.

Definition self_loc : actf_fld_loc := mk_fld_loc ACTF_FLD_LOC_ORIGIN_EVENT_PAYLOAD [Some "a"; Some "n"]%string.
Definition self_arr_payload : actf_fld_cls :=
  FC_STRUCT [("a"%string, FC_STATIC_LEN_ARR (FC_DYN_LEN_BLOB self_loc None) 1 1)] 1 8.

(** A field location that goes through an array whose current element is
    not a structure yet: the element is searched for a member all the same, and
    the [assert] that it is a structure fails, where the location procedure is
    meant to report an error. *)
Theorem locate_through_element_asserts :
  fst (actf_decoder_decode (sample_md FC_NIL ev_hdr_fc self_arr_payload) malloc_yes malloc_yes 4
         (actf_decoder_init [0; 0; 1; 2; 3] 0)) = Undef /\
  class_ok self_arr_payload.
Proof.
  split; [vm_compute; reflexivity|]. right. cbn. repeat split; try (by exists 3); try (by exists 0); lia.
Qed.

(** * Seeking after an error *)

Section SeekLoop.
Context (hdr payload : actf_fld_cls).
Notation md := (sample_md FC_NIL hdr payload).
Notation seek := (seek_loop md malloc_yes malloc_yes 4).

(** An error is stored and data remains. *)
Definition stuck (d : actf_decoder) : Prop :=
  DECODING_STATE_ERROR (state d) = true /\ DECODING_STATE_RESUME_SEEK (state d) = false /\
  breader_has_bits_remaining (br d) = true.

Lemma hdrctx_stays d :
  exists d', actf_decoder_pkt_hdrctx_decode md malloc_yes malloc_yes 4 d = (Ok tt, d') /\
    state d' = state d /\ br d' = br d /\ err_rc d' = err_rc d /\ has_flag (d_pkt_s d') PKT_END_DEF_CLK_VAL = false.
Proof. eexists. split; [vm_compute; reflexivity|]. split_and!; reflexivity. Qed.

Lemma stuck_forever fuel t rc d : stuck d -> fst (seek fuel t rc d) = Undef.
Proof.
  revert rc d. induction fuel as [|fuel IH]; intros rc d (He & Hs & Hb); cbn [seek_loop]; [done|]. rewrite Hb.
  destruct (hdrctx_stays d) as (d1 & -> & Hst & Hbr & _ & Hfl).
  assert (Hend : ends_before t (d_pkt_s d1) = Some false) by (unfold ends_before; rewrite Hfl; by case_match).
  rewrite Hend. destruct fuel as [|fuel]; [done|]. cbn [seek_events].
  unfold actf_decoder_decode. cbn [state set_resume_pkt set_state DECODING_STATE_RESUME_SEEK DECODING_STATE_ERROR].
  rewrite Hst, Hs, He. apply IH. unfold stuck. cbn. by rewrite Hst, Hbr.
Qed.
End SeekLoop.

(** A stream without packet headers whose first event has an unknown id: its seek
    has no result with any number of rounds.  After the error the seek goes on with
    a packet at the place of the error, which takes no bits, and the stored error
    ends its inner loop every time ([stuck_forever]). *)
Theorem seek_diverges_after_error fuel t :
  fst (actf_decoder_seek_ns_from_origin (sample_md FC_NIL ev_hdr_fc byte_payload) malloc_yes malloc_yes 4 fuel t
         (actf_decoder_init [1; 2; 3; 4] 0)) = Undef.
Proof.
  unfold actf_decoder_seek_ns_from_origin.
  destruct fuel as [|[|fuel]]; [done|vm_compute; reflexivity|].
  remember (S fuel) as k eqn:Ek. cbn [seek_loop].
  match goal with |- context [breader_has_bits_remaining ?b] => change (breader_has_bits_remaining b) with true end.
  match goal with |- context [actf_decoder_pkt_hdrctx_decode ?m ?p ?e ?f ?d] =>
    set (x := actf_decoder_pkt_hdrctx_decode m p e f d); vm_compute in x end.
  subst x. cbn [d_pkt_s].
  match goal with |- context [ends_before t ?p] => change (ends_before t p) with (Some false) end.
  cbv beta iota zeta. rewrite Ek at 1. cbn [seek_events].
  match goal with |- context [actf_decoder_decode ?m ?p ?e ?f ?d] =>
    set (x := actf_decoder_decode m p e f d); vm_compute in x end.
  subst x. cbv beta iota. apply stuck_forever. split; [|split]; vm_compute; reflexivity.
Qed.
