(* ===== verification/DecoderSpec.v ===== *)
(** What reading a value from a data stream must give.

    The specifications are programs on an abstract cursor: the data as bits, a
    position and the state of the packet.  The bit reader with its look-ahead
    refines them: when the specification gives a value, the reader gives that value
    and ends at that position, and when it gives an error, the reader returns that
    error.  [FieldSpec] builds the specification of fields on them. *)
From S2P Require Import Prelude Common Breader Rng Generator HashMap Clock FldCls Metadata Fld Scalar Arena Decoder.
From stdpp Require Import strings.
Open Scope Z_scope.

(** * The abstract cursor *)

Record acur := mk_acur { ac_mem : list Z; ac_bo : actf_byte_order; ac_pos : Z; ac_pkt : pkt_state }.

Definition abs_cur (c : cursor) : acur := mk_acur (c_mem c) (br_bo (c_br c)) (c_pos c) (c_pkt c).

Definition ac_bits (ac : acur) : Z := 8 * Z.of_nat (length (ac_mem ac)).
Definition ac_end (ac : acur) : Z := bit_off (ac_pkt ac) + content_len (ac_pkt ac).
Definition ac_move (p : Z) (ac : acur) : acur := mk_acur (ac_mem ac) (ac_bo ac) p (ac_pkt ac).

(** ** The scalar readers *)

Definition s_align (al : Z) : st acur unit := fun ac =>
  let p := Z.min (round_up (ac_pos ac) al) (ac_bits ac) in
  (if p >? ac_end ac then Err ACTF_NOT_ENOUGH_BITS else Ok tt, ac_move p ac).

(** Reading in byte order [b] has no specified result inside a byte that was
    begun in the other one. *)
Definition s_switch (b : actf_byte_order) : st acur unit := fun ac =>
  if bool_decide (ac_bo ac = b) || (ac_pos ac mod 8 =? 0)
  then (Ok tt, mk_acur (ac_mem ac) b (ac_pos ac) (ac_pkt ac)) else (Undef, ac).

Definition s_fxd (a : fxd_len_bit_arr_fld_cls) : st acur Z :=
  s_switch (bo a);;
  s_align (align a);;
  ac ← st_get;
  let p := ac_pos ac in
  if ac_end ac <? p + len a then st_fail ACTF_NOT_ENOUGH_BITS
  else if has_flag (ac_pkt ac) PKT_LAST_BO && negb (bool_decide (last_bo (ac_pkt ac) = bo a)) &&
          negb (p mod 8 =? 0) then st_fail ACTF_MID_BYTE_ENDIAN_SWAP
  else if ac_bits ac <? p + len a then st_fail ACTF_NOT_ENOUGH_BITS
  else
    st_put (mk_acur (ac_mem ac) (ac_bo ac) (p + len a) (set_last_bo (bo a) (ac_pkt ac)));;
    mret (fxd_value (bo a) (bito a) (ac_mem ac) p (Z.to_nat (len a))).

(** At most ten bytes; a longer one has no specified result. *)
Definition s_var_len : st acur (Z * Z) :=
  s_switch ACTF_LIL_ENDIAN;;
  s_align 8;;
  ac ← st_get;
  let bs := drop (Z.to_nat (ac_pos ac / 8)) (ac_mem ac) in
  let n := S (leb_more bs) in
  if (10 <? n)%nat && (10 <? length bs)%nat then st_undef
  else if (n <=? length bs)%nat && (ac_pos ac + 8 * Z.of_nat n <=? ac_end ac) then
    st_put (ac_move (ac_pos ac + 8 * Z.of_nat n) ac);;
    mret (u64 (leb_val (take n bs)), Z.min (7 * Z.of_nat n) 64)
  else st_fail ACTF_NOT_ENOUGH_BITS.

(** [n] bytes; lengths whose number of bits wraps around are left out. *)
Definition s_bytes (n : Z) : st acur Z :=
  ac ← st_get;
  if 2 ^ 61 <=? n then st_undef
  else if (ac_end ac <? ac_pos ac + 8 * n) || (ac_bits ac <? ac_pos ac + 8 * n) then st_fail ACTF_NOT_ENOUGH_BITS
  else st_put (ac_move (ac_pos ac + 8 * n) ac);; mret (ac_pos ac / 8).

Definition s_find_null (ptr n : Z) (enc : actf_encoding) : st acur (option Z) := fun ac =>
  (find_null_term (ac_mem ac) ptr n enc, ac).

Definition s_str (enc : actf_encoding) (n : Z) : st acur (Z * Z) :=
  s_align 8;;
  ptr ← s_bytes n;
  term ← s_find_null ptr n enc;
  match term with
  | Some term => mret (ptr, term - ptr + 1)
  | None => if is_valid_str_sz n enc then mret (ptr, n) else st_fail ACTF_INVALID_STR_LEN
  end.

Definition s_blob (n : Z) : st acur Z := s_align 8;; s_bytes n.

Definition s_null_term_str (enc : actf_encoding) : st acur (Z * Z) :=
  s_align 8;;
  ac ← st_get;
  if ac_end ac <? ac_pos ac + 8 * actf_encoding_to_codepoint_size enc then st_fail ACTF_NOT_ENOUGH_BITS
  else
    let ptr := ac_pos ac / 8 in
    let n_bytes := Z.min ((ac_bits ac - ac_pos ac) / 8) ((ac_end ac - ac_pos ac) / 8) in
    term ← s_find_null ptr n_bytes enc;
    match term with
    | None => st_fail ACTF_NOT_ENOUGH_BITS
    | Some term =>
        let n := term - ptr + 1 in
        if (n <? 0) || (ac_bits ac <? ac_pos ac + 8 * n) then st_undef
        else st_put (ac_move (ac_pos ac + 8 * n) ac);; mret (ptr, n)
    end.

(** ** Fields without parts *)

Definition s_leaf (cls : actf_fld_cls) : st acur fld_d :=
  match cls with
  | FC_FXD_LEN_BIT_ARR a => v ← s_fxd a; mret (ACTF_FLD_TYPE_UINT v 0)
  | FC_FXD_LEN_BIT_MAP a _ => v ← s_fxd a; mret (ACTF_FLD_TYPE_BIT_MAP v)
  | FC_FXD_LEN_UINT _ a _ => v ← s_fxd a; mret (ACTF_FLD_TYPE_UINT v 0)
  | FC_FXD_LEN_SINT _ a _ => v ← s_fxd a; mret (ACTF_FLD_TYPE_SINT (wrap_signed (len a) v))
  | FC_FXD_LEN_BOOL a => v ← s_fxd a; mret (ACTF_FLD_TYPE_BOOL (c_true v))
  | FC_FXD_LEN_FLOAT a =>
      v ← s_fxd a;
      if (len a =? 32) || (len a =? 64) then mret (ACTF_FLD_TYPE_REAL v) else st_fail ACTF_UNSUPPORTED_LENGTH
  | FC_VAR_LEN_UINT _ _ => '(v, n) ← s_var_len; mret (ACTF_FLD_TYPE_UINT v n)
  | FC_VAR_LEN_SINT _ _ => '(v, n) ← s_var_len; mret (ACTF_FLD_TYPE_SINT (wrap_signed n v))
  | FC_NULL_TERM_STR enc => '(p, n) ← s_null_term_str enc; mret (ACTF_FLD_TYPE_STR p n)
  | FC_STATIC_LEN_STR enc n => '(p, n) ← s_str enc n; mret (ACTF_FLD_TYPE_STR p n)
  | FC_STATIC_LEN_BLOB n _ _ => p ← s_blob n; mret (ACTF_FLD_TYPE_BLOB p n)
  | _ => st_undef
  end.

(** * The scalar readers refine their specification *)

(** [m] does what the specification [s] says, from any well-formed cursor. *)
Definition refines_cur {A} (m : st cursor A) (s : st acur A) : Prop := forall c, cur_wf c ->
  match s (abs_cur c) with
  | (Ok a, ac) => exists c', m c = (Ok a, c') /\ cur_wf c' /\ abs_cur c' = ac
  | (Err rc, _) => exists c', m c = (Err rc, c')
  | (Undef, _) => True
  end.

Lemma refines_bind {A B} (m : st cursor A) (s : st acur A) (k : A -> st cursor B) (t : A -> st acur B) :
  refines_cur m s -> (forall a, refines_cur (k a) (t a)) -> refines_cur (m ≫= k) (s ≫= t).
Proof.
  intros Hm Hk c Hc. specialize (Hm c Hc). unfold mbind at 1, st_bind at 1. destruct (s (abs_cur c)) as [[a|rc|] ac].
  - destruct Hm as (c' & Hrun & Hc' & <-). specialize (Hk a c' Hc').
    destruct (t a (abs_cur c')) as [[b|rc|] ac']; [..|done]; by rewrite (st_bind_ok _ _ _ _ _ Hrun).
  - destruct Hm as (c' & Hrun). exists c'. by apply st_bind_err.
  - done.
Qed.

Lemma refines_ret {A} (a : A) : refines_cur (mret a) (mret a).
Proof. intros c Hc. by exists c. Qed.
Lemma refines_fail {A} rc : refines_cur (st_fail (A := A) rc) (st_fail rc).
Proof. intros c Hc. by exists c. Qed.

Lemma ac_bits_abs c : ac_bits (abs_cur c) = c_bits c.
Proof. done. Qed.

Lemma do_align_refines k : 0 <= k <= 63 -> refines_cur (do_align (2 ^ k)) (s_align (2 ^ k)).
Proof.
  intros Hk c Hc. destruct (do_align_spec c k Hc Hk) as (c' & Hrun & Hmv & Hpk).
  pose proof (aligned_pos_le c k Hc Hk) as Hle.
  pose proof (moved_wf _ _ _ Hc Hmv ltac:(lia) Hpk) as Hc'. destruct Hmv as (_ & Hmem & Hpos & Hbo).
  unfold s_align. change (Z.min _ _) with (aligned_pos c (2 ^ k)). change (ac_end (abs_cur c)) with (content_end c).
  destruct (aligned_pos c (2 ^ k) >? content_end c); exists c'; [done|]. split_and!; [done|done|].
  unfold abs_cur, ac_move. cbn. by rewrite Hmem, Hpos, Hbo, Hpk.
Qed.

Lemma fxd_refines a : bit_arr_wf a -> refines_cur (fxd_len_bit_arr_decode a) (s_fxd a).
Proof.
  intros Ha c Hc. unfold s_fxd, s_switch, s_align. st_unfold.
  destruct (bool_decide (ac_bo (abs_cur c) = bo a) || (ac_pos (abs_cur c) mod 8 =? 0)) eqn:Esw; [|done].
  assert (Hsw : can_switch c (bo a)).
  { unfold can_switch. apply orb_prop in Esw as [E|E].
    - left. by apply bool_decide_eq_true_1 in E.
    - right. by apply Z.eqb_eq. }
  destruct (fxd_len_bit_arr_decode_spec a c Hc Ha Hsw) as (c' & Hrun & Hwf & Hmem & Hbo & Hpos & Hres).
  rewrite Hrun. unfold fxd_spec in *. destruct Ha as [Hlen _]. unfold ac_end.
  cbn [ac_pos ac_pkt ac_mem ac_bo ac_move abs_cur]. change (ac_bits _) with (c_bits c).
  fold (content_end c). fold (aligned_pos c (align a)).
  destruct (Z.gtb_spec (aligned_pos c (align a)) (content_end c)).
  { destruct (Z.ltb_spec (content_end c) (aligned_pos c (align a) + len a)); [by exists c'|lia]. }
  destruct (Z.ltb_spec (content_end c) (aligned_pos c (align a) + len a)); [by exists c'|].
  destruct (_ && _ && _); [by exists c'|]. change (ac_bits _) with (c_bits c).
  destruct (Z.ltb_spec (c_bits c) (aligned_pos c (align a) + len a)); [by exists c'|].
  destruct Hres as [Hp Hpk]. exists c'. split_and!; [done| |].
  - split; [done|..]; rewrite Hpk; destruct Hc; cbn; [unfold c_pos in *; lia|done..].
  - unfold abs_cur. by rewrite Hmem, Hbo, Hp, Hpk.
Qed.

Lemma var_len_refines : refines_cur (fld_cls_var_len_int_decode 8) s_var_len.
Proof.
  intros c Hc. unfold s_var_len, s_switch, s_align. st_unfold.
  destruct (bool_decide (ac_bo (abs_cur c) = ACTF_LIL_ENDIAN) || (ac_pos (abs_cur c) mod 8 =? 0)) eqn:Esw; [|done].
  assert (Hsw : can_switch c ACTF_LIL_ENDIAN).
  { unfold can_switch. apply orb_prop in Esw as [E|E].
    - left. by apply bool_decide_eq_true_1 in E.
    - right. by apply Z.eqb_eq. }
  destruct (var_len_int_decode_spec c Hc Hsw) as (r & c' & Hrun & Hpk & Hfar & Hshort & _). rewrite Hrun.
  pose proof (aligned_pos_byte c Hc) as Hal. pose proof (aligned_pos_le8 c Hc) as Hle8.
  unfold ac_end. cbn [ac_pos ac_pkt ac_mem ac_bo ac_move abs_cur]. change (ac_bits _) with (c_bits c).
  fold (content_end c). fold (aligned_pos c 8). fold (next_bytes c). cbv zeta.
  set (bs := next_bytes c) in *. unfold var_len_result, partial in Hshort.
  destruct (Z.gtb_spec (aligned_pos c 8) (content_end c)).
  { exists c'. rewrite (Hfar ltac:(lia)). done. }
  destruct ((10 <? S (leb_more bs))%nat && (10 <? length bs)%nat) eqn:Elong; [done|].
  destruct Hshort as (-> & Hwf & Hmem & Hbo & Hpos & Hok).
  { apply andb_false_iff in Elong as [E%Nat.ltb_ge|E%Nat.ltb_ge]; lia. }
  assert (E1 : (leb_more bs <? length bs)%nat = (S (leb_more bs) <=? length bs)%nat) by done.
  assert (E2 : (8 * (aligned_pos c 8 / 8 + Z.of_nat (S (leb_more bs))) <=? content_end c) =
               (aligned_pos c 8 + 8 * Z.of_nat (S (leb_more bs)) <=? content_end c)) by (f_equal; zlia).
  rewrite E1, E2 in *. destruct (_ && _); [|by exists c'].
  exists c'. rewrite <- MIN_spec. split_and!; [done| |].
  - split; [done|..]; rewrite Hpk; destruct Hc; [unfold c_pos in *; lia|done..].
  - unfold abs_cur. by rewrite Hmem, Hbo, (Hok _ eq_refl), Hpk.
Qed.

(** ** Bytes: strings and blobs *)

(** A cursor at a byte boundary inside the content. *)
Record at_content (c : cursor) : Prop := {
  at_wf : cur_wf c; at_mod : c_pos c mod 8 = 0; at_end : c_pos c <= content_end c
}.

Definition refines_at {A} (c : cursor) (m : st cursor A) (s : st acur A) : Prop :=
  match s (abs_cur c) with
  | (Ok a, ac) => exists c', m c = (Ok a, c') /\ cur_wf c' /\ abs_cur c' = ac
  | (Err rc, _) => exists c', m c = (Err rc, c')
  | (Undef, _) => True
  end.

Lemma refines_align8 {A} (k : st cursor A) (t : st acur A) :
  (forall c, at_content c -> refines_at c k t) -> refines_cur (do_align 8;; k) (s_align 8;; t).
Proof.
  intros Hk c Hc. pose proof (do_align_refines 3 ltac:(lia) c Hc) as Ha. change (2 ^ 3) with 8 in Ha.
  unfold mbind at 1, st_bind at 1. destruct (s_align 8 (abs_cur c)) as [[u|rc|] ac] eqn:Es; [|..|done].
  - destruct Ha as (c' & Hrun & Hc' & Hac). rewrite <- Hac.
    assert (Hat : at_content c').
    { unfold s_align in Es. destruct (_ >? _) eqn:Eg; [done|]. injection Es as _ Eac. rewrite <- Eac in Hac.
      pose proof (f_equal ac_pos Hac) as Hp. pose proof (f_equal ac_end Hac) as He. cbn in Hp. unfold ac_end in He.
      cbn in He. fold (content_end c') in He. fold (content_end c) in He.
      split; [done|rewrite Hp; by apply (aligned_pos_byte c)|]. rewrite Hp, He.
      change (ac_end (abs_cur c)) with (content_end c) in Eg. rewrite Z.gtb_ltb in Eg. by apply Z.ltb_ge in Eg. }
    specialize (Hk c' Hat). unfold refines_at in Hk.
    destruct (t (abs_cur c')) as [[b|rc|] ac']; [..|done]; by rewrite (st_bind_ok _ _ _ _ _ Hrun).
  - destruct Ha as (c' & Hrun). exists c'. by apply st_bind_err.
Qed.

(** Bytes read at a byte boundary. *)
Lemma read_bytes_step c n :
  cur_wf c -> c_pos c mod 8 = 0 -> 0 <= n ->
  exists c', on_br (breader_read_bytes n) c =
      (Ok (if c_pos c + 8 * n <=? c_bits c then Some (c_pos c / 8) else None), c') /\
    (c_pos c + 8 * n <= c_bits c -> cur_wf c' /\ abs_cur c' = ac_move (c_pos c + 8 * n) (abs_cur c)).
Proof.
  intros Hc Hm Hn. destruct (breader_read_bytes_spec (c_br c) n (cw_br _ Hc)) as (br' & Hrun & Hwf & [Hbo Hmem] & Ht);
    [by apply (lookahead_mod8 _ (cw_br _ Hc))|done|].
  exists (mk_cursor br' (c_pkt c)). split.
  { unfold on_br, st_zoom. by rewrite Hrun. }
  intros Hle. unfold c_pos, c_bits in *. destruct (Z.leb_spec (tot_bit_cnt (c_br c) + 8 * n) (mem_bits (c_br c))); [|lia].
  split.
  - destruct Hc. split; cbn; (done || lia).
  - unfold abs_cur, ac_move, c_mem, c_pos. cbn. by rewrite Hbo, Hmem, Ht.
Qed.

(** The check of the content and the read of [n] bytes, as [read_str] and
    [read_blob] do them. *)
Definition checked_bytes (n : Z) : st cursor Z :=
  c ← st_get;
  if pkt_bits_remaining (c_pkt c) (c_br c) <? u64 (n * 8) then st_fail ACTF_NOT_ENOUGH_BITS
  else
    p ← on_br (breader_read_bytes n);
    match p with None => st_fail ACTF_NOT_ENOUGH_BITS | Some ptr => mret ptr end.

Lemma checked_bytes_refines n c : is_u64 n -> at_content c -> refines_at c (checked_bytes n) (s_bytes n).
Proof.
  intros Hn [Hc Hm Hce]. unfold refines_at, s_bytes, checked_bytes. rewrite !(st_bind_ok st_get _ _ _ _ eq_refl).
  destruct (Z.leb_spec (2 ^ 61) n) as [|Hlt]; [done|]. destruct Hn as [Hn0 _].
  rewrite (pkt_bits_remaining_spec c Hc), u64_small by (unfold is_u64; lia).
  change (ac_end (abs_cur c)) with (content_end c). change (ac_pos (abs_cur c)) with (c_pos c).
  change (ac_bits (abs_cur c)) with (c_bits c).
  destruct (read_bytes_step c n Hc Hm Hn0) as (c' & Hrun & Hok).
  destruct (Z.ltb_spec (Z.max 0 (content_end c - c_pos c)) (n * 8)), (Z.ltb_spec (content_end c) (c_pos c + 8 * n)); try lia.
  { by exists c. }
  rewrite (st_bind_ok _ _ _ _ _ Hrun).
  destruct (Z.leb_spec (c_pos c + 8 * n) (c_bits c)), (Z.ltb_spec (c_bits c) (c_pos c + 8 * n)); try lia; cbn [orb].
  - destruct (Hok ltac:(lia)) as [Hc' Hac]. by exists c'.
  - by exists c'.
Qed.

Lemma refines_at_bind {A B} c (m : st cursor A) s (k : A -> st cursor B) t :
  refines_at c m s -> (forall a, refines_cur (k a) (t a)) -> refines_at c (m ≫= k) (s ≫= t).
Proof.
  intros Hm Hk. unfold refines_at in *. unfold mbind at 1, st_bind at 1. destruct (s (abs_cur c)) as [[a|rc|] ac]; [..|done].
  - destruct Hm as (c' & Hrun & Hc' & <-). specialize (Hk a c' Hc').
    destruct (t a (abs_cur c')) as [[b|rc|] ac']; [..|done]; by rewrite (st_bind_ok _ _ _ _ _ Hrun).
  - destruct Hm as (c' & Hrun). exists c'. by apply st_bind_err.
Qed.

Lemma find_null_refines ptr n enc : refines_cur (find_null ptr n enc) (s_find_null ptr n enc).
Proof.
  intros c Hc. unfold s_find_null, find_null. change (ac_mem (abs_cur c)) with (br_mem (c_br c)).
  destruct (find_null_term _ _ _ _); by eauto.
Qed.

Lemma checked_bytes_bind {B} n (k : Z -> st cursor B) c :
  (checked_bytes n ≫= k) c =
  (c ← st_get;
   if pkt_bits_remaining (c_pkt c) (c_br c) <? u64 (n * 8) then st_fail ACTF_NOT_ENOUGH_BITS
   else
     p ← on_br (breader_read_bytes n);
     match p with None => st_fail ACTF_NOT_ENOUGH_BITS | Some ptr => k ptr end) c.
Proof.
  unfold checked_bytes. unfold mbind, st_bind, st_get. destruct (_ <? _); [done|].
  destruct (on_br _ _) as [[[p|]|rc|] c']; done.
Qed.

Lemma refines_at_ext {A} c (m m' : st cursor A) s : m' c = m c -> refines_at c m s -> refines_at c m' s.
Proof. unfold refines_at. by intros ->. Qed.

Lemma read_blob_refines n : is_u64 n -> refines_cur (read_blob 8 n) (s_blob n).
Proof. intros Hn. apply refines_align8. intros c Hat. by apply checked_bytes_refines. Qed.

Lemma read_str_refines enc n : is_u64 n -> refines_cur (read_str enc 8 n) (s_str enc n).
Proof.
  intros Hn. apply refines_align8. intros c Hat. eapply refines_at_ext; [symmetry; apply checked_bytes_bind|].
  apply refines_at_bind; [by apply checked_bytes_refines|]. intros ptr.
  apply refines_bind; [apply find_null_refines|]. intros [t|]; [apply refines_ret|].
  destruct (is_valid_str_sz n enc); [apply refines_ret|apply refines_fail].
Qed.

Lemma read_null_term_str_refines enc : refines_cur (read_null_term_str enc 8) (s_null_term_str enc).
Proof.
  apply refines_align8. intros c [Hc Hm Hce]. unfold refines_at. rewrite !(st_bind_ok st_get _ _ _ _ eq_refl).
  pose proof (codepoint_size_pos enc) as Hcp. set (cp := actf_encoding_to_codepoint_size enc) in *.
  rewrite (pkt_bits_remaining_spec c Hc). change (ac_end (abs_cur c)) with (content_end c).
  change (ac_pos (abs_cur c)) with (c_pos c). change (ac_bits (abs_cur c)) with (c_bits c).
  destruct (Z.ltb_spec (content_end c) (c_pos c + 8 * cp)), (Z.ltb_spec (Z.max 0 (content_end c - c_pos c)) (cp * 8)); try lia.
  { by exists c. }
  rewrite (breader_peek_bytes_spec _ (cw_br _ Hc)) by (by apply (lookahead_mod8 _ (cw_br _ Hc))).
  rewrite (breader_bytes_remaining_spec _ (cw_br _ Hc)), MIN_spec, Z.max_r by lia. fold (c_pos c) (c_bits c). cbv zeta.
  set (nb := Z.min _ _). pose proof (find_null_refines (c_pos c / 8) nb enc c Hc) as Hf.
  unfold mbind at 1, st_bind at 1. destruct (s_find_null _ _ _ _) as [[[t|]|rc|] ac] eqn:Es; [..|done].
  - destruct Hf as (c1 & Hrun & Hc1 & Hac). rewrite (st_bind_ok _ _ _ _ _ Hrun). cbv zeta.
    assert (c1 = c) as -> by (unfold find_null in Hrun; congruence). unfold s_find_null in Es. injection Es as _ <-.
    set (n := t - c_pos c / 8 + 1). destruct (Z.ltb_spec n 0); [done|].
    destruct (read_bytes_step c n Hc Hm ltac:(lia)) as (c' & Hrun' & Hok).
    rewrite (st_bind_ok _ _ _ _ _ Hrun'). change (ac_bits (abs_cur c)) with (c_bits c).
    destruct (Z.ltb_spec (c_bits c) (c_pos c + 8 * n)), (Z.leb_spec (c_pos c + 8 * n) (c_bits c)); try done; try lia.
    destruct (Hok ltac:(lia)) as [Hc' Hac']. by exists c'.
  - destruct Hf as (c1 & Hrun & _). exists c1. by rewrite (st_bind_ok _ _ _ _ _ Hrun).
  - destruct Hf as (c1 & Hrun). exists c1. by apply st_bind_err.
Qed.
