(* ===== verification/FieldSpec.v ===== *)
(** What decoding a field must produce.

    [spec_fld] is the specification of all field classes: a program that returns
    the whole field as a tree.  Its state is an abstract cursor and the state of the
    event; it allocates nothing and assigns no field.  What a field location can see
    is an argument, the [view]: the fields decoded before and the structures and
    arrays around the field, as far as they are decoded.  The theorem that
    [fld_cls_decode] refines it is in [DecoderRefine]. *)
From S2P Require Import Prelude Common Breader Rng Generator HashMap Clock FldCls Metadata Fld Scalar Arena Decoder DecoderSpec.
From stdpp Require Import strings.
Open Scope Z_scope.

(** * Views *)

(** The fields of the event and of the packet; there is no event while a packet
    header is decoded. *)
Record ev_flds := mk_ev_flds {
  vf_header : actf_fld; vf_common_ctx : actf_fld; vf_spec_ctx : actf_fld; vf_payload : actf_fld
}.
Record view := mk_view { vw_header : actf_fld; vw_ctx : actf_fld; vw_ev : option ev_flds }.

Definition vf_prop (e : ev_flds) (p : actf_event_prop) : actf_fld :=
  match p with
  | ACTF_EVENT_PROP_HEADER => vf_header e
  | ACTF_EVENT_PROP_COMMON_CTX => vf_common_ctx e
  | ACTF_EVENT_PROP_SPECIFIC_CTX => vf_spec_ctx e
  | ACTF_EVENT_PROP_PAYLOAD => vf_payload e
  end.
Definition vf_upd (p : actf_event_prop) (h : actf_fld -> actf_fld) (e : ev_flds) : ev_flds :=
  let '(mk_ev_flds a b c d) := e in
  match p with
  | ACTF_EVENT_PROP_HEADER => mk_ev_flds (h a) b c d
  | ACTF_EVENT_PROP_COMMON_CTX => mk_ev_flds a (h b) c d
  | ACTF_EVENT_PROP_SPECIFIC_CTX => mk_ev_flds a b (h c) d
  | ACTF_EVENT_PROP_PAYLOAD => mk_ev_flds a b c (h d)
  end.

Definition v_root (V : view) (r : root) : option actf_fld :=
  match r with
  | RPkt ACTF_PKT_PROP_HEADER => Some (vw_header V)
  | RPkt ACTF_PKT_PROP_CTX => Some (vw_ctx V)
  | REv p => (fun e => vf_prop e p) <$> vw_ev V
  end.
Definition v_upd (r : root) (h : actf_fld -> actf_fld) (V : view) : view :=
  match r with
  | RPkt ACTF_PKT_PROP_HEADER => mk_view (h (vw_header V)) (vw_ctx V) (vw_ev V)
  | RPkt ACTF_PKT_PROP_CTX => mk_view (vw_header V) (h (vw_ctx V)) (vw_ev V)
  | REv p => mk_view (vw_header V) (vw_ctx V) (vf_upd p h <$> vw_ev V)
  end.

(** The field at a place, and the view with another field there. *)
Definition v_fetch (V : view) (a : addr) : option actf_fld := v_root V (a_root a) ≫= sub_fld (a_path a).
Definition v_put (a : addr) (f : actf_fld) (V : view) : view := v_upd (a_root a) (upd_sub (a_path a) (fun _ => f)) V.

(** * The state *)

Record sst := mk_sst { ss_cur : acur; ss_ev : option event_state }.

Definition on_acur {A} (m : st acur A) : st sst A := st_zoom ss_cur (fun c s => mk_sst c (ss_ev s)) m.
Definition s_upd_pkt (h : pkt_state -> pkt_state) : st sst unit :=
  on_acur (st_modify (fun ac => mk_acur (ac_mem ac) (ac_bo ac) (ac_pos ac) (h (ac_pkt ac)))).
Definition s_upd_ev (h : event_state -> event_state) : st sst unit := fun s =>
  match ss_ev s with None => (Undef, s) | Some e => (Ok tt, mk_sst (ss_cur s) (Some (h e))) end.

Section Spec.
(** The metadata, and the depth of nested field locations. *)
Context (md : actf_metadata) (loc_fuel : nat).

(** * Roles

    What a field with a role does to the state of the packet or event, by the part of
    the data stream that the field is in. *)

Definition s_uint64 (f : actf_fld) : st sst Z :=
  let v := actf_fld_uint64 f in if (0 <=? v) && (v <? 2 ^ 64) then mret v else st_undef.

Definition s_set (h : Z -> pkt_state -> pkt_state) (cls : actf_fld_cls) (f : actf_fld) : st sst unit :=
  v ← s_uint64 f; s_upd_pkt (h v).

(** The clock reaches the time stamp in the field. *)
Definition s_clock (cls : actf_fld_cls) (f : actf_fld) : st sst Z :=
  s ← st_get;
  match calc_new_def_clk_val cls f (pkt_def_clk_val (ac_pkt (ss_cur s))) with
  | None => st_undef
  | Some v => s_upd_pkt (set_def_clk v);; mret v
  end.

Definition s_magic (cls : actf_fld_cls) (f : actf_fld) : st sst unit :=
  if actf_fld_uint64 f =? PACKET_MAGIC_NUMBER then mret tt else st_fail ACTF_MAGIC_MISMATCH.

(** The sixteen bytes of the blob are those of the UUID of the metadata. *)
Definition s_uuid (cls : actf_fld_cls) (f : actf_fld) : st sst unit :=
  s ← st_get;
  match f_d f with
  | ACTF_FLD_TYPE_BLOB p _ =>
      if (p <? 0) || (Z.of_nat (length (ac_mem (ss_cur s))) <? p + ACTF_UUID_N_BYTES) then st_undef
      else if bool_decide (uuid (preamble md) = mem_slice (ac_mem (ss_cur s)) p ACTF_UUID_N_BYTES) then mret tt
      else st_fail ACTF_UUID_MISMATCH
  | _ => st_undef
  end.

Definition role_table (c : dec_ctx) : list (Z * (actf_fld_cls -> actf_fld -> st sst unit)) :=
  match c with
  | DEC_CTX_PKT_HEADER =>
      [(ACTF_ROLE_DSTREAM_CLS_ID, s_set set_dsc_id);
       (ACTF_ROLE_DSTREAM_ID, s_set (fun v p => set_flag PKT_DSTREAM_ID (set_ds_id v p)));
       (ACTF_ROLE_PKT_MAGIC_NUM, s_magic);
       (ACTF_ROLE_METADATA_STREAM_UUID, s_uuid)]
  | DEC_CTX_PKT_CTX =>
      [(ACTF_ROLE_DEF_CLK_TSTAMP, fun cls f => v ← s_clock cls f; s_upd_pkt (set_begin_clk v));
       (ACTF_ROLE_DISC_EVENT_CNT_SNAPSHOT, s_set (fun v p => set_flag PKT_DISC_ER_SNAP (set_disc_er_snap v p)));
       (ACTF_ROLE_PKT_CONTENT_LEN, s_set set_content_len);
       (ACTF_ROLE_PKT_END_DEF_CLK_TSTAMP, s_set (fun v p => set_flag PKT_END_DEF_CLK_VAL (set_end_clk v p)));
       (ACTF_ROLE_PKT_SEQ_NUM, s_set (fun v p => set_flag PKT_SEQ_NUM (set_seq_num v p)));
       (ACTF_ROLE_PKT_TOT_LEN, s_set set_tot_len)]
  | DEC_CTX_EVENT_HEADER =>
      [(ACTF_ROLE_EVENT_CLS_ID, fun _ f => v ← s_uint64 f; s_upd_ev (set_ev_id v));
       (ACTF_ROLE_DEF_CLK_TSTAMP, fun cls f => v ← s_clock cls f; s_upd_ev (set_ev_clk v))]
  | _ => []
  end.

Definition has_role (cls : actf_fld_cls) (role : Z) : bool := c_true (Z.land (actf_fld_cls_roles cls) role).

Definition s_role (cls : actf_fld_cls) (f : actf_fld) (e : Z * (actf_fld_cls -> actf_fld -> st sst unit)) : st sst unit :=
  if has_role cls (fst e) then snd e cls f else mret tt.
Fixpoint s_each_role (cls : actf_fld_cls) (f : actf_fld) (t : list (Z * (actf_fld_cls -> actf_fld -> st sst unit))) : st sst unit :=
  match t with [] => mret tt | e :: t => s_role cls f e;; s_each_role cls f t end.
Definition s_roles (c : dec_ctx) (cls : actf_fld_cls) (f : actf_fld) : st sst unit := s_each_role cls f (role_table c).

(** * Fields that other fields refer to *)

(** The value of an integer field is one of its C type. *)
Definition in_range (f : actf_fld) : Prop :=
  match f_d f with ACTF_FLD_TYPE_SINT v => is_i64 v | ACTF_FLD_TYPE_UINT v _ => is_u64 v | _ => True end.
#[export] Instance in_range_dec f : Decision (in_range f).
Proof. unfold in_range, is_i64, is_u64. destruct (f_d f); apply _. Defined.

Definition int_value (f : actf_fld) : option Z :=
  match f_d f with ACTF_FLD_TYPE_SINT v => Some v | ACTF_FLD_TYPE_UINT v _ => Some v | _ => None end.

(** The field at a location, seen from a field with this parent. *)
Definition s_locate (V : view) (loc : actf_fld_loc) (parent : option addr) : st sst actf_fld :=
  match fld_loc_locate loc_fuel (v_fetch V) loc (mk_fld None parent ACTF_FLD_TYPE_NIL) with
  | Ok None => st_fail ACTF_MISSING_FLD_LOC
  | Ok (Some b) => match v_fetch V b with Some f => if decide (in_range f) then mret f else st_undef | None => st_undef end
  | _ => st_undef
  end.

Definition s_length (V : view) (loc : actf_fld_loc) (parent : option addr) : st sst Z :=
  f ← s_locate V loc parent;
  match f_d f with ACTF_FLD_TYPE_UINT v _ => mret v | _ => st_fail ACTF_WRONG_FLD_TYPE end.

#[export] Instance rng_mem_dec rs x : Decision (rng_mem rs x).
Proof. destruct rs; unfold rng_mem, srng_mem, urng_mem; apply _. Defined.

(** Whether a selector enables an optional field. *)
Definition s_enabled (rngs : actf_rng_set) (sel : actf_fld) : st sst bool :=
  match f_d sel with
  | ACTF_FLD_TYPE_BOOL v => mret v
  | _ =>
      if actf_rng_set_len rngs =? 0 then st_fail ACTF_NO_SELECTOR_FLD
      else match int_value sel with
           | Some v => mret (bool_decide (rng_mem rngs v))
           | None => st_fail ACTF_WRONG_FLD_TYPE
           end
  end.

(** The last of the options whose ranges hold [v], or else [k]. *)
Definition s_choose (spec : actf_fld_cls -> st sst actf_fld) (v : Z) :=
  fix choose (opts : list (option string * actf_fld_cls * actf_rng_set)) (k : st sst actf_fld) : st sst actf_fld :=
    match opts with
    | [] => k
    | (_, c, rs) :: opts' => choose opts' (if bool_decide (rng_mem rs v) then spec c else k)
    end.

(** * Fields *)

(** The members of a structure, after those that are done; [seen] is the view with
    these values for the members. *)
Definition s_members (c : dec_ctx) (spec : actf_fld_cls -> view -> addr -> option addr -> st sst actf_fld)
    (seen : list actf_fld -> view) (val : addr) :=
  fix members (ms : list (string * actf_fld_cls)) (done : list actf_fld) : st sst (list actf_fld) :=
    match ms with
    | [] => mret done
    | (_, cls) :: ms' =>
        f ← spec cls (seen (done ++ repeat nil_fld (length ms))) (elem val (length done)) (Some val);
        s_roles c cls f;;
        members ms' (done ++ [f])
    end.

(** The [n] elements of an array after those that are done; the number of these is
    part of the array. *)
Fixpoint s_elems (spec : view -> addr -> st sst actf_fld) (seen : list actf_fld -> Z -> view) (val : addr)
    (n : nat) (done : list actf_fld) : st sst (list actf_fld) :=
  match n with
  | O => mret done
  | S n' =>
      f ← spec (seen (done ++ repeat nil_fld n) (Z.of_nat (length done))) (elem val (length done));
      s_elems spec seen val n' (done ++ [f])
  end.

(** The bound on the number of fields keeps the sizes of their blocks far from
    wrapping around. *)
Definition MAX_FLDS : Z := 2 ^ 56.

(** The field of class [cls] at the place [val] of [V], with its parent. *)
Fixpoint spec_fld (c : dec_ctx) (cls : actf_fld_cls) (V : view) (val : addr) (parent : option addr) : st sst actf_fld :=
  let V := v_put val (mk_fld (Some cls) parent ACTF_FLD_TYPE_NIL) V in
  let array ele al n :=
    on_acur (s_align al);;
    if MAX_FLDS <? n then st_undef
    else
      vals ← s_elems (fun V a => spec_fld c ele V a parent)
               (fun vals n => v_put val (mk_fld (Some cls) parent (ACTF_FLD_TYPE_ARR vals n)) V) val (Z.to_nat n) [];
      mret (mk_fld (Some cls) parent (ACTF_FLD_TYPE_ARR vals n)) in
  let selected c' := f ← spec_fld c c' V val parent; s_roles c c' f;; mret f in
  match cls with
  | FC_STRUCT ms _ al =>
      on_acur (s_align al);;
      if MAX_FLDS <? Z.of_nat (length ms) then st_undef
      else
        vals ← s_members c (spec_fld c)
                 (fun vals => v_put val (mk_fld (Some cls) parent (ACTF_FLD_TYPE_STRUCT vals)) V) val ms [];
        mret (mk_fld (Some cls) parent (ACTF_FLD_TYPE_STRUCT vals))
  | FC_STATIC_LEN_ARR ele _ n =>
      match actf_fld_cls_get_align_req cls with None => st_undef | Some al => array ele al n end
  | FC_DYN_LEN_ARR ele _ loc =>
      match actf_fld_cls_get_align_req cls with
      | None => st_undef
      | Some al => n ← s_length V loc parent; array ele al n
      end
  | FC_DYN_LEN_STR enc loc =>
      n ← s_length V loc parent;
      '(p, n) ← on_acur (s_str enc n);
      mret (mk_fld (Some cls) parent (ACTF_FLD_TYPE_STR p n))
  | FC_DYN_LEN_BLOB loc _ =>
      n ← s_length V loc parent;
      p ← on_acur (s_blob n);
      mret (mk_fld (Some cls) parent (ACTF_FLD_TYPE_BLOB p n))
  | FC_OPTIONAL c' loc rngs =>
      sel ← s_locate V loc parent;
      enabled ← s_enabled rngs sel;
      if (enabled : bool) then selected c' else mret (mk_fld (Some cls) parent ACTF_FLD_TYPE_NIL)
  | FC_VARIANT opts loc =>
      sel ← s_locate V loc parent;
      match int_value sel with
      | None => st_fail ACTF_WRONG_FLD_TYPE
      | Some v => s_choose selected v opts (st_fail ACTF_NO_SELECTOR_FLD)
      end
  | _ => d ← on_acur (s_leaf cls); mret (mk_fld (Some cls) parent d)
  end.
End Spec.
