(* ===== verification/DecoderRefine.v ===== *)
(** [fld_cls_decode] refines the specification [spec_fld] of fields.

    A program that builds a field in place is compared with a specification
    that returns the field ([builds]); the rules follow the actions of the
    decoder: reading from the stream, assigning members of the field, allocating
    the array of a compound field and decoding an element of it. *)
From S2P Require Import Prelude Common Breader Rng Generator HashMap Clock FldCls Metadata Fld Scalar Arena Decoder DecoderSpec FieldSpec Samples.
From stdpp Require Import strings.
Open Scope Z_scope.

(** * Fields in place *)

(** [*val = f]. *)
Definition put (val : addr) (f : actf_fld) (d : actf_decoder) : actf_decoder :=
  upd_root (a_root val) (upd_sub (a_path val) (fun _ => f)) d.

Lemma children_set vals f i g : children f !! i = Some g -> children (set_children vals f) = vals.
Proof. destruct f as [c p []]; cbn; by rewrite ?lookup_nil. Qed.

Lemma set_children_twice vals vals' f : set_children vals (set_children vals' f) = set_children vals f.
Proof. by destruct f as [c p []]. Qed.

Lemma set_children_id f : set_children (children f) f = f.
Proof. by destruct f as [c p []]. Qed.

Lemma sub_fld_app p q f : sub_fld (p ++ q) f = sub_fld p f ≫= sub_fld q.
Proof.
  revert f. induction p as [|i p IH]; intros f; [done|]. cbn. destruct (children f !! i) as [g|]; [|done]. cbn. apply IH.
Qed.

Lemma upd_sub_app p q h f : upd_sub (p ++ q) h f = upd_sub p (upd_sub q h) f.
Proof.
  revert f. induction p as [|i p IH]; intros f; [done|]. cbn. destruct (children f !! i) as [g|]; [|done]. by rewrite IH.
Qed.

Lemma upd_sub_compose p h h' f : upd_sub p h (upd_sub p h' f) = upd_sub p (fun g => h (h' g)) f.
Proof.
  revert f. induction p as [|i p IH]; intros f; [done|]. cbn. destruct (children f !! i) as [g|] eqn:E; [|by rewrite E].
  rewrite (children_set _ _ _ _ E), list_lookup_insert_eq by (by eapply lookup_lt_Some).
  by rewrite IH, list_insert_insert_eq, set_children_twice.
Qed.

Lemma upd_sub_ext p h h' f g : sub_fld p f = Some g -> h g = h' g -> upd_sub p h f = upd_sub p h' f.
Proof.
  revert f. induction p as [|i p IH]; cbn; intros f; [congruence|].
  destruct (children f !! i) as [g'|]; [|done]. cbn. intros Hs Hh. by rewrite (IH g').
Qed.

Lemma upd_sub_id p f : upd_sub p (fun g => g) f = f.
Proof.
  revert f. induction p as [|i p IH]; intros f; [done|]. cbn. destruct (children f !! i) as [g|] eqn:E; [|done].
  rewrite IH, list_insert_id by done. apply set_children_id.
Qed.

Lemma sub_upd_sub p h f g : sub_fld p f = Some g -> sub_fld p (upd_sub p h f) = Some (h g).
Proof.
  revert f. induction p as [|i p IH]; cbn; intros f; [congruence|].
  destruct (children f !! i) as [g'|] eqn:E; [|done]. cbn. intros Hs.
  rewrite (children_set _ _ _ _ E), list_lookup_insert_eq by (by eapply lookup_lt_Some). cbn. by apply IH.
Qed.

(** ** Roots *)

Lemma upd_root_compose r h h' d : upd_root r h (upd_root r h' d) = upd_root r (fun f => h (h' f)) d.
Proof.
  destruct d as [? ? ? ? ? ? ? [? ? [] [e|] ?]], r as [[]|[]]; try done; destruct e; done.
Qed.

Lemma upd_root_ext r h h' d f : root_fld d r = Some f -> h f = h' f -> upd_root r h d = upd_root r h' d.
Proof.
  unfold root_fld, upd_root. destruct r as [p|p].
  - intros [= <-] Hh. by rewrite Hh.
  - destruct (ev (dec_s d)) as [e|]; [|done]. intros [= <-] Hh. cbn. by rewrite Hh.
Qed.

Lemma upd_root_id r d : upd_root r (fun f => f) d = d.
Proof.
  destruct d as [? ? ? ? ? ? ? [? ? [] [[]|] ?]], r as [[]|[]]; done.
Qed.

Lemma root_upd_root r h d f : root_fld d r = Some f -> root_fld (upd_root r h d) r = Some (h f).
Proof.
  destruct d as [? ? ? ? ? ? ? [? ? [] [[]|] ?]], r as [[]|[]]; cbn; intros [= <-]; done.
Qed.

(** ** Reading and writing a place that exists *)

Lemma fetch_put val f d g : fetch d val = Some g -> fetch (put val f d) val = Some f.
Proof.
  unfold fetch, put. destruct (root_fld d (a_root val)) as [r|] eqn:Er; [|done]. cbn. intros Hs.
  rewrite (root_upd_root _ _ _ _ Er). cbn. by apply (sub_upd_sub _ (fun _ => f)) in Hs.
Qed.

Lemma put_self val d g : fetch d val = Some g -> put val g d = d.
Proof.
  unfold fetch, put. destruct (root_fld d (a_root val)) as [r|] eqn:Er; [|done]. cbn. intros Hs.
  rewrite (upd_root_ext _ _ (fun f => f) _ _ Er); [apply upd_root_id|].
  rewrite (upd_sub_ext _ _ (fun f => f) _ _ Hs); [apply upd_sub_id|done].
Qed.

Lemma modify_put val h f d g :
  fetch d val = Some g -> modify_fld val h (put val f d) = (Ok tt, put val (h f) d).
Proof.
  intros Hf. unfold modify_fld. rewrite (fetch_put _ f _ _ Hf). f_equal. unfold put. rewrite upd_root_compose.
  unfold fetch in Hf. destruct (root_fld d (a_root val)) as [r|] eqn:Er; [|done].
  apply (upd_root_ext _ _ _ _ _ Er), upd_sub_compose.
Qed.

Lemma fetch_elem val i f d g : fetch d val = Some g -> fetch (put val f d) (elem val i) = children f !! i.
Proof.
  intros Hf. pose proof (fetch_put _ f _ _ Hf) as Hp. unfold fetch in *. cbn [elem a_root a_path].
  destruct (root_fld (put val f d) (a_root val)) as [r|]; [|done]. cbn in *. rewrite sub_fld_app, Hp. cbn.
  by destruct (children f !! i).
Qed.

Lemma put_elem val i x f d : put (elem val i) x (put val f d) = put val (upd_sub [i] (fun _ => x) f) d.
Proof.
  unfold put. cbn [elem a_root a_path]. rewrite upd_root_compose. destruct (root_fld d (a_root val)) as [r|] eqn:Er.
  - apply (upd_root_ext _ _ _ _ _ Er). by rewrite upd_sub_app, upd_sub_compose.
  - destruct (a_root val) as [p|p]; [done|]. cbn in *. by destruct (ev (dec_s d)).
Qed.

Lemma modify_elem val i h f d g x :
  fetch d val = Some g -> children f !! i = Some x ->
  modify_fld (elem val i) h (put val f d) = (Ok tt, put val (upd_sub [i] (fun _ => h x) f) d).
Proof.
  intros Hf Hx. rewrite <- put_elem. pose proof (fetch_elem val i f d g Hf) as Hfe. rewrite Hx in Hfe.
  rewrite <- (put_self _ _ _ Hfe) at 1. apply (modify_put _ _ _ _ _ Hfe).
Qed.

(** ** Views *)

Definition view_of (d : actf_decoder) : view :=
  mk_view (pkt_header_fld (pkt (dec_s d))) (pkt_ctx_fld (pkt (dec_s d)))
    ((fun e => mk_ev_flds (ev_header_fld e) (ev_common_ctx_fld e) (ev_spec_ctx_fld e) (ev_payload_fld e)) <$> ev (dec_s d)).

Lemma v_root_view r d : v_root (view_of d) r = root_fld d r.
Proof. destruct r as [[]|p]; [done..|]. cbn. by destruct (ev (dec_s d)) as [[]|], p. Qed.

Lemma v_fetch_view a d : v_fetch (view_of d) a = fetch d a.
Proof. unfold v_fetch, fetch. by rewrite v_root_view. Qed.

Lemma view_put a f d : view_of (put a f d) = v_put a f (view_of d).
Proof.
  unfold put, v_put. generalize (upd_sub (a_path a) (fun _ => f)). intros h.
  destruct d as [? ? ? ? ? ? ? [? ? [] [[]|] ?]], (a_root a) as [[]|[]]; done.
Qed.

Lemma v_put_elem val i x f V : v_put (elem val i) x (v_put val f V) = v_put val (upd_sub [i] (fun _ => x) f) V.
Proof.
  unfold v_put. cbn [elem a_root a_path]. destruct V as [h c [[]|]], (a_root val) as [[]|[]]; cbn; rewrite ?upd_sub_app, ?upd_sub_compose; done.
Qed.

Lemma v_put_twice val x f V : v_put val x (v_put val f V) = v_put val x V.
Proof.
  unfold v_put. destruct V as [h c [[]|]], (a_root val) as [[]|[]]; cbn; by rewrite ?upd_sub_compose.
Qed.

(** ** What a location can see *)

Lemma loc_walk_ext get_len get_len' look look' fuel path a :
  (forall f, get_len f = get_len' f) -> (forall b, look b = look' b) ->
  loc_walk get_len look fuel path a = loc_walk get_len' look' fuel path a.
Proof.
  intros Hg Hl. assert (Hd : forall fuel f a, arr_descend get_len fuel f a = arr_descend get_len' fuel f a).
  { induction fuel0 as [|n IH]; intros f b; cbn; [done|]. rewrite Hg. repeat case_match; try done; apply IH. }
  revert a. induction path as [|p path IH]; intros a; cbn; [done|]. rewrite Hl. destruct (look' a) as [f|]; [|done].
  assert (E : match p with
    | Some name => match get_struct_member f a name with
                   | Ok (Some b) => match look b with None => Undef | Some g => Ok (match f_d g with ACTF_FLD_TYPE_NIL => None | _ => Some b end) end
                   | r => r end
    | None => Ok (f_parent f) end =
    match p with
    | Some name => match get_struct_member f a name with
                   | Ok (Some b) => match look' b with None => Undef | Some g => Ok (match f_d g with ACTF_FLD_TYPE_NIL => None | _ => Some b end) end
                   | r => r end
    | None => Ok (f_parent f) end) by (destruct p; [|done]; by repeat (case_match; rewrite ?Hl in *)).
  rewrite E. clear E. match goal with |- match ?x with _ => _ end = _ => destruct x as [[b|]|rc|] end; try done.
  rewrite Hl. destruct (look' b) as [g|]; [|done]. rewrite Hd. repeat case_match; try done; apply IH.
Qed.

Lemma fld_loc_locate_ext fuel look look' loc cur cur' :
  (forall b, look b = look' b) -> f_parent cur = f_parent cur' ->
  fld_loc_locate fuel look loc cur = fld_loc_locate fuel look' loc cur'.
Proof.
  intros Hl. revert loc cur cur'. induction fuel as [|fuel IH]; intros loc cur cur' Hp; cbn; [done|].
  assert (E : origin_addr loc cur = origin_addr loc cur') by (unfold origin_addr; by rewrite Hp).
  rewrite E. destruct (origin_addr loc cur'); [|done]. rewrite Hl. destruct (look' _) as [f|]; [|done].
  destruct (f_d f); try done. apply loc_walk_ext; [|done]. intros g.
  destruct (f_cls g) as [[]|]; try done. rewrite (IH _ g g eq_refl). repeat (case_match; rewrite ?Hl in *; simplify_eq; try done).
Qed.

(** * The decoder around a field *)

Definition cur_of (d : actf_decoder) : cursor := mk_cursor (br d) (d_pkt_s d).
Definition set_cur (c : cursor) (d : actf_decoder) : actf_decoder := set_pkt_s (c_pkt c) (set_br (c_br c) d).

(** The state of the specification. *)
Definition abs (d : actf_decoder) : sst := mk_sst (abs_cur (cur_of d)) (ev_s <$> ev (dec_s d)).

Record env_ok (c : dec_ctx) (d : actf_decoder) : Prop := {
  eo_cur : cur_wf (cur_of d);
  eo_pkt : arena_wf (pkt_arena (dec_s d));
  eo_ev : arena_wf (ev_arena (dec_s d));
  eo_ctx : ctx (dec_s d) = c
}.

Section Refine.
Context (md : actf_metadata) (pkt_malloc ev_malloc : nat -> Z -> bool) (loc_fuel : nat) (c : dec_ctx).
Context (Hpm : forall n sz, pkt_malloc n sz = true) (Hem : forall n sz, ev_malloc n sz = true).

(** [d'] is [d] in the state [s] of the specification, with other arenas. *)
Definition advanced (d d' : actf_decoder) (s : sst) : Prop :=
  env_ok c d' /\ abs d' = s /\ exists cu p e es, d' = set_arenas p e (set_ev_s es (set_cur cu d)).

Lemma advanced_intro d cu p e es :
  cur_wf cu -> arena_wf p -> arena_wf e -> ctx (dec_s d) = c ->
  advanced d (set_arenas p e (set_ev_s es (set_cur cu d))) (mk_sst (abs_cur cu) ((fun _ => es) <$> ev (dec_s d))).
Proof.
  intros Hc Hp He Hx. split; [|split; [|by exists cu, p, e, es]].
  - split; try done. by destruct cu.
  - unfold abs. cbn. destruct cu. by destruct (ev (dec_s d)) as [[]|].
Qed.

Lemma set_ev_s_same e d : ev_s <$> ev (dec_s d) = Some e -> set_ev_s e d = d.
Proof. destruct d as [? ? ? ? ? ? ? [? ? [] [[]|] ?]]; cbn; [by intros [= ->]|done]. Qed.

Lemma set_ev_s_none e d : ev (dec_s d) = None -> set_ev_s e d = d.
Proof. destruct d as [? ? ? ? ? ? ? [? ? [] [[]|] ?]]; cbn; done. Qed.

(** Steps that leave the event alone. *)
Lemma advanced_cur d cu p e :
  cur_wf cu -> arena_wf p -> arena_wf e -> ctx (dec_s d) = c ->
  advanced d (set_arenas p e (set_cur cu d)) (mk_sst (abs_cur cu) (ev_s <$> ev (dec_s d))).
Proof.
  intros Hc Hp He Hx. destruct (ev (dec_s d)) as [x|] eqn:E.
  - pose proof (advanced_intro d cu p e (ev_s x) Hc Hp He Hx) as H. rewrite (set_ev_s_same (ev_s x) (set_cur cu d)) in H by (cbn; by rewrite E).
    by rewrite E in H.
  - pose proof (advanced_intro d cu p e event_state_init Hc Hp He Hx) as H. rewrite (set_ev_s_none _ (set_cur cu d)) in H by (cbn; by rewrite E).
    by rewrite E in H.
Qed.

Lemma set_same d : set_arenas (pkt_arena (dec_s d)) (ev_arena (dec_s d)) (set_cur (cur_of d) d) = d.
Proof. by destruct d as [? ? ? ? ? ? ? [? ? [] ? ?]]. Qed.

Lemma advanced_refl d : env_ok c d -> advanced d d (abs d).
Proof. intros []. rewrite <- (set_same d) at 2. by apply advanced_cur. Qed.

Lemma advanced_set_cur d cu : env_ok c d -> cur_wf cu -> advanced d (set_cur cu d) (mk_sst (abs_cur cu) (ev_s <$> ev (dec_s d))).
Proof.
  intros [] Hcu. pose proof (advanced_cur d cu (pkt_arena (dec_s d)) (ev_arena (dec_s d)) Hcu eo_pkt0 eo_ev0 eo_ctx0) as H.
  assert (E : set_arenas (pkt_arena (dec_s d)) (ev_arena (dec_s d)) (set_cur cu d) = set_cur cu d) by (by destruct d as [? ? ? ? ? ? ? [? ? [] ? ?]]).
  by rewrite E in H.
Qed.

Lemma advanced_trans d d1 d2 s1 s2 : advanced d d1 s1 -> advanced d1 d2 s2 -> advanced d d2 s2.
Proof.
  intros (_ & _ & c1 & p1 & e1 & x1 & ->) (Hok & Hac & c2 & p2 & e2 & x2 & ->). split; [done|]. split; [done|].
  exists c2, p2, e2, x2. by destruct d as [? ? ? ? ? ? ? [? ? [] [[]|] ?]].
Qed.

Lemma advanced_ok d d' s : advanced d d' s -> env_ok c d' /\ abs d' = s.
Proof. intros (? & ? & _). done. Qed.

Lemma advanced_view d d' s : advanced d d' s -> view_of d' = view_of d.
Proof. intros (_ & _ & cu & p & e & x & ->). by destruct d as [? ? ? ? ? ? ? [? ? [] [[]|] ?]]. Qed.

Lemma advanced_fetch d d' s val : advanced d d' s -> fetch d' val = fetch d val.
Proof. intros H%advanced_view. by rewrite <- !v_fetch_view, H. Qed.

Lemma put_set_cur val f cu d : put val f (set_cur cu d) = set_cur cu (put val f d).
Proof. unfold put. by destruct (a_root val) as [[]|[]]. Qed.
Lemma put_set_arenas val f p e d : put val f (set_arenas p e d) = set_arenas p e (put val f d).
Proof. unfold put. by destruct (a_root val) as [[]|[]]. Qed.
Lemma put_set_ev_s val f x d : put val f (set_ev_s x d) = set_ev_s x (put val f d).
Proof. unfold put. by destruct d as [? ? ? ? ? ? ? [? ? [] [[]|] ?]], (a_root val) as [[]|[]]. Qed.
Lemma cur_of_put val f d : cur_of (put val f d) = cur_of d.
Proof. unfold put. by destruct (a_root val) as [[]|[]]. Qed.
Lemma abs_put val f d : abs (put val f d) = abs d.
Proof. unfold put. by destruct d as [? ? ? ? ? ? ? [? ? [] [[]|] ?]], (a_root val) as [[]|[]]. Qed.
Lemma put_env val f d : env_ok c (put val f d) <-> env_ok c d.
Proof. unfold put. by destruct (a_root val) as [[]|[]]; split; intros []. Qed.
Lemma put_arenas val f d :
  ctx (dec_s (put val f d)) = ctx (dec_s d) /\ pkt_arena (dec_s (put val f d)) = pkt_arena (dec_s d) /\
  ev_arena (dec_s (put val f d)) = ev_arena (dec_s d).
Proof. unfold put. by destruct (a_root val) as [[]|[]]. Qed.

Lemma put_advanced val f d d' s : advanced d d' s -> advanced (put val f d) (put val f d') s.
Proof.
  intros (Hok & Hac & cu & p & e & x & ->). split; [by apply put_env|]. rewrite abs_put. split; [done|].
  exists cu, p, e, x. by rewrite put_set_arenas, put_set_ev_s, put_set_cur.
Qed.

(** * Building a field in place *)

(** [a] is a result of [s]. *)
Definition returns {S A} (s : st S A) (a : A) : Prop := exists x x', s x = (Ok a, x').

(** Where [*val] is [f], [m] builds the field that [s] specifies for the view of the
    decoder. *)
Definition builds (val : addr) (f : actf_fld) (m : st actf_decoder unit) (s : view -> st sst actf_fld) : Prop :=
  forall d, env_ok c d -> is_Some (fetch d val) ->
  match s (view_of d) (abs d) with
  | (Ok f', x) => exists d', advanced d d' x /\ m (put val f d) = (Ok tt, put val f' d')
  | (Err rc, _) => exists d', m (put val f d) = (Err rc, d')
  | (Undef, _) => True
  end.

Lemma builds_ret val f : builds val f (mret tt) (fun _ => mret f).
Proof. intros d Hd _. exists d. split; [by apply advanced_refl|done]. Qed.

Lemma builds_fail val f rc : builds val f (st_fail rc) (fun _ => st_fail rc).
Proof. intros d Hd _. eexists. reflexivity. Qed.

Lemma builds_undef val f m : builds val f m (fun _ => st_undef).
Proof. by intros d Hd _. Qed.

Lemma builds_ext val f m s s' : (forall V x, s V x = s' V x) -> builds val f m s -> builds val f m s'.
Proof. intros E Hb d Hd Hg. specialize (Hb d Hd Hg). by rewrite E in Hb. Qed.

Lemma builds_modify val f h k s : builds val (h f) k s -> builds val f (modify_fld val h;; k) s.
Proof.
  intros Hk d Hd [g Hg]. specialize (Hk d Hd (ex_intro _ g Hg)).
  by rewrite (st_bind_ok _ _ _ _ _ (modify_put val h f d g Hg)).
Qed.

Lemma builds_set val f h : builds val f (modify_fld val h) (fun _ => mret (h f)).
Proof.
  intros d Hd [g Hg]. exists d. split; [by apply advanced_refl|]. apply (modify_put val h f d g Hg).
Qed.

Lemma read_put val f d g : fetch d val = Some g -> read_fld val (put val f d) = (Ok f, put val f d).
Proof. intros Hg. unfold read_fld. by rewrite (fetch_put _ f _ _ Hg). Qed.

Lemma builds_read val f (k : actf_fld -> st actf_decoder unit) s :
  builds val f (k f) s -> builds val f (read_fld val ≫= k) s.
Proof.
  intros Hk d Hd [g Hg]. specialize (Hk d Hd (ex_intro _ g Hg)). by rewrite (st_bind_ok _ _ _ _ _ (read_put val f d g Hg)).
Qed.

Lemma builds_pure {A} val f (a : A) (k : A -> st actf_decoder unit) s : builds val f (k a) s -> builds val f (mret a ≫= k) s.
Proof. done. Qed.

(** A step that reads or moves the state of the specification, and leaves the field. *)
Definition steps {A} (val : addr) (f : actf_fld) (m : st actf_decoder A) (s : view -> st sst A) : Prop :=
  forall d, env_ok c d -> is_Some (fetch d val) ->
  match s (view_of d) (abs d) with
  | (Ok a, x) => exists d', advanced d d' x /\ m (put val f d) = (Ok a, put val f d')
  | (Err rc, _) => exists d', m (put val f d) = (Err rc, d')
  | (Undef, _) => True
  end.

Lemma builds_step {A} val f (m : st actf_decoder A) s (k : A -> st actf_decoder unit) t :
  steps val f m s -> (forall V a, returns (s V) a -> builds val f (k a) (t a)) ->
  builds val f (m ≫= k) (fun V => s V ≫= fun a => t a V).
Proof.
  intros Hm Hk d Hd Hg. specialize (Hm d Hd Hg). unfold mbind at 1, st_bind at 1.
  destruct (s (view_of d) (abs d)) as [[a|rc|] x] eqn:Es; [..|done].
  - destruct Hm as (d1 & Hadv & Hrun). destruct (advanced_ok _ _ _ Hadv) as [Hok Habs].
    specialize (Hk (view_of d) a (ex_intro _ _ (ex_intro _ _ Es)) d1 Hok).
    rewrite (advanced_fetch _ _ _ val Hadv), (advanced_view _ _ _ Hadv), Habs in Hk. specialize (Hk Hg).
    destruct (t a (view_of d) x) as [[f'|rc|] x']; [..|done]; rewrite (st_bind_ok _ _ _ _ _ Hrun); [|done].
    destruct Hk as (d' & Hd' & Hrun'). exists d'. split; [by eapply advanced_trans|done].
  - destruct Hm as (d' & Hrun). eexists. by rewrite (st_bind_err _ _ _ _ _ Hrun).
Qed.

Lemma steps_ret {A} val f (a : A) : steps val f (mret a) (fun _ => mret a).
Proof. intros d Hd _. exists d. split; [by apply advanced_refl|done]. Qed.

Lemma steps_fail {A} val f rc : steps (A := A) val f (st_fail rc) (fun _ => st_fail rc).
Proof. intros d Hd _. eexists. reflexivity. Qed.

Lemma steps_undef {A} val f (m : st actf_decoder A) : steps val f m (fun _ => st_undef).
Proof. by intros d Hd _. Qed.

Lemma steps_bind {A B} val f (m : st actf_decoder A) s (k : A -> st actf_decoder B) t :
  steps val f m s -> (forall a, steps val f (k a) (t a)) -> steps val f (m ≫= k) (fun V => s V ≫= fun a => t a V).
Proof.
  intros Hm Hk d Hd Hg. specialize (Hm d Hd Hg). unfold mbind at 1, st_bind at 1.
  destruct (s (view_of d) (abs d)) as [[a|rc|] x] eqn:Es; [..|done].
  - destruct Hm as (d1 & Hadv & Hrun). destruct (advanced_ok _ _ _ Hadv) as [Hok Habs].
    specialize (Hk a d1 Hok). rewrite (advanced_fetch _ _ _ val Hadv), (advanced_view _ _ _ Hadv), Habs in Hk. specialize (Hk Hg).
    destruct (t a (view_of d) x) as [[b|rc|] x']; [..|done]; rewrite (st_bind_ok _ _ _ _ _ Hrun); [|done].
    destruct Hk as (d' & Hd' & Hrun'). exists d'. split; [by eapply advanced_trans|done].
  - destruct Hm as (d' & Hrun). eexists. by rewrite (st_bind_err _ _ _ _ _ Hrun).
Qed.

(** ** Reading from the stream *)

Lemma steps_cur {A} val f (m : st cursor A) s : refines_cur m s -> steps val f (on_cur m) (fun _ => on_acur s).
Proof.
  intros Hm d Hd Hg. specialize (Hm (cur_of d) (eo_cur _ _ Hd)).
  assert (E : forall r cu, m (cur_of d) = (r, cu) -> on_cur m (put val f d) = (r, put val f (set_cur cu d))).
  { intros r cu Hr. unfold on_cur, st_zoom. fold (cur_of (put val f d)). rewrite cur_of_put, Hr.
    f_equal. symmetry. apply put_set_cur. }
  unfold on_acur, st_zoom. cbn [abs ss_cur ss_ev]. destruct (s (abs_cur (cur_of d))) as [[a|rc|] ac]; [..|done].
  - destruct Hm as (cu & Hrun & Hc & <-). exists (set_cur cu d). split; [|by apply E]. by apply advanced_set_cur.
  - destruct Hm as (cu & Hrun). eexists. by apply E.
Qed.

(** ** Allocation *)

Lemma arena_alloc_some malloc a sz al :
  (forall n s, malloc n s = true) -> exists p a', arena_alloc_align malloc a sz al = (Some p, a').
Proof.
  intros Hm. unfold arena_alloc_align. destruct (match a_regs a with [] => None | _ :: _ => _ end) as [[p a']|]; [by eauto|].
  destruct (arena_pop_free_reg (a_free a) sz) as [[fits free']|]; [by eauto|].
  unfold region_init. rewrite Hm. by eauto.
Qed.

Lemma arena_alloc_fits malloc a sz :
  (forall n s, malloc n s = true) -> arena_wf a -> 0 <= sz <= 2 ^ 62 ->
  exists p a', arena_alloc_align malloc a sz 8 = (Some p, a') /\ arena_wf a' /\ chunk_fits a' p = true.
Proof.
  intros Hm Ha Hsz. destruct (arena_alloc_some malloc a sz 8 Hm) as (p & a' & E). exists p, a'. split; [done|].
  pose proof (arena_alloc_align_spec malloc a sz 3 Ha Hsz ltac:(lia)) as H. change (2 ^ 3) with 8 in H. rewrite E in H.
  destruct H as [Hwf (r & rest & Hr & _ & [H1 H2] & _)]. split; [done|]. unfold chunk_fits, chunk_inb. rewrite Hr.
  apply andb_true_iff. split; by apply Z.leb_le.
Qed.

Lemma set_arenas_put p e val f d : set_arenas p e (put val f d) = put val f (set_arenas p e d).
Proof. by rewrite put_set_arenas. Qed.

Lemma alloc_flds_run val f n d :
  0 <= n <= MAX_FLDS -> env_ok c d ->
  exists p e, alloc_flds pkt_malloc ev_malloc n (put val f d) = (Ok (repeat nil_fld (Z.to_nat n)), put val f (set_arenas p e d)) /\
    arena_wf p /\ arena_wf e.
Proof.
  intros Hn [_ Hp He Hc]. unfold MAX_FLDS in Hn. assert (Hsz : 0 <= n * SIZEOF_FLD <= 2 ^ 62) by (unfold SIZEOF_FLD; lia).
  unfold alloc_flds. rewrite u64_small by (unfold is_u64; lia).
  destruct (put_arenas val f d) as (Ec & -> & ->). rewrite Ec, Hc.
  destruct (arena_alloc_fits pkt_malloc (pkt_arena (dec_s d)) (n * SIZEOF_FLD) Hpm Hp Hsz) as (p1 & a1 & E1 & W1 & F1).
  destruct (arena_alloc_fits ev_malloc (ev_arena (dec_s d)) (n * SIZEOF_FLD) Hem He Hsz) as (p2 & a2 & E2 & W2 & F2).
  rewrite E1, E2. cbn [fmap option_fmap option_map]. rewrite F1, F2, Z.div_mul by (unfold SIZEOF_FLD; lia).
  destruct c; [exists a1, (ev_arena (dec_s d))|exists a1, (ev_arena (dec_s d))|exists (pkt_arena (dec_s d)), a2..];
    (split; [|done]); rewrite put_set_arenas; unfold set_arenas; by rewrite Ec, Hc.
Qed.

Lemma steps_alloc val f n :
  0 <= n <= MAX_FLDS -> steps val f (alloc_flds pkt_malloc ev_malloc n) (fun _ => mret (repeat nil_fld (Z.to_nat n))).
Proof.
  intros Hn d Hd Hg. destruct (alloc_flds_run val f n d Hn Hd) as (p & e & Hrun & Hp & He).
  exists (set_arenas p e d). split; [|done]. destruct Hd.
  pose proof (advanced_cur d (cur_of d) p e eo_cur0 Hp He eo_ctx0) as H.
  assert (E : set_arenas p e (set_cur (cur_of d) d) = set_arenas p e d) by (by destruct d as [? ? ? ? ? ? ? [? ? [] ? ?]]).
  by rewrite E in H.
Qed.

(** ** Locations *)

(** A field that is located from [val], and what is done with it. *)
Lemma steps_locate {A} val f loc (k : actf_fld -> st actf_decoder A) (t : actf_fld -> view -> st sst A) :
  (forall g, in_range g -> steps val f (k g) (t g)) ->
  steps val f (r ← locate loc_fuel loc val; match r with None => st_fail ACTF_MISSING_FLD_LOC | Some b => read_fld b ≫= k end)
    (fun V => s_locate loc_fuel (v_put val f V) loc (f_parent f) ≫= fun g => t g V).
Proof.
  intros Hk d Hd [g Hg]. set (D := put val f d).
  assert (El : locate loc_fuel loc val D = (fld_loc_locate loc_fuel (v_fetch (v_put val f (view_of d))) loc (mk_fld None (f_parent f) ACTF_FLD_TYPE_NIL), D)).
  { unfold locate. subst D. rewrite (fetch_put val f d g Hg). f_equal. apply fld_loc_locate_ext; [|done].
    intros b. by rewrite <- view_put, v_fetch_view. }
  unfold s_locate. unfold mbind at 1, st_bind at 1. destruct (fld_loc_locate _ _ _ _) as [[b|]|rc|]; try done.
  - rewrite (st_bind_ok _ _ _ _ _ El). rewrite <- view_put, v_fetch_view. fold D. destruct (fetch D b) as [h|] eqn:Eh; [|done].
    destruct (decide (in_range h)) as [Hr|]; [|done]. rewrite (st_bind_ok (read_fld b) k D h D) by (unfold read_fld; by rewrite Eh).
    exact (Hk h Hr d Hd (ex_intro _ g Hg)).
  - rewrite (st_bind_ok _ _ _ _ _ El). eexists. reflexivity.
Qed.

Lemma steps_ext {A} val f (m : st actf_decoder A) s s' : (forall V x, s V x = s' V x) -> steps val f m s -> steps val f m s'.
Proof. intros E Hm d Hd Hg. specialize (Hm d Hd Hg). by rewrite E in Hm. Qed.

Lemma steps_read_len val f loc :
  steps val f (read_len loc_fuel loc val) (fun V => s_length loc_fuel (v_put val f V) loc (f_parent f)).
Proof.
  unfold read_len, s_length. apply (steps_locate val f loc _ (fun g _ => match f_d g with ACTF_FLD_TYPE_UINT v _ => mret v | _ => st_fail ACTF_WRONG_FLD_TYPE end)).
  intros g _. destruct (f_d g); (apply steps_fail || apply steps_ret).
Qed.

Lemma bind_returns {S A B} (s : st S A) (t : A -> st S B) b :
  returns (s ≫= t) b -> exists a, returns s a /\ returns (t a) b.
Proof.
  intros (x & x' & E). unfold mbind, st_bind in E. destruct (s x) as [[a|rc|] x1] eqn:Es; [|done..].
  exists a. split; by eexists _, _.
Qed.

Lemma s_length_range V loc parent n : returns (s_length loc_fuel V loc parent) n -> is_u64 n.
Proof.
  intros (g & (x & x1 & Hg) & (x2 & x3 & Hn))%bind_returns. unfold s_locate in Hg.
  destruct (fld_loc_locate _ _ _ _) as [[b|]|rc|]; try done. destruct (v_fetch V b) as [h|]; [|done].
  destruct (decide (in_range h)) as [Hr|]; [|done]. injection Hg as <- _. unfold in_range in Hr.
  destruct (f_d h); try done. by injection Hn as <-.
Qed.

(** ** Roles *)

(** [b] is the place of [x] when [*val] is [f]. *)
Definition placed (val : addr) (f : actf_fld) (b : addr) (x : actf_fld) : Prop :=
  forall d, is_Some (fetch d val) -> fetch (put val f d) b = Some x.

Lemma placed_self val f : placed val f val f.
Proof. intros d [g Hg]. by apply (fetch_put val f d g). Qed.
Lemma placed_elem val f i x : children f !! i = Some x -> placed val f (elem val i) x.
Proof. intros Hx d [g Hg]. by rewrite (fetch_elem val i f d g Hg). Qed.

Lemma d_pkt_s_put val f d : d_pkt_s (put val f d) = d_pkt_s d.
Proof. exact (f_equal c_pkt (cur_of_put val f d)). Qed.
Lemma d_pkt_s_set p d : d_pkt_s (set_pkt_s p d) = p.
Proof. done. Qed.
Lemma put_set_pkt val f p d : set_pkt_s p (put val f d) = put val f (set_cur (mk_cursor (br d) p) d).
Proof. unfold put. by destruct d as [? ? ? ? ? ? ? [? ? [] [[]|] ?]], (a_root val) as [[]|[]]. Qed.

(** The lengths of the packet fit. *)
Definition lens_u64 (p : pkt_state) : Prop := is_u64 (content_len p) /\ is_u64 (tot_len p).

Lemma steps_pkt val f h :
  (forall p, bit_off (h p) = bit_off p) -> (forall p, lens_u64 p -> lens_u64 (h p)) ->
  steps val f (upd_pkt_s h) (fun _ => s_upd_pkt h).
Proof.
  intros Hoff Hlen d Hd Hg. exists (set_cur (mk_cursor (br d) (h (d_pkt_s d))) d). split.
  - apply (advanced_set_cur d (mk_cursor (br d) (h (d_pkt_s d))) Hd). destruct Hd as [[? ? Hc Ht] _ _ _].
    destruct (Hlen (d_pkt_s d) (conj Hc Ht)). split; cbn in *; [done|by rewrite Hoff|done..].
  - rewrite <- put_set_pkt. unfold upd_pkt_s, st_modify. by rewrite d_pkt_s_put.
Qed.

Lemma steps_uint64 {A} val f x (k : st actf_decoder A) (t : Z -> view -> st sst A) :
  (is_u64 (actf_fld_uint64 x) -> steps val f k (t (actf_fld_uint64 x))) -> steps val f k (fun V => s_uint64 x ≫= fun v => t v V).
Proof.
  intros Hk. unfold s_uint64. destruct ((0 <=? _) && _) eqn:Er; [|intros d Hd Hg; done].
  apply andb_prop in Er as [E1%Z.leb_le E2%Z.ltb_lt]. by apply Hk.
Qed.

(** A member of the packet state that is not its place, set to the value of [x]. *)
Lemma steps_upd_pkt val f h cls x :
  (forall u p, bit_off (h u p) = bit_off p) -> (forall u p, is_u64 u -> lens_u64 p -> lens_u64 (h u p)) ->
  steps val f (upd_pkt_s (h (actf_fld_uint64 x))) (fun _ => s_set h cls x).
Proof. intros Hoff Hlen. apply steps_uint64. intros Hu. apply steps_pkt; [done|]. intros p. by apply Hlen. Qed.

(** Roles of the event. *)
Lemma steps_upd_ev val f h : steps val f (upd_ev_s h) (fun _ => s_upd_ev h).
Proof.
  intros d Hd Hg. unfold s_upd_ev, upd_ev_s. cbn [abs ss_ev ss_cur]. destruct (ev (dec_s d)) as [e|] eqn:Ee; [|done]. cbn [fmap option_fmap option_map].
  exists (set_ev_s (h (ev_s e)) d). split.
  - destruct Hd. pose proof (advanced_intro d (cur_of d) (pkt_arena (dec_s d)) (ev_arena (dec_s d)) (h (ev_s e)) eo_cur0 eo_pkt0 eo_ev0 eo_ctx0) as H.
    rewrite Ee in H. cbn [fmap option_fmap option_map] in H.
    assert (E : set_arenas (pkt_arena (dec_s d)) (ev_arena (dec_s d)) (set_ev_s (h (ev_s e)) (set_cur (cur_of d) d)) = set_ev_s (h (ev_s e)) d)
      by (by destruct d as [? ? ? ? ? ? ? [? ? [] ? ?]]).
    by rewrite E in H.
  - rewrite put_set_ev_s. pose proof (f_equal ss_ev (abs_put val f d)) as Ha. cbn in Ha. rewrite Ee in Ha. cbn in Ha.
    destruct (ev (dec_s (put val f d))) as [e'|]; [|done]. injection Ha as ->. done.
Qed.

Lemma steps_clock val f cls x :
  steps val f (upd_def_clk cls x;; d ← st_get; mret (pkt_def_clk_val (d_pkt_s d))) (fun _ => s_clock cls x).
Proof.
  intros d Hd Hg. unfold s_clock, upd_def_clk, mbind, st_bind, st_get. cbn [abs ss_cur ac_pkt abs_cur cur_of c_pkt]. rewrite d_pkt_s_put.
  destruct (calc_new_def_clk_val _ _ _) as [v|]; [|done]. cbn.
  exists (set_cur (mk_cursor (br d) (set_def_clk v (d_pkt_s d))) d). split.
  - apply (advanced_set_cur d (mk_cursor (br d) (set_def_clk v (d_pkt_s d))) Hd). destruct Hd as [[] _ _ _]. by split.
  - by rewrite <- put_set_pkt.
Qed.

Lemma steps_uuid val f cls x :
  steps val f (match f_d x with
               | ACTF_FLD_TYPE_BLOB ptr _ =>
                   differs ← uuid_differs md ptr; if (differs : bool) then st_fail ACTF_UUID_MISMATCH else mret tt
               | _ => st_undef
               end) (fun _ => s_uuid md cls x).
Proof.
  intros d Hd Hg. unfold s_uuid, mbind, st_bind, st_get. destruct (f_d x) as [| | | | | | |p n| |]; try done.
  cbn [abs ss_cur ac_mem abs_cur cur_of c_mem c_br]. unfold uuid_differs.
  assert (Hb : br (put val f d) = br d) by exact (f_equal c_br (cur_of_put val f d)). rewrite Hb. unfold c_mem.
  change (c_br (cur_of d)) with (br d). destruct (Z.ltb_spec p 0); [done|]. cbn [orb].
  destruct (Z.ltb_spec (Z.of_nat (length (br_mem (br d)))) (p + ACTF_UUID_N_BYTES)); [done|].
  destruct (Z.leb_spec 0 p); [|lia]. destruct (Z.leb_spec (p + ACTF_UUID_N_BYTES) (Z.of_nat (length (br_mem (br d))))); [|lia]. cbn [andb].
  destruct (bool_decide _); cbn [negb].
  - exists d. split; [by apply advanced_refl|done].
  - eexists. reflexivity.
Qed.

Lemma steps_when {A} val f roles role m (s : view -> st sst unit) (k : unit -> st actf_decoder A) t cls x eff :
  roles = actf_fld_cls_roles cls -> (forall V, s V = eff cls x) -> steps val f m s -> steps val f (k tt) t ->
  steps val f (when_role roles role m ≫= k) (fun V => s_role cls x (role, eff) ≫= fun _ => t V).
Proof.
  intros -> Hs Hm Hk. apply steps_bind; [|by intros []]. unfold when_role, s_role, has_role. cbn [fst snd].
  destruct (c_true _); [|apply steps_ret]. eapply steps_ext; [|exact Hm]. intros V y. by rewrite Hs.
Qed.

Lemma steps_last val f (m : st actf_decoder unit) s : steps val f (m ≫= fun _ => mret tt) s -> steps val f m s.
Proof.
  intros H d Hd Hg. specialize (H d Hd Hg). unfold mbind, st_bind, mret, st_ret in H.
  destruct (s (view_of d) (abs d)) as [[[]|rc|] x]; [| |done].
  - destruct H as (d' & Hadv & Hrun). exists d'. split; [done|]. by destruct (m (put val f d)) as [[[]|rc|] D].
  - destruct H as (d' & Hrun). destruct (m (put val f d)) as [[[]|rc'|] D]; try done. exists D. congruence.
Qed.

(** [if (roles & ...)], as the table of roles has it. *)
Ltac role_step :=
  match goal with
  | |- steps ?v ?f (when_role _ ?r ?m) _ => apply steps_last
  | _ => idtac
  end;
  eapply steps_when; [done|intros ?; reflexivity| |].

Lemma steps_run {A} val f (m m' : st actf_decoder A) s :
  (forall d, env_ok c d -> is_Some (fetch d val) -> m (put val f d) = m' (put val f d)) -> steps val f m' s -> steps val f m s.
Proof. intros E H d Hd Hg. rewrite (E d Hd Hg). by apply H. Qed.

Lemma steps_roles val f b x cls :
  placed val f b x -> steps val f (handle_roles_of md cls b) (fun _ => s_roles md c cls x).
Proof.
  intros Hx. unfold handle_roles_of, s_roles. destruct (c_true (actf_fld_cls_roles cls)) eqn:Er.
  2: { assert (E : forall t y, s_each_role cls x t y = (Ok tt, y)).
       { assert (E0 : actf_fld_cls_roles cls = 0) by (unfold c_true in Er; by apply negb_false_iff, Z.eqb_eq in Er).
         induction t as [|[r eff] t IH]; intros y; [done|]. cbn [s_each_role]. unfold s_role, has_role. rewrite E0. apply IH. }
       eapply steps_ext; [intros V y; symmetry; apply E|apply steps_ret]. }
  clear Er. remember (actf_fld_cls_roles cls) as roles eqn:Hroles. unfold handle_fld_roles.
  eapply steps_run.
  { intros d Hd Hg. rewrite (st_bind_ok (read_fld b) _ _ x (put val f d)) by (unfold read_fld; by rewrite (Hx d Hg)).
    rewrite (st_bind_ok st_get _ _ _ _ eq_refl), (proj1 (put_arenas val f d)), (eo_ctx _ _ Hd). reflexivity. }
  pose proof steps_upd_pkt as Hupd.
  destruct c; cbn [role_table s_each_role]; [| | |apply steps_ret..].
  - role_step; [by apply (Hupd val f set_dsc_id)|].
    role_step; [by apply (Hupd val f (fun v p => set_flag PKT_DSTREAM_ID (set_ds_id v p)))|].
    role_step; [unfold s_magic; destruct (_ =? _); [apply steps_ret|apply steps_fail]|].
    role_step; [apply steps_uuid|]. apply steps_ret.
  - role_step; [eapply steps_run; [|apply (steps_bind val f _ _ (fun v => upd_pkt_s (set_begin_clk v)) (fun v _ => s_upd_pkt (set_begin_clk v)) (steps_clock val f cls x)); intros v; by apply steps_pkt];
      intros d _ _; unfold upd_def_clk, mbind, st_bind; by destruct (calc_new_def_clk_val _ _ _)|].
    role_step; [by apply (Hupd val f (fun v p => set_flag PKT_DISC_ER_SNAP (set_disc_er_snap v p)))|].
    role_step; [apply (Hupd val f set_content_len); [done|by intros u p ? []]|].
    role_step; [by apply (Hupd val f (fun v p => set_flag PKT_END_DEF_CLK_VAL (set_end_clk v p)))|].
    role_step; [by apply (Hupd val f (fun v p => set_flag PKT_SEQ_NUM (set_seq_num v p)))|].
    role_step; [apply (Hupd val f set_tot_len); [done|by intros u p ? []]|]. apply steps_ret.
  - role_step; [apply (steps_uint64 val f x _ (fun v _ => s_upd_ev (set_ev_id v))); intros _; apply steps_upd_ev|].
    role_step; [|apply steps_ret]. eapply steps_run; [|apply (steps_bind val f _ _ (fun v => upd_ev_s (set_ev_clk v)) (fun v _ => s_upd_ev (set_ev_clk v)) (steps_clock val f cls x)); intros v; apply steps_upd_ev].
    intros d _ _. unfold upd_def_clk, mbind, st_bind. by destruct (calc_new_def_clk_val _ _ _).
Qed.

(** ** Elements *)

Lemma builds_elem val i f x par dec k s t :
  children f !! i = Some x ->
  builds (elem val i) (mk_fld (f_cls x) par (f_d x)) (dec (elem val i)) s ->
  (forall y, builds val (upd_sub [i] (fun _ => y) f) k (t y)) ->
  builds val f (decode_elem dec val i par;; k) (fun V => s (v_put val f V) ≫= fun y => t y V).
Proof.
  intros Hx Hdec Hk d Hd [g Hg]. pose proof (fetch_elem val i f d g Hg) as Hfe. rewrite Hx in Hfe.
  specialize (Hdec (put val f d) (proj2 (put_env val f d) Hd) (ex_intro _ x Hfe)). rewrite abs_put, view_put in Hdec.
  assert (E : decode_elem dec val i par (put val f d) = dec (elem val i) (put (elem val i) (mk_fld (f_cls x) par (f_d x)) (put val f d))).
  { unfold decode_elem, set_fld_parent. rewrite (st_bind_ok _ _ _ _ _ (modify_elem val i _ f d g x Hg Hx)), put_elem. done. }
  unfold mbind at 1, st_bind at 1. destruct (s (v_put val f (view_of d)) (abs d)) as [[y|rc|] z]; [..|done].
  - destruct Hdec as (D & Hadv & Hrun). rewrite <- E in Hrun.
    destruct Hadv as (Hok & Habs & cu & p & e & es & ED). rewrite <- put_set_cur, <- put_set_ev_s, <- put_set_arenas in ED.
    set (d1 := set_arenas p e (set_ev_s es (set_cur cu d))) in *. rewrite ED in *.
    assert (Hadv : advanced d d1 z).
    { split; [by apply put_env in Hok|]. rewrite abs_put in Habs. split; [done|]. by exists cu, p, e, es. }
    specialize (Hk y d1 (proj1 Hadv)). rewrite (advanced_fetch _ _ _ val Hadv), (advanced_view _ _ _ Hadv), (proj1 (proj2 Hadv)) in Hk.
    specialize (Hk (ex_intro _ g Hg)). rewrite put_elem in Hrun.
    destruct (t y (view_of d) z) as [[f'|rc|] z']; [..|done]; rewrite (st_bind_ok _ _ _ _ _ Hrun); [|done].
    destruct Hk as (d' & Hd' & Hrun'). exists d'. split; [by eapply advanced_trans|done].
  - destruct Hdec as (d' & Hrun). rewrite <- E in Hrun. eexists. by apply (st_bind_err _ _ _ _ _ Hrun).
Qed.

(** A field that is decoded where another one was. *)
Lemma builds_seq val f m k s t :
  builds val f m s -> (forall y, builds val y k (t y)) -> builds val f (m;; k) (fun V => s V ≫= fun y => t y V).
Proof.
  intros Hm Hk d Hd Hg. specialize (Hm d Hd Hg). unfold mbind at 1, st_bind at 1.
  destruct (s (view_of d) (abs d)) as [[y|rc|] x]; [..|done].
  - destruct Hm as (d1 & Hadv & Hrun). destruct (advanced_ok _ _ _ Hadv) as [Hok Habs].
    specialize (Hk y d1 Hok). rewrite (advanced_fetch _ _ _ val Hadv), (advanced_view _ _ _ Hadv), Habs in Hk. specialize (Hk Hg).
    destruct (t y (view_of d) x) as [[f'|rc|] x']; [..|done]; rewrite (st_bind_ok _ _ _ _ _ Hrun); [|done].
    destruct Hk as (d' & Hd' & Hrun'). exists d'. split; [by eapply advanced_trans|done].
  - destruct Hm as (d' & Hrun). eexists. by rewrite (st_bind_err _ _ _ _ _ Hrun).
Qed.

(** [builds] is a step whose result is the field. *)
Lemma builds_last val f (m : st actf_decoder unit) s : steps val f m s -> builds val f m (fun V => s V;; mret f).
Proof.
  intros Hm d Hd Hg. specialize (Hm d Hd Hg). unfold mbind, st_bind. destruct (s (view_of d) (abs d)) as [[[]|rc|] x]; done.
Qed.

Lemma bind_assoc {S A B C} (m : st S A) (k : A -> st S B) (l : B -> st S C) s :
  ((m ≫= k) ≫= l) s = (m ≫= fun a => k a ≫= l) s.
Proof. unfold mbind, st_bind. by destruct (m s) as [[]]. Qed.

Lemma bind_ext {S A B} (m : st S A) (k l : A -> st S B) s : (forall a s', k a s' = l a s') -> (m ≫= k) s = (m ≫= l) s.
Proof. intros E. unfold mbind, st_bind. by destruct (m s) as [[]]. Qed.

Lemma repeat_insert (l : list actf_fld) n x y : <[length l := x]> (l ++ y :: repeat nil_fld n) = (l ++ [x]) ++ repeat nil_fld n.
Proof. rewrite insert_app_r_alt by done. by rewrite Nat.sub_diag, <- app_assoc. Qed.

Lemma repeat_lookup (l : list actf_fld) n y : (l ++ y :: repeat nil_fld n) !! length l = Some y.
Proof. rewrite lookup_app_r by done. by rewrite Nat.sub_diag. Qed.

Notation decode := (fld_cls_decode md pkt_malloc ev_malloc loc_fuel).
Notation spec := (spec_fld md loc_fuel c).
Definition decodes (cls : actf_fld_cls) : Prop :=
  forall val f, f_d f = ACTF_FLD_TYPE_NIL -> builds val f (decode cls val) (fun V => spec cls V val (f_parent f)).

(** The fields of a structure whose first members are [done_vals]. *)
Lemma builds_members val cls par ms seen :
  Forall (fun m => decodes (snd m)) ms -> forall done_vals,
  (forall vals V, seen V vals = v_put val (mk_fld cls par (ACTF_FLD_TYPE_STRUCT vals)) V) ->
  builds val (mk_fld cls par (ACTF_FLD_TYPE_STRUCT (done_vals ++ repeat nil_fld (length ms))))
    (members_loop md decode val ms (length done_vals))
    (fun V => vals ← s_members md c spec (seen V) val ms done_vals; mret (mk_fld cls par (ACTF_FLD_TYPE_STRUCT vals))).
Proof.
  intros Hms. induction Hms as [|[nm mc] ms Hc _ IH]; intros l Hseen.
  - cbn. rewrite app_nil_r. apply builds_ret.
  - cbn [members_loop s_members length repeat].
    eapply builds_ext; [intros V x; symmetry; apply bind_assoc|].
    eapply builds_ext; [intros V x; rewrite Hseen; reflexivity|].
    eapply (builds_elem val (length l) _ nil_fld (Some val) _ _ (fun V => spec mc V (elem val (length l)) (Some val)));
      [apply repeat_lookup|by apply (Hc (elem val (length l)))|]. intros y. cbn [upd_sub children f_d].
    rewrite repeat_lookup. unfold set_children. cbn [f_d f_cls f_parent]. rewrite repeat_insert.
    eapply builds_ext; [intros V x; symmetry; apply bind_assoc|].
    apply (builds_step val _ _ (fun _ => s_roles md c mc y)).
    { apply steps_roles, placed_elem. cbn. rewrite <- app_assoc. cbn. apply repeat_lookup. }
    intros _ [] _. specialize (IH (l ++ [y]) Hseen). rewrite length_app, Nat.add_1_r in IH. exact IH.
Qed.

Lemma builds_elems val cls par ele n seen N :
  decodes ele -> forall done_vals, N = Z.of_nat (length done_vals + n) ->
  (forall vals k V, seen V vals k = v_put val (mk_fld cls par (ACTF_FLD_TYPE_ARR vals k)) V) ->
  builds val (mk_fld cls par (ACTF_FLD_TYPE_ARR (done_vals ++ repeat nil_fld n) (Z.of_nat (length done_vals))))
    (arr_loop (decode ele) val n (length done_vals))
    (fun V => vals ← s_elems (fun V a => spec ele V a par) (seen V) val n done_vals; mret (mk_fld cls par (ACTF_FLD_TYPE_ARR vals N))).
Proof.
  intros He. induction n as [|n IH]; intros l HN Hseen.
  - cbn. rewrite Nat.add_0_r in HN. rewrite HN, app_nil_r. apply builds_ret.
  - cbn [arr_loop s_elems]. change (repeat nil_fld (S n)) with (nil_fld :: repeat nil_fld n). apply builds_read. cbn [f_parent].
    eapply builds_ext; [intros V x; symmetry; apply bind_assoc|].
    eapply builds_ext; [intros V x; rewrite Hseen; reflexivity|].
    eapply (builds_elem val (length l) _ nil_fld par _ _ (fun V => spec ele V (elem val (length l)) par));
      [apply repeat_lookup|by apply (He (elem val (length l)))|]. intros y. cbn [upd_sub children f_d].
    rewrite repeat_lookup. unfold set_children. cbn [f_d f_cls f_parent]. rewrite repeat_insert.
    apply builds_modify. cbn [f_d f_cls f_parent].
    specialize (IH (l ++ [y])). rewrite length_app, Nat.add_1_r in IH.
    replace (Z.of_nat (length l) + 1) with (Z.of_nat (S (length l))) by lia. apply IH; [lia|done].
Qed.

(** ** Fields without members *)

Lemma s_fxd_range a v : 1 <= len a -> returns (s_fxd a) v -> 0 <= v < 2 ^ len a.
Proof.
  intros Hl H. unfold s_fxd in H. do 3 apply bind_returns in H as (? & _ & H).
  destruct H as (ac & ac' & H). repeat (case_match; [done|]). apply (f_equal fst) in H. cbn in H. injection H as <-.
  pose proof (fxd_value_range (bo a) (bito a) (ac_mem x1) (ac_pos x1) (Z.to_nat (len a))) as Hr.
  by rewrite Z2Nat.id in Hr by lia.
Qed.

Lemma s_var_len_range v n : returns s_var_len (v, n) -> 1 <= n <= 64 /\ 0 <= v < 2 ^ n.
Proof.
  intros H. unfold s_var_len in H. do 3 apply bind_returns in H as (? & _ & H).
  destruct H as (ac & ac' & H). destruct (_ && _); [done|]. destruct (_ && _); [|done].
  apply (f_equal fst) in H. cbn in H. injection H as <- <-.
  set (bs := drop _ _). set (k := leb_more bs). pose proof (leb_val_range (take (S k) bs)) as Hr.
  pose proof (u64_range (leb_val (take (S k) bs))) as Hu. unfold is_u64 in Hu.
  pose proof (length_take_le bs (S k)) as _. assert (Hlen : (length (take (S k) bs) <= S k)%nat) by (rewrite length_take; lia).
  split; [lia|]. split; [lia|].
  destruct (Z.min_spec (7 * Z.of_nat (S k)) 64) as [[? ->]|[? ->]]; [|lia].
  eapply Z.le_lt_trans; [apply Z.mod_le; lia|]. eapply Z.lt_le_trans; [apply Hr|]. apply Z.pow_le_mono_r; lia.
Qed.

Lemma on_acur_returns {A} (s : st acur A) a : returns (on_acur s) a -> returns s a.
Proof. intros (x & x' & H). unfold on_acur, st_zoom in H. destruct (s (ss_cur x)) as [r ac] eqn:E. injection H as -> _. by eexists _, _. Qed.

Lemma builds_store val f cls p x :
  f_cls f = Some cls -> f_parent f = p -> builds val f (set_fld_d val x) (fun _ => mret (mk_fld (Some cls) p x)).
Proof.
  intros Hc Hp. destruct f as [c0 q y]. cbn in *. subst.
  apply (builds_set val (mk_fld (Some cls) p y) (fun f => mk_fld (f_cls f) (f_parent f) x)).
Qed.

(** A value [a] is read from the stream, and [x a] stored. *)
Lemma builds_value {A} cls val p y (m : st cursor A) (s : st acur A) (c0 : A -> st actf_decoder unit) (k : A -> fld_d)
    (t : A -> view -> st sst actf_fld) :
  refines_cur m s -> (forall a, c0 a = set_fld_d val (k a)) -> (forall a V, returns s a -> t a V = mret (mk_fld (Some cls) p (k a))) ->
  builds val (mk_fld (Some cls) p y) (on_cur m ≫= c0) (fun V => on_acur s ≫= fun a => t a V).
Proof.
  intros Hm Hc Hk. apply (builds_step val _ _ (fun _ => on_acur s)); [by apply steps_cur|]. intros _ a Ha%on_acur_returns.
  apply (builds_ext _ _ _ (fun _ => mret (M := st sst) (mk_fld (Some cls) p (k a)))); [intros V x; by rewrite (Hk a V Ha)|].
  rewrite Hc. by apply builds_store.
Qed.

(** The same for the classes that [s_leaf] specifies. *)
Lemma builds_leaf {A} cls val p y (m : st cursor A) (s : st acur A) (c0 : A -> st actf_decoder unit) (k : A -> fld_d)
    (t : A -> st acur fld_d) :
  refines_cur m s -> (forall a, c0 a = set_fld_d val (k a)) -> (forall a, returns s a -> t a = mret (k a)) ->
  builds val (mk_fld (Some cls) p y) (on_cur m ≫= c0) (fun _ => d ← on_acur (s ≫= t); mret (mk_fld (Some cls) p d)).
Proof.
  intros Hm Hc Hk. eapply builds_ext; [|apply (builds_value cls val p y m s c0 k (fun a _ => mret (M := st sst) (mk_fld (Some cls) p (k a))) Hm Hc); done].
  intros V x. unfold on_acur, mbind, st_bind, st_zoom. destruct (s (ss_cur x)) as [[a|rc|] ac] eqn:E; [|done..].
  rewrite (Hk a) by (by eexists _, _). done.
Qed.

Lemma builds_fxd cls a val p y (k : Z -> fld_d) (g : Z -> fld_d) :
  bit_arr_wf a -> (forall v, 0 <= v < 2 ^ len a -> k v = g v) ->
  builds val (mk_fld (Some cls) p y) (v ← on_cur (fxd_len_bit_arr_decode a); set_fld_d val (k v))
    (fun _ => d ← on_acur (v ← s_fxd a; mret (g v)); mret (mk_fld (Some cls) p d)).
Proof.
  intros Ha Hkg. apply (builds_leaf _ _ _ _ _ _ _ k); [by apply fxd_refines|done|]. intros v Hv.
  apply s_fxd_range in Hv; [|by destruct Ha; lia]. by rewrite (Hkg v Hv).
Qed.

Lemma builds_float cls a val p y :
  bit_arr_wf a ->
  builds val (mk_fld (Some cls) p y) (fld_cls_fxd_len_float_decode a val)
    (fun _ => d ← on_acur (v ← s_fxd a;
       if (len a =? 32) || (len a =? 64) then mret (ACTF_FLD_TYPE_REAL v) else st_fail ACTF_UNSUPPORTED_LENGTH);
       mret (mk_fld (Some cls) p d)).
Proof.
  intros Ha. eapply builds_ext; [|apply (builds_step val _ _ (fun _ => on_acur (s_fxd a))); [by apply steps_cur, fxd_refines|]].
  - intros V x. unfold on_acur, mbind, st_bind, st_zoom. destruct (s_fxd a (ss_cur x)) as [[v|rc|] ac]; [|done..].
    by instantiate (1 := fun v _ => d ← on_acur (if (len a =? 32) || (len a =? 64) then mret (ACTF_FLD_TYPE_REAL v) else st_fail ACTF_UNSUPPORTED_LENGTH);
       mret (mk_fld (Some cls) p d)).
  - cbn. intros _ v Hv%on_acur_returns. apply builds_modify. cbn [f_cls f_parent].
    apply s_fxd_range in Hv; [|by destruct Ha; lia]. destruct (Z.eqb_spec (len a) 32) as [E|_]; cbn [orb].
    + assert (Hu : u32 v = v) by (unfold u32; apply Z.mod_small; by rewrite <- E). rewrite Hu.
      eapply builds_ext; [|by apply (builds_store val (mk_fld (Some cls) p (ACTF_FLD_TYPE_REAL 0)) cls p)]. by intros V [].
    + destruct (len a =? 64); [|apply (builds_fail val _ ACTF_UNSUPPORTED_LENGTH)].
      eapply builds_ext; [|by apply (builds_store val (mk_fld (Some cls) p (ACTF_FLD_TYPE_REAL 0)) cls p)]. by intros V [].
Qed.

Lemma decodes_leaf cls :
  fc_wf cls -> (forall V val p, spec cls V val p = (d ← on_acur (s_leaf cls); mret (mk_fld (Some cls) p d))) -> decodes cls.
Proof.
  intros Hwf Hs val f _.
  apply (builds_ext _ _ _ (fun _ => d ← on_acur (s_leaf cls); mret (mk_fld (Some cls) (f_parent f) d))); [intros V x; by rewrite Hs|]. clear Hs. destruct f as [c0 p x]. cbn [f_parent].
  destruct cls as [|a|a fl|ib a r|ib a r|a|a|ib r|ib r|enc|enc n|enc l|n mt r|l mt|ms m al|ele m n|ele m l|c1 l rs|opts l];
    try (apply (builds_ext _ _ _ (fun _ => st_undef)); [by intros V []|apply builds_undef]);
    cbn [fld_cls_decode s_leaf]; apply builds_modify; cbn [f_cls f_parent f_d].
  - by apply (builds_fxd _ a _ _ _ (fun v => ACTF_FLD_TYPE_UINT v 0)).
  - by apply (builds_fxd _ a _ _ _ ACTF_FLD_TYPE_BIT_MAP).
  - by apply (builds_fxd _ a _ _ _ (fun v => ACTF_FLD_TYPE_UINT v 0)).
  - apply (builds_fxd _ a _ _ _ (fun v => ACTF_FLD_TYPE_SINT (i64 (sext v (len a))))); [done|].
    intros v Hv. f_equal. apply sext_spec; [by destruct Hwf|done].
  - by apply (builds_fxd _ a _ _ _ (fun v => ACTF_FLD_TYPE_BOOL (c_true v))).
  - by apply builds_float.
  - apply (builds_leaf _ _ _ _ _ s_var_len _ (fun vn => let '(v, n) := vn in ACTF_FLD_TYPE_UINT v n)); [apply var_len_refines|by intros []..].
  - apply (builds_leaf _ _ _ _ _ s_var_len _ (fun vn => let '(v, n) := vn in ACTF_FLD_TYPE_SINT (i64 (sext v n)))); [apply var_len_refines|by intros []|].
    intros [v k] [Hk Hv]%s_var_len_range. by rewrite (sext_spec v k Hk Hv).
  - apply (builds_leaf _ _ _ _ _ (s_null_term_str enc) _ (fun qn => let '(q, n) := qn in ACTF_FLD_TYPE_STR q n)); [apply read_null_term_str_refines|by intros []..].
  - apply (builds_leaf _ _ _ _ _ (s_str enc n) _ (fun qn => let '(q, n) := qn in ACTF_FLD_TYPE_STR q n)); [by apply read_str_refines|by intros []..].
  - by apply (builds_leaf _ _ _ _ _ (s_blob n) _ (fun q => ACTF_FLD_TYPE_BLOB q n)); [apply read_blob_refines|..].
Qed.

(** ** Compound classes *)

Lemma builds_const {A} val f (m : st actf_decoder A) a (k : A -> st actf_decoder unit) s :
  steps val f m (fun _ => mret a) -> builds val f (k a) s -> builds val f (m ≫= k) s.
Proof.
  intros Hm Hk. refine (builds_step val f _ _ k (fun _ => s) Hm _). intros _ a' (y & y' & [= <- _]). exact Hk.
Qed.

Lemma builds_alloc val f n (k : list actf_fld -> st actf_decoder unit) s :
  0 <= n <= MAX_FLDS -> builds val f (k (repeat nil_fld (Z.to_nat n))) s ->
  builds val f (alloc_flds pkt_malloc ev_malloc n ≫= k) s.
Proof. intros Hn. by apply builds_const, steps_alloc. Qed.

Lemma decodes_struct ms m k :
  0 <= k <= 63 -> Forall (fun x => decodes (snd x)) ms -> decodes (FC_STRUCT ms m (2 ^ k)).
Proof.
  intros Hk Hms val [c0 p x] _. cbn [fld_cls_decode spec_fld f_parent]. apply builds_modify. cbn [f_parent f_cls f_d].
  unfold align_req. apply builds_pure.
  apply (builds_step val _ _ (fun _ => on_acur (s_align (2 ^ k)))); [by apply steps_cur, do_align_refines|]. intros _ [] _.
  destruct (Z.ltb_spec MAX_FLDS (Z.of_nat (length ms))); [apply builds_undef|].
  apply builds_alloc; [lia|]. apply builds_modify. cbn [f_cls f_parent]. rewrite Nat2Z.id.
  apply (builds_members val _ p ms _ Hms []). intros vals V. by rewrite v_put_twice.
Qed.

(** The part that the two classes of arrays share. *)
Lemma builds_array val cls p x ele k n :
  0 <= k <= 63 -> is_u64 n -> decodes ele ->
  builds val (mk_fld (Some cls) p x) (fld_cls_arr_decode pkt_malloc ev_malloc (decode ele) (2 ^ k) n val)
    (fun V => on_acur (s_align (2 ^ k));;
       if MAX_FLDS <? n then st_undef
       else
         vals ← s_elems (fun V a => spec ele V a p)
                  (fun vals n => v_put val (mk_fld (Some cls) p (ACTF_FLD_TYPE_ARR vals n)) (v_put val (mk_fld (Some cls) p ACTF_FLD_TYPE_NIL) V))
                  val (Z.to_nat n) [];
         mret (mk_fld (Some cls) p (ACTF_FLD_TYPE_ARR vals n))).
Proof.
  intros Hk [Hn _] He. unfold fld_cls_arr_decode.
  apply (builds_step val _ _ (fun _ => on_acur (s_align (2 ^ k)))); [by apply steps_cur, do_align_refines|]. intros _ [] _.
  destruct (Z.ltb_spec MAX_FLDS n); [apply builds_undef|].
  apply builds_alloc; [lia|]. apply builds_modify. cbn [f_cls f_parent].
  apply (builds_elems val _ p ele (Z.to_nat n) _ n He []); [cbn; lia|]. intros vals j V. by rewrite v_put_twice.
Qed.

Lemma arr_cls_len_run val f d :
  is_Some (fetch d val) ->
  get_arr_cls_len loc_fuel val (put val f d) =
    (match f_cls f with
     | Some (FC_STATIC_LEN_ARR _ _ n) => mret n
     | Some (FC_DYN_LEN_ARR _ _ loc) => read_len loc_fuel loc val
     | _ => st_fail ACTF_INTERNAL
     end) (put val f d).
Proof. intros [g Hg]. unfold get_arr_cls_len. by rewrite (st_bind_ok _ _ _ _ _ (read_put val f d g Hg)). Qed.

Lemma decodes_static_arr ele m n k :
  0 <= k <= 63 -> actf_fld_cls_get_align_req (FC_STATIC_LEN_ARR ele m n) = Some (2 ^ k) -> is_u64 n -> decodes ele ->
  decodes (FC_STATIC_LEN_ARR ele m n).
Proof.
  intros Hk Hal Hn He val [c0 p x] _. cbn [fld_cls_decode spec_fld f_parent]. apply builds_modify. cbn [f_parent f_cls f_d].
  unfold align_req. rewrite Hal. apply builds_pure.
  apply (builds_const _ _ _ n); [|by apply builds_array].
  eapply steps_run; [intros d _ Hg; by rewrite arr_cls_len_run|]. apply steps_ret.
Qed.

Lemma decodes_dyn_arr ele m loc k :
  0 <= k <= 63 -> actf_fld_cls_get_align_req (FC_DYN_LEN_ARR ele m loc) = Some (2 ^ k) -> decodes ele ->
  decodes (FC_DYN_LEN_ARR ele m loc).
Proof.
  intros Hk Hal He val [c0 p x] Hx. cbn in Hx. subst x. cbn [fld_cls_decode spec_fld f_parent]. apply builds_modify. cbn [f_parent f_cls f_d].
  unfold align_req. rewrite Hal. apply builds_pure.
  set (cls := FC_DYN_LEN_ARR ele m loc) in *. set (f := mk_fld (Some cls) p ACTF_FLD_TYPE_NIL).
  apply (builds_step val f _ (fun V => s_length loc_fuel (v_put val f V) loc p)).
  - eapply steps_run; [intros d _ Hg; by rewrite arr_cls_len_run|]. apply steps_read_len.
  - intros V n Hn%s_length_range. by apply builds_array.
Qed.

Lemma decodes_dyn_str enc loc : decodes (FC_DYN_LEN_STR enc loc).
Proof.
  intros val [c0 p x] Hx. cbn in Hx. subst x. cbn [fld_cls_decode spec_fld f_parent]. apply builds_modify. cbn [f_parent f_cls f_d].
  set (cls := FC_DYN_LEN_STR enc loc) in *. set (f := mk_fld (Some cls) p ACTF_FLD_TYPE_NIL).
  apply (builds_step val f _ (fun V => s_length loc_fuel (v_put val f V) loc p)); [apply steps_read_len|].
  intros V n Hn%s_length_range.
  apply (builds_value cls val p _ (read_str enc 8 n) (s_str enc n) _ (fun qn => let '(q, n) := qn in ACTF_FLD_TYPE_STR q n));
    [by apply read_str_refines|by intros []|by intros []].
Qed.

Lemma decodes_dyn_blob loc mt : decodes (FC_DYN_LEN_BLOB loc mt).
Proof.
  intros val [c0 p x] Hx. cbn in Hx. subst x. cbn [fld_cls_decode spec_fld f_parent]. apply builds_modify. cbn [f_parent f_cls f_d].
  set (cls := FC_DYN_LEN_BLOB loc mt) in *. set (f := mk_fld (Some cls) p ACTF_FLD_TYPE_NIL).
  apply (builds_step val f _ (fun V => s_length loc_fuel (v_put val f V) loc p)); [apply steps_read_len|].
  intros V n Hn%s_length_range.
  apply (builds_value cls val p _ (read_blob 8 n) (s_blob n) _ (fun q => ACTF_FLD_TYPE_BLOB q n)); [by apply read_blob_refines|done|done].
Qed.

(** ** Selected classes *)

Definition s_selected (cls : actf_fld_cls) (V : view) (val : addr) (parent : option addr) : st sst actf_fld :=
  f ← spec cls V val parent; s_roles md c cls f;; mret f.

Lemma builds_selected val f cls :
  f_d f = ACTF_FLD_TYPE_NIL -> decodes cls ->
  builds val f (decode_selected md decode val cls) (fun V => s_selected cls V val (f_parent f)).
Proof.
  intros Hf Hd. unfold decode_selected, s_selected. apply (builds_seq val f _ _ (fun V => spec cls V val (f_parent f))); [by apply Hd|].
  intros y. apply builds_last, steps_roles, placed_self.
Qed.

(** The view that the specification of a part starts from does not depend on the field at the place. *)
Lemma spec_put cls V val x parent : spec cls (v_put val x V) val parent = spec cls V val parent.
Proof. destruct cls; cbn [spec_fld]; by rewrite ?v_put_twice. Qed.

Lemma steps_enabled val f loc rngs :
  rng_set_wf rngs ->
  steps val f (optional_enabled loc_fuel loc rngs val)
    (fun V => s_locate loc_fuel (v_put val f V) loc (f_parent f) ≫= fun sel => s_enabled rngs sel).
Proof.
  intros Hwf. unfold optional_enabled. apply (steps_locate val f loc _ (fun sel _ => s_enabled rngs sel)). intros g Hr.
  destruct (rng_set_points rngs Hwf) as [Hs Hu]. unfold s_enabled, in_range, int_value in *.
  destruct (f_d g) as [|bv|v|v n|v|v|q n|q n|vs n|vs]; [|apply steps_ret|..];
    (destruct (_ =? 0); [apply steps_fail|]); try apply steps_fail.
  - replace (bool_decide (rng_mem rngs v)) with (actf_rng_set_intersect_sint rngs v); [apply steps_ret|].
    apply eq_true_iff_eq. rewrite bool_decide_eq_true. by apply Hs.
  - replace (bool_decide (rng_mem rngs v)) with (actf_rng_set_intersect_uint rngs v); [apply steps_ret|].
    apply eq_true_iff_eq. rewrite bool_decide_eq_true. by apply Hu.
Qed.

Lemma decodes_optional cls loc rngs : rng_set_wf rngs -> decodes cls -> decodes (FC_OPTIONAL cls loc rngs).
Proof.
  intros Hwf Hd val [c0 p x] Hx. cbn in Hx. subst x. cbn [fld_cls_decode spec_fld f_parent]. apply builds_modify. cbn [f_parent f_cls f_d].
  set (oc := FC_OPTIONAL cls loc rngs) in *. set (f := mk_fld (Some oc) p ACTF_FLD_TYPE_NIL).
  eapply builds_ext; [intros V x; apply bind_assoc|].
  apply (builds_step val f _ (fun V => s_locate loc_fuel (v_put val f V) loc p ≫= fun sel => s_enabled rngs sel)); [by apply steps_enabled|].
  intros _ [|] _.
  - eapply builds_ext; [|by apply (builds_selected val f cls)]. intros V x. unfold s_selected. by rewrite spec_put.
  - by apply builds_store.
Qed.

(** The option that the code selects, or else [dflt]. *)
Definition choose_code (test : actf_rng_set -> bool) (val : addr) (opts : list (option string * actf_fld_cls * actf_rng_set))
    (dflt : st actf_decoder unit) : st actf_decoder unit :=
  match last_option test opts 0 None with Some i => decode_option md decode val opts i | None => dflt end.

Lemma last_option_shift test opts i found :
  last_option test opts i found = match last_option test opts 0 None with Some j => Some (i + j)%nat | None => found end.
Proof.
  revert i found. induction opts as [|[[nm oc] rs] opts IH]; intros i found; [done|]. cbn [last_option].
  rewrite (IH (S i)), (IH 1%nat). destruct (last_option test opts 0 None) as [j|]; [f_equal; lia|].
  destruct (test rs); [f_equal; lia|done].
Qed.

Lemma choose_code_cons test val nm oc rs opts dflt :
  choose_code test val ((nm, oc, rs) :: opts) dflt =
  choose_code test val opts (if test rs then decode_selected md decode val oc else dflt).
Proof.
  unfold choose_code. cbn [last_option]. rewrite (last_option_shift test opts 1).
  destruct (last_option test opts 0 None) as [j|]; [done|]. by destruct (test rs).
Qed.

Lemma builds_choose val f test v (sel : actf_fld_cls -> view -> st sst actf_fld) opts :
  Forall (fun o => builds val f (decode_selected md decode val (snd (fst o))) (sel (snd (fst o)))) opts ->
  Forall (fun o => test (snd o) = true <-> rng_mem (snd o) v) opts ->
  forall dflt s, builds val f dflt s ->
  builds val f (choose_code test val opts dflt) (fun V => s_choose (fun cls => sel cls V) v opts (s V)).
Proof.
  intros Hds Ht. induction opts as [|[[nm oc] rs] opts IH]; intros dflt s Hs; [done|].
  apply Forall_cons in Hds as [Hd Hds]. apply Forall_cons in Ht as [Hrs Ht]. cbn [fst snd] in *.
  rewrite choose_code_cons. cbn [s_choose].
  eapply builds_ext; [|apply (IH Hds Ht _ (fun V => if bool_decide (rng_mem rs v) then sel oc V else s V))]; [done|].
  destruct (test rs) eqn:E.
  - by rewrite bool_decide_true by by apply Hrs.
  - rewrite bool_decide_false; [done|]. intros Hm. apply Hrs in Hm. congruence.
Qed.

Lemma builds_run val f (m m' : st actf_decoder unit) s :
  (forall d, m (put val f d) = m' (put val f d)) -> builds val f m' s -> builds val f m s.
Proof. intros E H d Hd Hg. rewrite E. by apply H. Qed.

(** The decoding of the option, as a function of the selector field. *)
Definition option_code (val : addr) (opts : list (option string * actf_fld_cls * actf_rng_set)) (sel : actf_fld) : st actf_decoder unit :=
  match f_d sel with
  | ACTF_FLD_TYPE_SINT v => choose_code (fun r => actf_rng_set_intersect_sint r v) val opts (st_fail ACTF_NO_SELECTOR_FLD)
  | ACTF_FLD_TYPE_UINT v _ => choose_code (fun r => actf_rng_set_intersect_uint r v) val opts (st_fail ACTF_NO_SELECTOR_FLD)
  | _ => st_fail ACTF_WRONG_FLD_TYPE
  end.

Lemma variant_code val opts loc D :
  (variant_option loc_fuel opts loc val ≫= decode_option md decode val opts) D =
  ((r ← locate loc_fuel loc val; match r with None => st_fail ACTF_MISSING_FLD_LOC | Some b => read_fld b ≫= fun g => mret g end) ≫=
   option_code val opts) D.
Proof.
  unfold variant_option, option_code, choose_code, mbind, st_bind. destruct (locate loc_fuel loc val D) as [[[b|]|rc|] D1]; try done.
  destruct (read_fld b D1) as [[g|rc|] D2]; try done. cbn. destruct (f_d g); try done; by destruct (last_option _ _ _ _).
Qed.

Lemma s_locate_range V loc parent g : returns (s_locate loc_fuel V loc parent) g -> in_range g.
Proof.
  intros (x & x' & H). unfold s_locate in H. destruct (fld_loc_locate _ _ _ _) as [[b|]|rc|]; try done.
  destruct (v_fetch V b) as [h|]; [|done]. destruct (decide (in_range h)); [|done]. by injection H as <- _.
Qed.

Lemma decodes_variant opts loc :
  Forall (fun o => decodes (snd (fst o))) opts -> Forall (fun o => rng_set_wf (snd o)) opts -> decodes (FC_VARIANT opts loc).
Proof.
  intros Hds Hwf val [c0 p x] Hx. cbn in Hx. subst x. cbn [fld_cls_decode spec_fld f_parent]. apply builds_modify. cbn [f_parent f_cls f_d].
  set (vc := FC_VARIANT opts loc) in *. set (f := mk_fld (Some vc) p ACTF_FLD_TYPE_NIL).
  eapply builds_run; [intros d; by rewrite variant_code|].
  apply (builds_step val f _ (fun V => s_locate loc_fuel (v_put val f V) loc p)).
  - eapply steps_ext; [|apply (steps_locate val f loc (fun g => mret g) (fun g _ => mret g)); intros g _; apply steps_ret].
    intros V x. unfold mbind, st_bind. by destruct (s_locate _ _ _ _ _) as [[]].
  - intros _ sel Hr%s_locate_range.
    assert (Hs : Forall (fun o => builds val f (decode_selected md decode val (snd (fst o)))
                            (fun V => s_selected (snd (fst o)) (v_put val f V) val p)) opts).
    { eapply Forall_impl; [exact Hds|]. intros o Ho. eapply builds_ext; [|by apply (builds_selected val f)].
      intros V x. unfold s_selected. by rewrite spec_put. }
    unfold option_code, int_value, in_range in *. pose proof (builds_fail val f ACTF_NO_SELECTOR_FLD) as Hno.
    destruct (f_d sel) as [|bv|v|v n|v|v|q n|q n|vs n|vs]; try apply builds_fail;
      (refine (builds_choose val f _ v (fun cls V => s_selected cls (v_put val f V) val p) opts Hs _ _ _ Hno));
      (eapply Forall_impl; [exact Hwf|]; intros o Ho; by apply (rng_set_points _ Ho)).
Qed.

(** ** All classes *)

Lemma decodes_all cls : fc_wf cls -> decodes cls.
Proof.
  induction cls as [cls IH] using fld_cls_ind_subs. intros Hwf. pose proof (fc_wf_subs cls Hwf) as Hsubs.
  assert (Hall : Forall decodes (subs cls)).
  { pose proof (proj2 (Forall_and _ _) (conj IH Hsubs)) as H. eapply Forall_impl; [exact H|]. intros x [Hd Hc]. by apply Hd. }
  destruct (align_req_pow2 cls Hwf) as (al & Hal & k & Hk & ->).
  destruct cls as [| | | | | | | | | | |enc loc| |loc mt|ms m al|ele m n|ele m loc|oc loc rngs|opts loc]; try (by apply decodes_leaf).
  - apply decodes_dyn_str.
  - apply decodes_dyn_blob.
  - cbn in Hal. injection Hal as ->. apply decodes_struct; [done|]. exact (proj1 (Forall_fmap _ _ _) Hall).
  - apply (decodes_static_arr _ _ _ k); [done..|by destruct Hwf as (_ & _ & Hn)|by inversion Hall].
  - apply (decodes_dyn_arr _ _ _ k); [done..|by inversion Hall].
  - apply decodes_optional; [by destruct Hwf|by inversion Hall].
  - apply decodes_variant; [exact (proj1 (Forall_fmap _ _ _) Hall)|]. clear -Hwf. cbn [fc_wf] in Hwf.
    induction opts as [|[[nm oc] rs] opts IH]; constructor; [apply Hwf|apply IH, Hwf].
Qed.
End Refine.

(** C10: Where no [malloc] of the arenas fails, decoding a field of a well-formed class does
    what the specification says, for every class and in every part of the data stream:
    at an existing place that is not decoded yet, when the specification gives a field,
    the decoder leaves exactly that field at the place, with its class, its parent and
    all its members and elements, the options that the selectors choose and the lengths
    that other fields give; the reader is at the specified position and the packet and
    the event in the state that the roles say; and nothing else changes but the arenas.
    When the specification gives an error, the decoder returns that error. *)
Theorem fld_cls_decode_refines md pm em lf c cls val d f :
  (forall n sz, pm n sz = true) -> (forall n sz, em n sz = true) ->
  fc_wf cls -> env_ok c d -> fetch d val = Some f -> f_d f = ACTF_FLD_TYPE_NIL ->
  match spec_fld md lf c cls (view_of d) val (f_parent f) (abs d) with
  | (Ok g, s) =>
      exists d', fld_cls_decode md pm em lf cls val d = (Ok tt, put val g d') /\ advanced c d d' s /\
        fetch (put val g d') val = Some g
  | (Err rc, _) => exists d', fld_cls_decode md pm em lf cls val d = (Err rc, d')
  | (Undef, _) => True
  end.
Proof.
  intros Hpm Hem Hwf Hd Hf Hn.
  pose proof (decodes_all md pm em lf c Hpm Hem cls Hwf val f Hn d Hd (ex_intro _ f Hf)) as H. rewrite (put_self _ _ _ Hf) in H.
  destruct (spec_fld _ _ _ _ _ _ _) as [[g|rc|] s]; [|done..]. destruct H as (d' & Hadv & Hrun). exists d'.
  split; [done|]. split; [done|]. apply (fetch_put _ _ _ f). by rewrite (advanced_fetch _ _ _ _ _ Hadv).
Qed.

(** An event whose payload is decoded, at the start of [data]. *)
Definition at_payload (data : list Z) : actf_decoder :=
  set_ctx DEC_CTX_EVENT_PAYLOAD (set_ev (Some actf_event_init) (set_pkt_s (pkt_state_init zero_pkt_state) (actf_decoder_init data 0))).

Definition be_sint (n al : Z) : actf_fld_cls :=
  FC_FXD_LEN_SINT dec_base (mk_bit_arr n ACTF_BIG_ENDIAN ACTF_LAST_TO_FIRST al) 0.

(** The scalar values of a field, in the order of the data. *)
Definition scalars (f : actf_fld) : list fld_d :=
  concat (map (fun g => match children g with [] => [f_d g] | gs => map f_d gs end) (children f)).
Definition payload_addr : addr := mk_addr (REv ACTF_EVENT_PROP_PAYLOAD) [].

Lemma at_payload_ok data :
  Forall is_byte data -> 8 * Z.of_nat (length data) <= 2 ^ 62 -> env_ok DEC_CTX_EVENT_PAYLOAD (at_payload data).
Proof.
  intros Hb Hs. assert (Ha : forall n, 0 <= n <= 2 ^ 62 -> arena_wf (mk_arena [] [] n 0)) by (intros n Hn; by split).
  split; [|apply Ha; unfold SIZEOF_FLD; lia|apply Ha; vm_compute; by split|done].
  split; [|by vm_compute|vm_compute; by split..]. by apply breader_init_wf.
Qed.

(** A payload with an array and a string whose lengths are fields, and a variant. *)
Definition payload_loc (name : string) : actf_fld_loc := mk_fld_loc ACTF_FLD_LOC_ORIGIN_EVENT_PAYLOAD [Some name].
Definition sel_opts : list (option string * actf_fld_cls * actf_rng_set) :=
  [(None, uint_fc 16 0, RNG_UINT [mk_urng 0 4]); (None, be_sint 8 8, RNG_UINT [mk_urng 3 9])].
Definition dyn_payload : actf_fld_cls :=
  FC_STRUCT [("n", uint_fc 8 0); ("xs", FC_DYN_LEN_ARR (uint_fc 8 0) 1 (payload_loc "n"));
             ("v", FC_VARIANT sel_opts (payload_loc "n"));
             ("s", FC_DYN_LEN_STR ACTF_ENCODING_UTF8 (mk_fld_loc ACTF_FLD_LOC_ORIGIN_NONE [Some "n"]))]%string 1 8.
Definition dyn_data : list Z := [3; 7; 8; 9; 0xfe; 65; 66; 0].

Lemma dyn_payload_wf : fc_wf dyn_payload.
Proof. cbn. repeat split; try (by exists 3); try (by exists 0); cbn; try lia; repeat constructor; unfold is_u64; cbn; lia. Qed.

Example fld_cls_decode_refines_witness :
  let d := at_payload dyn_data in
  let s := spec_fld md0 4 DEC_CTX_EVENT_PAYLOAD dyn_payload (view_of d) payload_addr None (abs d) in
  scalars <$> (match fst s with Ok g => Some g | _ => None end) =
    Some [ACTF_FLD_TYPE_UINT 3 0; ACTF_FLD_TYPE_UINT 7 0; ACTF_FLD_TYPE_UINT 8 0; ACTF_FLD_TYPE_UINT 9 0;
          ACTF_FLD_TYPE_SINT (-2); ACTF_FLD_TYPE_STR 5 3] /\
  match s with
  | (Ok g, s) =>
      exists d', fld_cls_decode md0 malloc_yes malloc_yes 4 dyn_payload payload_addr d = (Ok tt, put payload_addr g d') /\
        advanced DEC_CTX_EVENT_PAYLOAD d d' s /\ fetch (put payload_addr g d') payload_addr = Some g
  | (Err rc, _) => exists d', fld_cls_decode md0 malloc_yes malloc_yes 4 dyn_payload payload_addr d = (Err rc, d')
  | (Undef, _) => True
  end.
Proof.
  split; [vm_compute; reflexivity|].
  apply (fld_cls_decode_refines md0 malloc_yes malloc_yes 4 DEC_CTX_EVENT_PAYLOAD dyn_payload payload_addr (at_payload dyn_data) nil_fld);
    [done|done|apply dyn_payload_wf|apply at_payload_ok; [by apply bytes_ok|vm_compute; discriminate]|done|done].
Defined.
