(* ===== verification/StreamSpec.v ===== *)
(** What a data stream is: its packets and their events.

    [spec_event] and [spec_pkt] give an event and a packet header and context as
    functions of the bits, on top of the fields of [FieldSpec]; [spec_events] and
    [spec_stream] repeat them until the content of the packet and the data end.
    There is no output array, no resumption and no saved error here: that the
    decoder yields these events, however large its array is, is the theorem of
    [StreamDecode]; [spec_seek] is the part of the stream that a seek leaves, and its
    theorem is that of [StreamSeek]. *)
From S2P Require Import Prelude Common Breader Rng Generator HashMap Clock FldCls Metadata Fld Scalar Arena Decoder DecoderSpec FieldSpec.
From stdpp Require Import strings.
Open Scope Z_scope.

Section Spec.
Context (md : actf_metadata) (loc_fuel : nat).

(** * Properties

    A property without a class has no field. *)
Definition s_prop (c : dec_ctx) (cls : actf_fld_cls) (r : root) (V : view) : st sst view :=
  match cls with
  | FC_NIL => mret V
  | _ => f ← spec_fld md loc_fuel c cls V (mk_addr r []) None; mret (v_put (mk_addr r []) f V)
  end.

(** * Events *)

Definition s_set_ev (e : option event_state) : st sst unit := st_modify (fun s => mk_sst (ss_cur s) e).
Definition no_flds : ev_flds := mk_ev_flds nil_fld nil_fld nil_fld nil_fld.

(** The class that the id of the event has in its data stream class. *)
Definition s_ev_cls (dsc : actf_dstream_cls) (e : event_state) : st sst actf_event_cls :=
  match u64toevc_find (idtoevc dsc) (ev_id e) with
  | Ok (Some evc) => mret evc
  | Ok None => st_fail ACTF_NO_SUCH_ID
  | _ => st_undef
  end.

(** The event at the position, in a packet with the fields of [V]. *)
Definition spec_event (V : view) : st sst actf_event :=
  s_set_ev (Some event_state_init);;
  s ← st_get;
  match dsc_cls (ac_pkt (ss_cur s)) with
  | None => st_undef
  | Some dsc =>
      V ← s_prop DEC_CTX_EVENT_HEADER (event_hdr dsc) (REv ACTF_EVENT_PROP_HEADER) (mk_view (vw_header V) (vw_ctx V) (Some no_flds));
      s ← st_get;
      match ss_ev s with
      | None => st_undef
      | Some e =>
          evc ← s_ev_cls dsc e;
          s_set_ev (Some (mk_event_state (ev_id e) (Some evc) (ev_def_clk_val e)));;
          V ← s_prop DEC_CTX_EVENT_COMMON_CTX (event_common_ctx dsc) (REv ACTF_EVENT_PROP_COMMON_CTX) V;
          V ← s_prop DEC_CTX_EVENT_SPECIFIC_CTX (spec_ctx evc) (REv ACTF_EVENT_PROP_SPECIFIC_CTX) V;
          V ← s_prop DEC_CTX_EVENT_PAYLOAD (payload evc) (REv ACTF_EVENT_PROP_PAYLOAD) V;
          s ← st_get;
          match ss_ev s, vw_ev V with
          | Some e, Some f => mret (mk_event e (Some dsc) (vf_header f) (vf_common_ctx f) (vf_spec_ctx f) (vf_payload f))
          | _, _ => st_undef
          end
      end
  end.

(** * Packets *)

(** The data stream class of the packet. *)
Definition s_dsc (id : Z) : st sst actf_dstream_cls :=
  match u64todsc_find (idtodsc md) id with
  | Ok (Some dsc) => mret dsc
  | Ok None => st_fail ACTF_NO_SUCH_ID
  | _ => st_undef
  end.

(** The header and context of the packet at the position. *)
Definition spec_pkt : st sst view :=
  s ← st_get;
  s_set_ev None;;
  s_upd_pkt (fun p => set_bit_off (ac_pos (ss_cur s)) (pkt_state_init p));;
  V ← s_prop DEC_CTX_PKT_HEADER (pkt_hdr (trace_cls md)) (RPkt ACTF_PKT_PROP_HEADER) (mk_view nil_fld nil_fld None);
  s ← st_get;
  dsc ← s_dsc (dsc_cls_id (ac_pkt (ss_cur s)));
  s_upd_pkt (fun p => set_flag PKT_DSTREAM_CLS (set_dsc_cls (Some dsc) p));;
  match pkt_ctx dsc with
  | FC_NIL => mret V
  | ctx_cls =>
      V ← s_prop DEC_CTX_PKT_CTX ctx_cls (RPkt ACTF_PKT_PROP_CTX) V;
      s_upd_pkt complete_lens;;
      s ← st_get;
      if tot_len (ac_pkt (ss_cur s)) <? content_len (ac_pkt (ss_cur s)) then st_fail ACTF_INVALID_CONTENT_LEN else mret V
  end.

(** The packet object: its state once the header and context are known, and their
    fields. *)
Definition pkt_of (V : view) (s : sst) : actf_pkt := mk_pkt (ac_pkt (ss_cur s)) (vw_header V) (vw_ctx V).

(** Past the end of the packet, when its length is given; a length less than what was
    read leaves the position open. *)
Definition spec_skip : st sst unit :=
  s ← st_get;
  let p := ac_pkt (ss_cur s) in
  if (tot_len p =? UINT64_MAX) || (content_len p =? UINT64_MAX) then mret tt
  else
    let pkt_end := bit_off p + tot_len p in
    if (pkt_end <? ac_pos (ss_cur s)) || (ac_pos (ss_cur s) + 2 ^ 64 <=? pkt_end) then st_undef
    else on_acur (st_modify (fun ac => ac_move (Z.min pkt_end (ac_bits ac)) ac)).

(** * Streams

    A run gives the events that were decoded, the packet of each, and how it ended: [Ok]
    at the end of the packet or the data, or the error.  [Undef] also stands for a
    run that is longer than the fuel. *)

(** Whether the content of the packet goes on. *)
Definition more_events (s : sst) : bool :=
  (ac_pos (ss_cur s) <? ac_bits (ss_cur s)) && (ac_pos (ss_cur s) <? ac_end (ss_cur s)).

Fixpoint spec_events (fuel : nat) (V : view) (s : sst) : list actf_event * outcome unit * sst :=
  match fuel with
  | O => ([], Undef, s)
  | S fuel' =>
      if more_events s then
        match spec_event V s with
        | (Ok e, s1) => let '(es, r, s2) := spec_events fuel' V s1 in (e :: es, r, s2)
        | (Err rc, s1) => ([], Err rc, s1)
        | (Undef, s1) => ([], Undef, s1)
        end
      else ([], Ok tt, s)
  end.

(** The events [es] of the packet [p], which end with [r] in [s], and the packets behind
    it.  A packet without events ends the stream, since the decoder returns an empty
    array for it, which is its sign for the end
    ([DecoderEdge.empty_packet_ends_stream]). *)
Definition spec_rest (packets : sst -> list (actf_event * actf_pkt) * outcome unit) (p : actf_pkt)
    (es : list actf_event) (r : outcome unit) (s : sst) : list (actf_event * actf_pkt) * outcome unit :=
  let items := map (fun e => (e, p)) es in
  match r with
  | Ok _ =>
      match spec_skip s with
      | (Ok _, s') =>
          match es with
          | [] => ([], Ok tt)
          | _ => let '(rest, r) := packets s' in (items ++ rest, r)
          end
      | (Err rc, _) => (items, Err rc)
      | (Undef, _) => (items, Undef)
      end
  | r => (items, r)
  end.

Fixpoint spec_packets (fuel : nat) (s : sst) : list (actf_event * actf_pkt) * outcome unit :=
  match fuel with
  | O => ([], Undef)
  | S fuel' =>
      if ac_pos (ss_cur s) <? ac_bits (ss_cur s) then
        match spec_pkt s with
        | (Ok V, s1) =>
            let '(es, r, s2) := spec_events fuel' V s1 in
            spec_rest (spec_packets fuel') (pkt_of V s1) es r s2
        | (Err rc, _) => ([], Err rc)
        | (Undef, _) => ([], Undef)
        end
      else ([], Ok tt)
  end.

(** The whole of [data]. *)
Definition stream_start (data : list Z) : sst := mk_sst (mk_acur data ACTF_LIL_ENDIAN 0 zero_pkt_state) None.
Definition spec_stream (fuel : nat) (data : list Z) : list (actf_event * actf_pkt) * outcome unit :=
  spec_packets fuel (stream_start data).

(** * Seeking

    A seek to [t] reads the packets from the begin of the data.  A packet that its
    context says to end before [t] is left out by its length; in the first other
    packet with an event at or after [t], the stream begins with that event. *)

(** Past the packet, by its total length alone. *)
Definition spec_jump : st sst unit :=
  s ← st_get;
  let p := ac_pkt (ss_cur s) in
  let off := Z.min (8 * ((bit_off p + tot_len p) / 8)) (ac_bits (ss_cur s)) in
  if off <? bit_off p then st_undef else on_acur (st_modify (ac_move off)).

(** The events from the first at or after [t]; [None] where the time of one is undefined. *)
Fixpoint from_time (t : Z) (es : list actf_event) : option (list actf_event) :=
  match es with
  | [] => Some []
  | e :: es' => ts ← actf_event_tstamp_ns_from_origin e; if t <=? ts then Some es else from_time t es'
  end.

(** What the stream gives after the seek, or the error of the seek.  A packet that ends
    with an error before any event at or after [t] is not specified
    ([DecoderEdge.seek_diverges_after_error]). *)
Fixpoint spec_from (fuel : nat) (t : Z) (s : sst) : outcome (list (actf_event * actf_pkt) * outcome unit) :=
  match fuel with
  | O => Undef
  | S fuel' =>
      if ac_pos (ss_cur s) <? ac_bits (ss_cur s) then
        match spec_pkt s with
        | (Ok V, s1) =>
            match ends_before t (ac_pkt (ss_cur s1)) with
            | None => Undef
            | Some true =>
                match spec_jump s1 with
                | (Ok _, s2) => spec_from fuel' t s2
                | _ => Undef
                end
            | Some false =>
                let '(es, r, s2) := spec_events fuel' V s1 in
                match from_time t es, r with
                | None, _ => Undef
                | Some [], Ok _ =>
                    match spec_skip s2 with
                    | (Ok _, s3) => spec_from fuel' t s3
                    | _ => Undef
                    end
                | Some [], _ => Undef
                | Some es', r => Ok (spec_rest (spec_packets fuel') (pkt_of V s1) es' r s2)
                end
            end
        | (Err rc, _) => Err rc
        | (Undef, _) => Undef
        end
      else Ok ([], Ok tt)
  end.

Definition spec_seek (fuel : nat) (t : Z) (data : list Z) : outcome (list (actf_event * actf_pkt) * outcome unit) :=
  spec_from fuel t (stream_start data).

(** * The fuel

    A run that ends is the same with more fuel. *)
Lemma spec_events_fuel n : forall m V s es r s', (n <= m)%nat -> spec_events n V s = (es, r, s') -> r <> Undef -> spec_events m V s = (es, r, s').
Proof.
  induction n as [|n IH]; intros [|m] V s es r s' Hm Hs Hu; try lia; [by injection Hs as <- <- <-..|]. cbn [spec_events] in *.
  destruct (more_events s); [|done]. destruct (spec_event V s) as [[e|rc|] s1]; [|done..].
  destruct (spec_events n V s1) as [[es1 r1] s2] eqn:E. injection Hs as <- <- <-. by rewrite (IH m _ _ _ _ _ (le_S_n _ _ Hm) E Hu).
Qed.

Lemma spec_packets_fuel n : forall m s items r, (n <= m)%nat -> spec_packets n s = (items, r) -> r <> Undef -> spec_packets m s = (items, r).
Proof.
  induction n as [|n IH]; intros [|m] s items r Hm Hs Hu; try lia; [by injection Hs as <- <-..|]. cbn [spec_packets] in *.
  destruct (_ <? _); [|done]. destruct (spec_pkt s) as [[V|rc|] s1]; [|done..].
  destruct (spec_events n V s1) as [[es r1] s2] eqn:E.
  assert (Hu1 : r1 <> Undef) by (intros ->; by injection Hs as _ <-).
  rewrite (spec_events_fuel n m _ _ _ _ _ (le_S_n _ _ Hm) E Hu1). unfold spec_rest in *.
  destruct r1 as [[]|rc|]; [|done..]. destruct (spec_skip s2) as [[[]|rc|] s3]; [|done..]. destruct es as [|e es]; [done|].
  destruct (spec_packets n s3) as [rest r2] eqn:E2. injection Hs as <- <-. by rewrite (IH m _ _ _ (le_S_n _ _ Hm) E2 Hu).
Qed.

(** The stream does not depend on the fuel. *)
Lemma spec_stream_fuel n m data items r items' r' :
  spec_stream n data = (items, r) -> spec_stream m data = (items', r') -> r <> Undef -> r' <> Undef -> items = items' /\ r = r'.
Proof.
  intros H1 H2 Hr Hr'. destruct (Nat.le_ge_cases n m) as [Hl|Hl].
  - pose proof (spec_packets_fuel _ _ _ _ _ Hl H1 Hr) as H. unfold spec_stream in H2. rewrite H in H2. by injection H2.
  - pose proof (spec_packets_fuel _ _ _ _ _ Hl H2 Hr') as H. unfold spec_stream in H1. rewrite H in H1. by injection H1.
Qed.
End Spec.
