(* ===== verification/DecoderSeek.v ===== *)
(** The protocol of the decoder's calls: what a call of decode returns after an
    error and after a seek.

    The flags of the decoder's state decide that, so the lemmas follow the flags
    through the decoding of packets, on top of the invariant of [DecoderInv]. *)
From S2P Require Import Prelude Common Breader Rng Generator HashMap Clock FldCls Metadata Fld Scalar Arena Decoder DecoderInv Samples.
From stdpp Require Import strings.
Open Scope Z_scope.

(** What the decoding of a packet leaves alone. *)
Definition stored (d : actf_decoder) := (DECODING_STATE_RESUME_SEEK (state d), DECODING_STATE_ERROR (state d), err_rc d).

(** A client can be handed the events of the array at once. *)
Definition resume_seek (d : actf_decoder) : bool := DECODING_STATE_RESUME_SEEK (state d).

Section Calls.
Context (md : actf_metadata) (pm em : nat -> Z -> bool) (lf : nat) (data : list Z) (cap : nat).
Hypotheses (Hdata : Forall is_byte data) (Hsize : 8 * Z.of_nat (length data) <= 2 ^ 62).
Hypothesis Hmd : metadata_wf md.
Notation inv := (dec_inv data cap).
Notation decode := (actf_decoder_decode md pm em lf).
Notation pkt_decode := (actf_decoder_pkt_decode md pm em lf).
Notation hdrctx_decode := (actf_decoder_pkt_hdrctx_decode md pm em lf).

Lemma outer_stored d d' : outer d' = outer d -> stored d' = stored d.
Proof. unfold outer, stored. intros H. injection H as -> -> _ _ _ _. done. Qed.

Lemma ev_loop_stored room d :
  inv d -> (room + length (evs d) <= cap)%nat -> stored (snd (ev_loop md pm em lf room d)) = stored d.
Proof.
  revert d. induction room as [|room IH]; intros d Hd Hr; cbn [ev_loop];
    rewrite (st_bind_ok st_get _ d d d) by done; (destruct (_ && _); [|done]); [done|].
  pose proof (ev_decode_inv md pm em lf data cap Hdata Hsize d Hd) as He. unfold mbind at 1, st_bind at 1.
  destruct (actf_decoder_ev_decode md pm em lf d) as [[[]|rc|] d1]; destruct He as (Hi & Ho & _ & Hc); cbn; try by apply outer_stored.
  destruct (Hc eq_refl) as (e & Ee & Hce). pose proof (outer_stored _ _ Ho) as Hst.
  unfold outer in Ho. injection Ho as _ _ _ _ Hevs _.
  rewrite (st_bind_ok (st_modify _) _ d1 tt (set_evs (evs d1 ++ [e]) d1)) by (unfold st_modify; by rewrite Ee).
  rewrite IH; [done|apply (inv_push data cap); [done|done|rewrite Hevs; lia]|cbn; rewrite length_app, Hevs; cbn; lia].
Qed.

Lemma pkt_decode_stored d : inv d -> stored (snd (pkt_decode d)) = stored d.
Proof.
  intros Hd. unfold actf_decoder_pkt_decode. rewrite (st_bind_ok st_get _ d d d) by done.
  match goal with |- context [(?h ≫= ?k) d] => assert (Hh : inv (snd (h d)) /\ stored (snd (h d)) = stored d) end.
  { destruct (DECODING_STATE_RESUME_PKT (state d)); [destruct Hd; by split; [split|]|].
    pose proof (hdrctx_inv md pm em lf data cap Hdata Hsize Hmd d d (conj Hd eq_refl)) as [Hi Ho]. split; [done|]. by apply outer_stored. }
  unfold mbind at 1, st_bind at 1. destruct Hh as [Hh Hs].
  match goal with |- context [match ?x with (_, _) => _ end] => destruct x as [[[]|rc|] d1] end; [|done|done].
  cbn in Hh, Hs. rewrite (st_bind_ok st_get _ d1 d1 d1) by done. unfold mbind, st_bind.
  pose proof (ev_loop_stored (evs_cap d1 - length (evs d1)) d1 Hh) as Hl.
  destruct (ev_loop _ _ _ _ _ d1) as [[full|rc|] d2]; cbn in *;
    try (rewrite <- Hs; apply Hl; destruct Hh; lia).
  specialize (Hl ltac:(destruct Hh; lia)). rewrite <- Hs, <- Hl. destruct full; [done|].
  unfold skip_to_end. rewrite (st_bind_ok st_get _ d2 d2 d2) by done. destruct (_ && _); [|done].
  unfold on_cur, st_zoom. by destruct (on_br _ _) as [r c].
Qed.

Lemma inv_clear d : inv d -> inv (set_evs [] d).
Proof. intros []. split; try done. cbn. lia. Qed.

(** A call in which the stored flags are clear decodes a packet. *)
Lemma decode_fresh d :
  inv d -> stored d = (false, false, err_rc d) -> breader_has_bits_remaining (br d) = true ->
  exists r d1, pkt_decode (set_evs [] d) = (r, d1) /\ stored d1 = (false, false, err_rc d) /\
    decode d = (match r with
                | Ok _ => (Ok (evs d1), d1)
                | Err rc => (match evs d1 with [] => Err rc | es => Ok es end, set_error rc d1)
                | Undef => (Undef, d1)
                end).
Proof.
  intros Hd Hs Hb. injection Hs as H1 H2. unfold actf_decoder_decode. rewrite H1, H2. cbn [br set_evs]. rewrite Hb.
  pose proof (pkt_decode_stored _ (inv_clear d Hd)) as Hs. destruct (pkt_decode _) as [r d1]. exists r, d1. split; [done|].
  split; [cbn in Hs; rewrite Hs; unfold stored; cbn; congruence|].
  destruct r as [[]|rc|]; [done| |done]. by destruct (evs d1).
Qed.

Lemma decode_after_error rc d : DECODING_STATE_RESUME_SEEK (state d) = false -> decode (set_error rc d) = (Err rc, set_error rc d).
Proof. intros H. unfold actf_decoder_decode. cbn. by rewrite H. Qed.

Lemma decode_err_sticks d rc d' : inv d -> decode d = (Err rc, d') -> decode d' = (Err rc, d').
Proof.
  intros Hd. destruct (DECODING_STATE_RESUME_SEEK (state d)) eqn:E1.
  { unfold actf_decoder_decode. by rewrite E1. }
  destruct (DECODING_STATE_ERROR (state d)) eqn:E2.
  { intros E. pose proof E as E'. unfold actf_decoder_decode in E'. rewrite E1, E2 in E'. injection E' as _ <-. done. }
  destruct (breader_has_bits_remaining (br d)) eqn:Eb.
  2: { unfold actf_decoder_decode. rewrite E1, E2. cbn. by rewrite Eb. }
  destruct (decode_fresh d Hd) as (r & d1 & _ & Hs & ->); [unfold stored; congruence|done|].
  injection Hs as Hs _ _. destruct r as [u|rc1|]; [done| |done].
  destruct (evs d1); [|done]. intros [= -> <-]. by apply decode_after_error.
Qed.
End Calls.

(** The decoder after some calls. *)
Definition after_calls md pm em lf data n calls : actf_decoder :=
  fold_left (fun d c => do_call md pm em lf c d) calls (actf_decoder_init data n).

(** C24: The error contract of decode, after any calls: when decoding the next
    packet fails with [rc], the events decoded before the failure are not lost:
    they are returned first, and [rc] by the next call, or [rc] at once when there
    are none.  Once a call has returned an error, every further call returns that
    error and leaves the decoder as it is. *)
Theorem decode_error_contract md pm em lf data n calls :
  Forall is_byte data -> 8 * Z.of_nat (length data) <= 2 ^ 62 -> metadata_wf md ->
  let d := after_calls md pm em lf data n calls in
  (forall rc d1, stored d = (false, false, err_rc d) -> breader_has_bits_remaining (br d) = true ->
     actf_decoder_pkt_decode md pm em lf (set_evs [] d) = (Err rc, d1) ->
     exists d', actf_decoder_decode md pm em lf d = (match evs d1 with [] => Err rc | es => Ok es end, d') /\
       actf_decoder_decode md pm em lf d' = (Err rc, d')) /\
  (forall rc d', actf_decoder_decode md pm em lf d = (Err rc, d') -> actf_decoder_decode md pm em lf d' = (Err rc, d')).
Proof.
  intros Hd Hs Hm d.
  pose proof (calls_inv md pm em lf data _ calls _ Hd Hs Hm (dec_init_inv data n Hs)) as Hi.
  change (dec_inv data (eff_cap n) d) in Hi. split.
  - intros rc d1 Hst Hb Hp. destruct (decode_fresh md pm em lf data _ Hd Hs Hm d Hi Hst Hb) as (r & d2 & Hp' & Hst' & Hdec).
    rewrite Hp in Hp'. injection Hp' as <- <-. eexists. split; [exact Hdec|]. apply decode_after_error. by injection Hst'.
  - intros rc d'. by apply (decode_err_sticks md pm em lf data (eff_cap n)).
Qed.

(** One event, and one of a class that does not exist. *)
Definition bad_second : list Z := [56; 0; 5; 7; 1; 6; 7].

Example decode_error_contract_witness :
  let d := after_calls md0 malloc_yes malloc_yes 4 bad_second 3 [] in
  tstamps (fst (run_decode d)) = Ok [Some 5] /\ fst (run_decode (snd (run_decode d))) = Err ACTF_NO_SUCH_ID /\
  (forall rc d1, stored d = (false, false, err_rc d) -> breader_has_bits_remaining (br d) = true ->
     actf_decoder_pkt_decode md0 malloc_yes malloc_yes 4 (set_evs [] d) = (Err rc, d1) ->
     exists d', run_decode d = (match evs d1 with [] => Err rc | es => Ok es end, d') /\ run_decode d' = (Err rc, d')) /\
  (forall rc d', run_decode d = (Err rc, d') -> run_decode d' = (Err rc, d')).
Proof.
  split; [vm_compute; reflexivity|]. split; [vm_compute; reflexivity|].
  apply (decode_error_contract md0 malloc_yes malloc_yes 4 bad_second 3 []).
  - by apply bytes_ok.
  - vm_compute. discriminate.
  - apply md0_wf.
Defined.

(** * Seeking *)

Section Seek.
Context (md : actf_metadata) (pm em : nat -> Z -> bool) (lf : nat) (data : list Z) (cap : nat).
Hypotheses (Hdata : Forall is_byte data) (Hsize : 8 * Z.of_nat (length data) <= 2 ^ 62).
Hypothesis Hmd : metadata_wf md.
Notation inv := (dec_inv data cap).
Notation decode := (actf_decoder_decode md pm em lf).

(** The events [pre] are before [t], and [e] is not. *)
Definition first_event (t : Z) (pre : list actf_event) (e : actf_event) : Prop :=
  Forall (fun x => exists ts, actf_event_tstamp_ns_from_origin x = Some ts /\ ts < t) pre /\
  exists ts, actf_event_tstamp_ns_from_origin e = Some ts /\ t <= ts.

Lemma first_at_spec t es i0 i :
  first_at t es i0 = Ok (Some i) ->
  exists pre e post, es = pre ++ e :: post /\ i = (i0 + length pre)%nat /\ first_event t pre e.
Proof.
  revert i0. induction es as [|e es IH]; intros i0; cbn [first_at]; [done|].
  destruct (actf_event_tstamp_ns_from_origin e) as [ts|] eqn:Ets; [|done]. destruct (Z.geb_spec ts t).
  - intros [= <-]. exists [], e, es. split; [done|]. split; [cbn; lia|]. split; [constructor|by exists ts].
  - intros (pre & x & post & -> & -> & Hpre & Hx)%IH. exists (e :: pre), x, post. split; [done|]. split; [cbn; lia|].
    split; [|done]. constructor; [|done]. by exists ts.
Qed.

(** The seek has found its event in the array of the last decoding. *)
Definition found (t : Z) (d : actf_decoder) : Prop :=
  resume_seek d = true /\
  exists pre e post, evs d = pre ++ e :: post /\ first_event t pre e /\
    seek_evs_off d = length pre /\ seek_evs_len d = length (e :: post).

(** Decoding outside a resumed seek returns the array it filled. *)
Lemma decode_evs d :
  inv d -> resume_seek d = false ->
  let '(r, d') := decode d in resume_seek d' = false /\ forall es, r = Ok es -> evs d' = es.
Proof.
  intros Hd E1. unfold resume_seek in *.
  destruct (DECODING_STATE_ERROR (state d)) eqn:E2; [by unfold actf_decoder_decode; rewrite E1, E2|].
  destruct (breader_has_bits_remaining (br d)) eqn:Eb.
  2: { unfold actf_decoder_decode. rewrite E1, E2. cbn. rewrite Eb. split; [done|]. by intros es [= <-]. }
  destruct (decode_fresh md pm em lf data cap Hdata Hsize Hmd d Hd) as (r & d1 & _ & Hs & ->);
    [unfold stored; congruence|done|]. injection Hs as Hs _ _.
  destruct r as [u|rc|]; [by split; [|intros es [= <-]]| |by split].
  split; [done|]. cbn. destruct (evs d1); [done|]. by intros es [= <-].
Qed.

Lemma seek_events_result fuel t d :
  inv d -> resume_seek d = false ->
  match seek_events md pm em lf fuel t d with
  | (Ok None, d') => found t d'
  | (_, d') => resume_seek d' = false
  end.
Proof.
  revert d. induction fuel as [|fuel IH]; intros d Hd Hs; cbn [seek_events]; [done|].
  pose proof (dec_decode_inv md pm em lf data cap Hdata Hsize Hmd d Hd) as Hi. pose proof (decode_evs d Hd Hs) as He.
  destruct (decode d) as [[es|rc|] d1]; [|by destruct He..]. destruct He as [Hs1 He], Hi as [Hi _].
  destruct es as [|e es]; [done|]. destruct (first_at t (e :: es) 0) as [[i|]|rc|] eqn:Ef; [| |done|done].
  - apply first_at_spec in Ef as (pre & x & post & Hes & -> & Hf). split; [done|]. exists pre, x, post.
    split; [cbn; rewrite (He _ eq_refl); exact Hes|]. split; [done|]. split; [done|]. cbn [seek_evs_len set_seek_evs].
    rewrite Hes, length_app. cbn. lia.
  - destruct (_ =? 0); [done|]. by apply IH.
Qed.

Lemma seek_loop_result fuel t rc d d' :
  inv d -> resume_seek d = false -> seek_loop md pm em lf fuel t rc d = (Ok tt, d') ->
  found t d' \/ (resume_seek d' = false /\ breader_has_bits_remaining (br d') = false).
Proof.
  revert rc d. induction fuel as [|fuel IH]; intros rc d Hd Hs; cbn [seek_loop]; [done|].
  destruct (breader_has_bits_remaining (br d)) eqn:Eb.
  2: { destruct (rc <? 0); [done|]. intros [= <-]. by right. }
  pose proof (hdrctx_inv md pm em lf data cap Hdata Hsize Hmd d d (conj Hd eq_refl)) as [H1 Ho].
  destruct (actf_decoder_pkt_hdrctx_decode md pm em lf d) as [[[]|rc'|] d1]; [|done|done]. cbn in H1, Ho.
  assert (Hs1 : resume_seek d1 = false) by (unfold outer in Ho; injection Ho as Ho _ _ _ _ _; unfold resume_seek; by rewrite Ho).
  destruct (ends_before _ _) as [[]|]; [| |done].
  - apply IH; [|done]. destruct H1. split; try done. apply seek_ok; try done. apply Z.div_pos; [|lia].
    unfold sataddu64, UINT64_MAX. pose proof (u64_range (bit_off (d_pkt_s d1) + tot_len (d_pkt_s d1))) as [? _].
    case_match; lia.
  - assert (H2 : inv (set_resume_pkt true d1)) by (destruct H1; by split).
    pose proof (seek_events_inv md pm em lf data cap Hdata Hsize Hmd fuel t _ H2) as H3.
    pose proof (seek_events_result fuel t _ H2 Hs1) as H4.
    destruct (seek_events md pm em lf fuel t _) as [[[rc'|]|rc'|] d2]; [by apply IH| |done|done].
    intros [= <-]. by left.
Qed.
End Seek.

(** After any calls, a seek to [t] that succeeds positions the decoder at an
    event: the events that the next decode returns are the rest of an array of
    decoded events, the first of them is at or after [t], and all that were left
    out of the array are before [t]; when the seek found no event, the next
    decode returns no events or the stored error. *)
Theorem seek_positions_decoder md pm em lf data n calls fuel t d' :
  Forall is_byte data -> 8 * Z.of_nat (length data) <= 2 ^ 62 -> metadata_wf md ->
  actf_decoder_seek_ns_from_origin md pm em lf fuel t (after_calls md pm em lf data n calls) = (Ok tt, d') ->
  (exists pre e post, actf_decoder_decode md pm em lf d' = (Ok (e :: post), set_resume_seek false d') /\
     evs d' = pre ++ e :: post /\ first_event t pre e) \/
  (forall r d'', actf_decoder_decode md pm em lf d' = (r, d'') -> r = Ok [] \/ r = Err (err_rc d')).
Proof.
  intros Hd Hs Hm. set (d := after_calls _ _ _ _ _ _ _).
  pose proof (calls_inv md pm em lf data _ calls _ Hd Hs Hm (dec_init_inv data n Hs)) as Hi.
  change (dec_inv data (eff_cap n) d) in Hi. unfold actf_decoder_seek_ns_from_origin. intros E.
  apply (seek_loop_result md pm em lf data (eff_cap n) Hd Hs Hm) in E as [(Hr & pre & e & post & Hev & Hf & Ho & Hl)|[Hr Hb]].
  - left. exists pre, e, post. split; [|done]. unfold actf_decoder_decode. unfold resume_seek in Hr.
    rewrite Hr, Ho, Hl, Hev, drop_app_length, take_ge by done. done.
  - right. intros r d''. unfold actf_decoder_decode. unfold resume_seek in Hr. rewrite Hr.
    destruct (DECODING_STATE_ERROR (state d')); [intros [= <- _]; by right|]. cbn [br set_evs]. rewrite Hb. intros [= <- _]. by left.
  - destruct Hi. split; try done. by apply seek_ok.
  - done.
Qed.

Example seek_positions_decoder_witness :
  let d := after_calls md0 malloc_yes malloc_yes 4 two_pkts 3 [CallDecode] in
  let d' := snd (actf_decoder_seek_ns_from_origin md0 malloc_yes malloc_yes 4 6 10 d) in
  tstamps (fst (run_decode d')) = Ok [Some 260] /\
  ((exists pre e post, run_decode d' = (Ok (e :: post), set_resume_seek false d') /\
     evs d' = pre ++ e :: post /\ first_event 10 pre e) \/
   (forall r d'', run_decode d' = (r, d'') -> r = Ok [] \/ r = Err (err_rc d'))).
Proof.
  split; [vm_compute; reflexivity|].
  apply (seek_positions_decoder md0 malloc_yes malloc_yes 4 two_pkts 3 [CallDecode] 6 10).
  - by apply bytes_ok.
  - vm_compute. discriminate.
  - apply md0_wf.
  - vm_compute. reflexivity.
Defined.
