(* ===== verification/DecoderLocate.v ===== *)
(** Field locations and the selectors of optionals and variants.

    A location names an integer or boolean field that was decoded before; the
    theorems show that nothing else is ever found and what a variant or an
    optional makes of the field. *)
From S2P Require Import Prelude Common Breader Rng Generator HashMap Clock FldCls Metadata Fld Scalar Arena Decoder Samples.
From stdpp Require Import strings.
Open Scope Z_scope.

(** * Location *)

(** A field that a location may select. *)
Definition selectable (f : actf_fld) : Prop :=
  match f_d f with
  | ACTF_FLD_TYPE_BOOL _ | ACTF_FLD_TYPE_SINT _ | ACTF_FLD_TYPE_UINT _ _ => True
  | _ => False
  end.

(** What a location procedure may return. *)
Definition located (look : addr -> option actf_fld) (r : outcome (option addr)) : Prop :=
  match r with
  | Ok (Some b) => exists f, look b = Some f /\ selectable f
  | Err _ => False
  | _ => True
  end.

Lemma arr_descend_no_err get_len fuel f a rc : arr_descend get_len fuel f a <> Err rc.
Proof.
  revert f a. induction fuel as [|fuel IH]; intros f a; cbn [arr_descend]; [done|].
  destruct (f_d f); try done. destruct (get_len f); try done. destruct (_ =? _); [done|].
  destruct (_ !! _) as [g|]; [|done]. by destruct (f_d g).
Qed.

Lemma loc_walk_located get_len look fuel path a : located look (loc_walk get_len look fuel path a).
Proof.
  revert a. induction path as [|p path IH]; intros a; cbn [loc_walk]; [done|].
  destruct (look a) as [f|]; [|done]. cbv zeta.
  match goal with |- located look (match ?x with _ => _ end) => destruct x as [[b|]|rc|] eqn:En end; try done.
  - destruct (look b) as [g|] eqn:Eb; [|done].
    assert (Hsel : selectable g -> located look (match path with [] => Ok (Some b) | _ => Ok None end)) by (destruct path; cbn; eauto).
    unfold selectable in Hsel. destruct (f_d g); try done; try (by apply Hsel).
    pose proof (arr_descend_no_err get_len fuel g b) as Hne.
    destruct (arr_descend get_len fuel g b) as [[e|]|rc|]; [apply IH|done|by destruct (Hne rc)|done].
  - exfalso. destruct p as [name|]; [|done]. unfold get_struct_member in En.
    destruct (f_d f); try done. destruct (f_cls f) as [[]|]; try done.
    destruct (member_idx _ _ _); cbn in En; [|done]. by destruct (look _).
Qed.

(** Field location reports a failure as [NULL] and never as an error, and the
    field it returns exists in the current packet or event and is an unsigned or
    signed integer or a boolean; a path that ends at a structure, an array or
    any other field is a failure. *)
Theorem fld_loc_locate_selects fuel look loc cur : located look (fld_loc_locate fuel look loc cur).
Proof.
  destruct fuel as [|fuel]; cbn [fld_loc_locate]; [done|]. destruct (origin_addr loc cur) as [a|]; [|done].
  destruct (look a) as [f|]; [|done]. destruct (f_d f); try done. apply loc_walk_located.
Qed.

(** * Selectors *)

(** The value of an integer field is in the range of its type. *)
Definition in_range (f : actf_fld) : Prop :=
  match f_d f with ACTF_FLD_TYPE_SINT v => is_i64 v | ACTF_FLD_TYPE_UINT v _ => is_u64 v | _ => True end.

Definition int_value (f : actf_fld) : option Z :=
  match f_d f with ACTF_FLD_TYPE_SINT v => Some v | ACTF_FLD_TYPE_UINT v _ => Some v | _ => None end.

(** The last of the range sets that holds [v] is the [i]-th. *)
Definition last_holding (sets : list actf_rng_set) (v : Z) (i : nat) : Prop :=
  (exists rs, sets !! i = Some rs /\ rng_mem rs v) /\
  forall j rs, (i < j)%nat -> sets !! j = Some rs -> ~ rng_mem rs v.

Definition rng_sets (opts : list (option string * actf_fld_cls * actf_rng_set)) : list actf_rng_set := map snd opts.

Lemma last_option_spec test v opts i0 found :
  Forall (fun rs => test rs = true <-> rng_mem rs v) (rng_sets opts) ->
  match last_option test opts i0 found with
  | Some i => (Some i = found /\ Forall (fun rs => ~ rng_mem rs v) (rng_sets opts)) \/
              (exists k, i = (i0 + k)%nat /\ last_holding (rng_sets opts) v k)
  | None => found = None /\ Forall (fun rs => ~ rng_mem rs v) (rng_sets opts)
  end.
Proof.
  revert i0 found. induction opts as [|[[nm c] rs] opts IH]; intros i0 found Hall; cbn [last_option].
  { destruct found; [left|]; split; (done || constructor). }
  cbn in Hall. inversion_clear Hall as [|? ? Hrs Hall']. specialize (IH (S i0) (if test rs then Some i0 else found) Hall').
  destruct (last_option test opts _ _) as [i|].
  - destruct IH as [[Hi Hno]|(k & -> & (rs' & Hk & Hm) & Hmax)].
    + destruct (test rs) eqn:Et.
      * right. exists 0%nat. injection Hi as ->. split; [lia|]. split; [exists rs; split; [done|by apply Hrs]|].
        intros [|j] rs' Hj Hl; [lia|]. cbn in Hl. rewrite Forall_lookup in Hno. by eapply Hno.
      * left. split; [done|]. cbn. constructor; [|done]. intros Hm. apply Hrs in Hm. congruence.
    + right. exists (S k). split; [lia|]. split; [by exists rs'|]. intros [|j] rs2 Hj Hl; [lia|].
      apply (Hmax j); [lia|done].
  - destruct IH as [Hf Hno]. destruct (test rs) eqn:Et; [done|]. split; [done|]. cbn. constructor; [|done].
    intros Hm. apply Hrs in Hm. congruence.
Qed.

(** The selector field, when the location is found. *)
Definition selector (lf : nat) (loc : actf_fld_loc) (val : addr) (d : actf_decoder) : option actf_fld :=
  match fst (locate lf loc val d) with Ok (Some b) => fetch d b | _ => None end.

Lemma locate_state lf loc val d : exists r, locate lf loc val d = (r, d).
Proof. unfold locate. destruct (fetch d val); by eexists. Qed.

(** Every test of a range set decides whether it holds the value. *)
Lemma last_option_decides test v opts : Forall (fun rs => test rs = true <-> rng_mem rs v) (rng_sets opts) ->
  match last_option test opts 0 None with
  | Some i => last_holding (rng_sets opts) v i
  | None => Forall (fun rs => ~ rng_mem rs v) (rng_sets opts)
  end.
Proof.
  intros H. pose proof (last_option_spec test v opts 0 None H) as Hl.
  destruct (last_option test opts 0 None) as [i|]; [|by destruct Hl]. destruct Hl as [[? _]|(k & -> & Hk)]; done.
Qed.

(** The field at the location is read. *)
Lemma selector_read {A} lf loc val d f (k : option addr -> st actf_decoder A) :
  selector lf loc val d = Some f -> exists b, (locate lf loc val ≫= k) d = k (Some b) d /\ read_fld b d = (Ok f, d).
Proof.
  unfold selector. destruct (locate_state lf loc val d) as [r Hloc]. rewrite Hloc. cbn. destruct r as [[b|]|rc|]; try done.
  intros Hf. exists b. rewrite (st_bind_ok _ _ _ _ _ Hloc). split; [done|]. unfold read_fld. by rewrite Hf.
Qed.

(** What a variant makes of its selector. *)
Definition variant_selects (opts : list (option string * actf_fld_cls * actf_rng_set)) (f : actf_fld) (r : outcome nat) : Prop :=
  match int_value f with
  | None => r = Err ACTF_WRONG_FLD_TYPE
  | Some v =>
      (exists i, last_holding (rng_sets opts) v i /\ r = Ok i) \/
      (Forall (fun rs => ~ rng_mem rs v) (rng_sets opts) /\ r = Err ACTF_NO_SELECTOR_FLD)
  end.

(** What an optional makes of its selector. *)
Definition optional_selects (rngs : actf_rng_set) (f : actf_fld) (r : outcome bool) : Prop :=
  match f_d f with
  | ACTF_FLD_TYPE_BOOL b => r = Ok b
  | _ =>
      if actf_rng_set_len rngs =? 0 then r = Err ACTF_NO_SELECTOR_FLD
      else match int_value f with
           | Some v => exists b, r = Ok b /\ (b = true <-> rng_mem rngs v)
           | None => r = Err ACTF_WRONG_FLD_TYPE
           end
  end.

Lemma variant_option_spec lf opts loc val d f :
  Forall rng_set_wf (rng_sets opts) -> selector lf loc val d = Some f -> in_range f ->
  exists r, variant_option lf opts loc val d = (r, d) /\ variant_selects opts f r.
Proof.
  intros Hwf Hsel Hr. unfold variant_option, variant_selects.
  match goal with |- context [locate _ _ _ ≫= ?k] => destruct (selector_read lf loc val d f k Hsel) as (b & -> & Hrd) end.
  rewrite (st_bind_ok _ _ _ _ _ Hrd). unfold in_range, int_value in *.
  destruct (f_d f) as [|bv|v|v n|v|v|p n|p n|vs n|vs]; try (by eexists).
  - pose proof (last_option_decides (fun r => actf_rng_set_intersect_sint r v) v opts) as Hl. unfold mbind, st_bind, mret, st_ret.
    destruct (last_option _ _ _ _); eexists; (split; [done|]); [left; eexists; split; [apply Hl|done]|right; split; [apply Hl|done]];
      (eapply Forall_impl; [exact Hwf|]); intros rs Hrs; by apply (rng_set_points rs Hrs).
  - pose proof (last_option_decides (fun r => actf_rng_set_intersect_uint r v) v opts) as Hl. unfold mbind, st_bind, mret, st_ret.
    destruct (last_option _ _ _ _); eexists; (split; [done|]); [left; eexists; split; [apply Hl|done]|right; split; [apply Hl|done]];
      (eapply Forall_impl; [exact Hwf|]); intros rs Hrs; by apply (rng_set_points rs Hrs).
Qed.

Lemma optional_enabled_spec lf rngs loc val d f :
  rng_set_wf rngs -> selector lf loc val d = Some f -> in_range f ->
  exists r, optional_enabled lf loc rngs val d = (r, d) /\ optional_selects rngs f r.
Proof.
  intros Hwf Hsel Hr. unfold optional_enabled, optional_selects.
  match goal with |- context [locate _ _ _ ≫= ?k] => destruct (selector_read lf loc val d f k Hsel) as (b & -> & Hrd) end.
  rewrite (st_bind_ok _ _ _ _ _ Hrd). unfold in_range, int_value in *. destruct (rng_set_points rngs Hwf) as [Hs Hu].
  destruct (f_d f) as [|bv|v|v n|v|v|p n|p n|vs n|vs]; try (by eexists);
    (destruct (actf_rng_set_len rngs =? 0); [by eexists|]); try (by eexists); eexists; (split; [done|]); eexists; (split; [done|]);
    [by apply Hs|by apply Hu].
Qed.

(** C35: When the selector of a variant or an optional is found, the decoder's state is
    left alone, and: a variant takes the last option whose ranges hold the value of
    an integer selector, [ACTF_NO_SELECTOR_FLD] when no option's ranges do, and
    [ACTF_WRONG_FLD_TYPE] for a boolean or any other selector; an optional is enabled
    exactly when a boolean selector is true, or the value of an integer one is in the
    optional's ranges; a selector that is not boolean is [ACTF_NO_SELECTOR_FLD] when
    the optional has no ranges, and one that is no integer either
    [ACTF_WRONG_FLD_TYPE] when it has. *)
Theorem selectors_correct lf loc val d f :
  selector lf loc val d = Some f -> in_range f ->
  (forall opts, Forall rng_set_wf (rng_sets opts) ->
     exists r, variant_option lf opts loc val d = (r, d) /\ variant_selects opts f r) /\
  (forall rngs, rng_set_wf rngs ->
     exists r, optional_enabled lf loc rngs val d = (r, d) /\ optional_selects rngs f r).
Proof. intros Hsel Hr. split; [intros opts Hw; by apply variant_option_spec|intros rngs Hw; by apply optional_enabled_spec]. Qed.

(** A payload whose first field is decoded and whose second one is a variant. *)
Definition tag_loc : actf_fld_loc := mk_fld_loc ACTF_FLD_LOC_ORIGIN_EVENT_PAYLOAD [Some "tag"%string].
Definition tag_opts : list (option string * actf_fld_cls * actf_rng_set) :=
  [(None, uint_fc 8 0, RNG_UINT [mk_urng 0 9]); (None, uint_fc 16 0, RNG_UINT [mk_urng 5 7]); (None, uint_fc 32 0, RNG_UINT [mk_urng 8 8])].
Definition tagged (tag : fld_d) : actf_decoder :=
  set_ev (Some (set_ev_prop ACTF_EVENT_PROP_PAYLOAD
    (mk_fld (Some (FC_STRUCT [("tag", uint_fc 8 0); ("v", FC_VARIANT tag_opts tag_loc)]%string 1 8)) None
       (ACTF_FLD_TYPE_STRUCT [mk_fld None None tag; nil_fld])) actf_event_init)) (actf_decoder_init [] 0).
Definition variant_addr : addr := mk_addr (REv ACTF_EVENT_PROP_PAYLOAD) [1%nat].

Example selectors_correct_witness :
  let d := tagged (ACTF_FLD_TYPE_UINT 6 0) in
  let f := mk_fld None None (ACTF_FLD_TYPE_UINT 6 0) in
  fst (variant_option 2 tag_opts tag_loc variant_addr d) = Ok 1%nat /\
  fst (optional_enabled 2 tag_loc (RNG_UINT []) variant_addr d) = Err ACTF_NO_SELECTOR_FLD /\
  (forall opts, Forall rng_set_wf (rng_sets opts) ->
     exists r, variant_option 2 opts tag_loc variant_addr d = (r, d) /\ variant_selects opts f r) /\
  (forall rngs, rng_set_wf rngs ->
     exists r, optional_enabled 2 tag_loc rngs variant_addr d = (r, d) /\ optional_selects rngs f r).
Proof.
  split; [vm_compute; reflexivity|]. split; [vm_compute; reflexivity|].
  apply (selectors_correct 2 tag_loc variant_addr (tagged (ACTF_FLD_TYPE_UINT 6 0)) (mk_fld None None (ACTF_FLD_TYPE_UINT 6 0))).
  - reflexivity.
  - unfold in_range, is_u64. cbn. lia.
Defined.
