(* ===== verification/DecoderPkt.v ===== *)
(** The header and context of a packet: what the decoder knows about a packet
    that it has accepted. *)
From S2P Require Import Prelude Common Breader Rng Generator HashMap Clock FldCls Metadata Fld Scalar Arena Decoder DecoderInv Samples.
From stdpp Require Import strings.
Open Scope Z_scope.

(** * What decoding a field leaves of the packet state *)

(** The place and class of the packet, the class id once the header is
    decoded, and all that is settled once the context is. *)
Definition pkt_key (c : dec_ctx) (p : pkt_state) : Z * option actf_dstream_cls * Z * option pkt_state :=
  (bit_off p, dsc_cls p, match c with DEC_CTX_PKT_HEADER => 0 | _ => dsc_cls_id p end,
   match c with DEC_CTX_PKT_HEADER | DEC_CTX_PKT_CTX => None | _ => Some (settled p) end).

Lemma pkt_key_last_bo c b p : pkt_key c (set_last_bo b p) = pkt_key c p.
Proof. unfold pkt_key. by rewrite settled_last_bo. Qed.

Section Key.
Context (md : actf_metadata) (pm em : nat -> Z -> bool) (lf : nat) (data : list Z).
Hypotheses (Hdata : Forall is_byte data) (Hsize : 8 * Z.of_nat (length data) <= 2 ^ 62).
Context (c : dec_ctx) (k : Z * option actf_dstream_cls * Z * option pkt_state).

Record keyed (d : actf_decoder) : Prop := {
  ky_br : br_ok data (br d); ky_ctx : ctx (dec_s d) = c; ky_key : pkt_key c (d_pkt_s d) = k
}.

Lemma upd_pkt_s_keyed f : (forall p, pkt_key c (f p) = pkt_key c p) -> keeps keyed (upd_pkt_s f).
Proof. intros Hf. apply keeps_modify. intros d []. split; try done. etransitivity; [apply Hf|done]. Qed.

Lemma upd_def_clk_keyed cls f : keeps keyed (upd_def_clk cls f).
Proof. intros d Hd. unfold upd_def_clk. case_match; [|done]. destruct Hd. by split. Qed.

Lemma upd_ev_s_keyed f : keeps keyed (upd_ev_s f).
Proof. intros d []. unfold upd_ev_s. case_match; by split. Qed.

Lemma read_fld_pure val d : snd (read_fld val d) = d.
Proof. unfold read_fld. by case_match. Qed.

Lemma handle_fld_roles_keyed roles cls val : keeps keyed (handle_fld_roles md roles cls val).
Proof.
  unfold handle_fld_roles. apply keeps_bind; [apply keeps_pure, read_fld_pure|]. intros f.
  intros d Hd. rewrite (st_bind_ok st_get _ d d d) by done. pose proof (ky_ctx _ Hd) as Hc. rewrite Hc. revert d Hd Hc.
  pose proof upd_pkt_s_keyed as Hupd. pose proof upd_def_clk_keyed as Hclk.
  destruct c; try done; intros d Hd _; revert d Hd;
    match goal with |- forall d, keyed d -> keyed (snd (?m d)) => change (keeps keyed m) end;
    repeat (apply keeps_bind; [|intros []]); apply when_role_keeps;
    try (apply Hupd; by intros []); try (by apply upd_ev_s_keyed).
  - case_match; [apply keeps_fail|apply keeps_ret].
  - case_match; try apply keeps_undef. apply keeps_bind; [|intros []; [apply keeps_fail|apply keeps_ret]].
    apply keeps_pure. intros s. unfold uuid_differs. by case_match.
  - apply keeps_bind; [apply Hclk|]. intros _. apply Hupd. by intros [].
  - apply keeps_bind; [apply Hclk|]. intros _. apply keeps_bind; [apply keeps_get|]. intros s. apply upd_ev_s_keyed.
Qed.

Lemma keyed_field_inv : field_inv md (fun _ => True) keyed.
Proof.
  split.
  - intros r h d _ []. destruct r as [p|p]; [destruct p; by split|by split].
  - intros p e d []. by split.
  - intros A m Hm d [].
    assert (HR : forall b p, pkt_key c p = k -> pkt_key c (set_last_bo b p) = k) by (intros b p <-; apply pkt_key_last_bo).
    pose proof (scalar_op_ok data _ m Hdata Hsize HR Hm (mk_cursor (br d) (d_pkt_s d)) (conj ky_br0 ky_key0)) as [H1 H2].
    unfold on_cur, st_zoom. destruct (m _) as [r cu]. by split.
  - apply handle_fld_roles_keyed.
Qed.

Lemma decode_prop_keyed cls r d :
  class_ok cls -> br_ok data (br d) -> pkt_key c (d_pkt_s d) = k ->
  let d' := snd (decode_prop md pm em lf c cls r d) in br_ok data (br d') /\ pkt_key c (d_pkt_s d') = k.
Proof.
  intros [->|Hwf] Hbr Hk; [done|]. unfold decode_prop.
  assert (H : keyed (snd (fld_cls_decode md pm em lf cls (mk_addr r []) (set_ctx c d)))).
  { apply (fld_cls_decode_keeps md pm em lf _ _ keyed_field_inv _ Hwf); [done|]. by split. }
  destruct cls; try done; rewrite (st_bind_ok (st_modify _) _ d tt (set_ctx c d)) by done; by destruct H.
Qed.
End Key.

(** ** The fields of the packet *)

Definition pkt_flds (d : actf_decoder) : actf_fld * actf_fld := (pkt_header_fld (pkt (dec_s d)), pkt_ctx_fld (pkt (dec_s d))).

(** Decoding in a root of the event leaves them. *)
Lemma pkt_flds_field_inv md k : field_inv md (fun r => match r with REv _ => True | RPkt _ => False end) (fun d => pkt_flds d = k).
Proof.
  assert (Hpkt : forall f, keeps (fun d => pkt_flds d = k) (upd_pkt_s f)) by (intros f d Hd; exact Hd).
  assert (Hev : forall f, keeps (fun d => pkt_flds d = k) (upd_ev_s f)) by (intros f d Hd; unfold upd_ev_s; by case_match).
  assert (Hclk : forall cls f, keeps (fun d => pkt_flds d = k) (upd_def_clk cls f)) by (intros cls f d Hd; unfold upd_def_clk; by case_match).
  split.
  - by intros [|p] h d.
  - done.
  - intros A m _ d Hd. unfold on_cur, st_zoom. by destruct (m _).
  - intros roles cls val. unfold handle_fld_roles. apply keeps_bind; [apply keeps_pure, read_fld_pure|]. intros f.
    apply keeps_bind; [apply keeps_get|]. intros d. destruct (ctx (dec_s d)); try apply keeps_ret;
      repeat (apply keeps_bind; [|intros []]); apply when_role_keeps; auto.
    + case_match; [apply keeps_fail|apply keeps_ret].
    + case_match; try apply keeps_undef. apply keeps_bind; [|intros []; [apply keeps_fail|apply keeps_ret]].
      apply keeps_pure. intros s. unfold uuid_differs. by case_match.
    + apply keeps_bind; [apply Hclk|auto].
    + apply keeps_bind; [apply Hclk|]. intros _. apply keeps_bind; [apply keeps_get|auto].
Qed.

(** The packets are the same but for what advances with the events. *)
Definition same_packet (p q : actf_pkt) : Prop :=
  guarded (pkt_s p) = guarded (pkt_s q) /\ pkt_header_fld p = pkt_header_fld q /\ pkt_ctx_fld p = pkt_ctx_fld q.

#[export] Instance same_packet_equiv : Equivalence same_packet.
Proof. unfold same_packet. split; [done|..]; [intros p q; intuition congruence|intros p q r; intuition congruence]. Qed.

Section Event.
Context (md : actf_metadata) (pm em : nat -> Z -> bool) (lf : nat) (data : list Z).
Hypotheses (Hdata : Forall is_byte data) (Hsize : 8 * Z.of_nat (length data) <= 2 ^ 62).
Context (d0 : actf_decoder).

(** The decoder in the packet of [d0]. *)
Definition at_packet (d : actf_decoder) : Prop :=
  br_ok data (br d) /\ pkt_key DEC_CTX_EVENT_HEADER (d_pkt_s d) = pkt_key DEC_CTX_EVENT_HEADER (d_pkt_s d0) /\ pkt_flds d = pkt_flds d0.

Lemma event_prop_at_packet c cls p :
  match c with DEC_CTX_PKT_HEADER | DEC_CTX_PKT_CTX => False | _ => True end -> class_ok cls ->
  keeps at_packet (decode_prop md pm em lf c cls (REv p)).
Proof.
  intros Hc Hcls d (H1 & H2 & H3).
  assert (Hf : pkt_flds (snd (decode_prop md pm em lf c cls (REv p) d)) = pkt_flds d0).
  { destruct Hcls as [->|Hwf]; [done|]. pose proof (fld_cls_decode_keeps md pm em lf _ _ (pkt_flds_field_inv md (pkt_flds d0)) _ Hwf (mk_addr (REv p) []) I (set_ctx c d) H3) as H.
    by destruct cls. }
  pose proof (decode_prop_keyed md pm em lf data Hdata Hsize c (pkt_key DEC_CTX_EVENT_HEADER (d_pkt_s d0)) cls (REv p) d Hcls H1) as Hk.
  destruct c; try done; destruct (Hk H2); done.
Qed.

(** Decoding an event leaves its packet. *)
Lemma ev_decode_at_packet :
  br_ok data (br d0) -> (forall dsc, dsc_cls (d_pkt_s d0) = Some dsc -> dsc_wf dsc) ->
  same_packet (pkt (dec_s (snd (actf_decoder_ev_decode md pm em lf d0)))) (pkt (dec_s d0)).
Proof.
  intros Hbr Hw. assert (H0 : at_packet (set_ev (Some actf_event_init) d0)) by done.
  assert (HI : at_packet (snd (actf_decoder_ev_decode md pm em lf d0))).
  { unfold actf_decoder_ev_decode. rewrite (st_bind_ok (st_modify _) _ d0 tt (set_ev (Some actf_event_init) d0)) by done.
    unfold get_dsc. unfold mbind at 1, st_bind at 1. change (dsc_cls (d_pkt_s (set_ev _ d0))) with (dsc_cls (d_pkt_s d0)).
    destruct (dsc_cls (d_pkt_s d0)) as [dsc|] eqn:Ed; [|done]. specialize (Hw dsc eq_refl).
    revert H0. generalize (set_ev (Some actf_event_init) d0).
    match goal with |- forall d, at_packet d -> at_packet (snd (?m d)) => change (keeps at_packet m) end.
    apply keeps_bind; [apply event_prop_at_packet; [done|apply Hw]|]. intros _. apply keeps_bind; [apply keeps_get|]. intros d2.
    destruct (ev (dec_s d2)) as [e|]; [|apply keeps_undef]. unfold lift_outcome, mbind at 1, st_bind at 1. intros d3 H3.
    destruct (u64toevc_find _ _) as [[evc|]|rc|] eqn:Ef; [|done..]. destruct (dw_evcs _ Hw _ _ Ef). revert d3 H3.
    match goal with |- forall d, at_packet d -> at_packet (snd (?m d)) => change (keeps at_packet m) end.
    repeat (apply keeps_bind; [|intros _]); [by intros d ?|apply event_prop_at_packet; (done || apply Hw)..]. }
  destruct HI as (_ & Hk & Hf). unfold pkt_key in Hk. unfold pkt_flds in Hf. unfold same_packet, d_pkt_s in *.
  split; [apply settled_guarded|split]; congruence.
Qed.
End Event.

(** * Accepted packets *)

(** The packet starts at [off] and is of the class that its id has; its content
    is inside it. *)
Record accepted (md : actf_metadata) (off : Z) (p : pkt_state) (dsc : actf_dstream_cls) : Prop := {
  ac_off : bit_off p = off;
  ac_cls : dsc_cls p = Some dsc;
  ac_id : u64todsc_find (idtodsc md) (dsc_cls_id p) = Ok (Some dsc);
  ac_len : pkt_ctx dsc <> FC_NIL -> content_len p <= tot_len p
}.

Lemma complete_lens_key p : pkt_key DEC_CTX_PKT_CTX (complete_lens p) = pkt_key DEC_CTX_PKT_CTX p.
Proof. unfold complete_lens. destruct p; cbn. by repeat case_match. Qed.

(** A packet whose header and context decode without an error starts where
    the reader was before; its data stream class is the one that its class id has in
    the metadata; and when it has a context, its content is not longer than the
    packet.  That these are the id and the lengths in the data is part of
    [StreamRefine]. *)
Theorem pkt_hdrctx_accepts md pm em lf data d d' :
  Forall is_byte data -> 8 * Z.of_nat (length data) <= 2 ^ 62 -> metadata_wf md -> br_ok data (br d) ->
  actf_decoder_pkt_hdrctx_decode md pm em lf d = (Ok tt, d') ->
  exists dsc, accepted md (tot_bit_cnt (br d)) (d_pkt_s d') dsc.
Proof.
  intros Hd Hs Hm Hbr. unfold actf_decoder_pkt_hdrctx_decode. rewrite (st_bind_ok st_get _ d d d) by done.
  unfold dec_state_init. match goal with |- context [st_modify ?f] => set (d1 := f d); rewrite (st_bind_ok (st_modify f) _ d tt d1) by done end.
  pose proof (decode_prop_keyed md pm em lf data Hd Hs DEC_CTX_PKT_HEADER (tot_bit_cnt (br d), None, 0, None) (pkt_hdr (trace_cls md))
    (RPkt ACTF_PKT_PROP_HEADER) d1 (mw_hdr _ Hm) Hbr eq_refl) as [Hbr2 Hk2].
  unfold mbind at 1, st_bind at 1. destruct (decode_prop _ _ _ _ _ _ _ d1) as [[[]|rc|] d2]; [|done|done]. cbn in Hbr2, Hk2.
  injection Hk2 as Hoff2 _. rewrite (st_bind_ok st_get _ d2 d2 d2) by done. unfold lift_outcome. unfold mbind at 1, st_bind at 1.
  destruct (u64todsc_find _ _) as [[dsc|]|rc|] eqn:Ef; try done. pose proof (mw_dscs _ Hm _ _ Ef) as Hw.
  unfold upd_pkt_s. match goal with |- context [st_modify ?f ≫= _] => set (d3 := f d2); rewrite (st_bind_ok (st_modify f) _ d2 tt d3) by done end.
  assert (Hacc : forall c p, c <> DEC_CTX_PKT_HEADER -> pkt_key c p = pkt_key c (d_pkt_s d3) ->
    (pkt_ctx dsc <> FC_NIL -> content_len p <= tot_len p) -> accepted md (tot_bit_cnt (br d)) p dsc).
  { intros c p Hc Hk Hl. assert (Ei : dsc_cls_id p = dsc_cls_id (d_pkt_s d2)) by (destruct c; by injection Hk).
    injection Hk as E1 E2 _. split; [by rewrite E1|by rewrite E2|by rewrite Ei|done]. }
  pose proof (decode_prop_keyed md pm em lf data Hd Hs DEC_CTX_PKT_CTX _ (pkt_ctx dsc) (RPkt ACTF_PKT_PROP_CTX) d3
    (dw_ctx _ Hw) Hbr2 eq_refl) as [_ Hk4].
  intros E. exists dsc. apply (Hacc DEC_CTX_PKT_CTX); [done| |]; destruct (pkt_ctx dsc) eqn:Ep; try (by injection E as <-);
    unfold mbind at 1, st_bind at 1 in E; destruct (decode_prop _ _ _ _ _ _ _ d3) as [[[]|rc|] d4]; try done; cbn in Hk4;
    unfold mbind, st_bind, st_modify, st_get in E; destruct (Z.gtb_spec (content_len (d_pkt_s (set_pkt_s (complete_lens (d_pkt_s d4)) d4)))
      (tot_len (d_pkt_s (set_pkt_s (complete_lens (d_pkt_s d4)) d4)))); try done; injection E as <-.
  all: try (intros _; done). all: (etransitivity; [apply complete_lens_key|exact Hk4]).
Qed.

Example pkt_hdrctx_accepts_witness :
  let d := actf_decoder_init two_pkts 0 in
  let d' := snd (actf_decoder_pkt_hdrctx_decode md0 malloc_yes malloc_yes 4 d) in
  content_len (d_pkt_s d') = 32 /\ exists dsc, accepted md0 (tot_bit_cnt (br d)) (d_pkt_s d') dsc.
Proof.
  split; [vm_compute; reflexivity|].
  apply (pkt_hdrctx_accepts md0 malloc_yes malloc_yes 4 two_pkts (actf_decoder_init two_pkts 0)).
  - by apply bytes_ok.
  - vm_compute. discriminate.
  - apply md0_wf.
  - apply breader_init_ok.
  - vm_compute. reflexivity.
Defined.
