(* ===== verification/StreamSim.v ===== *)
(** A stream can be entered at any packet.

    The specification carries a byte order from field to field, and from packet to
    packet the state of the packet before, some of whose members are not reset.  Neither
    matters: a byte order only inside a byte that was begun in it, and those members only
    with the flag that is set with them.  [sim] relates two programs of the
    specification that have the same results from states that differ in no other way;
    every field, event and packet is related to itself.  So what a stream gives from a
    packet on does not depend on what was read before. *)
From S2P Require Import Prelude Common Breader Rng Generator HashMap Clock FldCls Metadata Fld Scalar Arena Decoder DecoderInv DecoderSpec FieldSpec StreamSpec DecoderPkt.
From stdpp Require Import strings.
Open Scope Z_scope.

(** * Programs that give the same *)

Section Sim.
Context {S : Type}.

(** From states in [P] the outcomes are the same, and the states then in [Q]. *)
Definition sim {A} (P Q : S -> S -> Prop) (m n : st S A) : Prop := forall s t, P s t ->
  match m s, n t with
  | (Ok a, s'), (Ok b, t') => a = b /\ Q s' t'
  | (Err rc, _), (Err rc', _) => rc = rc'
  | (Undef, _), (Undef, _) => True
  | _, _ => False
  end.

Lemma sim_ret {A} (a : A) P : sim P P (mret a) (mret a).
Proof. by intros s t H. Qed.
Lemma sim_fail {A} rc P Q : sim P Q (st_fail (A := A) rc) (st_fail rc).
Proof. by intros s t H. Qed.
Lemma sim_undef {A} P Q : sim P Q (st_undef (A := A)) st_undef.
Proof. by intros s t H. Qed.
Lemma sim_bind {A B} P Q R (m n : st S A) (k l : A -> st S B) : sim P Q m n -> (forall a, sim Q R (k a) (l a)) -> sim P R (m ≫= k) (n ≫= l).
Proof.
  intros Hm Hk s t H. specialize (Hm s t H). unfold mbind, st_bind.
  destruct (m s) as [[a|rc|] s1], (n t) as [[b|rc'|] t1]; try done. destruct Hm as [<- H1]. exact (Hk a s1 t1 H1).
Qed.
Lemma sim_get {A} P Q (k l : S -> st S A) : (forall s t, P s t -> sim (fun s' t' => s' = s /\ t' = t) Q (k s) (l t)) -> sim P Q (st_get ≫= k) (st_get ≫= l).
Proof. intros H s t Hst. exact (H s t Hst s t (conj eq_refl eq_refl)). Qed.
Lemma sim_put P s t (Q : S -> S -> Prop) : Q s t -> sim P Q (st_put s) (st_put t).
Proof. by intros H x y _. Qed.
Lemma sim_modify (P Q : S -> S -> Prop) h : (forall s t, P s t -> Q (h s) (h t)) -> sim P Q (st_modify h) (st_modify h).
Proof. intros Hh s t H. split; [done|by apply Hh]. Qed.
Lemma sim_ext {A} P Q (m n : st S A) : (forall s, m s = n s) -> sim P Q n n -> sim P Q m m.
Proof. intros E H s t Hst. rewrite !E. by apply H. Qed.
Lemma sim_weaken {A} (P P' Q Q' : S -> S -> Prop) (m n : st S A) :
  (forall s t, P' s t -> P s t) -> (forall s t, Q s t -> Q' s t) -> sim P Q m n -> sim P' Q' m n.
Proof.
  intros HP HQ Hm s t H. specialize (Hm s t (HP s t H)). destruct (m s) as [[a|rc|] s1], (n t) as [[b|rc'|] t1]; try done.
  destruct Hm. split; [done|by apply HQ].
Qed.
End Sim.

(** * The state of a packet *)

(** What is read of it is the same, and its class is well-formed. *)
Record like_pkt (p q : pkt_state) : Prop := {
  lp_off : bit_off p = bit_off q;
  lp_clk : pkt_def_clk_val p = pkt_def_clk_val q;
  lp_begin : begin_def_clk_val p = begin_def_clk_val q;
  lp_cls : dsc_cls p = dsc_cls q;
  lp_wf : forall dsc, dsc_cls p = Some dsc -> dsc_wf dsc;
  lp_id : dsc_cls_id p = dsc_cls_id q;
  lp_content : content_len p = content_len q;
  lp_tot : tot_len p = tot_len q;
  lp_flags : opt_flags p = opt_flags q;
  lp_disc : has_flag p PKT_DISC_ER_SNAP = true -> disc_er_snap p = disc_er_snap q;
  lp_ds : has_flag p PKT_DSTREAM_ID = true -> ds_id p = ds_id q;
  lp_bo : has_flag p PKT_LAST_BO = true -> last_bo p = last_bo q;
  lp_end : has_flag p PKT_END_DEF_CLK_VAL = true -> end_def_clk_val p = end_def_clk_val q;
  lp_seq : has_flag p PKT_SEQ_NUM = true -> seq_num p = seq_num q
}.

Lemma like_flag p q f : like_pkt p q -> has_flag p f = has_flag q f.
Proof. intros H. unfold has_flag. by rewrite (lp_flags _ _ H). Qed.

(** A new packet keeps members whose flags it clears. *)
Lemma like_init p q : like_pkt (pkt_state_init p) (pkt_state_init q).
Proof. by split. Qed.

(** Setting a flag sets only that flag. *)
Lemma has_flag_set p f g : has_flag (set_flag f p) g = has_flag p g || c_true (Z.land f g).
Proof.
  unfold has_flag, set_flag, c_true. cbn. rewrite Z.land_lor_distr_l.
  destruct (Z.eqb_spec (Z.lor (Z.land (opt_flags p) g) (Z.land f g)) 0) as [E|E].
  - apply Z.lor_eq_0_iff in E as [-> ->]. done.
  - destruct (Z.eqb_spec (Z.land (opt_flags p) g) 0) as [E1|], (Z.eqb_spec (Z.land f g) 0) as [E2|]; try done. by rewrite E1, E2 in E.
Qed.

Definition stable (h : pkt_state -> pkt_state) : Prop := forall p q, like_pkt p q -> like_pkt (h p) (h q).

Lemma stable_compose h g : stable h -> stable g -> stable (fun p => h (g p)).
Proof. intros Hh Hg p q H. by apply Hh, Hg. Qed.

(** Members that no flag guards. *)
Lemma stable_bit_off v : stable (set_bit_off v).
Proof. by intros p q []. Qed.
Lemma stable_def_clk v : stable (set_def_clk v).
Proof. by intros p q []. Qed.
Lemma stable_begin_clk v : stable (set_begin_clk v).
Proof. by intros p q []. Qed.
Lemma stable_dsc_id v : stable (set_dsc_id v).
Proof. by intros p q []. Qed.
Lemma stable_content_len v : stable (set_content_len v).
Proof. by intros p q []. Qed.
Lemma stable_tot_len v : stable (set_tot_len v).
Proof. by intros p q []. Qed.

(** Members with their flags. *)
Ltac flagged :=
  intros p q []; split; cbn; try done; try congruence;
  match goal with
  | |- has_flag (set_flag ?f ?x) ?g = true -> _ => rewrite (has_flag_set x f g); cbn; rewrite ?orb_false_r; auto
  | |- has_flag (set_last_bo ?b ?x) ?g = true -> _ => change (has_flag (set_last_bo b x) g) with (has_flag (set_flag PKT_LAST_BO x) g); rewrite (has_flag_set x PKT_LAST_BO g); cbn; rewrite ?orb_false_r; auto
  end.
Lemma stable_ds_id v : stable (fun p => set_flag PKT_DSTREAM_ID (set_ds_id v p)).
Proof. flagged. Qed.
Lemma stable_disc v : stable (fun p => set_flag PKT_DISC_ER_SNAP (set_disc_er_snap v p)).
Proof. flagged. Qed.
Lemma stable_end_clk v : stable (fun p => set_flag PKT_END_DEF_CLK_VAL (set_end_clk v p)).
Proof. flagged. Qed.
Lemma stable_seq_num v : stable (fun p => set_flag PKT_SEQ_NUM (set_seq_num v p)).
Proof. flagged. Qed.
Lemma stable_dsc_cls dsc : dsc_wf dsc -> stable (fun p => set_flag PKT_DSTREAM_CLS (set_dsc_cls (Some dsc) p)).
Proof. intros Hw. flagged. Qed.
Lemma stable_last_bo b : stable (set_last_bo b).
Proof. flagged. Qed.

Lemma stable_complete_lens : stable complete_lens.
Proof.
  intros p q H. unfold complete_lens. rewrite (lp_tot _ _ H), (lp_content _ _ H).
  assert (H' : like_pkt (if (tot_len q =? UINT64_MAX) && negb (content_len q =? UINT64_MAX) then set_tot_len (content_len q) p else p)
    (if (tot_len q =? UINT64_MAX) && negb (content_len q =? UINT64_MAX) then set_tot_len (content_len q) q else q)) by (case_match; [by apply stable_tot_len|done]).
  revert H'. generalize (if (tot_len q =? UINT64_MAX) && negb (content_len q =? UINT64_MAX) then set_tot_len (content_len q) p else p).
  generalize (if (tot_len q =? UINT64_MAX) && negb (content_len q =? UINT64_MAX) then set_tot_len (content_len q) q else q).
  intros q' p' H'. rewrite (lp_tot _ _ H'), (lp_content _ _ H'). case_match; [by apply stable_content_len|done].
Qed.
Create HintDb stable.
#[export] Hint Resolve stable_bit_off stable_def_clk stable_begin_clk stable_dsc_id stable_content_len stable_tot_len stable_ds_id stable_disc
  stable_end_clk stable_seq_num stable_dsc_cls stable_last_bo stable_complete_lens : stable.

(** * Cursors *)

(** The same data at the same position, in packets that are alike. *)
Record like_cur (a b : acur) : Prop := {
  lc_mem : ac_mem a = ac_mem b; lc_pos : ac_pos a = ac_pos b; lc_pkt : like_pkt (ac_pkt a) (ac_pkt b)
}.
(** Before a length of the packet is read. *)
Definition lens_open (p : pkt_state) : Prop := tot_len p = UINT64_MAX /\ content_len p = UINT64_MAX.
(** In the same byte order; or between two bytes, before a length of the packet is read,
    by which the position could move into a byte. *)
Definition same_bo (a b : acur) : Prop := like_cur a b /\ ac_bo a = ac_bo b.
Definition same_cur (a b : acur) : Prop := like_cur a b /\ (ac_bo a = ac_bo b \/ ac_pos a mod 8 = 0 /\ lens_open (ac_pkt a)).

Lemma same_bo_cur a b : same_bo a b -> same_cur a b.
Proof. intros [H Hb]. split; [done|by left]. Qed.
Lemma like_end a b : like_cur a b -> ac_end a = ac_end b.
Proof. intros [_ _ []]. unfold ac_end. congruence. Qed.
Lemma like_bits a b : like_cur a b -> ac_bits a = ac_bits b.
Proof. intros []. unfold ac_bits. congruence. Qed.
Lemma like_move p a b : like_cur a b -> like_cur (ac_move p a) (ac_move p b).
Proof. by intros []. Qed.

Lemma bo_align al : sim same_bo same_bo (s_align al) (s_align al).
Proof.
  intros a b [H Hb]. unfold s_align. rewrite (lc_pos _ _ H), (like_bits _ _ H), (like_end _ _ H).
  destruct (_ >? _); [done|]. split; [done|]. split; [by apply like_move|done].
Qed.

Lemma round_up_byte x k n : 0 <= k -> x mod 8 = 0 -> Z.min (round_up x (2 ^ k)) (8 * n) mod 8 = 0.
Proof.
  intros Hk Hx. assert (Hr : round_up x (2 ^ k) mod 8 = 0).
  { unfold round_up. destruct (Z.le_gt_cases k 3) as [Hl|Hl].
    - assert (Hd : x mod 2 ^ k = 0).
      { apply Z.mod_divide in Hx; [|done]. apply Z.mod_divide; [lia|]. etransitivity; [|exact Hx]. exists (2 ^ (3 - k)).
        rewrite <- Z.pow_add_r by lia. by replace (3 - k + k) with 3 by lia. }
      apply Z.mod_divide in Hd as [q ->]; [|lia]. pose proof (pow2_pos k Hk).
      replace (q * 2 ^ k + 2 ^ k - 1) with (2 ^ k - 1 + q * 2 ^ k) by lia.
      by rewrite Z.div_add, Z.div_small, Z.add_0_l by lia.
    - apply Z.mod_divide; [done|]. apply Z.divide_mul_r. exists (2 ^ (k - 3)). change 8 with (2 ^ 3). rewrite <- Z.pow_add_r by lia.
      by replace (k - 3 + 3) with k by lia. }
  destruct (Z.min_spec (round_up x (2 ^ k)) (8 * n)) as [[_ ->]|[_ ->]]; zlia.
Qed.

Lemma cur_align k : 0 <= k -> sim same_cur same_cur (s_align (2 ^ k)) (s_align (2 ^ k)).
Proof.
  intros Hk a b [H Hb]. unfold s_align. rewrite (lc_pos _ _ H), (like_bits _ _ H), (like_end _ _ H).
  destruct (_ >? _); [done|]. split; [done|]. split; [by apply like_move|]. destruct Hb as [Hb|[Hb Ho]]; [by left|right].
  rewrite (lc_pos _ _ H) in Hb. split; [|done]. cbn. unfold ac_bits. by apply round_up_byte.
Qed.

(** A reader chooses its byte order, which it can between two bytes. *)
Lemma cur_switch o : sim same_cur same_bo (s_switch o) (s_switch o).
Proof.
  intros a b [H Hb]. unfold s_switch. rewrite <- (lc_pos _ _ H).
  assert (E : bool_decide (ac_bo a = o) || (ac_pos a mod 8 =? 0) = bool_decide (ac_bo b = o) || (ac_pos a mod 8 =? 0)).
  { destruct Hb as [->|[Hb _]]; [done|]. apply Z.eqb_eq in Hb. rewrite Hb. by rewrite !orb_true_r. }
  rewrite E. clear E. destruct (_ || _); [|done]. split; [done|]. split; [|done]. by destruct H.
Qed.

Lemma sim_fxd x : sim same_cur same_bo (s_fxd x) (s_fxd x).
Proof.
  unfold s_fxd. eapply sim_bind; [apply cur_switch|]. intros []. eapply sim_bind; [apply bo_align|]. intros [].
  apply sim_get. intros a b [H Hb]. pose proof (lc_pkt _ _ H) as Hp. rewrite <- (lc_pos _ _ H), <- (like_bits _ _ H), <- (like_end _ _ H), <- (lc_mem _ _ H), <- (like_flag _ _ PKT_LAST_BO Hp), <- Hb.
  destruct (_ <? _); [apply sim_fail|].
  assert (E : has_flag (ac_pkt a) PKT_LAST_BO && negb (bool_decide (last_bo (ac_pkt a) = bo x)) = has_flag (ac_pkt a) PKT_LAST_BO && negb (bool_decide (last_bo (ac_pkt b) = bo x))).
  { destruct (has_flag (ac_pkt a) PKT_LAST_BO) eqn:Ef; [|done]. by rewrite (lp_bo _ _ Hp Ef). }
  rewrite E. clear E. destruct (_ && negb (_ =? 0)); [apply sim_fail|]. destruct (_ <? _); [apply sim_fail|].
  eapply sim_bind; [apply sim_put|intros []; apply sim_ret]. split; [|done]. split; [done..|]. by apply stable_last_bo.
Qed.

Lemma sim_var_len : sim same_cur same_bo s_var_len s_var_len.
Proof.
  unfold s_var_len. eapply sim_bind; [apply cur_switch|]. intros []. eapply sim_bind; [apply bo_align|]. intros [].
  apply sim_get. intros a b [H Hb]. rewrite <- (lc_pos _ _ H), <- (like_end _ _ H), <- (lc_mem _ _ H). cbv zeta.
  destruct (_ && _); [apply sim_undef|]. destruct (_ && _); [|apply sim_fail].
  eapply sim_bind; [apply sim_put|intros []; apply sim_ret]. split; [by apply like_move|done].
Qed.

(** Bytes are read from a byte on. *)
Lemma same_move p a b : same_cur a b -> (ac_pos a mod 8 = 0 -> p mod 8 = 0) -> same_cur (ac_move p a) (ac_move p b).
Proof. intros [H Hb] Hp. split; [by apply like_move|]. destruct Hb as [|[]]; auto. Qed.

Lemma sim_bytes n : sim same_cur same_cur (s_bytes n) (s_bytes n).
Proof.
  unfold s_bytes. apply sim_get. intros a b H. destruct (_ <=? _); [apply sim_undef|]. pose proof H as [Hl _].
  rewrite <- (lc_pos _ _ Hl), <- (like_bits _ _ Hl), <- (like_end _ _ Hl). destruct (_ || _); [apply sim_fail|].
  eapply sim_bind; [apply sim_put|intros []; apply sim_ret]. apply same_move; [done|]. zlia.
Qed.

Lemma sim_find_null ptr n enc : sim same_cur same_cur (s_find_null ptr n enc) (s_find_null ptr n enc).
Proof. intros a b H. unfold s_find_null. rewrite (lc_mem _ _ (proj1 H)). by destruct (find_null_term _ _ _ _). Qed.

Lemma sim_str enc n : sim same_cur same_cur (s_str enc n) (s_str enc n).
Proof.
  unfold s_str. eapply sim_bind; [by apply (cur_align 3)|]. intros []. eapply sim_bind; [apply sim_bytes|]. intros ptr.
  eapply sim_bind; [apply sim_find_null|]. intros [t|]; [apply sim_ret|]. destruct (is_valid_str_sz _ _); [apply sim_ret|apply sim_fail].
Qed.

Lemma sim_blob n : sim same_cur same_cur (s_blob n) (s_blob n).
Proof. unfold s_blob. eapply sim_bind; [by apply (cur_align 3)|]. intros []. apply sim_bytes. Qed.

Lemma sim_null_term_str enc : sim same_cur same_cur (s_null_term_str enc) (s_null_term_str enc).
Proof.
  unfold s_null_term_str. eapply sim_bind; [by apply (cur_align 3)|]. intros []. apply sim_get. intros a b H. pose proof H as [Hl _].
  rewrite <- (lc_pos _ _ Hl), <- (like_bits _ _ Hl), <- (like_end _ _ Hl). destruct (_ <? _); [apply sim_fail|]. cbv zeta.
  eapply (sim_weaken same_cur _ same_cur); [by intros s t [-> ->]|done|].
  eapply sim_bind; [apply sim_find_null|]. intros [t|]; [|apply sim_fail].
  destruct (_ || _); [apply sim_undef|]. eapply sim_bind; [apply sim_put|intros []; apply sim_ret].
  apply same_move; [done|]. zlia.
Qed.

Lemma sim_leaf cls : sim same_cur same_cur (s_leaf cls) (s_leaf cls).
Proof.
  assert (Hf : forall (A : Type) x (k : Z -> st acur A), (forall v, sim same_bo same_cur (k v) (k v)) -> sim same_cur same_cur (s_fxd x ≫= k) (s_fxd x ≫= k)).
  { intros A x k Hk. eapply sim_bind; [apply sim_fxd|exact Hk]. }
  assert (Hr : forall (A : Type) (v : A), sim same_bo same_cur (mret v) (mret v)).
  { intros A v. exact (sim_weaken same_bo _ same_bo _ _ _ ltac:(done) same_bo_cur (sim_ret v same_bo)). }
  destruct cls; cbn [s_leaf]; try apply sim_undef; try (apply Hf; intros v; apply Hr).
  - apply Hf. intros v. destruct (_ || _); [apply Hr|apply sim_fail].
  - eapply sim_bind; [apply sim_var_len|]. intros [v w]. apply Hr.
  - eapply sim_bind; [apply sim_var_len|]. intros [v w]. apply Hr.
  - eapply sim_bind; [apply sim_null_term_str|]. intros [v w]. apply sim_ret.
  - eapply sim_bind; [apply sim_str|]. intros [v w]. apply sim_ret.
  - eapply sim_bind; [apply sim_blob|]. intros v. apply sim_ret.
Qed.

(** * Fields *)

Definition same_state (s t : sst) : Prop := same_cur (ss_cur s) (ss_cur t) /\ ss_ev s = ss_ev t.
Definition same_bo_state (s t : sst) : Prop := same_bo (ss_cur s) (ss_cur t) /\ ss_ev s = ss_ev t.
Notation sims m := (sim same_state same_state m m).
Notation sims_bo m := (sim same_bo_state same_bo_state m m).

Lemma same_bo_state_cur s t : same_bo_state s t -> same_state s t.
Proof. intros [H He]. split; [by apply same_bo_cur|done]. Qed.

Lemma sim_acur {A} P Q (m : st acur A) : sim P Q m m ->
  sim (fun s t => P (ss_cur s) (ss_cur t) /\ ss_ev s = ss_ev t) (fun s t => Q (ss_cur s) (ss_cur t) /\ ss_ev s = ss_ev t) (on_acur m) (on_acur m).
Proof.
  intros Hm s t [Hc He]. specialize (Hm _ _ Hc). unfold on_acur, st_zoom.
  destruct (m (ss_cur s)) as [[a|rc|] a1], (m (ss_cur t)) as [[b|rc'|] b1]; try done. destruct Hm. by split.
Qed.

(** An update of the packet. *)
Definition upd_cur (h : pkt_state -> pkt_state) (a : acur) : acur := mk_acur (ac_mem a) (ac_bo a) (ac_pos a) (h (ac_pkt a)).
Lemma like_upd h a b : stable h -> like_cur a b -> like_cur (upd_cur h a) (upd_cur h b).
Proof. intros Hh [Hm Hp Hl]. split; [done..|by apply Hh]. Qed.
Lemma bo_upd_pkt h : stable h -> sims_bo (s_upd_pkt h).
Proof. intros Hh. apply (sim_acur same_bo same_bo), sim_modify. intros a b [H Hb]. split; [by apply (like_upd h)|done]. Qed.
Lemma sim_upd_pkt h : stable h -> (forall p, lens_open p -> lens_open (h p)) -> sims (s_upd_pkt h).
Proof.
  intros Hh Ho. apply (sim_acur same_cur same_cur), sim_modify. intros a b [H Hb]. split; [by apply (like_upd h)|].
  destruct Hb as [Hb|[Hb Hl]]; [by left|right]. split; [done|by apply Ho].
Qed.
Lemma bo_upd_ev h : sims_bo (s_upd_ev h).
Proof. intros s t [Hc He]. unfold s_upd_ev. rewrite He. destruct (ss_ev t); [|done]. by split; [|split]. Qed.
Lemma sim_uint64 P f : sim P P (s_uint64 f) (s_uint64 f).
Proof. unfold s_uint64. cbv zeta. destruct (_ && _); [apply sim_ret|apply sim_undef]. Qed.

Lemma sim_upd_ev h : sims (s_upd_ev h).
Proof. intros s t [Hc He]. unfold s_upd_ev. rewrite He. destruct (ss_ev t); [|done]. by split; [|split]. Qed.

(** A read of the state that both agree on. *)
Lemma sim_read {S A} (P Q : S -> S -> Prop) (k : S -> st S A) :
  (forall s t, P s t -> k s = k t) -> (forall s, sim P Q (k s) (k s)) -> sim P Q (st_get ≫= k) (st_get ≫= k).
Proof. intros Hk Hs s t H. unfold mbind, st_bind, st_get. rewrite <- (Hk s t H). by apply Hs. Qed.

Lemma same_pkt_of s t : same_state s t -> like_pkt (ac_pkt (ss_cur s)) (ac_pkt (ss_cur t)).
Proof. by intros [[[] _] _]. Qed.

Lemma sim_magic P cls f : sim P P (s_magic cls f) (s_magic cls f).
Proof. unfold s_magic. destruct (_ =? _); [apply sim_ret|apply sim_fail]. Qed.
Lemma sim_uuid md (P : sst -> sst -> Prop) cls f : (forall s t, P s t -> ac_mem (ss_cur s) = ac_mem (ss_cur t)) -> sim P P (s_uuid md cls f) (s_uuid md cls f).
Proof.
  intros HP. apply sim_read; [intros s t H; by rewrite (HP _ _ H)|]. intros s. destruct (f_d f); try apply sim_undef.
  destruct (_ || _); [apply sim_undef|]. destruct (bool_decide _); [apply sim_ret|apply sim_fail].
Qed.

Section Spec.
Context (md : actf_metadata) (lf : nat).

(** Roles, for a field that is read in a known byte order or that is no number. *)
Lemma sim_roles_by P c cls f :
  (forall s t, P s t -> same_state s t) ->
  (forall h, (forall v, stable (h v)) -> (forall p, lens_open p -> lens_open (h UINT64_MAX p)) -> sim P P (s_set h cls f) (s_set h cls f)) ->
  (forall h, stable h -> (forall p, lens_open p -> lens_open (h p)) -> sim P P (s_upd_pkt h) (s_upd_pkt h)) ->
  (forall h, sim P P (s_upd_ev h) (s_upd_ev h)) -> sim P P (s_roles md c cls f) (s_roles md c cls f).
Proof.
  intros HP Hset Hupd Hev.
  assert (Hclk : sim P P (s_clock cls f) (s_clock cls f)).
  { apply sim_read; [intros s t H%HP; by rewrite (lp_clk _ _ (same_pkt_of _ _ H))|]. intros s.
    destruct (calc_new_def_clk_val _ _ _); [|apply sim_undef]. eapply sim_bind; [apply Hupd; auto with stable|intros []; apply sim_ret]. }
  assert (Ht : Forall (fun e => sim P P (snd e cls f) (snd e cls f)) (role_table md c)).
  { destruct c; cbn [role_table]; repeat constructor; cbn [snd]; try (apply Hset; auto with stable; by intros p []).
    - apply sim_magic.
    - apply sim_uuid. intros s t H%HP. apply H.
    - eapply sim_bind; [apply Hclk|]. intros v. apply Hupd; auto with stable.
    - eapply sim_bind; [apply sim_uint64|]. intros v. apply Hev.
    - eapply sim_bind; [apply Hclk|]. intros v. apply Hev. }
  unfold s_roles. induction Ht as [|e t He _ IH]; [apply sim_ret|]. cbn [s_each_role]. eapply sim_bind; [|by intros []].
  unfold s_role. destruct (has_role _ _); [exact He|apply sim_ret].
Qed.

Lemma bo_roles c cls f : sims_bo (s_roles md c cls f).
Proof.
  apply sim_roles_by; [apply same_bo_state_cur| |by intros h Hh _; apply bo_upd_pkt|apply bo_upd_ev].
  intros h Hh _. eapply sim_bind; [apply sim_uint64|]. intros v. by apply bo_upd_pkt.
Qed.
Lemma blob_roles c cls f : actf_fld_uint64 f = UINT64_MAX -> sims (s_roles md c cls f).
Proof.
  intros Hf. apply sim_roles_by; [done| |by apply sim_upd_pkt|apply sim_upd_ev].
  intros h Hh Ho. unfold s_set, s_uint64. rewrite Hf. exact (sim_upd_pkt (h UINT64_MAX) (Hh _) Ho).
Qed.

Lemma sim_locate V loc parent : sims (s_locate lf V loc parent).
Proof.
  unfold s_locate. destruct (fld_loc_locate _ _ _ _) as [[b|]|rc|]; [|apply sim_fail|apply sim_undef..].
  destruct (v_fetch V b) as [f|]; [|apply sim_undef]. destruct (decide (in_range f)); [apply sim_ret|apply sim_undef].
Qed.
Lemma sim_length V loc parent : sims (s_length lf V loc parent).
Proof. unfold s_length. eapply sim_bind; [apply sim_locate|]. intros f. destruct (f_d f); try apply sim_fail. apply sim_ret. Qed.

Definition fld_sims c (cls : actf_fld_cls) : Prop := forall V val parent, sims (spec_fld md lf c cls V val parent).

(** A field and its roles. *)
Lemma sim_with_roles {A} c cls V val parent (k : actf_fld -> st sst A) :
  fld_sims c cls -> (forall f, sims (k f)) -> sims (f ← spec_fld md lf c cls V val parent; s_roles md c cls f;; k f).
Proof.
  intros Hc Hk.
  assert (Hno : actf_fld_cls_roles cls = ACTF_ROLE_NIL -> sims (f ← spec_fld md lf c cls V val parent; s_roles md c cls f;; k f)).
  { intros E. eapply sim_bind; [apply Hc|]. intros f. eapply sim_bind; [|by intros []]. unfold s_roles.
    induction (role_table md c) as [|e t IH]; [apply sim_ret|]. cbn [s_each_role]. eapply sim_bind; [|by intros []].
    unfold s_role, has_role. rewrite E. apply sim_ret. }
  assert (Hint : forall B (m : st acur B) (g : B -> st acur fld_d), sim same_cur same_bo m m -> (forall v, sim same_bo same_bo (g v) (g v)) ->
    sims (f ← (d ← on_acur (v ← m; g v); mret (mk_fld (Some cls) parent d)); s_roles md c cls f;; k f)).
  { intros B m g Hm Hg. eapply (sim_bind _ same_bo_state).
    - eapply sim_bind; [|intros d; apply sim_ret]. apply (sim_acur same_cur same_bo). eapply sim_bind; [exact Hm|exact Hg].
    - intros f. eapply sim_bind; [apply bo_roles|]. intros []. eapply sim_weaken; [apply same_bo_state_cur|done|apply Hk]. }
  destruct cls; try (by apply Hno).
  - cbn [spec_fld s_leaf]. apply Hint; [apply sim_fxd|]. intros v. apply sim_ret.
  - cbn [spec_fld s_leaf]. apply Hint; [apply sim_var_len|]. intros [v w]. apply sim_ret.
  - apply (sim_ext _ _ _ (p ← on_acur (s_blob n); s_roles md c (FC_STATIC_LEN_BLOB n media_type roles) (mk_fld (Some (FC_STATIC_LEN_BLOB n media_type roles)) parent (ACTF_FLD_TYPE_BLOB p n));;
      k (mk_fld (Some (FC_STATIC_LEN_BLOB n media_type roles)) parent (ACTF_FLD_TYPE_BLOB p n)))).
    + intros s. cbn [spec_fld s_leaf]. unfold on_acur, st_zoom, mbind, st_bind. by destruct (s_blob n (ss_cur s)) as [[p|rc|] x].
    + eapply sim_bind; [apply (sim_acur same_cur same_cur), sim_blob|]. intros p. eapply sim_bind; [by apply blob_roles|]. intros []. apply Hk.
Qed.

Lemma sim_members c val seen ms : Forall (fun m => fld_sims c (snd m)) ms -> forall l, sims (s_members md c (spec_fld md lf c) seen val ms l).
Proof.
  induction 1 as [|[nm mc] ms Hc _ IH]; intros l; [apply sim_ret|]. cbn [s_members]. apply sim_with_roles; [exact Hc|]. intros f. apply IH.
Qed.
Lemma sim_elems c val seen parent ele n : fld_sims c ele -> forall l, sims (s_elems (fun V a => spec_fld md lf c ele V a parent) seen val n l).
Proof.
  intros He. induction n as [|n IH]; intros l; [apply sim_ret|]. cbn [s_elems]. eapply sim_bind; [apply He|]. intros g. apply IH.
Qed.
Lemma sim_selected c cls V val parent : fld_sims c cls -> sims (f ← spec_fld md lf c cls V val parent; s_roles md c cls f;; mret f).
Proof. intros Hc. apply sim_with_roles; [done|]. intros f. apply sim_ret. Qed.
Lemma sim_choose sel v opts k : Forall (fun o => sims (sel (snd (fst o)))) opts -> sims k -> sims (s_choose sel v opts k).
Proof.
  intros Ho. revert k. induction Ho as [|[[nm oc] rs] opts Hc _ IH]; intros k Hk; [done|]. cbn [s_choose]. apply IH. by destruct (bool_decide _).
Qed.
Lemma sim_array c cls V val parent ele k n :
  0 <= k -> fld_sims c ele ->
  sims (on_acur (s_align (2 ^ k));;
     if MAX_FLDS <? n then st_undef
     else
       vals ← s_elems (fun V a => spec_fld md lf c ele V a parent)
                (fun vals n => v_put val (mk_fld (Some cls) parent (ACTF_FLD_TYPE_ARR vals n)) V) val (Z.to_nat n) [];
       mret (mk_fld (Some cls) parent (ACTF_FLD_TYPE_ARR vals n))).
Proof.
  intros Hk He. eapply sim_bind; [by apply sim_acur, cur_align|]. intros []. destruct (_ <? _); [apply sim_undef|].
  eapply sim_bind; [by apply sim_elems|]. intros vals. apply sim_ret.
Qed.
Lemma sim_enabled rngs sel : sims (s_enabled rngs sel).
Proof.
  unfold s_enabled. destruct (f_d sel); try apply sim_ret; destruct (_ =? _); try apply sim_fail; destruct (int_value sel); (apply sim_ret || apply sim_fail).
Qed.

Lemma sim_fld c cls : fc_wf cls -> fld_sims c cls.
Proof.
  induction cls as [cls IH] using fld_cls_ind_subs. intros Hwf.
  assert (Hall : Forall (fld_sims c) (subs cls)).
  { pose proof (proj2 (Forall_and _ _) (conj IH (fc_wf_subs cls Hwf))) as Hs. eapply Forall_impl; [exact Hs|]. intros x [Hx H']. by apply Hx. }
  destruct (align_req_pow2 cls Hwf) as (al & Hal & k & Hk & ->).
  assert (Hleaf : (forall V val parent, spec_fld md lf c cls V val parent = (d ← on_acur (s_leaf cls); mret (mk_fld (Some cls) parent d))) -> fld_sims c cls).
  { intros Hs V val parent. rewrite Hs. eapply sim_bind; [apply sim_acur, sim_leaf|]. intros d. apply sim_ret. }
  destruct cls as [| | | | | | | | | | |enc loc| |loc mt|ms m al|ele m n|ele m loc|oc loc rngs|opts loc]; try (by apply Hleaf);
    intros V val parent; cbn [spec_fld]; rewrite ?Hal.
  - eapply sim_bind; [apply sim_length|]. intros n. eapply sim_bind; [apply sim_acur, sim_str|]. intros [p q]. apply sim_ret.
  - eapply sim_bind; [apply sim_length|]. intros n. eapply sim_bind; [apply sim_acur, sim_blob|]. intros p. apply sim_ret.
  - cbn in Hal. injection Hal as ->. eapply sim_bind; [apply sim_acur, cur_align; lia|]. intros []. destruct (_ <? _); [apply sim_undef|].
    eapply sim_bind; [apply sim_members; exact (proj1 (Forall_fmap _ _ _) Hall)|]. intros vals. apply sim_ret.
  - apply sim_array; [lia|by inversion Hall].
  - eapply sim_bind; [apply sim_length|]. intros n. apply sim_array; [lia|by inversion Hall].
  - eapply sim_bind; [apply sim_locate|]. intros sel. eapply sim_bind; [apply sim_enabled|].
    intros [|]; [apply sim_selected; by inversion Hall|apply sim_ret].
  - eapply sim_bind; [apply sim_locate|]. intros sel. destruct (int_value sel) as [v|]; [|apply sim_fail].
    apply sim_choose; [|apply sim_fail]. eapply Forall_impl; [exact (proj1 (Forall_fmap _ _ _) Hall)|]. intros o Ho. by apply sim_selected.
Qed.

(** * Events and packets *)

Lemma sim_prop c cls r V : class_ok cls -> sims (s_prop md lf c cls r V).
Proof.
  intros [->|Hwf]; [apply sim_ret|]. assert (Hs : s_prop md lf c cls r V = (f ← spec_fld md lf c cls V (mk_addr r []) None; mret (v_put (mk_addr r []) f V))) by (by destruct cls).
  rewrite Hs. eapply sim_bind; [by apply sim_fld|]. intros f. apply sim_ret.
Qed.

Lemma sim_set_ev e : sims (s_set_ev e).
Proof. apply sim_modify. intros s t [Hc _]. by split. Qed.

(** Both go on from their own state. *)
Lemma sim_get_state {A} Q (k l : sst -> st sst A) : (forall s t, same_state s t -> sim same_state Q (k s) (l t)) -> sim same_state Q (st_get ≫= k) (st_get ≫= l).
Proof. intros H. apply sim_get. intros s t Hst. eapply sim_weaken; [|done|by apply H]. by intros s' t' [-> ->]. Qed.

Lemma sim_ev_cls {A} dsc e (k : actf_event_cls -> st sst A) :
  (forall evc, u64toevc_find (idtoevc dsc) (ev_id e) = Ok (Some evc) -> sims (k evc)) -> sims (s_ev_cls dsc e ≫= k).
Proof.
  intros Hk s t H. unfold s_ev_cls, mbind, st_bind. destruct (u64toevc_find _ _) as [[evc|]|rc|]; [|done..]. exact (Hk evc eq_refl s t H).
Qed.
Lemma sim_dsc {A} id (k : actf_dstream_cls -> st sst A) :
  (forall dsc, u64todsc_find (idtodsc md) id = Ok (Some dsc) -> sims (k dsc)) -> sims (s_dsc md id ≫= k).
Proof.
  intros Hk s t H. unfold s_dsc, mbind, st_bind. destruct (u64todsc_find _ _) as [[dsc|]|rc|]; [|done..]. exact (Hk dsc eq_refl s t H).
Qed.

Lemma sim_event V : sims (spec_event md lf V).
Proof.
  unfold spec_event. eapply sim_bind; [apply sim_set_ev|]. intros []. apply sim_get_state. intros s t H. pose proof (same_pkt_of _ _ H) as Hp.
  rewrite <- (lp_cls _ _ Hp). destruct (dsc_cls (ac_pkt (ss_cur s))) as [dsc|] eqn:Ed; [|apply sim_undef]. pose proof (lp_wf _ _ Hp dsc Ed) as Hw. clear s t H Hp Ed.
  eapply sim_bind; [apply sim_prop, Hw|]. intros V2. apply sim_get_state. intros s t [_ He]. rewrite <- He. destruct (ss_ev s) as [e|]; [|apply sim_undef].
  apply sim_ev_cls. intros evc Hevc. destruct (dw_evcs _ Hw _ _ Hevc) as [Hspec Hpay]. eapply sim_bind; [apply sim_set_ev|]. intros [].
  eapply sim_bind; [apply sim_prop, Hw|]. intros V3. eapply sim_bind; [by apply sim_prop|]. intros V4. eapply sim_bind; [by apply sim_prop|]. intros V5.
  apply sim_read; [by intros x y [_ ->]|]. intros x. destruct (ss_ev x), (vw_ev V5); (apply sim_ret || apply sim_undef).
Qed.

Lemma same_more s t : same_state s t -> more_events s = more_events t.
Proof. intros [[H _] _]. unfold more_events. by rewrite (lc_pos _ _ H), (like_bits _ _ H), (like_end _ _ H). Qed.

(** The events of a packet. *)
Lemma same_events fuel V : forall s t, same_state s t ->
  let '(es, r, s') := spec_events md lf fuel V s in
  let '(es', r', t') := spec_events md lf fuel V t in
  es = es' /\ r = r' /\ (r = Ok tt -> same_state s' t').
Proof.
  induction fuel as [|fuel IH]; intros s t H; cbn [spec_events]; [done|]. rewrite <- (same_more _ _ H). destruct (more_events s); [|done].
  pose proof (sim_event V s t H) as He. destruct (spec_event md lf V s) as [[e|rc|] s1], (spec_event md lf V t) as [[e'|rc'|] t1]; try done; [|by rewrite He].
  destruct He as [<- H1]. specialize (IH s1 t1 H1). destruct (spec_events md lf fuel V s1) as [[es r] s2], (spec_events md lf fuel V t1) as [[es' r'] t2].
  by destruct IH as (-> & -> & ?).
Qed.

(** * Streams *)

(** Where a packet begins only the position matters, and the byte order inside a byte. *)
Definition same_start (s t : sst) : Prop :=
  ac_mem (ss_cur s) = ac_mem (ss_cur t) /\ ac_pos (ss_cur s) = ac_pos (ss_cur t) /\
  (ac_bo (ss_cur s) = ac_bo (ss_cur t) \/ ac_pos (ss_cur s) mod 8 = 0).

Lemma same_state_start s t : same_state s t -> same_start s t.
Proof. intros [[[] Hb] _]. split_and!; [done..|]. destruct Hb as [|[]]; auto. Qed.

Lemma sim_skip : sim same_state same_start spec_skip spec_skip.
Proof.
  unfold spec_skip. apply sim_get. intros s t H. pose proof (same_pkt_of _ _ H) as Hp. pose proof H as [[Hl Hb] _].
  rewrite <- (lp_tot _ _ Hp), <- (lp_content _ _ Hp), <- (lp_off _ _ Hp), <- (lc_pos _ _ Hl).
  destruct ((tot_len (ac_pkt (ss_cur s)) =? UINT64_MAX) || (content_len (ac_pkt (ss_cur s)) =? UINT64_MAX)) eqn:Eo.
  { intros x y [-> ->]. split; [done|by apply same_state_start]. }
  cbv zeta. destruct (_ || (_ <=? _)); [apply sim_undef|]. intros x y [-> ->]. split; [done|]. cbn. unfold ac_bits. rewrite <- (lc_mem _ _ Hl).
  split_and!; [apply Hl|done|]. left. destruct Hb as [Hb|[_ [E _]]]; [done|]. by rewrite E in Eo.
Qed.

Lemma sim_jump : sim same_state same_start spec_jump spec_jump.
Proof.
  unfold spec_jump. apply sim_get. intros s t H. pose proof (same_pkt_of _ _ H) as Hp. pose proof H as [[Hl Hb] _].
  rewrite <- (lp_tot _ _ Hp), <- (lp_off _ _ Hp), <- (like_bits _ _ Hl). cbv zeta. destruct (_ <? _); [apply sim_undef|]. intros x y [-> ->]. split; [done|].
  cbn. split_and!; [apply Hl|done|]. right. unfold ac_bits. rewrite Z.mul_min_distr_nonneg_l by lia. rewrite Z.mul_comm. apply Z.mod_mul. lia.
Qed.

Lemma sim_pkt : metadata_wf md -> sim same_start same_state (spec_pkt md lf) (spec_pkt md lf).
Proof.
  intros Hmd. unfold spec_pkt. apply sim_get. intros s t (Hm & Hp & Hb). rewrite <- Hp.
  eapply (sim_bind _ (fun x y => x = mk_sst (ss_cur s) None /\ y = mk_sst (ss_cur t) None)). { by intros x y [-> ->]. }
  intros []. eapply (sim_bind _ same_state).
  { intros x y [-> ->]. split; [done|]. split; [|done]. split; [split; [done..|]|].
    - apply stable_bit_off, like_init.
    - cbn. destruct Hb as [Hb|Hb]; [by left|by right]. }
  clear s t Hm Hp Hb. intros []. eapply sim_bind; [apply sim_prop, Hmd|]. intros V.
  apply sim_get_state. intros s t H. rewrite <- (lp_id _ _ (same_pkt_of _ _ H)). apply sim_dsc. intros dsc Hdsc.
  pose proof (mw_dscs _ Hmd _ _ Hdsc) as Hw. eapply sim_bind; [apply sim_upd_pkt; [by apply stable_dsc_cls|by intros p []]|]. intros [].
  assert (Hctx : sims (V ← s_prop md lf DEC_CTX_PKT_CTX (pkt_ctx dsc) (RPkt ACTF_PKT_PROP_CTX) V; s_upd_pkt complete_lens;; s ← st_get;
      if tot_len (ac_pkt (ss_cur s)) <? content_len (ac_pkt (ss_cur s)) then st_fail ACTF_INVALID_CONTENT_LEN else mret V)).
  { eapply sim_bind; [apply sim_prop, Hw|]. intros V'. eapply sim_bind; [apply sim_upd_pkt; [auto with stable|]|].
    { intros [] [E1 E2]. unfold complete_lens. cbn in *. by subst. }
    intros []. apply sim_read; [|intros x; destruct (_ <? _); [apply sim_fail|apply sim_ret]].
    intros x y Hxy. by rewrite (lp_tot _ _ (same_pkt_of _ _ Hxy)), (lp_content _ _ (same_pkt_of _ _ Hxy)). }
  destruct (pkt_ctx dsc); [apply sim_ret|exact Hctx..].
Qed.
End Spec.

(** The packets of two runs. *)
Lemma like_guarded p q : like_pkt p q -> guarded p = guarded q.
Proof.
  intros H. unfold guarded. cbv zeta. rewrite !settled_flag by done. unfold settled. cbn.
  rewrite <- !(like_flag _ _ _ H). destruct H.
  f_equal; try congruence; match goal with |- (if has_flag p ?f then _ else _) = _ => destruct (has_flag p f) eqn:E; auto end.
Qed.

Definition like_item (i j : actf_event * actf_pkt) : Prop := fst i = fst j /\ same_packet (snd i) (snd j).
(** The same events, in packets that are the same, and the same end. *)
Definition like_run (x y : list (actf_event * actf_pkt) * outcome unit) : Prop := Forall2 like_item (fst x) (fst y) /\ snd x = snd y.

#[export] Instance like_item_equiv : Equivalence like_item.
Proof. unfold like_item. split; [done|intros i j [-> H]; split; [done|by symmetry]|intros i j k [-> H] [-> H']; split; [done|by etransitivity]]. Qed.
#[export] Instance like_run_equiv : Equivalence like_run.
Proof.
  unfold like_run. split; [by intros x|intros x y [H ->]; split; [by symmetry|done]|intros x y z [H ->] [H' ->]; split; [by etransitivity|done]].
Qed.

Section Streams.
Context (md : actf_metadata) (lf : nat) (Hmd : metadata_wf md).

Lemma like_pkt_of V s t : same_state s t -> same_packet (pkt_of V s) (pkt_of V t).
Proof. intros H. split; [|done]. apply like_guarded, (same_pkt_of _ _ H). Qed.

Lemma like_items es p q : same_packet p q -> Forall2 like_item (map (fun e => (e, p)) es) (map (fun e => (e, q)) es).
Proof. intros H. induction es; constructor; [by split|done]. Qed.

Lemma same_rest packets packets' p q es r s t :
  (forall s t, same_start s t -> like_run (packets s) (packets' t)) -> same_packet p q -> (r = Ok tt -> same_state s t) ->
  like_run (spec_rest packets p es r s) (spec_rest packets' q es r t).
Proof.
  intros Hp Hpq Hst. pose proof (like_items es p q Hpq) as Hi. unfold spec_rest. destruct r as [[]|rc|]; [|done..].
  pose proof (sim_skip s t (Hst eq_refl)) as Hs. destruct (spec_skip s) as [[[]|rc|] s'], (spec_skip t) as [[[]|rc'|] t']; try done.
  - destruct Hs as [_ Hs]. specialize (Hp _ _ Hs). destruct es as [|e es]; [done|].
    destruct (packets s') as [i1 r1], (packets' t') as [i2 r2]. destruct Hp as [Hp Hr]. cbn in Hp, Hr. subst r2. split; [|done]. by apply Forall2_app.
  - split; [done|]. cbn. by rewrite Hs.
Qed.

(** The packets from a position on. *)
Lemma same_packets fuel : forall s t, same_start s t -> like_run (spec_packets md lf fuel s) (spec_packets md lf fuel t).
Proof.
  induction fuel as [|fuel IH]; intros s t H; [done|]. cbn [spec_packets]. pose proof H as (Hm & Hp & _). unfold ac_bits. rewrite <- Hm, <- Hp.
  destruct (_ <? _); [|done]. pose proof (sim_pkt md lf Hmd s t H) as Hk.
  destruct (spec_pkt md lf s) as [[V|rc|] s1], (spec_pkt md lf t) as [[V'|rc'|] t1]; try done; [|by rewrite Hk]. destruct Hk as [<- H1].
  pose proof (same_events md lf fuel V s1 t1 H1) as He. destruct (spec_events md lf fuel V s1) as [[es r] s2], (spec_events md lf fuel V t1) as [[es' r'] t2].
  destruct He as (<- & <- & H2). apply same_rest; [exact IH|by apply like_pkt_of|done].
Qed.

Lemma same_ends_before t p q : like_pkt p q -> ends_before t p = ends_before t q.
Proof.
  intros H. unfold ends_before. rewrite (lp_cls _ _ H), (like_flag _ _ _ H). destruct (dsc_cls q ≫= _); [|done].
  destruct (has_flag q PKT_END_DEF_CLK_VAL) eqn:E; [|done]. rewrite (lp_end _ _ H); [done|]. by rewrite (like_flag _ _ _ H).
Qed.

(** The stream from a time on. *)
Lemma same_from tm fuel : forall s t, same_start s t ->
  match spec_from md lf fuel tm s, spec_from md lf fuel tm t with
  | Ok x, Ok y => like_run x y
  | Err rc, Err rc' => rc = rc'
  | Undef, Undef => True
  | _, _ => False
  end.
Proof.
  induction fuel as [|fuel IH]; intros s t H; [done|]. cbn [spec_from]. pose proof H as (Hm & Hp & _). unfold ac_bits. rewrite <- Hm, <- Hp.
  destruct (_ <? _); [|done]. pose proof (sim_pkt md lf Hmd s t H) as Hk.
  destruct (spec_pkt md lf s) as [[V|rc|] s1], (spec_pkt md lf t) as [[V'|rc'|] t1]; try done. destruct Hk as [<- H1].
  rewrite <- (same_ends_before tm _ _ (same_pkt_of _ _ H1)). destruct (ends_before tm _) as [[|]|]; [| |done].
  - pose proof (sim_jump s1 t1 H1) as Hj. destruct (spec_jump s1) as [[u|rc|] s2], (spec_jump t1) as [[u'|rc'|] t2]; try done. apply IH, Hj.
  - pose proof (same_events md lf fuel V s1 t1 H1) as He. destruct (spec_events md lf fuel V s1) as [[es r] s2], (spec_events md lf fuel V t1) as [[es' r'] t2].
    destruct He as (<- & <- & H2).
    assert (Hrest : forall l, like_run (spec_rest (spec_packets md lf fuel) (pkt_of V s1) l r s2) (spec_rest (spec_packets md lf fuel) (pkt_of V t1) l r t2)).
    { intros l. apply same_rest; [apply same_packets|by apply like_pkt_of|done]. }
    destruct (from_time tm es) as [[|x l]|]; [|destruct r; exact (Hrest (x :: l))|by destruct r]. destruct r as [[]|rc|]; [|done..].
    pose proof (sim_skip s2 t2 (H2 eq_refl)) as Hs. destruct (spec_skip s2) as [[u|rc|] s3], (spec_skip t2) as [[u'|rc'|] t3]; try done. apply IH, Hs.
Qed.
End Streams.
