(* ===== verification/StreamRefine.v ===== *)
(** The decoder yields the events of the stream.

    [spec_stream] says what the packets and events of a data stream are; the decoder
    hands them out array by array, resuming inside a packet when its array is full and
    keeping an error for the next call.  The theorem is that the arrays, one after the
    other, are the specified events, and that the end or the error comes after them. *)
From S2P Require Import Prelude Common Breader Rng Generator HashMap Clock FldCls Metadata Fld Scalar Arena Decoder DecoderInv DecoderSpec FieldSpec DecoderRefine StreamSpec Samples.
From stdpp Require Import strings.
Open Scope Z_scope.

(** * Programs and their specification *)

(** [m] does from [d] what [s] specifies, and its result satisfies [Q]. *)
Definition does {A B} (m : st actf_decoder A) (s : st sst B) (d : actf_decoder) (Q : A -> B -> actf_decoder -> Prop) : Prop :=
  match s (abs d) with
  | (Ok b, x) => exists a d', m d = (Ok a, d') /\ abs d' = x /\ Q a b d'
  | (Err rc, _) => exists d', m d = (Err rc, d')
  | (Undef, _) => True
  end.

Lemma does_bind {A B A' B'} (m : st actf_decoder A) (s : st sst B) (k : A -> st actf_decoder A') (t : B -> st sst B') d Q R :
  does m s d Q -> (forall a b d', Q a b d' -> does (k a) (t b) d' R) -> does (m ≫= k) (s ≫= t) d R.
Proof.
  unfold does. intros Hm Hk. unfold mbind at 1, st_bind at 1. destruct (s (abs d)) as [[b|rc|] x]; [..|done].
  - destruct Hm as (a & d1 & Hrun & <- & HQ). specialize (Hk a b d1 HQ). destruct (t b (abs d1)) as [[b'|rc|] x']; [..|done];
      by rewrite (st_bind_ok _ _ _ _ _ Hrun).
  - destruct Hm as (d' & Hrun). exists d'. by rewrite (st_bind_err _ _ _ _ _ Hrun).
Qed.

Lemma does_ret {A B} (a : A) (b : B) d (Q : A -> B -> actf_decoder -> Prop) : Q a b d -> does (mret a) (mret b) d Q.
Proof. intros HQ. by exists a, d. Qed.
Lemma does_fail {A B} rc d (Q : A -> B -> actf_decoder -> Prop) : does (st_fail rc) (st_fail rc) d Q.
Proof. by exists d. Qed.
Lemma does_undef {A B} (m : st actf_decoder A) d (Q : A -> B -> actf_decoder -> Prop) : does m st_undef d Q.
Proof. done. Qed.
Lemma does_modify h g d (Q : unit -> unit -> actf_decoder -> Prop) :
  abs (h d) = g (abs d) -> Q tt tt (h d) -> does (st_modify h) (st_modify g) d Q.
Proof. intros Ha HQ. by exists tt, (h d). Qed.
Lemma does_get d : does st_get st_get d (fun x y d' => x = d /\ y = abs d /\ d' = d).
Proof. by exists d, d. Qed.

Lemma does_code {A B} (m m' : st actf_decoder A) (s : st sst B) d Q : m d = m' d -> does m' s d Q -> does m s d Q.
Proof. unfold does. by intros ->. Qed.
Lemma does_spec {A B} (m : st actf_decoder A) (s s' : st sst B) d Q : s (abs d) = s' (abs d) -> does m s' d Q -> does m s d Q.
Proof. unfold does. by intros ->. Qed.

Section Refine.
Context (md : actf_metadata) (pm em : nat -> Z -> bool) (lf : nat).
Context (Hpm : forall n sz, pm n sz = true) (Hem : forall n sz, em n sz = true).

(** * Properties *)

(** The reader, the packet state and the arenas are in order. *)
Record base_ok (d : actf_decoder) : Prop := {
  bo_cur : cur_wf (cur_of d);
  bo_pkt : arena_wf (pkt_arena (dec_s d));
  bo_ev : arena_wf (ev_arena (dec_s d))
}.

(** What decoding a property leaves alone. *)
Definition rest_of (d : actf_decoder) := (outer d, ev_dsc <$> ev (dec_s d)).

Lemma rest_advanced c d d' s : advanced c d d' s -> rest_of d' = rest_of d.
Proof. intros (_ & _ & cu & p & e & es & ->). by destruct d as [? ? ? ? ? ? ? [? ? [] [[]|] ?]]. Qed.
Lemma rest_put val f d : rest_of (put val f d) = rest_of d.
Proof. unfold put. by destruct d as [? ? ? ? ? ? ? [? ? [] [[]|] ?]], (a_root val) as [[]|[]]. Qed.

Lemma prop_refines c cls r d :
  base_ok d -> class_ok cls -> root_fld d r = Some nil_fld ->
  does (decode_prop md pm em lf c cls r) (s_prop md lf c cls r (view_of d)) d
    (fun _ V d' => base_ok d' /\ view_of d' = V /\ rest_of d' = rest_of d).
Proof.
  intros [Hcu Hp He] [->|Hwf] Hr; [by apply does_ret|].
  assert (Henv : env_ok c (set_ctx c d)) by (split; done).
  assert (Hf : fetch (set_ctx c d) (mk_addr r []) = Some nil_fld).
  { unfold fetch. cbn [a_root a_path]. assert (E : root_fld (set_ctx c d) r = root_fld d r) by (by destruct r). by rewrite E, Hr. }
  pose proof (fld_cls_decode_refines md pm em lf c cls (mk_addr r []) (set_ctx c d) nil_fld Hpm Hem Hwf Henv Hf eq_refl) as H.
  cbn [f_parent nil_fld] in H. change (view_of (set_ctx c d)) with (view_of d) in H. change (abs (set_ctx c d)) with (abs d) in H.
  assert (Hs : s_prop md lf c cls r (view_of d) = (f ← spec_fld md lf c cls (view_of d) (mk_addr r []) None; mret (v_put (mk_addr r []) f (view_of d))))
    by (by destruct cls).
  assert (Hd : decode_prop md pm em lf c cls r d = fld_cls_decode md pm em lf cls (mk_addr r []) (set_ctx c d)) by (by destruct cls).
  unfold does. rewrite Hs, Hd. unfold mbind, st_bind. destruct (spec_fld _ _ _ _ _ _ _ _) as [[f|rc|] s]; [|exact H|done].
  destruct H as (d' & Hrun & Hadv & _). exists tt, (put (mk_addr r []) f d'). split; [done|].
  destruct (advanced_ok c _ _ _ Hadv) as [[Hcu' Hp' He' _] Habs]. split; [by rewrite abs_put|].
  split; [|split].
  - destruct (put_arenas (mk_addr r []) f d') as (_ & Ep & Ee). split; rewrite ?cur_of_put, ?Ep, ?Ee; done.
  - by rewrite view_put, (advanced_view c _ _ _ Hadv).
  - rewrite rest_put. exact (rest_advanced c _ _ _ Hadv).
Qed.

(** Only the field of the property changes. *)
Lemma s_prop_upd c cls r V s V' s' : s_prop md lf c cls r V s = (Ok V', s') -> exists h, V' = v_upd r h V.
Proof.
  unfold s_prop. destruct cls;
    try (unfold mbind, st_bind; destruct (spec_fld _ _ _ _ _ _ _ _) as [[f|rc|] x]; [|done..]; intros [= <- _]; by eexists).
  intros [= <- _]. exists (fun f => f). by destruct V as [h x [[]|]], r as [[]|[]].
Qed.

Lemma v_root_upd r q h V : r <> q -> v_root (v_upd r h V) q = v_root V q.
Proof. by destruct V as [x y [[]|]], r as [[]|[]], q as [[]|[]]. Qed.

(** * Events *)

(** The same packet fields. *)
Definition same_pkt (V V' : view) : Prop := vw_header V = vw_header V' /\ vw_ctx V = vw_ctx V'.

(** What holds while the properties of an event are decoded. *)
Record in_event (d0 : actf_decoder) (dsc : option actf_dstream_cls) (V : view) (d : actf_decoder) : Prop := {
  ie_ok : base_ok d;
  ie_view : view_of d = V;
  ie_pkt : same_pkt V (view_of d0);
  ie_rest : rest_of d = (outer d0, Some dsc)
}.

Lemma event_prop_refines d0 dsc c cls p V d :
  in_event d0 dsc V d -> class_ok cls -> root_fld d (REv p) = Some nil_fld ->
  does (decode_prop md pm em lf c cls (REv p)) (s_prop md lf c cls (REv p) V) d
    (fun _ V' d' => in_event d0 dsc V' d' /\ forall q, q <> p -> root_fld d' (REv q) = root_fld d (REv q)).
Proof.
  intros [Hok <- Hpk Hrest] Hc Hr. pose proof (prop_refines c cls (REv p) d Hok Hc Hr) as H. unfold does in *.
  destruct (s_prop _ _ _ _ _ _ _) as [[V|rc|] s] eqn:Es; [|done..]. destruct H as (a & d' & Hrun & Habs & Hok' & HV & Hrest').
  exists a, d'. split; [done|]. split; [done|].
  destruct (s_prop_upd _ _ _ _ _ _ _ Es) as [h HV'].
  split.
  - split; [done|done| |congruence]. subst V. rewrite HV'. by destruct (view_of d) as [x y [[]|]].
  - intros q Hq. rewrite <- !v_root_view, HV, HV'. apply v_root_upd. congruence.
Qed.

(** A step of the code that the specification describes with one more step. *)
Lemma does_then {A B C} (m : st actf_decoder A) (s : st sst B) (t : B -> st sst C) d Q R :
  does m s d Q -> (forall a b d', Q a b d' -> exists c x, t b (abs d') = (Ok c, x) /\ abs d' = x /\ R a c d') -> does m (s ≫= t) d R.
Proof.
  unfold does. intros Hm Ht. unfold mbind, st_bind. destruct (s (abs d)) as [[b|rc|] x]; [|done..].
  destruct Hm as (a & d' & Hrun & <- & HQ). destruct (Ht a b d' HQ) as (c & x & -> & <- & HR). by exists a, d'.
Qed.

Lemma set_ev_event d0 dsc V d e e' :
  in_event d0 dsc V d -> ev (dec_s d) = Some e -> e' = set_ev_state (ev_s e') (ev_dsc e') e ->
  in_event d0 (ev_dsc e') V (set_ev (Some e') d) /\ abs (set_ev (Some e') d) = mk_sst (ss_cur (abs d)) (Some (ev_s e')).
Proof.
  intros [[Hcu Hp He] <- Hpk Hr] Ee E'. split; [|done]. split; [by split| |done|].
  - rewrite E'. unfold view_of. cbn. by rewrite Ee.
  - apply (f_equal fst) in Hr. cbn [fst rest_of] in Hr. unfold rest_of. by rewrite <- Hr.
Qed.

Lemma does_dsc {A B} (k : actf_dstream_cls -> st actf_decoder A) (t : actf_dstream_cls -> st sst B) d R :
  (forall dsc, dsc_cls (d_pkt_s d) = Some dsc -> does (k dsc) (t dsc) d R) ->
  does (get_dsc ≫= k) (s ← st_get; match dsc_cls (ac_pkt (ss_cur s)) with None => st_undef | Some dsc => t dsc end) d R.
Proof.
  intros H. unfold does, get_dsc, mbind, st_bind, st_get. change (ac_pkt (ss_cur (abs d))) with (d_pkt_s d).
  destruct (dsc_cls (d_pkt_s d)) as [dsc|]; [exact (H dsc eq_refl)|done].
Qed.

Lemma in_event_ev d0 dsc V d : in_event d0 dsc V d ->
  exists e, ev (dec_s d) = Some e /\ ev_dsc e = dsc /\
    vw_ev V = Some (mk_ev_flds (ev_header_fld e) (ev_common_ctx_fld e) (ev_spec_ctx_fld e) (ev_payload_fld e)).
Proof.
  intros [_ <- _ Hr]. apply (f_equal snd) in Hr. cbn [snd rest_of] in Hr. unfold view_of.
  destruct (ev (dec_s d)) as [e|]; [|done]. injection Hr as Hr. by exists e.
Qed.

Lemma does_ev_cls {A B} dsc e (k : actf_event_cls -> st actf_decoder A) (t : actf_event_cls -> st sst B) d R :
  (forall evc, u64toevc_find (idtoevc dsc) (ev_id e) = Ok (Some evc) -> does (k evc) (t evc) d R) ->
  does (evcp ← lift_outcome (u64toevc_find (idtoevc dsc) (ev_id e));
        match evcp with None => st_fail ACTF_NO_SUCH_ID | Some evc => k evc end)
    (s_ev_cls dsc e ≫= t) d R.
Proof.
  intros H. unfold does, lift_outcome, s_ev_cls, mbind, st_bind.
  destruct (u64toevc_find _ _) as [[evc|]|rc|]; [exact (H evc eq_refl)|by exists d|done..].
Qed.

(** What is left to decode of an event is empty. *)
Definition blank (ps : list actf_event_prop) (d : actf_decoder) : Prop := Forall (fun p => root_fld d (REv p) = Some nil_fld) ps.

Lemma event_step d0 dsc c cls p ps V d :
  in_event d0 dsc V d /\ blank (p :: ps) d -> class_ok cls -> p ∉ ps ->
  does (decode_prop md pm em lf c cls (REv p)) (s_prop md lf c cls (REv p) V) d (fun _ V' d' => in_event d0 dsc V' d' /\ blank ps d').
Proof.
  intros [Hin Hb] Hc Hp. apply Forall_cons in Hb as [Hr Hb]. pose proof (event_prop_refines d0 dsc c cls p V d Hin Hc Hr) as H.
  unfold does in *. destruct (s_prop _ _ _ _ _ _ _) as [[V'|rc|] s]; [|done..].
  destruct H as (a & d' & Hrun & Habs & Hin' & Hrest). exists a, d'. split; [done|]. split; [done|]. split; [done|].
  apply Forall_forall. intros q Hq. rewrite Hrest by (by intros ->). rewrite Forall_forall in Hb. by apply Hb.
Qed.

Lemma event_refines V d :
  base_ok d -> same_pkt V (view_of d) -> (forall dsc, dsc_cls (d_pkt_s d) = Some dsc -> dsc_wf dsc) ->
  does (actf_decoder_ev_decode md pm em lf) (spec_event md lf V) d
    (fun _ e d' => base_ok d' /\ same_pkt V (view_of d') /\ ev (dec_s d') = Some e /\ outer d' = outer d).
Proof.
  intros Hok Hpk Hw. unfold actf_decoder_ev_decode, spec_event.
  eapply does_bind with (Q := fun _ _ d' => d' = set_ev (Some actf_event_init) d). { by apply does_modify. }
  intros _ _ d1 ->. set (d1 := set_ev (Some actf_event_init) d).
  apply does_dsc. intros dsc Hd. specialize (Hw dsc Hd).
  assert (H1 : in_event d None (mk_view (vw_header V) (vw_ctx V) (Some no_flds)) d1 /\
    blank [ACTF_EVENT_PROP_HEADER; ACTF_EVENT_PROP_COMMON_CTX; ACTF_EVENT_PROP_SPECIFIC_CTX; ACTF_EVENT_PROP_PAYLOAD] d1).
  { destruct Hok, Hpk as [E1 E2]. split; [split; try done|by repeat constructor]. unfold view_of. cbn in *. by rewrite E1, E2. }
  eapply does_bind; [apply (event_step _ _ _ _ _ _ _ _ H1); [apply Hw|set_solver]|]. intros _ V2 d2 [H2 B2].
  eapply does_bind; [apply does_get|]. intros ? ? ? (-> & -> & ->).
  destruct (in_event_ev _ _ _ _ H2) as (e & Ee & _ & _). unfold abs at 1. cbn [ss_ev]. rewrite Ee. cbn [fmap option_fmap option_map].
  apply does_ev_cls. intros evc Hevc. destruct (dw_evcs _ Hw _ _ Hevc) as [Hspec Hpay].
  set (e3 := set_ev_state _ _ e).
  destruct (set_ev_event _ _ _ _ e e3 H2 Ee eq_refl) as [H3 A3].
  eapply does_bind with (Q := fun _ _ d' => d' = set_ev (Some e3) d2). { by apply does_modify. }
  intros _ _ d3 ->. assert (B3 : blank [ACTF_EVENT_PROP_COMMON_CTX; ACTF_EVENT_PROP_SPECIFIC_CTX; ACTF_EVENT_PROP_PAYLOAD] (set_ev (Some e3) d2)).
  { eapply Forall_impl; [exact B2|]. intros p. cbn. rewrite Ee. by destruct p. }
  eapply does_bind; [apply (event_step _ _ _ _ _ _ _ _ (conj H3 B3)); [apply Hw|set_solver]|]. intros ? V4 d4 H4. cbv beta in H4.
  eapply does_bind; [apply (event_step _ _ _ _ _ _ _ _ H4); [done|set_solver]|]. intros ? V5 d5 H5. cbv beta in H5.
  eapply does_then; [apply (event_step _ _ _ _ _ _ _ _ H5); [done|set_solver]|]. intros _ V6 d6 [H6 _].
  destruct (in_event_ev _ _ _ _ H6) as (e6 & E6 & Edsc & ->). unfold mbind, st_bind, st_get, abs. cbn [ss_ev]. rewrite E6.
  eexists _, _. split; [reflexivity|]. split; [done|]. destruct H6 as [Hok6 HV6 Hpk6 Hr6].
  split; [done|]. split; [|split].
  - subst V6. destruct Hpk, Hpk6. split; congruence.
  - cbn in Edsc. rewrite <- Edsc. by destruct e6.
  - by apply (f_equal fst) in Hr6.
Qed.

(** * Packets *)

(** The decoder in a packet with the fields of [V]. *)
Record in_packet (d0 : actf_decoder) (V : view) (d : actf_decoder) : Prop := {
  ip_ok : base_ok d;
  ip_view : view_of d = V;
  ip_outer : outer d = outer d0
}.

(** The state of the packet changes. *)
Lemma does_upd_pkt h d0 V d :
  in_packet d0 V d -> bit_off (h (d_pkt_s d)) = bit_off (d_pkt_s d) -> (lens_u64 (d_pkt_s d) -> lens_u64 (h (d_pkt_s d))) ->
  does (upd_pkt_s h) (s_upd_pkt h) d (fun _ _ d' => in_packet d0 V d' /\ d' = set_pkt_s (h (d_pkt_s d)) d).
Proof.
  intros [[[Hb Hx Hc Ht] Hp He] HV Ho] Hoff Hlen. destruct (Hlen (conj Hc Ht)). apply does_modify; [done|]. split; [|done].
  split; [split; [|done..]|done|done]. split; cbn in *; [done|by rewrite Hoff|done..].
Qed.

Lemma does_dsc_cls {A B} id (k : actf_dstream_cls -> st actf_decoder A) (t : actf_dstream_cls -> st sst B) d R :
  (forall dsc, u64todsc_find (idtodsc md) id = Ok (Some dsc) -> does (k dsc) (t dsc) d R) ->
  does (dscp ← lift_outcome (u64todsc_find (idtodsc md) id);
        match dscp with None => st_fail ACTF_NO_SUCH_ID | Some dsc => k dsc end)
    (s_dsc md id ≫= t) d R.
Proof.
  intros H. unfold does, lift_outcome, s_dsc, mbind, st_bind.
  destruct (u64todsc_find _ _) as [[dsc|]|rc|]; [exact (H dsc eq_refl)|by exists d|done..].
Qed.

(** Where a packet begins. *)
Definition fresh_pkt (d : actf_decoder) : actf_decoder :=
  let s := dec_s d in
  set_dec_s (mk_dec_state (arena_clear (pkt_arena s)) (arena_clear (ev_arena s))
    (actf_pkt_init (set_bit_off (tot_bit_cnt (br d)) (pkt_state_init (pkt_s (pkt s))))) None (ctx s)) d.

Lemma fresh_pkt_ok d : base_ok d -> base_ok (fresh_pkt d).
Proof.
  intros [[] Hp He]. assert (H0 : is_u64 UINT64_MAX) by (unfold is_u64, UINT64_MAX; lia). pose proof (wf_pos _ cw_br).
  split; [split; cbn in *; (done || lia)|by apply arena_clear_wf..].
Qed.

Lemma complete_lens_ok p : bit_off (complete_lens p) = bit_off p /\ (lens_u64 p -> lens_u64 (complete_lens p)).
Proof. unfold complete_lens, lens_u64. destruct p; cbn. repeat case_match; cbn; tauto. Qed.

Lemma pkt_ctx_refines d0 cls V d :
  in_packet d0 V d -> class_ok cls -> root_fld d (RPkt ACTF_PKT_PROP_CTX) = Some nil_fld ->
  does (decode_prop md pm em lf DEC_CTX_PKT_CTX cls (RPkt ACTF_PKT_PROP_CTX);;
        upd_pkt_s complete_lens;;
        d ← st_get;
        if content_len (d_pkt_s d) >? tot_len (d_pkt_s d) then st_fail ACTF_INVALID_CONTENT_LEN else mret tt)
       (V ← s_prop md lf DEC_CTX_PKT_CTX cls (RPkt ACTF_PKT_PROP_CTX) V;
        s_upd_pkt complete_lens;;
        s ← st_get;
        if tot_len (ac_pkt (ss_cur s)) <? content_len (ac_pkt (ss_cur s)) then st_fail ACTF_INVALID_CONTENT_LEN else mret V)
       d (fun _ V' d' => in_packet d0 V' d').
Proof.
  intros [Hok <- Ho] Hc Hr. eapply does_bind; [apply (prop_refines _ _ _ _ Hok Hc Hr)|]. intros ? V d1 (Hok1 & HV & Hr1).
  assert (H1 : in_packet d0 V d1) by (split; [done..|]; apply (f_equal fst) in Hr1; cbn in Hr1; congruence).
  destruct (complete_lens_ok (d_pkt_s d1)) as [Hoff Hlen].
  eapply does_bind; [exact (does_upd_pkt complete_lens d0 V d1 H1 Hoff Hlen)|].
  intros ? ? d2 [H2 _]. eapply does_bind; [apply does_get|]. intros ? ? ? (-> & -> & ->).
  rewrite Z.gtb_ltb. change (ac_pkt (ss_cur (abs d2))) with (d_pkt_s d2). destruct (_ <? _); [apply does_fail|by apply does_ret].
Qed.

Lemma header_refines d cls :
  base_ok d -> class_ok cls -> view_of d = mk_view nil_fld nil_fld None ->
  does (decode_prop md pm em lf DEC_CTX_PKT_HEADER cls (RPkt ACTF_PKT_PROP_HEADER))
    (s_prop md lf DEC_CTX_PKT_HEADER cls (RPkt ACTF_PKT_PROP_HEADER) (mk_view nil_fld nil_fld None)) d
    (fun _ V d' => in_packet d V d' /\ root_fld d' (RPkt ACTF_PKT_PROP_CTX) = Some nil_fld).
Proof.
  intros Hok Hc HV. assert (Hr : root_fld d (RPkt ACTF_PKT_PROP_HEADER) = Some nil_fld) by (by rewrite <- v_root_view, HV).
  pose proof (prop_refines DEC_CTX_PKT_HEADER _ _ _ Hok Hc Hr) as H. rewrite HV in H. unfold does in *.
  destruct (s_prop _ _ _ _ _ _ _) as [[V|rc|] s] eqn:Es; [|done..]. destruct H as (a & d' & Hrun & Habs & Hok' & HV' & Hrest).
  exists a, d'. split; [done|]. split; [done|]. split; [split; try done; by apply (f_equal fst) in Hrest|].
  destruct (s_prop_upd _ _ _ _ _ _ _ Es) as [h Hh]. by rewrite <- v_root_view, HV', Hh, v_root_upd.
Qed.

Lemma pkt_refines d :
  base_ok d -> metadata_wf md ->
  does (actf_decoder_pkt_hdrctx_decode md pm em lf) (spec_pkt md lf) d (fun _ V d' => in_packet d V d').
Proof.
  intros Hok Hmd. unfold actf_decoder_pkt_hdrctx_decode, spec_pkt.
  eapply does_bind; [apply does_get|]. intros ? ? ? (-> & -> & ->).
  eapply does_spec with (s' := st_modify (fun s => mk_sst (mk_acur (ac_mem (ss_cur s)) (ac_bo (ss_cur s)) (ac_pos (ss_cur s))
    (set_bit_off (ac_pos (ss_cur s)) (pkt_state_init (ac_pkt (ss_cur s))))) None) ≫= _); [reflexivity|].
  eapply does_bind with (Q := fun _ _ d' => d' = fresh_pkt d); [by apply does_modify|].
  intros _ _ d1 ->. eapply does_bind; [eapply header_refines; [by apply fresh_pkt_ok|apply Hmd|done..]|].
  intros ? V d1 [[Hok1 HV1 Ho1] Hr1]. eapply does_bind; [apply does_get|]. intros ? ? ? (-> & -> & ->).
  apply does_dsc_cls. intros dsc Hdsc.
  eapply does_bind; [apply (does_upd_pkt _ d V d1); [by split|done|done]|].
  intros ? ? d2 [H2 ->]. assert (Hx : root_fld (set_pkt_s (set_flag PKT_DSTREAM_CLS (set_dsc_cls (Some dsc) (d_pkt_s d1))) d1) (RPkt ACTF_PKT_PROP_CTX) = Some nil_fld) by done.
  assert (Hc : class_ok (pkt_ctx dsc)) by (apply (mw_dscs _ Hmd _ _ Hdsc)).
  pose proof (pkt_ctx_refines _ _ _ _ H2 Hc Hx) as H.
  destruct (pkt_ctx dsc); [by apply does_ret|exact H..].
Qed.
End Refine.
