(* ===== verification/MetadataSafe.v ===== *)
(** From metadata text to a safe decoder: the composition of the metadata parser
    and the decoder.

    Whatever the texts, the JSON values the tokener makes of them and the
    allocations that fail, the metadata that the calls of the parser leave behind
    satisfies [metadata_parsed]; and without alignments of 0 that is the
    [metadata_wf] under which the decoder is safe. *)
From S2P Require Import Prelude Mappings MappingsTree Common Breader Rng HashMap Clock FldCls Metadata Fld Scalar Arena.
From S2P Require Import Decoder DecoderInv Json CtfJson JsonUtils FldClsParse FldClsParseInv MetadataParse MetadataText MetadataInv Samples.
From stdpp Require Import strings.
Open Scope Z_scope.

(** * Well-formed metadata *)

Definition class_no_zero (fc : actf_fld_cls) : Prop := fc = FC_NIL \/ no_zero_align fc.
Definition evc_no_zero (e : actf_event_cls) : Prop := class_no_zero (spec_ctx e) /\ class_no_zero (payload e).
Definition dsc_no_zero (d : actf_dstream_cls) : Prop :=
  class_no_zero (pkt_ctx d) /\ class_no_zero (event_hdr d) /\ class_no_zero (event_common_ctx d) /\
  map_vals evc_no_zero (idtoevc d).

(** No alignment in the metadata is 0. *)
Definition md_no_zero (m : actf_metadata) : Prop :=
  class_no_zero (pkt_hdr (trace_cls m)) /\ map_vals dsc_no_zero (idtodsc m).

(** The same as tests. *)
Fixpoint no_zero_alignb (fc : actf_fld_cls) : bool :=
  forallb (fun a => negb (a =? 0)) (aligns_of fc) &&
  match fc with
  | FC_STRUCT ms _ _ => forallb (fun m => no_zero_alignb (snd m)) ms
  | FC_STATIC_LEN_ARR ele _ _ | FC_DYN_LEN_ARR ele _ _ => no_zero_alignb ele
  | FC_OPTIONAL c _ _ => no_zero_alignb c
  | FC_VARIANT os _ => forallb (fun o => no_zero_alignb (snd (fst o))) os
  | _ => true
  end.

Definition map_valsb {V} (p : V -> bool) (m : umap Z V) : bool := forallb (fun e => p (e_val e)) (entries m).
Definition md_no_zerob (m : actf_metadata) : bool :=
  no_zero_alignb (pkt_hdr (trace_cls m)) &&
  map_valsb (fun d => no_zero_alignb (pkt_ctx d) && no_zero_alignb (event_hdr d) && no_zero_alignb (event_common_ctx d) &&
                      map_valsb (fun e => no_zero_alignb (spec_ctx e) && no_zero_alignb (payload e)) (idtoevc d))
    (idtodsc m).

Lemma forallb_Forall {A} (f : A -> bool) (P : A -> Prop) l :
  (forall x, x ∈ l -> f x = true -> P x) -> forallb f l = true -> Forall P l.
Proof. intros Hf Hl. apply Forall_forall. intros x Hx. apply Hf; [done|]. rewrite forallb_forall in Hl. by apply Hl, list_elem_of_In. Qed.

Lemma no_zero_alignb_ok fc : no_zero_alignb fc = true -> no_zero_align fc.
Proof.
  induction fc as [fc IH] using fld_cls_ind_subs. intros Hz. constructor.
  - assert (Ha : forallb (fun a => negb (a =? 0)) (aligns_of fc) = true) by (destruct fc; by apply andb_true_iff in Hz as [? _]).
    revert Ha. apply forallb_Forall. intros a _. lia.
  - destruct fc; cbn in Hz, IH |- *; rewrite ?andb_true_r, ?andb_true_iff in Hz; rewrite ?Forall_singleton in *;
      try (by constructor); try (by apply IH; destruct_and?).
    all: rewrite Forall_map in IH |- *; rewrite Forall_forall in IH; destruct_and?;
      match goal with Hm : forallb _ _ = true |- _ => revert Hm; by apply forallb_Forall end.
Qed.

Lemma map_valsb_ok {V} (p : V -> bool) (P : V -> Prop) m :
  (forall v, p v = true -> P v) -> map_valsb p m = true -> map_vals P m.
Proof. intros Hp. apply forallb_Forall. auto. Qed.

Lemma md_no_zerob_ok m : md_no_zerob m = true -> md_no_zero m.
Proof.
  assert (Hc : forall fc, no_zero_alignb fc = true -> class_no_zero fc) by (intros; right; by apply no_zero_alignb_ok).
  intros [H1 H2]%andb_true_iff. split; [by auto|]. revert H2. apply map_valsb_ok. intros d.
  rewrite !andb_true_iff. intros [[[? ?] ?] He]. split_and!; auto. revert He. apply map_valsb_ok. intros e.
  rewrite andb_true_iff. intros [? ?]. split; auto.
Qed.

Lemma map_vals_find {V} (P : V -> Prop) (m : umap Z V) id v :
  map_vals P m -> map_find hash_uint64 uint64cmp m id = Ok (Some v) -> P v.
Proof.
  intros Hm (e & He & <-)%map_find_slot. unfold map_vals, entries in Hm. rewrite Forall_forall in Hm. apply Hm.
  apply list_elem_of_omap. by exists (Some e).
Qed.

Lemma top_class_ok fc : top_parsed fc -> class_no_zero fc -> class_ok fc.
Proof. intros [->|[_ Hp]] Hz; [by left|]. destruct Hz as [->|Hz]; [by left|]. right. by apply parsed_wf. Qed.
#[local] Hint Resolve top_class_ok : core.

Lemma metadata_parsed_wf m : metadata_parsed m -> md_no_zero m -> metadata_wf m.
Proof.
  intros Hm [Hz Hzd]. split; [by apply top_class_ok; [apply Hm|]|]. intros id d Hd.
  pose proof (map_vals_find _ _ _ _ (mp_dscs _ Hm) Hd) as Hp.
  destruct (map_vals_find _ _ _ _ Hzd Hd) as (Hz1 & Hz2 & Hz3 & Hze), Hp.
  split; [by auto..|]. intros id' e He. pose proof (map_vals_find _ _ _ _ dp_evcs He) as [].
  destruct (map_vals_find _ _ _ _ Hze He). by auto.
Qed.

(** * The parser keeps the invariant *)

Section Texts.
Context {json tok : Type} `{JsonC json, !JsonCLaws json, Heap, Tokener json tok, QSort}.

(** Of the metadata in the state of the text parser. *)
Notation kept := (fun s : tok * pstate => metadata_parsed (fst (snd s))).

Lemma frag_parse_kept j s : metadata_parsed (fst s) -> metadata_parsed (fst (snd (frag_parse j s))).
Proof.
  destruct s as [md n]. cbn. intros Hmd. pose proof (frag_parse_ends md j Hmd n) as Hr. unfold runs, refused in Hr.
  destruct (frag_parse j (md, n)) as [[[]|rc|] [md' n']]; cbn in *; [done|..]; by destruct Hr as [-> _].
Qed.

Lemma parse_frag_kept frag : keeps kept (parse_frag frag).
Proof.
  intros [t p] Hp. unfold parse_frag. rewrite (st_bind_ok st_get _ _ (t, p) (t, p)) by done. cbn [fst snd].
  destruct (json_tokener_parse_ex t frag) as [[j|] t']; [|done].
  rewrite (st_bind_ok (st_put _) _ _ tt (t', p)) by done. unfold st_zoom. cbn [snd fst].
  pose proof (frag_parse_kept j p Hp) as Hk. by destruct (frag_parse j p) as [r p'].
Qed.

Lemma parse_frags_loop_kept fuel b : keeps kept (parse_frags_loop fuel b).
Proof.
  revert b. induction fuel as [|fuel IH]; intros b; [by intros s|]. cbn [parse_frags_loop].
  destruct b as [|c b]; [apply keeps_ret|]. cbv zeta. apply keeps_bind; [|intros _; apply IH].
  destruct (_ =? _)%nat; [apply keeps_ret|apply parse_frag_kept].
Qed.

Lemma json_frags_kept b : keeps kept (parse_json_frags b).
Proof. apply parse_frags_loop_kept. Qed.

Lemma st_rc_kept (c : st (tok * pstate) unit) : keeps kept c -> keeps kept (st_rc c).
Proof. intros Hc s Hs. specialize (Hc s Hs). unfold st_rc. by destruct (c s) as [[a|e|] s']. Qed.

Lemma unpack_loop_kept fuel b cur rc : keeps kept (unpack_loop fuel b cur rc).
Proof.
  revert cur rc. induction fuel as [|fuel IH]; intros cur rc; [by intros s|]. cbn [unpack_loop].
  destruct (_ <? _); [|destruct (_ <? _); [by intros s|apply keeps_ret]].
  destruct (read_metadata_pkt_hdr _) as [hdr|e|]; [|by intros s..]. cbv zeta. destruct (_ >? _); [by intros s|].
  apply keeps_bind.
  - apply st_rc_kept, json_frags_kept.
  - intros rc'. apply keeps_bind; [apply keeps_get|]. intros s0. destruct (_ && _); [by intros s|apply IH].
Qed.

Lemma with_tokener_kept c : keeps kept c -> keeps (fun s : pstate => metadata_parsed (fst s)) (with_tokener c).
Proof. intros Hc p Hp. unfold with_tokener. specialize (Hc (json_tokener_new, p) Hp). by destruct (c _) as [r s]. Qed.

Lemma nparse_kept b : keeps (fun s : pstate => metadata_parsed (fst s)) (actf_metadata_nparse b).
Proof.
  unfold actf_metadata_nparse. destruct (is_metadata_stream_packetized b); apply with_tokener_kept.
  - apply unpack_loop_kept.
  - apply json_frags_kept.
Qed.
End Texts.

(** * From text to events *)

(** Any number of calls of the parser on a metadata object, whatever they return. *)
Definition parse_texts {json tok} `{JsonC json, Heap, Tokener json tok, QSort} (texts : list (list Z)) (s : pstate) : pstate :=
  fold_left (fun s b => snd (actf_metadata_nparse b s)) texts s.

Lemma nil_metadata_parsed d : id_map_wf d -> map_vals (dsc_parsed []) d -> metadata_parsed (nil_metadata d).
Proof. intros Hm Hv. split; cbn; try done; try (by left); try (by constructor). Qed.

Lemma metadata_init_parsed `{Heap} n m n' : actf_metadata_init n = (Ok (Some m), n') -> metadata_parsed m.
Proof.
  unfold actf_metadata_init, malloc, map_op. destruct (malloc_ok n); [|done].
  match goal with |- context [map_init_cap ?ok 4] =>
    destruct (map_init_vals ok 2 (dsc_parsed []) ltac:(lia)) as [E|(d & E & Hm & Hv)]; change (2 ^ 2) with 4 in E; rewrite E end; [done|].
  intros [= <- _]. by apply nil_metadata_parsed.
Qed.

Lemma parse_texts_parsed {json tok} `{JsonC json, !JsonCLaws json, Heap, Tokener json tok, QSort} texts s :
  metadata_parsed (fst s) -> metadata_parsed (fst (parse_texts texts s)).
Proof. revert s. induction texts as [|b texts IH]; intros s Hs; cbn; [done|]. by apply IH, nparse_kept. Qed.

(** C2: from text to events.  Whatever texts are given to the metadata parser,
    with whatever JSON values the tokener makes of them, failing allocations and
    refused fragments: a decoder with the metadata that results, on any data of up
    to 2^62 bits and after any calls, keeps its reader inside the data whenever no alignment in the metadata
    is 0, and when it returns events, they are at most [evs_cap] and each has the event
    class of its id in its data stream class.  That a call does return is not
    claimed: an allocation or an array length that is too large can end it without
    a defined result ([DecoderEdge]). *)
Theorem parsed_metadata_decodes_safely {json tok} `{JsonC json, !JsonCLaws json, Heap, Tokener json tok, QSort}
    k m k' texts pm em lf data n calls :
  actf_metadata_init k = (Ok (Some m), k') ->
  let md := fst (parse_texts texts (m, k')) in
  md_no_zero md -> Forall is_byte data -> 8 * Z.of_nat (length data) <= 2 ^ 62 ->
  let d := fold_left (fun d c => do_call md pm em lf c d) calls (actf_decoder_init data n) in
  let '(r, d') := actf_decoder_decode md pm em lf d in
  br_ok data (br d) /\ br_ok data (br d') /\
  forall es, r = Ok es -> (length es <= eff_cap n)%nat /\ Forall complete es.
Proof.
  intros Hi md Hz Hd Hs d. assert (Hm : metadata_wf md).
  { apply metadata_parsed_wf; [|done]. apply parse_texts_parsed. by eapply metadata_init_parsed. }
  pose proof (calls_inv md pm em lf data _ calls _ Hd Hs Hm (dec_init_inv data n Hs)) as Hinv. fold d in Hinv.
  pose proof (dec_decode_inv md pm em lf data _ Hd Hs Hm d Hinv) as Hdec.
  destruct (actf_decoder_decode md pm em lf d) as [r d'], Hdec as [H3 H4].
  split; [apply Hinv|]. split; [apply H3|]. intros es E. by destruct (H4 es E).
Qed.

(** The tokener of a sample stream: text is a digit, the index of a JSON value. *)
Definition index_tokener (js : list jval) : Tokener jval unit :=
  {| json_tokener_new := tt;
     json_tokener_parse_ex _ frag := (match frag with [k] => js !! Z.to_nat (k - 48) | _ => None end, tt);
     json_tokener_get_error _ := json_tokener_success |}.

Definition uint8_json (roles : list jval) : jval :=
  JObj [("type", JStr "fixed-length-unsigned-integer"); ("length", JInt 8); ("byte-order", JStr "little-endian");
        ("alignment", JInt 8); ("roles", JArr roles)].
Definition struct_json (ms : list (string * jval)) : jval :=
  JObj [("type", JStr "structure");
        ("member-classes", JArr (map (fun m => JObj [("name", JStr (fst m)); ("field-class", snd m)]) ms))].

(** The metadata of [Samples] as fragments. *)
Definition sample_frags : list jval :=
  [ JObj [("type", JStr "preamble"); ("version", JInt 2)];
    JObj [("type", JStr "clock-class"); ("id", JStr "clk"); ("frequency", JInt 1000000000); ("origin", JStr "unix-epoch")];
    JObj [("type", JStr "data-stream-class"); ("default-clock-class-id", JStr "clk");
          ("packet-context-field-class", struct_json [("len", uint8_json [JStr "packet-total-length"])]);
          ("event-record-header-field-class",
            struct_json [("id", uint8_json [JStr "event-record-class-id"]); ("ts", uint8_json [JStr "default-clock-timestamp"])])];
    JObj [("type", JStr "event-record-class"); ("payload-field-class", struct_json [("x", uint8_json [])])] ]%string.

(** Four fragments, the last of them twice: the second time it is refused. *)
Definition sample_text : list Z := [30; 48; 30; 49; 30; 50; 30; 51; 30; 51].

Definition sample_init : pstate :=
  match actf_metadata_init (H := heap_ok) O with
  | (Ok (Some m), k) => (m, k)
  | _ => (nil_metadata (mk_umap [] 0 0 0), O)
  end.
Definition sample_parse : pstate :=
  parse_texts (H0 := heap_ok) (H1 := index_tokener sample_frags) [sample_text] (fst sample_init, snd sample_init).

(** A packet with an event of timestamp 5. *)
Example sample_decodes :
  match fst (actf_decoder_decode (fst sample_parse) (fun _ _ => true) (fun _ _ => true) 4 (actf_decoder_init [32; 0; 5; 7] O)) with
  | Ok es => map actf_event_tstamp_ns_from_origin es = [Some 5] | _ => False
  end.
Proof. vm_compute. done. Qed.

Example parsed_metadata_decodes_safely_witness :
  let md := fst sample_parse in
  let d := fold_left (fun d c => do_call md malloc_yes malloc_yes 4 c d) [CallDecode] (actf_decoder_init [32; 0; 5; 7] O) in
  let '(r, d') := actf_decoder_decode md malloc_yes malloc_yes 4 d in
  br_ok [32; 0; 5; 7] (br d) /\ br_ok [32; 0; 5; 7] (br d') /\
  forall es, r = Ok es -> (length es <= eff_cap O)%nat /\ Forall complete es.
Proof.
  pose proof (parsed_metadata_decodes_safely (H0 := heap_ok) (H1 := index_tokener sample_frags) O (fst sample_init)
            (snd sample_init) [sample_text] malloc_yes malloc_yes 4 [32; 0; 5; 7] O [CallDecode]) as Hsafe.
  unfold sample_parse. apply Hsafe.
  - vm_compute. reflexivity.
  - apply md_no_zerob_ok. vm_compute. reflexivity.
  - apply bytes_ok. reflexivity.
  - done.
Defined.
