(* ===== verification/Print.v ===== *)
(** The printer, [print.c]: numbers in four bases, fields, time stamps and events
    as text.

    What is printed is the text of a stream, to which the functions add.  The
    converter [iconv] is not part of the repository and is a class; the local time
    zone is a parameter. *)
From S2P Require Import Prelude Common Libc Error Rng Clock FldCls HashMap Metadata MetadataAccess Json JsonUtils Mappings Fld.
From stdpp Require Import strings list.
Open Scope Z_scope.

(** * Numbers *)

Definition clz_lookup : list Z :=
  [8; 7; 6; 6; 5; 5; 5; 5] ++ replicate 8 4 ++ replicate 16 3 ++ replicate 32 2 ++ replicate 64 1 ++ replicate 128 0.

Definition clz (n : Z) : Z :=
  if n =? 0 then 64
  else
    let '(r, n) := if Z.land n 0xFFFFFFFF00000000 =? 0 then (32, u64 (Z.shiftl n 32)) else (0, n) in
    let '(r, n) := if Z.land n 0xFFFF000000000000 =? 0 then (r + 16, u64 (Z.shiftl n 16)) else (r, n) in
    let '(r, n) := if Z.land n 0xFF00000000000000 =? 0 then (r + 8, u64 (Z.shiftl n 8)) else (r, n) in
    r + nth (Z.to_nat (Z.shiftr n 56)) clz_lookup 0.

(** The characters that are written to [str]. *)
Definition sprint_uint_bin (n : Z) : text :=
  let len := MAX (64 - clz n) 1 in
  lit "0b" ++ map (fun i => ascii_of_Z (Z.land (Z.shiftr n (len - 1 - Z.of_nat i)) 1 + 48)) (seq 0 (Z.to_nat len)).

(** [None] is the negation of the least [int64_t], which overflows. *)
Definition sint_text (v : Z) (base : actf_base) : option text :=
  let neg fmt := if v =? INT64_MIN then None else Some (lit "-" ++ fmt (u64 (- v))) in
  match base with
  | ACTF_BASE_BINARY => if v >=? 0 then Some (sprint_uint_bin (u64 v)) else neg sprint_uint_bin
  | ACTF_BASE_OCTAL => if v >=? 0 then Some (fmt_o (u64 v)) else neg fmt_o
  | ACTF_BASE_DECIMAL => Some (fmt_i v)
  | ACTF_BASE_HEXADECIMAL => if v >=? 0 then Some (fmt_x (u64 v)) else neg fmt_x
  end.

Definition uint_text (v : Z) (base : actf_base) : text :=
  match base with
  | ACTF_BASE_BINARY => sprint_uint_bin v
  | ACTF_BASE_OCTAL => fmt_o v
  | ACTF_BASE_DECIMAL => fmt_u v
  | ACTF_BASE_HEXADECIMAL => fmt_x v
  end.

(** * The printer *)

(** [enum actf_printer_flags]. *)
Definition ACTF_PRINT_PKT_HEADER : Z := Z.shiftl 1 0.
Definition ACTF_PRINT_PKT_CTX : Z := Z.shiftl 1 1.
Definition ACTF_PRINT_EVENT_HEADER : Z := Z.shiftl 1 2.
Definition ACTF_PRINT_EVENT_COMMON_CTX : Z := Z.shiftl 1 3.
Definition ACTF_PRINT_EVENT_SPECIFIC_CTX : Z := Z.shiftl 1 4.
Definition ACTF_PRINT_EVENT_PAYLOAD : Z := Z.shiftl 1 5.
Definition ACTF_PRINT_PROP_LABELS : Z := Z.shiftl 1 6.
Definition ACTF_PRINT_TSTAMP_DELTA : Z := Z.shiftl 1 7.
Definition ACTF_PRINT_TSTAMP_CC : Z := Z.shiftl 1 8.
Definition ACTF_PRINT_TSTAMP_UTC : Z := Z.shiftl 1 9.
Definition ACTF_PRINT_TSTAMP_DATE : Z := Z.shiftl 1 10.
Definition ACTF_PRINT_TSTAMP_SEC : Z := Z.shiftl 1 11.
Definition ACTF_PRINT_ALL : Z :=
  Z.lor ACTF_PRINT_PKT_HEADER (Z.lor ACTF_PRINT_PKT_CTX (Z.lor ACTF_PRINT_EVENT_HEADER
    (Z.lor ACTF_PRINT_EVENT_COMMON_CTX (Z.lor ACTF_PRINT_EVENT_SPECIFIC_CTX ACTF_PRINT_EVENT_PAYLOAD)))).

(** [flags & flag]. *)
Definition set_in (flags flag : Z) : bool := c_true (Z.land flags flag).

(** How a call of [iconv] ends: all input is converted, the output is full
    ([E2BIG]), or another error; with the number of bytes read and the bytes
    written. *)
Inductive iconv_end := IC_DONE | IC_E2BIG | IC_FAIL.
Record iconv_result := mk_iconv_result { ic_end : iconv_end; ic_read : nat; ic_written : list Z }.

(** Conversion descriptors from an encoding to UTF-8: opening one, converting the
    input into at most so many bytes, and the call without input that writes what
    the descriptor holds back. *)
Class Iconv (CD : Type) := {
  iconv_open : actf_encoding -> option CD;
  iconv : CD -> list Z -> Z -> iconv_result * CD;
  iconv_flush : CD -> Z -> iconv_result * CD
}.

Definition DEFAULT_CONVBUF_SZ : Z := 1024.

(** [pkt_to_print] and [ev_to_print] are the used parts of the arrays; [last_tstamp]
    is the member of the union that the flags select. *)
Record actf_printer (CD : Type) := mk_printer {
  to_utf8 : actf_encoding -> option CD;
  convbuf_sz : Z;
  p_flags : Z;
  pkt_to_print : list actf_pkt_prop;
  ev_to_print : list actf_event_prop;
  last_tstamp : Z;
  has_last_tstamp : bool
}.
Arguments mk_printer {CD}. Arguments to_utf8 {CD}. Arguments convbuf_sz {CD}. Arguments p_flags {CD}.
Arguments pkt_to_print {CD}. Arguments ev_to_print {CD}. Arguments last_tstamp {CD}. Arguments has_last_tstamp {CD}.

(** A printer and the text of the stream. *)
Record pst (CD : Type) := mk_pst { prn : actf_printer CD; out : text }.
Arguments mk_pst {CD}. Arguments prn {CD}. Arguments out {CD}.

(** The properties of [tbl] whose flag is set, in order. *)
Definition props_of {P} (flags : Z) (tbl : list (Z * P)) : list P :=
  map snd (List.filter (fun e => set_in flags (fst e)) tbl).

Definition pkt_table : list (Z * actf_pkt_prop) :=
  [(ACTF_PRINT_PKT_HEADER, ACTF_PKT_PROP_HEADER); (ACTF_PRINT_PKT_CTX, ACTF_PKT_PROP_CTX)].
Definition ev_table : list (Z * actf_event_prop) :=
  [(ACTF_PRINT_EVENT_HEADER, ACTF_EVENT_PROP_HEADER); (ACTF_PRINT_EVENT_COMMON_CTX, ACTF_EVENT_PROP_COMMON_CTX);
   (ACTF_PRINT_EVENT_SPECIFIC_CTX, ACTF_EVENT_PROP_SPECIFIC_CTX); (ACTF_PRINT_EVENT_PAYLOAD, ACTF_EVENT_PROP_PAYLOAD)].

Definition actf_pkt_prop_to_name (prop : actf_pkt_prop) : string :=
  match prop with ACTF_PKT_PROP_HEADER => "packet-header" | ACTF_PKT_PROP_CTX => "packet-context" end.

Definition actf_event_prop_to_name (prop : actf_event_prop) : string :=
  match prop with
  | ACTF_EVENT_PROP_HEADER => "event-header"
  | ACTF_EVENT_PROP_COMMON_CTX => "event-common-context"
  | ACTF_EVENT_PROP_SPECIFIC_CTX => "event-specific-context"
  | ACTF_EVENT_PROP_PAYLOAD => "event-payload"
  end.

(** What the pointers of an event reach: the packet it is in and the bytes of its
    data stream. *)
Record event_ref := mk_event_ref { er_ev : actf_event; er_pkt : actf_pkt; er_data : list Z }.

(** ** Time stamps *)

(** [b] bytes of a string at most, up to the null byte; reading on after the end of
    memory is undefined. *)
Fixpoint c_strn (b : list Z) (n : option nat) : option (list Z) :=
  match n with
  | Some O => Some []
  | _ =>
      match b with
      | [] => None
      | c :: b' => if c =? 0 then Some [] else cons c <$> c_strn b' (pred <$> n)
      end
  end.

(** [%.*s] with a precision of type [int]: a negative one counts as none. *)
Definition fmt_s (b : list Z) (prec : Z) : option text :=
  text_of_bytes <$> c_strn b (if prec <? 0 then None else Some (Z.to_nat prec)).

Section Printer.
Context {CD : Type} `{Iconv CD} (localtime : Z -> tm).
Notation P := (st (pst CD)).

(** [None] is [NULL]; [oom] says that an allocation fails. *)
Definition actf_printer_init (oom : bool) (flags : Z) : option (actf_printer CD) :=
  if oom then None
  else Some (mk_printer (fun _ => None) DEFAULT_CONVBUF_SZ flags (props_of flags pkt_table) (props_of flags ev_table) 0 false).

Definition put (s : text) : P unit := st_modify (fun p => mk_pst (prn p) (out p ++ s)).
Definition put_opt (s : option text) : P unit := match s with Some s => put s | None => st_undef end.
Definition fprint_sint (v : Z) (base : actf_base) : P unit := put_opt (sint_text v base).
Definition fprint_uint (v : Z) (base : actf_base) : P unit := put (uint_text v base).

Definition set_prn (f : actf_printer CD -> actf_printer CD) : P unit := st_modify (fun p => mk_pst (f (prn p)) (out p)).
Definition set_cd (enc : actf_encoding) (cd : CD) (p : actf_printer CD) : actf_printer CD :=
  mk_printer (fun e => if decide (e = enc) then Some cd else to_utf8 p e) (convbuf_sz p) (p_flags p) (pkt_to_print p)
    (ev_to_print p) (last_tstamp p) (has_last_tstamp p).
Definition set_last (has : bool) (t : Z) (p : actf_printer CD) : actf_printer CD :=
  mk_printer (to_utf8 p) (convbuf_sz p) (p_flags p) (pkt_to_print p) (ev_to_print p) t has.

Definition init_to_utf8_iconv (enc : actf_encoding) : P Z :=
  p ← st_get;
  match to_utf8 (prn p) enc with
  | Some _ => mret ACTF_OK
  | None =>
      match iconv_open enc with
      | None => mret ACTF_ERROR
      | Some cd => set_prn (set_cd enc cd);; mret ACTF_OK
      end
  end.

(** Prints a number of names after a colon. *)
Definition put_names (r : outcome (string * Z)) : P unit :=
  put (lit ": ");;
  match r with
  | Ok (names, n) => put (lit names);; if n =? 0 then put (lit "nil") else mret tt
  | _ => st_undef
  end.

Definition put_mappings (is_signed : bool) (maps : option actf_mappings) (v : Z) : P unit :=
  match maps with
  | None => mret tt
  | Some maps =>
      if c_true (actf_mappings_len maps)
      then put_names ((if is_signed then smappings_fprint_names else umappings_fprint_names) maps v) else mret tt
  end.

(** The conversion loop of a string: [buf] is what [convbuf] holds. *)
Fixpoint conv_loop (fuel : nat) (enc : actf_encoding) (inbuf buf : list Z) : P Z :=
  match inbuf, fuel with
  | [], _ => mret ACTF_OK
  | _, O => st_undef
  | _, S fuel =>
      p ← st_get;
      match to_utf8 (prn p) enc with
      | None => st_undef
      | Some cd =>
          let '(r, cd) := iconv cd inbuf (convbuf_sz (prn p) - Z.of_nat (length buf)) in
          set_prn (set_cd enc cd);;
          let buf := buf ++ ic_written r in
          let inbuf := drop (ic_read r) inbuf in
          match ic_end r with
          | IC_E2BIG => put (text_of_bytes (c_text buf));; conv_loop fuel enc inbuf []
          | IC_FAIL => put (lit "?");; mret ACTF_ERROR
          | IC_DONE => put (text_of_bytes (c_text buf));; conv_loop fuel enc inbuf buf
          end
      end
  end.

Definition conv_flush (enc : actf_encoding) : P Z :=
  p ← st_get;
  match to_utf8 (prn p) enc with
  | None => st_undef
  | Some cd =>
      let '(r, cd) := iconv_flush cd (convbuf_sz (prn p)) in
      set_prn (set_cd enc cd);;
      match ic_end r with
      | IC_DONE => put (text_of_bytes (c_text (ic_written r)));; mret ACTF_OK
      | _ => put (lit "?");; mret ACTF_ERROR
      end
  end.

(** A double quote. *)
Definition dq : text := [ascii_of_Z 34].

Definition fprint_str (enc : actf_encoding) (str : list Z) (sz : Z) : P Z :=
  match enc with
  | ACTF_ENCODING_UTF8 =>
      match fmt_s str (i32 sz) with
      | Some s => put (dq ++ s ++ dq);; mret ACTF_OK
      | None => st_undef
      end
  | _ =>
      rc ← init_to_utf8_iconv enc;
      if rc <? 0 then mret rc
      else
        put dq;;
        rc ← (if Z.of_nat (length str) <? sz then st_undef
              else conv_loop (S (Z.to_nat sz)) enc (take (Z.to_nat sz) str) []);
        rc ← (if rc =? ACTF_OK then conv_flush enc else mret rc);
        put dq;; mret rc
  end.

(** [for (i = 0; i < n; i++) body(i)]. *)
Fixpoint for_loop (n : nat) (i : Z) (body : Z -> P unit) : P unit :=
  match n with
  | O => mret tt
  | S n => body i;; for_loop n (i + 1) body
  end.

(** The class of a field is read where the type of the field needs it; a field
    without a class is a null pointer. *)
Definition with_cls (fld : actf_fld) (k : actf_fld_cls -> P Z) : P Z :=
  match f_cls fld with Some cls => k cls | None => st_undef end.

(** [actf_fprint_fld]: the return codes of the fields inside are dropped.  [data] is
    what pointers of strings and blobs point into; the fuel is the nesting depth. *)
Fixpoint actf_fprint_fld (fuel : nat) (data : list Z) (fld : actf_fld) : P Z :=
  match fuel with
  | O => st_undef
  | S fuel =>
      let sub o := match o with Some f => _ ← actf_fprint_fld fuel data f; mret tt | None => st_undef end in
      match f_d fld with
      | ACTF_FLD_TYPE_NIL => put (lit "nil");; mret ACTF_OK
      | ACTF_FLD_TYPE_SINT _ => with_cls fld (fun cls =>
          fprint_sint (actf_fld_int64 fld) (actf_fld_cls_pref_display_base cls);;
          put_mappings true (actf_fld_cls_mappings cls) (actf_fld_int64 fld);; mret ACTF_OK)
      | ACTF_FLD_TYPE_UINT _ _ => with_cls fld (fun cls =>
          fprint_uint (actf_fld_uint64 fld) (actf_fld_cls_pref_display_base cls);;
          put_mappings false (actf_fld_cls_mappings cls) (actf_fld_uint64 fld);; mret ACTF_OK)
      | ACTF_FLD_TYPE_BIT_MAP _ => with_cls fld (fun cls =>
          fprint_uint (actf_fld_uint64 fld) ACTF_BASE_HEXADECIMAL;;
          match actf_fld_cls_bit_map_flags cls with
          | Some flags => put_names (actf_flags_fprint_names flags (actf_fld_uint64 fld));; mret ACTF_OK
          | None => st_undef
          end)
      | ACTF_FLD_TYPE_REAL _ =>
          match actf_fld_double fld with Some bits => put (fmt_f bits);; mret ACTF_OK | None => st_undef end
      | ACTF_FLD_TYPE_ARR _ _ =>
          put (lit "[");;
          for_loop (Z.to_nat (actf_fld_arr_len fld)) 0 (fun i =>
            (if i =? 0 then mret tt else put (lit ", "));; sub (actf_fld_arr_idx fld i));;
          put (lit "]");; mret ACTF_OK
      | ACTF_FLD_TYPE_BOOL _ => put (fmt_i (Z.b2z (actf_fld_bool fld)));; mret ACTF_OK
      | ACTF_FLD_TYPE_STR ptr len => with_cls fld (fun cls =>
          fprint_str (actf_fld_cls_encoding cls) (drop (Z.to_nat ptr) data) len)
      | ACTF_FLD_TYPE_BLOB ptr len =>
          for_loop (Z.to_nat len) 0 (fun i =>
            match data !! Z.to_nat (ptr + i) with Some b => put (fmt_02x b) | None => st_undef end);;
          mret ACTF_OK
      | ACTF_FLD_TYPE_STRUCT _ =>
          put (lit "{ ");;
          let len := actf_fld_struct_len fld in
          for_loop (Z.to_nat len) 0 (fun i =>
            match actf_fld_struct_fld_name_idx fld i with Some name => put (lit name ++ lit ": ") | None => st_undef end;;
            sub (actf_fld_struct_fld_idx fld i);;
            if i =? len - 1 then mret tt else put (lit ", "));;
          put (lit " }");; mret ACTF_OK
      end
  end.

(** ** Time stamps and events *)

Definition NS_PER_SEC : Z := 1000000000.

Definition tstamp_text (tstamp_ns flags : Z) : outcome text :=
  let sec := Z.quot tstamp_ns NS_PER_SEC in
  let nsec := Z.rem tstamp_ns NS_PER_SEC in
  if set_in flags ACTF_PRINT_TSTAMP_SEC then
    Ok (lit "[" ++ fmt_i sec ++ lit "." ++ fmt_0i 9 (Z.abs nsec) ++ lit "] ")
  else
    let '(sec, nsec) := if nsec <? 0 then (sec - 1, NS_PER_SEC + nsec) else (sec, nsec) in
    let tm := if set_in flags ACTF_PRINT_TSTAMP_UTC then gmtime sec else localtime sec in
    let buf := if set_in flags ACTF_PRINT_TSTAMP_DATE then strftime 22 (fmt_ymdhms tm) else strftime 10 (fmt_hms tm) in
    match buf with
    | Ok s => Ok (lit "[" ++ s ++ lit "." ++ fmt_0i 9 nsec ++ lit "] ")
    | Err rc => Err rc
    | Undef => Undef
    end.

Definition fprint_tstamp_ns (tstamp_ns flags : Z) : P unit :=
  match tstamp_text tstamp_ns flags with Ok s => put s | _ => st_undef end.

(** The delta to the time stamp before, by [sub], which can overflow. *)
Definition fprint_delta (tstamp : Z) (sub : Z -> Z -> option text) : P unit :=
  p ← st_get;
  (if set_in (p_flags (prn p)) ACTF_PRINT_TSTAMP_DELTA then
     (if has_last_tstamp (prn p) then
        match sub tstamp (last_tstamp (prn p)) with
        | Some s => put (lit "(+" ++ s ++ lit ") ")
        | None => st_undef
        end
      else put (lit "(+??????????) "));;
     set_prn (set_last true tstamp)
   else mret tt).

Definition sub_ns (a b : Z) : option text :=
  let d := a - b in if (INT64_MIN <=? d) && (d <=? INT64_MAX) then Some (fmt_0i 10 d) else None.
Definition sub_cc (a b : Z) : option text := Some (fmt_0u 10 (u64 (a - b))).

Definition fprint_event_tstamp (ev : actf_event) : P unit :=
  p ← st_get;
  if negb (set_in (p_flags (prn p)) ACTF_PRINT_TSTAMP_CC) then
    match actf_event_tstamp_ns_from_origin ev with
    | None => st_undef
    | Some tstamp => fprint_tstamp_ns tstamp (p_flags (prn p));; fprint_delta tstamp sub_ns
    end
  else
    let tstamp := actf_event_tstamp ev in
    put (lit "[" ++ fmt_0u 20 tstamp ++ lit "] ");; fprint_delta tstamp sub_cc.

(** The two loops over properties: whether a comma is due. *)
Fixpoint fprint_props {Prop_} (fuel : nat) (data : list Z) (get : Prop_ -> actf_fld) (name : Prop_ -> string)
    (props : list Prop_) (do_comma : bool) : P bool :=
  match props with
  | [] => mret do_comma
  | prop :: props =>
      let fld := get prop in
      if decide (fld_type fld = FLD_TYPE_NIL) then fprint_props fuel data get name props do_comma
      else
        p ← st_get;
        (if do_comma then put (lit ", ") else mret tt);;
        (if set_in (p_flags (prn p)) ACTF_PRINT_PROP_LABELS then put (lit (name prop) ++ lit ": ") else mret tt);;
        _ ← actf_fprint_fld fuel data fld;
        fprint_props fuel data get name props true
  end.

Definition event_name_text (evc : actf_event_cls) : text :=
  match actf_event_cls_namespace evc, actf_event_cls_name evc with
  | Some ns, Some name => lit ns ++ lit "::" ++ lit name ++ lit ": "
  | None, Some name => lit name ++ lit ": "
  | _, None => []
  end.

Definition actf_fprint_event (fuel : nat) (er : event_ref) : P Z :=
  match ev_cls (ev_s (er_ev er)), ev_dsc (er_ev er) with
  | Some evc, Some dsc =>
      (match actf_dstream_cls_clk_cls dsc with Some _ => fprint_event_tstamp (er_ev er) | None => mret tt end);;
      put (event_name_text evc);;
      put (lit "{ ");;
      p ← st_get;
      do_comma ← fprint_props fuel (er_data er) (pkt_props (er_pkt er)) actf_pkt_prop_to_name (pkt_to_print (prn p)) false;
      _ ← fprint_props fuel (er_data er) (ev_props (er_ev er)) actf_event_prop_to_name (ev_to_print (prn p)) do_comma;
      put (lit " }");;
      mret ACTF_OK
  | _, _ => st_undef
  end.
End Printer.
