(* ===== verification/PrintNum.v ===== *)
(** Printed numbers: counting leading zeros is the position of the highest bit,
    the binary digits are those of the number, and every number that the printer
    writes, in any base, is read back as itself. *)
From S2P Require Import Prelude Common Libc Print.
From stdpp Require Import strings list.
Open Scope Z_scope.

(** * Leading zeros *)

Lemma mask_zero x l m : is_u64 x -> 0 <= l <= 64 -> m = u64 (Z.lnot (2 ^ l - 1)) -> (Z.land x m =? 0) = (x <? 2 ^ l).
Proof.
  intros Hx Hl ->. rewrite land_high by done. unfold is_u64 in Hx. pose proof (pow2_pos l).
  pose proof (Z.mod_pos_bound x (2 ^ l)). pose proof (Z.div_mod x (2 ^ l)).
  destruct (Z.ltb_spec x (2 ^ l)).
  - rewrite Z.mod_small by lia. by rewrite Z.sub_diag.
  - apply Z.eqb_neq. lia.
Qed.

(** One halving: the number moves up until its highest bit is above [2 ^ l]. *)
Lemma clz_step l k m r x : is_u64 x -> 0 < x -> 0 <= k -> l = 64 - k -> 0 <= l -> m = u64 (Z.lnot (2 ^ l - 1)) -> 2 ^ (l - k) <= x ->
  let '(r', x') := if Z.land x m =? 0 then (r + k, u64 (Z.shiftl x k)) else (r, x) in
  is_u64 x' /\ 2 ^ l <= x' /\ r' - Z.log2 x' = r - Z.log2 x.
Proof.
  intros Hx H0 Hk -> Hl Hm Hlo. rewrite (mask_zero x (64 - k) m) by (done || lia). destruct (Z.ltb_spec x (2 ^ (64 - k))); [|done].
  rewrite Z.shiftl_mul_pow2 by done.
  assert (E : 2 ^ (64 - k) * 2 ^ k = 2 ^ 64) by (rewrite <- Z.pow_add_r by lia; f_equal; lia). pose proof (pow2_pos k Hk).
  assert (Hu : is_u64 (x * 2 ^ k)) by (unfold is_u64; nia).
  rewrite u64_small by done. split_and!; [done| |].
  - destruct (Z.le_gt_cases k (64 - k)).
    + transitivity (2 ^ (64 - k - k) * 2 ^ k); [|nia]. rewrite <- Z.pow_add_r by lia. apply Z.eq_le_incl. f_equal. lia.
    + transitivity (2 ^ k); [apply Z.pow_le_mono_r; lia|nia].
  - rewrite Z.log2_mul_pow2 by lia. lia.
Qed.

Lemma clz_lookup_spec i : 0 < i < 256 -> nth (Z.to_nat i) clz_lookup 0 = 7 - Z.log2 i.
Proof.
  intros Hi. assert (H : forall i, 0 <= i < 256 -> (i =? 0) || (nth (Z.to_nat i) clz_lookup 0 =? 7 - Z.log2 i) = true).
  { apply (forall_range (fun i => (i =? 0) || (nth (Z.to_nat i) clz_lookup 0 =? 7 - Z.log2 i)) 256). by vm_compute. }
  specialize (H i ltac:(lia)). destruct (Z.eqb_spec i 0); [lia|]. cbn [orb] in H. lia.
Qed.

Lemma clz_spec n : is_u64 n -> clz n = if n =? 0 then 64 else 63 - Z.log2 n.
Proof.
  intros Hn. unfold clz. destruct (Z.eqb_spec n 0) as [|Hne]; [done|].
  pose proof (clz_step 32 32 0xFFFFFFFF00000000 0 n Hn) as H1.
  change (0 + 32) with 32 in H1. destruct (if Z.land n 0xFFFFFFFF00000000 =? 0 then _ else _) as [r1 n1].
  destruct H1 as (U1 & L1 & E1); try done; [unfold is_u64 in Hn; lia|unfold is_u64 in Hn; change (2 ^ (32 - 32)) with 1; lia|].
  pose proof (clz_step 48 16 0xFFFF000000000000 r1 n1 U1) as H2. destruct (if Z.land n1 0xFFFF000000000000 =? 0 then _ else _) as [r2 n2].
  destruct H2 as (U2 & L2 & E2); try done; [lia|].
  pose proof (clz_step 56 8 0xFF00000000000000 r2 n2 U2) as H3. destruct (if Z.land n2 0xFF00000000000000 =? 0 then _ else _) as [r3 n3].
  destruct H3 as (U3 & L3 & E3); try done; [lia|]. unfold is_u64 in U3.
  assert (Hs : 0 < Z.shiftr n3 56 < 256).
  { rewrite Z.shiftr_div_pow2 by lia. split; [apply Z.div_str_pos; lia|apply Z.div_lt_upper_bound; lia]. }
  rewrite clz_lookup_spec by done. rewrite Z.log2_shiftr by lia.
  assert (56 <= Z.log2 n3) by (apply Z.log2_le_pow2; lia). lia.
Qed.

(** * Binary digits *)

(** The digits from the highest bit of [len] down. *)
Lemma digits_acc_bin fuel : forall n acc, 0 < n -> Z.log2 n < Z.of_nat fuel ->
  digits_acc fuel 2 n acc = map (fun i => digit (Z.land (Z.shiftr n (Z.log2 n - Z.of_nat i)) 1)) (seq 0 (S (Z.to_nat (Z.log2 n)))) ++ acc.
Proof.
  induction fuel as [|fuel IH]; intros n acc Hn Hf; [pose proof (Z.log2_nonneg n); lia|]. cbn [digits_acc].
  assert (Hbit : forall m, Z.land m 1 = m mod 2) by (intros m; change 1 with (Z.ones 1); by rewrite Z.land_ones).
  assert (Hd : n / 2 = Z.shiftr n 1) by (by rewrite Z.shiftr_div_pow2).
  destruct (Z.eqb_spec (n / 2) 0) as [E|E].
  - assert (n = 1) as -> by zlia. done.
  - assert (Hn2 : 0 < n / 2) by zlia. assert (Hl : Z.log2 n = Z.log2 (n / 2) + 1) by (rewrite Hd, Z.log2_shiftr; [|lia]; assert (1 <= Z.log2 n) by (apply Z.log2_le_pow2; zlia); lia).
    pose proof (Z.log2_nonneg (n / 2)) as Hl0. rewrite IH by lia. rewrite Hl.
    replace (Z.to_nat (Z.log2 (n / 2) + 1)) with (S (Z.to_nat (Z.log2 (n / 2)))) by lia.
    rewrite (seq_S (S (Z.to_nat (Z.log2 (n / 2))))), map_app, <- app_assoc. f_equal.
    + apply map_ext_in. intros i Hi%in_seq. replace (Z.log2 (n / 2) + 1 - Z.of_nat i) with (1 + (Z.log2 (n / 2) - Z.of_nat i)) by lia.
      rewrite <- Z.shiftr_shiftr by lia. by rewrite <- Hd.
    + cbn [map app]. rewrite Hbit. replace (Z.log2 (n / 2) + 1 - _) with 0 by lia. by rewrite Z.shiftr_0_r.
Qed.

(** The text of [sprint_uint_bin], which fits its buffer of 66 bytes. *)
Lemma sprint_uint_bin_spec n : is_u64 n -> sprint_uint_bin n = lit "0b" ++ digits 2 n /\ (length (sprint_uint_bin n) <= 66)%nat.
Proof.
  intros Hn. assert (E : sprint_uint_bin n = lit "0b" ++ digits 2 n).
  { unfold sprint_uint_bin. f_equal. rewrite clz_spec by done. rewrite MAX_spec. unfold digits.
    destruct (Z.eqb_spec n 0) as [->|Hne]; [by vm_compute|]. pose proof (Z.log2_nonneg n). unfold is_u64 in Hn.
    rewrite digits_acc_bin by lia. rewrite app_nil_r. replace (Z.max (64 - (63 - Z.log2 n)) 1) with (Z.log2 n + 1) by lia.
    replace (Z.to_nat (Z.log2 n + 1)) with (S (Z.to_nat (Z.log2 n))) by lia. apply map_ext_in. intros i Hi%in_seq.
    replace (Z.log2 n + 1 - 1 - Z.of_nat i) with (Z.log2 n - Z.of_nat i) by lia.
    unfold digit. change 1 with (Z.ones 1). rewrite Z.land_ones by lia.
    pose proof (Z.mod_pos_bound (Z.shiftr n (Z.log2 n - Z.of_nat i)) (2 ^ 1)). destruct (Z.ltb_spec (Z.shiftr n (Z.log2 n - Z.of_nat i) mod 2 ^ 1) 10); [|lia].
    f_equal. lia. }
  split; [done|]. rewrite E, length_app. unfold is_u64 in Hn. destruct (digits_reads 2 n) as (_ & _ & Hl); [lia|lia|].
  specialize (Hl 64). cbn [length lit list_ascii_of_string]. lia.
Qed.

(** * Reading numbers back *)

(** All of [s] as a number in base [b]. *)
Definition num (b : Z) (s : text) : option Z :=
  match s with
  | [] => None
  | _ => match read_digits b 0 s with (v, []) => Some v | _ => None end
  end.

(** An integer as C writes it: an optional sign, and a prefix that gives the base. *)
Definition read_mag (s : text) : option Z :=
  match s with
  | "0"%char :: "b"%char :: r => num 2 r
  | "0"%char :: "x"%char :: r => num 16 r
  | "0"%char :: _ => num 8 s
  | _ => num 10 s
  end.

Definition read_int (s : text) : option Z :=
  match s with "-"%char :: r => Z.opp <$> read_mag r | _ => read_mag s end.

Lemma num_digits b n : 2 <= b <= 16 -> 0 <= n -> num b (digits b n) = Some n.
Proof.
  intros Hb Hn. destruct (digits_reads b n Hb Hn) as (Hr & (d & r & E & _) & _). unfold num.
  pose proof (reads_value b _ n [] Hr I) as Hv. rewrite app_nil_r in Hv. rewrite Hv. by rewrite E.
Qed.

(** A digit that is not zero is none of the characters that the prefixes use. *)
Lemma digit_char d : 0 < d < 10 -> digit d <> "0"%char /\ digit d <> "b"%char /\ digit d <> "x"%char /\ digit d <> "-"%char.
Proof.
  intros Hd. unfold digit. destruct (Z.ltb_spec d 10); [|lia].
  assert (Hc : ch (ascii_of_Z (48 + d)) = 48 + d) by (apply ch_ascii_of_Z; lia).
  split_and!; intros E; apply (f_equal ch) in E; rewrite Hc in E;
    match type of E with _ = ?x => let y := eval vm_compute in x in change x with y in E end; lia.
Qed.

(** The cases of [read_mag]. *)
Lemma read_mag_prefix s : match s with "0"%char :: _ => False | _ => True end -> read_mag s = num 10 s.
Proof. destruct s as [|[[] [] [] [] [] [] [] []] s]; done. Qed.

Lemma read_mag_octal c s : c <> "b"%char -> c <> "x"%char -> read_mag ("0"%char :: c :: s) = num 8 ("0"%char :: c :: s).
Proof. destruct c as [[] [] [] [] [] [] [] []]; done. Qed.

Lemma read_int_mag s : match s with "-"%char :: _ => False | _ => True end -> read_int s = read_mag s.
Proof. destruct s as [|[[] [] [] [] [] [] [] []] s]; done. Qed.

Lemma read_mag_decimal n : 0 <= n -> read_mag (digits 10 n) = Some n.
Proof.
  intros Hn. destruct (Z.eq_dec n 0) as [->|Hne]; [by vm_compute|]. rewrite read_mag_prefix; [by apply num_digits|].
  destruct (digits_reads 10 n) as (_ & (d & r & -> & Hd & Hd0) & _); [lia|done|].
  destruct (digit_char d) as (H0 & _); [lia|]. by destruct (digit d) as [[] [] [] [] [] [] [] []].
Qed.

Lemma read_mag_octal_digits n : 0 <= n -> read_mag (fmt_o n) = Some n.
Proof.
  intros Hn. unfold fmt_o. destruct (Z.eqb_spec n 0) as [->|Hne]; [by vm_compute|].
  destruct (digits_reads 8 n) as (Hr & (d & r & E & Hd & Hd0) & _); [lia|done|].
  pose proof (reads_zeros 8 1 _ n ltac:(lia) Hr) as Hz. change (zeros 1) with (lit "0") in Hz. rewrite E in Hz |- *.
  cbn [lit list_ascii_of_string app] in Hz |- *. destruct (digit_char d) as (_ & Hb & Hx & _); [lia|]. rewrite read_mag_octal by done.
  pose proof (reads_value 8 _ n [] Hz I) as Hv. rewrite app_nil_r in Hv. unfold num. by rewrite Hv.
Qed.

Lemma read_mag_hex n : 0 <= n -> read_mag (fmt_x n) = Some n.
Proof.
  intros Hn. unfold fmt_x. destruct (Z.eqb_spec n 0) as [->|Hne]; [by vm_compute|].
  change (read_mag (lit "0x" ++ digits 16 n)) with (num 16 (digits 16 n)). apply num_digits; lia.
Qed.

Lemma read_mag_uint v base : is_u64 v -> read_mag (uint_text v base) = Some v.
Proof.
  intros Hv. assert (0 <= v) by (unfold is_u64 in Hv; lia). destruct base; cbn [uint_text].
  - rewrite (proj1 (sprint_uint_bin_spec v Hv)). change (read_mag (lit "0b" ++ digits 2 v)) with (num 2 (digits 2 v)).
    apply num_digits; lia.
  - by apply read_mag_octal_digits.
  - by apply read_mag_decimal.
  - by apply read_mag_hex.
Qed.

(** No magnitude starts with a sign. *)
Lemma uint_text_unsigned v base : is_u64 v -> match uint_text v base with "-"%char :: _ => False | _ => True end.
Proof.
  intros Hv. assert (0 <= v) by (unfold is_u64 in Hv; lia). destruct base; cbn [uint_text].
  - by rewrite (proj1 (sprint_uint_bin_spec v Hv)).
  - unfold fmt_o. by destruct (v =? 0).
  - unfold fmt_u. destruct (Z.eq_dec v 0) as [->|Hne]; [by vm_compute|].
    destruct (digits_reads 10 v) as (_ & (d & r & -> & Hd & Hd0) & _); [lia|done|].
    destruct (digit_char d) as (_ & _ & _ & Hm); [lia|]. by destruct (digit d) as [[] [] [] [] [] [] [] []].
  - unfold fmt_x. by destruct (v =? 0).
Qed.

(** A signed number is the magnitude, after a sign when it is negative. *)
Lemma sint_text_uint v base : is_i64 v ->
  sint_text v base = if 0 <=? v then Some (uint_text v base)
                     else if bool_decide (base <> ACTF_BASE_DECIMAL) && (v =? INT64_MIN) then None
                     else Some (lit "-" ++ uint_text (- v) base).
Proof.
  intros Hv. unfold is_i64 in Hv. unfold sint_text. rewrite Z.geb_leb.
  destruct (Z.leb_spec 0 v) as [H0|H0].
  - rewrite u64_small by (unfold is_u64; lia). destruct base; try done. cbn. unfold fmt_i. destruct (Z.ltb_spec v 0); [lia|done].
  - assert (Hu : u64 (- v) = - v) by (apply u64_small; unfold is_u64; lia). rewrite Hu.
    destruct base; cbn [uint_text]; try (rewrite bool_decide_true by done; cbn [andb]; by destruct (v =? INT64_MIN)).
    rewrite bool_decide_false by (intros H; by apply H). cbn [andb]. unfold fmt_i. destruct (Z.ltb_spec v 0); [done|lia].
Qed.

(** C29: every integer that is printed is read back.  An unsigned 64-bit integer in any
    base, with the prefix that C gives the base, is text that denotes it; so is a
    signed one, but for the least integer in a base other than ten, whose negation
    is undefined. *)
Theorem printed_numbers_read_back base :
  (forall v, is_u64 v -> read_int (uint_text v base) = Some v) /\
  (forall v, is_i64 v ->
     match sint_text v base with
     | Some s => read_int s = Some v
     | None => v = INT64_MIN /\ base <> ACTF_BASE_DECIMAL
     end).
Proof.
  assert (Hu : forall v, is_u64 v -> read_int (uint_text v base) = Some v).
  { intros v Hv. rewrite read_int_mag by (by apply uint_text_unsigned). by apply read_mag_uint. }
  split; [exact Hu|]. intros v Hv. rewrite sint_text_uint by done. unfold is_i64 in Hv.
  destruct (Z.leb_spec 0 v); [apply Hu; unfold is_u64; lia|].
  case_bool_decide as Hb; cbn [andb]; [destruct (Z.eqb_spec v INT64_MIN); [done|]|];
    cbn [lit list_ascii_of_string app read_int]; (rewrite read_mag_uint by (unfold is_u64; lia)); cbn; f_equal; lia.
Qed.

Example printed_numbers_read_back_witness :
  read_int (uint_text 0xdeadbeef ACTF_BASE_HEXADECIMAL) = Some 0xdeadbeef /\
  sint_text (-5) ACTF_BASE_BINARY = Some (lit "-0b101") /\ sint_text INT64_MIN ACTF_BASE_OCTAL = None.
Proof.
  split_and!; [|by vm_compute..]. apply (proj1 (printed_numbers_read_back ACTF_BASE_HEXADECIMAL)). unfold is_u64. lia.
Defined.
