(* ===== verification/PrintSpec.v ===== *)
(** Printed fields and events: the text of a field as a function of the field, and
    the proof that the printer, with its loops, its conversion buffer and its
    state, writes exactly that text.

    The converter is assumed to do what [iconv] is documented to do for the
    encodings of CTF, which have no shift states ([IconvLaws]); an instance for a
    part of UTF-16 shows that this can be met. *)
From S2P Require Import Prelude Common Libc Error Rng Clock FldCls HashMap Metadata MetadataAccess Json JsonUtils Mappings MappingsTree Fld Samples Print.
From stdpp Require Import strings list.
Open Scope Z_scope.

(** * The converter *)

(** [conv enc b] is the UTF-8 text of bytes in encoding [enc], if they are valid;
    [cd_of enc] holds of the descriptors for [enc]. *)
Class IconvLaws (CD : Type) `{Iconv CD} := {
  conv : actf_encoding -> list Z -> option (list Z);
  cd_of : actf_encoding -> CD -> Prop;
  conv_nil enc : conv enc [] = Some [];
  iconv_open_of enc cd : iconv_open enc = Some cd -> cd_of enc cd;
  iconv_keeps enc cd inb room : cd_of enc cd -> cd_of enc (snd (iconv cd inb room));
  iconv_spec enc cd inb room r cd' : cd_of enc cd -> iconv cd inb room = (r, cd') ->
    match ic_end r with
    | IC_DONE => ic_read r = length inb /\ conv enc inb = Some (ic_written r)
    | IC_E2BIG => conv enc inb = app (ic_written r) <$> conv enc (drop (ic_read r) inb) /\
        (DEFAULT_CONVBUF_SZ <= room -> (0 < ic_read r)%nat)
    | IC_FAIL => conv enc inb = None
    end;
  iconv_flush_spec enc cd room r cd' : cd_of enc cd -> iconv_flush cd room = (r, cd') ->
    ic_end r = IC_DONE /\ ic_written r = [] /\ cd_of enc cd'
}.

(** * The text of a field *)

Fixpoint join (sep : text) (ts : list text) : text :=
  match ts with
  | [] => []
  | [t] => t
  | t :: ts' => t ++ sep ++ join sep ts'
  end.

#[local] Arguments lit : simpl never.

Section Spec.
Context {CD : Type} `{IconvLaws CD} (localtime : Z -> tm).
Notation P := (st (pst CD)).

(** The names after a number; no name is written [nil]. *)
Definition names_text (r : outcome (string * Z)) : option text :=
  match r with
  | Ok (names, n) => Some (lit ": " ++ lit names ++ if n =? 0 then lit "nil" else [])
  | _ => None
  end.

Definition mappings_text (is_signed : bool) (maps : option actf_mappings) (v : Z) : option text :=
  match maps with
  | None => Some []
  | Some maps =>
      if c_true (actf_mappings_len maps)
      then names_text ((if is_signed then smappings_fprint_names else umappings_fprint_names) maps v) else Some []
  end.

(** A string in UTF-8 up to its first null byte, in another encoding converted;
    converted text with null bytes is left out. *)
Definition str_text (enc : actf_encoding) (str : list Z) (sz : Z) : option text :=
  match enc with
  | ACTF_ENCODING_UTF8 => s ← fmt_s str (i32 sz); Some (dq ++ s ++ dq)
  | _ =>
      _ ← iconv_open enc;
      if Z.of_nat (length str) <? sz then None
      else
        b ← conv enc (take (Z.to_nat sz) str);
        if forallb (fun c => negb (c =? 0)) b then Some (dq ++ text_of_bytes b ++ dq) else None
  end.

Definition member_text (m : string * actf_fld_cls) (t : text) : text := lit (fst m) ++ lit ": " ++ t.

(** [None] where printing the field is undefined or fails. *)
Fixpoint fld_text (data : list Z) (fld : actf_fld) : option text :=
  let '(mk_fld cls _ d) := fld in
  match d with
  | ACTF_FLD_TYPE_NIL => Some (lit "nil")
  | ACTF_FLD_TYPE_BOOL b => Some (lit (if b then "1" else "0"))
  | ACTF_FLD_TYPE_SINT v =>
      cls ← cls;
      s ← sint_text v (actf_fld_cls_pref_display_base cls);
      n ← mappings_text true (actf_fld_cls_mappings cls) v;
      Some (s ++ n)
  | ACTF_FLD_TYPE_UINT v _ =>
      cls ← cls;
      n ← mappings_text false (actf_fld_cls_mappings cls) v;
      Some (uint_text v (actf_fld_cls_pref_display_base cls) ++ n)
  | ACTF_FLD_TYPE_BIT_MAP v =>
      cls ← cls;
      flags ← actf_fld_cls_bit_map_flags cls;
      n ← names_text (actf_flags_fprint_names flags v);
      Some (fmt_x v ++ n)
  | ACTF_FLD_TYPE_REAL _ => fmt_f <$> actf_fld_double fld
  | ACTF_FLD_TYPE_STR ptr len => cls ← cls; str_text (actf_fld_cls_encoding cls) (drop (Z.to_nat ptr) data) len
  | ACTF_FLD_TYPE_BLOB ptr len =>
      if (0 <=? ptr) && (0 <=? len) && (ptr + len <=? Z.of_nat (length data))
      then Some (concat (map fmt_02x (mem_slice data ptr len))) else None
  | ACTF_FLD_TYPE_ARR vals n =>
      ts ← mapM (fld_text data) vals;
      if Z.of_nat (length vals) =? n then Some (lit "[" ++ join (lit ", ") ts ++ lit "]") else None
  | ACTF_FLD_TYPE_STRUCT vals =>
      ts ← mapM (fld_text data) vals;
      match cls with
      | Some (FC_STRUCT ms _ _) =>
          if (length vals =? length ms)%nat
          then Some (lit "{ " ++ join (lit ", ") (zip_with member_text ms ts) ++ lit " }") else None
      | _ => None
      end
  end.

(** The nesting of a field. *)
Fixpoint fld_depth (fld : actf_fld) : nat :=
  match f_d fld with
  | ACTF_FLD_TYPE_ARR vals _ | ACTF_FLD_TYPE_STRUCT vals => S (list_max (map fld_depth vals))
  | _ => 1
  end.

(** * What a program prints *)

(** The printer apart from the descriptors; descriptors are of their encoding. *)
Definition same_printer (q q' : actf_printer CD) : Prop :=
  convbuf_sz q' = convbuf_sz q /\ p_flags q' = p_flags q /\ pkt_to_print q' = pkt_to_print q /\
  ev_to_print q' = ev_to_print q /\ last_tstamp q' = last_tstamp q /\ has_last_tstamp q' = has_last_tstamp q.

Definition cds_ok (q : actf_printer CD) : Prop :=
  convbuf_sz q = DEFAULT_CONVBUF_SZ /\ forall enc cd, to_utf8 q enc = Some cd -> cd_of enc cd.

(** The same, and the descriptor for an encoding is open. *)
Definition cd_ready (enc : actf_encoding) (q : actf_printer CD) : Prop := cds_ok q /\ is_Some (to_utf8 q enc).

(** [prints I c a t]: from any printer that satisfies [I], [c] writes [t], returns [a]
    and leaves the printer as it was but for the descriptors, with [I]. *)
Definition prints {A} (I : actf_printer CD -> Prop) (c : P A) (a : A) (t : text) : Prop :=
  forall p, I (prn p) -> exists q, c p = (Ok a, mk_pst q (out p ++ t)) /\ same_printer (prn p) q /\ I q.

#[local] Instance same_printer_equiv : Equivalence same_printer.
Proof. split; [done| |]; unfold same_printer; [intros ???|intros ?????]; naive_solver congruence. Qed.

Section Rules.
Context (I : actf_printer CD -> Prop).

Lemma prints_ret {A} (a : A) : prints I (mret a) a [].
Proof. intros [q s] Hq. exists q. cbn. by rewrite app_nil_r. Qed.

Lemma prints_put s : prints I (put s) tt s.
Proof. intros [q s0] Hq. exists q. done. Qed.

Lemma prints_sep (b : bool) s : prints I (if b then mret tt else put s) tt (if b then [] else s).
Proof. destruct b; [apply prints_ret|apply prints_put]. Qed.

Lemma prints_put_opt o s : o = Some s -> prints I (put_opt o) tt s.
Proof. intros ->. apply prints_put. Qed.

Lemma prints_bind {A B} (m : P A) (k : A -> P B) a b t1 t2 t :
  prints I m a t1 -> prints I (k a) b t2 -> t = t1 ++ t2 -> prints I (m ≫= k) b t.
Proof.
  intros Hm Hk -> p Hp. destruct (Hm p Hp) as (q1 & R1 & S1 & C1).
  destruct (Hk (mk_pst q1 (out p ++ t1)) C1) as (q2 & R2 & S2 & C2). exists q2.
  rewrite (st_bind_ok _ _ _ _ _ R1), R2. cbn. rewrite <- app_assoc. split_and!; try done.
  cbn in S2. by transitivity q1.
Qed.

Lemma prints_seq {A B} (m : P A) (k : P B) a b t1 t2 t :
  prints I m a t1 -> prints I k b t2 -> t = t1 ++ t2 -> prints I (m ;; k) b t.
Proof. intros Hm Hk. by apply (prints_bind m (fun _ => k) a b). Qed.

(** Loops. *)
Lemma prints_for body ts : forall i,
  (forall j t, ts !! j = Some t -> prints I (body (i + Z.of_nat j)) tt t) ->
  prints I (for_loop (length ts) i body) tt (concat ts).
Proof.
  induction ts as [|t ts IH]; intros i Hb; cbn [length for_loop concat]; [apply prints_ret|].
  eapply prints_seq; [|apply IH|done].
  - specialize (Hb 0%nat t eq_refl). by rewrite Z.add_0_r in Hb.
  - intros j t' Hj. replace (i + 1 + Z.of_nat j) with (i + Z.of_nat (S j)) by lia. by apply Hb.
Qed.
End Rules.

(** Separators before every element but the first, or after every one but the
    last. *)
Lemma join_before sep ts : concat (imap (fun i t => (if Z.of_nat i =? 0 then [] else sep) ++ t) ts) = join sep ts.
Proof.
  destruct ts as [|t ts]; [done|]. cbn [imap concat]. change (if Z.of_nat 0 =? 0 then [] else sep) with (@nil ascii).
  cbn [app]. revert t. induction ts as [|t' ts IH]; intros t; [apply app_nil_r|].
  change (join sep (t :: t' :: ts)) with (t ++ sep ++ join sep (t' :: ts)). rewrite <- IH. f_equal.
  cbn [imap concat]. rewrite app_assoc. by f_equal; f_equal; apply imap_ext.
Qed.

Lemma join_after sep ts :
  concat (imap (fun i t => t ++ if Z.of_nat i =? Z.of_nat (length ts) - 1 then [] else sep) ts) = join sep ts.
Proof.
  induction ts as [|t ts IH]; [done|]. cbn [imap concat]. destruct ts as [|t' ts].
  - cbn. by rewrite !app_nil_r.
  - change (join sep (t :: t' :: ts)) with (t ++ sep ++ join sep (t' :: ts)). rewrite <- IH. cbn [length].
    destruct (Z.eqb_spec (Z.of_nat 0) (Z.of_nat (S (S (length ts))) - 1)); [lia|]. rewrite <- app_assoc. do 2 f_equal.
    f_equal. apply imap_ext. intros i x _. cbn [length compose]. do 2 f_equal.
    destruct (Z.eqb_spec (Z.of_nat (S i)) (Z.of_nat (S (S (length ts))) - 1)), (Z.eqb_spec (Z.of_nat i) (Z.of_nat (S (length ts)) - 1)); done || lia.
Qed.

(** * Strings *)

Lemma c_text_nonzero b : forallb (fun c => negb (c =? 0)) b = true -> c_text b = b.
Proof.
  induction b as [|c b IH]; [done|]. cbn. intros [Hc Hb]%andb_prop. destruct (c =? 0); [done|]. by rewrite IH.
Qed.

Lemma cds_ok_set enc cd q : cds_ok q -> cd_of enc cd -> cds_ok (set_cd enc cd q).
Proof.
  intros [Hz Hq] Hcd. split; [done|]. intros e c. cbn. destruct (decide (e = enc)) as [->|]; [by intros [= <-]|apply Hq].
Qed.

Lemma prints_set_cd enc cd : cd_of enc cd -> prints (cd_ready enc) (set_prn (set_cd enc cd)) tt [].
Proof.
  intros Hcd [q s] [Hq _]. exists (set_cd enc cd q). cbn. rewrite app_nil_r. split_and!; try done.
  split; [by apply cds_ok_set|]. cbn. rewrite decide_True by done. by eexists.
Qed.

Lemma prints_conv_loop enc fuel : forall inb w, (length inb <= fuel)%nat -> conv enc inb = Some w ->
  forallb (fun c => negb (c =? 0)) w = true -> prints (cd_ready enc) (conv_loop fuel enc inb []) ACTF_OK (text_of_bytes w).
Proof.
  induction fuel as [|fuel IH]; intros inb w Hl Hc Hw.
  { destruct inb; [|cbn in Hl; lia]. rewrite conv_nil in Hc. injection Hc as <-. apply prints_ret. }
  destruct inb as [|b inb]; [rewrite conv_nil in Hc; injection Hc as <-; apply prints_ret|].
  intros p [Hp [cd Hcd]]. cbn [conv_loop]. rewrite (st_bind_ok st_get _ _ p p) by done. rewrite Hcd.
  change (Z.of_nat (length [])) with 0. destruct Hp as [Hsz Hq]. rewrite Hsz, Z.sub_0_r. pose proof (Hq enc cd Hcd) as Hof.
  pose proof (iconv_spec enc cd (b :: inb) DEFAULT_CONVBUF_SZ) as Hspec. pose proof (iconv_keeps enc cd (b :: inb) DEFAULT_CONVBUF_SZ Hof) as Hk.
  destruct (iconv cd (b :: inb) DEFAULT_CONVBUF_SZ) as [r cd']. specialize (Hspec r cd' Hof eq_refl). cbn [snd] in Hk.
  revert p Hcd Hsz Hq. intros p Hcd Hsz Hq. cbn [app].
  enough (Hgo : prints (cd_ready enc) (set_prn (set_cd enc cd');;
    match ic_end r with
    | IC_DONE => put (text_of_bytes (c_text (ic_written r)));; conv_loop fuel enc (drop (ic_read r) (b :: inb)) (ic_written r)
    | IC_E2BIG => put (text_of_bytes (c_text (ic_written r)));; conv_loop fuel enc (drop (ic_read r) (b :: inb)) []
    | IC_FAIL => put (lit "?");; mret ACTF_ERROR
    end) ACTF_OK (text_of_bytes w)) by (apply Hgo; split; [split; [exact Hsz|exact Hq]|by eexists]).
  eapply prints_seq; [by apply prints_set_cd| |by rewrite app_nil_l]. destruct (ic_end r).
  - destruct Hspec as [Hr Hw']. rewrite Hc in Hw'. injection Hw' as ->. rewrite c_text_nonzero by done.
    rewrite Hr, drop_all. eapply prints_seq; [apply prints_put| |by rewrite app_nil_r]. destruct fuel; apply prints_ret.
  - destruct Hspec as [Hw' Hr]. rewrite Hc in Hw'. destruct (conv enc (drop _ _)) as [w'|] eqn:Hc'; [|done]. injection Hw' as ->.
    rewrite forallb_app in Hw. apply andb_prop in Hw as [Hw1 Hw2]. rewrite c_text_nonzero by done.
    eapply prints_seq; [apply prints_put| |by unfold text_of_bytes; rewrite map_app]. apply IH; [|done|done].
    specialize (Hr (Z.le_refl _)). rewrite length_drop. cbn in Hl |- *. lia.
  - by rewrite Hc in Hspec.
Qed.

Lemma prints_conv_flush enc : prints (cd_ready enc) (conv_flush enc) ACTF_OK [].
Proof.
  intros p [[Hsz Hq] [cd Hcd]]. unfold conv_flush. rewrite (st_bind_ok st_get _ _ p p) by done. rewrite Hcd.
  destruct (iconv_flush cd (convbuf_sz (prn p))) as [r cd'] eqn:Hf.
  destruct (iconv_flush_spec enc cd _ r cd' (Hq enc cd Hcd) Hf) as (-> & -> & Hcd').
  enough (Hgo : prints (cd_ready enc) (set_prn (set_cd enc cd');; put (text_of_bytes (c_text []));; mret ACTF_OK) ACTF_OK [])
    by (apply Hgo; split; [split; [exact Hsz|exact Hq]|by eexists]).
  eapply prints_seq; [by apply prints_set_cd| |done]. eapply prints_seq; [apply prints_put|apply prints_ret|done].
Qed.

(** Opening the descriptor when it is not open yet. *)
Lemma init_iconv_run enc p : cds_ok (prn p) -> is_Some (iconv_open enc) ->
  exists q, init_to_utf8_iconv enc p = (Ok ACTF_OK, mk_pst q (out p)) /\ same_printer (prn p) q /\ cd_ready enc q.
Proof.
  intros Hp [cd Hcd]. unfold init_to_utf8_iconv. rewrite (st_bind_ok st_get _ _ p p) by done.
  destruct (to_utf8 (prn p) enc) as [cd'|] eqn:Ht.
  - exists (prn p). destruct p. split; [done|]. split; [done|]. split; [done|by eexists].
  - rewrite Hcd. eexists. split; [reflexivity|]. split; [done|]. split; [by apply cds_ok_set, iconv_open_of|].
    cbn. rewrite decide_True by done. by eexists.
Qed.

Lemma prints_str enc str sz t : str_text enc str sz = Some t -> prints cds_ok (fprint_str enc str sz) ACTF_OK t.
Proof.
  assert (Hconv : forall t, (_ ← iconv_open enc;
      if Z.of_nat (length str) <? sz then None
      else b ← conv enc (take (Z.to_nat sz) str);
        if forallb (fun c => negb (c =? 0)) b then Some (dq ++ text_of_bytes b ++ dq) else None) = Some t ->
    prints cds_ok (rc ← init_to_utf8_iconv enc;
      if rc <? 0 then mret rc
      else
        put dq;;
        rc ← (if Z.of_nat (length str) <? sz then st_undef
              else conv_loop (S (Z.to_nat sz)) enc (take (Z.to_nat sz) str) []);
        rc ← (if rc =? ACTF_OK then conv_flush enc else mret rc);
        put dq;; mret rc) ACTF_OK t).
  { clear t. intros t. destruct (iconv_open enc) as [cd|] eqn:Ho; [|done]. cbn [mbind option_bind]. destruct (Z.of_nat (length str) <? sz); [done|].
    destruct (conv enc _) as [b|] eqn:Hc; [|done]. cbn [mbind option_bind]. destruct (forallb _ b) eqn:Hb; [|done]. intros [= <-] p Hp.
    destruct (init_iconv_run enc p Hp (ex_intro _ cd Ho)) as (q1 & R1 & S1 & C1). rewrite (st_bind_ok _ _ _ _ _ R1).
    change (ACTF_OK <? 0) with false. cbv iota.
    match goal with |- exists q, ?c _ = _ /\ _ =>
      enough (Hgo : prints (cd_ready enc) c ACTF_OK (dq ++ text_of_bytes b ++ dq))
        by (destruct (Hgo (mk_pst q1 (out p)) C1) as (q2 & R2 & S2 & C2 & _); exists q2; split_and!; [exact R2|by transitivity q1|exact C2])
    end.
    eapply prints_seq; [apply prints_put| |done].
    eapply prints_bind; [apply prints_conv_loop; [rewrite length_take; lia|done|done]| |done].
    change (ACTF_OK =? ACTF_OK) with true. cbv iota.
    eapply prints_bind; [apply prints_conv_flush| |done]. eapply prints_seq; [apply prints_put|apply prints_ret|done]. }
  destruct enc; [|exact (Hconv t)..]. cbn [str_text fprint_str]. destruct (fmt_s str (i32 sz)) as [s|]; [|done]. intros [= <-].
  eapply prints_seq; [apply prints_put|apply prints_ret|by rewrite app_nil_r].
Qed.

(** * Fields *)

Lemma prints_names I r t : names_text r = Some t -> prints I (put_names r) tt t.
Proof.
  destruct r as [[names n]|rc|]; [|done..]. intros [= <-]. unfold put_names.
  eapply prints_seq; [apply prints_put| |done]. eapply prints_seq; [apply prints_put| |done].
  destruct (n =? 0); [apply prints_put|apply prints_ret].
Qed.

Lemma prints_mappings I sg maps v t : mappings_text sg maps v = Some t -> prints I (put_mappings sg maps v) tt t.
Proof.
  unfold mappings_text, put_mappings. destruct maps as [maps|]; [|intros [= <-]; apply prints_ret].
  destruct (c_true _); [apply prints_names|intros [= <-]; apply prints_ret].
Qed.

(** The loop over the elements of a field, given what each prints. *)
Lemma prints_elems I body ts (wrap : nat -> text -> text) n :
  Z.of_nat (length ts) = n ->
  (forall j t, ts !! j = Some t -> prints I (body (Z.of_nat j)) tt (wrap j t)) ->
  prints I (for_loop (Z.to_nat n) 0 body) tt (concat (imap wrap ts)).
Proof.
  intros <- Hb. rewrite Nat2Z.id. rewrite <- (length_imap wrap ts). apply prints_for.
  intros j t Hj. rewrite list_lookup_imap in Hj. destruct (ts !! j) as [t0|] eqn:Ht; [|done]. injection Hj as <-. by apply Hb.
Qed.

Lemma prints_blob I data ptr len : 0 <= ptr -> 0 <= len -> ptr + len <= Z.of_nat (length data) ->
  prints I (for_loop (Z.to_nat len) 0 (fun i =>
    match data !! Z.to_nat (ptr + i) with Some b => put (fmt_02x b) | None => st_undef end)) tt
    (concat (map fmt_02x (mem_slice data ptr len))).
Proof.
  intros Hp Hl Hb. assert (Hlen : Z.of_nat (length (mem_slice data ptr len)) = len).
  { unfold mem_slice. rewrite length_take, length_drop. lia. }
  change (map fmt_02x ?l) with (fmt_02x <$> l). rewrite <- (imap_const fmt_02x (mem_slice data ptr len)). rewrite <- Hlen at 1. rewrite Nat2Z.id.
  rewrite <- (length_imap (const fmt_02x) (mem_slice data ptr len)).
  apply prints_for. intros j t Hj. rewrite list_lookup_imap in Hj.
  destruct (mem_slice data ptr len !! j) as [b|] eqn:Ht; [|done]. injection Hj as <-.
  pose proof (lookup_lt_Some _ _ _ Ht). unfold mem_slice in Ht. rewrite lookup_take_lt in Ht by lia. rewrite lookup_drop in Ht.
  replace (Z.to_nat (ptr + (0 + Z.of_nat j))) with (Z.to_nat ptr + j)%nat by lia. rewrite Ht. apply prints_put.
Qed.

(** Fields inside are printed when the field is. *)
Lemma depth_inside fuel v vals : v ∈ vals -> (S (list_max (map fld_depth vals)) <= S fuel)%nat -> (fld_depth v <= fuel)%nat.
Proof.
  intros Hv Hl. pose proof (proj1 (list_max_le (map fld_depth vals) fuel) ltac:(lia)) as Hall. rewrite List.Forall_forall in Hall. apply Hall.
  apply in_map. by apply list_elem_of_In.
Qed.

(** The field at an index is printed by the recursive call. *)
Lemma prints_sub fuel data vals ts j t :
  (forall fld t, fld_text data fld = Some t -> (fld_depth fld <= fuel)%nat -> prints cds_ok (actf_fprint_fld fuel data fld) ACTF_OK t) ->
  mapM (fld_text data) vals = Some ts -> (S (list_max (map fld_depth vals)) <= S fuel)%nat -> ts !! j = Some t ->
  exists v, vals !! j = Some v /\ prints cds_ok (_ ← actf_fprint_fld fuel data v; mret tt) tt t.
Proof.
  intros IH Hts Hf Hj. apply mapM_Some in Hts. destruct (Forall2_lookup_r _ _ _ _ _ Hts Hj) as (v & Hv & Hvt). exists v. split; [done|].
  eapply prints_bind; [apply IH; [exact Hvt|]|apply prints_ret|by rewrite app_nil_r].
  eapply depth_inside; [by eapply list_elem_of_lookup_2|done].
Qed.

Lemma fprint_arr_text fuel data cls par vals n t :
  (forall fld t, fld_text data fld = Some t -> (fld_depth fld <= fuel)%nat -> prints cds_ok (actf_fprint_fld fuel data fld) ACTF_OK t) ->
  fld_text data (mk_fld cls par (ACTF_FLD_TYPE_ARR vals n)) = Some t -> (S (list_max (map fld_depth vals)) <= S fuel)%nat ->
  prints cds_ok (actf_fprint_fld (S fuel) data (mk_fld cls par (ACTF_FLD_TYPE_ARR vals n))) ACTF_OK t.
Proof.
  intros IH Ht Hf. cbn [fld_text] in Ht. destruct (mapM (fld_text data) vals) as [ts|] eqn:Hts; [|done]. cbn [mbind option_bind] in Ht.
  destruct (Z.eqb_spec (Z.of_nat (length vals)) n) as [Hn|]; [|done]. injection Ht as <-. cbn [actf_fprint_fld f_d].
  assert (Hl : length ts = length vals) by (apply mapM_Some, Forall2_length in Hts; done).
  eapply prints_seq; [apply prints_put| |done]. eapply prints_seq; [|eapply prints_seq; [apply prints_put|apply prints_ret|done]|by rewrite app_nil_r].
  rewrite <- (join_before (lit ", ") ts). apply (prints_elems _ _ ts); [cbn; lia|]. intros j t Hj.
  destruct (prints_sub fuel data vals ts j t IH Hts Hf Hj) as (v & Hv & Hpv). pose proof (lookup_lt_Some _ _ _ Hj).
  eapply prints_seq; [apply prints_sep| |done].
  unfold actf_fld_arr_idx. cbn [f_d]. rewrite Z.geb_leb. destruct (Z.leb_spec n (Z.of_nat j)); [lia|]. rewrite Nat2Z.id, Hv. exact Hpv.
Qed.

Lemma fprint_struct_text fuel data cls par vals t :
  (forall fld t, fld_text data fld = Some t -> (fld_depth fld <= fuel)%nat -> prints cds_ok (actf_fprint_fld fuel data fld) ACTF_OK t) ->
  fld_text data (mk_fld cls par (ACTF_FLD_TYPE_STRUCT vals)) = Some t -> (S (list_max (map fld_depth vals)) <= S fuel)%nat ->
  prints cds_ok (actf_fprint_fld (S fuel) data (mk_fld cls par (ACTF_FLD_TYPE_STRUCT vals))) ACTF_OK t.
Proof.
  intros IH Ht Hf. cbn [fld_text] in Ht. destruct (mapM (fld_text data) vals) as [ts|] eqn:Hts; [|done]. cbn [mbind option_bind] in Ht.
  destruct cls as [[]|]; try done. destruct (Nat.eqb_spec (length vals) (length member_clses)) as [Hn|]; [|done]. injection Ht as <-.
  cbn [actf_fprint_fld f_d]. set (fld := mk_fld _ _ _). set (ms := member_clses) in *.
  assert (Hl : length ts = length vals) by (apply mapM_Some, Forall2_length in Hts; done).
  set (us := zip_with member_text ms ts). assert (Hu : length us = length ms) by (unfold us; rewrite length_zip_with; lia).
  assert (Hslen : actf_fld_struct_len fld = Z.of_nat (length us)) by (rewrite Hu; done). rewrite Hslen.
  eapply prints_seq; [apply prints_put| |done]. eapply prints_seq; [|eapply prints_seq; [apply prints_put|apply prints_ret|done]|by rewrite app_nil_r].
  rewrite <- (join_after (lit ", ") us). apply (prints_elems _ _ us); [done|]. intros j u Hj.
  pose proof (lookup_lt_Some _ _ _ Hj). unfold us in Hj. apply lookup_zip_with_Some in Hj as (m & t & -> & Hm & Hj).
  destruct (prints_sub fuel data vals ts j t IH Hts Hf Hj) as (v & Hv & Hpv).
  unfold actf_fld_struct_fld_name_idx, actf_fld_struct_fld_idx, struct_fld, fld. cbn [f_d f_cls mbind option_bind].
  rewrite Z.geb_leb. fold ms. destruct (Z.leb_spec (Z.of_nat (length ms)) (Z.of_nat j)); [lia|]. rewrite Nat2Z.id, Hm, Hv.
  change (fst <$> Some m) with (Some (fst m)). cbv iota.
  eapply prints_seq; [apply prints_put| |unfold member_text; by rewrite <- !app_assoc].
  eapply prints_seq; [exact Hpv| |done]. apply prints_sep.
Qed.

Lemma fprint_fld_text fuel : forall data fld t, fld_text data fld = Some t -> (fld_depth fld <= fuel)%nat ->
  prints cds_ok (actf_fprint_fld fuel data fld) ACTF_OK t.
Proof.
  induction fuel as [|fuel IH]; intros data [cls par d] t Ht Hf; [destruct d; cbn in Hf; lia|].
  destruct d; [..|by apply fprint_arr_text; [apply IH| |]|by apply fprint_struct_text; [apply IH| |]];
    clear IH Hf; cbn [fld_text] in Ht; cbn [actf_fprint_fld f_d];
    unfold with_cls; cbn [f_cls]; try (destruct cls as [cls|]; [cbn [mbind option_bind] in Ht|done]).
  - injection Ht as <-. eapply prints_seq; [apply prints_put|apply prints_ret|done].
  - injection Ht as <-. eapply prints_seq; [apply prints_put|apply prints_ret|by destruct val].
  - destruct (sint_text val _) as [s|] eqn:Hs; [|done]. cbn [mbind option_bind] in Ht.
    destruct (mappings_text true _ val) as [n|] eqn:Hn; [|done]. injection Ht as <-.
    eapply prints_seq; [by apply prints_put_opt| |done].
    eapply prints_seq; [apply prints_mappings; exact Hn|apply prints_ret|by rewrite app_nil_r].
  - destruct (mappings_text false _ val) as [n|] eqn:Hn; [|done]. injection Ht as <-.
    eapply prints_seq; [apply prints_put| |done].
    eapply prints_seq; [apply prints_mappings; exact Hn|apply prints_ret|by rewrite app_nil_r].
  - destruct (actf_fld_cls_bit_map_flags cls) as [flags|]; [|done]. cbn [mbind option_bind] in Ht.
    destruct (names_text _) as [n|] eqn:Hn; [|done]. injection Ht as <-. eapply prints_seq; [apply prints_put| |done].
    eapply prints_seq; [apply prints_names; exact Hn|apply prints_ret|by rewrite app_nil_r].
  - destruct (actf_fld_double _) as [bits|]; [|done]. injection Ht as <-. eapply prints_seq; [apply prints_put|apply prints_ret|by rewrite app_nil_r].
  - by apply prints_str.
  - destruct (Z.leb_spec 0 ptr), (Z.leb_spec 0 len), (Z.leb_spec (ptr + len) (Z.of_nat (length data))); try done. injection Ht as <-.
    eapply prints_seq; [by apply prints_blob|apply prints_ret|by rewrite app_nil_r].
Qed.

(** * Events *)

(** The delta to the event before, in the unit of the time stamps. *)
Definition delta_text (q : actf_printer CD) (tstamp : Z) (sub : Z -> Z -> option text) : option text :=
  if set_in (p_flags q) ACTF_PRINT_TSTAMP_DELTA then
    if has_last_tstamp q then s ← sub tstamp (last_tstamp q); Some (lit "(+" ++ s ++ lit ") ")
    else Some (lit "(+??????????) ")
  else Some [].

(** The time stamp that is printed and its text. *)
Definition event_stamp (q : actf_printer CD) (ev : actf_event) : option Z :=
  if set_in (p_flags q) ACTF_PRINT_TSTAMP_CC then Some (actf_event_tstamp ev) else actf_event_tstamp_ns_from_origin ev.

Definition event_stamp_text (q : actf_printer CD) (ev : actf_event) : option text :=
  tstamp ← event_stamp q ev;
  if set_in (p_flags q) ACTF_PRINT_TSTAMP_CC then
    d ← delta_text q tstamp sub_cc; Some (lit "[" ++ fmt_0u 20 tstamp ++ lit "] " ++ d)
  else
    match tstamp_text localtime tstamp (p_flags q) with
    | Ok s => d ← delta_text q tstamp sub_ns; Some (s ++ d)
    | _ => None
    end.

Definition has_clk (ev : actf_event) : bool :=
  match ev_dsc ev with Some dsc => bool_decide (is_Some (actf_dstream_cls_clk_cls dsc)) | None => false end.

(** The printer after an event: the time stamp is kept for the next delta. *)
Definition event_after (q : actf_printer CD) (ev : actf_event) : actf_printer CD :=
  if has_clk ev && set_in (p_flags q) ACTF_PRINT_TSTAMP_DELTA then
    match event_stamp q ev with Some t => set_last true t q | None => q end
  else q.

(** The properties that are not empty, with their labels. *)
Definition shown {Prop_} (get : Prop_ -> actf_fld) (props : list Prop_) : list Prop_ :=
  List.filter (fun prop => negb (bool_decide (fld_type (get prop) = FLD_TYPE_NIL))) props.

Definition prop_text {Prop_} (labels : bool) (data : list Z) (get : Prop_ -> actf_fld) (name : Prop_ -> string) (prop : Prop_) : option text :=
  t ← fld_text data (get prop); Some (if labels then (lit (name prop) ++ lit ": ") ++ t else t).

Definition event_text (q : actf_printer CD) (er : event_ref) : option text :=
  evc ← ev_cls (ev_s (er_ev er));
  _ ← ev_dsc (er_ev er);
  stamp ← (if has_clk (er_ev er) then event_stamp_text q (er_ev er) else Some []);
  let labels := set_in (p_flags q) ACTF_PRINT_PROP_LABELS in
  ps ← mapM (prop_text labels (er_data er) (pkt_props (er_pkt er)) actf_pkt_prop_to_name) (shown (pkt_props (er_pkt er)) (pkt_to_print q));
  es ← mapM (prop_text labels (er_data er) (ev_props (er_ev er)) actf_event_prop_to_name) (shown (ev_props (er_ev er)) (ev_to_print q));
  Some (stamp ++ event_name_text evc ++ lit "{ " ++ join (lit ", ") (ps ++ es) ++ lit " }").

(** The nesting of all fields of an event. *)
Definition event_depth (er : event_ref) : nat :=
  list_max (map fld_depth (map (pkt_props (er_pkt er)) [ACTF_PKT_PROP_HEADER; ACTF_PKT_PROP_CTX] ++
    map (ev_props (er_ev er)) [ACTF_EVENT_PROP_HEADER; ACTF_EVENT_PROP_COMMON_CTX; ACTF_EVENT_PROP_SPECIFIC_CTX; ACTF_EVENT_PROP_PAYLOAD])).

(** ** The loops over properties *)

(** Texts after [comma]. *)
Definition seps (comma : bool) (ts : list text) : text :=
  if comma then concat (map (app (lit ", ")) ts) else join (lit ", ") ts.

Lemma join_cons sep t ts : join sep (t :: ts) = t ++ concat (map (app sep) ts).
Proof.
  revert t. induction ts as [|t' ts IH]; intros t; [by rewrite app_nil_r|].
  change (join sep (t :: t' :: ts)) with (t ++ sep ++ join sep (t' :: ts)). rewrite IH. cbn [map concat]. by rewrite <- app_assoc.
Qed.

Lemma seps_cons comma t ts : seps comma (t :: ts) = (if comma then lit ", " else []) ++ t ++ seps true ts.
Proof. destruct comma; cbn [seps]; [cbn [map concat]; by rewrite <- app_assoc|]. apply join_cons. Qed.

Definition nonempty {A} (l : list A) : bool := match l with [] => false | _ => true end.

Lemma seps_app ts us : join (lit ", ") (ts ++ us) = seps false ts ++ seps (nonempty ts) us.
Proof.
  destruct ts as [|t ts]; [done|]. cbn [app nonempty seps]. rewrite !join_cons, map_app, concat_app. by rewrite <- app_assoc.
Qed.

(** The invariant of the loops: the printer is [q0] but for the descriptors. *)
Definition like (q0 q : actf_printer CD) : Prop := cds_ok q /\ same_printer q0 q.

Lemma prints_like {A} q0 (c : P A) a t : prints cds_ok c a t -> prints (like q0) c a t.
Proof. intros Hc p [Hp Hs]. destruct (Hc p Hp) as (q & R & S & C). exists q. split; [done|]. split; [done|]. split; [done|by transitivity (prn p)]. Qed.

Lemma prints_get {A} I (k : pst CD -> P A) a t : (forall p, I (prn p) -> prints I (k p) a t) -> prints I (st_get ≫= k) a t.
Proof. intros Hk p Hp. rewrite (st_bind_ok st_get _ _ p p) by done. by apply Hk. Qed.

Lemma prints_props {Prop_} fuel data (get : Prop_ -> actf_fld) name q0 : forall props comma ts,
  mapM (prop_text (set_in (p_flags q0) ACTF_PRINT_PROP_LABELS) data get name) (shown get props) = Some ts ->
  (forall prop, prop ∈ props -> (fld_depth (get prop) <= fuel)%nat) ->
  prints (like q0) (fprint_props fuel data get name props comma) (comma || nonempty ts) (seps comma ts).
Proof.
  induction props as [|prop props IH]; intros comma ts Hts Hf.
  { injection Hts as <-. rewrite orb_false_r. destruct comma; apply prints_ret. }
  assert (Hf' : forall prop, prop ∈ props -> (fld_depth (get prop) <= fuel)%nat) by (intros pr ?; apply Hf; by right).
  unfold shown in Hts. cbn [List.filter] in Hts. cbn [fprint_props].
  destruct (decide (fld_type (get prop) = FLD_TYPE_NIL)) as [Hnil|Hnil].
  { rewrite bool_decide_true in Hts by done. by apply IH. }
  rewrite bool_decide_false in Hts by done. cbn [negb mapM] in Hts. fold (shown get props) in Hts.
  destruct (prop_text _ _ _ _ prop) as [t|] eqn:Ht; [|done]. cbn [mbind option_bind] in Hts.
  destruct (mapM _ (shown get props)) as [ts'|] eqn:Hts'; [|done]. injection Hts as <-.
  rewrite seps_cons. cbn [nonempty]. rewrite orb_true_r. apply prints_get. intros p [Hp Hs]. destruct Hs as (_ & Hfl & _). rewrite Hfl.
  unfold prop_text in Ht. destruct (fld_text data (get prop)) as [t0|] eqn:Ht0; [|done]. injection Ht as <-.
  eapply prints_seq; [instantiate (1 := if comma then lit ", " else []); destruct comma; [apply prints_put|apply prints_ret]| |done].
  assert (Hfld : prints (like q0) (actf_fprint_fld fuel data (get prop)) ACTF_OK t0).
  { apply prints_like, fprint_fld_text; [done|]. apply Hf. by left. }
  specialize (IH true ts' eq_refl Hf').
  destruct (set_in (p_flags q0) ACTF_PRINT_PROP_LABELS).
  - eapply prints_seq; [apply prints_put| |by rewrite <- app_assoc]. eapply prints_bind; [exact Hfld|exact IH|done].
  - eapply prints_seq; [apply prints_ret| |done]. eapply prints_bind; [exact Hfld|exact IH|done].
Qed.

(** ** The time stamp *)

Lemma delta_run q s tstamp sub d : delta_text q tstamp sub = Some d ->
  fprint_delta tstamp sub (mk_pst q s) =
    (Ok tt, mk_pst (if set_in (p_flags q) ACTF_PRINT_TSTAMP_DELTA then set_last true tstamp q else q) (s ++ d)).
Proof.
  unfold delta_text, fprint_delta. intros Hd. rewrite (st_bind_ok st_get _ _ (mk_pst q s) (mk_pst q s)) by done. cbn [prn].
  destruct (set_in _ _); [|injection Hd as <-; by rewrite app_nil_r].
  destruct (has_last_tstamp q); [destruct (sub _ _) as [x|]; [|done]|]; by injection Hd as <-.
Qed.

Lemma event_stamp_run q s ev t : event_stamp_text q ev = Some t ->
  fprint_event_tstamp localtime ev (mk_pst q s) =
    (Ok tt, mk_pst (if set_in (p_flags q) ACTF_PRINT_TSTAMP_DELTA
                    then match event_stamp q ev with Some t => set_last true t q | None => q end else q) (s ++ t)).
Proof.
  unfold event_stamp_text, event_stamp, fprint_event_tstamp. intros Ht.
  rewrite (st_bind_ok st_get _ _ (mk_pst q s) (mk_pst q s)) by done. cbn [prn].
  destruct (set_in (p_flags q) ACTF_PRINT_TSTAMP_CC); cbn [negb mbind option_bind] in *.
  - destruct (delta_text q _ sub_cc) as [d|] eqn:Hd; [|done]. injection Ht as <-.
    etransitivity; [apply (st_bind_ok (put _) _ _ tt (mk_pst q (s ++ lit "[" ++ fmt_0u 20 (actf_event_tstamp ev) ++ lit "] "))); done|].
    rewrite (delta_run _ _ _ _ d) by done. by rewrite <- !app_assoc.
  - destruct (actf_event_tstamp_ns_from_origin ev) as [ns|]; [|done]. cbn in Ht. unfold fprint_tstamp_ns.
    destruct (tstamp_text localtime ns (p_flags q)) as [x|rc|]; [|done..].
    destruct (delta_text q ns sub_ns) as [d|] eqn:Hd; [|done]. injection Ht as <-.
    etransitivity; [apply (st_bind_ok (put _) _ _ tt (mk_pst q (s ++ x))); done|].
    rewrite (delta_run _ _ _ _ d) by done. by rewrite <- !app_assoc.
Qed.

(** The run of the printer over an event. *)
Lemma fprint_event_run fuel er p t : cds_ok (prn p) -> event_text (prn p) er = Some t -> (event_depth er <= fuel)%nat ->
  exists q, actf_fprint_event localtime fuel er p = (Ok ACTF_OK, mk_pst q (out p ++ t)) /\
    same_printer (event_after (prn p) (er_ev er)) q /\ cds_ok q.
Proof.
  intros Hp Ht Hf. destruct p as [q0 s]. cbn [prn out] in *. unfold event_text in Ht. unfold actf_fprint_event.
  destruct (ev_cls (ev_s (er_ev er))) as [evc|]; [|done]. cbn [mbind option_bind] in Ht.
  destruct (ev_dsc (er_ev er)) as [dsc|] eqn:Hdsc; [|done]. cbn [mbind option_bind] in Ht.
  destruct (if has_clk (er_ev er) then _ else _) as [stamp|] eqn:Hstamp; [|done]. cbn [mbind option_bind] in Ht.
  destruct (mapM _ (shown _ (pkt_to_print q0))) as [ps|] eqn:Hps; [|done]. cbn [mbind option_bind] in Ht.
  destruct (mapM _ (shown _ (ev_to_print q0))) as [es|] eqn:Hes; [|done]. injection Ht as <-.
  set (q1 := event_after q0 (er_ev er)).
  assert (Hq1 : cds_ok q1 /\ p_flags q1 = p_flags q0 /\ pkt_to_print q1 = pkt_to_print q0 /\ ev_to_print q1 = ev_to_print q0).
  { unfold q1, event_after. destruct (_ && _); [|done]. by destruct (event_stamp q0 (er_ev er)). }
  destruct Hq1 as (C1 & F1 & P1 & E1).
  assert (Hrun : (match actf_dstream_cls_clk_cls dsc with Some _ => fprint_event_tstamp localtime (er_ev er) | None => mret tt end) (mk_pst q0 s) =
    (Ok tt, mk_pst q1 (s ++ stamp))).
  { unfold q1, event_after. unfold has_clk in *. rewrite Hdsc in *. destruct (actf_dstream_cls_clk_cls dsc).
    - rewrite bool_decide_true in * by done. by apply event_stamp_run.
    - rewrite bool_decide_false in * by (by intros [? ?]). injection Hstamp as <-. cbn. by rewrite app_nil_r. }
  rewrite (st_bind_ok _ _ _ _ _ Hrun). clear Hrun Hstamp.
  assert (Hdep : Forall (fun d => (d <= fuel)%nat) (map fld_depth (map (pkt_props (er_pkt er)) [ACTF_PKT_PROP_HEADER; ACTF_PKT_PROP_CTX] ++
    map (ev_props (er_ev er)) [ACTF_EVENT_PROP_HEADER; ACTF_EVENT_PROP_COMMON_CTX; ACTF_EVENT_PROP_SPECIFIC_CTX; ACTF_EVENT_PROP_PAYLOAD]))) by (by apply list_max_le).
  rewrite map_app, Forall_app, !map_map in Hdep. destruct Hdep as [Dp De].
  match goal with |- exists q, ?c _ = (Ok _, mk_pst _ (s ++ stamp ++ ?r)) /\ _ => enough (Hgo : prints (like q1) c ACTF_OK r) end.
  { destruct (Hgo (mk_pst q1 (s ++ stamp))) as (q & R & S & C & L); [by split|]. exists q. rewrite R. cbn. rewrite <- app_assoc. done. }
  eapply prints_seq; [apply prints_put| |done]. eapply prints_seq; [apply prints_put| |done].
  apply prints_get. intros p [Cp (_ & Fp & Pp & Ep & _)]. rewrite Pp, Ep, P1, E1. rewrite <- F1 in Hps, Hes.
  eapply prints_bind; [apply (prints_props _ _ _ _ q1 _ _ ps Hps)| |rewrite seps_app, <- app_assoc; done].
  { intros prop _. rewrite List.Forall_forall in Dp. apply Dp, (in_map (fun p => fld_depth (pkt_props (er_pkt er) p))). destruct prop; cbn; tauto. }
  eapply prints_bind; [apply (prints_props _ _ _ _ q1 _ _ es Hes)|eapply prints_seq; [apply prints_put|apply prints_ret|by rewrite app_nil_r]|done].
  intros prop _. rewrite List.Forall_forall in De. apply De, (in_map (fun p => fld_depth (ev_props (er_ev er) p))). destruct prop; cbn; tauto.
Qed.

(** C13: printing an event writes exactly the text of the event: the time stamp with the
    delta to the event printed before, the name, and in braces the requested
    properties that are not empty, each with all of its fields, separated by commas.
    It returns ACTF_OK, and the printer has changed only in the time stamp that it
    keeps and in the conversion descriptors that it opened.  It holds wherever the
    text is defined, for any nesting within the fuel. *)
Theorem fprint_event_text fuel er p t : cds_ok (prn p) -> event_text (prn p) er = Some t -> (event_depth er <= fuel)%nat ->
  exists q, actf_fprint_event localtime fuel er p = (Ok ACTF_OK, mk_pst q (out p ++ t)) /\
    same_printer (event_after (prn p) (er_ev er)) q /\ cds_ok q.
Proof. apply fprint_event_run. Qed.
End Spec.

(** * A converter *)

(** The part of UTF-16 (big-endian) that is ASCII; no other encoding can be opened. *)
Module AsciiConv.
Fixpoint conv16 (inb : list Z) : option (list Z) :=
  match inb with
  | [] => Some []
  | hi :: lo :: r => if (hi =? 0) && (1 <=? lo) && (lo <? 128) then cons lo <$> conv16 r else None
  | _ => None
  end.

Fixpoint step16 (inb : list Z) (room : nat) : iconv_result :=
  match inb with
  | [] => mk_iconv_result IC_DONE 0 []
  | hi :: lo :: r =>
      if (hi =? 0) && (1 <=? lo) && (lo <? 128) then
        match room with
        | O => mk_iconv_result IC_E2BIG 0 []
        | S room => let x := step16 r room in mk_iconv_result (ic_end x) (S (S (ic_read x))) (lo :: ic_written x)
        end
      else mk_iconv_result IC_FAIL 0 []
  | _ => mk_iconv_result IC_FAIL 0 []
  end.

#[export] Instance iconv_ascii : Iconv actf_encoding := {
  iconv_open enc := if decide (enc = ACTF_ENCODING_UTF16BE) then Some enc else None;
  iconv cd inb room := (step16 inb (Z.to_nat room), cd);
  iconv_flush cd room := (mk_iconv_result IC_DONE 0 [], cd)
}.

Lemma step16_spec n : forall inb room, (length inb <= n)%nat ->
  let r := step16 inb room in
  match ic_end r with
  | IC_DONE => ic_read r = length inb /\ conv16 inb = Some (ic_written r)
  | IC_E2BIG => conv16 inb = app (ic_written r) <$> conv16 (drop (ic_read r) inb) /\ ((0 < room)%nat -> (0 < ic_read r)%nat)
  | IC_FAIL => conv16 inb = None
  end.
Proof.
  induction n as [|n IH]; intros [|hi [|lo inb]] room Hl; try (cbn in Hl; lia); try done.
  cbn [step16 conv16]. destruct ((hi =? 0) && (1 <=? lo) && (lo <? 128)) eqn:Hc; [|done].
  destruct room as [|room].
  { cbn [ic_end ic_read ic_written drop conv16]. rewrite Hc. split; [by destruct (conv16 inb)|lia]. }
  specialize (IH inb room ltac:(cbn in Hl; lia)). cbv zeta in IH |- *. cbn [ic_end ic_read ic_written drop length].
  destruct (ic_end (step16 inb room)).
  - destruct IH as [-> ->]. done.
  - destruct IH as [-> _]. split; [by destruct (conv16 (drop _ _))|lia].
  - by rewrite IH.
Qed.

#[export] Instance iconv_ascii_laws : IconvLaws actf_encoding.
Proof.
  refine {| conv := fun enc b => match b with [] => Some [] | _ => if decide (enc = ACTF_ENCODING_UTF16BE) then conv16 b else None end;
            cd_of := fun enc cd => cd = enc /\ enc = ACTF_ENCODING_UTF16BE |}.
  - done.
  - intros enc cd. cbn. case_decide; [by intros [= <-]|done].
  - done.
  - intros enc cd inb room r cd' [-> ->]. cbn [iconv iconv_ascii]. intros [= <- <-].
    pose proof (step16_spec (length inb) inb (Z.to_nat room) (le_n _)) as H. cbv zeta in H.
    assert (E : forall b, match b with [] => Some [] | _ => if decide (ACTF_ENCODING_UTF16BE = ACTF_ENCODING_UTF16BE) then conv16 b else None end = conv16 b)
      by (intros [|? ?]; [done|by rewrite decide_True]).
    rewrite !E. destruct (ic_end _); try done. destruct H as [Hc Hr]. split; [done|]. unfold DEFAULT_CONVBUF_SZ. intros Hroom. apply Hr. lia.
  - intros enc cd room r cd' Hcd [= <- <-]. done.
Defined.
End AsciiConv.
Import AsciiConv.

(** * An event *)

Definition shown_maps : actf_mappings :=
  match fst (actf_mappings_init (H := heap_ok) (SMAPS [("neg"%string, [mk_srng (-30) (-1)])]) 0%nat) with Ok m => m | _ => zero_mappings end.

Definition shown_fc : actf_fld_cls := FC_STRUCT
  [("n", FC_FXD_LEN_SINT (mk_int_fld_cls ACTF_BASE_HEXADECIMAL shown_maps) (le_bits 8 8) 0);
   ("s", FC_NULL_TERM_STR ACTF_ENCODING_UTF16BE);
   ("l", FC_STATIC_LEN_ARR (uint_fc 8 0) 1 2);
   ("r", FC_FXD_LEN_FLOAT (le_bits 32 8));
   ("m", FC_FXD_LEN_BIT_MAP (le_bits 8 8) (actf_flags_init [("lo", [mk_urng 0 3]); ("hi", [mk_urng 4 7])]))]%string 1 8.

Definition shown_fld : actf_fld :=
  let cls i := match shown_fc with FC_STRUCT ms _ _ => snd <$> ms !! i | _ => None end in
  mk_fld (Some shown_fc) None (ACTF_FLD_TYPE_STRUCT
    [mk_fld (cls 0%nat) None (ACTF_FLD_TYPE_SINT (-17)); mk_fld (cls 1%nat) None (ACTF_FLD_TYPE_STR 1 4);
     mk_fld (cls 2%nat) None (ACTF_FLD_TYPE_ARR [mk_fld (Some (uint_fc 8 0)) None (ACTF_FLD_TYPE_UINT 1 8);
                                            mk_fld (Some (uint_fc 8 0)) None (ACTF_FLD_TYPE_UINT 2 8)] 2);
     mk_fld (cls 3%nat) None (ACTF_FLD_TYPE_REAL 0xC0200000); mk_fld (cls 4%nat) None (ACTF_FLD_TYPE_BIT_MAP 0x18)]).

Definition shown_event : event_ref :=
  mk_event_ref
    (mk_event (mk_event_state 0 (Some (mk_event_cls 0 0 (Some "ns") (Some "ev") None FC_NIL shown_fc)) 5000000007)
       (Some (sample_dsc FC_NIL FC_NIL shown_fc)) nil_fld nil_fld nil_fld shown_fld)
    (actf_pkt_init (mk_pkt_state 0 0 0 0 None 0 0 ACTF_LIL_ENDIAN 0 0 0 0 0)) [0xff; 0; 0x68; 0; 0x69]%string.

Definition sample_flags : Z :=
  Z.lor ACTF_PRINT_ALL (Z.lor ACTF_PRINT_PROP_LABELS (Z.lor ACTF_PRINT_TSTAMP_DELTA (Z.lor ACTF_PRINT_TSTAMP_UTC ACTF_PRINT_TSTAMP_DATE))).

Definition sample_printer : actf_printer actf_encoding :=
  set_last true 4000000000 (mk_printer (fun _ => None) DEFAULT_CONVBUF_SZ sample_flags (props_of sample_flags pkt_table)
    (props_of sample_flags ev_table) 0 false).

(** Text with single quotes for double ones. *)
Definition requote (t : text) : text := map (fun c => if Ascii.eqb c (ascii_of_Z 34) then "'"%char else c) t.

Definition shown_text : text :=
  lit "[1970-01-01 00:00:05.000000007] (+1000000007) ns::ev: { event-payload: { n: -0x11: 'neg', s: 'hi', l: [1, 2], r: -2.500000, m: 0x18: 'lo','hi' } }".

Example fprint_event_text_witness :
  exists t, @event_text _ _ _ gmtime sample_printer shown_event = Some t /\ requote t = shown_text /\
    exists q, @actf_fprint_event _ _ gmtime 3 shown_event (mk_pst sample_printer []) = (Ok ACTF_OK, mk_pst q t) /\
      same_printer (set_last true 5000000007 sample_printer) q.
Proof.
  eexists. split; [vm_compute; reflexivity|]. split; [vm_compute; reflexivity|].
  edestruct (@fprint_event_text _ _ _ gmtime 3 shown_event (mk_pst sample_printer [])) as (q & R & S & _);
    [split; [done|by intros ?? [=]]|vm_compute; reflexivity|vm_compute; lia|].
  exists q. split; [exact R|exact S].
Defined.
