(* ===== verification/TstampText.v ===== *)
(** Printed time stamps are parsed back: the date format in UTC and the format in
    seconds, with the exact set of time stamps for which this fails. *)
From S2P Require Import Prelude Common Libc Regex Print Tstamp.
From stdpp Require Import strings list.
Open Scope Z_scope.

#[local] Existing Instance outcome_bind.
#[local] Arguments lit : simpl never.

(** * Numbers of a fixed width *)

(** [ds] is [w] decimal digits of value [n]. *)
Definition part (w n : Z) (ds : text) : Prop := reads 10 ds n /\ Z.of_nat (length ds) = w.

Lemma fmt_0u_part w n : 1 <= w -> 0 <= n < 10 ^ w -> part w n (fmt_0u w n).
Proof. intros. by apply fmt_0u_reads. Qed.

Lemma fmt_0i_part w n : 1 <= w -> 0 <= n < 10 ^ w -> part w n (fmt_0i w n).
Proof. intros. unfold fmt_0i. destruct (Z.ltb_spec n 0); [lia|]. by apply fmt_0u_part. Qed.

(** Four-digit years are written without padding. *)
Lemma fmt_year_part y : 1969 <= y <= 2038 -> part 4 y (fmt_i y).
Proof.
  intros Hy. assert (E : fmt_i y = fmt_0u 4 y).
  { assert (H : forall i, 0 <= i < 70 -> bool_decide (fmt_i (1969 + i) = fmt_0u 4 (1969 + i)) = true).
    { apply (forall_range (fun i => bool_decide (fmt_i (1969 + i) = fmt_0u 4 (1969 + i))) 70). by vm_compute. }
    specialize (H (y - 1969) ltac:(lia)). replace (1969 + (y - 1969)) with y in H by lia. by apply bool_decide_eq_true in H. }
  rewrite E. apply fmt_0u_part; lia.
Qed.

Lemma part_undigit w n ds : part w n ds -> map undigit ds = replicate (Z.to_nat w) "0"%char.
Proof.
  intros [[Hd _] Hl]. rewrite <- Hl, Nat2Z.id. clear Hl. induction Hd as [|c ds Hc _ IH]; [done|]. cbn.
  unfold undigit at 1. rewrite Hc. f_equal. exact IH.
Qed.

Lemma part_drop w n ds r : part w n ds -> drop (Z.to_nat w) (ds ++ r) = r.
Proof. intros [_ <-]. rewrite Nat2Z.id. apply drop_app_length. Qed.

(** A number in bounds that is followed by something else. *)
Lemma part_num w n ds r lower upper : part w n ds -> 1 <= w -> no_digit 10 r -> lower <= n <= upper -> 0 <= n <= INT64_MAX ->
  strtoboundi64 (ds ++ r) lower upper = Ok n.
Proof.
  intros [Hr Hl] Hw Hno Hb Hn. unfold strtoboundi64. unfold INT64_MAX in Hn.
  assert (Hs : strtoull (ds ++ r) = (n, false)).
  { apply strtoull_reads; [done|intros ->; cbn in Hl; lia|done|unfold UINT64_MAX; lia]. }
  rewrite Hs. unfold i64. rewrite wrap_signed_small by lia.
  destruct (Z.ltb_spec n lower), (Z.ltb_spec upper n); try lia. done.
Qed.

(** The number of a group that matched at [so]. *)
Lemma group_part s m k so w n ds r lower upper :
  rm_so m k = Some so -> drop so s = ds ++ r -> part w n ds -> 1 <= w -> no_digit 10 r -> lower <= n <= upper -> 0 <= n <= INT64_MAX ->
  group_num s m k lower upper = Ok n /\ opt_group_num s m k lower upper = Ok n.
Proof. intros Hm Hd Hp Hw Hr Hb Hn. unfold group_num, opt_group_num. rewrite Hm, Hd, (part_num w n) by done. done. Qed.

Lemma int64_in z : INT64_MIN <= z <= INT64_MAX -> int64 z = Ok z.
Proof. intros Hz. unfold int64. destruct (Z.leb_spec INT64_MIN z), (Z.leb_spec z INT64_MAX); try lia. done. Qed.

(** * Dates *)

(** The text of a date, and what follows its parts. *)
Definition date_text (Y M D h m s n : text) : text :=
  Y ++ lit "-" ++ M ++ lit "-" ++ D ++ lit " " ++ h ++ lit ":" ++ m ++ lit ":" ++ s ++ lit "." ++ n.

Definition date_caps : list (nat * (nat * nat)) :=
  Eval vm_compute in match regcomp yyyymmddhhiiss_re with
                     | Some r => default [] (regexec r (lit "0000-00-00 00:00:00.000000000")) | None => [] end.

(** After [w] digits and a separator. *)
Lemma drop_part w n ds sep r k j : part w n ds -> (k = Z.to_nat w + (length sep + j))%nat -> drop k (ds ++ sep ++ r) = drop j r.
Proof.
  intros Hp ->. rewrite <- drop_drop, (part_drop w n) by done. rewrite <- drop_drop. by rewrite drop_app_length.
Qed.

Ltac num_side := first [done|exact eq_refl|exact I|unfold INT64_MAX; lia].

Lemma parse_date_text mk Y M D h m s n tY tM tD th tm_ ts tn :
  part 4 Y tY -> part 2 M tM -> part 2 D tD -> part 2 h th -> part 2 m tm_ -> part 2 s ts -> part 9 n tn ->
  1 <= M <= 12 -> 1 <= D <= 31 -> 0 <= h <= 23 -> 0 <= m <= 59 -> 0 <= s <= 60 -> 0 <= n < SECOND -> 1969 <= Y <= 9999 ->
  let t := mk_tm s m h D (M - 1) (Y - 1900) in
  parse_tstamp_ns mk (date_text tY tM tD th tm_ ts tn) true =
    match c_gmtime t with
    | None => Undef
    | Some e => if e =? -1 then Err ACTF_ERROR else
        match int64 (e * SECOND) with Ok x => match int64 (n + x) with Ok ns => Ok (ns, true) | _ => Undef end | _ => Undef end
    end.
Proof.
  intros HY HM HD Hh Hm Hs Hn BM BD Bh Bm Bs Bn BY. cbv zeta. unfold parse_tstamp_ns.
  destruct (regcomp yyyymmddhhiiss_re) as [r1|] eqn:E1; [|by vm_compute in E1].
  destruct (regcomp hhiiss_re) as [r2|] eqn:E2; [|by vm_compute in E2].
  destruct (regcomp sec_re) as [r3|] eqn:E3; [|by vm_compute in E3].
  assert (Hr : regexec r1 (date_text tY tM tD th tm_ ts tn) = Some date_caps).
  { rewrite regexec_undigit by (vm_compute in E1; by injection E1 as <-). unfold date_text. rewrite !map_app.
    rewrite (part_undigit _ _ _ HY), (part_undigit _ _ _ HM), (part_undigit _ _ _ HD), (part_undigit _ _ _ Hh), (part_undigit _ _ _ Hm),
      (part_undigit _ _ _ Hs), (part_undigit _ _ _ Hn). vm_compute in E1. injection E1 as <-. by vm_compute. }
  rewrite Hr. clear E1 E2 E3 Hr. set (body := date_text tY tM tD th tm_ ts tn). unfold parse_date. unfold SECOND in Bn.
  set (s5 := tM ++ lit "-" ++ tD ++ lit " " ++ th ++ lit ":" ++ tm_ ++ lit ":" ++ ts ++ lit "." ++ tn).
  set (s8 := tD ++ lit " " ++ th ++ lit ":" ++ tm_ ++ lit ":" ++ ts ++ lit "." ++ tn).
  set (s11 := th ++ lit ":" ++ tm_ ++ lit ":" ++ ts ++ lit "." ++ tn).
  set (s14 := tm_ ++ lit ":" ++ ts ++ lit "." ++ tn). set (s17 := ts ++ lit "." ++ tn).
  assert (D5 : forall j, drop (5 + j) body = drop j s5) by (intros j; by apply (drop_part 4 Y tY)).
  assert (D8 : forall j, drop (8 + j) body = drop j s8) by (intros j; change (8 + j)%nat with (5 + (3 + j))%nat; rewrite D5; by apply (drop_part 2 M tM)).
  assert (D11 : forall j, drop (11 + j) body = drop j s11) by (intros j; change (11 + j)%nat with (8 + (3 + j))%nat; rewrite D8; by apply (drop_part 2 D tD)).
  assert (D14 : forall j, drop (14 + j) body = drop j s14) by (intros j; change (14 + j)%nat with (11 + (3 + j))%nat; rewrite D11; by apply (drop_part 2 h th)).
  assert (D17 : forall j, drop (17 + j) body = drop j s17) by (intros j; change (17 + j)%nat with (14 + (3 + j))%nat; rewrite D14; by apply (drop_part 2 m tm_)).
  assert (D20 : drop 20 body = tn) by (change 20%nat with (17 + 3)%nat; rewrite D17; by apply (drop_part 2 s ts (lit ".") tn 3 0)).
  destruct (group_part body date_caps 1 0 4 Y tY (lit "-" ++ s5) 0 INT64_MAX) as [-> _]; [num_side|exact eq_refl|num_side..|].
  destruct (group_part body date_caps 2 5 2 M tM (lit "-" ++ s8) 1 12) as [-> _]; [num_side|exact (D5 O)|num_side..|].
  destruct (group_part body date_caps 3 8 2 D tD (lit " " ++ s11) 1 31) as [-> _]; [num_side|exact (D8 O)|num_side..|].
  destruct (group_part body date_caps 4 11 2 h th (lit ":" ++ s14) 0 23) as [-> _]; [num_side|exact (D11 O)|num_side..|].
  destruct (group_part body date_caps 5 14 2 m tm_ (lit ":" ++ s17) 0 59) as [-> _]; [num_side|exact (D14 O)|num_side..|].
  destruct (group_part body date_caps 7 17 2 s ts (lit "." ++ tn) 0 60) as [_ ->]; [num_side|exact (D17 O)|num_side..|].
  destruct (group_part body date_caps 9 20 9 n tn [] 0 INT64_MAX) as [_ ->]; [num_side|rewrite app_nil_r; exact D20|num_side..|].
  cbn [mbind outcome_bind].
  unfold i32. rewrite wrap_signed_small by lia. destruct (c_gmtime _) as [e|]; [|done]. cbn [mbind outcome_bind]. destruct (e =? -1); [done|].
  unfold int64. destruct (_ && _); [|done]. cbn [mbind outcome_bind]. by destruct (_ && _).
Qed.

(** C27: a date that is printed is parsed to the time stamp it was printed from.  For
    time stamps from 1969 up to where the conversion overflows in 2038, the text
    between the brackets that the printer writes with date in UTC is read, with UTC,
    as the same nanoseconds; only in the second before the epoch, whose number is the
    error value -1, it is refused. *)
Theorem printed_date_parses mk localtime flags ns :
  set_in flags ACTF_PRINT_TSTAMP_SEC = false -> set_in flags ACTF_PRINT_TSTAMP_UTC = true -> set_in flags ACTF_PRINT_TSTAMP_DATE = true ->
  - 31536000 * SECOND <= ns < 2 ^ 31 * SECOND ->
  exists body, tstamp_text localtime ns flags = Ok (lit "[" ++ body ++ lit "] ") /\
    parse_tstamp_ns mk body true = if ns / SECOND =? -1 then Err ACTF_ERROR else Ok (ns, true).
Proof.
  intros Fs Fu Fd Hns. unfold SECOND in *. set (sec := ns / 1000000000). set (nsec := ns mod 1000000000).
  assert (Hn : 0 <= nsec < 1000000000) by (apply Z.mod_pos_bound; lia).
  assert (Hsec : - 31536000 <= sec < 2 ^ 31) by (unfold sec; zlia). assert (Hsum : ns = sec * 1000000000 + nsec) by (unfold sec, nsec; zlia).
  destruct (gmtime_spec sec) as [Hv He]. pose proof (gmtime_year sec 1969 2038 ltac:(change (year_day 1969) with (-365); change (year_day (2038 + 1)) with 25202; lia) ltac:(lia)) as Hy.
  set (t := gmtime sec) in *. destruct Hv as [Vs Vm Vh Vmon Vd]. pose proof (month_len_pos (tm_year t + 1900) (tm_mon t)) as Hml.
  exists (date_text (fmt_i (tm_year t + 1900)) (fmt_0u 2 (tm_mon t + 1)) (fmt_0u 2 (tm_mday t)) (fmt_0u 2 (tm_hour t))
    (fmt_0u 2 (tm_min t)) (fmt_0u 2 (tm_sec t)) (fmt_0i 9 nsec)).
  assert (P4 : part 4 (tm_year t + 1900) (fmt_i (tm_year t + 1900))) by (apply fmt_year_part; lia).
  assert (P2 : forall n, 0 <= n < 100 -> part 2 n (fmt_0u 2 n)) by (intros; apply fmt_0u_part; lia).
  split.
  - unfold tstamp_text. rewrite Fs, Fu, Fd. unfold NS_PER_SEC.
    assert (Hq : (if Z.rem ns 1000000000 <? 0 then (Z.quot ns 1000000000 - 1, 1000000000 + Z.rem ns 1000000000)
                  else (Z.quot ns 1000000000, Z.rem ns 1000000000)) = (sec, nsec)).
    { unfold sec, nsec. destruct (Z.ltb_spec (Z.rem ns 1000000000) 0); f_equal; zlia. }
    rewrite Hq. fold t. unfold strftime.
    assert (Hlen : Z.of_nat (length (fmt_ymdhms t)) = 19).
    { unfold fmt_ymdhms, fmt_hms. rewrite !length_app, !Nat2Z.inj_add. destruct P4 as [_ ->].
      rewrite (proj2 (P2 (tm_mon t + 1) ltac:(lia))), (proj2 (P2 (tm_mday t) ltac:(lia))), (proj2 (P2 (tm_hour t) ltac:(lia))),
        (proj2 (P2 (tm_min t) ltac:(lia))), (proj2 (P2 (tm_sec t) ltac:(lia))). done. }
    rewrite Hlen. cbn [Z.ltb Z.compare]. unfold date_text, fmt_ymdhms, fmt_hms. do 2 f_equal. by rewrite <- !app_assoc.
  - rewrite (parse_date_text mk (tm_year t + 1900) (tm_mon t + 1) (tm_mday t) (tm_hour t) (tm_min t) (tm_sec t) nsec)
      by (first [apply P2; lia|exact P4|apply fmt_0i_part; lia|unfold SECOND; lia]).
    assert (Ht : mk_tm (tm_sec t) (tm_min t) (tm_hour t) (tm_mday t) (tm_mon t + 1 - 1) (tm_year t + 1900 - 1900) = t).
    { destruct t. cbn. f_equal; lia. }
    rewrite Ht, c_gmtime_correct by (split; lia). rewrite He. destruct (Z.leb_spec sec INT_MAX); [|unfold INT_MAX in *; lia].
    destruct (sec =? -1); [done|]. unfold SECOND. rewrite int64_in by (unfold INT64_MIN, INT64_MAX; lia).
    rewrite int64_in by (unfold INT64_MIN, INT64_MAX; lia). do 2 f_equal. lia.
Qed.

Example printed_date_parses_witness :
  let flags := Z.lor ACTF_PRINT_TSTAMP_UTC ACTF_PRINT_TSTAMP_DATE in
  exists body, tstamp_text gmtime 1709210096123456789 flags = Ok (lit "[" ++ body ++ lit "] ") /\
    parse_tstamp_ns (fun _ => None) body true = Ok (1709210096123456789, true).
Proof.
  destruct (printed_date_parses (fun _ => None) gmtime (Z.lor ACTF_PRINT_TSTAMP_UTC ACTF_PRINT_TSTAMP_DATE) 1709210096123456789)
    as (body & Hb & Hp); [reflexivity|reflexivity|reflexivity|unfold SECOND; lia|].
  exists body. split; [exact Hb|exact Hp].
Defined.

(** * Seconds *)

Definition sec_text (neg : bool) (S N : text) : text := (if neg then lit "-" else []) ++ S ++ lit "." ++ N.

(** What the expressions find in a text of this form with [k] digits of seconds. *)
Definition sec_caps_ok (neg : bool) (k : nat) : bool :=
  let s := sec_text neg (replicate k "0"%char) (replicate 9 "0"%char) in
  let a := if neg then 1%nat else 0%nat in
  match regcomp yyyymmddhhiiss_re, regcomp hhiiss_re, regcomp sec_re with
  | Some r1, Some r2, Some r3 =>
      match regexec r1 s, regexec r2 s, regexec r3 s with
      | None, None, Some m =>
          bool_decide (rm_so m 1 = Some O /\ rm_so m 2 = Some a /\ rm_so m 4 = Some (a + (k + 1))%nat) &&
          (re_blind r1 && re_blind r2 && re_blind r3)
      | _, _, _ => false
      end
  | _, _, _ => false
  end.

Lemma sec_caps neg k : (1 <= k <= 10)%nat -> sec_caps_ok neg k = true.
Proof.
  intros Hk. assert (H : forallb (fun k => sec_caps_ok true k && sec_caps_ok false k) (seq 1 10) = true) by (by vm_compute).
  rewrite forallb_forall in H. specialize (H k ltac:(apply in_seq; lia)). apply andb_prop in H as [? ?]. by destruct neg.
Qed.

Lemma parse_sec_text mk utc neg w S N tS tN : part w S tS -> part 9 N tN -> 1 <= w <= 10 -> 0 <= S -> 0 <= N < SECOND ->
  S * SECOND + N <= INT64_MAX ->
  parse_tstamp_ns mk (sec_text neg tS tN) utc = Ok ((if neg then -1 else 1) * (S * SECOND + N), true).
Proof.
  intros HS HN Hw H0 BN Hb. unfold SECOND in BN, Hb. unfold INT64_MAX in Hb. pose proof (sec_caps neg (Z.to_nat w) ltac:(lia)) as Hc. unfold sec_caps_ok in Hc.
  unfold parse_tstamp_ns.
  destruct (regcomp yyyymmddhhiiss_re) as [r1|]; [|done]. destruct (regcomp hhiiss_re) as [r2|]; [|done]. destruct (regcomp sec_re) as [r3|]; [|done].
  set (body := sec_text neg tS tN).
  assert (Hu : map undigit body = sec_text neg (replicate (Z.to_nat w) "0"%char) (replicate 9 "0"%char)).
  { unfold body, sec_text. rewrite !map_app, (part_undigit _ _ _ HS), (part_undigit _ _ _ HN). by destruct neg. }
  rewrite <- Hu in Hc. destruct (re_blind r1) eqn:B1; [|by repeat case_match; rewrite ?andb_false_r in Hc].
  destruct (re_blind r2) eqn:B2; [|by repeat case_match; rewrite ?andb_false_r in Hc].
  destruct (re_blind r3) eqn:B3; [|by repeat case_match; rewrite ?andb_false_r in Hc].
  rewrite <- !regexec_undigit in Hc by done. destruct (regexec r1 body); [done|]. destruct (regexec r2 body); [done|].
  destruct (regexec r3 body) as [m|]; [|done]. rewrite andb_true_r in Hc. apply bool_decide_eq_true in Hc as (M1 & M2 & M4).
  unfold parse_sec. rewrite M1.
  assert (Hsign : match body !! O with Some c => if Ascii.eqb c "-" then -1 else 1 | None => 1 end = if neg then -1 else 1).
  { unfold body, sec_text. destruct neg; [done|]. destruct HS as [[Hd _] Hl]. destruct tS as [|c tS]; [cbn in Hl; lia|]. cbn.
    destruct (Ascii.eqb_spec c "-") as [->|]; [|done]. apply Forall_inv in Hd. by vm_compute in Hd. }
  rewrite Hsign.
  assert (D2 : drop (if neg then 1%nat else 0%nat) body = tS ++ lit "." ++ tN) by (by destruct neg).
  destruct (group_part body m 2 _ w S tS (lit "." ++ tN) 0 INT64_MAX M2 D2) as [-> _]; [num_side..|]. cbn [mbind outcome_bind].
  assert (D4 : drop ((if neg then 1 else 0) + (Z.to_nat w + 1))%nat body = tN ++ []).
  { rewrite app_nil_r, <- drop_drop, D2. by apply (drop_part w S tS (lit ".") tN _ 0). }
  destruct (group_part body m 4 _ 9 N tN [] 0 INT64_MAX M4 D4) as [_ ->]; [num_side..|]. cbn [mbind outcome_bind].
  unfold SECOND in *. rewrite int64_in by (unfold INT64_MIN, INT64_MAX; lia). cbn [mbind outcome_bind].
  rewrite int64_in by (unfold INT64_MIN, INT64_MAX; lia). cbn [mbind outcome_bind].
  rewrite int64_in by (unfold INT64_MIN, INT64_MAX; destruct neg; lia). done.
Qed.

(** C28: a time stamp printed in seconds is parsed back.  For every time stamp but the
    least, the text that the printer writes with ACTF_PRINT_TSTAMP_SEC is read as the
    same nanoseconds, but between -1 s and 0, where the whole seconds are 0 and the
    sign is lost: there it is read as the opposite number. *)
Theorem printed_seconds_parse mk localtime flags utc ns :
  set_in flags ACTF_PRINT_TSTAMP_SEC = true -> INT64_MIN < ns <= INT64_MAX ->
  exists body, tstamp_text localtime ns flags = Ok (lit "[" ++ body ++ lit "] ") /\
    parse_tstamp_ns mk body utc = Ok (if (- SECOND <? ns) && (ns <? 0) then - ns else ns, true).
Proof.
  intros Fs Hns. unfold tstamp_text. rewrite Fs. unfold NS_PER_SEC. unfold INT64_MIN, INT64_MAX, SECOND in *.
  set (sec := Z.quot ns 1000000000). set (nsec := Z.rem ns 1000000000).
  assert (Hsn : ns = sec * 1000000000 + nsec) by (unfold sec, nsec; zlia).
  assert (Hn : Z.abs nsec < 1000000000) by (unfold nsec; zlia).
  assert (Hz : 0 <= ns /\ 0 <= sec /\ 0 <= nsec \/ ns < 0 /\ sec <= 0 /\ nsec <= 0) by (unfold sec, nsec; zlia).
  clearbody sec nsec.
  destruct (digits_reads 10 (Z.abs sec)) as (Hr & (d & r & Hd & _) & Hl); [lia|lia|].
  assert (Hw : 1 <= Z.of_nat (length (digits 10 (Z.abs sec))) <= 10).
  { split; [rewrite Hd; cbn; lia|]. apply Hl; [lia|]. change (10 ^ 10) with 10000000000. lia. }
  exists (sec_text (sec <? 0) (digits 10 (Z.abs sec)) (fmt_0i 9 (Z.abs nsec))). split.
  - do 2 f_equal. unfold sec_text, fmt_i. destruct (Z.ltb_spec sec 0).
    + rewrite (Z.abs_neq sec) by lia. by rewrite <- !app_assoc.
    + rewrite (Z.abs_eq sec) by lia. cbn [app]. by rewrite <- !app_assoc.
  - rewrite (parse_sec_text mk utc _ (Z.of_nat (length (digits 10 (Z.abs sec)))) (Z.abs sec) (Z.abs nsec));
      [|by split|apply fmt_0i_part; lia|done|lia|unfold SECOND; lia|unfold SECOND, INT64_MAX; lia].
    do 2 f_equal. unfold SECOND.
    destruct (Z.ltb_spec sec 0), (Z.ltb_spec (- (1000000000)) ns), (Z.ltb_spec ns 0); cbn [andb]; lia.
Qed.

Example printed_seconds_parse_witness :
  exists body, tstamp_text gmtime (-5000000003) ACTF_PRINT_TSTAMP_SEC = Ok (lit "[" ++ body ++ lit "] ") /\
    parse_tstamp_ns (fun _ => None) body false = Ok (-5000000003, true).
Proof.
  destruct (printed_seconds_parse (fun _ => None) gmtime ACTF_PRINT_TSTAMP_SEC false (-5000000003)) as (body & Hb & Hp);
    [reflexivity|unfold INT64_MIN, INT64_MAX; lia|].
  exists body. split; [exact Hb|exact Hp].
Defined.

(** * What is accepted and what is not *)

Definition parses_to (s : string) : outcome (Z * bool) := parse_tstamp_ns (fun _ => None) (lit s) true.

(** The text of the tool's help reads [hh:ii[:ss[.nano]]]; the third expression is not
    anchored at its end, and large numbers overflow. *)
Example accepted_tstamps :
  parses_to "2024-02-29 12:34:56.000000001" = Ok (1709210096000000001, true) /\
  parses_to "1970-01-01 00:00" = Ok (0, true) /\
  parses_to "1969-12-31 23:59:59" = Err ACTF_ERROR /\
  parses_to "12.5 seconds" = Ok (12000000005, true) /\
  parses_to "--5" = Ok (-5000000000, true) /\
  parses_to "9223372037" = Undef /\
  parses_to "2040-01-01 00:00" = Undef /\
  parses_to "2024-13-01 00:00" = Err ACTF_ERROR /\
  parses_to "yesterday" = Err ACTF_ERROR.
Proof. split_and!; by vm_compute. Qed.
