(* ===== verification/Freader.v ===== *)
(** The file reader, [freader.c], and the reading of metadata files of
    [metadata.c]: directories are opened, their metadata is parsed, every data
    stream file gets a decoder, and a muxer joins the decoders when there is more
    than one.

    The operating system is a parameter: what a path opens, what a file holds and
    which calls fail.  Open descriptors and mappings are counted, so that the
    clean-up of the error paths can be stated. *)
From S2P Require Import Prelude Common Libc Error Rng HashMap Clock FldCls Metadata Json JsonUtils Mappings CtfJson FldClsParse MetadataParse MetadataText.
From S2P Require Import Generator PrioQueue Muxer Fld Decoder Print.
From stdpp Require Import strings list.
Open Scope Z_scope.

(** * The operating system *)

(** An open file: the size that [fstat] gives and what [read] of so many bytes
    gives; [None] is a failing call. *)
Record os_file := mk_file { f_stat : option Z; f_read : option (list Z) }.

(** An entry of a directory: its name, whether it can be opened, whether it is a
    regular file and its size, and the bytes that [mmap] maps. *)
Record dirent := mk_dirent { d_name : string; d_open : bool; d_stat : option (bool * Z); d_mmap : option (list Z) }.

(** An open directory: whether [dirfd] works, the file that a name opens in it, and
    the entries that [readdir] gives. *)
Record os_dir := mk_dir { dirfd_ok : bool; openat : string -> option os_file; entries : list dirent }.

(** What a run has used: the allocations so far, and the open descriptors and
    mappings. *)
Record os := mk_os { allocs : nat; fds : Z; mapped : Z }.

(** [eprintf] with a message as the format and no arguments: a null pointer or a
    conversion in it is undefined. *)
Fixpoint fmt_no_args (s : text) : option text :=
  match s with
  | "%"%char :: "%"%char :: s => cons "%"%char <$> fmt_no_args s
  | "%"%char :: _ => None
  | c :: s => cons c <$> fmt_no_args s
  | [] => Some []
  end.
Definition message_text (msg : option text) : option text := msg ≫= fmt_no_args.

(** * Data streams *)

(** A decoder with what it decodes: its metadata and its mapping. *)
Record stream := mk_stream { s_md : actf_metadata; s_data : list Z; s_dec : actf_decoder }.

Record actf_freader_cfg := mk_cfg { metadata_filename : option string; dstream_evs_cap : nat; muxer_evs_cap : nat }.

Record ctf_dir := mk_ctf_dir { cd_path : string; cd_metadata : actf_metadata; cd_mmaps : list (list Z); cd_decs : list stream }.

(** [active_gen]: not set, a decoder, or the muxer. *)
Inductive active_gen := NoGen | OneDec (s : stream) | Mux (m : actf_muxer stream event_ref).

Record actf_freader := mk_freader { fr_cfg : actf_freader_cfg; fr_dirs : list ctf_dir; fr_gen : active_gen; fr_err : text }.

Definition set_gen (g : active_gen) (rd : actf_freader) : actf_freader := mk_freader (fr_cfg rd) (fr_dirs rd) g (fr_err rd).
Definition set_err (e : text) (rd : actf_freader) : actf_freader := mk_freader (fr_cfg rd) (fr_dirs rd) (fr_gen rd) e.

Definition actf_freader_init (oom : bool) (cfg : actf_freader_cfg) : option actf_freader :=
  if oom then None
  else Some (mk_freader (mk_cfg (Some (default "metadata"%string (metadata_filename cfg))) (dstream_evs_cap cfg) (muxer_evs_cap cfg)) [] NoGen []).

Section Streams.
(** The allocators of decoders, the depth of field location and the rounds of a
    seek. *)
Context (pkt_malloc ev_malloc : nat -> Z -> bool) (loc_fuel seek_fuel : nat).

Definition set_dec (d : actf_decoder) (s : stream) : stream := mk_stream (s_md s) (s_data s) d.

(** The events of the decoder, which point to its packet and its data. *)
Definition stream_generate : st stream (list event_ref) := fun s =>
  let '(r, d) := actf_decoder_decode (s_md s) pkt_malloc ev_malloc loc_fuel (s_dec s) in
  (match r with
   | Ok evs => Ok (map (fun ev => mk_event_ref ev (pkt (dec_s d)) (s_data s)) evs)
   | Err rc => Err rc
   | Undef => Undef
   end, set_dec d s).

Definition stream_seek (t : Z) : st stream unit := fun s =>
  let '(r, d) := actf_decoder_seek_ns_from_origin (s_md s) pkt_malloc ev_malloc loc_fuel seek_fuel t (s_dec s) in
  (r, set_dec d s).

#[export] Instance stream_generator : Generator stream event_ref := {
  generate := stream_generate;
  seek_ns_from_origin := stream_seek
}.
End Streams.

(** The time stamp by which the muxer orders events. *)
Definition er_tstamp (e : event_ref) : Z := default 0 (actf_event_tstamp_ns_from_origin (er_ev e)).

(** * Opening *)

Section Open.
Context {json tok : Type} `{JsonC json, Heap, Tokener json tok, QSort}.
(** The messages that a failed parse leaves, what [opendir] opens, and the contents
    of new memory of the muxer. *)
Context (metadata_error : actf_metadata -> option text) (opendir : string -> option os_dir).
Context (junk_nodes : nat -> list node) (junk_evs : nat -> list (list event_ref)).

Definition os_malloc : st os unit := st_zoom allocs (fun n o => mk_os n (fds o) (mapped o)) malloc.
Definition fd_open : st os unit := st_modify (fun o => mk_os (allocs o) (fds o + 1) (mapped o)).
Definition fd_close : st os unit := st_modify (fun o => mk_os (allocs o) (fds o - 1) (mapped o)).
Definition map_one : st os unit := st_modify (fun o => mk_os (allocs o) (fds o) (mapped o + 1)).
Definition unmap (n : nat) : st os unit := st_modify (fun o => mk_os (allocs o) (fds o) (mapped o - Z.of_nat n)).

(** [goto] to a label that cleans up and returns the code: [clean] runs when [c]
    fails. *)
Definition on_fail {A} (c : st os A) (clean : st os unit) : st os A := fun o =>
  match c o with
  | (Err rc, o') => match clean o' with (Ok _, o'') => (Err rc, o'') | (Err rc', o'') => (Err rc', o'') | (Undef, o'') => (Undef, o'') end
  | r => r
  end.

(** [actf_metadata_parse_fd]: one [read] of the size of the file. *)
Definition actf_metadata_parse_fd (f : os_file) : st pstate unit :=
  match f_stat f with
  | None => st_fail ACTF_ERROR
  | Some sz =>
      with_alloc malloc;;
      match f_read f with
      | None => st_fail ACTF_ERROR
      | Some b => actf_metadata_nparse (take (Z.to_nat sz) b)
      end
  end.

(** [actf_metadata_parse_file], given what [open] opens. *)
Definition actf_metadata_parse_file (f : option os_file) : st pstate unit :=
  match f with None => st_fail ACTF_ERROR | Some f => actf_metadata_parse_fd f end.

(** The metadata of an open file; [None] is [NULL], for any error. *)
Definition parse_opened (f : os_file) (m : actf_metadata) : st os (option actf_metadata) := fun o =>
  match actf_metadata_parse_fd f (m, allocs o) with
  | (Ok _, (m, n)) => (Ok (Some m), mk_os n (fds o) (mapped o))
  | (Err rc, (m, n)) =>
      match message_text (metadata_error m) with
      | None => (Undef, mk_os n (fds o) (mapped o))
      | Some _ => (Ok None, mk_os n (fds o) (mapped o))
      end
  | (Undef, (_, n)) => (Undef, mk_os n (fds o) (mapped o))
  end.

Definition openat_metadata (d : os_dir) (filename : string) : st os (option actf_metadata) :=
  match openat d filename with
  | None => mret None
  | Some f =>
      fd_open;;
      m ← st_zoom allocs (fun n o => mk_os n (fds o) (mapped o)) actf_metadata_init;
      m ← match m with None => mret None | Some m => parse_opened f m end;
      fd_close;; mret m
  end.

Definition skip_entry (filename : string) (e : dirent) : bool :=
  bool_decide (d_name e = filename) || match d_name e with String c _ => Ascii.eqb c "." | EmptyString => false end.

(** The loop over the entries, with the mappings so far, the last first. *)
Fixpoint mmap_loop (filename : string) (es : list dirent) (acc : list (list Z)) : st os (list (list Z)) :=
  match es with
  | [] => mret (rev acc)
  | e :: es =>
      if skip_entry filename e then mmap_loop filename es acc
      else if negb (d_open e) then unmap (length acc);; st_fail ACTF_ERROR
      else
        fd_open;;
        match d_stat e with
        | None => fd_close;; unmap (length acc);; st_fail ACTF_ERROR
        | Some (is_reg, size) =>
            if negb is_reg || (size =? 0) then fd_close;; mmap_loop filename es acc
            else
              match d_mmap e with
              | None => fd_close;; unmap (length acc);; st_fail ACTF_ERROR
              | Some b => map_one;; fd_close;; mmap_loop filename es (b :: acc)
              end
        end
  end.

Definition mmap_datastreams (d : os_dir) (filename : string) : st os (list (list Z)) :=
  os_malloc;;
  if negb (dirfd_ok d) then st_fail ACTF_ERROR else mmap_loop filename (entries d) [].

(** The decoder of a mapping; its allocations count as one. *)
Fixpoint init_decoders (mmaps : list (list Z)) (m : actf_metadata) (evs_cap : nat) : st os (list stream) :=
  match mmaps with
  | [] => mret []
  | b :: mmaps =>
      map_err (fun _ => Err ACTF_ERROR) os_malloc;;
      decs ← init_decoders mmaps m evs_cap;
      mret (mk_stream m b (actf_decoder_init b evs_cap) :: decs)
  end.

Definition open_ctf_dir (path : string) (cfg : actf_freader_cfg) : st os ctf_dir :=
  match opendir path with
  | None => st_fail ACTF_ERROR
  | Some d =>
      let filename := default ""%string (metadata_filename cfg) in
      fd_open;;
      cd ← on_fail
        (if negb (dirfd_ok d) then st_fail ACTF_ERROR
         else
           m ← openat_metadata d filename;
           match m with
           | None => st_fail ACTF_ERROR
           | Some m =>
               mmaps ← mmap_datastreams d filename;
               on_fail
                 (os_malloc;;
                  decs ← init_decoders mmaps m (dstream_evs_cap cfg);
                  mret (mk_ctf_dir path m mmaps decs))
                 (unmap (length mmaps))
           end)
        fd_close;
      fd_close;;
      mret cd
  end.

(** What [ctf_dir_free] gives back. *)
Definition ctf_dir_free (cd : ctf_dir) : st os unit := unmap (length (cd_mmaps cd)).
Fixpoint free_dirs (cds : list ctf_dir) : st os unit :=
  match cds with [] => mret tt | cd :: cds => ctf_dir_free cd;; free_dirs cds end.

(** The directories opened before a failure are freed. *)
Fixpoint open_dirs (paths : list string) (cfg : actf_freader_cfg) (acc : list ctf_dir) : st os (list ctf_dir) :=
  match paths with
  | [] => mret (rev acc)
  | path :: paths =>
      cd ← on_fail (open_ctf_dir path cfg) (free_dirs (rev acc));
      open_dirs paths cfg (cd :: acc)
  end.

(** The muxer and the message have no mappings; the directories give back theirs. *)
Definition actf_freader_free (rd : actf_freader) : st os unit := free_dirs (fr_dirs rd).

Definition init_muxer (gens : list stream) (evs_cap : nat) : st os (actf_muxer stream event_ref) :=
  os_malloc;;
  map_err (fun _ => Err ACTF_ERROR) os_malloc;;
  match actf_muxer_init false (Some (junk_nodes (length gens))) (junk_evs (length gens)) gens evs_cap with
  | Some m => mret m
  | None => st_fail ACTF_ERROR
  end.

(** All decoders, in the order of the directories. *)
Definition all_decs (dirs : list ctf_dir) : list stream := concat (map cd_decs dirs).

(** The last directory with one decoder has the only decoder. *)
Definition only_dec (dirs : list ctf_dir) : option stream :=
  fold_left (fun dec cd => match cd_decs cd with [s] => Some s | _ => dec end) dirs None.

Definition pick_gen (dirs : list ctf_dir) (evs_cap : nat) : st os active_gen :=
  let total_decs := length (all_decs dirs) in
  if (total_decs =? 1)%nat then match only_dec dirs with Some s => mret (OneDec s) | None => st_undef end
  else if (0 <? total_decs)%nat then m ← init_muxer (all_decs dirs) evs_cap; mret (Mux m)
  else mret NoGen.

(** The reader after the call, when it succeeds; otherwise it is unchanged. *)
Definition actf_freader_open_folders (rd : actf_freader) (paths : list string) : st os actf_freader :=
  match paths with
  | [] => mret rd
  | _ =>
      os_malloc;;
      dirs ← open_dirs paths (fr_cfg rd) [];
      g ← on_fail (pick_gen dirs (muxer_evs_cap (fr_cfg rd))) (free_dirs dirs);
      mret (mk_freader (fr_cfg rd) dirs g (fr_err rd))
  end.

Definition actf_freader_open_folder (rd : actf_freader) (path : string) : st os actf_freader :=
  actf_freader_open_folders rd [path].
End Open.

(** * Reading *)

Section Read.
Context `{Generator stream event_ref}.
(** The message of the active generator. *)
Context (last_error : active_gen -> option text).

(** A call of the active generator, which is set. *)
Definition on_active_gen {A} (c : forall G, Generator G event_ref -> st G A) : st actf_freader A := fun rd =>
  match fr_gen rd with
  | NoGen => (Undef, rd)
  | OneDec s => let '(r, s') := c stream _ s in (r, set_gen (OneDec s') rd)
  | Mux m => let '(r, m') := c _ (actf_muxer_to_generator er_tstamp) m in (r, set_gen (Mux m') rd)
  end.

(** The message of a failed call becomes that of the reader; [dflt] replaces a null
    pointer. *)
Definition keep_message {A} (dflt : option text) (c : st actf_freader A) : st actf_freader A := fun rd =>
  match c rd with
  | (Err rc, rd') =>
      let msg := match last_error (fr_gen rd') with Some m => Some m | None => dflt end in
      match message_text msg with Some m => (Err rc, set_err m rd') | None => (Undef, rd') end
  | r => r
  end.

Definition actf_freader_read : st actf_freader (list event_ref) := fun rd =>
  match fr_gen rd with
  | NoGen => (Ok [], rd)
  | _ => keep_message None (on_active_gen (fun G _ => generate)) rd
  end.

Definition actf_freader_seek_ns_from_origin (t : Z) : st actf_freader unit := fun rd =>
  match fr_gen rd with
  | NoGen => (Ok tt, rd)
  | _ => keep_message (Some (lit "unknown seek_ns_from_origin error")) (on_active_gen (fun G _ => seek_ns_from_origin t)) rd
  end.

#[export] Instance actf_freader_to_generator : Generator actf_freader event_ref := {
  generate := actf_freader_read;
  seek_ns_from_origin := actf_freader_seek_ns_from_origin
}.
End Read.

(** A message that is empty was not set. *)
Definition actf_freader_last_error (rd : actf_freader) : option text :=
  match fr_err rd with [] => None | e => Some e end.
