(* ===== verification/FreaderSpec.v ===== *)
(** The file reader: what opening directories gives and gives back, and what
    reading yields.

    [delta] states how a program of the operating system changes the number of open
    descriptors and of mappings, on success and on failure; its rules follow the
    programs. *)
From S2P Require Import Prelude Mappings MappingsTree Common Libc Error Rng HashMap Clock FldCls Metadata Json JsonUtils CtfJson FldClsParse MetadataParse MetadataText.
From S2P Require Import Generator PrioQueue Muxer Fld Arena Scalar Decoder DecoderInv Samples MetadataSafe Print Freader.
From stdpp Require Import strings list.
Open Scope Z_scope.

(** * Descriptors and mappings *)

(** [delta c f m Q ef em]: when [c] returns [a], [Q a] holds and [f a] descriptors
    and [m a] mappings more are open than before; when it fails, [ef] and [em]. *)
Definition delta {A} (c : st os A) (f m : A -> Z) (Q : A -> Prop) (ef em : Z) : Prop :=
  forall o, match c o with
            | (Ok a, o') => Q a /\ fds o' = fds o + f a /\ mapped o' = mapped o + m a
            | (Err _, o') => fds o' = fds o + ef /\ mapped o' = mapped o + em
            | (Undef, _) => True
            end.

(** A program that cannot fail. *)
Definition gives_back (c : st os unit) (f m : Z) : Prop :=
  forall o, exists o', c o = (Ok tt, o') /\ fds o' = fds o + f /\ mapped o' = mapped o + m.

Lemma delta_ret {A} (a : A) (f m : A -> Z) (Q : A -> Prop) ef em : Q a -> f a = 0 -> m a = 0 -> delta (mret a) f m Q ef em.
Proof. intros Hq Hf Hm o. cbn. split; [done|lia]. Qed.

Lemma delta_fail {A} rc (f m : A -> Z) Q ef em : ef = 0 -> em = 0 -> delta (st_fail rc) f m Q ef em.
Proof. intros -> -> o. cbn. lia. Qed.

Lemma delta_undef {A} (f m : A -> Z) Q ef em : delta st_undef f m Q ef em.
Proof. by intros o. Qed.

Lemma delta_bind {A B} (c : st os A) (k : A -> st os B) f m Q f' m' R ef em :
  delta c f m Q ef em ->
  (forall a, Q a -> delta (k a) (fun b => f' b - f a) (fun b => m' b - m a) R (ef - f a) (em - m a)) ->
  delta (c ≫= k) f' m' R ef em.
Proof.
  intros Hc Hk o. specialize (Hc o). unfold mbind, st_bind. destruct (c o) as [[a|rc|] o1]; [|done|done].
  destruct Hc as (Hq & Hf & Hm). specialize (Hk a Hq o1). destruct (k a o1) as [[b|rc|] o2]; [|lia|done].
  destruct Hk as (? & ? & ?). split; [done|lia].
Qed.

Lemma delta_give (c : st os unit) f m f' m' Q ef em : gives_back c f m -> Q tt -> f' tt = f -> m' tt = m -> delta c f' m' Q ef em.
Proof. intros Hc Hq <- <- o. destruct (Hc o) as (o' & -> & ? & ?). done. Qed.

(** A step that cannot fail. *)
Lemma delta_seq {B} (c : st os unit) f m (k : st os B) f' m' R ef em :
  gives_back c f m -> delta k (fun b => f' b - f) (fun b => m' b - m) R (ef - f) (em - m) -> delta (c;; k) f' m' R ef em.
Proof.
  intros Hc Hk. apply (delta_bind c (fun _ => k) (fun _ => f) (fun _ => m) (fun _ => True)).
  - by eapply delta_give.
  - intros _ _. exact Hk.
Qed.

Lemma delta_on_fail {A} (c : st os A) clean f m Q ef em cf cm :
  delta c f m Q ef em -> gives_back clean cf cm -> delta (on_fail c clean) f m Q (ef + cf) (em + cm).
Proof.
  intros Hc Hg o. specialize (Hc o). unfold on_fail. destruct (c o) as [[a|rc|] o1]; [done| |done].
  destruct (Hg o1) as (o2 & -> & ? & ?). lia.
Qed.

Lemma delta_mono {A} (c : st os A) f m (Q : A -> Prop) ef em f' m' (Q' : A -> Prop) ef' em' :
  delta c f m Q ef em -> (forall a, Q a -> Q' a /\ f' a = f a /\ m' a = m a) -> ef' = ef -> em' = em -> delta c f' m' Q' ef' em'.
Proof.
  intros Hc Hq -> -> o. specialize (Hc o). destruct (c o) as [[a|rc|] o1]; [|done|done].
  destruct Hc as (Ha & ? & ?). destruct (Hq a Ha) as (? & -> & ->). done.
Qed.

Lemma open_gives : gives_back fd_open 1 0.
Proof. intros o. eexists. split; [reflexivity|]. cbn. lia. Qed.
Lemma close_gives : gives_back fd_close (-1) 0.
Proof. intros o. eexists. split; [reflexivity|]. cbn. lia. Qed.
Lemma map_gives : gives_back map_one 0 1.
Proof. intros o. eexists. split; [reflexivity|]. cbn. lia. Qed.
Lemma unmap_gives n : gives_back (unmap n) 0 (- Z.of_nat n).
Proof. intros o. eexists. split; [reflexivity|]. cbn. lia. Qed.

(** * Opening *)

(** The contents of the data stream files of a directory: regular files that are not
    empty, but for the metadata and hidden files. *)
Definition data_files (filename : string) (es : list dirent) : list (list Z) :=
  flat_map (fun e =>
    if skip_entry filename e then []
    else match d_stat e with
         | Some (true, size) => if size =? 0 then [] else option_list (d_mmap e)
         | _ => []
         end) es.

Section Open.
Context {json tok : Type} `{JsonC json, Heap, Tokener json tok, QSort}.
Context (metadata_error : actf_metadata -> option text) (opendir : string -> option os_dir).
Context (junk_nodes : nat -> list node) (junk_evs : nat -> list (list event_ref)).
Notation open_folders := (actf_freader_open_folders metadata_error opendir junk_nodes junk_evs).

(** A property of metadata that parsing establishes. *)
Record parse_inv (P : actf_metadata -> Prop) : Prop := {
  pi_init : forall n m n', actf_metadata_init n = (Ok (Some m), n') -> P m;
  pi_parse : forall f, keeps (fun s : pstate => P (fst s)) (actf_metadata_parse_fd f)
}.
Context (P : actf_metadata -> Prop) (HP : parse_inv P).

Definition zero {A} : A -> Z := fun _ => 0.

Lemma delta_malloc ef em : ef = 0 -> em = 0 -> delta os_malloc zero zero (fun _ => True) ef em.
Proof. intros -> -> o. unfold os_malloc, st_zoom, malloc, zero. destruct (malloc_ok (allocs o)); cbn; lia. Qed.

Lemma delta_malloc_err g ef em : (forall rc, exists rc', g rc = Err rc') -> ef = 0 -> em = 0 -> delta (map_err g os_malloc) zero zero (fun _ => True) ef em.
Proof.
  intros Hg -> -> o. unfold map_err, os_malloc, st_zoom, malloc, zero. destruct (malloc_ok (allocs o)); cbn; [lia|].
  destruct (Hg ACTF_OOM) as (rc' & ->). lia.
Qed.

(** Parsing opens nothing. *)
Lemma delta_openat d filename :
  delta (openat_metadata metadata_error d filename) zero zero (fun m => match m with Some m => P m | None => True end) 0 0.
Proof.
  unfold openat_metadata. destruct (openat d filename) as [f|]; [|by apply delta_ret].
  eapply delta_seq; [apply open_gives|]. apply (delta_bind _ _ zero zero (fun m => match m with Some m => P m | None => True end)).
  { intros o. unfold st_zoom, zero. destruct (actf_metadata_init (allocs o)) as [[[m|]|rc|] n] eqn:E; cbn; try lia.
    - split; [by eapply (pi_init P HP)|lia].
    - unfold actf_metadata_init in E. repeat case_match; simplify_eq. }
  intros m Hm. apply (delta_bind _ _ zero zero (fun m => match m with Some m => P m | None => True end)).
  - destruct m as [m|]; [|by apply delta_ret]. intros o. unfold parse_opened, zero.
    pose proof (pi_parse P HP f (m, allocs o) Hm) as Hk.
    destruct (actf_metadata_parse_fd f (m, allocs o)) as [[[]|rc|] [m' n]]; [cbn; split; [exact Hk|lia]| |done].
    destruct (message_text _); cbn; [lia|done].
  - intros m' Hm'. eapply delta_seq; [apply close_gives|]. apply delta_ret; [done|unfold zero; lia..].
Qed.

Lemma delta_mmap filename es : forall acc,
  delta (mmap_loop filename es acc) zero (fun l => Z.of_nat (length l) - Z.of_nat (length acc)) (fun l => l = rev acc ++ data_files filename es)
    0 (- Z.of_nat (length acc)).
Proof.
  assert (Hun : forall (acc : list (list Z)) (f m : list (list Z) -> Z) Q, delta (unmap (length acc);; st_fail ACTF_ERROR) f m Q 0 (- Z.of_nat (length acc)))
    by (intros; eapply delta_seq; [apply unmap_gives|apply delta_fail; lia]).
  assert (Hcun : forall (acc : list (list Z)) (f m : list (list Z) -> Z) Q, delta (fd_close;; unmap (length acc);; st_fail ACTF_ERROR) f m Q (-1) (- Z.of_nat (length acc)))
    by (intros; eapply delta_seq; [apply close_gives|]; eapply delta_seq; [apply unmap_gives|apply delta_fail; lia]).
  induction es as [|e es IH]; intros acc; cbn [mmap_loop data_files flat_map].
  { apply delta_ret; [by rewrite app_nil_r|done|]. rewrite rev_length. lia. }
  destruct (skip_entry filename e); [apply IH|]. destruct (negb (d_open e)); [apply Hun|].
  eapply delta_seq; [apply open_gives|].
  destruct (d_stat e) as [[reg size]|]; [|eapply delta_mono; [apply (Hcun acc zero zero (fun _ => False))|done|lia|lia]].
  assert (Hskip : delta (fd_close;; mmap_loop filename es acc) (fun b => zero b - 1) (fun l => Z.of_nat (length l) - Z.of_nat (length acc) - 0)
    (fun l => l = rev acc ++ data_files filename es) (0 - 1) (- Z.of_nat (length acc) - 0)).
  { eapply delta_seq; [apply close_gives|]. eapply delta_mono; [apply IH|intros a Ha; split; [exact Ha|unfold zero; lia]|lia|lia]. }
  destruct reg; cbn [negb orb]; [|exact Hskip]. destruct (size =? 0); [exact Hskip|].
  destruct (d_mmap e) as [b|]; [|eapply delta_mono; [apply (Hcun acc zero zero (fun _ => False))|done|lia|lia]].
  eapply delta_seq; [apply map_gives|]. eapply delta_seq; [apply close_gives|]. eapply delta_mono; [apply (IH (b :: acc))| | |].
  - intros l ->. cbn [rev option_list length]. rewrite <- app_assoc. split; [done|]. unfold zero. lia.
  - lia.
  - cbn [length]. lia.
Qed.

(** A decoder for each mapping. *)
Definition fresh_stream (m : actf_metadata) (cap : nat) (b : list Z) : stream := mk_stream m b (actf_decoder_init b cap).

Lemma delta_decoders m cap mmaps : delta (init_decoders mmaps m cap) zero zero (fun l => l = map (fresh_stream m cap) mmaps) 0 0.
Proof.
  induction mmaps as [|b mmaps IH]; [by apply delta_ret|]. cbn [init_decoders].
  eapply delta_bind; [apply delta_malloc_err; [by eexists|done|done]|]. intros [] _.
  eapply delta_bind; [exact IH|]. intros decs ->. by apply delta_ret.
Qed.

(** A directory as it is opened. *)
Definition dir_ok (cfg : actf_freader_cfg) (path : string) (cd : ctf_dir) : Prop :=
  exists d, opendir path = Some d /\ cd_path cd = path /\ P (cd_metadata cd) /\
    cd_mmaps cd = data_files (default ""%string (metadata_filename cfg)) (entries d) /\
    cd_decs cd = map (fresh_stream (cd_metadata cd) (dstream_evs_cap cfg)) (cd_mmaps cd).

Definition dir_maps (cd : ctf_dir) : Z := Z.of_nat (length (cd_mmaps cd)).
Definition dirs_maps (cds : list ctf_dir) : Z := foldr (fun cd n => dir_maps cd + n) 0 cds.

Lemma delta_open_dir path cfg : delta (open_ctf_dir metadata_error opendir path cfg) zero dir_maps (dir_ok cfg path) 0 0.
Proof.
  unfold open_ctf_dir. destruct (opendir path) as [d|] eqn:Ho; [|by apply delta_fail]. set (filename := default _ _).
  eapply delta_seq; [apply open_gives|]. eapply (delta_bind _ _ zero dir_maps (dir_ok cfg path)).
  - eapply delta_mono; [apply (delta_on_fail _ _ zero dir_maps (dir_ok cfg path) 0 0 (-1) 0); [|apply close_gives]|done|lia|lia].
    destruct (negb (dirfd_ok d)); [by apply delta_fail|]. eapply delta_bind; [apply delta_openat|]. intros [m|] Hm; [|by apply delta_fail].
    eapply (delta_bind _ _ zero (fun l => Z.of_nat (length l)) (fun l => l = data_files filename (entries d))).
    + unfold mmap_datastreams. eapply delta_bind; [by apply delta_malloc|]. intros [] _.
      destruct (negb (dirfd_ok d)); [by apply delta_fail|]. eapply delta_mono; [apply delta_mmap| |done|done].
      intros l ->. split; [done|]. cbn. unfold zero. lia.
    + intros mmaps ->. set (mm := data_files filename (entries d)).
      eapply delta_mono; [apply (delta_on_fail _ _ zero zero (fun cd => dir_ok cfg path cd /\ dir_maps cd = Z.of_nat (length mm)) 0 0 0 (- Z.of_nat (length mm))); [|apply unmap_gives]| | |].
      * eapply delta_bind; [by apply delta_malloc|]. intros [] _. eapply delta_bind; [apply delta_decoders|]. intros decs ->.
        apply delta_ret; [|done|done]. split; [|done]. exists d. done.
      * intros cd [Hcd Hl]. split; [done|]. unfold zero. rewrite Hl. lia.
      * unfold zero. lia.
      * unfold zero. lia.
  - intros cd Hcd. eapply delta_seq; [apply close_gives|]. apply delta_ret; [done|unfold zero; lia..].
Qed.

Lemma dirs_maps_cons cd cds : dirs_maps (cd :: cds) = dir_maps cd + dirs_maps cds.
Proof. done. Qed.

Lemma free_gives cds : gives_back (free_dirs cds) 0 (- dirs_maps cds).
Proof.
  induction cds as [|cd cds IH]; intros o; [eexists; split; [reflexivity|]; cbn; lia|]. cbn [free_dirs].
  destruct (unmap_gives (length (cd_mmaps cd)) o) as (o1 & R1 & ? & ?). destruct (IH o1) as (o2 & R2 & ? & ?). exists o2.
  unfold ctf_dir_free. rewrite (st_bind_ok _ _ _ _ _ R1), R2. split; [done|]. rewrite dirs_maps_cons. unfold dir_maps in *. lia.
Qed.

Lemma dirs_maps_app a b : dirs_maps (a ++ b) = dirs_maps a + dirs_maps b.
Proof. induction a as [|x a IH]; [done|]. rewrite <- app_comm_cons, !dirs_maps_cons, IH. lia. Qed.

Lemma delta_open_dirs cfg paths : forall acc,
  delta (open_dirs metadata_error opendir paths cfg acc) zero (fun l => dirs_maps l - dirs_maps (rev acc))
    (fun l => exists cds, l = rev acc ++ cds /\ Forall2 (dir_ok cfg) paths cds) 0 (- dirs_maps (rev acc)).
Proof.
  induction paths as [|path paths IH]; intros acc; cbn [open_dirs].
  - apply delta_ret; [exists []; by rewrite app_nil_r|done|lia].
  - eapply delta_bind.
    + eapply delta_mono; [apply (delta_on_fail _ _ zero dir_maps (dir_ok cfg path) 0 0 0 (- dirs_maps (rev acc)));
        [apply delta_open_dir|apply free_gives]|by intros a Ha|done|done].
    + intros cd Hcd. cbv beta. eapply delta_mono; [apply (IH (cd :: acc))| | |].
      * intros l (cds & -> & Hf). split; [exists (cd :: cds); cbn [rev]; rewrite <- app_assoc; split; [done|by constructor]|].
        cbn [rev]. rewrite !dirs_maps_app, !dirs_maps_cons. unfold zero. cbn. lia.
      * done.
      * cbn [rev]. rewrite dirs_maps_app, dirs_maps_cons. cbn. lia.
Qed.

(** ** The generator *)

(** The generator for the decoders: none, the decoder, or a fresh muxer of them. *)
Definition gen_ok (streams : list stream) (cap : nat) (g : active_gen) : Prop :=
  match streams with
  | [] => g = NoGen
  | [s] => g = OneDec s
  | _ => exists m, g = Mux m /\
      actf_muxer_init false (Some (junk_nodes (length streams))) (junk_evs (length streams)) streams cap = Some m
  end.

Lemma only_dec_fold dirs : forall dec,
  let r := fold_left (fun dec cd => match cd_decs cd with [s] => Some s | _ => dec end) dirs dec in
  match all_decs dirs with [] => r = dec | [s] => r = Some s | _ => True end.
Proof.
  induction dirs as [|cd dirs IH]; intros dec; [done|]. unfold all_decs in *. cbn [map concat fold_left].
  destruct (cd_decs cd) as [|s [|s' ss]]; cbn [app]; [apply IH| |done].
  specialize (IH (Some s)). cbv zeta in IH. destruct (concat (map cd_decs dirs)); [exact IH|done].
Qed.

Lemma delta_pick dirs cap :
  delta (pick_gen junk_nodes junk_evs dirs cap) zero zero (gen_ok (all_decs dirs) cap) 0 0.
Proof.
  unfold pick_gen, gen_ok. pose proof (only_dec_fold dirs None) as Ho. cbv zeta in Ho. fold (only_dec dirs) in Ho.
  destruct (all_decs dirs) as [|s [|s' ss]]; cbn [length Nat.eqb Nat.ltb Nat.leb].
  - by apply delta_ret.
  - rewrite Ho. by apply delta_ret.
  - eapply (delta_bind _ _ zero zero). 2: { intros m Hm. apply delta_ret; [exists m; split; [done|exact Hm]|done|done]. }
    unfold init_muxer. eapply delta_bind; [by apply delta_malloc|]. intros [] _.
    eapply delta_bind; [apply delta_malloc_err; [by eexists|done|done]|]. intros [] _.
    destruct (actf_muxer_init _ _ _ _ _) as [m|] eqn:Hm; [|by apply delta_fail]. by apply delta_ret.
Qed.

(** What opening leaves. *)
Lemma open_folders_run rd paths o :
  match open_folders rd paths o with
  | (Ok rd', o') =>
      fds o' = fds o /\
      (paths = [] /\ rd' = rd /\ mapped o' = mapped o \/
       Forall2 (dir_ok (fr_cfg rd)) paths (fr_dirs rd') /\ mapped o' = mapped o + dirs_maps (fr_dirs rd') /\
       gen_ok (all_decs (fr_dirs rd')) (muxer_evs_cap (fr_cfg rd)) (fr_gen rd'))
  | (Err _, o') => fds o' = fds o /\ mapped o' = mapped o
  | (Undef, _) => True
  end.
Proof.
  destruct paths as [|path paths]; [by cbn; eauto|].
  assert (Hd : delta (open_folders rd (path :: paths)) zero (fun rd' => dirs_maps (fr_dirs rd'))
    (fun rd' => Forall2 (dir_ok (fr_cfg rd)) (path :: paths) (fr_dirs rd') /\ gen_ok (all_decs (fr_dirs rd')) (muxer_evs_cap (fr_cfg rd)) (fr_gen rd')) 0 0).
  { unfold actf_freader_open_folders. eapply delta_bind; [by apply delta_malloc|]. intros [] _.
    eapply (delta_bind _ _ zero dirs_maps (fun l => Forall2 (dir_ok (fr_cfg rd)) (path :: paths) l)).
    - eapply delta_mono; [apply (delta_open_dirs (fr_cfg rd) (path :: paths) [])| |done|done].
      intros l (cds & -> & Hf). split; [exact Hf|]. cbn. unfold zero. lia.
    - intros dirs Hdirs. eapply delta_bind.
      + eapply delta_mono; [apply (delta_on_fail _ _ zero zero (gen_ok (all_decs dirs) (muxer_evs_cap (fr_cfg rd))) 0 0 0 (- dirs_maps dirs));
          [apply delta_pick|apply free_gives]|by intros a Ha|done|unfold zero; lia].
      + intros g Hg. apply delta_ret; [by split|done|]. cbn [fr_dirs]. unfold zero. lia. }
  specialize (Hd o). destruct (open_folders rd (path :: paths) o) as [[rd'|rc|] o']; [|unfold zero in Hd; lia|done].
  destruct Hd as ([Hf Hg] & ? & ?). unfold zero in *. split; [lia|]. right. done.
Qed.

End Open.

Lemma parse_inv_true {json tok} `{JsonC json, Heap, Tokener json tok, QSort} : parse_inv (fun _ => True).
Proof. by split. Qed.

(** C14: opening directories.  When it succeeds, the reader has for each path, in order,
    a directory with a decoder for every regular file that is not empty, hidden or
    the metadata, started at its beginning with the metadata of that directory; its
    generator is that decoder when there is one in all, a fresh muxer over all of
    them when there are more, and none when there is none; exactly the mappings of
    these files and no descriptor stay open.  When it fails, for whatever reason and
    however many directories were open by then, every descriptor and every mapping
    has been closed again. *)
Theorem open_folders_spec {json tok : Type} `{JsonC json, Heap, Tokener json tok, QSort} metadata_error opendir junk_nodes junk_evs rd paths o :
  match actf_freader_open_folders metadata_error opendir junk_nodes junk_evs rd paths o with
  | (Ok rd', o') =>
      fds o' = fds o /\
      (paths = [] /\ rd' = rd /\ mapped o' = mapped o \/
       Forall2 (dir_ok opendir (fun _ => True) (fr_cfg rd)) paths (fr_dirs rd') /\ mapped o' = mapped o + dirs_maps (fr_dirs rd') /\
       gen_ok junk_nodes junk_evs (all_decs (fr_dirs rd')) (muxer_evs_cap (fr_cfg rd)) (fr_gen rd'))
  | (Err _, o') => fds o' = fds o /\ mapped o' = mapped o
  | (Undef, _) => True
  end.
Proof. apply open_folders_run, parse_inv_true. Qed.

(** * Reading *)

Section Read.
Context `{HG : Generator stream event_ref}.
Context (last_error : active_gen -> option text).
Notation freader_gen := (actf_freader_to_generator last_error).

(** The call goes to the generator in the reader. *)
Ltac inside :=
  intros ? ? Hrd; unfold actf_freader_read, actf_freader_seek_ns_from_origin, keep_message, on_active_gen; rewrite Hrd;
  lazymatch goal with |- ex _ => by eexists | _ => done end.

(** A generator inside the reader: the reader drains as it does. *)
Lemma inner_drains {G} (GG : Generator G event_ref) (wrap : G -> active_gen) g es :
  (forall rd g, fr_gen rd = wrap g ->
    actf_freader_read last_error rd = keep_message last_error None (fun rd => let '(r, g') := generate g in (r, set_gen (wrap g') rd)) rd) ->
  drains g es -> forall rd, fr_gen rd = wrap g -> @drains _ _ freader_gen rd es.
Proof.
  intros Hread Hd. induction Hd as [g g' Hg|g e evs g' es Hg Hd IH]; intros rd Hrd.
  - apply (@drains_end _ _ freader_gen rd (set_gen (wrap g') rd)).
    change (actf_freader_read last_error rd = (Ok [], set_gen (wrap g') rd)). rewrite (Hread rd g Hrd). unfold keep_message. by rewrite Hg.
  - apply (@drains_more _ _ freader_gen rd e evs (set_gen (wrap g') rd)); [|by apply IH].
    change (actf_freader_read last_error rd = (Ok (e :: evs), set_gen (wrap g') rd)). rewrite (Hread rd g Hrd). unfold keep_message. by rewrite Hg.
Qed.

Lemma merge_one (es : list event_ref) : Generator.merge er_tstamp [es] es.
Proof.
  induction es as [|e es IH]; [apply merge_nil; by constructor|].
  apply (merge_cons er_tstamp [e :: es] 0 e es); [done| |exact IH].
  intros [|j] e' es' Hj; [|done]. injection Hj as <- <-. lia.
Qed.

(** Reading an open reader reads every stream. *)
Lemma freader_drains jn je streams cap rd (ess : list (list event_ref)) :
  (forall n, length (jn n) = n) -> (forall n, length (je n) = n) ->
  gen_ok jn je streams cap (fr_gen rd) -> Forall2 drains streams ess ->
  exists out, @drains _ _ freader_gen rd out /\ Generator.merge er_tstamp ess out.
Proof.
  intros Hjn Hje Hg Hd. unfold gen_ok in Hg. destruct streams as [|s [|s' ss]].
  - apply Forall2_nil_inv_l in Hd as ->. exists []. split; [|by apply merge_nil].
    apply (@drains_end _ _ freader_gen rd rd). change (actf_freader_read last_error rd = (Ok [], rd)). unfold actf_freader_read. by rewrite Hg.
  - apply Forall2_cons_inv_l in Hd as (es & ess' & Hs & Hd & ->). apply Forall2_nil_inv_l in Hd as ->.
    exists es. split; [|apply merge_one]. apply (inner_drains HG OneDec s es); [|done|done].
    inside.
  - destruct Hg as (m & Hm & Hinit). set (streams := s :: s' :: ss) in *.
    destruct (fresh_muxer_drains er_tstamp false (Some (jn (length streams))) (je (length streams)) streams ess cap m) as (out & Ho & Hmrg).
    + apply Hje.
    + intros sl [= <-]. apply Hjn.
    + exact Hinit.
    + exact Hd.
    + exists out. split; [|exact Hmrg]. apply (inner_drains (actf_muxer_to_generator er_tstamp) Mux m out); [|done|done].
      inside.
Qed.

Lemma inner_seeks {G} (GG : Generator G event_ref) (wrap : G -> active_gen) g t es :
  (forall rd g, fr_gen rd = wrap g ->
    actf_freader_read last_error rd = keep_message last_error None (fun rd => let '(r, g') := generate g in (r, set_gen (wrap g') rd)) rd) ->
  (forall rd g, fr_gen rd = wrap g -> exists dflt,
    actf_freader_seek_ns_from_origin last_error t rd =
      keep_message last_error dflt (fun rd => let '(r, g') := seek_ns_from_origin t g in (r, set_gen (wrap g') rd)) rd) ->
  seeks g t es -> forall rd, fr_gen rd = wrap g -> @seeks _ _ freader_gen rd t es.
Proof.
  intros Hread Hseek (g' & Hs & Hd) rd Hrd. exists (set_gen (wrap g') rd). split; [|by apply (inner_drains GG wrap g')].
  destruct (Hseek rd g Hrd) as (dflt & Heq). change (actf_freader_seek_ns_from_origin last_error t rd = (Ok tt, set_gen (wrap g') rd)).
  rewrite Heq. unfold keep_message. by rewrite Hs.
Qed.

(** Seeking an open reader seeks every stream. *)
Lemma freader_seeks jn je streams cap rd t (ess : list (list event_ref)) :
  (forall n, length (jn n) = n) -> (forall n, length (je n) = n) ->
  gen_ok jn je streams cap (fr_gen rd) -> Forall2 (fun s es => seeks s t es) streams ess ->
  exists out, @seeks _ _ freader_gen rd t out /\ Generator.merge er_tstamp ess out.
Proof.
  intros Hjn Hje Hg Hd. unfold gen_ok in Hg. destruct streams as [|s [|s' ss]].
  - apply Forall2_nil_inv_l in Hd as ->. exists []. split; [|by apply merge_nil]. exists rd. split.
    + change (actf_freader_seek_ns_from_origin last_error t rd = (Ok tt, rd)). unfold actf_freader_seek_ns_from_origin. by rewrite Hg.
    + apply (@drains_end _ _ freader_gen rd rd). change (actf_freader_read last_error rd = (Ok [], rd)). unfold actf_freader_read. by rewrite Hg.
  - apply Forall2_cons_inv_l in Hd as (es & ess' & Hs & Hd & ->). apply Forall2_nil_inv_l in Hd as ->.
    exists es. split; [|apply merge_one]. apply (inner_seeks HG OneDec s t es); [inside|inside|done|done].
  - destruct Hg as (m & Hm & Hinit). set (streams := s :: s' :: ss) in *.
    destruct (fresh_muxer_seeks er_tstamp false (Some (jn (length streams))) (je (length streams)) streams ess cap m t) as (out & Ho & Hmrg).
    + apply Hje.
    + intros sl [= <-]. apply Hjn.
    + exact Hinit.
    + exact Hd.
    + exists out. split; [|exact Hmrg]. apply (inner_seeks (actf_muxer_to_generator er_tstamp) Mux m t out); [inside|inside|done|done].
Qed.

(** Reading an open reader once, and seeking it then: every stream is sought, which may have
    been read. *)
Lemma freader_reseeks D idle jn je streams cap rd (ess : list (list event_ref)) :
  (forall n, length (jn n) = n) -> (forall n, length (je n) = n) ->
  yields_step D idle -> gen_ok jn je streams cap (fr_gen rd) -> all_yield D streams ess ->
  exists evs rd1, actf_freader_read last_error rd = (Ok evs, rd1) /\
    match evs with [] => Forall (fun es => es = []) ess | e :: _ => earliest er_tstamp ess e end /\
    forall t (W : nat -> list event_ref -> Prop), (forall i s, idle i s -> exists es, seeks s t es /\ W i es) ->
      exists ess2 out, @seeks _ _ freader_gen rd1 t out /\ Generator.merge er_tstamp ess2 out /\
        length ess2 = length streams /\ forall i es, ess2 !! i = Some es -> W i es.
Proof.
  intros Hjn Hje Hstep Hg [Hl Hy]. unfold gen_ok in Hg. destruct streams as [|s [|s' ss]].
  - destruct ess; [|done]. exists [], rd. split; [by unfold actf_freader_read; rewrite Hg|]. split; [constructor|]. intros t W _.
    exists [], []. split; [|split; [by apply merge_nil|done]]. exists rd. split.
    + change (actf_freader_seek_ns_from_origin last_error t rd = (Ok tt, rd)). unfold actf_freader_seek_ns_from_origin. by rewrite Hg.
    + apply (@drains_end _ _ freader_gen rd rd). change (actf_freader_read last_error rd = (Ok [], rd)). unfold actf_freader_read. by rewrite Hg.
  - destruct ess as [|es [|]]; [done| |done]. destruct (Hstep 0%nat s es (Hy 0%nat s es eq_refl eq_refl)) as (_ & evs & s1 & Hs & He).
    exists evs, (set_gen (OneDec s1) rd). split; [by unfold actf_freader_read, on_active_gen, keep_message; rewrite Hg, Hs|]. split.
    { destruct He as [(-> & -> & _)|(Hne & rest & _ & ->)]; [by constructor|]. destruct evs as [|e evs]; [done|].
      split; [by exists 0%nat, (evs ++ rest)|]. intros [|j] e' es' Hj; [|done]. injection Hj as <- <-. lia. }
    assert (Hid : idle 0%nat s1) by (destruct He as [(_ & _ & ?)|(_ & rest & Hd & _)]; [done|by apply Hstep in Hd as [? _]]).
    intros t W Hseek. destruct (Hseek 0%nat s1 Hid) as (es2 & Hes2 & HW). exists [es2], es2. split; [|split; [apply merge_one|]].
    + by apply (inner_seeks HG OneDec s1 t es2); [inside|inside| |].
    + split; [done|]. intros [|i] es'; [by intros [= <-]|done].
  - destruct Hg as (m & Hm & Hinit). set (streams := s :: s' :: ss) in *.
    destruct (fresh_muxer_reseeks er_tstamp D idle false (Some (jn (length streams))) (je (length streams)) streams ess cap m)
      as (evs & m1 & ess1 & Hrun & Hms & Hnil & Hseek); [done|apply Hje|intros sl [= <-]; apply Hjn|exact Hinit|by split|].
    exists evs, (set_gen (Mux m1) rd). split; [change (@generate _ _ (actf_muxer_to_generator er_tstamp) m = (Ok evs, m1)) in Hrun; by unfold actf_freader_read, on_active_gen, keep_message; rewrite Hm, Hrun|].
    split; [destruct evs; [by apply Hnil|by eapply msteps_earliest]|]. intros t W Hs2. destruct (Hseek t W Hs2) as (ess2 & out & Ho & Hmrg).
    exists ess2, out. split; [|exact Hmrg]. apply (inner_seeks (actf_muxer_to_generator er_tstamp) Mux m1 t out); [inside|inside|done|done].
Qed.

(** C20: reading an open reader yields the merge of its data streams.  Whether the reader
    uses the one decoder directly, a muxer, or nothing at all, when each stream
    drains to a list of events then reading until the end gives a merge of these
    lists by time: every event of every data stream file once, in the order of its
    file, and in time order when each file is. *)
Theorem freader_drains_merge jn je streams cap rd (ess : list (list event_ref)) :
  (forall n, length (jn n) = n) -> (forall n, length (je n) = n) ->
  gen_ok jn je streams cap (fr_gen rd) -> Forall2 drains streams ess ->
  exists out, @drains _ _ freader_gen rd out /\ Generator.merge er_tstamp ess out.
Proof. apply freader_drains. Qed.
End Read.

(** * A directory *)

(** A generator that comes to its end within [fuel] calls, run. *)
Fixpoint drain_end {G E} `{Generator G E} (fuel : nat) (g : G) : option (list E) :=
  match fuel with
  | O => None
  | S n => match generate g with (Ok [], _) => Some [] | (Ok evs, g') => app evs <$> drain_end n g' | _ => None end
  end.

Lemma drain_end_drains {G E} `{Generator G E} fuel : forall (g : G) (es : list E), drain_end fuel g = Some es -> drains g es.
Proof.
  induction fuel as [|fuel IH]; intros g es; [done|]. cbn [drain_end]. destruct (generate g) as [[[|e evs]|rc|] g'] eqn:Hg; try done.
  - intros [= <-]. by eapply drains_end.
  - destruct (drain_end fuel g') as [rest|] eqn:Hd; [|done]. intros [= <-]. apply (drains_more g e evs g' rest); [done|by apply IH].
Qed.

Lemma drain_end_all {G E} `{Generator G E} fuel (gs : list G) :
  forallb (fun g => match drain_end fuel g with Some _ => true | None => false end) gs = true ->
  Forall2 drains gs (map (fun g => default [] (drain_end fuel g)) gs).
Proof.
  induction gs as [|g gs IH]; intros Hb; [constructor|]. cbn [forallb] in Hb. apply andb_true_iff in Hb as [Hg Hb].
  cbn [map]. constructor; [|by apply IH]. destruct (drain_end fuel g) as [es|] eqn:Hd; [|done]. by apply (drain_end_drains fuel).
Qed.

Definition metadata_file : os_file := mk_file (Some 8) (Some [30; 48; 30; 49; 30; 50; 30; 51]).
Definition file_entry (name : string) (b : list Z) : dirent := mk_dirent name true (Some (true, Z.of_nat (length b))) (Some b).
(** Metadata, a hidden file, an empty file, a directory and two data stream files. *)
Definition sample_dir : os_dir :=
  mk_dir true (fun name => if bool_decide (name = "metadata"%string) then Some metadata_file else None)
    [file_entry "metadata" [30]; file_entry ".hidden" [1]; file_entry "empty" []; mk_dirent "index" true (Some (false, 4096)) None;
     file_entry "a" two_pkts; file_entry "b" [56; 0; 6; 1; 0; 8; 2]]%string.
Definition sample_opendir (path : string) : option os_dir := if bool_decide (path = "trace"%string) then Some sample_dir else None.
#[local] Instance sample_streams : Generator stream event_ref := stream_generator malloc_yes malloc_yes 4 20.
Definition no_message : active_gen -> option text := fun _ => Some [].
Definition sample_nodes (n : nat) : list node := repeat (mk_node 0 0) n.
Definition sample_evs (n : nat) : list (list event_ref) := repeat [] n.

(** Opening the directory [n] times, and reading it. *)
Definition sample_open (n : nat) (path : string) : outcome actf_freader * os :=
  match actf_freader_init false (mk_cfg None 0 0) with
  | Some rd => @actf_freader_open_folders jval unit jval_json heap_ok (index_tokener sample_frags) insertion_sort (fun _ => Some []) sample_opendir
      sample_nodes sample_evs rd (repeat "trace"%string n ++ [path]) (mk_os 0 0 0)
  | None => (Undef, mk_os 0 0 0)
  end.
Definition opened (n : nat) : actf_freader :=
  match sample_open n "trace" with (Ok rd, _) => rd | _ => mk_freader (mk_cfg None 0 0) [] NoGen [] end.
Definition read_tstamps (rd : actf_freader) : option (list Z) :=
  map er_tstamp <$> @drain_end _ _ (actf_freader_to_generator no_message) 20 rd.

Example open_and_read :
  map length (map cd_decs (fr_dirs (opened 0))) = [2]%nat /\ read_tstamps (opened 0) = Some [5; 6; 8; 9; 260] /\
  (let '(r, o) := sample_open 0 "trace" in fds o = 0 /\ mapped o = 2) /\
  (let '(r, o) := sample_open 2 "nowhere" in r = Err ACTF_ERROR /\ fds o = 0 /\ mapped o = 0).
Proof. vm_compute. done. Qed.

(** The streams of the directory, and the events of each. *)
Definition dir_streams : list stream := all_decs (fr_dirs (opened 0)).

Example freader_drains_merge_witness :
  exists ess out, Forall2 drains dir_streams ess /\ map (map er_tstamp) ess = [[5; 9; 260]; [6; 8]] /\
    @drains _ _ (actf_freader_to_generator no_message) (opened 0) out /\ Generator.merge er_tstamp ess out.
Proof.
  set (ess := map (fun s => default [] (drain_end 20 s)) dir_streams).
  assert (Hd : Forall2 drains dir_streams ess).
  { apply drain_end_all. vm_compute. reflexivity. }
  edestruct (freader_drains_merge no_message sample_nodes sample_evs dir_streams 0 (opened 0) ess) as (out & Ho & Hm).
  - apply repeat_length.
  - apply repeat_length.
  - vm_compute. eexists. split; reflexivity.
  - exact Hd.
  - exists ess, out. split; [exact Hd|]. split; [vm_compute; reflexivity|]. by split.
Defined.
