(* ===== verification/StreamDecode.v ===== *)
(** The decoder yields the events of the stream.

    [spec_stream] of [StreamSpec] says what the packets and events of a data stream
    are.  The decoder hands them out array by array: it stops inside a packet when its
    array is full, goes on there in the next call, and keeps an error for the call
    after the events before it.  The theorem is that whatever the capacity the arrays,
    one after the other, are the specified events with their packets, and that the end
    of the data or the error comes after them. *)
From S2P Require Import Prelude Common Breader Rng Generator HashMap Clock FldCls Metadata Fld Scalar Arena Decoder DecoderInv DecoderSpec FieldSpec DecoderRefine StreamSpec StreamRefine DecoderPkt Samples Print Freader.
From stdpp Require Import strings.
Open Scope Z_scope.

(** * Events and their packets *)

(** The event with its packet and the bytes its strings point to. *)
Definition ref_of (data : list Z) (i : actf_event * actf_pkt) : event_ref := mk_event_ref (fst i) (snd i) data.

(** The same event in the same packet. *)
Definition same_ref (e e' : event_ref) : Prop :=
  er_ev e = er_ev e' /\ same_packet (er_pkt e) (er_pkt e') /\ er_data e = er_data e'.

#[export] Instance same_ref_equiv : Equivalence same_ref.
Proof.
  unfold same_ref. split; [done|intros e f (-> & H & ->); split_and!; [done|by symmetry|done]|]. intros e f g (-> & H & ->) (-> & H' & ->). split_and!; [done| |done]. by etransitivity.
Qed.

Section Run.
Context (md : actf_metadata) (pm em : nat -> Z -> bool) (lf : nat) (data : list Z) (cap : nat).
Context (Hpm : forall n sz, pm n sz = true) (Hem : forall n sz, em n sz = true).
Context (Hdata : Forall is_byte data) (Hsize : 8 * Z.of_nat (length data) <= 2 ^ 62) (Hmd : metadata_wf md).
Notation inv := (dec_inv data cap).
Notation ev_decode := (actf_decoder_ev_decode md pm em lf).
Notation ev_loop := (ev_loop md pm em lf).
Notation spec_events := (spec_events md lf).

(** * The events of a packet *)

Lemma more_events_spec d :
  base_ok d -> breader_has_bits_remaining (br d) && c_true (d_bits_remaining d) = more_events (abs d).
Proof.
  intros [Hc _ _]. unfold more_events, d_bits_remaining.
  change (br d) with (c_br (cur_of d)). change (d_pkt_s d) with (c_pkt (cur_of d)).
  rewrite (breader_has_bits_spec _ (cw_br _ Hc)), (pkt_bits_remaining_spec _ Hc). cbn [abs ss_cur].
  change (ac_pos (abs_cur (cur_of d))) with (c_pos (cur_of d)). change (ac_end (abs_cur (cur_of d))) with (content_end (cur_of d)).
  change (ac_bits (abs_cur (cur_of d))) with (mem_bits (c_br (cur_of d))). unfold c_pos. f_equal. unfold c_true. zcmp; lia.
Qed.

(** The packet that the events belong to has the fields of [V]. *)
Lemma same_packet_view V d d' : same_packet (pkt (dec_s d')) (pkt (dec_s d)) -> same_pkt V (view_of d) -> same_pkt V (view_of d').
Proof. intros (_ & H1 & H2) [E1 E2]. cbn in *. split; cbn; congruence. Qed.

(** How the loop ends that is to decode the events [es] and to end with [r] in [s]:
    at the end of the packet, with a full array, or with the error. *)
Record loop_ends (room : nat) (d : actf_decoder) (V : view) (es : list actf_event) (r : outcome unit) (s : sst)
    (res : outcome bool) (d' : actf_decoder) (es1 es2 : list actf_event) : Prop := {
  le_inv : inv d';
  le_pkt : same_packet (pkt (dec_s d')) (pkt (dec_s d));
  le_split : es = es1 ++ es2;
  le_evs : evs d' = evs d ++ es1;
  le_end : match res with
    | Ok false => base_ok d' /\ state d' = state d /\ es2 = [] /\ r = Ok tt /\ abs d' = s
    | Ok true => base_ok d' /\ state d' = state (set_resume_pkt true d) /\ length es1 = room /\ more_events (abs d') = true /\
        exists fuel', spec_events fuel' V (abs d') = (es2, r, s)
    | Err rc => state d' = state d /\ es2 = [] /\ r = Err rc
    | Undef => False
    end
}.

Lemma ev_loop_spec fuel : forall room d V es r s,
  base_ok d -> inv d -> same_pkt V (view_of d) -> (room + length (evs d) <= cap)%nat ->
  spec_events fuel V (abs d) = (es, r, s) -> r <> Undef ->
  let '(res, d') := ev_loop room d in exists es1 es2, loop_ends room d V es r s res d' es1 es2.
Proof.
  induction fuel as [|fuel IH]; intros room d V es r s Hok Hi HV Hr Hs Hu; [by injection Hs as <- <- <-|].
  pose proof Hs as Hs0. cbn [StreamSpec.spec_events] in Hs.
  assert (Hloop : ev_loop room d = if more_events (abs d) then match room with
      | O => (st_modify (set_resume_pkt true);; mret true) d
      | S room' => (ev_decode;; st_modify (fun d => set_evs (evs d ++ option_list (ev (dec_s d))) d);; ev_loop room') d
      end else (Ok false, d)).
  { destruct room; cbn [Decoder.ev_loop]; rewrite (st_bind_ok st_get _ d d d), (more_events_spec d Hok) by done; by destruct (more_events _). }
  rewrite Hloop. clear Hloop. destruct (more_events (abs d)) eqn:Em.
  2: { injection Hs as <- <- <-. exists [], []. by split; rewrite ?app_nil_r. }
  destruct room as [|room].
  { exists [], es. destruct Hi, Hok. split; cbn; rewrite ?app_nil_r; try done. split_and!; try done. by exists (S fuel). }
  pose proof (event_refines md pm em lf Hpm Hem V d Hok HV (di_dsc _ _ _ Hi)) as Href. unfold does in Href.
  pose proof (ev_decode_inv md pm em lf data cap Hdata Hsize d Hi) as Hinv.
  pose proof (ev_decode_at_packet md pm em lf data Hdata Hsize d (di_br _ _ _ Hi) (di_dsc _ _ _ Hi)) as Hpk.
  destruct (spec_event md lf V (abs d)) as [[e|rc|] s1]; [| |by injection Hs as <- <- <-].
  - destruct (spec_events fuel V s1) as [[es' r'] s'] eqn:Es'. injection Hs as <- <- <-.
    destruct Href as (a & d1 & Hrun & <- & Hok1 & HV1 & Ee & Ho). rewrite Hrun in Hinv, Hpk. cbn [snd] in Hpk.
    destruct Hinv as (Hi1 & _ & _ & Hcomp). destruct a, (Hcomp eq_refl) as (e' & Ee' & Hce). rewrite Ee in Ee'. injection Ee' as <-.
    rewrite (st_bind_ok _ _ _ _ _ Hrun). set (d2 := set_evs (evs d1 ++ [e]) d1).
    rewrite (st_bind_ok (st_modify _) _ d1 tt d2) by (unfold st_modify; by rewrite Ee).
    unfold outer in Ho. injection Ho as Est _ _ _ Eevs _.
    assert (Hlen : (S (length (evs d1)) + room <= cap)%nat) by (rewrite Eevs; lia).
    assert (Hok2 : base_ok d2) by (by destruct Hok1).
    assert (Hi2 : inv d2) by (apply (inv_push data cap d1 e Hi1 Hce); lia).
    specialize (IH room d2 V es' r' s' Hok2 Hi2 HV1). cbn [evs d2 set_evs] in IH. rewrite length_app in IH.
    specialize (IH ltac:(cbn; lia) Es' Hu). destruct (ev_loop room d2) as [res d'].
    destruct IH as (es1 & es2 & [H1 H2 H3 H4 H5]). exists (e :: es1), es2. split.
    + done.
    + etransitivity; [exact H2|exact Hpk].
    + by rewrite H3.
    + rewrite H4. cbn. by rewrite Eevs, <- app_assoc.
    + assert (Est2 : state d2 = state d) by exact Est. destruct res as [[|]|rc|]; [| | |done].
      * destruct H5 as (?&Hst&Hl&?&?). split_and!; try done; [|cbn; lia]. rewrite Hst. cbn. by rewrite Est.
      * destruct H5 as (?&Hst&?&?&?). by rewrite Est2 in Hst.
      * destruct H5 as (Hst&?&?). by rewrite Est2 in Hst.
  - injection Hs as <- <- <-. destruct Href as (d' & Hrun). rewrite Hrun in Hinv, Hpk. rewrite (st_bind_err _ _ _ _ _ Hrun).
    destruct Hinv as (Hi1 & Ho & _). unfold outer in Ho. injection Ho as Est _ _ _ Eevs _.
    exists [], []. split; rewrite ?app_nil_r; done.
Qed.

(** The gap behind the content. *)
Lemma skip_refines d :
  base_ok d -> does skip_to_end spec_skip d (fun _ _ d' => base_ok d' /\ dec_s d' = dec_s d /\ outer d' = outer d).
Proof.
  intros [Hc Hp He]. unfold does, spec_skip, skip_to_end, mbind, st_bind, st_get.
  change (ac_pkt (ss_cur (abs d))) with (d_pkt_s d). change (ac_pos (ss_cur (abs d))) with (tot_bit_cnt (br d)).
  rewrite <- negb_orb. destruct (_ || _); cbn [negb]; [by exists tt, d|]. cbv zeta.
  destruct (Z.ltb_spec (bit_off (d_pkt_s d) + tot_len (d_pkt_s d)) (tot_bit_cnt (br d))); [done|].
  destruct (Z.leb_spec (tot_bit_cnt (br d) + 2 ^ 64) (bit_off (d_pkt_s d) + tot_len (d_pkt_s d))); [done|]. cbn [orb].
  rewrite u64_small by (unfold is_u64; lia).
  destruct (breader_consume_checked_spec (br d) (bit_off (d_pkt_s d) + tot_len (d_pkt_s d) - tot_bit_cnt (br d)) (cw_br _ Hc) ltac:(lia))
    as (br' & Hrun & Hwf & [Hbo Hmem] & Hpos).
  unfold on_acur, st_zoom, st_modify. cbn [fst snd]. exists tt, (set_br br' d). split; [|split].
  - unfold on_cur, on_br, st_zoom. cbn. rewrite Hrun. by destruct d as [? ? ? ? ? ? ? [? ? [] ? ?]].
  - unfold abs. cbn. f_equal. unfold abs_cur, ac_move. cbn. unfold c_mem, c_pos. cbn.
    f_equal; [done|done|]. rewrite Hpos. change (ac_bits _) with (mem_bits (br d)). lia.
  - split; [|done]. destruct Hc as [Hb Ho Hcl Ht]. pose proof (wf_pos_le _ Hb) as Hle.
    change (c_br (cur_of d)) with (br d) in *. change (c_pkt (cur_of d)) with (d_pkt_s d) in *. split; [|done..].
    split; [done| |done..]. change (0 <= bit_off (d_pkt_s d) <= tot_bit_cnt br'). rewrite Hpos. lia.
Qed.

(** * The calls *)

Context (Hcap : (0 < cap)%nat).
Notation spec_packets := (spec_packets md lf).

(** The events and the end that are still to come. *)
Inductive pending : actf_decoder -> list (actf_event * actf_pkt) -> outcome unit -> Prop :=
| pend_packet fuel d items r :
    state d = DECODING_STATE_OK -> base_ok d -> inv d -> spec_packets fuel (abs d) = (items, r) -> pending d items r
| pend_events fuel fuel' d V p es r s items r' :
    state d = mk_decoding_state true false false -> base_ok d -> inv d -> same_pkt V (view_of d) ->
    same_packet (pkt (dec_s d)) p -> more_events (abs d) = true -> spec_events fuel V (abs d) = (es, r, s) ->
    spec_rest (spec_packets fuel') p es r s = (items, r') -> pending d items r'
| pend_error d rc :
    DECODING_STATE_RESUME_SEEK (state d) = false -> DECODING_STATE_ERROR (state d) = true -> err_rc d = rc -> pending d [] (Err rc).

(** The array [es] holds the first of the [items], in the packet [p]. *)
Record chunk (p : actf_pkt) (es : list actf_event) (items items1 items2 : list (actf_event * actf_pkt)) : Prop := {
  ch_split : items = items1 ++ items2;
  ch_events : map fst items1 = es;
  ch_packet : Forall (fun i => same_packet p (snd i)) items1
}.

Lemma chunk_packet p q es items :
  same_packet q p -> chunk q es (map (fun e => (e, p)) es ++ items) (map (fun e => (e, p)) es) items.
Proof. intros Hp. split; [done|rewrite map_map; apply map_id|apply Forall_map, Forall_true; by intros e]. Qed.

Lemma spec_rest_app packets p es1 es2 r s :
  es2 <> [] \/ r <> Ok tt ->
  spec_rest packets p (es1 ++ es2) r s = let '(items, r') := spec_rest packets p es2 r s in (map (fun e => (e, p)) es1 ++ items, r').
Proof.
  intros H. unfold spec_rest. rewrite map_app. destruct r as [[]|rc|]; [|done..]. destruct H as [H|H]; [|done].
  destruct (spec_skip s) as [[[]|rc|] s']; [|done..]. destruct es2 as [|e es2]; [done|].
  destruct (packets s') as [rest r]. rewrite app_assoc. by destruct es1.
Qed.

Lemma spec_skip_ok s rc s' : spec_skip s <> (Err rc, s').
Proof. unfold spec_skip, on_acur, st_zoom. st_unfold. by repeat case_match. Qed.

(** Where the packet goes on, there is another event or an error. *)
Lemma more_events_come fuel V s es r s' : more_events s = true -> spec_events fuel V s = (es, r, s') -> es <> [] \/ r <> Ok tt.
Proof.
  destruct fuel as [|fuel]; cbn [StreamSpec.spec_events]; [intros _ [= <- <- <-]; by right|]. intros ->.
  destruct (spec_event md lf V s) as [[e|rc|] s1]; [|intros [= <- <- <-]; by right..].
  destruct (spec_events fuel V s1) as [[es0 r0] s0]. intros [= <- <- <-]. by left.
Qed.

(** What a call does in a packet. *)
Definition packet_end (items : list (actf_event * actf_pkt)) (r : outcome unit) (res : outcome unit) (d : actf_decoder) : Prop :=
  exists items1 items2, chunk (pkt (dec_s d)) (evs d) items items1 items2 /\
  match res with
  | Ok _ => match items1 with [] => items = [] /\ r = Ok tt /\ base_ok d | _ => pending d items2 r end
  | Err rc => items2 = [] /\ r = Err rc /\ DECODING_STATE_RESUME_SEEK (state d) = false
  | Undef => False
  end.

Lemma packet_events fuel fuel' d V p es r s items r' :
  state d = DECODING_STATE_OK -> evs d = [] -> base_ok d -> inv d -> same_pkt V (view_of d) -> same_packet (pkt (dec_s d)) p ->
  spec_events fuel V (abs d) = (es, r, s) -> spec_rest (spec_packets fuel') p es r s = (items, r') -> r' <> Undef ->
  let '(res, d') := (full ← ev_loop (evs_cap d - length (evs d)); if (full : bool) then mret tt else skip_to_end) d in
  packet_end items r' res d'.
Proof.
  intros Hst Hev Hok Hi HV Hp Hs Hrest Hu. rewrite Hev, (di_cap _ _ _ Hi), Nat.sub_0_r.
  assert (Hr : r <> Undef) by (intros ->; cbn in Hrest; by injection Hrest as _ <-).
  pose proof (ev_loop_spec fuel cap d V es r s Hok Hi HV ltac:(rewrite Hev; cbn; lia) Hs Hr) as H.
  unfold mbind, st_bind. destruct (ev_loop cap d) as [res d1]. destruct H as (es1 & es2 & [Hi1 Hp1 -> He1 Hend]).
  rewrite Hev in He1. cbn in He1. assert (Hpk : same_packet (pkt (dec_s d1)) p) by (by etransitivity).
  destruct res as [[|]|rc|]; [| | |done].
  - destruct Hend as (Hok1 & Hst1 & Hl & Hm & fuel1 & Hs1). rewrite (spec_rest_app _ _ _ _ _ _ (more_events_come _ _ _ _ _ _ Hm Hs1)) in Hrest.
    destruct (spec_rest _ p es2 r s) as [items2 r2] eqn:E2. injection Hrest as <- <-.
    exists (map (fun e => (e, p)) es1), items2. rewrite He1. split; [by apply chunk_packet|].
    destruct es1; [cbn in Hl; lia|]. cbn. apply (pend_events fuel1 fuel' d1 V p es2 r s items2 r2); try done; [rewrite Hst1; cbn; by rewrite Hst|exact (same_packet_view V d d1 Hp1 HV)].
  - destruct Hend as (Hok1 & Hst1 & -> & -> & <-). rewrite app_nil_r in Hrest. cbn in Hrest.
    pose proof (skip_refines d1 Hok1) as Hsk. unfold does in Hsk. pose proof (skip_to_end_inv data cap Hdata Hsize d1 Hi1) as Hi2.
    destruct (spec_skip (abs d1)) as [[[]|rc|] s2] eqn:Esk; [| |injection Hrest as _ <-; done].
    + destruct Hsk as (a & d2 & Hrun & <- & Hok2 & Hds & Ho). rewrite Hrun in Hi2 |- *. cbn in Hi2.
      unfold outer in Ho. injection Ho as Est _ _ _ Eevs _. destruct es1 as [|e es1].
      { injection Hrest as <- <-. exists [], []. split; [split; [done|by rewrite Eevs, He1|constructor]|done]. }
      destruct (spec_packets fuel' (abs d2)) as [rest r2] eqn:E2. injection Hrest as <- <-.
      exists (map (fun e => (e, p)) (e :: es1)), rest. rewrite Eevs, He1, Hds. split; [by apply (chunk_packet p _ (e :: es1))|].
      cbn. apply (pend_packet fuel'); try done. by rewrite Est, Hst1.
    + by apply spec_skip_ok in Esk.
  - destruct Hend as (Hst1 & -> & ->). rewrite app_nil_r in Hrest. injection Hrest as <- <-.
    exists (map (fun e => (e, p)) es1), []. rewrite He1, Hst1, Hst. split; [|done].
    rewrite <- (app_nil_r (map _ es1)) at 1. by apply chunk_packet.
Qed.

Notation pkt_decode := (actf_decoder_pkt_decode md pm em lf).
Notation decode := (actf_decoder_decode md pm em lf).

(** The packet at the position, or the rest of a packet. *)
Lemma pkt_decode_spec d items r :
  pending d items r -> evs d = [] -> r <> Undef -> breader_has_bits_remaining (br d) = true -> DECODING_STATE_ERROR (state d) = false ->
  let '(res, d') := pkt_decode d in packet_end items r res d'.
Proof.
  intros Hp Hev Hu Hb He. unfold actf_decoder_pkt_decode. rewrite (st_bind_ok st_get _ d d d) by done.
  destruct Hp as [[|fuel] d items r Hst Hok Hi Hs|fuel fuel' d V p es r s items r' Hst Hok Hi HV Hpk Hm Hs Hrest|d rc _ Her _]; [..|congruence];
    [by injection Hs as _ <-| |]; rewrite Hst; cbn [DECODING_STATE_RESUME_PKT DECODING_STATE_OK].
  - cbn [StreamSpec.spec_packets] in Hs. rewrite (breader_has_bits_spec (br d) (cw_br _ (bo_cur _ Hok))) in Hb.
    change (ac_pos (ss_cur (abs d)) <? ac_bits (ss_cur (abs d))) with (tot_bit_cnt (br d) <? mem_bits (br d)) in Hs.
    rewrite Hb in Hs.
    pose proof (pkt_refines md pm em lf Hpm Hem d Hok Hmd) as Href. unfold does in Href.
    pose proof (hdrctx_inv md pm em lf data cap Hdata Hsize Hmd d d (conj Hi eq_refl)) as Hi1.
    destruct (spec_pkt md lf (abs d)) as [[V|rc|] s1]; [| |by injection Hs as _ <-].
    + destruct Href as ([] & d1 & Hrun & <- & [Hok1 <- Ho]). rewrite (st_bind_ok _ _ _ _ _ Hrun). rewrite Hrun in Hi1. destruct Hi1 as [Hi1 _].
      rewrite (st_bind_ok st_get _ d1 d1 d1) by done. destruct (spec_events fuel (view_of d1) (abs d1)) as [[es r0] s2] eqn:Es.
      unfold outer in Ho. injection Ho as Est _ _ _ Eevs _.
      apply (packet_events fuel fuel d1 (view_of d1) (pkt_of (view_of d1) (abs d1)) es r0 s2 items r); try done; [congruence..|].
      by rewrite Eevs.
    + destruct Href as (d1 & Hrun). rewrite (st_bind_err _ _ _ _ _ Hrun). rewrite Hrun in Hi1. destruct Hi1 as [_ Ho]. unfold outer in Ho.
      injection Ho as Est _ _ _ Eevs _. injection Hs as <- <-. exists [], []. rewrite Eevs, Hev, Est, Hst. split; [by apply (chunk_packet (pkt (dec_s d1)) _ [])|done].
  - match goal with |- context [st_modify ?f ≫= _] => set (d1 := f d); rewrite (st_bind_ok (st_modify f) _ d tt d1) by done end.
    rewrite (st_bind_ok st_get _ d1 d1 d1) by done.
    apply (packet_events fuel fuel' d1 V p es r s items r'); try done.
    + cbn. by rewrite Hst.
    + destruct Hok. split; try done. by apply arena_clear_wf.
    + by destruct Hi.
Qed.

Lemma pending_set_evs d items r : pending d items r -> pending (set_evs [] d) items r.
Proof.
  intros [fuel ? ? ? Hst [] Hi Hs|fuel fuel' ? V p es r0 s ? ? Hst [] Hi HV Hpk Hm Hs Hrest|]; [| |by apply pend_error].
  - apply (pend_packet fuel); try done. by apply inv_clear_evs.
  - apply (pend_events fuel fuel' _ V p es r0 s); try done. by apply inv_clear_evs.
Qed.

(** What a call returns, and what comes after it. *)
Definition gives (d : actf_decoder) (items : list (actf_event * actf_pkt)) (r : outcome unit) : Prop :=
  let '(res, d') := decode d in
  match res with
  | Ok es => exists items1 items2, chunk (pkt (dec_s d')) es items items1 items2 /\
      match items1 with [] => items = [] /\ r = Ok tt /\ base_ok d' | _ => pending d' items2 r end
  | Err rc => items = [] /\ r = Err rc
  | Undef => False
  end.

Lemma decode_call d items r : pending d items r -> r <> Undef -> gives d items r.
Proof.
  intros Hp Hu. unfold gives, actf_decoder_decode.
  assert (Hrs : DECODING_STATE_RESUME_SEEK (state d) = false) by (destruct Hp as [? ? ? ? ->|? ? ? ? ? ? ? ? ? ? ->|]; done). rewrite Hrs.
  destruct (DECODING_STATE_ERROR (state d)) eqn:Her.
  { destruct Hp as [? ? ? ? E|? ? ? ? ? ? ? ? ? ? E|d rc _ _ E]; [by rewrite E in Her..|by rewrite E]. }
  apply pending_set_evs in Hp. assert (Hev : evs (set_evs [] d) = []) by done. change (DECODING_STATE_ERROR (state (set_evs [] d)) = false) in Her.
  cbv zeta. revert Hp Hev Her. generalize (set_evs [] d). clear d Hrs. intros d Hp Hev Her. destruct (breader_has_bits_remaining _) eqn:Hb.
  - pose proof (pkt_decode_spec _ _ _ Hp Hev Hu Hb Her) as H. destruct (pkt_decode _) as [res d'].
    destruct res as [[]|rc|]; destruct H as (items1 & items2 & Hch & H); [by exists items1, items2| |done].
    destruct H as (-> & -> & Hs'). destruct Hch as [-> He Hpk]. destruct (evs d') as [|e es] eqn:Ee.
    + by destruct items1.
    + exists items1, []. split; [by split|]. destruct items1 as [|x items1]; [done|]. by apply pend_error.
  - exists [], []. assert (Hend : items = [] /\ r = Ok tt /\ base_ok d); [|destruct Hend as (-> & -> & ?); split; [by split|done]].
    destruct Hp as [[|fuel] d items r Hst Hok Hi Hs|fuel fuel' d V p es r s items r' Hst Hok Hi HV Hpk Hm Hs Hrest|d rc _ E _]; [| | |congruence].
    + by injection Hs as _ <-.
    + cbn [StreamSpec.spec_packets] in Hs. rewrite (breader_has_bits_spec (br d) (cw_br _ (bo_cur _ Hok))) in Hb.
      change (ac_pos (ss_cur (abs d)) <? ac_bits (ss_cur (abs d))) with (tot_bit_cnt (br d) <? mem_bits (br d)) in Hs.
      rewrite Hb in Hs. by injection Hs as <- <-.
    + rewrite <- (more_events_spec d Hok), Hb in Hm. done.
Qed.

(** * The generator *)

Context (seek_fuel : nat).
Notation gen := (stream_generator pm em lf seek_fuel).

Lemma refs_of_chunk p es items items1 items2 :
  chunk p es items items1 items2 -> Forall2 same_ref (map (fun ev => mk_event_ref ev p data) es) (map (ref_of data) items1).
Proof.
  intros [_ <- Hp]. induction Hp as [|[e q] items1 Hq _ IH]; cbn; constructor; [by split_and!|exact IH].
Qed.

(** The generator ends with the items and [r]. *)
Definition gen_ends (d : actf_decoder) (items : list (actf_event * actf_pkt)) (r : outcome unit) : Prop :=
  exists ers s, @ends _ _ gen (mk_stream md data d) ers r s /\ Forall2 same_ref ers (map (ref_of data) items).

Lemma gives_then d items r :
  gives d items r -> (forall d' items2, (length items2 < length items)%nat -> pending d' items2 r -> gen_ends d' items2 r) -> gen_ends d items r.
Proof.
  intros H Hnext. unfold gives in H.
  assert (Hgen : @generate _ _ gen (mk_stream md data d) = stream_generate pm em lf (mk_stream md data d)) by done.
  unfold stream_generate, set_dec in Hgen. cbn [s_md s_dec s_data] in Hgen. destruct (decode d) as [[es|rc|] d']; [| |done].
  - destruct H as (items1 & items2 & Hch & H). pose proof (refs_of_chunk _ _ _ _ _ Hch) as Hrefs. destruct Hch as [-> Hes _].
    destruct items1 as [|i items1].
    + destruct H as (-> & -> & _). cbn in Hes. subst es. exists [], (mk_stream md data d'). split; [by apply ends_ok|constructor].
    + destruct es as [|e es]; [done|]. destruct (Hnext d' items2) as (ers & s & He & Hr); [rewrite length_app; cbn; lia|done|].
      eexists _, s. split; [eapply ends_more; [exact Hgen|exact He]|]. rewrite map_app.
      exact (Forall2_app Hrefs Hr).
  - destruct H as [-> ->]. exists [], (mk_stream md data d'). split; [by apply ends_err|constructor].
Qed.

Lemma pending_ends n : forall d items r, length items = n -> pending d items r -> r <> Undef -> gen_ends d items r.
Proof.
  induction n as [n IH] using lt_wf_ind. intros d items r Hn Hp Hu. apply gives_then; [by apply decode_call|].
  intros d' items2 Hl Hp2. by eapply (IH (length items2)); [lia|..].
Qed.

Lemma gives_ends d items r : gives d items r -> r <> Undef -> gen_ends d items r.
Proof. intros H Hu. apply gives_then; [done|]. intros d' items2 _ Hp. by eapply pending_ends. Qed.
End Run.

Lemma decoder_init_ok data n :
  Forall is_byte data -> 8 * Z.of_nat (length data) <= 2 ^ 62 -> 16 * SIZEOF_FLD * Z.of_nat n <= 2 ^ 62 -> base_ok (actf_decoder_init data n).
Proof.
  intros Hdata Hsize Hn. split; [split; cbn; [by apply breader_init_wf|done..]|split; cbn; done|split; cbn; try done].
  split; [by destruct n|]. destruct n; [by vm_compute|done].
Qed.

Lemma eff_cap_pos n : (0 < eff_cap n)%nat.
Proof. destruct n; unfold eff_cap, ACTF_DEFAULT_EVS_CAP; lia. Qed.

Lemma stream_ends pm em lf sf md fuel data n items r :
  (forall n sz, pm n sz = true) -> (forall n sz, em n sz = true) ->
  Forall is_byte data -> 8 * Z.of_nat (length data) <= 2 ^ 62 -> 16 * SIZEOF_FLD * Z.of_nat n <= 2 ^ 62 -> metadata_wf md ->
  spec_stream md lf fuel data = (items, r) -> r <> Undef ->
  exists ers s, @ends _ _ (stream_generator pm em lf sf) (mk_stream md data (actf_decoder_init data n)) ers r s /\
    Forall2 same_ref ers (map (ref_of data) items).
Proof.
  intros Hpm Hem Hdata Hsize Hn Hmd Hs Hu.
  apply (pending_ends md pm em lf data (eff_cap n) Hpm Hem Hdata Hsize Hmd) with (n := length items); [apply eff_cap_pos|done| |done].
  apply (pend_packet md lf data (eff_cap n) fuel); [done|by apply decoder_init_ok|by apply dec_init_inv|done].
Qed.

(** C3: The decoder yields the stream.  Whatever the capacity of its array, when all
    allocations succeed: the arrays that successive calls return, one after the other,
    are the events that the bytes of the stream specify, each with its packet; after
    them the call returns an empty array when the data end there, or the error that the
    stream ends with.  The specification has no array, and no state but the position,
    the packet and the event. *)
Theorem decoder_yields_stream md pm em lf sf fuel data n items r :
  (forall n sz, pm n sz = true) -> (forall n sz, em n sz = true) ->
  Forall is_byte data -> 8 * Z.of_nat (length data) <= 2 ^ 62 -> 16 * SIZEOF_FLD * Z.of_nat n <= 2 ^ 62 -> metadata_wf md ->
  spec_stream md lf fuel data = (items, r) -> r <> Undef ->
  exists ers s, @ends _ _ (stream_generator pm em lf sf) (mk_stream md data (actf_decoder_init data n)) ers r s /\
    Forall2 same_ref ers (map (ref_of data) items).
Proof. apply stream_ends. Qed.

Lemma same_refs_events data ers items : Forall2 same_ref ers (map (ref_of data) items) -> map er_ev ers = map fst items.
Proof.
  revert items. induction ers as [|e ers IH]; intros [|i items] H; try done; [by inversion H..|].
  apply Forall2_cons in H as [(He & _) H]. cbn. by rewrite He, (IH items H).
Qed.

(** Two packets of one and two events, and the same cut inside the last event, in
    arrays of one event. *)
Example decoder_yields_stream_witness :
  let start data := mk_stream md0 data (actf_decoder_init data 1) in
  let gen := stream_generator malloc_yes malloc_yes 4 4 in
  (exists ers s, @ends _ _ gen (start two_pkts) ers (Ok tt) s /\ map er_tstamp ers = [5; 9; 260]) /\
  (exists ers s, @ends _ _ gen (start (take 10 two_pkts)) ers (Err ACTF_NOT_ENOUGH_BITS) s /\ map er_tstamp ers = [5; 9]).
Proof.
  assert (Hlen : forall n, (n <= 11)%nat -> 8 * Z.of_nat n <= 2 ^ 62) by lia.
  assert (Hgo : forall data items r, forallb (fun b => (0 <=? b) && (b <? 256)) data = true -> (length data <= 11)%nat ->
    spec_stream md0 4 20 data = (items, r) -> r <> Undef ->
    exists ers s, @ends _ _ (stream_generator malloc_yes malloc_yes 4 4) (mk_stream md0 data (actf_decoder_init data 1)) ers r s /\ map er_ev ers = map fst items).
  { intros data items r Hb Hl Hs Hr.
    destruct (decoder_yields_stream md0 malloc_yes malloc_yes 4 4 20 data 1 items r (fun _ _ => eq_refl) (fun _ _ => eq_refl)
      (bytes_ok _ Hb) (Hlen _ Hl) ltac:(vm_compute; discriminate) md0_wf Hs Hr) as (ers & s & He & Hrefs).
    exists ers, s. split; [done|by eapply same_refs_events]. }
  assert (Hts : forall ers, map er_tstamp ers = map (fun e => default 0 (actf_event_tstamp_ns_from_origin e)) (map er_ev ers))
    by (intros ers; by rewrite map_map).
  split.
  - destruct (Hgo two_pkts (fst (spec_stream md0 4 20 two_pkts)) (Ok tt)) as (ers & s & He & Hev); [vm_compute; reflexivity|cbn; lia|vm_compute; reflexivity|done|].
    exists ers, s. split; [done|]. rewrite Hts, Hev. vm_compute. reflexivity.
  - destruct (Hgo (take 10 two_pkts) (fst (spec_stream md0 4 20 (take 10 two_pkts))) (Err ACTF_NOT_ENOUGH_BITS)) as (ers & s & He & Hev);
      [vm_compute; reflexivity|cbn; lia|vm_compute; reflexivity|done|].
    exists ers, s. split; [done|]. rewrite Hts, Hev. vm_compute. reflexivity.
Defined.
