(* ===== verification/StreamSeek.v ===== *)
(** A seek leaves the part of the stream that is specified.

    [spec_seek] of [StreamSpec] says what is left of a data stream after a seek to a
    time: whole packets are left out by the time at their end, and events by their own
    time.  The theorem is that the decoder, sought to that time, yields exactly these
    events with their packets, array by array, as it does for a whole stream in
    [StreamDecode]. *)
From S2P Require Import Prelude Common Breader Rng Generator HashMap Clock FldCls Metadata Fld Scalar Arena Decoder DecoderInv DecoderSpec FieldSpec DecoderRefine StreamSpec StreamRefine DecoderPkt StreamSim Samples Print Freader StreamDecode DecoderSeek.
From stdpp Require Import strings.
Open Scope Z_scope.

(** * The first event *)

Lemma first_at_from t es i : first_at t es i =
  match from_time t es with
  | None => Undef
  | Some [] => Ok None
  | Some l => Ok (Some (i + (length es - length l))%nat)
  end.
Proof.
  revert i. induction es as [|e es IH]; intros i; [done|]. cbn [first_at from_time].
  destruct (actf_event_tstamp_ns_from_origin e) as [ts|]; [|done]. cbn [mbind option_bind]. rewrite Z.geb_leb. destruct (t <=? ts).
  - do 2 f_equal. lia.
  - rewrite IH. destruct (from_time t es) as [[|x l]|] eqn:El; [done| |done]. do 2 f_equal.
    assert (length (x :: l) <= length es)%nat; [|cbn in *; lia]. revert El. clear. generalize (x :: l). intros l'.
    revert l'. induction es as [|e es IH]; intros l' H; cbn [from_time] in H; [by injection H as <-|].
    destruct (actf_event_tstamp_ns_from_origin e) as [ts|]; [|done]. cbn [mbind option_bind] in H.
    destruct (t <=? ts); [by injection H as <-|]. apply IH in H. cbn. lia.
Qed.

(** What was left out is before [t], and the rest begins at or after it. *)
Lemma from_time_split t es l : from_time t es = Some l ->
  exists pre, es = pre ++ l /\ Forall (fun e => exists ts, actf_event_tstamp_ns_from_origin e = Some ts /\ ts < t) pre /\
    match l with [] => True | e :: _ => exists ts, actf_event_tstamp_ns_from_origin e = Some ts /\ t <= ts end.
Proof.
  revert l. induction es as [|e es IH]; intros l; cbn [from_time]; [intros [= <-]; by exists []|].
  destruct (actf_event_tstamp_ns_from_origin e) as [ts|] eqn:Ets; [|done]. cbn [mbind option_bind]. destruct (Z.leb_spec t ts).
  - intros [= <-]. exists []. split_and!; [done|constructor|by exists ts].
  - intros (pre & -> & Hpre & Hl)%IH. exists (e :: pre). split_and!; [done| |done]. constructor; [by exists ts|done].
Qed.

Lemma from_time_app t es1 es2 : from_time t (es1 ++ es2) =
  match from_time t es1 with
  | Some [] => from_time t es2
  | Some l => Some (l ++ es2)
  | None => None
  end.
Proof.
  induction es1 as [|e es1 IH]; [done|]. cbn [app from_time]. destruct (actf_event_tstamp_ns_from_origin e) as [ts|]; [|done].
  cbn [mbind option_bind]. by destruct (t <=? ts).
Qed.

Section Seek.
Context (md : actf_metadata) (pm em : nat -> Z -> bool) (lf : nat) (data : list Z) (cap : nat).
Context (Hpm : forall n sz, pm n sz = true) (Hem : forall n sz, em n sz = true).
Context (Hdata : Forall is_byte data) (Hsize : 8 * Z.of_nat (length data) <= 2 ^ 62) (Hmd : metadata_wf md) (Hcap : (0 < cap)%nat).
Notation inv := (dec_inv data cap).
Notation decode := (actf_decoder_decode md pm em lf).
Notation spec_events := (spec_events md lf).
Notation spec_packets := (spec_packets md lf).
Notation spec_from := (spec_from md lf).
Notation pending := (pending md lf data cap).
Notation gives := (gives md pm em lf data cap).

(** What the next calls return; when they come to the end of the data, the decoder can be
    sought again. *)
Definition leaves (d : actf_decoder) (items : list (actf_event * actf_pkt)) (r : outcome unit) : Prop :=
  gives d items r /\ (r = Ok tt -> base_ok d).

(** * Past a packet *)

Definition jump (d : actf_decoder) : actf_decoder :=
  set_br (breader_seek (sataddu64 (bit_off (d_pkt_s d)) (tot_len (d_pkt_s d)) / 8) BREADER_SEEK_SET (br d)) d.

Lemma jump_inv d : inv d -> 0 <= bit_off (d_pkt_s d) -> inv (jump d).
Proof.
  intros [] Hb. split; try done. apply seek_ok; try done. apply Z.div_pos; [|lia]. unfold sataddu64, UINT64_MAX.
  pose proof (u64_range (bit_off (d_pkt_s d) + tot_len (d_pkt_s d))) as [? _]. case_match; lia.
Qed.

(** The saturated sum ends the data just as the sum does. *)
Lemma sat_target a b n : 0 <= n -> 8 * n <= 2 ^ 62 -> is_u64 a -> is_u64 b -> Z.min (sataddu64 a b / 8) n = Z.min ((a + b) / 8) n.
Proof.
  intros Hn Hs Ha Hb. destruct (Z.lt_ge_cases (a + b) (2 ^ 64)) as [Hl|Hl].
  - unfold sataddu64. rewrite u64_small by (unfold is_u64 in *; lia). destruct (Z.ltb_spec (a + b) b); [unfold is_u64 in *; lia|done].
  - assert (E : sataddu64 a b = UINT64_MAX).
    { unfold sataddu64, u64. rewrite <- (Z.mod_unique_pos (a + b) (2 ^ 64) 1 (a + b - 2 ^ 64)) by (unfold is_u64 in *; lia).
      destruct (Z.ltb_spec (a + b - 2 ^ 64) b); [done|unfold is_u64 in *; lia]. }
    rewrite E. unfold UINT64_MAX. pose proof (Z.div_le_mono (2 ^ 64) (a + b) 8 ltac:(lia) Hl) as H.
    change (2 ^ 64 / 8) with (2 ^ 61) in H. change ((2 ^ 64 - 1) / 8) with (2 ^ 61 - 1). lia.
Qed.

Lemma jump_refines d : base_ok d -> inv d -> does (st_modify jump) spec_jump d (fun _ _ d' => base_ok d' /\ dec_s d' = dec_s d /\ outer d' = outer d).
Proof.
  intros [Hc Hp He] Hi. pose proof Hc as [Hb Hoff Hcl Ht]. change (c_br (cur_of d)) with (br d) in *. change (c_pkt (cur_of d)) with (d_pkt_s d) in *.
  assert (Hmem : br_mem (br d) = data) by apply (di_br _ _ _ Hi).
  assert (Hend : end_ptr (br d) = Z.of_nat (length data)) by (rewrite <- Hmem; apply Hb).
  assert (H0 : 0 <= sataddu64 (bit_off (d_pkt_s d)) (tot_len (d_pkt_s d)) / 8).
  { apply Z.div_pos; [|lia]. unfold sataddu64, UINT64_MAX. pose proof (u64_range (bit_off (d_pkt_s d) + tot_len (d_pkt_s d))) as [? _]. case_match; lia. }
  destruct (breader_seek_spec (br d) _ BREADER_SEEK_SET Hb H0) as (Hwf & [Hbo Hm] & Hpos). cbn [seek_target] in Hpos.
  assert (Hpu : is_u64 (bit_off (d_pkt_s d))).
  { pose proof (wf_pos_le _ Hb) as Hle. unfold mem_bits in Hle. rewrite Hmem in Hle. unfold is_u64. lia. }
  rewrite Hend, sat_target in Hpos by (done || lia).
  unfold does, spec_jump, mbind, st_bind, st_get. change (ac_pkt (ss_cur (abs d))) with (d_pkt_s d).
  assert (Eb : ac_bits (ss_cur (abs d)) = 8 * Z.of_nat (length data)) by (rewrite <- Hmem; reflexivity). rewrite Eb. cbv zeta.
  rewrite Z.mul_min_distr_nonneg_l by lia. rewrite <- Hpos. fold (jump d).
  change (tot_bit_cnt (breader_seek _ _ _)) with (tot_bit_cnt (br (jump d))) in *.
  destruct (Z.ltb_spec (tot_bit_cnt (br (jump d))) (bit_off (d_pkt_s d))) as [Hlt|Hge]; [done|].
  exists tt, (jump d). split; [done|]. split; [|split; [|done]].
  - change (abs (jump d)) with (mk_sst (mk_acur (br_mem (br (jump d))) (br_bo (br (jump d))) (tot_bit_cnt (br (jump d))) (d_pkt_s d)) (ev_s <$> ev (dec_s d))).
    change (br (jump d)) with (breader_seek (sataddu64 (bit_off (d_pkt_s d)) (tot_len (d_pkt_s d)) / 8) BREADER_SEEK_SET (br d)) at 1 2. by rewrite Hbo, Hm.
  - split; [|done..]. split; [exact Hwf| |done..]. change (0 <= bit_off (d_pkt_s d) <= tot_bit_cnt (br (jump d))). lia.
Qed.

(** * The events of a packet *)

(** The decoder in a packet, at an event. *)
Record at_event (V : view) (p : actf_pkt) (d : actf_decoder) : Prop := {
  ae_state : state d = mk_decoding_state true false false;
  ae_ok : base_ok d;
  ae_inv : inv d;
  ae_view : same_pkt V (view_of d);
  ae_pkt : same_packet (pkt (dec_s d)) p
}.

(** The decoder between two packets, or at the end of the data. *)
Record at_packet (d : actf_decoder) : Prop := {
  ap_state : state d = DECODING_STATE_OK \/ state d = mk_decoding_state true false false /\ breader_has_bits_remaining (br d) = false;
  ap_ok : base_ok d;
  ap_inv : inv d
}.

(** What a call does among the events [es] of the packet, which end with [r] in [s]: it
    fills its array with some, or comes to the packet that begins in [s'], or to an
    error. *)
Inductive resumed (V : view) (p : actf_pkt) (es : list actf_event) (r : outcome unit) (s s' : sst) : outcome (list actf_event) -> actf_decoder -> Prop :=
| res_full fuel es1 es2 d : es = es1 ++ es2 -> es1 <> [] -> at_event V p d -> more_events (abs d) = true -> spec_events fuel V (abs d) = (es2, r, s) ->
    resumed V p es r s s' (Ok es1) d
| res_end d : r = Ok tt -> at_packet d -> abs d = s' -> resumed V p es r s s' (Ok es) d
| res_error res d : r <> Ok tt -> res = Ok es \/ (es = [] /\ exists rc, res = Err rc) -> resumed V p es r s s' res d.

Lemma spec_events_end fuel V s es s' : spec_events fuel V s = (es, Ok tt, s') -> more_events s' = false.
Proof.
  revert s es. induction fuel as [|fuel IH]; intros s es; cbn [StreamSpec.spec_events]; [done|]. destruct (more_events s) eqn:Em; [|by intros [= _ <-]].
  destruct (spec_event md lf V s) as [[e|rc|] s1]; [|done..]. destruct (spec_events fuel V s1) as [[es1 r1] s2] eqn:Es.
  intros [= _ -> <-]. by apply (IH s1 es1).
Qed.

(** At the end of the data there is nothing to skip. *)
Lemma skip_at_end d s' : base_ok d -> breader_has_bits_remaining (br d) = false -> spec_skip (abs d) = (Ok tt, s') -> s' = abs d.
Proof.
  intros [Hc _ _] Hb. rewrite (breader_has_bits_spec (br d) (cw_br _ Hc)) in Hb. apply Z.ltb_ge in Hb. pose proof (wf_pos_le _ (cw_br _ Hc)) as Hle.
  unfold spec_skip, mbind, st_bind, st_get. change (ac_pos (ss_cur (abs d))) with (tot_bit_cnt (br d)). destruct (_ || _); [by intros [= <-]|]. cbv zeta.
  destruct (Z.ltb_spec (bit_off (ac_pkt (ss_cur (abs d))) + tot_len (ac_pkt (ss_cur (abs d)))) (tot_bit_cnt (br d))); [done|]. destruct (_ <=? _); [done|].
  cbn [orb]. intros [= <-]. change (ac_bits (ss_cur (abs d))) with (mem_bits (br d)) in *. change (c_br (cur_of d)) with (br d) in *.
  change (ac_pkt (ss_cur (abs d))) with (d_pkt_s d) in *. change (ac_bits (abs_cur (cur_of d))) with (mem_bits (br d)).
  assert (E : Z.min (bit_off (d_pkt_s d) + tot_len (d_pkt_s d)) (mem_bits (br d)) = tot_bit_cnt (br d)) by lia.
  by rewrite E.
Qed.

Lemma decode_resumed fuel V p d es r s s' :
  at_event V p d -> spec_events fuel V (abs d) = (es, r, s) -> r <> Undef -> (r = Ok tt -> spec_skip s = (Ok tt, s')) ->
  let '(res, d') := decode d in resumed V p es r s s' res d'.
Proof.
  intros [Hst Hok Hi HV Hp] Hs Hu Hsk. unfold actf_decoder_decode. rewrite Hst. cbn [DECODING_STATE_RESUME_SEEK DECODING_STATE_ERROR].
  change (br (set_evs [] d)) with (br d). pose proof (inv_clear_evs data cap d Hi) as Hi0.
  assert (Hok0 : base_ok (set_evs [] d)) by (by destruct Hok). destruct (breader_has_bits_remaining (br d)) eqn:Hb.
  2: { destruct fuel as [|fuel]; [by injection Hs as _ <-|]. cbn [StreamSpec.spec_events] in Hs. rewrite <- (more_events_spec data d Hok), Hb in Hs.
       injection Hs as <- <- <-. apply res_end; [done| |symmetry; by apply (skip_at_end d); [..|apply Hsk]]. split; [by right|done..]. }
  unfold actf_decoder_pkt_decode. rewrite (st_bind_ok st_get _ _ _ _ eq_refl). change (state (set_evs [] d)) with (state d). rewrite Hst.
  cbn [DECODING_STATE_RESUME_PKT].
  match goal with |- context [st_modify ?f ≫= _] => set (d1 := f (set_evs [] d)); rewrite (st_bind_ok (st_modify f) _ _ tt d1) by done end.
  rewrite (st_bind_ok st_get _ d1 d1 d1) by done. assert (Hst1 : state d1 = DECODING_STATE_OK) by (cbn; by rewrite Hst).
  assert (Hok1 : base_ok d1) by (destruct Hok0; split; try done; by apply arena_clear_wf). assert (Hi1 : inv d1) by (by destruct Hi0).
  change (evs_cap d1 - length (evs d1))%nat with (evs_cap d - 0)%nat. rewrite (di_cap _ _ _ Hi), Nat.sub_0_r.
  pose proof (ev_loop_spec md pm em lf data cap Hpm Hem Hdata Hsize fuel cap d1 V es r s Hok1 Hi1 HV ltac:(cbn; lia) Hs Hu) as H.
  unfold mbind, st_bind. destruct (ev_loop md pm em lf cap d1) as [res d2]. destruct H as (es1 & es2 & [Hi2 Hp2 -> He2 Hend]). cbn in He2.
  destruct res as [[|]|rc|]; [| | |done].
  - destruct Hend as (Hok2 & Hst2 & Hl & Hm & fuel2 & Hs2). cbn. rewrite He2. apply (res_full _ _ _ _ _ _ fuel2 es1 es2); try done; [by destruct es1; cbn in Hl; [lia|]|].
    split; try done; [rewrite Hst2; cbn; by rewrite Hst|exact (same_packet_view V d1 d2 Hp2 HV)|by etransitivity].
  - destruct Hend as (Hok2 & Hst2 & -> & -> & <-). rewrite app_nil_r.
    pose proof (skip_refines data d2 Hok2) as Hr. unfold does in Hr. rewrite (Hsk eq_refl) in Hr. destruct Hr as (a & d3 & Hrun & Ha & Hok3 & Hds & Ho).
    pose proof (skip_to_end_inv data cap Hdata Hsize d2 Hi2) as Hi3. rewrite Hrun in Hi3 |- *. cbn in Hi3. unfold outer in Ho. injection Ho as Est _ _ _ Eevs _.
    destruct a. rewrite Eevs, He2. apply res_end; [done| |done]. split; [left; congruence|done..].
  - destruct Hend as (Hst2 & -> & ->). rewrite app_nil_r, He2. destruct es1; apply res_error; try done; [by eauto|by left].
Qed.

(** * The sought event *)

Lemma pending_seek_evs a b d items r : pending d items r -> pending (set_resume_seek false (set_seek_evs a b (set_resume_seek true d))) items r.
Proof.
  intros [fuel ? ? ? Hst [] Hi Hs|fuel fuel' ? V p es r0 s ? ? Hst [] Hi HV Hpk Hm Hs Hrest|? rc _ He Hrc]; [..|by apply pend_error].
  - apply (pend_packet _ _ _ _ fuel); [cbn; by rewrite Hst|done|by destruct Hi|done].
  - apply (pend_events _ _ _ _ fuel fuel' _ V p es r0 s); try done; [cbn; by rewrite Hst|by destruct Hi].
Qed.

Lemma pending_ok d items : pending d items (Ok tt) -> base_ok d.
Proof. by inversion 1. Qed.

Lemma seek_found fuel f2 V p d d' es1 es2 r s t x l items r' :
  at_event V p d -> spec_events fuel V (abs d) = (es1 ++ es2, r, s) -> decode d = (Ok es1, d') -> from_time t es1 = Some (x :: l) ->
  spec_rest (spec_packets f2) p ((x :: l) ++ es2) r s = (items, r') -> r' <> Undef ->
  leaves (set_seek_evs (length es1 - length (x :: l)) (length es1 - (length es1 - length (x :: l))) (set_resume_seek true d')) items r'.
Proof.
  intros [Hst Hok Hi HV Hp] Hs Hdec Hf Hrest Hu. destruct (from_time_split _ _ _ Hf) as (pre & E1 & _ & _). subst es1.
  assert (Hrest' : spec_rest (spec_packets f2) p ((pre ++ x :: l) ++ es2) r s = (map (fun e => (e, p)) pre ++ items, r')).
  { rewrite <- app_assoc, (spec_rest_app _ p pre ((x :: l) ++ es2)) by (left; by destruct l). by rewrite Hrest. }
  assert (Hm : more_events (abs d) = true).
  { destruct fuel; [by destruct pre|]. cbn [StreamSpec.spec_events] in Hs. destruct (more_events (abs d)); [done|]. by destruct pre. }
  pose proof (pend_events md lf data cap fuel f2 d V p _ r s _ r' Hst Hok Hi HV Hp Hm Hs Hrest') as Hpend.
  pose proof (decode_call md pm em lf data cap Hpm Hem Hdata Hsize Hmd Hcap d _ r' Hpend Hu) as Hg. unfold StreamDecode.gives in Hg. rewrite Hdec in Hg.
  assert (Hev : evs d' = pre ++ x :: l).
  { pose proof (decode_evs md pm em lf data cap Hdata Hsize Hmd d Hi) as H. rewrite Hdec in H. apply H; [unfold resume_seek; by rewrite Hst|done]. }
  destruct Hg as (items1 & items2 & [Hsp Hfst Hpk] & Hg). destruct items1 as [|i items1]; [by destruct pre|].
  assert (El : (length (pre ++ x :: l) - length (x :: l) = length pre)%nat) by (rewrite length_app; lia). rewrite El.
  assert (Hlen : (length pre < length (i :: items1))%nat) by (rewrite <- (length_map fst), Hfst, length_app; cbn; lia).
  set (d1 := set_seek_evs _ _ _). assert (Hd : decode d1 = (Ok (x :: l), set_resume_seek false d1)).
  { transitivity (Ok (take (length (pre ++ x :: l) - length pre) (drop (length pre) (evs d'))), set_resume_seek false d1); [done|].
    rewrite Hev, drop_app_length, take_ge; [done|rewrite length_app; lia]. }
  split; [|intros ->; by destruct (pending_ok _ _ Hg)]. unfold StreamDecode.gives. rewrite Hd.
  exists (drop (length pre) (i :: items1)), items2. split; [split|].
  - apply (f_equal (drop (length pre))) in Hsp. rewrite drop_app_length' in Hsp by (by rewrite length_map). rewrite Hsp. by apply drop_app_le; lia.
  - rewrite <- skipn_map, Hfst. by apply drop_app_length.
  - exact (Forall_drop _ _ _ Hpk).
  - destruct (drop (length pre) (i :: items1)) as [|j items'] eqn:Ed; [|by apply pending_seek_evs].
    apply (f_equal length) in Ed. rewrite length_drop in Ed. cbn [length] in *. lia.
Qed.

Lemma decode_no_bits d : at_packet d -> breader_has_bits_remaining (br d) = false -> decode d = (Ok [], set_evs [] d).
Proof. intros [Hst _ _] Hb. unfold actf_decoder_decode. destruct Hst as [->|[-> _]]; cbn; by rewrite Hb. Qed.

Lemma at_end_leaves d : at_packet d -> breader_has_bits_remaining (br d) = false -> leaves d [] (Ok tt).
Proof.
  intros Hap Hb. split; [|intros _; apply Hap]. unfold StreamDecode.gives. rewrite (decode_no_bits d Hap Hb).
  exists [], []. split; [done|]. split_and!; [done..|]. by destruct (ap_ok _ Hap).
Qed.

(** Behind the events of a packet the seek sees that there are no more. *)
Lemma skipped_no_more s s' : spec_skip s = (Ok tt, s') -> more_events s = false -> more_events s' = false.
Proof.
  unfold spec_skip, mbind, st_bind, st_get. destruct (_ || _); [by intros [= <-]|]. cbv zeta.
  destruct (Z.ltb_spec (bit_off (ac_pkt (ss_cur s)) + tot_len (ac_pkt (ss_cur s))) (ac_pos (ss_cur s))); [done|]. destruct (_ <=? _); [done|]. cbn [orb].
  intros [= <-]. unfold more_events. cbn. rewrite !andb_false_iff, !Z.ltb_ge. unfold ac_end, ac_bits. cbn. lia.
Qed.

(** One call of the seek: it found an event, or goes on. *)
Lemma seek_events_found sf fuel f2 V p d d' es1 es2 r s t x l items r' :
  at_event V p d -> spec_events fuel V (abs d) = (es1 ++ es2, r, s) -> decode d = (Ok es1, d') -> from_time t es1 = Some (x :: l) ->
  spec_rest (spec_packets f2) p ((x :: l) ++ es2) r s = (items, r') -> r' <> Undef ->
  exists d', seek_events md pm em lf (S sf) t d = (Ok None, d') /\ leaves d' items r'.
Proof.
  intros Hat Hs Hdec Hf Hrest Hu. eexists. split; [|by eapply seek_found]. cbn [seek_events]. rewrite Hdec. destruct es1 as [|e es1]; [done|].
  by rewrite first_at_from, Hf.
Qed.

Lemma seek_events_on sf d d' e es t :
  decode d = (Ok (e :: es), d') -> from_time t (e :: es) = Some [] ->
  seek_events md pm em lf (S sf) t d = if d_bits_remaining d' =? 0 then (Ok (Some ACTF_OK), d') else seek_events md pm em lf sf t d'.
Proof. intros Hdec Hf. cbn [seek_events]. by rewrite Hdec, first_at_from, Hf. Qed.

(** The end of the packet, when no event in it was found. *)
Lemma seek_events_end sf d d' es t s s' :
  decode d = (Ok es, d') -> from_time t es = Some [] -> at_packet d' -> abs d' = s' -> spec_skip s = (Ok tt, s') -> more_events s = false ->
  (length es < S sf)%nat -> exists d', seek_events md pm em lf (S sf) t d = (Ok (Some ACTF_OK), d') /\ at_packet d' /\ abs d' = s'.
Proof.
  intros Hdec Hf Hap Ha Hsk Hm Hlen. destruct es as [|e es]; [exists d'; cbn [seek_events]; by rewrite Hdec|]. rewrite (seek_events_on _ _ _ _ _ _ Hdec Hf).
  destruct (Z.eqb_spec (d_bits_remaining d') 0) as [Hz|Hz]; [by exists d'|]. destruct sf as [|sf]; [cbn in Hlen; lia|].
  assert (Hb : breader_has_bits_remaining (br d') = false).
  { pose proof (skipped_no_more _ _ Hsk Hm) as Hm'. rewrite <- Ha, <- (more_events_spec data d' (ap_ok _ Hap)) in Hm'.
    destruct (breader_has_bits_remaining (br d')); [|done]. unfold c_true in Hm'. cbn in Hm'. by apply negb_false_iff, Z.eqb_eq in Hm'. }
  cbn [seek_events]. rewrite (decode_no_bits d' Hap Hb). exists (set_evs [] d'). split; [done|]. split; [|done].
  destruct Hap as [Hst [] Hi]. split; try done. by apply inv_clear_evs.
Qed.

(** The calls of the seek among the events of a packet. *)
Lemma seek_events_spec sf : forall fuel V p d es r s s' t,
  at_event V p d -> spec_events fuel V (abs d) = (es, r, s) -> r <> Undef -> (r = Ok tt -> spec_skip s = (Ok tt, s')) -> (length es < sf)%nat ->
  match from_time t es with
  | None => True
  | Some [] => r = Ok tt -> exists d', seek_events md pm em lf sf t d = (Ok (Some ACTF_OK), d') /\ at_packet d' /\ abs d' = s'
  | Some l => forall f2 items r', spec_rest (spec_packets f2) p l r s = (items, r') -> r' <> Undef ->
      exists d', seek_events md pm em lf sf t d = (Ok None, d') /\ leaves d' items r'
  end.
Proof.
  induction sf as [|sf IH]; intros fuel V p d es r s s' t Hat Hs Hu Hsk Hlen; [lia|].
  pose proof (decode_resumed fuel V p d es r s s' Hat Hs Hu Hsk) as H.
  destruct (decode d) as [res d'] eqn:Hdec. destruct H as [fuel' es1 es2 d' -> Hne Hat' Hm Hs'|d' -> Hap Ha|res d' Hr Hres].
  - rewrite from_time_app. destruct (from_time t es1) as [[|x l]|] eqn:Ef; [|intros f2 items r'; by eapply (seek_events_found _ _ _ _ _ _ _ es1 es2)|done].
    destruct es1 as [|e es1]; [done|]. rewrite (seek_events_on _ _ _ _ _ _ Hdec Ef).
    assert (Hz : (d_bits_remaining d' =? 0) = false).
    { rewrite <- (more_events_spec data d' (ae_ok _ _ _ Hat')) in Hm. apply andb_true_iff in Hm as [_ Hm]. unfold c_true in Hm. by apply negb_true_iff in Hm. }
    rewrite Hz. apply (IH fuel' V p d' es2 r s s' t Hat' Hs' Hu Hsk). cbn in Hlen. rewrite length_app in Hlen. lia.
  - destruct (from_time t es) as [[|x l]|] eqn:Ef; [| |done].
    + intros _. by apply (seek_events_end sf d d' es t s s' Hdec Ef Hap Ha (Hsk eq_refl) (spec_events_end _ _ _ _ _ Hs)).
    + intros f2 items r' Hrest. rewrite <- (app_nil_r (x :: l)) in Hrest. rewrite <- (app_nil_r es) in Hs. by eapply (seek_events_found _ _ _ _ _ _ _ es []).
  - destruct (from_time t es) as [[|x l]|] eqn:Ef; [done| |done]. destruct Hres as [->|[-> _]]; [|done].
    intros f2 items r' Hrest. rewrite <- (app_nil_r (x :: l)) in Hrest. rewrite <- (app_nil_r es) in Hs. by eapply (seek_events_found _ _ _ _ _ _ _ es []).
Qed.

(** * The packets *)

Lemma spec_events_length fuel : forall V s es r s', spec_events fuel V s = (es, r, s') -> r <> Undef -> (length es < fuel)%nat.
Proof.
  induction fuel as [|fuel IH]; intros V s es r s'; cbn [StreamSpec.spec_events]; [by intros [= <- <- <-]|].
  destruct (more_events s); [|intros [= <- <- <-]; cbn; lia]. destruct (spec_event md lf V s) as [[e|rc|] s1]; [|intros [= <- <- <-]; cbn; lia..].
  destruct (spec_events fuel V s1) as [[es1 r1] s2] eqn:Es. intros [= <- <- <-] Hu. specialize (IH _ _ _ _ _ Es Hu). cbn. lia.
Qed.

(** The header and context at the position: the decoder is then before the events. *)
Lemma seek_packet V s1 d :
  at_packet d -> breader_has_bits_remaining (br d) = true -> spec_pkt md lf (abs d) = (Ok V, s1) ->
  exists d1, actf_decoder_pkt_hdrctx_decode md pm em lf d = (Ok tt, d1) /\ abs d1 = s1 /\ state d1 = DECODING_STATE_OK /\ base_ok d1 /\ inv d1 /\ at_event V (pkt_of V s1) (set_resume_pkt true d1).
Proof.
  intros [Hst Hok Hi] Hb Hs. assert (Est : state d = DECODING_STATE_OK) by (destruct Hst as [|[_ ?]]; congruence).
  pose proof (pkt_refines md pm em lf Hpm Hem d Hok Hmd) as Href. unfold does in Href. rewrite Hs in Href.
  pose proof (hdrctx_inv md pm em lf data cap Hdata Hsize Hmd d d (conj Hi eq_refl)) as Hi1.
  destruct Href as ([] & d1 & Hrun & <- & [Hok1 <- Ho]). rewrite Hrun in Hi1. destruct Hi1 as [Hi1 _]. exists d1.
  unfold outer in Ho. injection Ho as Est1 _ _ _ _ _. rewrite Est in Est1. split_and!; try done. split; try done; [cbn; by rewrite Est1|by destruct Hok1|by destruct Hi1].
Qed.

Lemma seek_loop_spec fuel : forall sf d t, at_packet d -> (fuel <= sf)%nat ->
  match spec_from fuel t (abs d) with
  | Ok (items, r) => r <> Undef -> exists d', seek_loop md pm em lf sf t ACTF_OK d = (Ok tt, d') /\ leaves d' items r
  | Err rc => exists d', seek_loop md pm em lf sf t ACTF_OK d = (Err rc, d')
  | Undef => True
  end.
Proof.
  induction fuel as [|fuel IH]; intros [|sf] d t Hap Hf; try done; [lia|]. cbn [StreamSpec.spec_from seek_loop].
  change (ac_pos (ss_cur (abs d)) <? ac_bits (ss_cur (abs d))) with (tot_bit_cnt (br d) <? mem_bits (br d)).
  rewrite <- (breader_has_bits_spec (br d) (cw_br _ (bo_cur _ (ap_ok _ Hap)))). destruct (breader_has_bits_remaining (br d)) eqn:Hb.
  2: { intros _. exists d. split; [done|by apply at_end_leaves]. }
  destruct (spec_pkt md lf (abs d)) as [[V|rc|] s1] eqn:Es; [| |done].
  2: { pose proof (pkt_refines md pm em lf Hpm Hem d (ap_ok _ Hap) Hmd) as Href. unfold does in Href. rewrite Es in Href. destruct Href as (d1 & ->). by eexists. }
  destruct (seek_packet V s1 d Hap Hb Es) as (d1 & -> & <- & Hst1 & Hok1 & Hi1 & Hat). change (ac_pkt (ss_cur (abs d1))) with (d_pkt_s d1).
  destruct (ends_before t (d_pkt_s d1)) as [[|]|]; [| |done].
  - pose proof (jump_refines d1 Hok1 Hi1) as Hj. unfold does in Hj. destruct (spec_jump (abs d1)) as [[[]|rc|] s2]; [|done..].
    destruct Hj as ([] & d2 & Hd2 & <- & Hok2 & _). injection Hd2 as <-. apply IH; [|lia].
    split; [by left|done|apply jump_inv; [done|apply (cw_off _ (bo_cur _ Hok1))]].
  - change (abs d1) with (abs (set_resume_pkt true d1)) at 1.
    destruct (spec_events fuel V (abs (set_resume_pkt true d1))) as [[es r] s2] eqn:Ev. destruct r as [[]|rc|].
    + destruct (spec_skip s2) as [[[]|rc|] s3] eqn:Esk.
      * pose proof (seek_events_spec sf fuel V _ _ es (Ok tt) s2 s3 t Hat Ev ltac:(done) (fun _ => Esk)
          ltac:(pose proof (spec_events_length _ _ _ _ _ _ Ev ltac:(done)); lia)) as H.
        destruct (from_time t es) as [[|x l]|]; [| |done].
        -- destruct (H eq_refl) as (d2 & -> & Hap2 & <-). apply IH; [done|lia].
        -- destruct (spec_rest _ _ _ _ _) as [items r] eqn:Er. intros Hu. destruct (H fuel items r Er Hu) as (d2 & -> & Hg). by exists d2.
      * by apply spec_skip_ok in Esk.
      * destruct (from_time t es) as [[|x l]|]; [done| |done]. unfold spec_rest. by rewrite Esk.
    + pose proof (seek_events_spec sf fuel V _ _ es (Err rc) s2 s2 t Hat Ev ltac:(done) ltac:(done)
        ltac:(pose proof (spec_events_length _ _ _ _ _ _ Ev ltac:(done)); lia)) as H.
      destruct (from_time t es) as [[|x l]|]; [done| |done]. destruct (spec_rest _ _ _ _ _) as [items r] eqn:Er. intros Hu.
      destruct (H fuel items r Er Hu) as (d2 & -> & Hg). by exists d2.
    + destruct (from_time t es) as [[|x l]|]; [done|by intros []|done].
Qed.

(** * From the begin *)

Lemma like_refs items items' : Forall2 like_item items items' -> Forall2 same_ref (map (ref_of data) items) (map (ref_of data) items').
Proof. induction 1 as [|i j items items' [He Hp] _ IH]; constructor; [by split_and!|exact IH]. Qed.


Definition rewound (d : actf_decoder) : actf_decoder := set_br (breader_seek 0 BREADER_SEEK_SET (br d)) (set_state DECODING_STATE_OK d).

(** Where the packet before began does not matter. *)
Definition off_zero (d : actf_decoder) : actf_decoder := set_pkt_s (set_bit_off 0 (d_pkt_s d)) d.
Lemma hdrctx_off d : actf_decoder_pkt_hdrctx_decode md pm em lf (off_zero d) = actf_decoder_pkt_hdrctx_decode md pm em lf d.
Proof. by destruct d. Qed.
Lemma seek_loop_off sf t d : breader_has_bits_remaining (br d) = true ->
  seek_loop md pm em lf (S sf) t ACTF_OK (off_zero d) = seek_loop md pm em lf (S sf) t ACTF_OK d.
Proof. intros Hb. cbn [seek_loop]. change (br (off_zero d)) with (br d). by rewrite hdrctx_off, Hb. Qed.

Lemma rewound_br d : base_ok d -> inv d ->
  br_wf (br (rewound d)) /\ br_mem (br (rewound d)) = data /\ tot_bit_cnt (br (rewound d)) = 0 /\ inv (rewound d).
Proof.
  intros [[Hb _ _ _] _ _] Hi. change (c_br (cur_of d)) with (br d) in Hb.
  destruct (breader_seek_spec (br d) 0 BREADER_SEEK_SET Hb ltac:(lia)) as (Hwf & [_ Hm] & Hpos). cbn [seek_target] in Hpos.
  rewrite Z.min_l in Hpos by (pose proof (wf_rp _ Hb); lia). split_and!; [done|exact (eq_trans Hm (ok_mem _ _ (di_br _ _ _ Hi)))|done|].
  destruct Hi. split; try done. by apply seek_ok.
Qed.

Lemma rewound_start d : base_ok d -> inv d -> at_packet (off_zero (rewound d)) /\ same_start (abs (off_zero (rewound d))) (stream_start data).
Proof.
  intros Hok Hi. destruct (rewound_br d Hok Hi) as (Hwf & Hm & Hpos & Hi'). destruct Hok as [[_ _ Hcl Ht] Hp He].
  change (c_pkt (cur_of d)) with (d_pkt_s d) in *. split.
  - split; [by left| |by destruct Hi']. split; [split; [exact Hwf| |done..]|done..].
    change (0 <= 0 <= tot_bit_cnt (br (rewound d))). lia.
  - split_and!; [exact Hm|exact Hpos|]. right. change (tot_bit_cnt (br (rewound d)) mod 8 = 0). by rewrite Hpos.
Qed.

Lemma rewound_empty d : base_ok d -> inv d -> breader_has_bits_remaining (br (rewound d)) = false -> at_packet (rewound d).
Proof.
  intros Hok Hi Hb. destruct (rewound_br d Hok Hi) as (Hwf & Hm & Hpos & Hi'). rewrite (breader_has_bits_spec _ Hwf), Hpos in Hb.
  destruct Hok as [[Hbr Hoff Hcl Ht] Hp He]. pose proof (wf_pos_le _ Hbr) as Hle. unfold mem_bits in *.
  change (c_br (cur_of d)) with (br d) in *. rewrite Hm in Hb. rewrite (ok_mem _ _ (di_br _ _ _ Hi)) in Hle. apply Z.ltb_ge in Hb.
  split; [by left| |done]. split; [split; [exact Hwf| |done..]|done..].
  change (0 <= bit_off (c_pkt (cur_of d)) <= tot_bit_cnt (br (rewound d))). lia.
Qed.

(** The seek of a decoder that was used before. *)
Lemma seek_refines sf fuel t d : base_ok d -> inv d -> (fuel <= sf)%nat ->
  match spec_seek md lf fuel t data with
  | Ok (items, r) => r <> Undef ->
      exists d' items', actf_decoder_seek_ns_from_origin md pm em lf sf t d = (Ok tt, d') /\ leaves d' items' r /\ Forall2 like_item items' items
  | Err rc => exists d', actf_decoder_seek_ns_from_origin md pm em lf sf t d = (Err rc, d')
  | Undef => True
  end.
Proof.
  intros Hok Hi Hf. destruct (rewound_start d Hok Hi) as [Hap Hsame]. unfold spec_seek.
  pose proof (same_from md lf Hmd t fuel _ _ Hsame) as Hs. pose proof (seek_loop_spec fuel sf _ t Hap Hf) as H.
  unfold actf_decoder_seek_ns_from_origin. fold (rewound d). destruct fuel as [|fuel]; [done|]. destruct sf as [|sf]; [lia|].
  destruct (breader_has_bits_remaining (br (rewound d))) eqn:Hb.
  - rewrite (seek_loop_off sf t _ Hb) in H. destruct (spec_from (S fuel) t (stream_start data)) as [[items r]|rc|]; [| |done].
    + destruct (spec_from (S fuel) t (abs _)) as [[items' r']|rc|]; [|done..]. destruct Hs as [Hl Hr]. cbn in Hl, Hr. subst r'. intros Hu.
      destruct (H Hu) as (d' & Hrun & Hd'). by exists d', items'.
    + destruct (spec_from (S fuel) t (abs _)) as [[items' r']|rc'|]; [done| |done]. by subst rc'.
  - assert (Hend : (ac_pos (ss_cur (stream_start data)) <? ac_bits (ss_cur (stream_start data))) = false).
    { destruct Hsame as (Hm & Hp & _). unfold ac_bits. rewrite <- Hm, <- Hp. rewrite <- Hb. symmetry. apply breader_has_bits_spec, (cw_br _ (bo_cur _ (ap_ok _ Hap))). }
    cbn [StreamSpec.spec_from]. rewrite Hend. intros _. cbn [seek_loop]. rewrite Hb.
    exists (rewound d), []. split; [done|]. split; [|constructor]. by apply at_end_leaves; [apply rewound_empty|].
Qed.

(** What the generator then yields. *)
Lemma sought_ends sf fuel t d : base_ok d -> inv d -> (fuel <= sf)%nat ->
  match spec_seek md lf fuel t data with
  | Ok (items, r) => r <> Undef ->
      exists d' ers s, actf_decoder_seek_ns_from_origin md pm em lf sf t d = (Ok tt, d') /\
        @ends _ _ (stream_generator pm em lf sf) (mk_stream md data d') ers r s /\ Forall2 same_ref ers (map (ref_of data) items) /\
        exists items', leaves d' items' r
  | Err rc => exists d', actf_decoder_seek_ns_from_origin md pm em lf sf t d = (Err rc, d')
  | Undef => True
  end.
Proof.
  intros Hok Hi Hf. pose proof (seek_refines sf fuel t d Hok Hi Hf) as H. destruct (spec_seek md lf fuel t data) as [[items r]|rc|]; [|done..]. intros Hu.
  destruct (H Hu) as (d' & items' & Hrun & Hl & Hsame).
  destruct (gives_ends md pm em lf data cap Hpm Hem Hdata Hsize Hmd Hcap sf d' items' r (proj1 Hl) Hu) as (ers & s & He & Hr).
  exists d', ers, s. split_and!; [done..| |by exists items']. etransitivity; [exact Hr|by apply like_refs].
Qed.
End Seek.

(** * The seek of a new decoder *)

(** A sought stream begins at or after the time. *)
Lemma spec_from_begins md lf fuel : forall t s e p items r,
  spec_from md lf fuel t s = Ok ((e, p) :: items, r) -> exists ts, actf_event_tstamp_ns_from_origin e = Some ts /\ t <= ts.
Proof.
  induction fuel as [|fuel IH]; intros t s e p items r; cbn [StreamSpec.spec_from]; [done|]. destruct (_ <? _); [|done].
  destruct (spec_pkt md lf s) as [[V|rc|] s1]; [|done..]. destruct (ends_before _ _) as [[|]|]; [| |done].
  { destruct (spec_jump s1) as [[[]|rc|] s2]; [apply IH|done..]. }
  destruct (spec_events md lf fuel V s1) as [[es r0] s2]. destruct (from_time t es) as [[|x l]|] eqn:Ef.
  - destruct r0 as [[]|rc|]; [|done..]. destruct (spec_skip s2) as [[[]|rc|] s3]; [apply IH|done..].
  - destruct (from_time_split _ _ _ Ef) as (_ & _ & _ & Hx). intros H. enough (x = e) as -> by done.
    assert (Hr : fst (spec_rest (spec_packets md lf fuel) (pkt_of V s1) (x :: l) r0 s2) = (e, p) :: items) by (apply (f_equal (fun o => match o with Ok a => fst a | _ => [] end)) in H; by destruct r0).
    unfold spec_rest in Hr. destruct r0 as [[]|rc|]; [|by injection Hr..].
    destruct (spec_skip s2) as [[[]|rc|] s3]; [|by injection Hr..]. destruct (spec_packets md lf fuel s3). by injection Hr.
  - by destruct r0.
Qed.

(** C4: A seek leaves exactly the part of the stream that is specified.  Whatever the
    capacity of the array of a new decoder, when all allocations succeed: a seek to [t]
    succeeds where the stream can be read up to its first event at or after [t], and the
    arrays that the next calls return, one after the other, are then the events from that
    one on, each with its packet, followed by the end of the data or the error of the
    stream; when the header or context of a packet before it cannot be read, the seek
    returns that error.  The specification leaves a packet out by the time at its end and
    its length, and an event by its time. *)
Theorem seek_yields_rest md pm em lf sf fuel t data n :
  (forall n sz, pm n sz = true) -> (forall n sz, em n sz = true) ->
  Forall is_byte data -> 8 * Z.of_nat (length data) <= 2 ^ 62 -> 16 * SIZEOF_FLD * Z.of_nat n <= 2 ^ 62 -> metadata_wf md -> (fuel <= sf)%nat ->
  (forall items r, spec_seek md lf fuel t data = Ok (items, r) -> r <> Undef ->
     exists d ers s, actf_decoder_seek_ns_from_origin md pm em lf sf t (actf_decoder_init data n) = (Ok tt, d) /\
       @ends _ _ (stream_generator pm em lf sf) (mk_stream md data d) ers r s /\ Forall2 same_ref ers (map (ref_of data) items)) /\
  (forall rc, spec_seek md lf fuel t data = Err rc ->
     exists d, actf_decoder_seek_ns_from_origin md pm em lf sf t (actf_decoder_init data n) = (Err rc, d)).
Proof.
  intros Hpm Hem Hdata Hsize Hn Hmd Hf.
  pose proof (sought_ends md pm em lf data (eff_cap n) Hpm Hem Hdata Hsize Hmd (eff_cap_pos n) sf fuel t _ (decoder_init_ok data n Hdata Hsize Hn) (dec_init_inv data n Hsize) Hf) as H.
  split; [intros items r Hs Hu|intros rc Hs]; rewrite Hs in H; [|done]. destruct (H Hu) as (d & ers & s & ? & ? & ? & _). by exists d, ers, s.
Qed.

(** Packets whose context has the time at their end. *)
Definition end_ctx_fc : actf_fld_cls :=
  FC_STRUCT [("len", uint_fc 8 ACTF_ROLE_PKT_TOT_LEN); ("end", uint_fc 8 ACTF_ROLE_PKT_END_DEF_CLK_TSTAMP)]%string 1 8.
Definition md_end : actf_metadata := sample_md end_ctx_fc ev_hdr_fc byte_payload.
Lemma md_end_wf : metadata_wf md_end.
Proof.
  assert (H8 : pow2 8) by (by exists 3). assert (H1 : pow2 1) by (by exists 0).
  assert (Hb : bit_arr_wf (le_bits 8 8)) by (by apply (le_bits_wf 8 3)).
  apply sample_md_wf; right; cbn; repeat split; (done || apply Hb).
Qed.

(** A packet that ends at 6, with an event at 5, and one that ends at 30, with events at 9 and 30. *)
Definition end_pkts : list Z := [40; 6; 0; 5; 7;  64; 30; 0; 9; 8; 0; 30; 1].

(** The first packet is left out by the time at its end, and the event at 9 by its own
    time; behind the last event there is nothing; a packet context that is cut short is
    an error of the seek. *)
Example seek_yields_rest_witness :
  let seek t data := actf_decoder_seek_ns_from_origin md_end malloc_yes malloc_yes 4 20 t (actf_decoder_init data 1) in
  let gives_from t tss := exists d ers s, seek t end_pkts = (Ok tt, d) /\
    @ends _ _ (stream_generator malloc_yes malloc_yes 4 20) (mk_stream md_end end_pkts d) ers (Ok tt) s /\ map er_tstamp ers = tss in
  gives_from 7 [9; 30] /\ gives_from 10 [30] /\ gives_from 31 [] /\ exists d, seek 7 (take 6 end_pkts) = (Err ACTF_NOT_ENOUGH_BITS, d).
Proof.
  assert (Hgo : forall data t, forallb (fun b => (0 <=? b) && (b <? 256)) data = true -> 8 * Z.of_nat (length data) <= 2 ^ 62 -> _)
    by exact (fun data t Hb Hl => seek_yields_rest md_end malloc_yes malloc_yes 4 20 20 t data 1 (fun _ _ => eq_refl) (fun _ _ => eq_refl) (bytes_ok _ Hb) Hl
      ltac:(vm_compute; discriminate) md_end_wf ltac:(lia)).
  assert (Hts : forall ers items, Forall2 same_ref ers (map (ref_of end_pkts) items) ->
    map er_tstamp ers = map (fun i => default 0 (actf_event_tstamp_ns_from_origin (fst i))) items).
  { intros ers items Hr. unfold er_tstamp. rewrite <- (map_map er_ev (fun e => default 0 (actf_event_tstamp_ns_from_origin e))), (same_refs_events _ _ _ Hr).
    by rewrite map_map. }
  assert (Hone : forall t items, spec_seek md_end 4 20 t end_pkts = Ok (items, Ok tt) ->
    exists d ers s, actf_decoder_seek_ns_from_origin md_end malloc_yes malloc_yes 4 20 t (actf_decoder_init end_pkts 1) = (Ok tt, d) /\
      @ends _ _ (stream_generator malloc_yes malloc_yes 4 20) (mk_stream md_end end_pkts d) ers (Ok tt) s /\
      map er_tstamp ers = map (fun i => default 0 (actf_event_tstamp_ns_from_origin (fst i))) items).
  { intros t items Hs. destruct (proj1 (Hgo end_pkts t ltac:(vm_compute; reflexivity) ltac:(vm_compute; discriminate)) items (Ok tt) Hs ltac:(done)) as (d & ers & s & Hd & He & Hr).
    exists d, ers, s. split_and!; [done..|by apply Hts]. }
  split_and!; [exact (Hone 7 _ ltac:(vm_compute; reflexivity))|exact (Hone 10 _ ltac:(vm_compute; reflexivity))|exact (Hone 31 _ ltac:(vm_compute; reflexivity))|].
  apply Hgo; vm_compute; (reflexivity || discriminate).
Defined.
