(* ===== verification/StreamRest.v ===== *)
(** A seek loses no event.

    [StreamSpec.spec_from] leaves whole packets out by what their context says of their
    end.  Where that is true, a seek to a time gives what is left of the stream without
    the events before its first event at or after that time: nothing behind it is lost,
    although the packets on the way were not read. *)
From Stdlib Require Import Sorting.Sorted.
From S2P Require Import Prelude Common Breader Rng Generator HashMap Clock FldCls Metadata Fld Scalar Arena Decoder DecoderInv DecoderSpec FieldSpec StreamSpec StreamRefine DecoderPkt StreamSim Samples Print Freader StreamDecode DecoderSeek StreamSeek.
From stdpp Require Import strings.
Open Scope Z_scope.

(** * Packets that tell the truth *)

(** The time at the end of a packet that its context gives; the inner [None] is a time that is
    undefined. *)
Definition end_time (p : pkt_state) : option (option Z) :=
  match dsc_cls p ≫= actf_dstream_cls_clk_cls with
  | Some clkc => if has_flag p PKT_END_DEF_CLK_VAL then Some (actf_clk_cls_cc_to_ns_from_origin clkc (end_def_clk_val p)) else None
  | None => None
  end.

Lemma ends_before_time t p :
  ends_before t p = match end_time p with None => Some false | Some o => e ← o; Some (e <? t) end.
Proof. unfold ends_before, end_time. destruct (dsc_cls p ≫= _); [|done]. by destruct (has_flag _ _). Qed.

Definition timed (e : actf_event) : bool := bool_decide (is_Some (actf_event_tstamp_ns_from_origin e)).
Definition ev_time (e : actf_event) : Z := default 0 (actf_event_tstamp_ns_from_origin e).

(** Of the packet whose events [es] begin in [s] and whose end is [s']: if the context gives
    the time at the end, no event is later, and the length of the packet leads to its end. *)
Definition honest (es : list actf_event) (s s' : sst) : bool :=
  forallb timed es &&
  match end_time (ac_pkt (ss_cur s)) with
  | None => true
  | Some None => false
  | Some (Some e) =>
      forallb (fun ev => ev_time ev <=? e) es &&
      match spec_jump s with (Ok _, s1) => ac_pos (ss_cur s1) =? ac_pos (ss_cur s') | _ => false end
  end.

(** The packets at the position can all be read, are honest, and all but the last have
    events. *)
Fixpoint truthful (md : actf_metadata) (lf fuel : nat) (s : sst) : bool :=
  match fuel with
  | O => false
  | S fuel' =>
      if ac_pos (ss_cur s) <? ac_bits (ss_cur s) then
        match spec_pkt md lf s with
        | (Ok V, s1) =>
            match spec_events md lf fuel' V s1 with
            | (es, Ok _, s2) =>
                match spec_skip s2 with
                | (Ok _, s3) =>
                    honest es s1 s3 && (negb (bool_decide (es = [])) || (ac_bits (ss_cur s3) <=? ac_pos (ss_cur s3))) &&
                    truthful md lf fuel' s3
                | _ => false
                end
            | _ => false
            end
        | _ => false
        end
      else true
  end.

(** The list from its first element at or after [t]. *)
Fixpoint since {A} (time : A -> Z) (t : Z) (l : list A) : list A :=
  match l with [] => [] | x :: l' => if t <=? time x then l else since time t l' end.

Lemma since_app {A} (time : A -> Z) t l l' : since time t (l ++ l') = match since time t l with [] => since time t l' | k => k ++ l' end.
Proof. induction l as [|x l IH]; [done|]. cbn [app since]. by destruct (_ <=? _). Qed.
Lemma since_before {A} (time : A -> Z) t l l' : Forall (fun x => time x < t) l -> since time t (l ++ l') = since time t l'.
Proof. induction 1 as [|x l Hx _ IH]; [done|]. cbn [app since]. destruct (Z.leb_spec t (time x)); [lia|done]. Qed.
Lemma since_related {A B} (R : A -> B -> Prop) (f : A -> Z) (g : B -> Z) t l l' :
  (forall x y, R x y -> f x = g y) -> Forall2 R l l' -> Forall2 R (since f t l) (since g t l').
Proof.
  intros Ht. induction 1 as [|x y l l' Hxy Hl IH]; [constructor|]. cbn [since]. rewrite (Ht x y Hxy). destruct (_ <=? _); [by constructor|done].
Qed.
Lemma since_map {A B} (h : A -> B) (time : B -> Z) t l : since time t (map h l) = map h (since (fun x => time (h x)) t l).
Proof. induction l as [|x l IH]; [done|]. cbn [map since]. by destruct (_ <=? _). Qed.
(** In the order of time these are all elements at or after [t]. *)
Lemma since_sorted {A} (time : A -> Z) t l :
  StronglySorted (fun x y => time x <= time y) l -> since time t l = List.filter (fun x => t <=? time x) l.
Proof.
  induction 1 as [|x l _ IH Hx]; [done|]. cbn [since List.filter]. destruct (Z.leb_spec t (time x)) as [Hl|]; [|done]. f_equal. symmetry.
  clear IH. induction Hx as [|y l Hy _ IH]; [done|]. cbn [List.filter]. destruct (Z.leb_spec t (time y)); [by rewrite IH|lia].
Qed.

(** * The data stay the same *)

Section Frame.
Context (data : list Z).
Definition c_over (ac : acur) : Prop := ac_mem ac = data.
Definition over (s : sst) : Prop := ac_mem (ss_cur s) = data.

(** What is done with the state of the moment. *)
Lemma keeps_get_at {S A} (I : S -> Prop) (k : S -> st S A) : (forall s, I s -> keeps I (k s)) -> keeps I (st_get ≫= k).
Proof. intros Hk s Hs. exact (Hk s Hs s Hs). Qed.
Lemma keeps_put {S} (I : S -> Prop) s : I s -> keeps I (st_put s).
Proof. by intros Hs t _. Qed.

Lemma align_over al : keeps c_over (s_align al).
Proof. by intros ac. Qed.
Lemma switch_over b : keeps c_over (s_switch b).
Proof. intros ac. unfold s_switch. by destruct (_ || _). Qed.
Lemma find_null_over p n enc : keeps c_over (s_find_null p n enc).
Proof. by intros ac. Qed.
#[local] Hint Resolve align_over switch_over find_null_over : st_logic.

Ltac over_step :=
  cbv zeta;
  match goal with
  | |- keeps _ (st_get ≫= _) => apply keeps_get_at; intros ? ?
  | |- keeps _ (st_put _) => apply keeps_put; assumption
  | |- _ => keeps_step
  end.
Ltac over_auto := repeat over_step.

Lemma fxd_over a : keeps c_over (s_fxd a).
Proof. unfold s_fxd. over_auto. Qed.
Lemma var_len_over : keeps c_over s_var_len.
Proof. unfold s_var_len. over_auto. Qed.
Lemma bytes_over n : keeps c_over (s_bytes n).
Proof. unfold s_bytes. over_auto. Qed.
#[local] Hint Resolve fxd_over var_len_over bytes_over : st_logic.
Lemma str_over enc n : keeps c_over (s_str enc n).
Proof. unfold s_str. over_auto. Qed.
Lemma blob_over n : keeps c_over (s_blob n).
Proof. unfold s_blob. over_auto. Qed.
Lemma null_term_str_over enc : keeps c_over (s_null_term_str enc).
Proof. unfold s_null_term_str. over_auto. Qed.
#[local] Hint Resolve str_over blob_over null_term_str_over : st_logic.
Lemma leaf_over cls : keeps c_over (s_leaf cls).
Proof. unfold s_leaf. over_auto. Qed.

Lemma on_acur_over {A} (m : st acur A) : keeps c_over m -> keeps over (on_acur m).
Proof. intros Hm. by apply (keeps_zoom over c_over). Qed.
#[local] Hint Resolve leaf_over on_acur_over : st_logic.
Lemma upd_pkt_over h : keeps over (s_upd_pkt h).
Proof. apply on_acur_over, keeps_modify. by intros ac. Qed.
Lemma upd_ev_over h : keeps over (s_upd_ev h).
Proof. intros s Hs. unfold s_upd_ev. by destruct (ss_ev s). Qed.
Lemma uint64_over f : keeps over (s_uint64 f).
Proof. unfold s_uint64. over_auto. Qed.
#[local] Hint Resolve upd_pkt_over upd_ev_over uint64_over : st_logic.

Lemma roles_over md c cls f : keeps over (s_roles md c cls f).
Proof.
  assert (Ht : Forall (fun e => keeps over (snd e cls f)) (role_table md c)).
  { destruct c; cbn [role_table]; repeat constructor; cbn [snd]; unfold s_set, s_clock, s_magic, s_uuid; over_auto. }
  unfold s_roles. induction Ht as [|e t He _ IH]; [apply keeps_ret|]. cbn [s_each_role]. apply keeps_bind; [|by intros []].
  unfold s_role. destruct (has_role _ _); [exact He|apply keeps_ret].
Qed.
#[local] Hint Resolve roles_over : st_logic.

Lemma locate_over lf V loc parent : keeps over (s_locate lf V loc parent).
Proof. unfold s_locate. over_auto. Qed.
#[local] Hint Resolve locate_over : st_logic.
Lemma length_over lf V loc parent : keeps over (s_length lf V loc parent).
Proof. unfold s_length. over_auto. Qed.
Lemma enabled_over rngs sel : keeps over (s_enabled rngs sel).
Proof. unfold s_enabled. over_auto. Qed.
#[local] Hint Resolve length_over enabled_over : st_logic.

Section Fields.
Context (md : actf_metadata) (lf : nat).
Definition fld_over c (cls : actf_fld_cls) : Prop := forall V val parent, keeps over (spec_fld md lf c cls V val parent).

Lemma members_over c val seen ms : Forall (fun m => fld_over c (snd m)) ms -> forall l, keeps over (s_members md c (spec_fld md lf c) seen val ms l).
Proof.
  induction 1 as [|[nm mc] ms Hc _ IH]; intros l; [apply keeps_ret|]. cbn [s_members].
  apply keeps_bind; [apply Hc|]. intros f. apply keeps_bind; [apply roles_over|]. intros []. apply IH.
Qed.
Lemma elems_over c val seen parent ele n : fld_over c ele -> forall l, keeps over (s_elems (fun V a => spec_fld md lf c ele V a parent) seen val n l).
Proof.
  intros He. induction n as [|n IH]; intros l; [apply keeps_ret|]. cbn [s_elems]. apply keeps_bind; [apply He|]. intros g. apply IH.
Qed.
Lemma choose_over sel v opts k : Forall (fun o => keeps over (sel (snd (fst o)))) opts -> keeps over k -> keeps over (s_choose sel v opts k).
Proof.
  intros Ho. revert k. induction Ho as [|[[nm oc] rs] opts Hc _ IH]; intros k Hk; [done|]. cbn [s_choose]. apply IH. by destruct (bool_decide _).
Qed.

Lemma spec_fld_over c cls : fld_over c cls.
Proof.
  induction cls as [cls IH] using fld_cls_ind_subs.
  destruct cls as [| | | | | | | | | | |enc loc| |loc mt|ms m al|ele m n|ele m loc|oc loc rngs|opts loc]; intros V val parent; cbn [spec_fld];
    try solve [over_auto].
  - apply keeps_bind; [auto with st_logic|]. intros []. destruct (_ <? _); [apply keeps_undef|].
    apply keeps_bind; [apply members_over; exact (proj1 (Forall_fmap _ _ _) IH)|]. intros vals. apply keeps_ret.
  - destruct (actf_fld_cls_get_align_req _); [|apply keeps_undef]. apply keeps_bind; [auto with st_logic|]. intros []. destruct (_ <? _); [apply keeps_undef|].
    apply keeps_bind; [apply elems_over; by inversion IH|]. intros vals. apply keeps_ret.
  - destruct (actf_fld_cls_get_align_req _); [|apply keeps_undef]. apply keeps_bind; [auto with st_logic|]. intros k.
    apply keeps_bind; [auto with st_logic|]. intros []. destruct (_ <? _); [apply keeps_undef|].
    apply keeps_bind; [apply elems_over; by inversion IH|]. intros vals. apply keeps_ret.
  - assert (Hc : fld_over c oc) by (by inversion IH). unfold fld_over in Hc. repeat (apply Hc || over_step).
  - apply keeps_bind; [auto with st_logic|]. intros sel. destruct (int_value sel); [|apply keeps_fail]. apply choose_over; [|apply keeps_fail].
    eapply Forall_impl; [exact (proj1 (Forall_fmap _ _ _) IH)|]. intros o Ho. cbn in Ho. unfold fld_over in Ho. repeat (apply Ho || over_step).
Qed.

Lemma prop_over c cls r V : keeps over (s_prop md lf c cls r V).
Proof. unfold s_prop. destruct cls; try apply keeps_ret; (apply keeps_bind; [apply spec_fld_over|intros f; apply keeps_ret]). Qed.
Lemma set_ev_over e : keeps over (s_set_ev e).
Proof. by apply keeps_modify. Qed.
#[local] Hint Resolve prop_over set_ev_over : st_logic.

Lemma spec_event_over V : keeps over (spec_event md lf V).
Proof. unfold spec_event, s_ev_cls. over_auto. Qed.
Lemma spec_pkt_over : keeps over (spec_pkt md lf).
Proof. unfold spec_pkt, s_dsc. over_auto. Qed.
End Fields.

Lemma spec_skip_over : keeps over spec_skip.
Proof. unfold spec_skip. over_auto. apply on_acur_over, keeps_modify. by intros ac. Qed.
Lemma spec_jump_over : keeps over spec_jump.
Proof. unfold spec_jump. over_auto. apply on_acur_over, keeps_modify. by intros ac. Qed.
End Frame.

(** * What a seek leaves *)

Lemma from_time_since t es : forallb timed es = true -> from_time t es = Some (since ev_time t es).
Proof.
  induction es as [|e es IH]; [done|]. cbn [forallb from_time since]. intros [He Hes]%andb_true_iff. apply bool_decide_eq_true_1 in He as [ts Hts].
  unfold ev_time at 1. rewrite Hts. cbn. destruct (_ <=? _); [done|by apply IH].
Qed.

Definition item_time (i : actf_event * actf_pkt) : Z := ev_time (fst i).

Section Rest.
Context (md : actf_metadata) (lf : nat) (Hmd : metadata_wf md).
Notation spec_events := (spec_events md lf).
Notation spec_packets := (spec_packets md lf).
Notation spec_from := (spec_from md lf).
Notation truthful_at := (truthful md lf).

Lemma spec_events_over fuel V data : forall s es r s', spec_events fuel V s = (es, r, s') -> over data s -> over data s'.
Proof.
  induction fuel as [|fuel IH]; intros s es r s'; cbn [StreamSpec.spec_events]; [by intros [= _ _ <-]|].
  destruct (more_events s); [|by intros [= _ _ <-]]. intros H Hs. pose proof (spec_event_over data md lf V s Hs) as H1.
  destruct (spec_event md lf V s) as [[e|rc|] s1]; [|by injection H as _ _ <-..].
  destruct (spec_events fuel V s1) as [[es1 r1] s2] eqn:E. injection H as _ _ <-. by apply (IH s1 es1 r1).
Qed.

(** The packets of a truthful stream, one by one. *)
Inductive told (fuel : nat) (s : sst) (items : list (actf_event * actf_pkt)) : Prop :=
| told_end : (ac_pos (ss_cur s) <? ac_bits (ss_cur s)) = false -> items = [] -> told fuel s items
| told_pkt V s1 es s2 s3 rest :
    (ac_pos (ss_cur s) <? ac_bits (ss_cur s)) = true -> spec_pkt md lf s = (Ok V, s1) -> spec_events fuel V s1 = (es, Ok tt, s2) ->
    spec_skip s2 = (Ok tt, s3) -> honest es s1 s3 = true -> truthful_at fuel s3 = true -> spec_packets fuel s3 = (rest, Ok tt) ->
    items = map (fun e => (e, pkt_of V s1)) es ++ rest -> told fuel s items.

Lemma truthful_told fuel : forall s, truthful_at fuel s = true -> exists items, spec_packets fuel s = (items, Ok tt) /\ told (pred fuel) s items.
Proof.
  induction fuel as [|fuel IH]; intros s; [done|]. cbn [truthful StreamSpec.spec_packets pred]. destruct (_ <? _) eqn:Eb; [|exists []; split; [done|by apply told_end]].
  destruct (spec_pkt md lf s) as [[V|rc|] s1] eqn:Ep; [|done..]. destruct (spec_events fuel V s1) as [[es [[]|rc|]] s2] eqn:Ee; [|done..].
  destruct (spec_skip s2) as [[[]|rc|] s3] eqn:Es; [|done..]. rewrite !andb_true_iff. intros [[Hh Hne] Ht].
  destruct (IH s3 Ht) as (rest & Hr & _). assert (Htold : told fuel s (map (fun e => (e, pkt_of V s1)) es ++ rest)) by (by eapply told_pkt).
  eexists. split; [|exact Htold]. unfold spec_rest. rewrite Es, Hr. destruct es as [|e es]; [|done]. cbn [bool_decide negb orb] in Hne.
  apply Z.leb_le, Z.ltb_ge in Hne. destruct fuel; [done|]. cbn [StreamSpec.spec_packets] in Hr. rewrite Hne in Hr. by injection Hr as <-.
Qed.

(** The length of an honest packet leads to where its events end. *)
Lemma jump_to_end fuel V s1 es s2 s3 e :
  spec_events fuel V s1 = (es, Ok tt, s2) -> spec_skip s2 = (Ok tt, s3) -> honest es s1 s3 = true -> end_time (ac_pkt (ss_cur s1)) = Some (Some e) ->
  Forall (fun ev => ev_time ev <= e) es /\ exists s2', spec_jump s1 = (Ok tt, s2') /\ same_start s2' s3.
Proof.
  intros Hev Hsk Hh He. unfold honest in Hh. rewrite He, !andb_true_iff in Hh. destruct Hh as (_ & Hle & Hj). split.
  { apply Forall_forall. intros ev Hin%list_elem_of_In. rewrite forallb_forall in Hle. by apply Z.leb_le, Hle. }
  set (data := ac_mem (ss_cur s1)). pose proof (spec_jump_over data s1 eq_refl) as Hm1.
  pose proof (spec_skip_over data s2 (spec_events_over fuel V data s1 es _ s2 Hev eq_refl)) as Hm3. rewrite Hsk in Hm3. cbn in Hm3.
  destruct (spec_jump s1) as [[[]|rc|] s2'] eqn:Ej; [|done..]. exists s2'. split; [done|]. cbn in Hm1. unfold over in *.
  split_and!; [congruence|by apply Z.eqb_eq|]. right.
  unfold spec_jump, mbind, st_bind, st_get in Ej. cbv zeta in Ej. destruct (_ <? _); [done|]. injection Ej as <-. cbn. unfold ac_bits.
  rewrite Z.mul_min_distr_nonneg_l by lia. rewrite Z.mul_comm. apply Z.mod_mul. lia.
Qed.

Lemma spec_from_since t fuel : forall s, truthful_at fuel s = true ->
  exists items, spec_packets fuel s = (items, Ok tt) /\
    exists items', spec_from fuel t s = Ok (items', Ok tt) /\ Forall2 like_item items' (since item_time t items).
Proof.
  induction fuel as [|fuel IH]; intros s Ht; [done|]. destruct (truthful_told _ _ Ht) as (items & Hp & Htold). exists items. split; [done|]. clear Ht Hp.
  change (told fuel s items) in Htold.
  cbn [StreamSpec.spec_from]. destruct Htold as [-> ->|V s1 es s2 s3 rest -> -> Hev Hsk Hh Ht Hr ->]; [by exists []|].
  destruct (IH s3 Ht) as (rest0 & Hr0 & items' & Hf & Hl). rewrite Hr in Hr0. injection Hr0 as <-.
  assert (Htimed : forallb timed es = true) by (by apply andb_true_iff in Hh as [? _]).
  rewrite since_app, since_map, ends_before_time, Hev, Hsk, (from_time_since t es Htimed). change (fun x => item_time (x, pkt_of V s1)) with ev_time.
  assert (Hread : exists items',
      match since ev_time t es with
      | [] => spec_from fuel t s3
      | _ :: _ => Ok (spec_rest (spec_packets fuel) (pkt_of V s1) (since ev_time t es) (Ok tt) s2)
      end = Ok (items', Ok tt) /\
      Forall2 like_item items' (match map (fun e => (e, pkt_of V s1)) (since ev_time t es) with [] => since item_time t rest | k => k ++ rest end)).
  { destruct (since ev_time t es) as [|x l]; [by exists items'|]. unfold spec_rest. rewrite Hsk, Hr. by eexists. }
  destruct (end_time (ac_pkt (ss_cur s1))) as [[e|]|] eqn:Ee; [|by unfold honest in Hh; rewrite Ee, andb_false_r in Hh|exact Hread].
  cbn [mbind option_bind]. destruct (Z.ltb_spec e t) as [Hlt|]; [|exact Hread]. clear Hread.
  destruct (jump_to_end fuel V s1 es s2 s3 e Hev Hsk Hh Ee) as (Hle & s2' & -> & Hsame).
  assert (Hnone : since ev_time t es = []).
  { rewrite <- (app_nil_r es), since_before; [done|]. eapply Forall_impl; [exact Hle|]. intros ev. cbn. lia. }
  rewrite Hnone. cbn [map]. pose proof (same_from md lf Hmd t fuel s2' s3 Hsame) as Hs. rewrite Hf in Hs.
  destruct (spec_from fuel t s2') as [[items2 r2]|rc|]; [|done..]. destruct Hs as [Hs Hr2]. cbn in Hs, Hr2. subst r2.
  exists items2. split; [done|]. by etransitivity.
Qed.
End Rest.

(** * Decoders in use *)

Section Use.
Context (md : actf_metadata) (pm em : nat -> Z -> bool) (lf sf fuel : nat) (data : list Z) (n : nat).
Context (Hpm : forall n sz, pm n sz = true) (Hem : forall n sz, em n sz = true).
Context (Hdata : Forall is_byte data) (Hsize : 8 * Z.of_nat (length data) <= 2 ^ 62) (Hmd : metadata_wf md).
Context (Hn : 16 * SIZEOF_FLD * Z.of_nat n <= 2 ^ 62) (Hfuel : (fuel <= sf)%nat).
Context (Htrue : truthful md lf fuel (stream_start data) = true).
Notation gen := (stream_generator pm em lf sf).

Definition new_stream : stream := mk_stream md data (actf_decoder_init data n).

(** The streams that reads which return events and seeks lead to. *)
Inductive used : stream -> Prop :=
| used_new : used new_stream
| used_read s e es s' : used s -> @generate _ _ gen s = (Ok (e :: es), s') -> used s'
| used_seek s t s' : used s -> @seek_ns_from_origin _ _ gen t s = (Ok tt, s') -> used s'.

Notation leaves := (leaves md pm em lf data (eff_cap n)).
Notation inv := (dec_inv data (eff_cap n)).

(** A decoder that can be sought. *)
Definition sound (s : stream) : Prop := s_md s = md /\ s_data s = data /\ base_ok (s_dec s) /\ inv (s_dec s).

Lemma generate_sound s items es s' :
  sound s -> leaves (s_dec s) items (Ok tt) -> @generate _ _ gen s = (Ok es, s') ->
  sound s' /\ (es <> [] -> exists items', leaves (s_dec s') items' (Ok tt)).
Proof.
  intros (Hm & Hd & Hok & Hi) [Hg _]. destruct s as [smd sdata d]. cbn in Hm, Hd, Hok, Hi, Hg. subst smd sdata.
  pose proof (dec_decode_inv md pm em lf data (eff_cap n) Hdata Hsize Hmd d Hi) as Hi'. unfold gives in Hg.
  cbn. unfold stream_generate, set_dec. cbn [s_md s_dec s_data]. destruct (actf_decoder_decode md pm em lf d) as [[es'|rc|] d']; [|done..].
  intros [= <- <-]. destruct Hg as (items1 & items2 & [_ Hev _] & Hg), Hi' as [Hi' _]. destruct items1 as [|i items1].
  - destruct Hg as (_ & _ & Hok'). split; [by split_and!|]. cbn in Hev. by subst es'.
  - pose proof (pending_ok _ _ _ _ _ _ Hg) as Hok'. split; [by split_and!|]. intros _. exists items2. split; [|done].
    by apply decode_call; [..|apply eff_cap_pos| |].
Qed.

Lemma seek_sound t s : sound s ->
  exists items ers s1 s2, spec_stream md lf fuel data = (items, Ok tt) /\
    @seek_ns_from_origin _ _ gen t s = (Ok tt, s1) /\ sound s1 /\ (exists items', leaves (s_dec s1) items' (Ok tt)) /\
    @ends _ _ gen s1 ers (Ok tt) s2 /\ Forall2 same_ref ers (map (ref_of data) (since item_time t items)).
Proof.
  intros (Hm & Hd & Hok & Hi). destruct s as [smd sdata d]. cbn in Hm, Hd, Hok, Hi. subst smd sdata.
  destruct (spec_from_since md lf Hmd t fuel _ Htrue) as (items & Hs & items' & Hf & Hl).
  pose proof (sought_ends md pm em lf data (eff_cap n) Hpm Hem Hdata Hsize Hmd (eff_cap_pos n) sf fuel t d Hok Hi Hfuel) as H.
  unfold spec_seek in H. rewrite Hf in H. destruct (H ltac:(done)) as (d' & ers & s2 & Hrun & He & Hr & items2 & Hlv).
  exists items, ers, (mk_stream md data d'), s2. cbn. unfold stream_seek, set_dec. cbn. rewrite Hrun. split_and!; try done.
  - split_and!; [done..|by apply Hlv|].
    pose proof (calls_inv md pm em lf data (eff_cap n) [CallSeek sf t] d Hdata Hsize Hmd Hi) as Hi'. cbn in Hi'. by rewrite Hrun in Hi'.
  - by exists items2.
  - etransitivity; [exact Hr|by apply like_refs].
Qed.

Lemma used_sound s : used s -> sound s /\ exists items, leaves (s_dec s) items (Ok tt).
Proof.
  induction 1 as [|s e es s' _ [Hs (items & Hl)] Hg|s t s' _ [Hs _] Hg].
  - assert (Hok : base_ok (actf_decoder_init data n)) by (by apply decoder_init_ok). assert (Hi : inv (actf_decoder_init data n)) by (by apply dec_init_inv).
    split; [by split_and!|]. destruct (truthful_told md lf fuel _ Htrue) as (items & Hs & _). exists items. split; [|done].
    apply (decode_call md pm em lf data (eff_cap n) Hpm Hem Hdata Hsize Hmd (eff_cap_pos n)); [|done]. by apply (pend_packet md lf data (eff_cap n) fuel).
  - destruct (generate_sound s items _ s' Hs Hl Hg) as [Hs' Hl']. split; [done|by apply Hl'].
  - destruct (seek_sound t s Hs) as (items & ers & s1 & s2 & _ & Hg' & Hs' & Hl' & _). rewrite Hg in Hg'. by injection Hg' as <-.
Qed.
End Use.

(** C5: A seek loses no event and repeats none.  Take a data stream that decodes to its end
    and is truthful: where the context of a packet gives the time at its end, no event in
    the packet is later, and its length leads to where its events end.  After any reads
    that returned events and any seeks, and also when the end was read after them, with any
    capacity of the array: a seek to [t] succeeds, and the decoder then yields exactly the
    events of the stream from the first one at or after [t] on, with their packets, and
    then the end.  The packets that the seek jumps over are never read. *)
Theorem seek_loses_nothing md pm em lf sf fuel data n s0 s t :
  (forall n sz, pm n sz = true) -> (forall n sz, em n sz = true) ->
  Forall is_byte data -> 8 * Z.of_nat (length data) <= 2 ^ 62 -> 16 * SIZEOF_FLD * Z.of_nat n <= 2 ^ 62 -> metadata_wf md -> (fuel <= sf)%nat ->
  truthful md lf fuel (stream_start data) = true ->
  used md pm em lf sf data n s0 -> s = s0 \/ @generate _ _ (stream_generator pm em lf sf) s0 = (Ok [], s) ->
  exists ers s1 ers' s2 s3,
    @ends _ _ (stream_generator pm em lf sf) (new_stream md data n) ers (Ok tt) s1 /\
    @seek_ns_from_origin _ _ (stream_generator pm em lf sf) t s = (Ok tt, s2) /\
    @ends _ _ (stream_generator pm em lf sf) s2 ers' (Ok tt) s3 /\
    Forall2 same_ref ers' (since er_tstamp t ers).
Proof.
  intros Hpm Hem Hdata Hsize Hn Hmd Hf Ht Hused Hs.
  destruct (used_sound md pm em lf sf fuel data n Hpm Hem Hdata Hsize Hmd Hn Hf Ht s0 Hused) as [Hs0 (items0 & Hl)].
  assert (Hsound : sound md data n s).
  { destruct Hs as [->|Hg]; [done|]. by apply (generate_sound md pm em lf sf data n Hpm Hem Hdata Hsize Hmd s0 items0 [] s Hs0 Hl). }
  destruct (seek_sound md pm em lf sf fuel data n Hpm Hem Hdata Hsize Hmd Hf Ht t s Hsound) as (items & ers' & s2 & s3 & Hspec & Hseek & _ & _ & He' & Hr').
  destruct (stream_ends pm em lf sf md fuel data n items (Ok tt) Hpm Hem Hdata Hsize Hn Hmd Hspec) as (ers & s1 & He & Hr); [done|].
  exists ers, s1, ers', s2, s3. split_and!; [done..|]. etransitivity; [exact Hr'|].
  change item_time with (fun i => er_tstamp (ref_of data i)). rewrite <- (since_map (ref_of data) er_tstamp). apply (since_related same_ref); [|by symmetry].
  intros x y (Hxy & _). unfold er_tstamp. by rewrite Hxy.
Qed.

Lemma gave_events {S E} (r : outcome (list E) * S) : match fst r with Ok (_ :: _) => True | _ => False end -> exists e es, r = (Ok (e :: es), snd r).
Proof. destruct r as [[[|e es]|rc|] s]; try done. by exists e, es. Qed.
Lemma gave_unit {S} (r : outcome unit * S) : match fst r with Ok _ => True | _ => False end -> r = (Ok tt, snd r).
Proof. by destruct r as [[[]|rc|] s]. Qed.

(** The packets of [end_pkts] tell the truth.  After the first array was read and a seek
    to 31, a seek to 7 leaves out the first packet and the event before 9. *)
Example seek_loses_nothing_witness :
  let gen := stream_generator malloc_yes malloc_yes 4 20 in
  let start := new_stream md_end end_pkts 1 in
  let s := snd (@seek_ns_from_origin _ _ gen 31 (snd (@generate _ _ gen start))) in
  truthful md_end 4 20 (stream_start end_pkts) = true /\ used md_end malloc_yes malloc_yes 4 20 end_pkts 1 s /\
  exists ers s1 ers' s2 s3,
    @ends _ _ gen start ers (Ok tt) s1 /\ @seek_ns_from_origin _ _ gen 7 s = (Ok tt, s2) /\
    @ends _ _ gen s2 ers' (Ok tt) s3 /\ Forall2 same_ref ers' (since er_tstamp 7 ers).
Proof.
  intros gen start s.
  assert (Hused : used md_end malloc_yes malloc_yes 4 20 end_pkts 1 s).
  { destruct (gave_events (@generate _ _ gen start)) as (e & es & Hg); [by vm_compute|].
    pose proof (gave_unit (@seek_ns_from_origin _ _ gen 31 (snd (@generate _ _ gen start))) ltac:(vm_compute; exact I)) as Hs.
    exact (used_seek _ _ _ _ _ _ _ _ 31 s (used_read _ _ _ _ _ _ _ _ e es _ (used_new _ _ _ _ _ _ _) Hg) Hs). }
  split; [vm_compute; reflexivity|]. split; [exact Hused|].
  exact (seek_loses_nothing md_end malloc_yes malloc_yes 4 20 20 end_pkts 1 s s 7 (fun _ _ => eq_refl) (fun _ _ => eq_refl)
    (bytes_ok end_pkts ltac:(vm_compute; reflexivity)) ltac:(vm_compute; discriminate) ltac:(vm_compute; discriminate) md_end_wf ltac:(lia)
    ltac:(vm_compute; reflexivity) Hused (or_introl eq_refl)).
Defined.
