(* ===== verification/Actf.v ===== *)
(** The command line program, [actf.c]: options, the generators that [main] puts
    together, and the loop that prints the events and counts them.

    [getopt] is a parameter: the options it gives, with their arguments, and the
    arguments that are left.  Standard output and standard error are the texts
    written to them. *)
From S2P Require Import Prelude Common Libc Regex Error Rng HashMap Clock FldCls Metadata Json JsonUtils CtfJson FldClsParse MetadataParse MetadataText.
From S2P Require Import Mappings Generator PrioQueue Muxer Filter Fld Decoder Print Tstamp Freader.
From stdpp Require Import strings list.
#[local] Existing Instance Tstamp.outcome_bind.
Open Scope Z_scope.

(** * Options *)

Definition print_usage : text := lit "Usage: actf [option(s)] [CTF_PATH(s)]
 The options are:
  -p <opts>   Select what to print. The opts argument is a comma-separated list
              with the event property to print. Supported properties are:
              packet-header, packet-context, event-header, event-common-context,
              event-specific-context, event-payload and all.
              For example: -p event-header,event-payload
  -l          Print labels for each event property
  -d          Print timestamp delta between events
  -c          Print timestamps in cycles (default [hh:mm:ss.ns] in localtime)
  -g          Print and parse (-b/-e) timestamps in UTC instead of localtime.
  -t          Print timestamps with the full date.
  -s          Print timestamps in seconds.nanoseconds.
  -b <tstamp> Trim events occurring before tstamp. The unit of tstamp is
              ns and can be given in the following formats:
                yyyy-mm-dd hh:ii[:ss[.nano]]
                hh:ii[:ss[.nano]]
                [-]sec[.nano]
              For the hh:ii[:ss[.nano]] format, the date will be taken from the first event.
              For the [-]sec[.nano] format, sec is the number of seconds from origin.
              The date is considered localtime. If you want UTC, set environment to TZ=UTC.
  -e <tstamp> Trim events occurring after tstamp. See available formats under -b.
  -q          Quiet, do not print events
  -h          Print help
".

Record flags := mk_flags {
  quiet : bool;
  ctf_paths : list string;
  printer_flags : Z;
  filter_range : actf_filter_time_range;
  has_filter_range : bool
}.

(** The program goes on, or exits with a code and a text on standard error. *)
Inductive run A := Go (a : A) | Exit (code : Z) (err : text).
Arguments Go {A}. Arguments Exit {A}.

Definition run_bind {A B} (c : run A) (k : A -> run B) : run B := match c with Go a => k a | Exit rc e => Exit rc e end.

(** The tokens of [-p] and the flag that each sets. *)
Definition token : list (text * Z) :=
  [(lit "packet-header", ACTF_PRINT_PKT_HEADER); (lit "packet-context", ACTF_PRINT_PKT_CTX); (lit "event-header", ACTF_PRINT_EVENT_HEADER);
   (lit "event-common-context", ACTF_PRINT_EVENT_COMMON_CTX); (lit "event-specific-context", ACTF_PRINT_EVENT_SPECIFIC_CTX);
   (lit "event-payload", ACTF_PRINT_EVENT_PAYLOAD); (lit "all", ACTF_PRINT_ALL)].

(** [getsubopt] of POSIX, on text that is not empty: a suboption ends at a comma, its
    name at an equal sign.  [inl] is the token found, [inr] the value of a suboption
    that is no token; with the text that is left. *)
Fixpoint upto (c : ascii) (s : text) : text * text :=
  match s with
  | [] => ([], [])
  | x :: s' => if Ascii.eqb x c then ([], s') else let '(a, b) := upto c s' in (x :: a, b)
  end.

Definition getsubopt {V} (tokens : list (text * V)) (s : text) : (V + text) * text :=
  let '(opt, rest) := upto "," s in
  match List.find (fun t => bool_decide (fst t = fst (upto "=" opt))) tokens with
  | Some t => (inl (snd t), rest)
  | None => (inr opt, rest)
  end.

Definition quoted (s : text) : text := [ascii_of_Z 34] ++ s ++ [ascii_of_Z 34].

(** The loop over the suboptions, at most [fuel] of them. *)
Fixpoint subopts_loop (fuel : nat) (subopts : text) (printer_flags : Z) : run Z :=
  match fuel with
  | O => Go printer_flags
  | S fuel =>
      match subopts with
      | [] => Go printer_flags
      | _ =>
          match getsubopt token subopts with
          | (inl flag, rest) => subopts_loop fuel rest (Z.lor printer_flags flag)
          | (inr value, _) => Exit (-1) (lit "No match for print option: " ++ quoted value ++ [ascii_of_Z 10] ++ print_usage)
          end
      end
  end.

(** The variables of the option loop. *)
Record args := mk_args { a_flags : Z; a_begin : option text; a_end : option text; a_quiet : bool }.
Definition or_flag (flag : Z) (a : args) : args := mk_args (Z.lor (a_flags a) flag) (a_begin a) (a_end a) (a_quiet a).

(** An option and its argument, which is empty for the options that have none. *)
Definition opt_step (opt : ascii) (optarg : text) (a : args) : run args :=
  if Ascii.eqb opt "p" then
    run_bind (subopts_loop (length optarg) optarg (a_flags a)) (fun pf => Go (mk_args pf (a_begin a) (a_end a) (a_quiet a)))
  else if Ascii.eqb opt "l" then Go (or_flag ACTF_PRINT_PROP_LABELS a)
  else if Ascii.eqb opt "d" then Go (or_flag ACTF_PRINT_TSTAMP_DELTA a)
  else if Ascii.eqb opt "c" then Go (or_flag ACTF_PRINT_TSTAMP_CC a)
  else if Ascii.eqb opt "g" then Go (or_flag ACTF_PRINT_TSTAMP_UTC a)
  else if Ascii.eqb opt "t" then Go (or_flag ACTF_PRINT_TSTAMP_DATE a)
  else if Ascii.eqb opt "s" then Go (or_flag ACTF_PRINT_TSTAMP_SEC a)
  else if Ascii.eqb opt "b" then Go (mk_args (a_flags a) (Some optarg) (a_end a) (a_quiet a))
  else if Ascii.eqb opt "e" then Go (mk_args (a_flags a) (a_begin a) (Some optarg) (a_quiet a))
  else if Ascii.eqb opt "q" then Go (mk_args (a_flags a) (a_begin a) (a_end a) true)
  else if Ascii.eqb opt "h" then Exit 0 print_usage
  else Exit (-1) print_usage.

Fixpoint opt_loop (opts : list (ascii * text)) (a : args) : run args :=
  match opts with
  | [] => Go a
  | (opt, optarg) :: opts => run_bind (opt_step opt optarg a) (opt_loop opts)
  end.

Definition errfmt (s : text) : text :=
  lit "invalid timestamp (" ++ s ++ lit "), the formats yyyy-mm-dd hh:ii[:ss[.nano]], hh:ii[:ss[.nano]] and [-]sec[.nano] are supported" ++ [ascii_of_Z 10].

Section Main.
Context {json tok : Type} `{JsonC json, Heap, Tokener json tok, QSort} {CD : Type} `{Iconv CD}.
(** The time zone, the messages of failures, and the file system. *)
Context (localtime : Z -> tm) (mktime : tm -> option Z).
Context (metadata_error : actf_metadata -> option text) (opendir : string -> option os_dir) (open_message : text) (strerror : text).
Context (junk_nodes : nat -> list node) (junk_evs : nat -> list (list event_ref)).

(** A bound of the filter, if it is given; [dflt] if not. *)
Definition parse_bound (s : option text) (parse_as_utc : bool) (dflt : Z * bool) : outcome (run (Z * bool)) :=
  match s with
  | None => Ok (Go dflt)
  | Some s =>
      match parse_tstamp_ns mktime s parse_as_utc with
      | Ok v => Ok (Go v)
      | Err _ => Ok (Exit (-1) (errfmt s))
      | Undef => Undef
      end
  end.

Definition parse_flags (opts : list (ascii * text)) (paths : list string) : outcome (run flags) :=
  match opt_loop opts (mk_args 0 None None false) with
  | Exit rc e => Ok (Exit rc e)
  | Go a =>
      if (length paths <? 1)%nat then
        Ok (Exit (-1) (lit "Expected one or more positional arguments with CTF directories" ++ [ascii_of_Z 10] ++ print_usage))
      else
        let pf := if Z.land (a_flags a) ACTF_PRINT_ALL =? 0 then Z.lor (a_flags a) ACTF_PRINT_ALL else a_flags a in
        let r := ACTF_FILTER_TIME_RANGE_ALL in
        let has_range := bool_decide (is_Some (a_begin a)) || bool_decide (is_Some (a_end a)) in
        let parse_as_utc := set_in pf ACTF_PRINT_TSTAMP_UTC in
        b ← parse_bound (a_begin a) parse_as_utc (r_begin r, begin_has_date r);
        match b with
        | Exit rc e => Ok (Exit rc e)
        | Go b =>
            e ← parse_bound (a_end a) parse_as_utc (r_end r, end_has_date r);
            match e with
            | Exit rc e => Ok (Exit rc e)
            | Go e => Ok (Go (mk_flags (a_quiet a) paths pf (mk_range (fst b) (snd b) (fst e) (snd e)) has_range))
            end
        end
  end.

(** * Reading *)

Section ReadEvents.
Context {G : Type} `{Generator G event_ref} (last_error : G -> option text) (depth : nat).

(** The generator, the printer with standard output, standard error, and the local
    variables. *)
Record rstate := mk_rstate {
  r_gen : G; r_prn : pst CD; r_err : text;
  count : Z; last_disc_evs : Z; last_seq_num : Z
}.

Definition write_err (s : text) : st rstate unit :=
  st_modify (fun r => mk_rstate (r_gen r) (r_prn r) (r_err r ++ s) (count r) (last_disc_evs r) (last_seq_num r)).
Definition on_printer {A} (c : st (pst CD) A) : st rstate A :=
  st_zoom r_prn (fun p r => mk_rstate (r_gen r) p (r_err r) (count r) (last_disc_evs r) (last_seq_num r)) c.
Definition on_generator {A} (c : st G A) : st rstate A :=
  st_zoom r_gen (fun g r => mk_rstate g (r_prn r) (r_err r) (count r) (last_disc_evs r) (last_seq_num r)) c.

Definition lost_message (seq_num lost : Z) : text :=
  lit "packet " ++ fmt_u seq_num ++ lit " has " ++ fmt_u lost ++ lit " lost events" ++ [ascii_of_Z 10].

(** The counter of lost events, at the first event of what looks like a new packet. *)
Definition check_lost (quiet : bool) (seq_num disc_evs : Z) : st rstate unit :=
  r ← st_get;
  if (count r =? 0) || negb (seq_num =? last_seq_num r) then
    (if negb quiet && (last_disc_evs r <? disc_evs) then write_err (lost_message seq_num (disc_evs - last_disc_evs r)) else mret tt);;
    st_modify (fun r => mk_rstate (r_gen r) (r_prn r) (r_err r) (count r) disc_evs (last_seq_num r))
  else mret tt.

Definition read_event (quiet : bool) (er : event_ref) : st rstate unit :=
  (if negb quiet then _ ← on_printer (actf_fprint_event localtime depth er); on_printer (put [ascii_of_Z 10]) else mret tt);;
  let seq_num := actf_pkt_seq_num (er_pkt er) in
  check_lost quiet seq_num (actf_pkt_disc_event_record_snapshot (er_pkt er));;
  st_modify (fun r => mk_rstate (r_gen r) (r_prn r) (r_err r) (u64 (count r + 1)) (last_disc_evs r) seq_num).

Fixpoint each_event (quiet : bool) (evs : list event_ref) : st rstate unit :=
  match evs with [] => mret tt | er :: evs => read_event quiet er;; each_event quiet evs end.

(** The loop, for at most [fuel] calls of the generator: it is over with the return
    code of the last one. *)
Fixpoint read_loop (fuel : nat) (quiet : bool) : st rstate Z :=
  match fuel with
  | O => st_undef
  | S fuel => fun r =>
      match on_generator generate r with
      | (Ok [], r') => (Ok ACTF_OK, r')
      | (Ok evs, r') => (each_event quiet evs;; read_loop fuel quiet) r'
      | (Err rc, r') => (Ok rc, r')
      | (Undef, r') => (Undef, r')
      end
  end.

Definition read_events (fuel : nat) (oom : bool) (g : G) (quiet : bool) (printer_flags : Z) : outcome (Z * text * text) :=
  match actf_printer_init oom printer_flags with
  | None => Ok (ACTF_ERROR, [], [])
  | Some p =>
      fst ((rc ← read_loop fuel quiet;
        (if rc <? 0 then
           r ← st_get;
           match last_error (r_gen r) with
           | Some m => write_err (lit "read error: " ++ m ++ [ascii_of_Z 10])
           | None => st_undef
           end
         else mret tt);;
        r ← st_get;
        write_err (fmt_u (count r) ++ lit " events decoded" ++ [ascii_of_Z 10]);;
        (if negb (last_disc_evs r =? 0) then write_err (fmt_u (last_disc_evs r) ++ lit " events discarded" ++ [ascii_of_Z 10]) else mret tt);;
        r ← st_get;
        mret (rc, out (r_prn r), r_err r))
       (mk_rstate g (mk_pst p []) [] 0 0 0))
  end.
End ReadEvents.

(** * The program *)

Context `{Generator stream event_ref}.
(** The messages of the generators; which allocations of the reader, the filter and
    the printer fail. *)
Context (gen_error : active_gen -> option text) (flt_error : actf_filter actf_freader -> option text).
Context (oom_rd oom_flt oom_prn : bool).
Notation freader_gen := (actf_freader_to_generator gen_error).
Notation filter_gen := (@actf_filter_to_generator _ _ freader_gen er_tstamp).

(** What a run of the program leaves: the value of [main], and the two outputs. *)
Definition result := (Z * text * text)%type.

Definition actf_main (fuel depth : nat) (opts : list (ascii * text)) (paths : list string) (o : os) : outcome result * os :=
  match parse_flags opts paths with
  | Undef => (Undef, o)
  | Err rc => (Err rc, o)
  | Ok (Exit rc e) => (Ok (rc, [], e), o)
  | Ok (Go f) =>
      match actf_freader_init oom_rd (mk_cfg None 0 0) with
      | None => (Ok (ACTF_OOM, [], lit "actf_freader_init: " ++ strerror ++ [ascii_of_Z 10]), o)
      | Some rd =>
          match actf_freader_open_folders metadata_error opendir junk_nodes junk_evs rd (ctf_paths f) o with
          | (Undef, o) => (Undef, o)
          | (Err _, o) => (Ok (ACTF_ERROR, [], lit "actf_freader_open_folder: " ++ open_message ++ [ascii_of_Z 10]), (actf_freader_free rd o).2)
          | (Ok rd, o) =>
              (if has_filter_range f then
                 if oom_flt then Ok (ACTF_OOM, [], lit "actf_filter_init: " ++ strerror ++ [ascii_of_Z 10])
                 else @read_events _ filter_gen flt_error depth fuel oom_prn (actf_filter_init rd (filter_range f)) (quiet f) (printer_flags f)
               else @read_events _ freader_gen actf_freader_last_error depth fuel oom_prn rd (quiet f) (printer_flags f),
               (actf_freader_free rd o).2)
          end
      end
  end.
End Main.
