(* ===== verification/ActfOpt.v ===== *)
(** The options of the command line program: what [-p] selects is what is printed. *)
From S2P Require Import Prelude Common Libc Fld Filter Print Actf.
From stdpp Require Import strings list.
Open Scope Z_scope.

(** * Options of a command line *)

(** [-p] with names, joined by commas, and the options that only set something. *)
Inductive cmd_opt := OPrint (names : list string) | OSwitch (c : ascii).

Definition switches : list ascii := ["l"; "d"; "c"; "g"; "t"; "s"; "q"]%char.
Definition prop_names : list string :=
  ["packet-header"; "packet-context"; "event-header"; "event-common-context"; "event-specific-context"; "event-payload"; "all"]%string.

(** The argument of [-p]: names that are joined by commas. *)
Fixpoint commas (names : list string) : text :=
  match names with [] => [] | [n] => lit n | n :: names => lit n ++ "," %char :: commas names end.

Definition getopt_of (o : cmd_opt) : ascii * text :=
  match o with OPrint names => ("p"%char, commas names) | OSwitch c => (c, []) end.

Definition opt_ok (o : cmd_opt) : Prop :=
  match o with OPrint names => Forall (fun n => n ∈ prop_names) names | OSwitch c => c ∈ switches end.

(** All the names that are given with [-p]. *)
Definition named (opts : list cmd_opt) : list string :=
  flat_map (fun o => match o with OPrint names => names | OSwitch _ => [] end) opts.

(** * Flags *)

Lemma set_in_lor a b f : set_in (Z.lor a b) f = set_in a f || set_in b f.
Proof.
  unfold set_in, c_true. rewrite Z.land_lor_distr_l. destruct (Z.eqb_spec (Z.land a f) 0) as [->|Ha].
  - by rewrite Z.lor_0_l.
  - cbn. destruct (Z.eqb_spec (Z.lor (Z.land a f) (Z.land b f)) 0) as [He|]; [|done]. by apply Z.lor_eq_0_iff in He as [? _].
Qed.

(** The flag of a name. *)
Definition name_flag (n : string) : Z :=
  match List.find (fun t => bool_decide (fst t = lit n)) token with Some t => snd t | None => 0 end.

(** Every name ends at its comma, is found, and has a flag. *)
Lemma getsubopt_name n rest : n ∈ prop_names ->
  getsubopt token (lit n ++ "," %char :: rest) = (inl (name_flag n), rest) /\ getsubopt token (lit n) = (inl (name_flag n), []) /\
  exists c s, lit n = c :: s.
Proof.
  unfold prop_names. intros H. repeat (apply elem_of_cons in H as [->|H]; [split; [reflexivity|split; [reflexivity|by eexists _, _]]|]).
  by apply not_elem_of_nil in H.
Qed.

Definition flags_of (names : list string) (pf : Z) : Z := fold_left (fun pf n => Z.lor pf (name_flag n)) names pf.

Lemma subopts_run names : Forall (fun n => n ∈ prop_names) names -> forall fuel pf, (length (commas names) <= fuel)%nat ->
  subopts_loop fuel (commas names) pf = Go (flags_of names pf).
Proof.
  induction 1 as [|n names Hn Hnames IH]; intros fuel pf Hf; [by destruct fuel|].
  destruct (getsubopt_name n (commas names) Hn) as (H1 & H2 & c & s & Hc).
  assert (Hcase : exists t, commas (n :: names) = c :: t /\ getsubopt token (c :: t) = (inl (name_flag n), commas names) /\
    (length (commas names) < length (commas (n :: names)))%nat).
  { destruct names as [|n' names]; cbn [commas].
    - exists s. rewrite <- Hc. split; [done|]. split; [exact H2|]. rewrite Hc. cbn. lia.
    - exists (s ++ "," %char :: commas (n' :: names)). rewrite app_comm_cons, <- Hc. split; [done|]. split; [exact H1|].
      rewrite length_app. cbn [length]. lia. }
  destruct Hcase as (t & Ht & Hg & Hl). destruct fuel as [|fuel]; [lia|]. rewrite Ht. cbn [subopts_loop]. rewrite Hg. apply IH. lia.
Qed.

(** What the options come to. *)
Lemma opts_run opts : Forall opt_ok opts -> forall a,
  exists pf q, opt_loop (map getopt_of opts) a = Go (mk_args pf (a_begin a) (a_end a) q) /\
    forall f, Z.land f ACTF_PRINT_ALL = f -> set_in pf f = set_in (flags_of (named opts) (a_flags a)) f.
Proof.
  assert (Hfo : forall names pf pf' f, set_in pf f = set_in pf' f -> set_in (flags_of names pf) f = set_in (flags_of names pf') f).
  { induction names as [|n names IH]; intros pf pf' f Hp; [done|]. cbn. apply IH. by rewrite !set_in_lor, Hp. }
  assert (Hsw : forall flag a f, Z.land ACTF_PRINT_ALL flag = 0 -> Z.land f ACTF_PRINT_ALL = f -> set_in (Z.lor a flag) f = set_in a f).
  { intros flag a f Hz Hf. rewrite set_in_lor. unfold set_in at 2, c_true. rewrite <- Hf, (Z.land_comm f), Z.land_assoc, (Z.land_comm flag), Hz.
    by rewrite Z.land_0_l, orb_false_r. }
  induction 1 as [|o opts Ho Hopts IH]; intros a; [destruct a; by eexists _, _|]. destruct o as [names|c]; cbn [map opt_loop getopt_of].
  - unfold opt_step. rewrite Ascii.eqb_refl, subopts_run by done. cbn [run_bind].
    destruct (IH (mk_args (flags_of names (a_flags a)) (a_begin a) (a_end a) (a_quiet a))) as (pf & q & R & Hpf).
    exists pf, q. split; [exact R|]. intros f Hf. rewrite Hpf by done. cbn [named flat_map a_flags]. unfold flags_of. by rewrite fold_left_app.
  - cbn in Ho. assert (Hstep : exists pf q, opt_step c [] a = Go (mk_args pf (a_begin a) (a_end a) q) /\
      forall f, Z.land f ACTF_PRINT_ALL = f -> set_in pf f = set_in (a_flags a) f).
    { unfold switches in Ho. repeat (apply elem_of_cons in Ho as [->|Ho]; [eexists _, _; split; [reflexivity|]; intros f Hf; done || by apply Hsw|]).
      by apply not_elem_of_nil in Ho. }
    destruct Hstep as (pf & q & R & Hpf). rewrite R. cbn [run_bind]. destruct (IH (mk_args pf (a_begin a) (a_end a) q)) as (pf' & q' & R' & Hpf').
    exists pf', q'. split; [exact R'|]. intros f Hf. rewrite Hpf' by done. cbn [a_flags]. by apply Hfo, Hpf.
Qed.

Lemma flags_of_existsb names : forall pf f, set_in (flags_of names pf) f = set_in pf f || existsb (fun n => set_in (name_flag n) f) names.
Proof.
  induction names as [|n names IH]; intros pf f; cbn; [by rewrite orb_false_r|]. unfold flags_of in IH. rewrite IH, set_in_lor. by rewrite orb_assoc.
Qed.

Lemma props_of_in {P} flags (tbl : list (Z * P)) x : x ∈ props_of flags tbl <-> exists f, (f, x) ∈ tbl /\ set_in flags f = true.
Proof.
  unfold props_of. rewrite list_elem_of_fmap. split.
  - intros ([f y] & -> & H). apply list_elem_of_In, filter_In in H as [H Hf]. exists f. split; [by apply list_elem_of_In|done].
  - intros (f & H & Hf). exists (f, x). split; [done|]. apply list_elem_of_In, filter_In. split; [by apply list_elem_of_In|done].
Qed.

(** * What is printed *)

(** A property is asked for: by its name, by [all], or by no [-p] at all. *)
Definition asked (opts : list cmd_opt) (name : string) : Prop :=
  name ∈ named opts \/ "all"%string ∈ named opts \/ named opts = [].

(** The flags of a table belong to its names. *)
Definition table_ok {P} (name : P -> string) (tbl : list (Z * P)) : Prop :=
  Forall (fun e => Z.land (fst e) ACTF_PRINT_ALL = fst e /\ set_in ACTF_PRINT_ALL (fst e) = true /\
    Forall (fun n => set_in (name_flag n) (fst e) = bool_decide (n = name (snd e) \/ n = "all"%string)) prop_names) tbl.

Lemma ev_table_ok : table_ok actf_event_prop_to_name ev_table.
Proof. repeat constructor. Qed.
Lemma pkt_table_ok : table_ok actf_pkt_prop_to_name pkt_table.
Proof. repeat constructor. Qed.

(** The flags that the program prints with, where no property named means all. *)
Lemma flags_asked opts pf f name :
  Forall (fun n => n ∈ prop_names) (named opts) ->
  (forall f, Z.land f ACTF_PRINT_ALL = f -> set_in pf f = set_in (flags_of (named opts) 0) f) ->
  Z.land f ACTF_PRINT_ALL = f -> set_in ACTF_PRINT_ALL f = true ->
  (forall n, n ∈ prop_names -> set_in (name_flag n) f = bool_decide (n = name \/ n = "all"%string)) ->
  set_in (if Z.land pf ACTF_PRINT_ALL =? 0 then Z.lor pf ACTF_PRINT_ALL else pf) f = true <-> asked opts name.
Proof.
  intros Hnames Hpf Hf Hall Hn. pose proof (Hpf ACTF_PRINT_ALL eq_refl) as Ha. rewrite flags_of_existsb in Ha.
  assert (Hz : set_in 0 ACTF_PRINT_ALL = false /\ set_in 0 f = false) by done.
  replace (Z.land pf ACTF_PRINT_ALL =? 0) with (negb (set_in pf ACTF_PRINT_ALL)) by (unfold set_in, c_true; by rewrite negb_involutive).
  unfold asked. destruct (named opts) as [|n names] eqn:E.
  - rewrite Ha, (proj1 Hz). cbn [existsb orb negb]. rewrite set_in_lor, Hall, orb_true_r. naive_solver.
  - assert (Hin : set_in pf ACTF_PRINT_ALL = true).
    { rewrite Ha. apply orb_true_iff. right. cbn [existsb]. apply orb_true_iff. left. apply Forall_cons in Hnames as [H1 _].
      unfold prop_names in H1. repeat (apply elem_of_cons in H1 as [->|H1]; [reflexivity|]). by apply not_elem_of_nil in H1. }
    rewrite Hin. cbn [negb]. rewrite Hpf, flags_of_existsb, (proj2 Hz) by done. cbn [orb]. rewrite existsb_exists. split.
    + intros (x & Hx & Hb). apply list_elem_of_In in Hx. rewrite Hn in Hb by (by eapply Forall_forall in Hnames). apply bool_decide_eq_true in Hb as [->| ->]; auto.
    + assert (Hgo : forall x, x ∈ n :: names -> x = name \/ x = "all"%string -> exists x, In x (n :: names) /\ set_in (name_flag x) f = true).
      { intros x Hx Hor. exists x. split; [by apply list_elem_of_In|]. rewrite Hn by (by eapply Forall_forall in Hnames). by apply bool_decide_eq_true. }
      intros [H|[H|H]]; [eauto..|done].
Qed.

(** The properties that are printed are those asked for. *)
Lemma props_asked {P} (name : P -> string) (tbl : list (Z * P)) opts pf p :
  table_ok name tbl -> p ∈ map snd tbl -> Forall (fun n => n ∈ prop_names) (named opts) ->
  (forall f, Z.land f ACTF_PRINT_ALL = f -> set_in pf f = set_in (flags_of (named opts) 0) f) ->
  p ∈ props_of (if Z.land pf ACTF_PRINT_ALL =? 0 then Z.lor pf ACTF_PRINT_ALL else pf) tbl <-> asked opts (name p).
Proof.
  intros Htbl Hp Hnames Hpf. rewrite props_of_in.
  assert (Hc : forall f, (f, p) ∈ tbl -> set_in (if Z.land pf ACTF_PRINT_ALL =? 0 then Z.lor pf ACTF_PRINT_ALL else pf) f = true <-> asked opts (name p)).
  { intros f Hin. eapply Forall_forall in Htbl as (H1 & H2 & H3); [|exact Hin]. apply flags_asked; try done.
    intros n Hn. by eapply Forall_forall in H3. }
  split; [intros (f & Hf & Hs); by apply (Hc f)|]. apply list_elem_of_fmap in Hp as ([f p'] & -> & Hf). intros Ha. exists f. split; [done|by apply Hc].
Qed.

(** C31: the options of the command line.  With any sequence of [-p] options, each with
    any names, and of the options that only set something, the program goes on to
    print, for the paths given and without a filter; what it prints of each event
    are exactly the properties that were named, all of them when one of the names was
    [all] or when none was given.  The names are those that label the properties in
    the output. *)
Theorem print_options_select mktime opts path paths : Forall opt_ok opts ->
  exists f, parse_flags mktime (map getopt_of opts) (path :: paths) = Ok (Go f) /\
    ctf_paths f = path :: paths /\ has_filter_range f = false /\
    (forall p, p ∈ props_of (printer_flags f) ev_table <-> asked opts (actf_event_prop_to_name p)) /\
    (forall p, p ∈ props_of (printer_flags f) pkt_table <-> asked opts (actf_pkt_prop_to_name p)).
Proof.
  intros Hopts. destruct (opts_run opts Hopts (mk_args 0 None None false)) as (pf & q & R & Hpf). cbn [a_begin a_end a_flags] in R, Hpf.
  assert (Hnames : Forall (fun n => n ∈ prop_names) (named opts)).
  { clear -Hopts. induction Hopts as [|o opts Ho _ IH]; [constructor|]. cbn. apply Forall_app. split; [by destruct o|exact IH]. }
  unfold parse_flags. rewrite R. cbn [length Nat.ltb Nat.leb a_flags a_begin a_end a_quiet]. eexists. split; [reflexivity|].
  split; [done|]. split; [done|]. cbn [printer_flags]. split; intros p.
  - apply props_asked; [apply ev_table_ok| |done|done]. destruct p; cbn; rewrite !elem_of_cons; auto 6.
  - apply props_asked; [apply pkt_table_ok| |done|done]. destruct p; cbn; rewrite !elem_of_cons; auto 6.
Qed.

Example print_options_select_witness :
  exists f, parse_flags (fun _ => None) [("p"%char, lit "event-header,event-payload"); ("d"%char, []); ("p"%char, lit "packet-context")]
      ["trace"%string] = Ok (Go f) /\
    props_of (printer_flags f) ev_table = [ACTF_EVENT_PROP_HEADER; ACTF_EVENT_PROP_PAYLOAD] /\
    props_of (printer_flags f) pkt_table = [ACTF_PKT_PROP_CTX] /\ set_in (printer_flags f) ACTF_PRINT_TSTAMP_DELTA = true /\
    (ACTF_EVENT_PROP_PAYLOAD ∈ props_of (printer_flags f) ev_table <->
     asked [OPrint ["event-header"; "event-payload"]; OSwitch "d"; OPrint ["packet-context"]]%string "event-payload").
Proof.
  destruct (print_options_select (fun _ => None) [OPrint ["event-header"; "event-payload"]%string; OSwitch "d"; OPrint ["packet-context"%string]]
    "trace" []) as (f & R & _ & _ & He & _); [repeat constructor; cbn; unfold prop_names, switches; rewrite ?elem_of_cons; auto 10|].
  exists f. split; [exact R|]. vm_compute in R. injection R as <-. split; [reflexivity|]. split; [reflexivity|]. split; [reflexivity|].
  exact (He ACTF_EVENT_PROP_PAYLOAD).
Defined.

(** An unknown name, and no directory. *)
Example bad_options :
  (exists e, parse_flags (fun _ => None) [("p"%char, lit "event-header,header")] ["trace"%string] = Ok (Exit (-1) e)) /\
  (exists e, parse_flags (fun _ => None) [("q"%char, [])] [] = Ok (Exit (-1) e)) /\
  (exists e, parse_flags (fun _ => None) [("b"%char, lit "noon")] ["trace"%string] = Ok (Exit (-1) e)).
Proof. split_and!; eexists; vm_compute; reflexivity. Qed.
