(* ===== verification/ActfSpec.v ===== *)
(** What the command line program writes: the text of every event that its generator
    yields, once and in order, the reports of lost events and the counts; and that it
    gives back what it opened on every path. *)
From Stdlib Require Import Sorting.Sorted.
From S2P Require Import Prelude Common Libc Regex Error Rng HashMap Clock FldCls Metadata Json JsonUtils CtfJson FldClsParse MetadataParse MetadataText.
From S2P Require Import RbTree Mappings MappingsTree Generator PrioQueue Muxer Filter Fld Arena Scalar Decoder DecoderInv Samples MetadataSafe Print PrintSpec Tstamp Freader FreaderSpec Actf.
From stdpp Require Import strings list.
Open Scope Z_scope.

(** * Lost events *)

(** The packets as the program tells them apart: the sequence number and the snapshot
    of the counter of lost events, at the first event and at every event whose
    sequence number is another one than that of the event before. *)
Fixpoint new_pkts (last : option Z) (es : list event_ref) : list (Z * Z) :=
  match es with
  | [] => []
  | er :: es =>
      let s := actf_pkt_seq_num (er_pkt er) in
      (if bool_decide (last = Some s) then [] else [(s, actf_pkt_disc_event_record_snapshot (er_pkt er))]) ++ new_pkts (Some s) es
  end.

(** The report of each of these whose snapshot is above that of the one before. *)
Fixpoint lost_reports (before : Z) (pkts : list (Z * Z)) : text :=
  match pkts with
  | [] => []
  | (s, d) :: pkts => (if before <? d then lost_message s (d - before) else []) ++ lost_reports d pkts
  end.

(** The lines at the end. *)
Definition last_lost (pkts : list (Z * Z)) : Z := default 0 (snd <$> last pkts).
Definition totals (n : nat) (pkts : list (Z * Z)) : text :=
  (fmt_u (Z.of_nat n) ++ lit " events decoded" ++ [ascii_of_Z 10]) ++
  (if last_lost pkts =? 0 then [] else fmt_u (last_lost pkts) ++ lit " events discarded" ++ [ascii_of_Z 10]).

Section Lines.
Context {CD : Type} `{IC : Iconv CD} `{!IconvLaws CD} (localtime : Z -> tm).
Notation event_text := (event_text localtime).

(** The lines of the events, with the printer before the first. *)
Fixpoint events_text (q : actf_printer CD) (es : list event_ref) : option text :=
  match es with
  | [] => Some []
  | er :: es =>
      t ← event_text q er;
      ts ← events_text (event_after q (er_ev er)) es;
      Some ((t ++ [ascii_of_Z 10]) ++ ts)
  end.

(** The text depends on the printer but for its descriptors. *)
Lemma event_text_same (q q' : actf_printer CD) er : same_printer q q' -> event_text q' er = event_text q er.
Proof.
  intros (Hb & Hf & Hp & He & Hl & Hh). unfold PrintSpec.event_text, event_stamp_text, delta_text, event_stamp. by rewrite Hf, Hp, He, Hl, Hh.
Qed.
Lemma event_after_same (q q' : actf_printer CD) ev : same_printer q q' -> same_printer (event_after q ev) (event_after q' ev).
Proof.
  intros (Hb & Hf & Hp & He & Hl & Hh). unfold event_after, event_stamp. rewrite Hf. destruct (_ && _); [|done].
  destruct (if set_in (p_flags q) ACTF_PRINT_TSTAMP_CC then _ else _); done.
Qed.
Lemma events_text_same es : forall q q', same_printer q q' -> events_text q' es = events_text q es.
Proof.
  induction es as [|er es IH]; intros q q' Hq; [done|]. cbn [events_text]. rewrite (event_text_same q q') by done.
  destruct (event_text q er); [|done]. cbn [mbind option_bind]. by rewrite (IH (event_after q (er_ev er))) by (by apply event_after_same).
Qed.

Section Read.
Context {G : Type} `{Generator G event_ref} (last_error : G -> option text) (depth : nat).
Notation rstate := (rstate (CD := CD) (G := G)).
Notation read_event := (read_event localtime depth).
Notation each_event := (each_event localtime depth).
Notation read_loop := (read_loop localtime depth).
Notation read_events := (read_events localtime last_error depth).

(** The sequence number that the next event is compared with. *)
Definition seen (r : rstate) : option Z := if count r =? 0 then None else Some (last_seq_num r).

(** What is asked of a state from which [es] are still to come, and what has become of
    it after them. *)
Definition ready (quiet : bool) (r : rstate) (es : list event_ref) : Prop :=
  0 <= count r /\ count r + Z.of_nat (length es) < 2 ^ 64 /\ Forall (fun er => (event_depth er <= depth)%nat) es /\
  (quiet = false -> cds_ok (prn (r_prn r)) /\ is_Some (events_text (prn (r_prn r)) es)).

Record after (quiet : bool) (r : rstate) (es : list event_ref) (r' : rstate) : Prop := {
  af_count : count r' = count r + Z.of_nat (length es);
  af_lost : last_disc_evs r' = default (last_disc_evs r) (snd <$> last (new_pkts (seen r) es));
  af_err : r_err r' = r_err r ++ (if quiet then [] else lost_reports (last_disc_evs r) (new_pkts (seen r) es));
  af_out : out (r_prn r') = out (r_prn r) ++ (if quiet then [] else default [] (events_text (prn (r_prn r)) es))
}.

Lemma after_refl quiet r : after quiet r [] r.
Proof. split; cbn; destruct quiet; rewrite ?app_nil_r; done || lia. Qed.

(** The lost events counter. *)
Lemma check_lost_run quiet s d (r : rstate) : exists e,
  check_lost quiet s d r = (Ok tt, mk_rstate (r_gen r) (r_prn r) (r_err r ++ e) (count r)
    (if bool_decide (seen r = Some s) then last_disc_evs r else d) (last_seq_num r)) /\
  e = if bool_decide (seen r = Some s) then [] else if quiet then [] else if last_disc_evs r <? d then lost_message s (d - last_disc_evs r) else [].
Proof.
  unfold check_lost. rewrite (st_bind_ok st_get _ r r r) by done. unfold seen.
  assert (Hc : (count r =? 0) || negb (s =? last_seq_num r) = negb (bool_decide ((if count r =? 0 then None else Some (last_seq_num r)) = Some s))).
  { destruct (count r =? 0); [done|]. cbn. f_equal. destruct (Z.eqb_spec s (last_seq_num r)) as [->|]; [by rewrite bool_decide_true|].
    rewrite bool_decide_false; [done|]. by intros [= ?]. }
  rewrite Hc. destruct (bool_decide _); cbn [negb].
  { eexists. split; [|reflexivity]. rewrite app_nil_r. by destruct r. }
  eexists. split; [|reflexivity]. destruct quiet; cbn [negb andb]; [|destruct (last_disc_evs r <? d)]; cbn; by rewrite ?app_nil_r.
Qed.

(** The line of an event. *)
Lemma print_line_run quiet er es r : ready quiet r (er :: es) ->
  exists q t, (if negb quiet then _ ← on_printer (actf_fprint_event localtime depth er); on_printer (put [ascii_of_Z 10]) else mret tt) r =
      (Ok tt, mk_rstate (r_gen r) (mk_pst q (out (r_prn r) ++ t)) (r_err r) (count r) (last_disc_evs r) (last_seq_num r)) /\
    (quiet = true -> t = []) /\
    (quiet = false -> cds_ok q /\ exists ts, events_text q es = Some ts /\ events_text (prn (r_prn r)) (er :: es) = Some (t ++ ts)).
Proof.
  intros (Hpos & H64 & Hdep & Hq). apply Forall_cons in Hdep as [Hd Hdep].
  destruct quiet; cbn [negb].
  - exists (prn (r_prn r)), []. rewrite app_nil_r. split; [|done]. by destruct r as [? [] ? ? ? ?].
  - destruct (Hq eq_refl) as [Hcds [t Ht]]. cbn [events_text] in Ht. destruct (event_text (prn (r_prn r)) er) as [t1|] eqn:Ht1; [|done].
    cbn [mbind option_bind] in Ht. destruct (events_text (event_after (prn (r_prn r)) (er_ev er)) es) as [ts|] eqn:Hts; [|done].
    destruct (fprint_event_run localtime depth er (r_prn r) t1 Hcds Ht1 Hd) as (q & R & Hs & Hcq). exists q, (t1 ++ [ascii_of_Z 10]).
    split; [|split; [done|intros _; split; [done|]; exists ts; split; [by rewrite (events_text_same es _ _ Hs)|cbn [events_text]; by rewrite Ht1, Hts]]].
    assert (R' : on_printer (actf_fprint_event localtime depth er) r =
      (Ok ACTF_OK, mk_rstate (r_gen r) (mk_pst q (out (r_prn r) ++ t1)) (r_err r) (count r) (last_disc_evs r) (last_seq_num r))).
    { unfold on_printer, st_zoom. by rewrite R. }
    rewrite (st_bind_ok _ _ _ _ _ R'). cbn. by rewrite <- app_assoc.
Qed.

(** An event. *)
Lemma read_event_run quiet er es r : ready quiet r (er :: es) ->
  exists r1, read_event quiet er r = (Ok tt, r1) /\ r_gen r1 = r_gen r /\ ready quiet r1 es /\
    forall r', after quiet r1 es r' -> after quiet r (er :: es) r'.
Proof.
  intros Hready. pose proof Hready as (Hpos & H64 & [_ Hdep]%Forall_cons & _). unfold Actf.read_event.
  destruct (print_line_run quiet er es r Hready) as (q & t & R & Htq & Hts). rewrite (st_bind_ok _ _ _ _ _ R). clear R.
  set (r0 := mk_rstate _ _ _ _ _ _). set (s := actf_pkt_seq_num (er_pkt er)). set (d := actf_pkt_disc_event_record_snapshot (er_pkt er)).
  destruct (check_lost_run quiet s d r0) as (e & R & He). rewrite (st_bind_ok _ _ _ _ _ R). clear R. eexists. split; [reflexivity|].
  change (seen r0) with (seen r) in *. cbn [count last_disc_evs r_err r_gen r_prn r0] in *.
  assert (Hcount : u64 (count r + 1) = count r + 1) by (cbn [length] in H64; unfold u64; rewrite Z.mod_small; lia).
  split; [done|]. split.
  - unfold ready. cbn [count r_prn prn]. rewrite Hcount. cbn [length] in H64. split_and!; [lia|lia|done|].
    intros Hf. destruct (Hts Hf) as (? & ts & ? & _). split; [done|by eexists].
  - intros r' [Hc Hl Hr Ho]. cbn [count last_disc_evs r_err r_prn prn out last_seq_num] in *. rewrite Hcount in *.
    assert (Hseen : seen (mk_rstate (r_gen r) (mk_pst q (out (r_prn r) ++ t)) (r_err r ++ e) (count r + 1)
      (if bool_decide (seen r = Some s) then last_disc_evs r else d) s) = Some s).
    { unfold seen. cbn [count last_seq_num]. by rewrite (proj2 (Z.eqb_neq _ _)) by lia. }
    rewrite Hseen in Hl, Hr.
    split.
    + rewrite Hc. cbn [length]. lia.
    + rewrite Hl. cbn [new_pkts]. fold s d. destruct (bool_decide (seen r = Some s)); [done|]. cbn [app]. rewrite last_cons.
      by destruct (last (new_pkts (Some s) es)).
    + rewrite Hr, He, <- app_assoc. f_equal. cbn [new_pkts]. fold s d. destruct (bool_decide (seen r = Some s)); cbn [app lost_reports]; [done|].
      by destruct quiet.
    + rewrite Ho, <- app_assoc. f_equal. destruct quiet; [by rewrite Htq|]. destruct (Hts eq_refl) as (_ & ts & -> & ->). done.
Qed.

Lemma each_event_run quiet evs : forall es r, ready quiet r (evs ++ es) ->
  exists r1, each_event quiet evs r = (Ok tt, r1) /\ r_gen r1 = r_gen r /\ ready quiet r1 es /\
    forall r', after quiet r1 es r' -> after quiet r (evs ++ es) r'.
Proof.
  induction evs as [|er evs IH]; intros es r Hr; [by exists r|].
  destruct (read_event_run quiet er (evs ++ es) r Hr) as (r1 & R1 & G1 & Hr1 & A1).
  destruct (IH es r1 Hr1) as (r2 & R2 & G2 & Hr2 & A2). exists r2. cbn [Actf.each_event]. rewrite (st_bind_ok _ _ _ _ _ R1), R2.
  split; [done|]. split; [by rewrite G2|]. split; [done|]. intros r' H'. by apply A1, A2.
Qed.

Lemma ready_gen quiet r es g : ready quiet (mk_rstate g (r_prn r) (r_err r) (count r) (last_disc_evs r) (last_seq_num r)) es <-> ready quiet r es.
Proof. done. Qed.
Lemma after_gen quiet r es g r' : after quiet (mk_rstate g (r_prn r) (r_err r) (count r) (last_disc_evs r) (last_seq_num r)) es r' -> after quiet r es r'.
Proof. intros []. by split. Qed.

(** The loop reads all events, and ends as the generator does. *)
Lemma read_loop_run quiet g es fin g' : ends g es fin g' -> forall fuel r, r_gen r = g -> (length es < fuel)%nat -> ready quiet r es ->
  exists r', read_loop fuel quiet r = (Ok (end_rc fin), r') /\ r_gen r' = g' /\ after quiet r es r'.
Proof.
  induction 1 as [g g' Hg|g rc g' Hg|g e evs g' es fin g'' Hg _ IH]; intros [|fuel] r Hr Hf Hready; try (cbn in Hf; lia).
  - eexists. split; [|split; [|eapply after_gen, after_refl]]; [|reflexivity]. cbn [Actf.read_loop]. unfold on_generator, st_zoom. rewrite Hr, Hg. done.
  - eexists. split; [|split; [|eapply after_gen, after_refl]]; [|reflexivity]. cbn [Actf.read_loop]. unfold on_generator, st_zoom. rewrite Hr, Hg. done.
  - set (r1 := mk_rstate g' (r_prn r) (r_err r) (count r) (last_disc_evs r) (last_seq_num r)).
    destruct (each_event_run quiet (e :: evs) es r1 Hready) as (r2 & R2 & G2 & Hr2 & A2).
    assert (Hl : (length es < fuel)%nat) by (cbn [length] in Hf; rewrite length_app in Hf; lia).
    destruct (IH fuel r2 G2 Hl Hr2) as (r3 & R3 & G3 & A3). exists r3. cbn [Actf.read_loop]. unfold on_generator at 1, st_zoom at 1. rewrite Hr, Hg.
    fold r1. rewrite (st_bind_ok _ _ _ _ _ R2), R3. split; [done|]. split; [done|]. eapply after_gen. exact (A2 r3 A3).
Qed.

(** The printer of a run. *)
Definition new_printer (pf : Z) : actf_printer CD :=
  mk_printer (fun _ => None) DEFAULT_CONVBUF_SZ pf (props_of pf pkt_table) (props_of pf ev_table) 0 false.

(** What a run writes to standard output and to standard error. *)
Definition stdout_of (quiet : bool) (pf : Z) (es : list event_ref) : option text := if quiet then Some [] else events_text (new_printer pf) es.
Definition stderr_of (quiet : bool) (es : list event_ref) (failure : text) : text :=
  (if quiet then [] else lost_reports 0 (new_pkts None es)) ++ failure ++ totals (length es) (new_pkts None es).
Definition failure_line (rc : Z) (m : text) : text := if rc <? 0 then lit "read error: " ++ m ++ [ascii_of_Z 10] else [].

(** The run over a generator that ends. *)
Lemma read_events_run fuel g es fin g' quiet pf t m :
  let rc := end_rc fin in
  ends g es fin g' -> (length es < fuel)%nat -> Z.of_nat (length es) < 2 ^ 64 -> Forall (fun er => (event_depth er <= depth)%nat) es ->
  stdout_of quiet pf es = Some t -> (rc < 0 -> last_error g' = Some m) ->
  read_events fuel false g quiet pf = Ok (rc, t, stderr_of quiet es (failure_line rc m)).
Proof.
  intros rc He Hf H64 Hdep Ht Hm. unfold Actf.read_events, actf_printer_init. fold (new_printer pf).
  assert (Hready : ready quiet (mk_rstate g (mk_pst (new_printer pf) []) [] 0 0 0) es).
  { split_and!; [done|exact H64|done|]. intros ->. split; [split; [done|by intros ?? [=]]|by eexists]. }
  destruct (read_loop_run quiet g es fin g' He fuel (mk_rstate g (mk_pst (new_printer pf) []) [] 0 0 0) eq_refl Hf Hready) as (r & R & Hg & [Hc Hl Hr Ho]).
  rewrite (st_bind_ok _ _ _ _ _ R). clear R. fold rc. cbn [count last_disc_evs r_err r_prn out app prn] in Hc, Hl, Hr, Ho.
  change (seen (mk_rstate g (mk_pst (new_printer pf) []) [] 0 0 0)) with (@None Z) in *.
  assert (Hout : out (r_prn r) = t) by (rewrite Ho; destruct quiet; [by injection Ht|unfold stdout_of in Ht; by rewrite Ht]).
  assert (Hfail : (if rc <? 0 then
      r ← st_get; match last_error (r_gen r) with Some m => write_err (lit "read error: " ++ m ++ [ascii_of_Z 10]) | None => st_undef end
    else mret tt) r = (Ok tt, mk_rstate (r_gen r) (r_prn r) (r_err r ++ failure_line rc m) (count r) (last_disc_evs r) (last_seq_num r))).
  { unfold failure_line. destruct (Z.ltb_spec rc 0) as [Hn|Hn]; [|rewrite app_nil_r; by destruct r].
    rewrite (st_bind_ok st_get _ r r r) by done. subst g'. rewrite (Hm Hn). reflexivity. }
  rewrite (st_bind_ok _ _ _ _ _ Hfail). clear Hfail. unfold stderr_of, totals, last_lost. set (r1 := mk_rstate _ _ _ _ _ _).
  assert (Hw : forall x (r : rstate), write_err x r =
    (Ok tt, mk_rstate (r_gen r) (r_prn r) (r_err r ++ x) (count r) (last_disc_evs r) (last_seq_num r))) by done.
  rewrite (st_bind_ok st_get _ r1 r1 r1) by done. rewrite (st_bind_ok _ _ _ _ _ (Hw _ r1)). cbn [last_disc_evs count r1]. rewrite Hl, Hc, Z.add_0_l.
  destruct (default 0 _ =? 0); cbn [negb]; [|rewrite (st_bind_ok _ _ _ _ _ (Hw _ _))];
    unfold mbind, st_bind, st_get, mret, st_ret; cbn [fst r_prn r_err r1]; rewrite Hout, Hr, <- !app_assoc, ?app_nil_r; reflexivity.
Qed.
End Read.
End Lines.

(** C15: the reading loop.  Over a generator that yields the events [es] and then ends, or
    fails with [rc], the program calls it until then and returns 0 or [rc]; standard
    output is the text of every event, once, in order, each on its line and with its
    delta to the event before, and nothing when quiet; standard error has the
    reports of lost events, the message of the failure, the number of events and the
    last counter of lost events. *)
Theorem read_events_writes {CD : Type} `{IC : Iconv CD} `{!IconvLaws CD} (localtime : Z -> tm)
    {G : Type} `{Generator G event_ref} (last_error : G -> option text) depth fuel g es fin g' quiet pf t m :
  let rc := end_rc fin in
  ends g es fin g' -> (length es < fuel)%nat -> Z.of_nat (length es) < 2 ^ 64 -> Forall (fun er => (event_depth er <= depth)%nat) es ->
  stdout_of localtime quiet pf es = Some t -> (rc < 0 -> last_error g' = Some m) ->
  read_events localtime last_error depth fuel false g quiet pf = Ok (rc, t, stderr_of quiet es (failure_line rc m)).
Proof. apply read_events_run. Qed.

(** * The program *)

Section Main.
Context {json tok : Type} `{JsonC json, Heap, Tokener json tok, QSort} {CD : Type} `{IC : Iconv CD} `{!IconvLaws CD}.
Context (localtime : Z -> tm) (mktime : tm -> option Z).
Context (metadata_error : actf_metadata -> option text) (opendir : string -> option os_dir) (open_message : text) (strerror : text).
Context (jn : nat -> list node) (je : nat -> list (list event_ref)).
Context `{HG : Generator stream event_ref}.
Context (gen_error : active_gen -> option text) (flt_error : actf_filter actf_freader -> option text).
Notation actf_main := (actf_main localtime mktime metadata_error opendir open_message strerror jn je gen_error flt_error).
Notation open_folders := (actf_freader_open_folders metadata_error opendir jn je).
Notation freader_gen := (actf_freader_to_generator gen_error).

Definition main_cfg : actf_freader_cfg := mk_cfg (Some "metadata"%string) 0 0.
Definition new_reader : actf_freader := mk_freader main_cfg [] NoGen [].

(** Opening and then freeing leaves nothing. *)
Lemma open_free paths o :
  match open_folders new_reader paths o with
  | (Ok rd, o') => fds (actf_freader_free rd o').2 = fds o /\ mapped (actf_freader_free rd o').2 = mapped o
  | (Err _, o') => fds (actf_freader_free new_reader o').2 = fds o /\ mapped (actf_freader_free new_reader o').2 = mapped o
  | (Undef, _) => True
  end.
Proof.
  pose proof (open_folders_run metadata_error opendir jn je (fun _ => True) parse_inv_true new_reader paths o) as Hr.
  destruct (open_folders new_reader paths o) as [[rd|rc|] o']; [|by destruct Hr|done]. destruct Hr as [Hf Hr]. unfold actf_freader_free.
  destruct (free_gives (fr_dirs rd) o') as (o2 & -> & Hf2 & Hm2). cbn [snd].
  destruct Hr as [(-> & -> & Hm)|(_ & Hm & _)]; [cbn in *|]; split; lia.
Qed.

(** C6: the program gives everything back.  Whatever the options, the directories, the
    file system, the data and the failing allocations are, every descriptor it opened
    is closed and every mapping is removed when it returns. *)
Theorem main_gives_back oom_rd oom_flt oom_prn fuel depth opts paths o r o' :
  actf_main oom_rd oom_flt oom_prn fuel depth opts paths o = (Ok r, o') -> fds o' = fds o /\ mapped o' = mapped o.
Proof.
  unfold Actf.actf_main. destruct (parse_flags mktime opts paths) as [[f|rc e]|rc|]; [|by intros [= <- <-]|by intros [=]|by intros [=]].
  destruct oom_rd; cbn [actf_freader_init]; [by intros [= <- <-]|]. change (mk_freader _ [] NoGen []) with new_reader.
  pose proof (open_free (ctf_paths f) o) as Hr.
  destruct (open_folders new_reader (ctf_paths f) o) as [[rd|rc|] o1]; [| |by intros [=]]; intros [= _ <-]; exact Hr.
Qed.

(** The generator of an opened reader, for the streams of its directories. *)
Lemma opened_gen paths o rd o1 : open_folders new_reader paths o = (Ok rd, o1) -> gen_ok jn je (all_decs (fr_dirs rd)) 0 (fr_gen rd).
Proof.
  intros E. pose proof (open_folders_run metadata_error opendir jn je (fun _ => True) parse_inv_true new_reader paths o) as Hr. rewrite E in Hr.
  destruct Hr as [_ [(_ & -> & _)|(_ & _ & Hg)]]; [done|exact Hg].
Qed.

(** The program prints what the generator that [main] builds drains to. *)
Lemma main_writes fuel depth opts paths f rd o o1 es :
  parse_flags mktime opts paths = Ok (Go f) -> open_folders new_reader (ctf_paths f) o = (Ok rd, o1) ->
  (if has_filter_range f then @drains _ _ (@actf_filter_to_generator _ _ freader_gen er_tstamp) (actf_filter_init rd (filter_range f)) es
   else @drains _ _ freader_gen rd es) ->
  (length es < fuel)%nat -> Z.of_nat (length es) < 2 ^ 64 -> Forall (fun er => (event_depth er <= depth)%nat) es ->
  forall t, stdout_of localtime (quiet f) (printer_flags f) es = Some t ->
    exists o2, actf_main false false false fuel depth opts paths o = (Ok (ACTF_OK, t, stderr_of (quiet f) es []), o2).
Proof.
  intros Hflags Hopen Hd Hl H64 Hdep t Ht.
  assert (Hread : (if has_filter_range f then
       @read_events _ _ localtime _ (@actf_filter_to_generator _ _ freader_gen er_tstamp) flt_error depth fuel false
         (actf_filter_init rd (filter_range f)) (quiet f) (printer_flags f)
     else @read_events _ _ localtime _ freader_gen actf_freader_last_error depth fuel false rd (quiet f) (printer_flags f)) =
    Ok (ACTF_OK, t, stderr_of (quiet f) es [])).
  { destruct (has_filter_range f); apply drains_ends in Hd as (g' & Hd).
    - by apply (read_events_run localtime flt_error depth fuel _ _ (Ok tt) g' _ _ t [] Hd).
    - by apply (read_events_run localtime actf_freader_last_error depth fuel _ _ (Ok tt) g' _ _ t [] Hd). }
  eexists. unfold Actf.actf_main. rewrite Hflags. cbn [actf_freader_init]. change (mk_freader _ [] NoGen []) with new_reader. rewrite Hopen.
  rewrite <- Hread. by destruct (has_filter_range f).
Qed.

End Main.

(** * Runs *)

Import PrintSpec.AsciiConv.
#[local] Existing Instance sample_streams.
#[local] Existing Instance heap_ok.

(** The program on the directory of [FreaderSpec], in UTC. *)
Notation sample_main := (fun opts paths =>
  @actf_main jval unit jval_json heap_ok (index_tokener sample_frags) insertion_sort _ _ gmtime (fun t => Some (tm_epoch t)) (fun _ => Some [])
    sample_opendir (lit "opendir") (lit "errno") sample_nodes sample_evs sample_streams no_message (fun _ => Some []) false false false 20%nat 4%nat
    opts paths (mk_os 0 0 0)).

(** A text of lines. *)
Definition lines (ls : list string) : text := concat (map (fun l => lit l ++ [ascii_of_Z 10]) ls).

(** All of two streams; a part of each event in a range of time; a path that is no
    directory. *)
Example main_runs :
  sample_main [("s"%char, []); ("d"%char, [])] ["trace"%string] =
    (Ok (0, lines ["[0.000000005] (+??????????) { { len: 32 }, { id: 0, ts: 5 }, { x: 7 } }";
                   "[0.000000006] (+0000000001) { { len: 56 }, { id: 0, ts: 6 }, { x: 1 } }";
                   "[0.000000008] (+0000000002) { { len: 56 }, { id: 0, ts: 8 }, { x: 2 } }";
                   "[0.000000009] (+0000000001) { { len: 56 }, { id: 0, ts: 9 }, { x: 8 } }";
                   "[0.000000260] (+0000000251) { { len: 56 }, { id: 0, ts: 4 }, { x: 1 } }"]%string, lines ["5 events decoded"%string]), mk_os 286 0 0) /\
  sample_main [("g"%char, []); ("p"%char, lit "event-payload"); ("b"%char, lit "0.000000006"); ("e"%char, lit "0.000000009")] ["trace"%string] =
    (Ok (0, lines ["[00:00:00.000000006] { { x: 1 } }"; "[00:00:00.000000008] { { x: 2 } }"; "[00:00:00.000000009] { { x: 8 } }"]%string,
     lines ["3 events decoded"%string]), mk_os 286 0 0) /\
  (sample_main [] ["trace"; "nowhere"]%string).1 = Ok (ACTF_ERROR, [], lines ["actf_freader_open_folder: opendir"%string]).
Proof. vm_compute. done. Qed.

Example main_gives_back_witness :
  exists r o', sample_main [("q"%char, [])] ["trace"; "trace"]%string = (Ok r, o') /\ fds o' = 0 /\ mapped o' = 0.
Proof.
  assert (Hok : match (sample_main [("q"%char, [])] ["trace"; "trace"]%string).1 with Ok _ => true | _ => false end = true) by (vm_compute; reflexivity).
  destruct (sample_main [("q"%char, [])] ["trace"; "trace"]%string) as [[r|rc|] o'] eqn:E; [|done|done].
  exists r, o'. split; [done|]. exact (main_gives_back _ _ _ _ _ _ _ _ _ _ _ _ _ _ _ _ _ _ _ _ E).
Defined.

Definition sample_f : flags := mk_flags false ["trace"%string] (Z.lor ACTF_PRINT_TSTAMP_SEC ACTF_PRINT_ALL) ACTF_FILTER_TIME_RANGE_ALL false.
(** Events of packets with a sequence number and a counter of lost events. *)
Definition lossy (seq disc : Z) : event_ref :=
  mk_event_ref (er_ev shown_event)
    (actf_pkt_init (mk_pkt_state 0 0 0 disc None 0 0 ACTF_LIL_ENDIAN 0 0 seq 0 (Z.lor PKT_SEQ_NUM PKT_DISC_ER_SNAP))) (er_data shown_event).

(** An array of such events, that ends in an error. *)
Definition failing_events : Generator (array_gen event_ref) event_ref :=
  {| generate := fun g => match chunks g with [] => (Err ACTF_NOT_ENOUGH_BITS, g) | _ => array_generate g end;
     seek_ns_from_origin := array_seek er_tstamp |}.
Definition no_error : array_gen event_ref -> option text := fun _ => Some (lit "not enough bits").
Definition shown_line : string := "[00:00:05.000000007] ns::ev: { event-payload: 1 }".

Example read_events_writes_witness :
  let g := mk_array_gen [] [[lossy 1 3; lossy 1 3]; [lossy 2 5]] in
  let pf := Z.lor ACTF_PRINT_TSTAMP_UTC ACTF_PRINT_PKT_HEADER in
  let line := "[00:00:05.000000007] ns::ev: {  }"%string in
  @read_events _ _ gmtime _ failing_events no_error 4 20 false g false pf =
    Ok (ACTF_NOT_ENOUGH_BITS, lines [line; line; line],
        lines ["packet 1 has 3 lost events"; "packet 2 has 2 lost events"; "read error: not enough bits"; "3 events decoded"; "5 events discarded"]%string).
Proof.
  intros g pf line.
  assert (He : @ends _ _ failing_events g [lossy 1 3; lossy 1 3; lossy 2 5] (Err ACTF_NOT_ENOUGH_BITS) (mk_array_gen [] [])).
  { apply (@ends_more _ _ failing_events _ (lossy 1 3) [lossy 1 3] (mk_array_gen [] [[lossy 2 5]]) [lossy 2 5]); [done|].
    apply (@ends_more _ _ failing_events _ (lossy 2 5) [] (mk_array_gen [] []) []); [done|]. by apply (@ends_err _ _ failing_events). }
  rewrite (@read_events_writes _ _ _ gmtime _ failing_events no_error 4 20 g _ _ _ false pf (lines [line; line; line]) (lit "not enough bits") He);
    [vm_compute; reflexivity|cbn; lia|vm_compute; done| |vm_compute; reflexivity|done].
  rewrite <- (Forall_map event_depth (fun d => (d <= 4)%nat)). apply list_max_le. vm_compute. lia.
Defined.

(** The counter is kept for all streams together: with the packets of two streams in turn,
    one of which lost 5 events and the other none, 8 lost events are reported, and
    at the end none. *)
Example interleaved_lost_events :
  stderr_of false [lossy 1 3; lossy 7 0; lossy 2 5; lossy 7 0] [] =
    lines ["packet 1 has 3 lost events"; "packet 2 has 5 lost events"; "4 events decoded"]%string.
Proof. vm_compute. done. Qed.
