(* ===== verification/Program.v ===== *)
(** The program as a function of the bytes of its files.

    [ActfSpec.main_writes] says what the program writes in terms of the events its
    generator yields, [StreamDecode.decoder_yields_stream] that these are the events of
    the specification of streams.  Put together: the output is the text of the merge of
    the streams that the metadata and the data files specify, in the range of time that is
    asked for.  With a range the decoders are sought, after they were read when a bound has no
    date; that this loses no event is [StreamRest]'s theorem. *)
From Stdlib Require Import Sorting.Sorted.
From S2P Require Import Prelude Common Libc Regex Error Breader Rng HashMap Clock FldCls Metadata Json JsonUtils CtfJson FldClsParse MetadataParse MetadataText MetadataInv.
From S2P Require Import RbTree Mappings MappingsTree Generator PrioQueue Muxer Filter Fld Arena Scalar Decoder DecoderInv DecoderPkt Samples MetadataSafe Print PrintSpec Tstamp Freader FreaderSpec Actf ActfSpec.
From S2P Require Import DecoderSpec FieldSpec StreamSpec StreamDecode StreamSeek StreamRest.
From stdpp Require Import strings list.
Open Scope Z_scope.

(** * The same events *)

Lemma Forall2_concat {A B} (R : A -> B -> Prop) xss yss : Forall2 (Forall2 R) xss yss -> Forall2 R (concat xss) (concat yss).
Proof. induction 1 as [|xs ys xss yss Hxy _ IH]; [constructor|]. exact (Forall2_app Hxy IH). Qed.

Section Same.
Context (e e' : event_ref) (Hs : same_ref e e').

Lemma same_seq_num : actf_pkt_seq_num (er_pkt e) = actf_pkt_seq_num (er_pkt e').
Proof. destruct Hs as (_ & (Hp & _) & _). by rewrite !guarded_seq_num, Hp. Qed.
Lemma same_disc : actf_pkt_disc_event_record_snapshot (er_pkt e) = actf_pkt_disc_event_record_snapshot (er_pkt e').
Proof. destruct Hs as (_ & (Hp & _) & _). by rewrite !guarded_disc, Hp. Qed.
Lemma same_pkt_props : pkt_props (er_pkt e) = pkt_props (er_pkt e').
Proof. destruct Hs as (_ & (_ & H1 & H2) & _). unfold pkt_props. by rewrite H1, H2. Qed.
Lemma same_tstamp : er_tstamp e = er_tstamp e'.
Proof. destruct Hs as (He & _). unfold er_tstamp. by rewrite He. Qed.
Lemma same_depth : event_depth e = event_depth e'.
Proof. unfold event_depth. rewrite same_pkt_props. by destruct Hs as (-> & _). Qed.
Lemma same_text {CD : Type} `{IC : Iconv CD} `{!IconvLaws CD} (localtime : Z -> tm) (q : actf_printer CD) : event_text localtime q e = event_text localtime q e'.
Proof. unfold event_text. rewrite same_pkt_props. destruct Hs as (-> & _ & ->). done. Qed.
End Same.

Lemma same_new_pkts es es' : Forall2 same_ref es es' -> forall last, new_pkts last es = new_pkts last es'.
Proof.
  induction 1 as [|e e' es es' He _ IH]; intros last; [done|]. cbn [new_pkts]. by rewrite (same_seq_num e e' He), (same_disc e e' He), IH.
Qed.

Lemma same_events_text {CD : Type} `{IC : Iconv CD} `{!IconvLaws CD} (localtime : Z -> tm) es es' :
  Forall2 same_ref es es' -> forall q : actf_printer CD, events_text localtime q es = events_text localtime q es'.
Proof.
  induction 1 as [|e e' es es' He _ IH]; intros q; [done|]. cbn [events_text]. rewrite (same_text e e' He). destruct (event_text localtime q e'); [|done].
  cbn [mbind option_bind]. rewrite IH. by destruct He as (-> & _).
Qed.

(** What a run writes is the same for the same events. *)
Lemma same_written {CD : Type} `{IC : Iconv CD} `{!IconvLaws CD} (localtime : Z -> tm) quiet pf es es' :
  Forall2 same_ref es es' ->
  stdout_of (CD := CD) localtime quiet pf es = stdout_of (CD := CD) localtime quiet pf es' /\
  forall failure, stderr_of quiet es failure = stderr_of quiet es' failure.
Proof.
  intros Hs. split.
  - unfold stdout_of. destruct quiet; [done|]. by apply same_events_text.
  - intros failure. unfold stderr_of. by rewrite (same_new_pkts es es' Hs), (Forall2_length _ _ _ Hs).
Qed.

(** ** Metadata that is parsed *)

Lemma metadata_parse_inv {json tok} `{JsonC json, !JsonCLaws json, Heap, Tokener json tok, QSort} : parse_inv metadata_parsed.
Proof.
  split.
  - intros n m n' Hi. by eapply metadata_init_parsed.
  - intros f s Hs. unfold actf_metadata_parse_fd. destruct (f_stat f) as [sz|]; [|done].
    revert s Hs. match goal with |- forall s, _ -> metadata_parsed (fst (snd (?m s))) => change (keeps (fun s : pstate => metadata_parsed (fst s)) m) end.
    apply keeps_bind; [intros s Hs; unfold with_alloc, st_zoom; by destruct (malloc (snd s))|]. intros _.
    destruct (f_read f); [apply nparse_kept|apply keeps_fail].
Qed.

(** * The program *)

(** The range with dates: those of the day of the first event. *)
Definition dated_range (r : actf_filter_time_range) (out : list event_ref) : option actf_filter_time_range :=
  if begin_has_date r && end_has_date r then Some r
  else match out with [] => None | e :: _ => shift_range (date_off (er_tstamp e)) r end.

(** The events of a run among those of the merge of the files. *)
Definition selected (f : flags) (out : list event_ref) : option (list event_ref) :=
  if has_filter_range f then (fun r => Filter.in_range er_tstamp r out) <$> dated_range (filter_range f) out else Some out.

Section Main.
Context {json tok : Type} `{JsonC json, !JsonCLaws json, Heap, Tokener json tok, QSort} {CD : Type} `{IC : Iconv CD} `{!IconvLaws CD}.
Context (localtime : Z -> tm) (mktime : tm -> option Z).
Context (metadata_error : actf_metadata -> option text) (opendir : string -> option os_dir) (open_message : text) (strerror : text).
Context (jn : nat -> list node) (je : nat -> list (list event_ref)) (Hjn : forall n, length (jn n) = n) (Hje : forall n, length (je n) = n).
Context (pm em : nat -> Z -> bool) (Hpm : forall n sz, pm n sz = true) (Hem : forall n sz, em n sz = true) (lf sf : nat).
Context (gen_error : active_gen -> option text) (flt_error : actf_filter actf_freader -> option text).
Notation gen := (stream_generator pm em lf sf).
Notation actf_main := (actf_main (H4 := gen) localtime mktime metadata_error opendir open_message strerror jn je gen_error flt_error).
Notation open_folders := (actf_freader_open_folders metadata_error opendir jn je).

(** A decoder at the begin of its file, with metadata that was parsed. *)
Definition fresh (s : stream) : Prop := s_dec s = actf_decoder_init (s_data s) 0 /\ metadata_parsed (s_md s).

Lemma opened_fresh paths o rd o1 : open_folders new_reader paths o = (Ok rd, o1) -> Forall fresh (all_decs (fr_dirs rd)).
Proof.
  intros E. pose proof (open_folders_run metadata_error opendir jn je metadata_parsed metadata_parse_inv new_reader paths o) as Hr. rewrite E in Hr.
  destruct Hr as [_ [(_ & -> & _)|(Hd & _ & _)]]; [constructor|]. unfold all_decs. apply Forall_concat, Forall_map. clear E.
  induction Hd as [|path cd paths' cds (d & _ & _ & Hp & _ & Hdecs) _ IH]; constructor; [|exact IH].
  rewrite Hdecs. apply Forall_map, Forall_true. intros b. by split.
Qed.

(** A data file whose bytes fit, with no alignment of 0 in its metadata. *)
Definition readable (s : stream) : Prop :=
  Forall is_byte (s_data s) /\ 8 * Z.of_nat (length (s_data s)) <= 2 ^ 62 /\ md_no_zero (s_md s).

(** The events that the bytes of a file specify; for a range of time they are in the order of
    time, and the file tells the truth about the ends of its packets. *)
Definition specifies (f : flags) (fuel : nat) (s : stream) (es : list event_ref) : Prop :=
  exists items, es = map (ref_of (s_data s)) items /\ spec_stream (s_md s) lf fuel (s_data s) = (items, Ok tt) /\
    (has_filter_range f = true -> truthful (s_md s) lf fuel (stream_start (s_data s)) = true /\ time_sorted er_tstamp es).

Lemma stream_drains fuel s items :
  fresh s -> readable s -> spec_stream (s_md s) lf fuel (s_data s) = (items, Ok tt) ->
  exists ers, @drains _ _ gen s ers /\ Forall2 same_ref ers (map (ref_of (s_data s)) items).
Proof.
  intros [Hd Hp] (Hb & Hl & Hz) Hs.
  assert (Hn : 16 * SIZEOF_FLD * Z.of_nat 0 <= 2 ^ 62) by (by vm_compute).
  destruct (stream_ends pm em lf sf (s_md s) fuel (s_data s) 0 items (Ok tt) Hpm Hem Hb Hl Hn (metadata_parsed_wf _ Hp Hz) Hs) as (ers & s' & He & Hr); [done|].
  exists ers. split; [|done]. apply drains_ends. exists s'. destruct s as [md data dec]. cbn in Hd. by subst dec.
Qed.

(** What is related to a list in the order of time is in that order. *)
Lemma same_sorted ers es : Forall2 same_ref ers es -> time_sorted er_tstamp es -> time_sorted er_tstamp ers.
Proof.
  induction 1 as [|e e' ers es He Hs IH]; intros Hsort; [constructor|]. apply StronglySorted_inv in Hsort as [Hsort Hge]. constructor; [by apply IH|].
  clear -He Hs Hge. induction Hs as [|x x' ers es Hx Hs IH]; [constructor|]. apply Forall_cons in Hge as [Hx' Hge].
  constructor; [|by apply IH]. by rewrite (same_tstamp _ _ He), (same_tstamp _ _ Hx).
Qed.

Lemma er_tstamp_max e : er_tstamp e <= INT64_MAX.
Proof.
  unfold er_tstamp, actf_event_tstamp_ns_from_origin. destruct (ev_dsc (er_ev e)) as [dsc|]; [|done]. destruct (actf_dstream_cls_clk_cls dsc) as [clkc|]; [|done].
  destruct (actf_clk_cls_cc_to_ns_from_origin clkc _) as [ns|] eqn:E; [|done]. apply cc_to_ns_range in E. cbn. lia.
Qed.

Lemma sorted_filter (P : event_ref -> bool) es : time_sorted er_tstamp es -> time_sorted er_tstamp (List.filter P es).
Proof.
  induction 1 as [|e es _ IH He]; [constructor|]. cbn [List.filter]. destruct (P e); [|done]. constructor; [done|].
  rewrite Forall_forall in *. intros x [Hx _]%list_elem_of_In%filter_In. by apply He, list_elem_of_In.
Qed.

(** ** Files that are sought

    In a range of time the generator is sought to its begin, after the first events were read
    when a bound has no date. *)
Section Sought.
Context (fuel : nat) (Hfuel : (fuel <= sf)%nat) (ss : list stream) (Hfresh : Forall fresh ss) (Hread : Forall readable ss).
Context (ess : list (list event_ref)).
Hypothesis Hspec : Forall2 (fun s es => exists items, es = map (ref_of (s_data s)) items /\ spec_stream (s_md s) lf fuel (s_data s) = (items, Ok tt) /\
  truthful (s_md s) lf fuel (stream_start (s_data s)) = true /\ time_sorted er_tstamp es) ss ess.

(** The state [s] of the [i]-th file can be sought; it still yields [es]. *)
Definition idle (i : nat) (s : stream) : Prop := exists s0, ss !! i = Some s0 /\ sound (s_md s0) (s_data s0) 0 s.
Definition yields (i : nat) (s : stream) (es : list event_ref) : Prop :=
  exists s0, ss !! i = Some s0 /\ sound (s_md s0) (s_data s0) 0 s /\ @drains _ _ gen s es /\
    exists items, leaves (s_md s0) pm em lf (s_data s0) (eff_cap 0) (s_dec s) items (Ok tt).

Lemma file_ok i s0 : ss !! i = Some s0 -> fresh s0 /\ Forall is_byte (s_data s0) /\ 8 * Z.of_nat (length (s_data s0)) <= 2 ^ 62 /\ metadata_wf (s_md s0).
Proof.
  intros Hi. pose proof (Forall_lookup_1 _ _ _ _ Hfresh Hi) as Hf. destruct (Forall_lookup_1 _ _ _ _ Hread Hi) as (Hb & Hl & Hz).
  split_and!; [done..|]. apply metadata_parsed_wf; [apply Hf|done].
Qed.

Lemma files_yield_step : @yields_step _ _ gen yields idle.
Proof.
  intros i s es (s0 & Hi & Hs & Hd & items & Hl). destruct (file_ok i s0 Hi) as (_ & Hb & Hsz & Hmd). split; [by exists s0|].
  destruct (@drains_step _ _ gen s es Hd) as (evs & s' & Hg & He). exists evs, s'. split; [done|].
  destruct (generate_sound (s_md s0) pm em lf sf (s_data s0) 0 Hpm Hem Hb Hsz Hmd s items evs s' Hs Hl Hg) as [Hs' Hl'].
  destruct He as [[-> ->]|(Hne & rest & Hd' & ->)]; [left|right]; (split; [done|]); [by split; [|exists s0]|].
  exists rest. split; [|done]. exists s0. split_and!; [done..|by apply Hl'].
Qed.

Lemma files_yield : exists ess0, @all_yield _ _ yields ss ess0 /\ Forall2 (Forall2 same_ref) ess0 ess.
Proof.
  destruct (list_choose (fun i s es => yields i s es /\ forall es', ess !! i = Some es' -> Forall2 same_ref es es') ss) as (ess0 & Hl & Hall).
  - intros i s Hi. destruct (Forall2_lookup_l _ _ _ _ _ Hspec Hi) as (es & Hes & items & -> & Hs & Ht & _).
    destruct (file_ok i s Hi) as ([Hd Hp] & Hb & Hsz & Hmd).
    destruct (stream_drains fuel s items (conj Hd Hp) (Forall_lookup_1 _ _ _ _ Hread Hi) Hs) as (ers & Hdr & Hr).
    exists ers. split; [|intros es' Hes'; by simplify_eq].
    assert (Hn : 16 * SIZEOF_FLD * Z.of_nat 0 <= 2 ^ 62) by (by vm_compute).
    destruct (used_sound (s_md s) pm em lf sf fuel (s_data s) 0 Hpm Hem Hb Hsz Hmd Hn Hfuel Ht _ (used_new _ _ _ _ _ _ _)) as [Hsound Hlv].
    assert (E : new_stream (s_md s) (s_data s) 0 = s) by (destruct s; cbn in Hd; by subst). rewrite E in Hsound, Hlv. by exists s.
  - exists ess0. split; [split; [done|]; intros i s es Hi Hes; by apply (Hall i s es)|].
    apply Forall2_same_length_lookup_2; [rewrite <- Hl; by eapply Forall2_length|]. intros i es es' Hes Hes'.
    destruct (lookup_lt_is_Some_2 ss i) as [s Hi]; [rewrite Hl; by eapply lookup_lt_Some|]. by apply (Hall i s es).
Qed.

(** What a file gives after a seek to [t], whatever was read before. *)
Definition since_begin (t : Z) (es : list event_ref) : list event_ref := List.filter (fun e => t <=? er_tstamp e) es.
Definition sought_to (t : Z) (i : nat) (es2 : list event_ref) : Prop := forall es, ess !! i = Some es -> Forall2 same_ref es2 (since_begin t es).

Lemma idle_seeks t i s : idle i s -> exists es2, @seeks _ _ gen s t es2 /\ sought_to t i es2.
Proof.
  intros (s0 & Hi & Hs). destruct (Forall2_lookup_l _ _ _ _ _ Hspec Hi) as (es & Hes & items & -> & Hs0 & Ht & Hsort).
  destruct (file_ok i s0 Hi) as (_ & Hb & Hsz & Hmd).
  destruct (seek_sound (s_md s0) pm em lf sf fuel (s_data s0) 0 Hpm Hem Hb Hsz Hmd Hfuel Ht t s Hs) as (items' & ers & s1 & s2 & Hs' & Hsk & _ & _ & He & Hr).
  rewrite Hs0 in Hs'. injection Hs' as <-. exists ers. split; [exists s1; split; [done|apply drains_ends; by exists s2]|].
  intros es' Hes'. simplify_eq. unfold since_begin. rewrite <- (since_sorted er_tstamp t _ Hsort), since_map. exact Hr.
Qed.

Lemma sought_lists t ess2 : length ess2 = length ss -> (forall i es2, ess2 !! i = Some es2 -> sought_to t i es2) ->
  Forall2 (Forall2 same_ref) ess2 (map (since_begin t) ess).
Proof.
  intros Hl Hall. apply Forall2_same_length_lookup_2; [rewrite length_map, Hl; by eapply Forall2_length|]. intros i es2 es Hi Hes.
  apply list_lookup_fmap_Some in Hes as (es0 & -> & Hes). by apply (Hall i es2 Hi).
Qed.

Lemma sought_sorted t ess2 : Forall2 (Forall2 same_ref) ess2 (map (since_begin t) ess) ->
  Forall (time_sorted er_tstamp) ess2 /\ Forall (Forall (fun e => t <= er_tstamp e <= INT64_MAX)) ess2.
Proof.
  intros Hsame. split; apply Forall_lookup; intros i es2 Hi; destruct (Forall2_lookup_l _ _ _ _ _ Hsame Hi) as (es & Hes & Hr);
    apply list_lookup_fmap_Some in Hes as (es0 & -> & Hes).
  - destruct (Forall2_lookup_r _ _ _ _ _ Hspec Hes) as (s & _ & _ & _ & _ & _ & Hsort). apply (same_sorted _ _ Hr). by apply sorted_filter.
  - apply Forall_lookup. intros j e Hj. destruct (Forall2_lookup_l _ _ _ _ _ Hr Hj) as (e' & Hj' & He). rewrite (same_tstamp _ _ He).
    apply list_elem_of_lookup_2, list_elem_of_In, filter_In in Hj' as [_ Ht]. pose proof (er_tstamp_max e'). lia.
Qed.

Notation freader_gen := (actf_freader_to_generator (H := gen) gen_error).
Notation range_gen := (@actf_filter_to_generator _ _ freader_gen er_tstamp).

(** What the filter yields, once the bounds have dates. *)
Lemma sought_drains rd r g r1 ess2 out2 :
  @dated _ _ freader_gen er_tstamp rd r g r1 -> @seeks _ _ freader_gen g (r_begin r1) out2 -> Generator.merge er_tstamp ess2 out2 ->
  Forall2 (Forall2 same_ref) ess2 (map (since_begin (r_begin r1)) ess) ->
  @drains _ _ range_gen (actf_filter_init rd r) (Filter.in_range er_tstamp r1 out2).
Proof.
  intros Hd Hs Hm Hsame. destruct (sought_sorted _ _ Hsame) as [Hsort Hr].
  assert (Hr' : Forall (fun e => r_begin r1 <= er_tstamp e <= INT64_MAX) out2) by (rewrite (merge_perm _ _ _ Hm); by apply Forall_concat).
  rewrite (in_range_until er_tstamp r1 out2 (r_begin r1)) by (done || lia).
  eapply fresh_drains; [exact Hd|done|by eapply merge_sorted|done].
Qed.

Lemma same_nil ess0 : Forall2 (Forall2 same_ref) ess0 ess -> Forall (fun es => es = []) ess0 -> forall out, Generator.merge er_tstamp ess out -> out = [].
Proof.
  intros Hsame Hnil out Hm%merge_perm. assert (E : concat ess = []).
  { clear -Hsame Hnil. induction Hsame as [|es0 es ess0 ess He _ IH]; [done|]. apply Forall_cons in Hnil as [-> Hnil].
    inversion He. by apply IH. }
  rewrite E in Hm. by apply Permutation_nil_r in Hm.
Qed.

Lemma ranged rd r :
  gen_ok jn je ss 0 (fr_gen rd) ->
  (exists r1 ess2 out2, Generator.merge er_tstamp ess2 out2 /\ Forall2 (Forall2 same_ref) ess2 (map (since_begin (r_begin r1)) ess) /\
     @drains _ _ range_gen (actf_filter_init rd r) (Filter.in_range er_tstamp r1 out2) /\
     forall out, Generator.merge er_tstamp ess out -> dated_range r out = Some r1) \/
  (forall out, Generator.merge er_tstamp ess out -> dated_range r out = None).
Proof.
  intros Hg. unfold dated_range. destruct (begin_has_date r && end_has_date r) eqn:Ed.
  - left. destruct (list_choose (fun i s es2 => @seeks _ _ gen s (r_begin r) es2 /\ sought_to (r_begin r) i es2) ss) as (ess2 & Hl & Hall).
    { intros i s Hi. apply idle_seeks. exists s. split; [done|]. destruct files_yield as (ess0 & [Hl0 Hy] & _).
      destruct (lookup_lt_is_Some_2 ess0 i) as [es0 Hes0]; [rewrite Hl0; by eapply lookup_lt_Some|].
      destruct (Hy i s es0 Hi Hes0) as (s0 & Hi' & Hs & _). rewrite Hi in Hi'. by injection Hi' as <-. }
    destruct (freader_seeks (HG := gen) gen_error jn je ss 0 rd (r_begin r) ess2 Hjn Hje Hg) as (out2 & Ho & Hm).
    { apply Forall2_same_length_lookup_2; [done|]. intros i s es2 Hi Hes2. by apply (Hall i s es2). }
    exists r, ess2, out2. assert (Hsame : Forall2 (Forall2 same_ref) ess2 (map (since_begin (r_begin r)) ess)).
    { apply sought_lists; [done|]. intros i es2 Hes2. destruct (lookup_lt_is_Some_2 ss i) as [s Hi]; [rewrite Hl; by eapply lookup_lt_Some|]. by apply (Hall i s es2). }
    split_and!; [done..| |done]. eapply sought_drains; [by apply dated_yes|done|done|done].
  - destruct files_yield as (ess0 & Hy & Hsame0).
    destruct (freader_reseeks (HG := gen) gen_error yields idle jn je ss 0 rd ess0 Hjn Hje files_yield_step Hg Hy) as (evs & rd1 & Hrun & Hfirst & Hseek).
    destruct evs as [|e evs]; [right; intros out Hm; by rewrite (same_nil ess0 Hsame0 Hfirst out Hm)|].
    assert (Hts : forall out, Generator.merge er_tstamp ess out -> exists e' out', out = e' :: out' /\ er_tstamp e' = er_tstamp e).
    { destruct (earliest_related er_tstamp same_ref ess0 ess e same_tstamp Hsame0 Hfirst) as (e1 & He1 & <-). intros out. by apply merge_starts. }
    destruct (shift_range (date_off (er_tstamp e)) r) as [r1|] eqn:Er.
    + left. destruct (Hseek (r_begin r1) (sought_to (r_begin r1)) (idle_seeks (r_begin r1))) as (ess2 & out2 & Ho & Hm & Hl & HW).
      pose proof (sought_lists _ _ Hl HW) as Hsame. exists r1, ess2, out2. split_and!; [done..| |].
      * eapply sought_drains; [eapply dated_no; [exact Ed|exact Hrun|exact Er]|done|done|done].
      * intros out Hm'. destruct (Hts out Hm') as (e' & out' & -> & ->). done.
    + right. intros out Hm. destruct (Hts out Hm) as (e' & out' & -> & ->). done.
Qed.
End Sought.

(** ** What the program writes *)

(** Choosing a range does not depend on what comes before it. *)
Lemma in_range_since r pre out : Forall (fun e => er_tstamp e < r_begin r) pre -> Filter.in_range er_tstamp r (pre ++ out) = Filter.in_range er_tstamp r out.
Proof.
  unfold Filter.in_range. induction 1 as [|e pre He _ IH]; [done|]. cbn [app List.filter]. destruct (Z.leb_spec (r_begin r) (er_tstamp e)); [lia|done].
Qed.
Lemma in_range_le r es : (length (Filter.in_range er_tstamp r es) <= length es)%nat /\ forall P, Forall P es -> Forall P (Filter.in_range er_tstamp r es).
Proof.
  split; [apply List.filter_length_le|]. intros P. rewrite !Forall_forall. intros HP x [Hx _]%list_elem_of_In%filter_In. by apply HP, list_elem_of_In.
Qed.
Lemma same_in_range r es es' : Forall2 same_ref es es' -> Forall2 same_ref (Filter.in_range er_tstamp r es) (Filter.in_range er_tstamp r es').
Proof.
  unfold Filter.in_range. induction 1 as [|e e' es es' He _ IH]; [constructor|]. cbn [List.filter]. rewrite (same_tstamp _ _ He). by case_match; [constructor|].
Qed.

(** A program whose generator drains to these events prints them. *)
Lemma writes_same fuel depth opts paths f rd o o1 es es' :
  parse_flags mktime opts paths = Ok (Go f) -> open_folders new_reader (ctf_paths f) o = (Ok rd, o1) ->
  (if has_filter_range f
   then @drains _ _ (@actf_filter_to_generator _ _ (actf_freader_to_generator (H := gen) gen_error) er_tstamp) (actf_filter_init rd (filter_range f)) es
   else @drains _ _ (actf_freader_to_generator (H := gen) gen_error) rd es) ->
  Forall2 same_ref es es' -> (length es' < fuel)%nat -> Z.of_nat (length es') < 2 ^ 64 -> Forall (fun er => (event_depth er <= depth)%nat) es' ->
  forall t, stdout_of (CD := CD) localtime (quiet f) (printer_flags f) es' = Some t ->
    exists o2, actf_main false false false fuel depth opts paths o = (Ok (ACTF_OK, t, stderr_of (quiet f) es' []), o2).
Proof.
  intros Hflags Hopen Hd Hs Hl H64 Hdep t. pose proof (Forall2_length _ _ _ Hs) as Hlen.
  destruct (same_written (CD := CD) localtime (quiet f) (printer_flags f) _ _ Hs) as [<- <-].
  apply (main_writes (HG := gen) localtime mktime metadata_error opendir open_message strerror jn je gen_error flt_error fuel depth opts paths f rd o o1 es); try done; try lia.
  clear -Hs Hdep. induction Hs as [|e e' es es' He _ IH]; [constructor|]. inversion_clear Hdep. constructor; [by rewrite (same_depth _ _ He)|by apply IH].
Qed.

(** C1: the program as a function of its files.  When the options are accepted, the
    directories open, and the metadata and the bytes of every data file specify a stream
    that ends, the program writes the text of the events of these streams, merged by
    time, one to a line, and returns 0.  With [-b] or [-e] it writes exactly those events of
    the merge of the whole streams that are in the range, although it seeks to the begin
    of the range and never reads the packets before it; a bound without a date is at that
    time of the day of the first event.  For a range the events of each file are in the
    order of time, and its packets tell the truth about their ends.  Which events these
    are is said by [spec_stream] alone, from the metadata and the bytes. *)
Theorem program_prints_streams sfuel fuel depth opts paths f rd o o1 ess :
  parse_flags mktime opts paths = Ok (Go f) -> (sfuel <= sf)%nat ->
  open_folders new_reader (ctf_paths f) o = (Ok rd, o1) ->
  Forall readable (all_decs (fr_dirs rd)) -> Forall2 (specifies f sfuel) (all_decs (fr_dirs rd)) ess ->
  (length (concat ess) < fuel)%nat -> Z.of_nat (length (concat ess)) < 2 ^ 64 ->
  Forall (fun er => (event_depth er <= depth)%nat) (concat ess) ->
  exists out, Generator.merge er_tstamp ess out /\
    forall es t, selected f out = Some es -> stdout_of (CD := CD) localtime (quiet f) (printer_flags f) es = Some t ->
      exists o2, actf_main false false false fuel depth opts paths o = (Ok (ACTF_OK, t, stderr_of (quiet f) es []), o2).
Proof.
  intros Hflags Hsf Hopen Hread Hspec Hfuel H64 Hdep. pose proof (opened_fresh _ _ _ _ Hopen) as Hfresh.
  pose proof (opened_gen metadata_error opendir jn je _ _ _ _ Hopen) as Hg. unfold selected, specifies in *.
  set (ss := all_decs (fr_dirs rd)) in *. destruct (has_filter_range f) eqn:Er.
  - assert (Hspec' : Forall2 (fun s es => exists items, es = map (ref_of (s_data s)) items /\ spec_stream (s_md s) lf sfuel (s_data s) = (items, Ok tt) /\
        truthful (s_md s) lf sfuel (stream_start (s_data s)) = true /\ time_sorted er_tstamp es) ss ess).
    { eapply Forall2_impl; [exact Hspec|]. intros s es (items & ? & ? & Hr). exists items. split_and!; [done..|by apply Hr|by apply Hr]. }
    destruct (ranged sfuel Hsf ss Hfresh Hread ess Hspec' rd (filter_range f) Hg) as [(r1 & ess2 & out2 & Hm2 & Hsame & Hd & Hr1)|Hnone].
    2: { destruct (merge_exists er_tstamp _ ess eq_refl) as (out & Hm). exists out. split; [done|]. by rewrite (Hnone out Hm). }
    destruct (merge_related er_tstamp same_ref same_tstamp _ _ Hm2 _ Hsame) as (out3 & Hm3 & Hout).
    destruct (merge_since er_tstamp (r_begin r1) out3 _ ess eq_refl) as (pre & Hm & Hpre); [|done|].
    { clear -Hspec'. induction Hspec' as [|s es ss ess (_ & _ & _ & _ & Hs) _ IH]; by constructor. }
    exists (pre ++ out3). split; [done|]. rewrite (Hr1 _ Hm). cbn. intros es t [= <-]. destruct (in_range_le r1 (pre ++ out3)) as [Hle Hall].
    pose proof (Permutation_length (merge_perm _ _ _ Hm)).
    apply (writes_same fuel depth opts paths f rd o o1 (Filter.in_range er_tstamp r1 out2)); try done; try lia.
    + by rewrite Er.
    + rewrite in_range_since by done. by apply same_in_range.
    + apply Hall. by rewrite (merge_perm _ _ _ Hm).
  - assert (Hdr : exists ess', Forall2 (@drains _ _ gen) ss ess' /\ Forall2 (Forall2 same_ref) ess' ess).
    { clear -Hfresh Hread Hspec Hpm Hem. induction Hspec as [|s es ss ess (items & -> & Hs & _) _ IH]; [by exists []|].
      apply Forall_cons in Hfresh as [Hf Hfresh]. apply Forall_cons in Hread as [Hr Hread]. destruct (IH Hread Hfresh) as (ess' & ? & ?).
      destruct (stream_drains _ _ _ Hf Hr Hs) as (ers & ? & ?). exists (ers :: ess'). split; by constructor. }
    destruct Hdr as (ess' & Hd & Hsame). destruct (freader_drains (HG := gen) gen_error jn je ss 0 rd ess' Hjn Hje Hg Hd) as (out' & Ho & Hm').
    destruct (merge_related er_tstamp same_ref same_tstamp _ _ Hm' _ Hsame) as (out & Hm & Hout).
    exists out. split; [done|]. intros es t [= <-]. pose proof (Permutation_length (merge_perm _ _ _ Hm)).
    apply (writes_same fuel depth opts paths f rd o o1 out'); try done; try lia; [by rewrite Er|by rewrite (merge_perm _ _ _ Hm)].
Qed.
End Main.

(** * A run *)

Import PrintSpec.AsciiConv.
#[local] Existing Instance sample_streams.
#[local] Existing Instance heap_ok.

Definition readableb (s : stream) : bool :=
  forallb (fun b => (0 <=? b) && (b <? 256)) (s_data s) && (8 * Z.of_nat (length (s_data s)) <=? 2 ^ 62) && md_no_zerob (s_md s).
Lemma readableb_ok l : forallb readableb l = true -> Forall readable l.
Proof.
  apply forallb_Forall. intros s _. unfold readableb. rewrite !andb_true_iff. intros [[Hb Hl] Hz].
  split_and!; [by apply bytes_ok|by apply Z.leb_le|by apply md_no_zerob_ok].
Qed.

(** What the files of the directory specify. *)
Definition file_events (s : stream) : list event_ref := map (ref_of (s_data s)) (fst (spec_stream (s_md s) 4 20 (s_data s))).
Fixpoint sortedb (ts : list Z) : bool :=
  match ts with [] => true | t :: ts' => forallb (fun x => t <=? x) ts' && sortedb ts' end.

Lemma sortedb_ok (es : list event_ref) : sortedb (map er_tstamp es) = true -> time_sorted er_tstamp es.
Proof.
  induction es as [|e es IH]; cbn [map sortedb]; [constructor|]. intros [Ha Hb]%andb_true_iff. constructor; [by apply IH|].
  rewrite forallb_forall in Ha. apply Forall_forall. intros x Hx. apply Z.leb_le, Ha, in_map, list_elem_of_In, Hx.
Qed.

Lemma files_specify f l :
  forallb (fun s => match spec_stream (s_md s) 4 20 (s_data s) with
    | (_, Ok _) => truthful (s_md s) 4 20 (stream_start (s_data s)) && sortedb (map er_tstamp (file_events s))
    | _ => false
    end) l = true ->
  Forall2 (specifies 4 f 20) l (map file_events l).
Proof.
  induction l as [|s l IH]; intros Hb; [constructor|]. apply andb_true_iff in Hb as [Hs Hb]. constructor; [|by apply IH]. clear IH Hb.
  unfold specifies, file_events in *. destruct (spec_stream _ _ _ _) as [items [[]|rc|]]; [|done..]. apply andb_true_iff in Hs as [Ht Hs].
  exists items. split_and!; [done..|]. intros _. split; [done|by apply sortedb_ok].
Qed.

(** The range of time from 6 to 9 nanoseconds, and the same with a begin that is a time of the
    day. *)
Definition range_f (dated : bool) : flags :=
  mk_flags false ["trace"%string] (Z.lor ACTF_PRINT_TSTAMP_SEC ACTF_PRINT_ALL) (mk_range 6 dated 9 true) true.

(** All events of the two files, and those of a range of time. *)
Example program_prints_streams_witness :
  let writes f opts := exists out, Generator.merge er_tstamp (map file_events dir_streams) out /\
    forall es t, selected f out = Some es -> stdout_of gmtime (quiet f) (printer_flags f) es = Some t ->
      exists o2, sample_main opts ["trace"%string] = (Ok (ACTF_OK, t, stderr_of (quiet f) es []), o2) in
  map (fun s => map er_tstamp (file_events s)) dir_streams = [[5; 9; 260]; [6; 8]] /\
  writes sample_f [("s"%char, [])] /\
  writes (range_f true) [("s"%char, []); ("b"%char, lit "0.000000006"); ("e"%char, lit "0.000000009")] /\
  writes (range_f false) [("s"%char, []); ("b"%char, lit "00:00:00.000000006"); ("e"%char, lit "0.000000009")].
Proof.
  assert (Hrun : forall opts f, parse_flags (fun t => Some (tm_epoch t)) opts ["trace"%string] = Ok (Go f) ->
    ctf_paths f = ["trace"%string] -> Forall2 (specifies 4 f 20) dir_streams (map file_events dir_streams) ->
    (length (concat (map file_events dir_streams)) < 20)%nat -> Forall (fun er => (event_depth er <= 4)%nat) (concat (map file_events dir_streams)) ->
    exists out, Generator.merge er_tstamp (map file_events dir_streams) out /\
      forall es t, selected f out = Some es -> stdout_of gmtime (quiet f) (printer_flags f) es = Some t ->
        exists o2, sample_main opts ["trace"%string] = (Ok (ACTF_OK, t, stderr_of (quiet f) es []), o2)).
  { intros opts f Hflags Hpaths Hspec Hlen Hdep.
    apply (program_prints_streams gmtime (fun t => Some (tm_epoch t)) (fun _ => Some []) sample_opendir (lit "opendir") (lit "errno") sample_nodes sample_evs
      (repeat_length _) (repeat_length _) malloc_yes malloc_yes (fun _ _ => eq_refl) (fun _ _ => eq_refl) 4 20
      no_message (fun _ => Some []) 20 20 4 opts ["trace"%string] f (opened 0) (mk_os 0 0 0) (mk_os 286 0 2) (map file_events dir_streams)); try done; [rewrite Hpaths; vm_compute; reflexivity|apply readableb_ok; vm_compute; reflexivity]. }
  assert (Hdep : forall l, forallb (fun d => (d <=? 4)%nat) (map event_depth l) = true -> Forall (fun er => (event_depth er <= 4)%nat) l).
  { intros l. rewrite forallb_forall. intros H. apply Forall_forall. intros x Hx. apply Nat.leb_le, H, in_map, list_elem_of_In, Hx. }
  assert (Hsp : forall f, Forall2 (specifies 4 f 20) dir_streams (map file_events dir_streams)) by (intros f; apply files_specify; vm_compute; reflexivity).
  assert (Hdp : Forall (fun er => (event_depth er <= 4)%nat) (concat (map file_events dir_streams))) by (apply Hdep; vm_compute; reflexivity).
  split_and!; [vm_compute; reflexivity| | |]; (apply Hrun; [vm_compute; reflexivity|done|apply Hsp|vm_compute; lia|exact Hdp]).
Defined.
