(* ===== verification/Crust.v ===== *)
(** The containers of crust that the rest of the library sees as lists: growable
    arrays, [vec.h] and [gvec.h], linked lists, [slist.h], and the arrays of events of
    [event_generator.c].

    A block of memory is a list of elements; an access outside of it is undefined.
    The theorems relate each container to the list it stands for. *)
From S2P Require Import Prelude Common HashMap.
From stdpp Require Import list gmap.
Open Scope Z_scope.

(** * Vectors *)

Section Vec.
(** [TYPE], its size in bytes, and what new memory holds. *)
Context {T : Type} (sz : Z) (junk : T).

(** [data] is the block that was allocated. *)
Record vec := mk_vec { v_data : list T; v_len : Z; v_cap : Z }.

(** A block of [bytes] bytes, as elements. *)
Definition block (bytes : Z) : list T := replicate (Z.to_nat (bytes / sz)) junk.

(** [realloc]: the elements that fit are kept. *)
Definition resized (bytes : Z) (data : list T) : list T :=
  let n := Z.to_nat (bytes / sz) in take n data ++ replicate (n - length data) junk.

(** A zeroed struct. *)
Definition vec_zero : vec := mk_vec [] 0 0.

(** A failed allocation is not reported: the block is [NULL], without elements. *)
Definition vec_init (oom : bool) (cap : Z) : vec := mk_vec (if oom then [] else block (u64 (cap * sz))) 0 cap.

(** Reading and writing through [vec_idx]. *)
Definition vec_idx (v : vec) (i : Z) : option T := if (i <? 0) || (Z.of_nat (length (v_data v)) <=? i) then None else v_data v !! Z.to_nat i.
Definition vec_write (v : vec) (i : Z) (x : T) : outcome vec :=
  if (0 <=? i) && (i <? Z.of_nat (length (v_data v))) then Ok (mk_vec (<[Z.to_nat i := x]> (v_data v)) (v_len v) (v_cap v)) else Undef.

Definition INITIAL_VEC_SIZE : Z := 4.

Definition vec_resize (oom : bool) (v : vec) : outcome vec :=
  let new_cap := if v_cap v =? 0 then INITIAL_VEC_SIZE else u64 (v_cap v * 2) in
  if oom then Err (- ENOMEM) else Ok (mk_vec (resized (u64 (sz * new_cap)) (v_data v)) (v_len v) new_cap).

Definition vec_push (oom : bool) (v : vec) (val : T) : outcome vec :=
  let grown := if v_cap v <=? v_len v then vec_resize oom v else Ok v in
  match grown with
  | Ok v =>
      match vec_write v (v_len v) val with
      | Ok v' => Ok (mk_vec (v_data v') (u64 (v_len v + 1)) (v_cap v))
      | r => r
      end
  | r => r
  end.

(** [memmove] of the elements after [i], of [len - i - 1] elements. *)
Definition vec_pop_idx (v : vec) (i : Z) : outcome (T * vec) :=
  let n := v_len v - i - 1 in
  match vec_idx v i with
  | Some val =>
      if (0 <=? n) && (v_len v <=? Z.of_nat (length (v_data v))) then
        let moved := take (Z.to_nat n) (drop (Z.to_nat (i + 1)) (v_data v)) in
        Ok (val, mk_vec (take (Z.to_nat i) (v_data v) ++ moved ++ drop (Z.to_nat (i + n)) (v_data v)) (u64 (v_len v - 1)) (v_cap v))
      else Undef
  | None => Undef
  end.

Definition vec_pop (v : vec) : outcome (T * vec) := vec_pop_idx v (u64 (v_len v - 1)).
Definition vec_clear (v : vec) : vec := mk_vec (v_data v) 0 (v_cap v).
Definition vec_is_empty (v : vec) : bool := v_len v =? 0.

(** ** What a vector stands for *)

(** The vector holds the list [l]: its first elements; the block has the capacity, and
    can double without a wrap-around of the sizes. *)
Record vec_of (v : vec) (l : list T) : Prop := {
  vo_data : take (length l) (v_data v) = l;
  vo_len : v_len v = Z.of_nat (length l);
  vo_cap : Z.of_nat (length (v_data v)) = v_cap v;
  vo_fits : v_len v <= v_cap v;
  vo_small : sz * (2 * v_cap v + INITIAL_VEC_SIZE) < 2 ^ 64
}.

Lemma vec_zero_of : 0 < sz < 2 ^ 60 -> vec_of vec_zero [].
Proof. intros Hs. split; cbn; try done. unfold INITIAL_VEC_SIZE. lia. Qed.

(** Growing keeps the list, and makes room. *)
Lemma vec_resize_of oom v l : 0 < sz -> vec_of v l ->
  match vec_resize oom v with
  | Ok v' => take (length l) (v_data v') = l /\ v_len v' = v_len v /\ Z.of_nat (length (v_data v')) = v_cap v' /\
      v_cap v' = (if v_cap v =? 0 then INITIAL_VEC_SIZE else 2 * v_cap v)
  | Err rc => rc = - ENOMEM /\ oom = true
  | Undef => False
  end.
Proof.
  intros Hsz [Hd Hl Hc Hf Hs]. unfold vec_resize. destruct oom; [done|]. cbn [v_data v_len v_cap].
  set (nc := if v_cap v =? 0 then INITIAL_VEC_SIZE else u64 (v_cap v * 2)). unfold INITIAL_VEC_SIZE in *.
  assert (Hnc : nc = (if v_cap v =? 0 then 4 else 2 * v_cap v)) by (unfold nc; destruct (v_cap v =? 0); [done|]; rewrite u64_small by (unfold is_u64; nia); lia).
  assert (Hnc0 : v_cap v <= nc /\ 0 <= sz * nc < 2 ^ 64) by (rewrite Hnc; destruct (Z.eqb_spec (v_cap v) 0); nia).
  unfold resized. rewrite u64_small by (unfold is_u64; lia). rewrite Z.mul_comm, Z.div_mul by lia.
  assert (Hle : (length (v_data v) <= Z.to_nat nc)%nat) by lia. rewrite (take_ge (v_data v)) by done. split_and!.
  - rewrite take_app_le; [done|]. rewrite <- Hd, length_take. lia.
  - done.
  - rewrite length_app, length_replicate. lia.
  - by rewrite Hnc.
Qed.

(** A push appends, or fails for want of memory and leaves the vector alone. *)
Lemma vec_push_of oom v l x : 0 < sz -> vec_of v l -> sz * (4 * v_cap v + 12) < 2 ^ 64 ->
  match vec_push oom v x with
  | Ok v' => vec_of v' (l ++ [x])
  | Err rc => rc = - ENOMEM /\ oom = true /\ v_len v = v_cap v
  | Undef => False
  end.
Proof.
  intros Hsz Hv Hbig. pose proof Hv as [Hd Hl Hc Hf Hs]. unfold vec_push, INITIAL_VEC_SIZE in *.
  assert (Hgo : forall v1, take (length l) (v_data v1) = l -> v_len v1 = v_len v -> Z.of_nat (length (v_data v1)) = v_cap v1 -> v_len v < v_cap v1 ->
    sz * (2 * v_cap v1 + 4) < 2 ^ 64 ->
    match match vec_write v1 (v_len v1) x with Ok v' => Ok (mk_vec (v_data v') (u64 (v_len v1 + 1)) (v_cap v1)) | r => r end with
    | Ok v' => vec_of v' (l ++ [x]) | Err rc => rc = - ENOMEM /\ oom = true /\ v_len v = v_cap v | Undef => False end).
  { intros v1 H1 H2 H3 H4 H5. unfold vec_write. rewrite H2, H3, Hl. rewrite (proj2 (Z.leb_le 0 _)), (proj2 (Z.ltb_lt _ _)) by lia. cbn [andb].
    rewrite Nat2Z.id. cbn [v_data v_cap]. rewrite u64_small by (unfold is_u64; nia).
    split; cbn [v_data v_len v_cap]; rewrite ?length_app, ?length_insert; cbn [length]; try lia; [|exact H5].
    rewrite Nat.add_1_r, (take_S_r _ _ x), take_insert_ge, H1 by (done || rewrite list_lookup_insert_eq by lia; done). done. }
  destruct (Z.leb_spec (v_cap v) (v_len v)) as [Hfull|Hroom]; [|by apply Hgo].
  pose proof (vec_resize_of oom v l Hsz Hv) as Hr. unfold INITIAL_VEC_SIZE in Hr. destruct (vec_resize oom v) as [v1|rc|]; [|naive_solver lia|done].
  destruct Hr as (H1 & H2 & H3 & H4). apply Hgo; try done; rewrite ?H4; destruct (Z.eqb_spec (v_cap v) 0); lia.
Qed.

(** Removing the element [i] gives it, and closes the gap. *)
Lemma vec_pop_idx_of v l i x : 0 < sz -> vec_of v l -> 0 <= i -> l !! Z.to_nat i = Some x ->
  exists v', vec_pop_idx v i = Ok (x, v') /\ vec_of v' (delete (Z.to_nat i) l).
Proof.
  intros Hsz [Hd Hl Hc Hf Hs] Hi Hx. pose proof (lookup_lt_Some _ _ _ Hx) as Hlt. unfold vec_pop_idx, vec_idx.
  rewrite (proj2 (Z.ltb_ge i 0)), (proj2 (Z.leb_gt _ _)) by lia. cbn [orb]. rewrite <- Hd in Hx. rewrite lookup_take_lt in Hx by lia. rewrite Hx.
  rewrite (proj2 (Z.leb_le 0 _)), (proj2 (Z.leb_le _ _)) by lia. cbn [andb]. eexists. split; [reflexivity|].
  pose proof (length_delete l (Z.to_nat i) ltac:(by apply lookup_lt_is_Some)) as Hdl.
  set (d := v_data v) in *. assert (Hld : (length l <= length d)%nat) by lia.
  assert (Hdel : delete (Z.to_nat i) l = take (Z.to_nat i) d ++ take (Z.to_nat (v_len v - i - 1)) (drop (Z.to_nat (i + 1)) d)).
  { rewrite delete_take_drop. f_equal.
    - rewrite <- Hd at 1. rewrite take_take. f_equal. lia.
    - rewrite <- Hd at 1. rewrite take_drop_commute. f_equal; [lia|]. f_equal. lia. }
  split; cbn [v_data v_len v_cap].
  - rewrite app_assoc, <- Hdel. by rewrite take_app_length.
  - rewrite u64_small by (unfold is_u64, INITIAL_VEC_SIZE in *; nia). lia.
  - rewrite !length_app, !length_take, !length_drop. lia.
  - rewrite u64_small by (unfold is_u64, INITIAL_VEC_SIZE in *; nia). lia.
  - exact Hs.
Qed.
End Vec.

(** ** The vector without types *)

(** [struct gvec]; resizing neither checks the allocation nor grows from nothing: a
    vector of capacity 0 stays without room, and the next write is outside. *)
Section Gvec.
Context {T : Type} (junk : T).

Record gvec := mk_gvec { g_data : list T; g_len : Z; g_cap : Z; ele_size : Z }.

Definition gvec_init (oom : bool) (cap ele_size : Z) : gvec :=
  mk_gvec (if oom then [] else block ele_size junk (u64 (cap * ele_size))) 0 cap ele_size.

Definition gvec_resize (oom : bool) (v : gvec) : gvec :=
  let cap := u64 (g_cap v * 2) in
  mk_gvec (if oom then [] else resized (ele_size v) junk (u64 (ele_size v * cap)) (g_data v)) (g_len v) cap (ele_size v).

Definition gvec_push (oom : bool) (v : gvec) (val : T) : outcome gvec :=
  let v := if g_cap v <=? g_len v then gvec_resize oom v else v in
  if (0 <=? g_len v) && (g_len v <? Z.of_nat (length (g_data v))) then
    Ok (mk_gvec (<[Z.to_nat (g_len v) := val]> (g_data v)) (u64 (g_len v + 1)) (g_cap v) (ele_size v))
  else Undef.
End Gvec.

(** * Linked lists *)

Section Slist.
(** Nodes are addresses other than 0, the null pointer; memory gives the [next] of
    each. *)
Record slist := mk_slist { head : Z; s_len : Z; next : gmap Z Z }.

Definition slist_push (l : slist) (n : Z) : slist := mk_slist n (u64 (s_len l + 1)) (<[n := head l]> (next l)).

Definition slist_pop (l : slist) : outcome (Z * slist) :=
  if head l =? 0 then Ok (0, l)
  else
    match next l !! head l with
    | Some n => Ok (head l, mk_slist n (u64 (s_len l - 1)) (<[head l := 0]> (next l)))
    | None => Undef
    end.

Definition slist_peek (l : slist) : Z := head l.
Definition slist_isempty (l : slist) : bool := head l =? 0.
Definition slist_len (l : slist) : Z := s_len l.

(** The nodes from [h] on. *)
Fixpoint chain (m : gmap Z Z) (h : Z) (ns : list Z) : Prop :=
  match ns with [] => h = 0 | n :: ns => h = n /\ n <> 0 /\ exists h', m !! n = Some h' /\ chain m h' ns end.

Record slist_of (l : slist) (ns : list Z) : Prop := {
  so_chain : chain (next l) (head l) ns; so_nodup : NoDup ns; so_len : s_len l = Z.of_nat (length ns); so_fits : s_len l < 2 ^ 64
}.

Lemma chain_insert m h ns n x : n ∉ ns -> chain m h ns -> chain (<[n := x]> m) h ns.
Proof.
  revert h. induction ns as [|y ns IH]; intros h Hn; [done|]. apply not_elem_of_cons in Hn as [Hne Hn].
  intros (-> & H0 & h' & Hm & Hc). split; [done|]. split; [done|]. exists h'. rewrite lookup_insert_ne by done. split; [done|by apply IH].
Qed.

Lemma slist_push_of l ns n : slist_of l ns -> n <> 0 -> n ∉ ns -> s_len l + 1 < 2 ^ 64 -> slist_of (slist_push l n) (n :: ns).
Proof.
  intros [Hc Hd Hl Hf] H0 Hn Hs. split; cbn [slist_push head next s_len].
  - split; [done|]. split; [done|]. exists (head l). rewrite lookup_insert_eq. split; [done|by apply chain_insert].
  - by constructor.
  - rewrite u64_small by (unfold is_u64; lia). cbn [length]. lia.
  - rewrite u64_small by (unfold is_u64; lia). lia.
Qed.

(** A pop gives the node that was pushed last, and [NULL] when there is none. *)
Lemma slist_pop_of l ns : slist_of l ns ->
  match ns with
  | [] => slist_pop l = Ok (0, l)
  | n :: ns => exists l', slist_pop l = Ok (n, l') /\ slist_of l' ns /\ next l' !! n = Some 0
  end.
Proof.
  intros [Hc Hd Hl Hf]. unfold slist_pop. destruct ns as [|n ns]; cbn [chain] in Hc; [by rewrite Hc|].
  destruct Hc as (-> & H0 & h' & Hm & Hc). rewrite (proj2 (Z.eqb_neq n 0)), Hm by done. apply NoDup_cons in Hd as [Hn Hd]. cbn [length] in Hl.
  eexists. split; [reflexivity|]. split; [|by apply lookup_insert_eq]. split; cbn [head next s_len].
  - by apply chain_insert.
  - done.
  - rewrite u64_small by (unfold is_u64; lia). lia.
  - rewrite u64_small by (unfold is_u64; lia). lia.
Qed.
End Slist.

(** * Hashes *)

(** The hashes of [map_util.h] for maps that the library does not have itself: numbers
    mixed, and strings, whose characters are of type [char], which is signed. *)
Definition xorshift33 (v : Z) : Z := Z.lxor v (Z.shiftr v 33).
Definition hash_murmur64 (val : Z) : Z :=
  let val := xorshift33 val in
  let val := u64 (val * 0xff51afd7ed558ccd) in
  let val := xorshift33 val in
  let val := u64 (val * 0xc4ceb9fe1a85ec53) in
  xorshift33 val.

Fixpoint fnv_loop (s : list Z) (hash : Z) : option Z :=
  match s with
  | [] => None
  | c :: s => if c =? 0 then Some hash else fnv_loop s (u64 (Z.lxor hash (u64 (wrap_signed 8 c)) * 1099511628211))
  end.
(** Reading past the end of memory, when no character is null, is undefined. *)
Definition hash_fnv (s : list Z) : option Z := fnv_loop s 14695981039346656037.

Lemma xorshift33_involutive v : is_u64 v -> xorshift33 (xorshift33 v) = v.
Proof.
  intros Hv. unfold xorshift33. apply Z.bits_inj'. intros n Hn. rewrite !Z.lxor_spec, !Z.shiftr_spec, Z.lxor_spec, Z.shiftr_spec by lia.
  assert (Hz : Z.testbit v (n + 33 + 33) = false) by (apply Z.bits_above_log2; unfold is_u64 in Hv; [lia|]; destruct (Z.eq_dec v 0) as [->|]; [cbn; lia|];
    pose proof (proj1 (Z.log2_lt_pow2 v 64 ltac:(lia)) ltac:(lia)); lia).
  rewrite Hz. by destruct (Z.testbit v n), (Z.testbit v (n + 33)).
Qed.

Lemma xorshift33_u64 v : is_u64 v -> is_u64 (xorshift33 v).
Proof.
  unfold is_u64, xorshift33. intros Hv. assert (H0 : 0 <= Z.shiftr v 33) by (apply Z.shiftr_nonneg; lia).
  assert (Hs : Z.shiftr v 33 < 2 ^ 64) by (rewrite Z.shiftr_div_pow2 by lia; apply Z.div_lt_upper_bound; lia).
  split; [apply Z.lxor_nonneg; lia|]. destruct (Z.eq_dec (Z.lxor v (Z.shiftr v 33)) 0) as [->|Hne]; [lia|].
  apply Z.log2_lt_pow2; [pose proof (proj2 (Z.lxor_nonneg v (Z.shiftr v 33))); lia|].
  eapply Z.le_lt_trans; [by apply Z.log2_lxor; lia|]. apply Z.max_lub_lt.
  - destruct (Z.eq_dec v 0) as [->|]; [cbn; lia|]. apply Z.log2_lt_pow2; lia.
  - destruct (Z.eq_dec (Z.shiftr v 33) 0) as [->|]; [cbn; lia|]. apply Z.log2_lt_pow2; lia.
Qed.

(** Multiplication by a number that has an inverse. *)
Lemma mul_u64_inverse a b v : u64 (a * b) = 1 -> is_u64 v -> u64 (u64 (v * a) * b) = v.
Proof.
  unfold u64, is_u64. intros Hab Hv. rewrite Z.mul_mod_idemp_l, <- Z.mul_assoc, <- Z.mul_mod_idemp_r, Hab by lia. by rewrite Z.mul_1_r, Z.mod_small.
Qed.
Lemma u64_is_u64 z : is_u64 (u64 z).
Proof. unfold u64, is_u64. apply Z.mod_pos_bound. lia. Qed.

(** The hash of numbers can be undone: different keys have different hashes. *)
Lemma hash_murmur64_injective v w : is_u64 v -> is_u64 w -> hash_murmur64 v = hash_murmur64 w -> v = w.
Proof.
  set (undo h := xorshift33 (u64 (xorshift33 (u64 (xorshift33 h * 0x9cb4b2f8129337db)) * 0x4f74430c22a54005))).
  assert (I1 : u64 (0xff51afd7ed558ccd * 0x4f74430c22a54005) = 1) by (vm_compute; reflexivity).
  assert (I2 : u64 (0xc4ceb9fe1a85ec53 * 0x9cb4b2f8129337db) = 1) by (vm_compute; reflexivity).
  assert (Hundo : forall v, is_u64 v -> undo (hash_murmur64 v) = v).
  { intros x Hx. unfold undo, hash_murmur64. rewrite (xorshift33_involutive (u64 _)) by apply u64_is_u64.
    rewrite (mul_u64_inverse _ _ _ I2) by apply xorshift33_u64, u64_is_u64. rewrite xorshift33_involutive by apply u64_is_u64.
    rewrite (mul_u64_inverse _ _ _ I1) by by apply xorshift33_u64. by apply xorshift33_involutive. }
  intros Hv Hw Heq. by rewrite <- (Hundo v Hv), <- (Hundo w Hw), Heq.
Qed.

(** The empty string, and the published value for the string of one character [a]. *)
Example fnv_values : hash_fnv [0] = Some 0xcbf29ce484222325 /\ hash_fnv [97; 0] = Some 0xaf63dc4c8601ec8c.
Proof. vm_compute. done. Qed.

(** * Arrays of events *)

(** The array of pointers: each is an index into the block of events. *)
Definition actf_event_arr_alloc (oom_inner oom_evs : bool) (evs_cap : nat) : option (list nat) :=
  if oom_inner then None else if oom_evs then None else Some (seq 0 evs_cap).

(** Each pointer has an event of its own inside the block. *)
Lemma event_arr_distinct a b n evs : actf_event_arr_alloc a b n = Some evs ->
  length evs = n /\ NoDup evs /\ Forall (fun i => (i < n)%nat) evs /\ evs !! 0%nat = (if (n =? 0)%nat then None else Some 0%nat).
Proof.
  unfold actf_event_arr_alloc. destruct a, b; try done. intros [= <-]. split_and!; [apply length_seq|apply NoDup_seq| |by destruct n].
  apply Forall_seq. lia.
Qed.

(** Pushing five integers, with one growth that fails in between. *)
Example vec_runs :
  (match vec_push 4 0 false (vec_zero (T := Z)) 7 with
   | Ok v => v_data v = [7; 0; 0; 0] /\ v_cap v = 4 /\ vec_push 4 0 true (mk_vec (v_data v) 4 4) 8 = Err (- ENOMEM) /\
       match vec_push 4 0 false (mk_vec [7; 8; 9; 1] 4 4) 2 with
       | Ok v => v_cap v = 8 /\ fst <$> (match vec_pop_idx v 1 with Ok r => Some r | _ => None end) = Some 8 /\ v_len v = 5
       | _ => False
       end
   | _ => False
   end) /\
  vec_pop (vec_zero (T := Z)) = Undef /\ vec_push 4 0 false (vec_init 4 0 true 2) 5 = Undef /\
  gvec_push 0 false (gvec_init 0 false 0 4) 5 = Undef.
Proof. vm_compute. done. Qed.
