(* ===== verification/DecodePrint.v ===== *)
(** What the decoder decodes can be printed: the text of a field that the specification
    of decoding gives is defined, for every class that can be shown.

    [printable] says which classes these are: strings in UTF-8, mappings that the
    interval tree can hold, no least integer in a base other than ten. *)
From S2P Require Import Prelude Common Libc Error Breader Rng Clock FldCls HashMap Metadata MetadataAccess Json JsonUtils Mappings MappingsTree.
From S2P Require Import Generator Fld Scalar Arena Decoder DecoderInv DecoderSpec FieldSpec DecoderRefine Samples Print PrintSpec.
From stdpp Require Import strings list.
Open Scope Z_scope.

Section Printable.
Context `{Heap, QSortLaws} {CD : Type} `{IC : Iconv CD} `{!IconvLaws CD}.
Hypothesis malloc_ok_all : forall n, malloc_ok n = true.

(** * Names *)

(** There are no names, or the tree was built of ranges that can be ordered, and none
    below zero. *)
Definition names_ok (is_signed : bool) (b : int_fld_cls) : Prop :=
  m_names (maps b) = [] \/ exists raw, tree_of raw (maps b) /\ (match raw with SMAPS _ => true | UMAPS _ => false end) = is_signed /\
    raw_good raw /\ forall v, not_negative raw v.

Lemma mappings_text_defined sg b v : names_ok sg b -> is_Some (mappings_text sg (Some (maps b)) v).
Proof.
  unfold mappings_text, actf_mappings_len. intros [->|(raw & (n & n' & Hr) & Hsg & Hg & Hn)]; [by eexists|]. destruct (tree_names malloc_ok_all _ n Hg) as (m & Hm & Hs & Hf).
  rewrite Hr in Hm. injection Hm as -> _. destruct (c_true _); [|by eexists]. destruct (Hf v (Hn v)) as (names & He & _).
  assert (Hp : (if sg then smappings_fprint_names else umappings_fprint_names) m v = Ok (joined 0 names, Z.of_nat (length names))).
  { unfold smappings_fprint_names, umappings_fprint_names, mappings_fprint_names. unfold tree_find in He. rewrite Hs in He.
    subst sg. destruct raw; by rewrite (fprint_enum _ _ _ _ _ He). }
  rewrite Hp. by eexists.
Qed.

(** The iteration over flags comes to its end: the index grows. *)
Lemma flags_find_loop_le ms maps v i name j : flags_find_loop ms maps v i = Some (name, j) -> j <= i + Z.of_nat (length maps).
Proof.
  revert maps i. induction ms as [|m ms IH]; intros [|[nm rs] maps] i; cbn; try done.
  destruct (c_true _); [intros [= -> <-]; lia|]. intros Hj%IH. lia.
Qed.

Lemma flags_loop_defined f v fuel : forall it n, 0 <= default 0 it <= Z.of_nat (length (flag_maps f)) ->
  Z.of_nat (length (flag_maps f)) < default 0 it + Z.of_nat fuel ->
  exists r, fprint_names_loop (fun it => Ok (actf_flags_find f v (default 0 it))) fuel it n = Ok r.
Proof.
  induction fuel as [|fuel IH]; intros it n Hit Hf; [lia|]. cbn [fprint_names_loop].
  destruct (actf_flags_find f v (default 0 it)) as [[name j]|] eqn:E; [|by eexists]. unfold actf_flags_find in E.
  pose proof (flags_find_loop_ge _ _ _ _ _ _ E). apply flags_find_loop_le in E. rewrite length_drop in E.
  destruct (IH (Some j) (n + 1)) as ([t k] & ->); cbn [default]; [unfold default, option.from_option, id; lia|unfold default, option.from_option, id; lia|]. by eexists.
Qed.

Lemma flags_text_defined f v : is_Some (names_text (actf_flags_fprint_names f v)).
Proof.
  unfold actf_flags_fprint_names. destruct (flags_loop_defined f v (S (length (flag_maps f))) None 0) as ([t k] & ->); cbn; [lia|lia|]. by eexists.
Qed.

(** * Classes that can be shown *)

Definition base_ok (b : int_fld_cls) (narrow : Prop) : Prop := pref_display_base b = ACTF_BASE_DECIMAL \/ narrow.

Fixpoint printable (fc : actf_fld_cls) : Prop :=
  match fc with
  | FC_FXD_LEN_UINT b _ _ | FC_VAR_LEN_UINT b _ => names_ok false b
  | FC_FXD_LEN_SINT b a _ => names_ok true b /\ base_ok b (len a < 64)
  | FC_VAR_LEN_SINT b _ => names_ok true b /\ base_ok b False
  | FC_NULL_TERM_STR enc | FC_STATIC_LEN_STR enc _ | FC_DYN_LEN_STR enc _ => enc = ACTF_ENCODING_UTF8
  | FC_STRUCT ms _ _ => (fix all (ms : list (string * actf_fld_cls)) : Prop := match ms with [] => True | (_, c) :: ms' => printable c /\ all ms' end) ms
  | FC_STATIC_LEN_ARR ele _ _ | FC_DYN_LEN_ARR ele _ _ => printable ele
  | FC_OPTIONAL c _ _ => printable c
  | FC_VARIANT opts _ =>
      (fix all (opts : list (option string * actf_fld_cls * actf_rng_set)) : Prop :=
         match opts with [] => True | (_, c, _) :: opts' => printable c /\ all opts' end) opts
  | _ => True
  end.

(** * What decoding guarantees *)

Section Data.
(** The data stream, of less than 2 GiB: the length of a string is printed as an
    [int]. *)
Context (data : list Z).
Hypothesis data_small : Z.of_nat (length data) < 2 ^ 31.

(** From a state that satisfies [P], what is returned satisfies [Q], together with the
    state after it. *)
Definition gives_ok {S A} (P : S -> Prop) (c : st S A) (Q : A -> S -> Prop) : Prop :=
  forall s, P s -> match c s with (Ok a, s') => Q a s' | _ => True end.

Definition on_data (ac : acur) : Prop := ac_mem ac = data /\ 0 <= ac_pos ac.
Definition at_byte (ac : acur) : Prop := on_data ac /\ ac_pos ac mod 8 = 0.

Section Rules.
Context {S : Type}.
Implicit Types P : S -> Prop.

Lemma ok_bind {A B} P (c : st S A) (k : A -> st S B) Q R :
  gives_ok P c Q -> (forall a, gives_ok (Q a) (k a) R) -> gives_ok P (c ≫= k) R.
Proof.
  intros Hc Hk s Hs. specialize (Hc s Hs). unfold mbind, st_bind. destruct (c s) as [[a|rc|] s']; try done. by apply Hk.
Qed.
Lemma ok_ret {A} (a : A) P (Q : A -> S -> Prop) : (forall s, P s -> Q a s) -> gives_ok P (mret a) Q.
Proof. intros HQ s Hs. by apply HQ. Qed.
Lemma ok_fail {A} rc P (Q : A -> S -> Prop) : gives_ok P (st_fail rc) Q.
Proof. by intros s _. Qed.
Lemma ok_undef {A} P (Q : A -> S -> Prop) : gives_ok P st_undef Q.
Proof. by intros s _. Qed.
(** The state does not matter for what is returned. *)
Lemma ok_frame {A} P (c : st S A) (F : Prop) Q : (F -> gives_ok P c Q) -> gives_ok (fun s => P s /\ F) c Q.
Proof. intros Hok s [Hs HF]. by apply Hok. Qed.
End Rules.

Lemma ok_align al : 0 < al -> gives_ok on_data (s_align al) (fun _ => on_data).
Proof.
  intros Hal ac [Hm Hp]. unfold s_align. destruct (_ >? _); [done|]. split; [done|]. cbn [ac_pos ac_move].
  unfold ac_bits, round_up. apply Z.min_glb; [|lia]. apply Z.mul_nonneg_nonneg; [|lia]. apply Z.div_pos; lia.
Qed.

Lemma ok_align8 : gives_ok on_data (s_align 8) (fun _ => at_byte).
Proof.
  intros ac Hac. pose proof (ok_align 8 ltac:(lia) ac Hac) as Ho. unfold s_align in *. destruct (_ >? _); [done|]. split; [exact Ho|].
  cbn [ac_pos ac_move]. unfold ac_bits, round_up. zlia.
Qed.
(** ** The scalar readers *)

Lemma ok_fxd a : bit_arr_wf a -> gives_ok on_data (s_fxd a) (fun _ => on_data).
Proof.
  intros [Hlen (k & Hk & Hal)]. unfold s_fxd. apply (ok_bind _ _ _ (fun _ => on_data)).
  { intros ac Hac. unfold s_switch. by destruct (_ || _). }
  intros []. eapply ok_bind; [apply ok_align; rewrite Hal; lia|]. intros _ ac Hac. st_unfold. destruct Hac as [Hm Hp].
  destruct (_ <? _); [done|]. destruct (_ && _ && _); [done|]. destruct (_ <? _); [done|]. split; [exact Hm|]. cbn [ac_pos]. lia.
Qed.

Lemma ok_var_len : gives_ok on_data s_var_len (fun _ => on_data).
Proof.
  unfold s_var_len. apply (ok_bind _ _ _ (fun _ => on_data)). { intros ac Hac. unfold s_switch. by destruct (_ || _). }
  intros []. eapply ok_bind; [by apply ok_align|]. intros [] ac [Hm Hp]. st_unfold. destruct (_ && _); [done|]. destruct (_ && _); [|done].
  split; [exact Hm|]. cbn [ac_pos ac_move]. lia.
Qed.

(** A place of [n] bytes in the data. *)
Definition in_data (ptr n : Z) : Prop := 0 <= ptr /\ 0 <= n /\ ptr + n <= Z.of_nat (length data).

Lemma ok_bytes n : 0 <= n -> gives_ok at_byte (s_bytes n) (fun ptr ac => on_data ac /\ in_data ptr n).
Proof.
  intros Hn ac [[Hm Hp] H8]. unfold s_bytes. st_unfold. destruct (_ <=? n); [done|].
  destruct (_ || _) eqn:E; [done|]. apply orb_false_iff in E as [_ E%Z.ltb_ge]. unfold ac_bits in E. rewrite Hm in E.
  split; [split; [exact Hm|cbn [ac_pos ac_move]; lia]|]. unfold in_data. zlia.
Qed.

(** A terminator of a string of bytes lies in it. *)
Lemma null_term_in ptr n term : in_data ptr n -> find_null_term data ptr n ACTF_ENCODING_UTF8 = Ok (Some term) -> ptr <= term < ptr + n.
Proof.
  intros (Hp & Hn & Hl) Ht. pose proof (find_null_term_spec data ptr n ACTF_ENCODING_UTF8 Hp Hn Hl ltac:(unfold is_valid_str_sz, c_true; change (actf_encoding_to_codepoint_size ACTF_ENCODING_UTF8) with 1; by rewrite ?Z.rem_1_r, ?Z.mod_1_r)) as Hf.
  rewrite Ht in Hf. change (actf_encoding_to_codepoint_size ACTF_ENCODING_UTF8) with 1 in Hf. destruct Hf as (k & Hk & Hkn & -> & _). lia.
Qed.

Lemma ok_str n : 0 <= n -> gives_ok on_data (s_str ACTF_ENCODING_UTF8 n) (fun p ac => on_data ac /\ in_data (fst p) (snd p)).
Proof.
  intros Hn. unfold s_str. eapply ok_bind; [apply ok_align8|]. intros []. eapply ok_bind; [by apply ok_bytes|]. intros ptr.
  apply (ok_bind _ _ _ (fun term ac => on_data ac /\ in_data ptr n /\ forall t, term = Some t -> ptr <= t < ptr + n)).
  - intros ac [[Hm Hp] Hin]. unfold s_find_null. rewrite Hm. destruct (find_null_term _ _ _ _) as [[term|]|rc|] eqn:E; try done.
    split; [done|]. split; [done|]. intros t [= <-]. by apply null_term_in.
  - intros [term|]; [apply ok_ret|destruct (is_valid_str_sz n ACTF_ENCODING_UTF8); [apply ok_ret|apply ok_fail]]; intros ac (Hac & Hin & Ht);
      (split; [done|]); cbn [fst snd]; [|exact Hin]. specialize (Ht term eq_refl). unfold in_data in *. lia.
Qed.

Lemma ok_blob n : 0 <= n -> gives_ok on_data (s_blob n) (fun p ac => on_data ac /\ in_data p n).
Proof. intros Hn. unfold s_blob. eapply ok_bind; [apply ok_align8|]. intros []. by apply ok_bytes. Qed.

Lemma ok_null_term enc : gives_ok on_data (s_null_term_str enc) (fun p ac => on_data ac /\ in_data (fst p) (snd p)).
Proof.
  unfold s_null_term_str. eapply ok_bind; [apply ok_align8|]. intros [] ac [[Hm Hp] H8]. st_unfold. destruct (_ <? _); [done|].
  unfold s_find_null. destruct (find_null_term _ _ _ _) as [[term|]|rc|]; try done. destruct (_ || _) eqn:E; [done|].
  apply orb_false_iff in E as [E1%Z.ltb_ge E2%Z.ltb_ge]. unfold ac_bits in E2. rewrite Hm in E2. cbn [fst snd ac_pos ac_move].
  split; [split; [exact Hm|cbn [ac_pos ac_move]; lia]|]. unfold in_data. zlia.
Qed.

(** ** Texts *)

Lemma c_strn_defined b n : (n <= length b)%nat -> is_Some (c_strn b (Some n)).
Proof.
  revert n. induction b as [|c b IH]; intros [|n] Hn; cbn in *; try (by eexists); try lia. destruct (c =? 0); [by eexists|].
  destruct (IH n ltac:(lia)) as (t & ->). by eexists.
Qed.

Lemma str_text_defined ptr n : in_data ptr n -> is_Some (str_text ACTF_ENCODING_UTF8 (drop (Z.to_nat ptr) data) n).
Proof.
  intros (Hp & Hn & Hl). unfold str_text, fmt_s. unfold i32. rewrite (wrap_signed_small 32 n) by lia. rewrite (proj2 (Z.ltb_ge n 0)) by lia.
  destruct (c_strn_defined (drop (Z.to_nat ptr) data) (Z.to_nat n)) as (t & ->); [rewrite length_drop; lia|]. by eexists.
Qed.

Lemma sint_text_defined v b : pref_display_base b = ACTF_BASE_DECIMAL \/ v <> INT64_MIN -> is_Some (sint_text v (pref_display_base b)).
Proof.
  intros Hv. unfold sint_text. destruct (pref_display_base b), (v >=? 0); try (by eexists); destruct (Z.eqb_spec v INT64_MIN); try (by eexists);
    destruct Hv; (done || congruence).
Qed.

Lemma wrap_signed_above w v : 1 <= w < 64 -> wrap_signed w v <> INT64_MIN.
Proof.
  intros Hw. pose proof (wrap_signed_range w v ltac:(lia)). assert (Hpow : 2 ^ (w - 1) <= 2 ^ 62) by (apply Z.pow_le_mono_r; lia).
  unfold INT64_MIN. lia.
Qed.

Lemma uint_defined cls parent v n b :
  int_base_of cls = Some b -> names_ok false b -> is_Some (fld_text data (mk_fld (Some cls) parent (ACTF_FLD_TYPE_UINT v n))).
Proof.
  intros Hb Hn. cbn [fld_text mbind option_bind]. unfold actf_fld_cls_mappings. rewrite Hb. cbn [fmap option_fmap option_map].
  destruct (mappings_text_defined false b v Hn) as (t & ->). by eexists.
Qed.

Lemma sint_defined cls parent v b : int_base_of cls = Some b -> names_ok true b -> base_ok b (v <> INT64_MIN) ->
  is_Some (fld_text data (mk_fld (Some cls) parent (ACTF_FLD_TYPE_SINT v))).
Proof.
  intros Hb Hn Hv. cbn [fld_text mbind option_bind]. unfold actf_fld_cls_mappings, actf_fld_cls_pref_display_base. rewrite Hb.
  cbn [fmap option_fmap option_map]. destruct (sint_text_defined v b Hv) as (s & ->). destruct (mappings_text_defined true b v Hn) as (t & ->). by eexists.
Qed.

Lemma blob_defined cls parent p n : in_data p n -> is_Some (fld_text data (mk_fld (Some cls) parent (ACTF_FLD_TYPE_BLOB p n))).
Proof.
  intros (H1' & H2' & H3'). cbn [fld_text]. rewrite (proj2 (Z.leb_le 0 p)), (proj2 (Z.leb_le 0 _)), (proj2 (Z.leb_le (p + _) _)) by lia.
  by eexists.
Qed.

(** The scalar fields of a class. *)
Lemma ok_leaf cls parent : fc_wf cls -> printable cls ->
  gives_ok on_data (s_leaf cls) (fun d ac => on_data ac /\ is_Some (fld_text data (mk_fld (Some cls) parent d))).
Proof.
  intros Hwf Hp.
  assert (Hfxd : forall a (f : Z -> fld_d), bit_arr_wf a -> (forall v, is_Some (fld_text data (mk_fld (Some cls) parent (f v)))) ->
    gives_ok on_data (v ← s_fxd a; mret (f v)) (fun d ac => on_data ac /\ is_Some (fld_text data (mk_fld (Some cls) parent d)))).
  { intros a f Ha Hf. eapply ok_bind; [by apply ok_fxd|]. intros v. apply ok_ret. auto. }
  destruct cls; cbn [s_leaf fc_wf printable] in *; try apply ok_undef.
  - apply Hfxd; [done|]. intros v. by eexists.
  - apply Hfxd; [done|]. intros v. cbn [fld_text mbind option_bind actf_fld_cls_bit_map_flags]. destruct (flags_text_defined flags v) as (t & ->). by eexists.
  - apply Hfxd; [done|]. intros v. by eapply uint_defined.
  - destruct Hp as [Hn Hb]. apply Hfxd; [done|]. intros v. eapply sint_defined; [done|done|].
    destruct Hb as [Hb|Hb]; [by left|right]. apply wrap_signed_above. destruct Hwf. lia.
  - apply Hfxd; [done|]. intros v. by eexists.
  - eapply ok_bind; [by apply ok_fxd|]. intros v. destruct (_ || _); [|apply ok_fail]. apply ok_ret. intros ac Hac. split; [done|].
    cbn [fld_text]. unfold actf_fld_double, real_val. cbn [f_d f_cls]. by eexists.
  - eapply ok_bind; [by apply ok_var_len|]. intros [v n]. apply ok_ret. intros ac Hac. split; [done|]. by eapply uint_defined.
  - destruct Hp as [Hn Hb]. eapply ok_bind; [by apply ok_var_len|]. intros [v n]. apply ok_ret. intros ac Hac. split; [done|].
    eapply sint_defined; [done|done|]. destruct Hb as [Hb|[]]. by left.
  - subst. eapply ok_bind; [by apply ok_null_term|]. intros [p n]. apply ok_ret. intros ac [Hac Hin]. split; [done|].
    cbn [fld_text mbind option_bind actf_fld_cls_encoding]. by apply str_text_defined.
  - subst. eapply ok_bind; [apply ok_str; unfold is_u64 in Hwf; lia|]. intros [p m]. apply ok_ret. intros ac [Hac Hin]. split; [done|].
    cbn [fld_text mbind option_bind actf_fld_cls_encoding]. by apply str_text_defined.
  - eapply ok_bind; [apply ok_blob; unfold is_u64 in Hwf; lia|]. intros p. apply ok_ret. intros ac [Hac Hin]. split; [done|].
    by apply blob_defined.
Qed.

(** ** Fields *)

(** The state of the specification of fields. *)
Definition on_stream (s : sst) : Prop := on_data (ss_cur s).

Lemma ok_acur {A} (c : st acur A) Q : gives_ok on_data c Q -> gives_ok on_stream (on_acur c) (fun a s => Q a (ss_cur s)).
Proof.
  intros Hc s Hs. specialize (Hc (ss_cur s) Hs). unfold on_acur, st_zoom. destruct (c (ss_cur s)) as [[a|rc|] ac]; done.
Qed.

Lemma ok_upd_pkt h : gives_ok on_stream (s_upd_pkt h) (fun _ => on_stream).
Proof. by intros s Hs. Qed.
Lemma ok_upd_ev h : gives_ok on_stream (s_upd_ev h) (fun _ => on_stream).
Proof. intros s Hs. unfold s_upd_ev. by destruct (ss_ev s). Qed.
Lemma ok_uint64 f : gives_ok on_stream (s_uint64 f) (fun _ => on_stream).
Proof. intros s Hs. unfold s_uint64. by destruct (_ && _). Qed.
Lemma ok_clock cls f : gives_ok on_stream (s_clock cls f) (fun _ => on_stream).
Proof. intros s Hs. unfold s_clock, mbind, st_bind, st_get. by destruct (calc_new_def_clk_val _ _ _). Qed.

(** Roles change neither the data nor the position. *)
Lemma ok_roles md c cls f : gives_ok on_stream (s_roles md c cls f) (fun _ => on_stream).
Proof.
  assert (Hset : forall h, gives_ok on_stream (s_set h cls f) (fun _ => on_stream)).
  { intros h. eapply ok_bind; [apply ok_uint64|]. intros v. apply ok_upd_pkt. }
  assert (Ht : Forall (fun e => gives_ok on_stream (snd e cls f) (fun _ => on_stream)) (role_table md c)).
  { destruct c; cbn [role_table]; repeat constructor; cbn [snd]; try apply Hset.
    - unfold s_magic. destruct (_ =? _); [by apply ok_ret|apply ok_fail].
    - intros s Hs. unfold s_uuid, mbind, st_bind, st_get. destruct (f_d f); try done. destruct (_ || _); [done|]. by destruct (bool_decide _).
    - eapply ok_bind; [apply ok_clock|]. intros v. apply ok_upd_pkt.
    - eapply ok_bind; [apply ok_uint64|]. intros v. apply ok_upd_ev.
    - eapply ok_bind; [apply ok_clock|]. intros v. apply ok_upd_ev. }
  unfold s_roles. induction Ht as [|e t He _ IH]; [by apply ok_ret|]. cbn [s_each_role]. apply (ok_bind _ _ _ (fun _ => on_stream)); [|by intros []].
  unfold s_role. destruct (has_role _ _); [exact He|by apply ok_ret].
Qed.

Lemma ok_locate lf V loc parent : gives_ok on_stream (s_locate lf V loc parent) (fun f s => on_stream s /\ in_range f).
Proof.
  intros s Hs. unfold s_locate. destruct (fld_loc_locate _ _ _ _) as [[b|]|rc|]; try done. destruct (v_fetch V b) as [f|]; [|done].
  by destruct (decide (in_range f)).
Qed.

Lemma ok_length lf V loc parent : gives_ok on_stream (s_length lf V loc parent) (fun n s => on_stream s /\ 0 <= n).
Proof.
  eapply ok_bind; [apply ok_locate|]. intros f s [Hs Hf]. unfold in_range in Hf. destruct (f_d f); try done. split; [done|]. apply Hf.
Qed.

Definition has_text (f : actf_fld) : Prop := is_Some (fld_text data f).
Definition fld_ok md lf c (cls : actf_fld_cls) : Prop :=
  forall V val parent, gives_ok on_stream (spec_fld md lf c cls V val parent) (fun g s => on_stream s /\ has_text g).
Definition flds_ok (n : nat) (fs : list actf_fld) (s : sst) : Prop := on_stream s /\ length fs = n /\ Forall has_text fs.

Lemma texts_defined fs : Forall has_text fs -> is_Some (mapM (fld_text data) fs).
Proof. intros Ht. by apply mapM_is_Some. Qed.

Section Specs.
Context (md : actf_metadata) (lf : nat) (c : dec_ctx).
Notation fld_ok := (fld_ok md lf c).

Lemma ok_members val seen ms : Forall (fun m => fld_ok (snd m)) ms -> forall l, Forall has_text l ->
  gives_ok on_stream (s_members md c (spec_fld md lf c) seen val ms l) (flds_ok (length ms + length l)).
Proof.
  induction 1 as [|[nm mc] ms Hc _ IH]; intros l Hl; [by apply ok_ret|]. cbn [s_members].
  eapply ok_bind; [apply Hc|]. intros g. apply ok_frame. intros Hg. eapply ok_bind; [apply ok_roles|]. intros [].
  assert (Hlen : (length ((nm, mc) :: ms) + length l = length ms + length (l ++ [g]))%nat) by (rewrite length_app; cbn; lia).
  rewrite Hlen. apply IH, Forall_app; by repeat constructor.
Qed.

Lemma ok_elems val seen parent ele n : fld_ok ele -> forall l, Forall has_text l ->
  gives_ok on_stream (s_elems (fun V a => spec_fld md lf c ele V a parent) seen val n l) (flds_ok (n + length l)).
Proof.
  intros He. induction n as [|n IH]; intros l Hl; [by apply ok_ret|]. cbn [s_elems].
  eapply ok_bind; [apply He|]. intros g. apply ok_frame. intros Hg.
  assert (Hlen : (S n + length l = n + length (l ++ [g]))%nat) by (rewrite length_app; cbn; lia).
  rewrite Hlen. apply IH, Forall_app; by repeat constructor.
Qed.

Lemma ok_array cls V val parent ele al n :
  0 < al -> 0 <= n -> fld_ok ele ->
  gives_ok on_stream
    (on_acur (s_align al);;
     if MAX_FLDS <? n then st_undef
     else
       vals ← s_elems (fun V a => spec_fld md lf c ele V a parent)
                (fun vals n => v_put val (mk_fld (Some cls) parent (ACTF_FLD_TYPE_ARR vals n)) V) val (Z.to_nat n) [];
       mret (mk_fld (Some cls) parent (ACTF_FLD_TYPE_ARR vals n)))
    (fun g s => on_stream s /\ has_text g).
Proof.
  intros Hal Hn He. eapply ok_bind; [by apply ok_acur, ok_align|]. intros []. destruct (_ <? _); [apply ok_undef|].
  eapply ok_bind; [by apply ok_elems|]. intros vals. apply ok_ret. intros s (Hs & Hl & Ht). split; [done|].
  unfold has_text. cbn [fld_text]. destruct (texts_defined vals Ht) as (ts & ->). cbn [mbind option_bind].
  cbn [length] in Hl. rewrite Hl, Nat.add_0_r, Z2Nat.id, Z.eqb_refl by lia. by eexists.
Qed.

Lemma ok_selected cls V val parent : fld_ok cls ->
  gives_ok on_stream (f ← spec_fld md lf c cls V val parent; s_roles md c cls f;; mret f) (fun g s => on_stream s /\ has_text g).
Proof.
  intros Hc. eapply ok_bind; [apply Hc|]. intros g. apply ok_frame. intros Hg. eapply ok_bind; [apply ok_roles|]. intros [].
  by apply ok_ret.
Qed.

Lemma ok_choose sel v opts k Q :
  Forall (fun o => gives_ok on_stream (sel (snd (fst o))) Q) opts -> gives_ok on_stream k Q ->
  gives_ok on_stream (s_choose sel v opts k) Q.
Proof.
  intros Ho. revert k. induction Ho as [|[[nm oc] rs] opts Hc _ IH]; intros k Hk; [done|]. cbn [s_choose]. apply IH.
  by destruct (bool_decide _).
Qed.
End Specs.

(** The parts of a class that can be shown can be shown. *)
Lemma printable_subs cls : printable cls -> Forall printable (subs cls).
Proof.
  destruct cls as [| | | | | | | | | | | | | |ms m al| | |oc loc rngs|opts loc]; cbn; try (by constructor).
  - induction ms as [|[nm c] ms IH]; [done|]. intros [Hc Hms]. constructor; [done|by apply IH].
  - induction opts as [|[[nm c] rs] opts IH]; [done|]. intros [Hc Ho]. constructor; [done|by apply IH].
Qed.

(** What is decoded of a class that can be shown has a text. *)
Lemma ok_fld md lf c cls : fc_wf cls -> printable cls -> fld_ok md lf c cls.
Proof.
  induction cls as [cls IH] using fld_cls_ind_subs. intros Hwf Hp.
  assert (Hall : Forall (fld_ok md lf c) (subs cls)).
  { pose proof (proj2 (Forall_and _ _) (conj IH (proj2 (Forall_and _ _) (conj (fc_wf_subs cls Hwf) (printable_subs cls Hp))))) as Hs.
    eapply Forall_impl; [exact Hs|]. intros x (Hx & H1' & H2'). by apply Hx. }
  destruct (align_req_pow2 cls Hwf) as (al & Hal & k & Hk & ->). assert (Hpos : 0 < 2 ^ k) by (apply Z.pow_pos_nonneg; lia).
  assert (Hleaf : (forall V val parent, spec_fld md lf c cls V val parent = (d ← on_acur (s_leaf cls); mret (mk_fld (Some cls) parent d))) -> fld_ok md lf c cls).
  { intros Hs V val parent. rewrite Hs. eapply ok_bind; [by apply ok_acur, (ok_leaf cls parent)|]. intros d. by apply ok_ret. }
  destruct cls as [| | | | | | | | | | |enc loc| |loc mt|ms m al|ele m n|ele m loc|oc loc rngs|opts loc]; try (by apply Hleaf);
    intros V val parent; cbn [spec_fld]; rewrite ?Hal.
  - cbn in Hp. subst enc. eapply ok_bind; [apply ok_length|]. intros n. apply ok_frame. intros Hn.
    eapply ok_bind; [by apply ok_acur, ok_str|]. intros [p q]. apply ok_ret. intros s [Hs Hin]. split; [done|].
    unfold has_text. cbn [fld_text mbind option_bind actf_fld_cls_encoding]. by apply str_text_defined.
  - eapply ok_bind; [apply ok_length|]. intros n. apply ok_frame. intros Hn.
    eapply ok_bind; [by apply ok_acur, ok_blob|]. intros p. apply ok_ret. intros s [Hs Hin]. split; [done|]. by apply blob_defined.
  - cbn in Hal. injection Hal as ->. eapply ok_bind; [by apply ok_acur, ok_align|]. intros []. destruct (_ <? _); [apply ok_undef|].
    eapply ok_bind; [apply ok_members; [exact (proj1 (Forall_fmap _ _ _) Hall)|done]|].
    intros vals. apply ok_ret. intros s (Hs & Hl & Ht). split; [done|]. unfold has_text. cbn [fld_text].
    destruct (texts_defined vals Ht) as (ts & ->). cbn [mbind option_bind]. cbn [length] in Hl. rewrite Hl, Nat.add_0_r, Nat.eqb_refl. by eexists.
  - apply ok_array; [done|apply Hwf|by inversion Hall].
  - eapply ok_bind; [apply ok_length|]. intros n. apply ok_frame. intros Hn. apply ok_array; [done|done|by inversion Hall].
  - eapply ok_bind; [apply ok_locate|]. intros sel. apply ok_frame. intros _.
    apply (ok_bind _ _ _ (fun _ => on_stream)).
    { intros s Hs. unfold s_enabled. destruct (f_d sel); try done; destruct (_ =? _); try done; by destruct (int_value sel). }
    intros [|]; [apply ok_selected; by inversion Hall|]. apply ok_ret. intros s Hs. split; [done|]. by eexists.
  - eapply ok_bind; [apply ok_locate|]. intros sel. apply ok_frame. intros _. destruct (int_value sel) as [v|]; [|apply ok_fail].
    apply ok_choose; [|apply ok_fail]. eapply Forall_impl; [exact (proj1 (Forall_fmap _ _ _) Hall)|]. intros o Ho. by apply ok_selected.
Qed.
End Data.

(** C12: what is decoded can be printed.  For a well-formed class whose fields can be shown,
    in a data stream of less than 2 GiB: whenever the specification of decoding
    gives a field, the decoder builds it, and the printer writes its text, returns
    ACTF_OK and meets nothing undefined: every string and blob lies in the data,
    every member has a name, every number a text. *)
Theorem decoded_field_prints md pm em lf c cls val d f fuel (p : pst CD) :
  (forall n sz, pm n sz = true) -> (forall n sz, em n sz = true) -> fc_wf cls -> printable cls -> env_ok c d ->
  fetch d val = Some f -> f_d f = ACTF_FLD_TYPE_NIL ->
  let data := br_mem (br d) in
  Z.of_nat (length data) < 2 ^ 31 -> cds_ok (prn p) ->
  match spec_fld md lf c cls (view_of d) val (f_parent f) (abs d) with
  | (Ok g, _) =>
      exists d' t, fld_cls_decode md pm em lf cls val d = (Ok tt, d') /\ fetch d' val = Some g /\ fld_text data g = Some t /\
        ((fld_depth g <= fuel)%nat -> exists q, actf_fprint_fld fuel data g p = (Ok ACTF_OK, mk_pst q (out p ++ t)))
  | _ => True
  end.
Proof.
  intros Hpm Hem Hwf Hp Hd Hf Hnil data Hsmall Hcds.
  pose proof (decodes_all md pm em lf c Hpm Hem cls Hwf val f Hnil d Hd (ex_intro _ f Hf)) as Hdec. rewrite (put_self _ _ _ Hf) in Hdec.
  assert (Hon : on_stream data (abs d)) by (split; [done|]; destruct Hd as [[? Hoff ?] ? ? ?]; cbn in *; unfold c_pos; cbn in *; lia).
  pose proof (ok_fld data Hsmall md lf c cls Hwf Hp (view_of d) val (f_parent f) _ Hon) as Hok.
  destruct (spec_fld md lf c cls (view_of d) val (f_parent f) (abs d)) as [[g|rc|] s]; [|done..]. destruct Hok as [_ [t Ht]].
  destruct Hdec as (d' & Hadv & Hrun). exists (DecoderRefine.put val g d'), t. split; [done|]. split.
  - apply (fetch_put _ _ _ f). by rewrite (advanced_fetch _ _ _ _ _ Hadv).
  - split; [done|]. intros Hfuel. destruct (fprint_fld_text fuel data g t Ht Hfuel p Hcds) as (q & R & _). by exists q.
Qed.
End Printable.

Import PrintSpec.AsciiConv.
#[local] Existing Instance heap_ok.

Example decoded_field_prints_witness :
  exists g d' t, fld_cls_decode md0 malloc_yes malloc_yes 4 dyn_payload payload_addr (at_payload dyn_data) = (Ok tt, d') /\
    fetch d' payload_addr = Some g /\ fld_text dyn_data g = Some t /\
    requote t = lit "{ n: 3, xs: [7, 8, 9], v: -2, s: 'AB' }" /\
    exists q, actf_fprint_fld 3 dyn_data g (mk_pst sample_printer []) = (Ok ACTF_OK, mk_pst q t).
Proof.
  assert (Hpr : printable dyn_payload) by (cbn; unfold names_ok, base_ok; cbn; repeat split; try (by left); by right).
  assert (Hlen : Z.of_nat (length (br_mem (br (at_payload dyn_data)))) < 2 ^ 31) by (vm_compute; done).
  assert (Hcds : cds_ok (prn (mk_pst sample_printer []))) by (split; [done|by intros ?? [=]]).
  assert (Henv : env_ok DEC_CTX_EVENT_PAYLOAD (at_payload dyn_data)) by (apply at_payload_ok; [by apply bytes_ok|vm_compute; discriminate]).
  pose proof (decoded_field_prints (fun _ => eq_refl) md0 malloc_yes malloc_yes 4 DEC_CTX_EVENT_PAYLOAD dyn_payload payload_addr (at_payload dyn_data)
    nil_fld 3 (mk_pst sample_printer []) (fun _ _ => eq_refl) (fun _ _ => eq_refl) dyn_payload_wf Hpr Henv eq_refl eq_refl Hlen Hcds) as Hp.
  assert (E : exists g s, spec_fld md0 4 DEC_CTX_EVENT_PAYLOAD dyn_payload (view_of (at_payload dyn_data)) payload_addr (f_parent nil_fld)
      (abs (at_payload dyn_data)) = (Ok g, s) /\
    requote <$> fld_text dyn_data g = Some (lit "{ n: 3, xs: [7, 8, 9], v: -2, s: 'AB' }") /\ fld_depth g = 3%nat).
  { eexists _, _. split; [vm_compute; reflexivity|]. split; vm_compute; reflexivity. }
  destruct E as (g & s & E & Ht & Hdep). rewrite E in Hp. destruct Hp as (d' & t & Hrun & Hfetch & Htext & Hq).
  exists g, d', t. split; [exact Hrun|]. split; [exact Hfetch|]. split; [exact Htext|]. split.
  - change (fld_text dyn_data g = Some t) in Htext. rewrite Htext in Ht. by injection Ht.
  - destruct Hq as (q & Hq); [rewrite Hdep; lia|]. by exists q.
Defined.
